(* ===== verification/_CoqProject ===== *)
-Q . S2P
Prelude.v
Bytes.v
Crc32c.v
LsmtFormat.v
Source.v
File.v
Segments.v
Merge.v
Trim.v
Lsmt.v
Journal.v
FilePair.v
PairGrow.v
LsmtRw.v
LsmtRwGrow.v
MergedWritable.v
MergedLsmtRw.v
DeviceGate.v
SparseIndex.v
SparseScan.v
SparseLayer.v
SparseWrite.v
SparseDevice.v
ZFileFormat.v
ZFile.v
Writer.v
ZFileWriter.v
LayerFile.v
LsmtWriter.v
Seal.v
PairCreate.v
Commit.v
OpenTotal.v
TagEngine.v
TagServe.v
HybridFormat.v
HybridLog.v
HybridCrash.v
HybridWriter.v
HybridMappings.v
HybridDevice.v
HybridReopen.v
Base64.v
Trace.v
Tar.v
TurboPackage.v
