(* ===== verification/Prelude.v ===== *)
(** * Verification of OverlayBD-Elio

    OverlayBD-Elio serves container images as block devices: a stack of
    read-only layers, optionally topped by a writable layer, is presented
    through ublk.  This library models the parts of it that decide which bytes
    a device returns and what a crash leaves behind, translated from the C++
    under src/, and proves them correct.

    ** The program and its parts

    A device request arrives at a ublk queue, whose tag engine
    (src/ublk/tag_engine.cpp) hands it to a handler; the handler calls the
    merged device (src/format/merged_writable.cpp) or the merged read-only view
    (src/format/lsmt.cpp).  These resolve a sector through an index merged from
    the layers' segment mappings and read the layer that owns it: a sealed LSMT
    layer (lsmt.cpp, headers in lsmt_format.cpp), possibly inside a compressed
    ZFile (zfile.cpp, zfile_format.cpp, block_codec.cpp), or the writable layer
    on top (lsmt_rw.cpp over the file pair of lsmt_rw_file.cpp and its journal
    in lsmt_rw_index.cpp; the upstream Hybrid format of hybrid_writer.cpp,
    hybrid_file.cpp, hybrid_log_state.cpp and hybrid_format.cpp; or the sparse
    file of sparse_rw.cpp, whose index is scanned from the file system's extents
    by sparse_extent_scan.cpp).  The writers
    (writer.cpp, the seal and commit of lsmt_rw.cpp) produce layers that the
    readers open.

    ** Files

    - [Prelude]: fixed-width integers, failures, the IO monad [io], byte lists,
      notations, tactics and hints used everywhere.
    - [Bytes]: common/bytes.hpp, little-endian loads and stores and the packed
      segment mapping.  [Crc32c]: common/crc32c.cpp, software and hardware loops.
    - [LsmtFormat]: format/lsmt_format.{hpp,cpp}.  [Source]:
      source/blob_source.hpp as the type of sources with its read contract.
    - [File]: files, the script of system-call outcomes and the logic of
      attempts.
    - [Segments], [Merge], [Trim]: the meaning of a segment list ([resolve]) and
      the list algorithms of lsmt.cpp and lsmt_rw.cpp over it.
    - [Lsmt]: format/lsmt.cpp, opening layers and reading the merged view.
    - [Journal]: format/lsmt_rw_index.cpp.  [FilePair], [PairGrow],
      [PairCreate]: format/lsmt_rw_file.cpp (open, append, compaction; growth;
      creation and its recovery).
    - [LsmtRw], [LsmtRwGrow], [Seal], [Commit], [OpenTotal]: format/lsmt_rw.cpp
      (operations; growth; sealing; commit by path; opening by path).
    - [MergedWritable], [MergedLsmtRw], [DeviceGate]:
      format/merged_writable.cpp and the interface format/writable.hpp, first
      over any conforming top, then with the writable layer as the top; the
      gates as a concurrent transition system.
    - [SparseIndex], [SparseScan], [SparseLayer], [SparseWrite], [SparseDevice]:
      format/sparse_rw.cpp and format/sparse_extent_scan.cpp: edits of the
      index; the extent scan; the layer; its writes as a top of the merged device;
      the device and reopening.
    - [ZFileFormat], [ZFile], [Writer], [ZFileWriter], [LayerFile],
      [LsmtWriter]: format/zfile_format.cpp, zfile.cpp, block_codec.cpp and
      writer.cpp.
    - [TagEngine], [TagServe]: ublk/tag_engine.cpp, the mailbox protocol as a
      transition system and the dispatch of a request.
    - [HybridFormat], [HybridLog], [HybridCrash], [HybridWriter],
      [HybridMappings], [HybridDevice], [HybridReopen]: format/hybrid_format.cpp,
      hybrid_log_state.cpp, the log part of hybrid_file.cpp and
      hybrid_writer.cpp: replay; log metadata and its codec; crashes; the writer;
      its mapping list; the device it presents; reopening.
    - [Base64]: source/base64.hpp.  [Trace]: format/trace.cpp and
      image/trace_replay.cpp.  [Tar]: source/tar_offset.cpp.  [TurboPackage]:
      tools/turbo_package.cpp.

    ** How the code is modelled

    Pure functions are functions on [Z], [bytes] and records that keep the
    source's names; unsigned arithmetic that can wrap is written with [u32] and
    [u64].  A function that can fail returns [res]; one with effects is an
    [io W A], a function of a state [W] that also gives back the state when it
    fails.  Exceptions and negative returns are both [Err (Errno e)];
    [Undefined] is an access outside an object and [Fuel] an exhausted loop, and
    the theorems exclude both where the code does not really reach them.

    System calls take their outcomes from a script in the state, a list of
    [Done] and [Failed n e], where a failed write leaves its first [n] bytes; a
    theorem that holds for every script covers every pattern of errors and, for
    a script that ends the run, every point of interruption.  A successful sync
    makes durable everything written to that file before.  [HybridCrash] adds
    what a machine crash may take back: unsynced attribute values, bytes and
    lengths past the durable prefix, and the file a renamed name leads to.  The
    sparse files add the allocation of 4 KiB blocks, which a write and a zeroed
    range change together with the bytes; a write inside one block is not cut
    short, as the code assumes.

    Mutexes that make operations serial are left out of the operations;
    where admission itself is concurrent ([DeviceGate], [TagEngine]) the steps
    are a relation and the theorems hold for every interleaving.

    Libraries are parameters: the codecs of lz4 and zstd, SHA-256, the UUID
    generator, layer sources, FIEMAP, the kernel's ublk opcodes.  What is used of them is
    stated as hypotheses, and each property that has one comes with a witness at
    concrete functions.

    ** What the theorems show

    - Reading: a stack of layers that opens reads as its topmost covering layer
      says ([Lsmt.merged_view_reads_stack]); the merge, the open checks and the
      codecs behind it ([Merge], [LsmtFormat], [Crc32c], [ZFile],
      [ZFileFormat]).
    - Writing: writes and discards of the writable layers and of the merged
      device change exactly their range or stop with an errno and a prefix
      ([LsmtRw], [MergedLsmtRw], [HybridDevice], [SparseDevice], [TagServe]).
    - Coming back: files left by any interruption of an append, compaction,
      growth, creation or log replacement open to the state before or after
      ([FilePair], [PairGrow], [PairCreate], [LsmtRw.reopen_recovers_device],
      [HybridCrash], [HybridReopen]); a sparse layer in any state reopens to what
      the file system holds ([SparseDevice.sparse_reopen_correct]).
    - Producing layers: what seal, commit and the writers publish opens and
      reads as what was there ([Seal], [Commit], [LsmtWriter],
      [ZFileWriter]).
    - Concurrency: admission excludes growth, and each request is answered once
      ([DeviceGate], [TagEngine]).
    - Flaws: inputs on which the code misbehaves
      ([Lsmt.empty_mapping_breaks_read], [FilePair.guest_block_blocks_reopen],
      [MergedLsmtRw.deep_stack_wraps], [ZFile.short_index_reads_outside],
      [SparseDevice.second_discard_exposes_lower]).
    - Around the device: the tar wrapper, the prefetch trace, the TurboOCI
      packages and base64 ([Tar.tar_open_presents], [Trace.trace_roundtrip],
      [TurboPackage.turbo_package_roundtrip],
      [TurboPackage.turbo_import_confined], [Base64.base64_roundtrip]).

    ** Bounds and fuel

    Loops whose recursion is not structural take fuel: the number of bytes,
    sectors or records the loop can consume, each pass consuming at least one;
    the theorems about them give a result, so the fuel is shown to suffice.
    Format limits (50-bit sectors, 14-bit lengths, one million index entries, four
    million log records) appear as in the source.  UUIDs are numbered and those a
    writer takes are assumed to make different generations; the supply is finite
    because generations have 16 bytes.

    ** Not modelled

    The runtime (elio, io_uring), the ublk control path and queues, the
    supervisor and the programs' entry points are I/O and process management.
    The registry, the layer store and the image assembly compose modelled parts
    through HTTP, JSON and background tasks.  The Hybrid grow and seal
    transactions, the export of a sparse layer and its legacy side files, which only
    test builds open, are not modelled.  Test hooks compiled only into test builds
    are left out everywhere.  Messages, labels and logging are left out.
    Memory exhaustion is modelled only where a handler tells it from other
    errors. *)
From stdpp Require Export numbers list_numbers base list.

Open Scope Z_scope.

(** ** Fixed-width unsigned integers *)

Definition wrap (w x : Z) : Z := x mod 2 ^ w.
Definition u8 (x : Z) : Z := wrap 8 x.
Definition u16 (x : Z) : Z := wrap 16 x.
Definition u32 (x : Z) : Z := wrap 32 x.
Definition u64 (x : Z) : Z := wrap 64 x.

Lemma wrap_small w x : 0 <= x < 2 ^ w -> wrap w x = x.
Proof. intros H. unfold wrap. apply Z.mod_small. lia. Qed.
Lemma wrap_range w x : 0 <= w -> 0 <= wrap w x < 2 ^ w.
Proof. intros H. unfold wrap. apply Z.mod_pos_bound. lia. Qed.
Lemma u8_small x : 0 <= x < 256 -> u8 x = x.
Proof. intros. apply wrap_small. lia. Qed.
Lemma u16_small x : 0 <= x < 2 ^ 16 -> u16 x = x.
Proof. intros. by apply wrap_small. Qed.
Lemma u32_small x : 0 <= x < 2 ^ 32 -> u32 x = x.
Proof. intros. by apply wrap_small. Qed.
Lemma u64_small x : 0 <= x < 2 ^ 64 -> u64 x = x.
Proof. intros. by apply wrap_small. Qed.

(** Rewrites away the casts whose argument [lia] can bound. *)
Create Rewrite HintDb width.
#[export] Hint Rewrite u8_small u16_small u32_small u64_small using lia : width.
Ltac width := autorewrite with width in *.

(** ** Failures

    The cold paths of the program throw [obd::error] carrying an errno, the hot
    paths return a negative errno: both are [Errno].  [Undefined] is a memory
    access outside its object, [Fuel] a model loop that ran out of fuel; the
    theorems show that neither is reachable. *)

Inductive fail := Errno (e : Z) | Undefined | Fuel.

#[export] Instance fail_eq_dec : EqDecision fail.
Proof. solve_decision. Defined.

Definition ENOENT : Z := 2.
Definition EIO : Z := 5.
Definition EBADF : Z := 9.
Definition EAGAIN : Z := 11.
Definition ENOMEM : Z := 12.
Definition EBUSY : Z := 16.
Definition EEXIST : Z := 17.
Definition EINVAL : Z := 22.
Definition EFBIG : Z := 27.
Definition ENOSPC : Z := 28.
Definition EROFS : Z := 30.
Definition ERANGE : Z := 34.
Definition EPROTO : Z := 71.
Definition EOVERFLOW : Z := 75.
Definition EOPNOTSUPP : Z := 95.
Definition ESHUTDOWN : Z := 108.
Definition EALREADY : Z := 114.

Inductive res (A : Type) := Ok (a : A) | Err (f : fail).
Arguments Ok {A} a.
Arguments Err {A} f.

#[export] Instance res_ret : MRet res := fun A a => Ok a.
#[export] Instance res_bind : MBind res :=
  fun A B f m => match m with Ok a => f a | Err e => Err e end.

(** [format_error] carries [EINVAL] unless the code says otherwise. *)
Definition format_error {A} : res A := Err (Errno EINVAL).

Definition is_ok {A} (r : res A) : bool :=
  match r with Ok _ => true | Err _ => false end.

Fixpoint res_fold {A B} (f : B -> A -> res B) (b : B) (l : list A) : res B :=
  match l with
  | [] => Ok b
  | a :: l => match f b a with Ok b' => res_fold f b' l | Err e => Err e end
  end.

Lemma res_bind_ok {A B} (m : res A) (k : A -> res B) b :
  m ≫= k = Ok b -> exists a, m = Ok a /\ k a = Ok b.
Proof. destruct m; [eauto | done]. Qed.

Lemma res_fold_app {A B} (f : B -> A -> res B) b l1 l2 :
  res_fold f b (l1 ++ l2) = (b' ← res_fold f b l1; res_fold f b' l2).
Proof.
  revert b. induction l1 as [|a l1 IH]; intros b; simpl; [done|].
  destruct (f b a); [apply IH | done].
Qed.

(** A failure the program reports, as opposed to one of the model. *)
Definition any_errno (f : fail) : Prop := exists e, f = Errno e.

(** [r] succeeds or reports an errno. *)
Definition res_errno {A} (r : res A) : Prop :=
  match r with Ok _ => True | Err f => any_errno f end.

Lemma any_errno_intro e : any_errno (Errno e).
Proof. by exists e. Qed.
Lemma res_errno_ok {A} (a : A) : res_errno (Ok a).
Proof. done. Qed.
Lemma res_errno_err {A} e : res_errno (A := A) (Err (Errno e)).
Proof. apply any_errno_intro. Qed.
Lemma res_errno_format {A} : res_errno (A := A) format_error.
Proof. apply any_errno_intro. Qed.
Lemma res_errno_bind {A B} (m : res A) (k : A -> res B) :
  res_errno m -> (forall a, m = Ok a -> res_errno (k a)) -> res_errno (m ≫= k).
Proof. destruct m; simpl; auto. Qed.

Create HintDb errno.
#[export] Hint Resolve any_errno_intro res_errno_ok res_errno_err res_errno_format : errno.

(** ** Effects on an external world

    [W] is whatever the environment keeps (a backing file, a registry, a
    schedule of faults): a source is asked for bytes and may answer differently
    at each call. *)

Definition io (W A : Type) : Type := W -> res A * W.

#[export] Instance io_ret W : MRet (io W) := fun A a w => (Ok a, w).
#[export] Instance io_bind W : MBind (io W) :=
  fun A B f m w => match m w with
                   | (Ok a, w') => f a w'
                   | (Err e, w') => (Err e, w')
                   end.
Definition io_lift {W A} (r : res A) : io W A := fun w => (r, w).
Definition io_run {W A} (f : W -> res A * W) : io W A := f.
Definition io_fail {W A} (f : fail) : io W A := fun w => (Err f, w).

(** [io_spec E m Q]: from every world, [m] ends in a value satisfying [Q] or
    fails with a failure in [E].  With [E] empty the computation always
    succeeds. *)
Definition io_spec {W A} (E : fail -> Prop) (m : io W A) (Q : A -> Prop) : Prop :=
  forall w, match m w with (Ok a, _) => Q a | (Err f, _) => E f end.

Section io_spec.
Context {W : Type} (E : fail -> Prop).

Lemma io_spec_ret {A} (a : A) (Q : A -> Prop) : Q a -> io_spec E (mret a : io W A) Q.
Proof. intros H w. exact H. Qed.

Lemma io_spec_lift_ok {A} (r : res A) a (Q : A -> Prop) :
  r = Ok a -> Q a -> io_spec E (io_lift r : io W A) Q.
Proof. intros -> H w. exact H. Qed.

Lemma io_spec_lift_res {A} (r : res A) (Q : A -> Prop) :
  (forall f, any_errno f -> E f) -> res_errno r -> (forall a, r = Ok a -> Q a) ->
  io_spec E (io_lift r : io W A) Q.
Proof. intros HE Hr HQ w. simpl. destruct r; auto. Qed.

Lemma io_spec_bind {A B} (m : io W A) (k : A -> io W B) P Q :
  io_spec E m P -> (forall a, P a -> io_spec E (k a) Q) -> io_spec E (m ≫= k) Q.
Proof.
  intros Hm Hk w. specialize (Hm w). unfold mbind, io_bind.
  destruct (m w) as [[a|f] w']; [apply (Hk a Hm) | exact Hm].
Qed.

Lemma io_spec_mono {A} (m : io W A) (P Q : A -> Prop) :
  io_spec E m P -> (forall a, P a -> Q a) -> io_spec E m Q.
Proof. intros Hm HPQ w. specialize (Hm w). destruct (m w) as [[a|f] w']; auto. Qed.
End io_spec.

(** [io_inv I E m Q]: the same from the worlds in [I], which [m] does not leave. *)
Definition io_inv {W A} (I : W -> Prop) (E : fail -> Prop) (m : io W A) (Q : A -> Prop) : Prop :=
  forall w, I w -> match m w with (Ok a, w') => I w' /\ Q a | (Err f, w') => I w' /\ E f end.

Section io_inv.
Context {W : Type} (I : W -> Prop) (E : fail -> Prop).

Lemma io_inv_ret {A} (a : A) (Q : A -> Prop) : Q a -> io_inv I E (mret a) Q.
Proof. intros H w Hw. by split. Qed.

Lemma io_inv_fail {A} f (Q : A -> Prop) : E f -> io_inv I E (io_fail f) Q.
Proof. intros H w Hw. by split. Qed.

Lemma io_inv_lift_ok {A} (r : res A) a (Q : A -> Prop) : r = Ok a -> Q a -> io_inv I E (io_lift r) Q.
Proof. intros -> H w Hw. by split. Qed.

Lemma io_inv_bind {A B} (m : io W A) (k : A -> io W B) P Q :
  io_inv I E m P -> (forall a, P a -> io_inv I E (k a) Q) -> io_inv I E (m ≫= k) Q.
Proof.
  intros Hm Hk w Hw. specialize (Hm w Hw). unfold mbind, io_bind.
  destruct (m w) as [[a|f] w']; destruct Hm as [Hi Hm]; [by apply (Hk a Hm) | done].
Qed.

Lemma io_inv_mono {A} (m : io W A) (P Q : A -> Prop) :
  io_inv I E m P -> (forall a, P a -> Q a) -> io_inv I E m Q.
Proof. intros Hm HPQ w Hw. specialize (Hm w Hw). destruct (m w) as [[a|f] w']; destruct Hm; auto. Qed.
End io_inv.

Lemma io_inv_true {W A} E (m : io W A) Q : io_inv (fun _ => True) E m Q <-> io_spec E m Q.
Proof.
  split; intros H w; [specialize (H w Logic.I)|intros _; specialize (H w)];
    destruct (m w) as [[a|f] w']; tauto.
Qed.

(** ** Lists of bytes addressed by [Z] *)

Abbreviation bytes := (list Z).

Definition zlen {A} (l : list A) : Z := Z.of_nat (length l).
Definition ztake {A} (n : Z) (l : list A) : list A := take (Z.to_nat n) l.
Definition zdrop {A} (n : Z) (l : list A) : list A := drop (Z.to_nat n) l.
Definition sub {A} (off n : Z) (l : list A) : list A := ztake n (zdrop off l).
Definition bget (l : bytes) (i : Z) : Z := nth (Z.to_nat i) l 0.
Definition zeros (n : Z) : bytes := replicate (Z.to_nat n) 0.

(** The [n] values of [f] from [off] on. *)
Definition slice {A} (f : Z -> A) (off n : Z) : list A := f <$> seqZ off n.

Definition is_byte (b : Z) : Prop := 0 <= b < 256.

Lemma zlen_nonneg {A} (l : list A) : 0 <= zlen l.
Proof. unfold zlen. lia. Qed.
Lemma zlen_app {A} (l k : list A) : zlen (l ++ k) = zlen l + zlen k.
Proof. unfold zlen. rewrite length_app. lia. Qed.
Lemma zlen_cons {A} (x : A) l : zlen (x :: l) = 1 + zlen l.
Proof. unfold zlen. simpl. lia. Qed.
Lemma zlen_nil {A} : zlen (@nil A) = 0.
Proof. done. Qed.
Lemma zlen_ztake {A} n (l : list A) : zlen (ztake n l) = Z.min (Z.max 0 n) (zlen l).
Proof. unfold zlen, ztake. rewrite length_take. lia. Qed.
Lemma zlen_zdrop {A} n (l : list A) : zlen (zdrop n l) = Z.max 0 (zlen l - Z.max 0 n).
Proof. unfold zlen, zdrop. rewrite length_drop. lia. Qed.
Lemma zlen_zeros n : zlen (zeros n) = Z.max 0 n.
Proof. unfold zlen, zeros. rewrite length_replicate. lia. Qed.
Lemma zlen_slice {A} (f : Z -> A) off n : zlen (slice f off n) = Z.max 0 n.
Proof. unfold zlen, slice. rewrite length_fmap, length_seqZ. lia. Qed.
Lemma zlen_sub {A} off n (l : list A) :
  zlen (sub off n l) = Z.min (Z.max 0 n) (Z.max 0 (zlen l - Z.max 0 off)).
Proof. unfold sub. by rewrite zlen_ztake, zlen_zdrop. Qed.
Lemma zlen_replicate {A} n (x : A) : zlen (replicate n x) = Z.of_nat n.
Proof. unfold zlen. by rewrite length_replicate. Qed.
Lemma zlen_fmap {A B} (f : A -> B) l : zlen (f <$> l) = zlen l.
Proof. unfold zlen. by rewrite length_fmap. Qed.

Create Rewrite HintDb zlen.
#[export] Hint Rewrite @zlen_app @zlen_cons @zlen_nil @zlen_ztake @zlen_zdrop
  zlen_zeros @zlen_slice @zlen_sub @zlen_replicate @zlen_fmap : zlen.

(** Solves a goal about lengths; [zlen] of a variable is non-negative. *)
Ltac zlen_nonneg :=
  repeat match goal with
    | |- context [zlen ?l] =>
        lazymatch goal with H : 0 <= zlen l |- _ => fail | _ => pose proof (zlen_nonneg l) end
    | _ : context [zlen ?l] |- _ =>
        lazymatch goal with H : 0 <= zlen l |- _ => fail | _ => pose proof (zlen_nonneg l) end
    end.
Ltac len := autorewrite with zlen in *; zlen_nonneg; try lia.

Lemma ztake_app_exact {A} n (l k : list A) : zlen l = n -> ztake n (l ++ k) = l.
Proof.
  intros <-. unfold ztake, zlen. rewrite Nat2Z.id. by rewrite take_app_length.
Qed.
Lemma zdrop_app_exact {A} n (l k : list A) : zlen l = n -> zdrop n (l ++ k) = k.
Proof.
  intros <-. unfold zdrop, zlen. rewrite Nat2Z.id. by rewrite drop_app_length.
Qed.
Lemma zdrop_zdrop {A} n m (l : list A) : 0 <= n -> 0 <= m -> zdrop n (zdrop m l) = zdrop (m + n) l.
Proof. intros. unfold zdrop. rewrite drop_drop. f_equal. lia. Qed.
Lemma zdrop_all {A} n (l : list A) : zlen l <= n -> zdrop n l = [].
Proof. intros. unfold zdrop, zlen in *. apply drop_ge. lia. Qed.
Lemma ztake_all {A} n (l : list A) : zlen l <= n -> ztake n l = l.
Proof. intros. unfold ztake, zlen in *. apply take_ge. lia. Qed.
Lemma zdrop_0 {A} (l : list A) : zdrop 0 l = l.
Proof. done. Qed.

Lemma list_eq_bget (l k : bytes) :
  zlen l = zlen k -> (forall i, 0 <= i < zlen l -> bget l i = bget k i) -> l = k.
Proof.
  intros Hlen H. apply (nth_ext l k 0 0).
  - unfold zlen in Hlen. lia.
  - intros n Hn. specialize (H (Z.of_nat n)). unfold bget, zlen in H.
    rewrite Nat2Z.id in H. apply H. lia.
Qed.

Lemma bget_app (l k : bytes) i :
  0 <= i -> bget (l ++ k) i = if decide (i < zlen l) then bget l i else bget k (i - zlen l).
Proof.
  intros Hi. unfold bget, zlen. case_decide.
  - apply app_nth1. lia.
  - rewrite app_nth2 by lia. f_equal. lia.
Qed.
Lemma bget_app_l (l k : bytes) i : 0 <= i < zlen l -> bget (l ++ k) i = bget l i.
Proof. intros. rewrite bget_app by lia. by rewrite decide_True by lia. Qed.
Lemma bget_app_r (l k : bytes) i : zlen l <= i -> bget (l ++ k) i = bget k (i - zlen l).
Proof.
  intros. pose proof (zlen_nonneg l). rewrite bget_app by lia. by rewrite decide_False by lia.
Qed.
Lemma bget_out (l : bytes) i : zlen l <= i -> bget l i = 0.
Proof. intros. unfold bget. apply nth_overflow. unfold zlen in *. lia. Qed.
Lemma bget_zeros n i : bget (zeros n) i = 0.
Proof.
  unfold bget, zeros. rewrite nth_lookup.
  destruct (replicate _ 0 !! _) eqn:H; [|done]. by apply lookup_replicate in H as [-> _].
Qed.
Lemma bget_slice (f : Z -> Z) off n i :
  0 <= i < n -> bget (slice f off n) i = f (off + i).
Proof.
  intros Hi. unfold bget, slice. rewrite nth_lookup, list_lookup_fmap.
  rewrite lookup_seqZ_lt by lia. simpl. f_equal. lia.
Qed.
Lemma bget_zdrop n (l : bytes) i : 0 <= n -> 0 <= i -> bget (zdrop n l) i = bget l (n + i).
Proof.
  intros. unfold bget, zdrop. rewrite !nth_lookup, lookup_drop. do 2 f_equal. lia.
Qed.
Lemma bget_ztake n (l : bytes) i : 0 <= i < n -> bget (ztake n l) i = bget l i.
Proof.
  intros. unfold bget, ztake. rewrite !nth_lookup, lookup_take_lt by lia. done.
Qed.
Lemma bget_sub off n (l : bytes) i :
  0 <= off -> 0 <= i < n -> bget (sub off n l) i = bget l (off + i).
Proof. intros. unfold sub. by rewrite bget_ztake, bget_zdrop by lia. Qed.

Lemma slice_nil {A} (f : Z -> A) off n : n <= 0 -> slice f off n = [].
Proof. intros. unfold slice. by rewrite seqZ_nil. Qed.
Lemma slice_app {A} (f : Z -> A) off n m :
  0 <= n -> 0 <= m -> slice f off (n + m) = slice f off n ++ slice f (off + n) m.
Proof. intros. unfold slice. by rewrite seqZ_app, fmap_app. Qed.
Lemma slice_ext {A} (f g : Z -> A) off n :
  (forall i, off <= i < off + n -> f i = g i) -> slice f off n = slice g off n.
Proof.
  intros H. unfold slice. apply list_fmap_ext. intros i x Hx.
  apply lookup_seqZ in Hx. apply H. lia.
Qed.
Lemma slice_shift {A} (f : Z -> A) d off n :
  slice (fun i => f (d + i)) off n = slice f (d + off) n.
Proof.
  unfold slice. rewrite <- fmap_add_seqZ, <- list_fmap_compose. done.
Qed.
Lemma slice_zero f off n :
  (forall i, off <= i < off + n -> f i = 0) -> slice f off n = zeros n.
Proof.
  intros H. apply list_eq_bget; [by len|]. intros i Hi. autorewrite with zlen in Hi.
  rewrite bget_slice, bget_zeros by lia. apply H. lia.
Qed.
Lemma sub_slice off n (l : bytes) :
  0 <= off -> 0 <= n -> off + n <= zlen l -> sub off n l = slice (bget l) off n.
Proof.
  intros. apply list_eq_bget; [len|]. intros i Hi. autorewrite with zlen in Hi.
  rewrite bget_sub, bget_slice by lia. done.
Qed.
Lemma slice_bget (l : bytes) : slice (bget l) 0 (zlen l) = l.
Proof.
  apply list_eq_bget; [len|]. intros i Hi. autorewrite with zlen in Hi.
  rewrite bget_slice by lia. f_equal.
Qed.
Lemma ztake_slice {A} (f : Z -> A) off n k :
  0 <= k <= n -> ztake k (slice f off n) = slice f off k.
Proof.
  intros. replace n with (k + (n - k)) by lia. rewrite slice_app by lia.
  apply ztake_app_exact. len.
Qed.

(** ** Buffers: [memcpy] and [memset] into a caller-owned buffer *)

(** Overwrites [bs] at [pos]; the callers of [put] stay inside [buf]. *)
Definition put (buf : bytes) (pos : Z) (bs : bytes) : bytes :=
  ztake pos buf ++ bs ++ zdrop (pos + zlen bs) buf.

Lemma zlen_put buf pos bs :
  0 <= pos -> pos + zlen bs <= zlen buf -> zlen (put buf pos bs) = zlen buf.
Proof. intros. unfold put. len. Qed.

Lemma bget_put buf pos bs i :
  0 <= pos -> pos + zlen bs <= zlen buf -> 0 <= i ->
  bget (put buf pos bs) i =
    if decide (pos <= i < pos + zlen bs) then bget bs (i - pos) else bget buf i.
Proof.
  intros Hp Hl Hi. unfold put. rewrite bget_app, zlen_ztake by lia.
  pose proof (zlen_nonneg bs).
  case_decide as H1.
  - rewrite decide_False by lia. apply bget_ztake. lia.
  - rewrite bget_app by lia. case_decide as H2.
    + rewrite decide_True by lia. f_equal. lia.
    + rewrite decide_False by lia. rewrite bget_zdrop by lia. f_equal. lia.
Qed.

Definition mem_write (buf : bytes) (pos : Z) (bs : bytes) : res bytes :=
  if (0 <=? pos) && (pos + zlen bs <=? zlen buf) then Ok (put buf pos bs)
  else Err Undefined.

Definition mem_zero (buf : bytes) (pos n : Z) : res bytes :=
  if (0 <=? pos) && (0 <=? n) && (pos + n <=? zlen buf)
  then Ok (put buf pos (zeros n))
  else Err Undefined.

Lemma mem_write_prefix p r bs pos :
  zlen p = pos -> zlen bs <= zlen r ->
  mem_write (p ++ r) pos bs = Ok ((p ++ bs) ++ zdrop (zlen bs) r).
Proof.
  intros Hp Hbs. unfold mem_write, put.
  pose proof (zlen_nonneg p). pose proof (zlen_nonneg bs).
  rewrite (proj2 (Z.leb_le 0 pos)) by lia.
  rewrite (proj2 (Z.leb_le _ _)) by len. simpl.
  rewrite ztake_app_exact by done.
  rewrite <- zdrop_zdrop, (zdrop_app_exact pos) by (done || lia).
  by rewrite <- app_assoc.
Qed.

Lemma mem_zero_prefix p r n pos :
  zlen p = pos -> 0 <= n <= zlen r ->
  mem_zero (p ++ r) pos n = Ok ((p ++ zeros n) ++ zdrop n r).
Proof.
  intros Hp Hn. pose proof (mem_write_prefix p r (zeros n) pos Hp) as H.
  autorewrite with zlen in H. rewrite Z.max_r in H by lia. specialize (H ltac:(lia)).
  unfold mem_write in H. rewrite zlen_zeros, Z.max_r in H by lia.
  unfold mem_zero. rewrite (proj2 (Z.leb_le 0 n)) by lia.
  by rewrite andb_true_r.
Qed.

(** ** Boolean tests as propositions *)

(** Follows the branches of a computation that only fails by reporting. *)
Ltac res_errno :=
  repeat first
    [ apply res_errno_bind; [|intros ? _]
    | match goal with
      | |- res_errno (if ?b then _ else _) => destruct b
      | |- res_errno (match ?x with _ => _ end) => destruct x
      end
    | solve [auto with errno] ].


Ltac bool_hyps :=
  repeat match goal with
    | H : (_ && _)%bool = true |- _ => apply andb_prop in H as [? ?]
    | H : (_ || _)%bool = false |- _ => apply orb_false_elim in H as [? ?]
    | H : negb _ = true |- _ => apply negb_true_iff in H
    | H : negb _ = false |- _ => apply negb_false_iff in H
    | H : (_ =? _) = true |- _ => apply Z.eqb_eq in H
    | H : (_ =? _) = false |- _ => apply Z.eqb_neq in H
    | H : (_ <? _) = true |- _ => apply Z.ltb_lt in H
    | H : (_ <? _) = false |- _ => apply Z.ltb_ge in H
    | H : (_ <=? _) = true |- _ => apply Z.leb_le in H
    | H : (_ <=? _) = false |- _ => apply Z.leb_gt in H
    end.
Ltac destr b := let E := fresh "E" in destruct b eqn:E; bool_hyps.
(** Case analysis on the condition of the outermost [if] of the goal. *)
Ltac case_if :=
  match goal with |- context [if ?b then _ else _] =>
    lazymatch type of b with bool => destr b end end.
Ltac case_if_in H :=
  match type of H with context [if ?b then _ else _] =>
    lazymatch type of b with bool => destr b end end.
