(* ===== verification/Bytes.v ===== *)
(** * Little-endian accessors and the packed LSMT segment mapping
    (src/common/bytes.hpp).

    A pointer into a buffer is the buffer and a byte position.  The fixed-width
    loads and stores are those of the code, term by term; [le_val]/[le_bytes]
    are the arithmetic reading the proofs use. *)
From S2P Require Import Prelude.

(** ** Loads and stores *)

Definition load_u16_le (b : bytes) (p : Z) : Z :=
  Z.lor (bget b p) (Z.shiftl (bget b (p + 1)) 8).

Definition load_u32_le (b : bytes) (p : Z) : Z :=
  Z.lor (Z.lor (Z.lor (bget b p) (Z.shiftl (bget b (p + 1)) 8))
    (Z.shiftl (bget b (p + 2)) 16)) (Z.shiftl (bget b (p + 3)) 24).

Definition load_u64_le (b : bytes) (p : Z) : Z :=
  Z.lor (Z.lor (Z.lor (Z.lor (Z.lor (Z.lor (Z.lor
    (bget b p) (Z.shiftl (bget b (p + 1)) 8))
    (Z.shiftl (bget b (p + 2)) 16)) (Z.shiftl (bget b (p + 3)) 24))
    (Z.shiftl (bget b (p + 4)) 32)) (Z.shiftl (bget b (p + 5)) 40))
    (Z.shiftl (bget b (p + 6)) 48)) (Z.shiftl (bget b (p + 7)) 56).

Definition store_u16_le (b : bytes) (p v : Z) : bytes :=
  put b p [u8 v; u8 (Z.shiftr v 8)].

Definition store_u32_le (b : bytes) (p v : Z) : bytes :=
  put b p [u8 v; u8 (Z.shiftr v 8); u8 (Z.shiftr v 16); u8 (Z.shiftr v 24)].

Definition store_u64_le (b : bytes) (p v : Z) : bytes :=
  put b p [u8 v; u8 (Z.shiftr v 8); u8 (Z.shiftr v 16); u8 (Z.shiftr v 24);
           u8 (Z.shiftr v 32); u8 (Z.shiftr v 40); u8 (Z.shiftr v 48);
           u8 (Z.shiftr v 56)].

(** ** The segment mapping *)

Record segment_mapping := Seg {
  s_offset : Z;   (* logical offset, 512-byte sectors, 50 bits *)
  s_length : Z;   (* sectors, 14 bits *)
  s_moffset : Z;  (* mapped offset in the layer blob, sectors, 55 bits *)
  s_zeroed : bool;
  s_tag : Z       (* layer index after a merge, 8 bits *)
}.

#[export] Instance segment_mapping_eq_dec : EqDecision segment_mapping.
Proof. solve_decision. Defined.

Definition kMaxOffset : Z := 2 ^ 50 - 1.
Definition kMaxLength : Z := 2 ^ 14 - 1.
Definition kMaxMoffset : Z := 2 ^ 55 - 1.
Definition kInvalidOffset : Z := kMaxOffset.
Definition kEncodedSize : Z := 16.

Definition seg_end (s : segment_mapping) : Z := u64 (s_offset s + s_length s).
Definition seg_mend (s : segment_mapping) : Z :=
  if s_zeroed s then s_moffset s else u64 (s_moffset s + s_length s).

Definition load_segment_le (b : bytes) (p : Z) : segment_mapping :=
  let w0 := load_u64_le b p in
  let w1 := load_u64_le b (p + 8) in
  {| s_offset := Z.land w0 kMaxOffset;
     s_length := Z.land (u32 (Z.shiftr w0 50)) kMaxLength;
     s_moffset := Z.land w1 kMaxMoffset;
     s_zeroed := negb (Z.land (Z.shiftr w1 55) 1 =? 0);
     s_tag := u8 (Z.shiftr w1 56) |}.

Definition store_segment_le (b : bytes) (p : Z) (s : segment_mapping) : bytes :=
  let w0 := Z.lor (Z.land (s_offset s) kMaxOffset)
              (u64 (Z.shiftl (Z.land (s_length s) kMaxLength) 50)) in
  let w1 := Z.lor (Z.lor (Z.land (s_moffset s) kMaxMoffset)
              (Z.shiftl (if s_zeroed s then 1 else 0) 55))
              (u64 (Z.shiftl (s_tag s) 56)) in
  store_u64_le (store_u64_le b p w0) (p + 8) w1.

(** The values the record's fields hold in the code. *)
Definition seg_encodable (s : segment_mapping) : Prop :=
  0 <= s_offset s <= kMaxOffset /\ 0 <= s_length s <= kMaxLength /\
  0 <= s_moffset s <= kMaxMoffset /\ 0 <= s_tag s < 256.

(** ** Arithmetic reading *)

Fixpoint le_val (l : bytes) : Z :=
  match l with [] => 0 | b :: l => b + 2 ^ 8 * le_val l end.

Fixpoint le_bytes (n : nat) (v : Z) : bytes :=
  match n with O => [] | S n => v mod 2 ^ 8 :: le_bytes n (v / 2 ^ 8) end.

Lemma land_low_shiftl a b n : 0 <= n -> 0 <= a < 2 ^ n -> Z.land a (Z.shiftl b n) = 0.
Proof.
  intros Hn Ha. apply Z.bits_inj'. intros i Hi.
  rewrite Z.land_spec, Z.shiftl_spec, Z.bits_0 by lia.
  destruct (decide (i < n)).
  - rewrite (Z.testbit_neg_r b) by lia. apply andb_false_r.
  - replace a with (a mod 2 ^ n) by (apply Z.mod_small; lia).
    by rewrite Z.mod_pow2_bits_high by lia.
Qed.

Lemma lor_shiftl_add a b n :
  0 <= n -> 0 <= a < 2 ^ n -> Z.lor a (Z.shiftl b n) = a + b * 2 ^ n.
Proof.
  intros Hn Ha. rewrite <- Z.shiftl_mul_pow2 by lia.
  pose proof (land_low_shiftl a b n Hn Ha) as H0.
  rewrite <- Z.lxor_lor by done. symmetry. by apply Z.add_nocarry_lxor.
Qed.

Lemma le_val_bytes n v : le_val (le_bytes n v) = v mod 2 ^ (8 * Z.of_nat n).
Proof.
  revert v. induction n as [|n IH]; intros v; simpl le_bytes; simpl le_val.
  - rewrite Z.mod_1_r. done.
  - rewrite IH. replace (8 * Z.of_nat (S n)) with (8 + 8 * Z.of_nat n) by lia.
    rewrite Z.pow_add_r by lia. rewrite Z.rem_mul_r by lia. lia.
Qed.

Lemma length_le_bytes n v : length (le_bytes n v) = n.
Proof. revert v. induction n; intros; simpl; auto. Qed.

Lemma le_bytes_val l :
  Forall is_byte l -> le_bytes (length l) (le_val l) = l.
Proof.
  unfold is_byte. induction 1 as [|b l Hb Hl IH]; [done|].
  cbn [length le_bytes le_val].
  rewrite Z.mul_comm, Z.mod_add, Z.div_add, Z.mod_small, Z.div_small by lia.
  by rewrite Z.add_0_l, IH.
Qed.

Lemma le_val_bound l :
  Forall is_byte l -> 0 <= le_val l < 2 ^ (8 * zlen l).
Proof.
  unfold is_byte. induction 1 as [|b l Hb Hl IH]; [done|].
  simpl le_val. rewrite zlen_cons.
  replace (8 * (1 + zlen l)) with (8 + 8 * zlen l) by lia.
  rewrite Z.pow_add_r by len. lia.
Qed.

Lemma Forall_byte_bget l i : Forall is_byte l -> 0 <= bget l i < 256.
Proof.
  intros H. unfold bget. destruct (nth_in_or_default (Z.to_nat i) l 0) as [Hin| ->]; [|lia].
  rewrite Forall_forall in H. apply (H (nth (Z.to_nat i) l 0)).
  exact (proj2 (list_elem_of_In _ _) Hin).
Qed.

Lemma sub_cons (b : bytes) p n :
  0 <= p < zlen b -> 0 < n -> sub p n b = bget b p :: sub (p + 1) (n - 1) b.
Proof.
  intros Hp Hn. apply list_eq_bget; [len|]. intros i Hi. rewrite bget_sub by len.
  destruct (decide (i = 0)) as [->|].
  - unfold bget at 2. simpl. f_equal. lia.
  - replace i with ((i - 1) + 1) at 2 by lia. unfold bget at 2.
    replace (Z.to_nat (i - 1 + 1)) with (S (Z.to_nat (i - 1))) by lia. simpl.
    change (nth (Z.to_nat (i - 1)) (sub (p + 1) (n - 1) b) 0)
      with (bget (sub (p + 1) (n - 1) b) (i - 1)).
    rewrite bget_sub by len. f_equal. lia.
Qed.

(** Unfolds a load into the value of the bytes it reads. *)
Ltac load_val :=
  repeat match goal with
    | |- context [Z.lor ?a (Z.shiftl ?c ?n)] =>
        lazymatch a with
        | context [Z.lor] => fail
        | _ => rewrite (lor_shiftl_add a c n) by lia
        end
    end;
  repeat rewrite sub_cons by lia;
  rewrite <- ?Z.add_assoc;
  change (1 + 1) with 2; change (1 + 2) with 3; change (1 + 3) with 4;
  change (1 + 4) with 5; change (1 + 5) with 6; change (1 + 6) with 7;
  unfold sub, ztake; simpl; lia.

Section loads.
Context (b : bytes) (p : Z) (Hb : Forall is_byte b) (Hp : 0 <= p).

Lemma load_u16_val : p + 2 <= zlen b -> load_u16_le b p = le_val (sub p 2 b).
Proof.
  intros. unfold load_u16_le. pose proof (Forall_byte_bget b) as Hg.
  pose proof (Hg p Hb). load_val.
Qed.
Lemma load_u32_val : p + 4 <= zlen b -> load_u32_le b p = le_val (sub p 4 b).
Proof.
  intros. unfold load_u32_le. pose proof (Forall_byte_bget b) as Hg.
  pose proof (Hg p Hb). pose proof (Hg (p + 1) Hb). pose proof (Hg (p + 2) Hb).
  load_val.
Qed.
Lemma load_u64_val : p + 8 <= zlen b -> load_u64_le b p = le_val (sub p 8 b).
Proof.
  intros. unfold load_u64_le. pose proof (Forall_byte_bget b) as Hg.
  pose proof (Hg p Hb). pose proof (Hg (p + 1) Hb). pose proof (Hg (p + 2) Hb).
  pose proof (Hg (p + 3) Hb). pose proof (Hg (p + 4) Hb). pose proof (Hg (p + 5) Hb).
  pose proof (Hg (p + 6) Hb). load_val.
Qed.
End loads.

(** ** Stores *)

Lemma u8_shiftr v k : 0 <= k -> u8 (Z.shiftr v k) = (v / 2 ^ k) mod 2 ^ 8.
Proof. intros. unfold u8, wrap. by rewrite Z.shiftr_div_pow2. Qed.

Ltac store_val :=
  rewrite !u8_shiftr by lia; unfold u8, wrap; cbn [le_bytes];
  rewrite ?Z.div_div by lia; done.

Lemma store_u16_val b p v : store_u16_le b p v = put b p (le_bytes 2 v).
Proof. unfold store_u16_le. store_val. Qed.
Lemma store_u32_val b p v : store_u32_le b p v = put b p (le_bytes 4 v).
Proof. unfold store_u32_le. store_val. Qed.
Lemma store_u64_val b p v : store_u64_le b p v = put b p (le_bytes 8 v).
Proof. unfold store_u64_le. store_val. Qed.

Lemma zlen_le_bytes n v : zlen (le_bytes n v) = Z.of_nat n.
Proof. unfold zlen. by rewrite length_le_bytes. Qed.
#[export] Hint Rewrite zlen_le_bytes : zlen.

Lemma le_bytes_byte n v : Forall is_byte (le_bytes n v).
Proof.
  revert v. induction n; intros; constructor; auto.
  unfold is_byte. apply (Z.mod_pos_bound v (2 ^ 8)). lia.
Qed.

Lemma put_byte b p bs :
  Forall is_byte b -> Forall is_byte bs -> Forall is_byte (put b p bs).
Proof.
  intros. unfold put, ztake, zdrop. rewrite !Forall_app. split_and!; auto.
  - by apply Forall_take.
  - by apply Forall_drop.
Qed.

Lemma zeros_byte n : Forall is_byte (zeros n).
Proof. unfold zeros. apply Forall_replicate. unfold is_byte. lia. Qed.

Lemma sub_put_same b p bs n :
  zlen bs = n -> 0 <= p -> p + n <= zlen b -> sub p n (put b p bs) = bs.
Proof.
  intros <- ??. apply list_eq_bget.
  - rewrite zlen_sub, zlen_put by lia. len.
  - rewrite zlen_sub, zlen_put by lia. intros i Hi. pose proof (zlen_nonneg bs).
    rewrite bget_sub, bget_put, decide_True by lia. f_equal. lia.
Qed.

Lemma sub_put_other b p bs q n :
  0 <= p -> p + zlen bs <= zlen b -> 0 <= q -> 0 <= n ->
  q + n <= p \/ p + zlen bs <= q -> sub q n (put b p bs) = sub q n b.
Proof.
  intros. apply list_eq_bget.
  - by rewrite !zlen_sub, zlen_put by lia.
  - rewrite zlen_sub, zlen_put by lia. intros i Hi.
    by rewrite !bget_sub, bget_put, decide_False by lia.
Qed.

Create HintDb bytes.
#[export] Hint Resolve le_bytes_byte put_byte zeros_byte : bytes.

(** A load after a store at the same place, and at a disjoint place. *)
Section load_store.
Context (b : bytes) (Hb : Forall is_byte b).

Lemma load_put_u64 p v :
  0 <= p -> p + 8 <= zlen b ->
  load_u64_le (put b p (le_bytes 8 v)) p = v mod 2 ^ 64.
Proof.
  intros. rewrite load_u64_val; auto with bytes; [|rewrite zlen_put; len].
  rewrite sub_put_same by len. apply le_val_bytes.
Qed.
Lemma load_put_u32 p v :
  0 <= p -> p + 4 <= zlen b ->
  load_u32_le (put b p (le_bytes 4 v)) p = v mod 2 ^ 32.
Proof.
  intros. rewrite load_u32_val; auto with bytes; [|rewrite zlen_put; len].
  rewrite sub_put_same by len. apply le_val_bytes.
Qed.
Lemma load_put_u16 p v :
  0 <= p -> p + 2 <= zlen b ->
  load_u16_le (put b p (le_bytes 2 v)) p = v mod 2 ^ 16.
Proof.
  intros. rewrite load_u16_val; auto with bytes; [|rewrite zlen_put; len].
  rewrite sub_put_same by len. apply le_val_bytes.
Qed.
End load_store.

(** Every load is determined by the bytes it covers. *)
Lemma bget_put_other b p bs i :
  0 <= p -> p + zlen bs <= zlen b -> 0 <= i -> i < p \/ p + zlen bs <= i ->
  bget (put b p bs) i = bget b i.
Proof. intros. by rewrite bget_put, decide_False by lia. Qed.

Lemma load_u64_put_other b p bs q :
  0 <= p -> p + zlen bs <= zlen b -> 0 <= q -> q + 8 <= p \/ p + zlen bs <= q ->
  load_u64_le (put b p bs) q = load_u64_le b q.
Proof. intros. unfold load_u64_le. by rewrite !bget_put_other by lia. Qed.
Lemma load_u32_put_other b p bs q :
  0 <= p -> p + zlen bs <= zlen b -> 0 <= q -> q + 4 <= p \/ p + zlen bs <= q ->
  load_u32_le (put b p bs) q = load_u32_le b q.
Proof. intros. unfold load_u32_le. by rewrite !bget_put_other by lia. Qed.
Lemma load_u16_put_other b p bs q :
  0 <= p -> p + zlen bs <= zlen b -> 0 <= q -> q + 2 <= p \/ p + zlen bs <= q ->
  load_u16_le (put b p bs) q = load_u16_le b q.
Proof. intros. unfold load_u16_le. by rewrite !bget_put_other by lia. Qed.

(** ** Records stored field by field at increasing offsets *)

Fixpoint puts (b : bytes) (fs : list (Z * bytes)) : bytes :=
  match fs with [] => b | (p, bs) :: fs => puts (put b p bs) fs end.

Fixpoint layout_ok (lo n : Z) (fs : list (Z * bytes)) : Prop :=
  match fs with
  | [] => lo <= n
  | (p, bs) :: fs => lo <= p /\ layout_ok (p + zlen bs) n fs
  end.

Lemma layout_ok_le lo n fs : layout_ok lo n fs -> lo <= n.
Proof.
  revert lo. induction fs as [|[p bs] fs IH]; intros lo; simpl; [done|].
  intros [H1 H2%IH]. pose proof (zlen_nonneg bs). lia.
Qed.

Lemma puts_below fs b lo :
  0 <= lo -> layout_ok lo (zlen b) fs ->
  zlen (puts b fs) = zlen b /\
  forall q n, 0 <= q -> 0 <= n -> q + n <= lo -> sub q n (puts b fs) = sub q n b.
Proof.
  revert b lo. induction fs as [|[p bs] fs IH]; intros b lo Hlo; simpl; [done|].
  intros [H1 H2]. pose proof (layout_ok_le _ _ _ H2) as H3. pose proof (zlen_nonneg bs).
  destruct (IH (put b p bs) (p + zlen bs)) as [IHl IHs]; [lia|by rewrite zlen_put by lia|].
  split; [rewrite IHl; apply zlen_put; lia|]. intros q n Hq Hn Hqn.
  rewrite IHs by lia. apply sub_put_other; lia.
Qed.

Lemma puts_field fs b lo p bs n :
  0 <= lo -> layout_ok lo (zlen b) fs -> (p, bs) ∈ fs -> zlen bs = n ->
  sub p n (puts b fs) = bs.
Proof.
  intros Hlo Hok Hin <-. revert b lo Hlo Hok.
  induction fs as [|[p' bs'] fs IH]; intros b lo Hlo; simpl; [by apply not_elem_of_nil in Hin|].
  intros [H1 H2]. pose proof (layout_ok_le _ _ _ H2) as H3. pose proof (zlen_nonneg bs').
  apply elem_of_cons in Hin as [[= -> ->]|Hin].
  - destruct (puts_below fs (put b p' bs') (p' + zlen bs')) as [_ Hbelow];
      [lia|by rewrite zlen_put by lia|]. rewrite Hbelow by lia. apply sub_put_same; lia.
  - apply (IH Hin _ (p' + zlen bs')); [lia|]. by rewrite zlen_put by lia.
Qed.

Lemma zlen_puts_take fs b lo k :
  0 <= lo -> layout_ok lo (zlen b) fs -> zlen (puts b (take k fs)) = zlen b.
Proof.
  intros Hlo Hok. apply (puts_below _ _ lo Hlo). clear Hlo. revert lo k Hok.
  induction fs as [|[p bs] fs IH]; intros lo [|k]; simpl; try done.
  - intros [H1 H2%layout_ok_le]. pose proof (zlen_nonneg bs). lia.
  - intros [H1 H2]. auto.
Qed.

Lemma puts_byte fs b :
  Forall is_byte b -> Forall (fun f => Forall is_byte f.2) fs -> Forall is_byte (puts b fs).
Proof.
  intros Hb Hfs. revert b Hb. induction Hfs as [|[p bs] fs H Hfs IH]; intros b Hb; simpl; [done|].
  apply IH. by apply put_byte.
Qed.

Lemma puts_other fs b q n :
  0 <= q -> 0 <= n ->
  Forall (fun f => 0 <= f.1 /\ f.1 + zlen f.2 <= zlen b /\ (q + n <= f.1 \/ f.1 + zlen f.2 <= q)) fs ->
  sub q n (puts b fs) = sub q n b.
Proof.
  intros Hq Hn. revert b. induction fs as [|[p bs] fs IH]; intros b H; simpl; [done|].
  apply Forall_cons in H as [(H1 & H2 & H3) H]. simpl in *. rewrite IH.
  - apply sub_put_other; lia.
  - rewrite zlen_put by lia. done.
Qed.

Lemma layout_inside lo m fs (P : Z * bytes -> Prop) :
  0 <= lo -> layout_ok lo m fs -> Forall P fs -> Forall (fun f => 0 <= f.1 /\ f.1 + zlen f.2 <= m /\ P f) fs.
Proof.
  intros Hlo Hl H. revert lo Hlo Hl. induction H as [|[p bs] fs Hf H IH]; intros lo Hlo Hl; [constructor|].
  destruct Hl as [H1 H2]. pose proof (layout_ok_le _ _ _ H2). pose proof (zlen_nonneg bs).
  constructor; [simpl; split; [lia|]; by split|]. apply (IH (p + zlen bs)); [lia|done].
Qed.

Lemma sub_zeros q n m : 0 <= q -> 0 <= n -> q + n <= m -> sub q n (zeros m) = zeros n.
Proof.
  intros. apply list_eq_bget; [len|]. intros i Hi. autorewrite with zlen in Hi. rewrite bget_sub, !bget_zeros by lia. done.
Qed.
Definition all_zero (l : bytes) : bool := forallb (fun b => b =? 0) l.

Lemma all_zero_zeros n : all_zero (zeros n) = true.
Proof. unfold all_zero, zeros. induction (Z.to_nat n); simpl; auto. Qed.

Lemma put_put b p x y :
  0 <= p -> zlen y = zlen x -> p + zlen x <= zlen b -> put (put b p x) p y = put b p y.
Proof.
  intros Hp E Hl. assert (zlen (put b p x) = zlen b) as Ez by (apply zlen_put; lia).
  apply list_eq_bget; [rewrite !zlen_put; lia|]. intros i Hi. rewrite zlen_put in Hi by lia.
  rewrite !bget_put by lia. repeat case_decide; try done; lia.
Qed.

Lemma puts_app b fs gs : puts b (fs ++ gs) = puts (puts b fs) gs.
Proof. revert b. induction fs as [|[p bs] fs IH]; intros b; simpl; auto. Qed.

Lemma sub_app_mid (a m b : bytes) q n :
  0 <= q -> 0 <= n -> q + n <= zlen m -> sub (zlen a + q) n (a ++ m ++ b) = sub q n m.
Proof.
  intros. pose proof (zlen_nonneg a). pose proof (zlen_nonneg b). apply list_eq_bget; [len|]. intros i Hi.
  rewrite !bget_sub by len. rewrite bget_app_r by lia. rewrite bget_app_l by len. f_equal. lia.
Qed.

Lemma put_app_l (a b : bytes) p bs :
  0 <= p -> p + zlen bs <= zlen a -> put (a ++ b) p bs = put a p bs ++ b.
Proof.
  intros. pose proof (zlen_nonneg b). pose proof (zlen_nonneg bs).
  assert (zlen (put a p bs) = zlen a) as Ea by (apply zlen_put; lia).
  apply list_eq_bget; [rewrite zlen_put; len|]. rewrite zlen_put by len.
  intros i Hi. rewrite zlen_app in Hi. rewrite bget_put by len.
  destruct (decide (i < zlen a)).
  - rewrite (bget_app_l a b), (bget_app_l (put a p bs) b), bget_put by lia. done.
  - rewrite decide_False by lia. rewrite !bget_app_r by lia. by rewrite Ea.
Qed.

(** Proves a property of each field of an explicit list. *)
Ltac forall_fields tac :=
  lazymatch goal with
  | |- Forall _ (_ :: _) => apply List.Forall_cons; [cbn [snd]; tac ()|forall_fields tac]
  | |- Forall _ [] => apply List.Forall_nil
  end.
Ltac in_fields := repeat first [apply list_elem_of_here | apply list_elem_of_further].

(** What a load reads when the bytes under it are known. *)
Section load_field.
Context (b : bytes) (p : Z) (Hb : Forall is_byte b) (Hp : 0 <= p).
Lemma load_field_u64 v :
  p + 8 <= zlen b -> sub p 8 b = le_bytes 8 v -> load_u64_le b p = v mod 2 ^ 64.
Proof. intros ? H. rewrite load_u64_val, H by done. apply le_val_bytes. Qed.
Lemma load_field_u32 v :
  p + 4 <= zlen b -> sub p 4 b = le_bytes 4 v -> load_u32_le b p = v mod 2 ^ 32.
Proof. intros ? H. rewrite load_u32_val, H by done. apply le_val_bytes. Qed.
Lemma load_field_u16 v :
  p + 2 <= zlen b -> sub p 2 b = le_bytes 2 v -> load_u16_le b p = v mod 2 ^ 16.
Proof. intros ? H. rewrite load_u16_val, H by done. apply le_val_bytes. Qed.
Lemma load_field_u8 v :
  p + 1 <= zlen b -> sub p 1 b = [v] -> bget b p = v.
Proof.
  intros ? H. replace p with (p + 0) by lia. rewrite <- (bget_sub p 1 b 0) by lia. by rewrite H.
Qed.
End load_field.

(** ** The segment mapping codec *)

Definition seg_w0 (s : segment_mapping) : Z := s_offset s + s_length s * 2 ^ 50.
Definition seg_w1 (s : segment_mapping) : Z :=
  s_moffset s + (if s_zeroed s then 1 else 0) * 2 ^ 55 + s_tag s * 2 ^ 56.

Lemma land_max_offset x : Z.land x kMaxOffset = x mod 2 ^ 50.
Proof. change kMaxOffset with (Z.ones 50). by rewrite Z.land_ones. Qed.
Lemma land_max_length x : Z.land x kMaxLength = x mod 2 ^ 14.
Proof. change kMaxLength with (Z.ones 14). by rewrite Z.land_ones. Qed.
Lemma land_max_moffset x : Z.land x kMaxMoffset = x mod 2 ^ 55.
Proof. change kMaxMoffset with (Z.ones 55). by rewrite Z.land_ones. Qed.

Lemma land_one x : Z.land x 1 = x mod 2 ^ 1.
Proof. change 1 with (Z.ones 1) at 1. by rewrite Z.land_ones. Qed.

Lemma store_segment_val b p s :
  seg_encodable s ->
  store_segment_le b p s = put (put b p (le_bytes 8 (seg_w0 s))) (p + 8) (le_bytes 8 (seg_w1 s)).
Proof.
  unfold seg_encodable, kMaxOffset, kMaxLength, kMaxMoffset. intros (Ho & Hl & Hm & Ht).
  unfold store_segment_le.
  rewrite land_max_offset, land_max_length, land_max_moffset, !Z.mod_small by lia.
  rewrite (u64_small (Z.shiftl (s_length s) 50)) by (rewrite Z.shiftl_mul_pow2; lia).
  rewrite (u64_small (Z.shiftl (s_tag s) 56)) by (rewrite Z.shiftl_mul_pow2; lia).
  rewrite (lor_shiftl_add (s_offset s)) by lia.
  rewrite (lor_shiftl_add (s_moffset s)) by lia.
  rewrite lor_shiftl_add by (destruct (s_zeroed s); lia).
  by rewrite !store_u64_val.
Qed.

Lemma load_segment_val b p s :
  load_u64_le b p = seg_w0 s -> load_u64_le b (p + 8) = seg_w1 s -> seg_encodable s ->
  load_segment_le b p = s.
Proof.
  unfold load_segment_le, seg_encodable, kMaxOffset, kMaxLength, kMaxMoffset.
  intros -> -> (Ho & Hl & Hm & Ht).
  rewrite land_max_offset, land_max_length, land_max_moffset.
  rewrite !Z.shiftr_div_pow2 by lia. unfold seg_w0, seg_w1.
  rewrite (Z.mod_add (s_offset s)), (Z.mod_small (s_offset s)), Z.div_add, Z.div_small by lia.
  rewrite Z.add_0_l, u32_small, (Z.mod_small (s_length s)) by lia.
  rewrite land_one.
  destruct s as [o l m z t]; simpl in *. f_equal.
  - replace (m + (if z then 1 else 0) * 2 ^ 55 + t * 2 ^ 56)
      with (m + ((if z then 1 else 0) + 2 * t) * 2 ^ 55) by lia.
    rewrite Z.mod_add, Z.mod_small by lia. done.
  - replace (m + (if z then 1 else 0) * 2 ^ 55 + t * 2 ^ 56)
      with (m + ((if z then 1 else 0) + t * 2 ^ 1) * 2 ^ 55) by lia.
    rewrite Z.div_add, Z.div_small, Z.add_0_l, Z.mod_add by lia. by destruct z.
  - rewrite Z.div_add by lia. rewrite (Z.div_small (_ + _)) by (destruct z; lia).
    apply u8_small. lia.
Qed.

(** Reading back a stored mapping; the encoding is a bijection on sixteen
    bytes, so no record can be read in two ways. *)
Lemma load_store_segment b p s :
  Forall is_byte b -> 0 <= p -> p + 16 <= zlen b -> seg_encodable s ->
  load_segment_le (store_segment_le b p s) p = s.
Proof.
  intros Hb Hp Hl Hs. rewrite store_segment_val by done.
  pose proof Hs as Hs'.
  unfold seg_encodable, kMaxOffset, kMaxLength, kMaxMoffset in Hs'.
  apply load_segment_val; [| |done].
  - rewrite load_u64_put_other by (rewrite ?zlen_put; len).
    rewrite load_put_u64 by (done || lia). apply Z.mod_small. unfold seg_w0. lia.
  - rewrite load_put_u64; auto with bytes; [|lia|rewrite zlen_put; len].
    apply Z.mod_small. unfold seg_w1. destruct (s_zeroed s); lia.
Qed.

Lemma load_segment_encodable b p : seg_encodable (load_segment_le b p).
Proof.
  unfold seg_encodable, load_segment_le; simpl.
  rewrite land_max_offset, land_max_length, land_max_moffset.
  unfold kMaxOffset, kMaxLength, kMaxMoffset.
  pose proof (Z.mod_pos_bound (load_u64_le b p) (2 ^ 50)).
  pose proof (Z.mod_pos_bound (u32 (Z.shiftr (load_u64_le b p) 50)) (2 ^ 14)).
  pose proof (Z.mod_pos_bound (load_u64_le b (p + 8)) (2 ^ 55)).
  pose proof (wrap_range 8 (Z.shiftr (load_u64_le b (p + 8)) 56)). unfold u8. lia.
Qed.

Lemma zlen_store_segment b p s :
  0 <= p -> p + 16 <= zlen b -> seg_encodable s -> zlen (store_segment_le b p s) = zlen b.
Proof.
  intros Hp Hl Hs. rewrite store_segment_val by done.
  rewrite zlen_put; rewrite ?zlen_put; rewrite ?zlen_le_bytes; simpl; lia.
Qed.

Lemma put_sub b p n : 0 <= p -> 0 <= n -> p + n <= zlen b -> put b p (sub p n b) = b.
Proof.
  intros. assert (zlen (sub p n b) = n) as Hn by len.
  apply list_eq_bget; [rewrite zlen_put; lia|].
  rewrite zlen_put by lia. intros i Hi. rewrite bget_put by lia. rewrite Hn.
  case_decide; [|done]. rewrite bget_sub by lia. f_equal. lia.
Qed.

Lemma le_bytes_load_u64 b p :
  Forall is_byte b -> 0 <= p -> p + 8 <= zlen b ->
  le_bytes 8 (load_u64_le b p) = sub p 8 b.
Proof.
  intros Hb ??. rewrite load_u64_val by done.
  assert (length (sub p 8 b) = 8%nat) as Hl by (assert (zlen (sub p 8 b) = 8) by len; unfold zlen in *; lia).
  rewrite <- Hl at 1. apply le_bytes_val. unfold sub, ztake, zdrop.
  by apply Forall_take, Forall_drop.
Qed.

Lemma load_u64_bound b p :
  Forall is_byte b -> 0 <= p -> p + 8 <= zlen b -> 0 <= load_u64_le b p < 2 ^ 64.
Proof.
  intros Hb ??. rewrite load_u64_val by done.
  assert (zlen (sub p 8 b) = 8) as Hl by len.
  pose proof (le_val_bound (sub p 8 b)) as H'. rewrite Hl in H'. apply H'.
  unfold sub, ztake, zdrop. by apply Forall_take, Forall_drop.
Qed.

Lemma load_u32_bound b p :
  Forall is_byte b -> 0 <= p -> p + 4 <= zlen b -> 0 <= load_u32_le b p < 2 ^ 32.
Proof.
  intros Hb ??. rewrite load_u32_val by done. assert (zlen (sub p 4 b) = 4) as Hl by len.
  pose proof (le_val_bound (sub p 4 b)) as H'. rewrite Hl in H'. apply H'.
  unfold sub, ztake, zdrop. by apply Forall_take, Forall_drop.
Qed.

Lemma word0_split w :
  0 <= w < 2 ^ 64 ->
  w mod 2 ^ 50 + (((w / 2 ^ 50) mod 2 ^ 32) mod 2 ^ 14) * 2 ^ 50 = w.
Proof.
  intros Hw.
  assert (0 <= w / 2 ^ 50 < 2 ^ 14) as H14
    by (split; [apply Z.div_pos; lia|apply Z.div_lt_upper_bound; lia]).
  rewrite (Z.mod_small _ (2 ^ 32)), (Z.mod_small _ (2 ^ 14)).
  - rewrite (Z.div_mod w (2 ^ 50)) at 3 by discriminate. ring.
  - exact H14.
  - split; [apply H14|]. apply (Z.lt_trans _ (2 ^ 14)); [apply H14|done].
Qed.

Lemma word1_split w :
  0 <= w < 2 ^ 64 ->
  w mod 2 ^ 55 + (if negb ((w / 2 ^ 55) mod 2 ^ 1 =? 0) then 1 else 0) * 2 ^ 55
    + ((w / 2 ^ 56) mod 2 ^ 8) * 2 ^ 56 = w.
Proof.
  intros Hw.
  assert (0 <= w / 2 ^ 56 < 2 ^ 8) as H8
    by (split; [apply Z.div_pos; lia|apply Z.div_lt_upper_bound; lia]).
  rewrite (Z.mod_small _ (2 ^ 8)) by exact H8.
  rewrite (Z.div_mod w (2 ^ 55)) at 4 by discriminate.
  change (2 ^ 56) with (2 ^ 55 * 2 ^ 1). rewrite <- Z.div_div by (done || lia).
  rewrite (Z.div_mod (w / 2 ^ 55) (2 ^ 1)) at 3 by discriminate.
  pose proof (Z.mod_pos_bound (w / 2 ^ 55) (2 ^ 1) ltac:(done)) as Hm.
  change (2 ^ 1) with 2 in *.
  replace (if negb ((w / 2 ^ 55) mod 2 =? 0) then 1 else 0) with ((w / 2 ^ 55) mod 2); [ring|].
  revert Hm. generalize ((w / 2 ^ 55) mod 2). intros m Hm.
  destruct (Z.eqb_spec m 0); simpl; lia.
Qed.

Lemma load_segment_words b p :
  Forall is_byte b -> 0 <= p -> p + 16 <= zlen b ->
  seg_w0 (load_segment_le b p) = load_u64_le b p /\
  seg_w1 (load_segment_le b p) = load_u64_le b (p + 8).
Proof.
  intros Hb ??. unfold seg_w0, seg_w1, load_segment_le. cbn [s_offset s_length s_moffset s_zeroed s_tag].
  rewrite land_max_offset, land_max_length, land_max_moffset, land_one.
  rewrite !Z.shiftr_div_pow2 by done. unfold u8, u32, wrap.
  split; [apply word0_split|apply word1_split]; apply load_u64_bound; done || lia.
Qed.

(** The packed mapping round-trips in both directions: storing then loading
    gives the record back, and storing what was loaded leaves the bytes as they
    were, so every sixteen bytes are the encoding of exactly one record. *)
Theorem segment_codec_roundtrip b p s :
  Forall is_byte b -> 0 <= p -> p + kEncodedSize <= zlen b -> seg_encodable s ->
  load_segment_le (store_segment_le b p s) p = s /\
  store_segment_le b p (load_segment_le b p) = b.
Proof.
  unfold kEncodedSize. intros Hb Hp Hl Hs. split; [by apply load_store_segment|].
  rewrite store_segment_val by apply load_segment_encodable.
  destruct (load_segment_words b p) as [-> ->]; [done..|].
  rewrite !le_bytes_load_u64 by (done || lia).
  rewrite put_sub by lia. apply put_sub; lia.
Qed.

Lemma segment_codec_roundtrip_witness :
  let s := Seg 5 3 9 true 7 in
  load_segment_le (store_segment_le (zeros 20) 2 s) 2 = s /\
  store_segment_le (zeros 20) 2 (load_segment_le (zeros 20) 2) = zeros 20.
Proof.
  apply segment_codec_roundtrip; [apply zeros_byte|lia|vm_compute; congruence|].
  unfold seg_encodable; vm_compute. repeat split; congruence.
Defined.
