(* ===== verification/Crc32c.v ===== *)
(** * CRC-32C ([common/crc32c.cpp])

    The table-driven software routine, the hardware routine (alignment prologue,
    eight bytes per instruction, tail) and the dispatcher.  The two compiler
    builtins are given as the shift register the instruction is documented to
    be; the hardware and software routines are proved equal on every buffer,
    seed and alignment, so the dispatch never changes a digest. *)
From S2P Require Import Prelude Bytes.

Open Scope Z_scope.

(** The 256 entries in the source's order. *)
Definition kCrc32cTable : list Z :=
  [
   0x00000000; 0xF26B8303; 0xE13B70F7; 0x1350F3F4; 0xC79A971F; 0x35F1141C;
   0x26A1E7E8; 0xD4CA64EB; 0x8AD958CF; 0x78B2DBCC; 0x6BE22838; 0x9989AB3B;
   0x4D43CFD0; 0xBF284CD3; 0xAC78BF27; 0x5E133C24; 0x105EC76F; 0xE235446C;
   0xF165B798; 0x030E349B; 0xD7C45070; 0x25AFD373; 0x36FF2087; 0xC494A384;
   0x9A879FA0; 0x68EC1CA3; 0x7BBCEF57; 0x89D76C54; 0x5D1D08BF; 0xAF768BBC;
   0xBC267848; 0x4E4DFB4B; 0x20BD8EDE; 0xD2D60DDD; 0xC186FE29; 0x33ED7D2A;
   0xE72719C1; 0x154C9AC2; 0x061C6936; 0xF477EA35; 0xAA64D611; 0x580F5512;
   0x4B5FA6E6; 0xB93425E5; 0x6DFE410E; 0x9F95C20D; 0x8CC531F9; 0x7EAEB2FA;
   0x30E349B1; 0xC288CAB2; 0xD1D83946; 0x23B3BA45; 0xF779DEAE; 0x05125DAD;
   0x1642AE59; 0xE4292D5A; 0xBA3A117E; 0x4851927D; 0x5B016189; 0xA96AE28A;
   0x7DA08661; 0x8FCB0562; 0x9C9BF696; 0x6EF07595; 0x417B1DBC; 0xB3109EBF;
   0xA0406D4B; 0x522BEE48; 0x86E18AA3; 0x748A09A0; 0x67DAFA54; 0x95B17957;
   0xCBA24573; 0x39C9C670; 0x2A993584; 0xD8F2B687; 0x0C38D26C; 0xFE53516F;
   0xED03A29B; 0x1F682198; 0x5125DAD3; 0xA34E59D0; 0xB01EAA24; 0x42752927;
   0x96BF4DCC; 0x64D4CECF; 0x77843D3B; 0x85EFBE38; 0xDBFC821C; 0x2997011F;
   0x3AC7F2EB; 0xC8AC71E8; 0x1C661503; 0xEE0D9600; 0xFD5D65F4; 0x0F36E6F7;
   0x61C69362; 0x93AD1061; 0x80FDE395; 0x72966096; 0xA65C047D; 0x5437877E;
   0x4767748A; 0xB50CF789; 0xEB1FCBAD; 0x197448AE; 0x0A24BB5A; 0xF84F3859;
   0x2C855CB2; 0xDEEEDFB1; 0xCDBE2C45; 0x3FD5AF46; 0x7198540D; 0x83F3D70E;
   0x90A324FA; 0x62C8A7F9; 0xB602C312; 0x44694011; 0x5739B3E5; 0xA55230E6;
   0xFB410CC2; 0x092A8FC1; 0x1A7A7C35; 0xE811FF36; 0x3CDB9BDD; 0xCEB018DE;
   0xDDE0EB2A; 0x2F8B6829; 0x82F63B78; 0x709DB87B; 0x63CD4B8F; 0x91A6C88C;
   0x456CAC67; 0xB7072F64; 0xA457DC90; 0x563C5F93; 0x082F63B7; 0xFA44E0B4;
   0xE9141340; 0x1B7F9043; 0xCFB5F4A8; 0x3DDE77AB; 0x2E8E845F; 0xDCE5075C;
   0x92A8FC17; 0x60C37F14; 0x73938CE0; 0x81F80FE3; 0x55326B08; 0xA759E80B;
   0xB4091BFF; 0x466298FC; 0x1871A4D8; 0xEA1A27DB; 0xF94AD42F; 0x0B21572C;
   0xDFEB33C7; 0x2D80B0C4; 0x3ED04330; 0xCCBBC033; 0xA24BB5A6; 0x502036A5;
   0x4370C551; 0xB11B4652; 0x65D122B9; 0x97BAA1BA; 0x84EA524E; 0x7681D14D;
   0x2892ED69; 0xDAF96E6A; 0xC9A99D9E; 0x3BC21E9D; 0xEF087A76; 0x1D63F975;
   0x0E330A81; 0xFC588982; 0xB21572C9; 0x407EF1CA; 0x532E023E; 0xA145813D;
   0x758FE5D6; 0x87E466D5; 0x94B49521; 0x66DF1622; 0x38CC2A06; 0xCAA7A905;
   0xD9F75AF1; 0x2B9CD9F2; 0xFF56BD19; 0x0D3D3E1A; 0x1E6DCDEE; 0xEC064EED;
   0xC38D26C4; 0x31E6A5C7; 0x22B65633; 0xD0DDD530; 0x0417B1DB; 0xF67C32D8;
   0xE52CC12C; 0x1747422F; 0x49547E0B; 0xBB3FFD08; 0xA86F0EFC; 0x5A048DFF;
   0x8ECEE914; 0x7CA56A17; 0x6FF599E3; 0x9D9E1AE0; 0xD3D3E1AB; 0x21B862A8;
   0x32E8915C; 0xC083125F; 0x144976B4; 0xE622F5B7; 0xF5720643; 0x07198540;
   0x590AB964; 0xAB613A67; 0xB831C993; 0x4A5A4A90; 0x9E902E7B; 0x6CFBAD78;
   0x7FAB5E8C; 0x8DC0DD8F; 0xE330A81A; 0x115B2B19; 0x020BD8ED; 0xF0605BEE;
   0x24AA3F05; 0xD6C1BC06; 0xC5914FF2; 0x37FACCF1; 0x69E9F0D5; 0x9B8273D6;
   0x88D28022; 0x7AB90321; 0xAE7367CA; 0x5C18E4C9; 0x4F48173D; 0xBD23943E;
   0xF36E6F75; 0x0105EC76; 0x12551F82; 0xE03E9C81; 0x34F4F86A; 0xC69F7B69;
   0xD5CF889D; 0x27A40B9E; 0x79B737BA; 0x8BDCB4B9; 0x988C474D; 0x6AE7C44E;
   0xBE2DA0A5; 0x4C4623A6; 0x5F16D052; 0xAD7D5351].

Definition table_at (i : Z) : Z := nth (Z.to_nat i) kCrc32cTable 0.

(** One step of [crc32c_sw]'s loop and the loop itself. *)
Definition crc32c_sw_byte (crc b : Z) : Z :=
  Z.lxor (table_at (Z.land (Z.lxor crc b) 0xff)) (Z.shiftr crc 8).

Definition crc32c_sw (data : bytes) (crc : Z) : Z := foldl crc32c_sw_byte crc data.

(** The crc32 instructions: the operand is folded into the low end of the
    reflected remainder register, which is then clocked once per operand bit. *)
Definition crc_poly : Z := 0x82F63B78.
Definition crc_bit (c : Z) : Z :=
  Z.lxor (Z.shiftr c 1) (if Z.testbit c 0 then crc_poly else 0).
Definition crc_bits (n : nat) (c : Z) : Z := Nat.iter n crc_bit c.
Definition crc32qi (sum b : Z) : Z := crc_bits 8 (Z.lxor sum b).
Definition crc32di (sum w : Z) : Z := crc_bits 64 (Z.lxor sum w).

(** The loops of the hardware routine over the two builtins. *)
Section hw_loops.
Context (qi di : Z -> Z -> Z).

(** [while (offset < limit)] over single bytes. *)
Definition hw_bytes (data : bytes) (sum : Z) : Z := foldl qi sum data.

(** [while (offset + 8 <= nbytes)], then the byte tail. *)
Fixpoint hw_words (data : bytes) (sum : Z) : Z :=
  match data with
  | b0 :: b1 :: b2 :: b3 :: b4 :: b5 :: b6 :: b7 :: rest =>
      hw_words rest (di sum (load_u64_le [b0; b1; b2; b3; b4; b5; b6; b7] 0))
  | tail => hw_bytes tail sum
  end.

Lemma hw_bytes_app a b sum : hw_bytes (a ++ b) sum = hw_bytes b (hw_bytes a sum).
Proof. apply foldl_app. Qed.
Lemma hw_bytes_cons b l sum : hw_bytes (b :: l) sum = hw_bytes l (qi sum b).
Proof. done. Qed.

(** A word instruction that does the work of eight byte instructions can
    replace them anywhere. *)
Lemma hw_words_bytes data sum :
  (forall w sum, length w = 8%nat -> Forall is_byte w ->
     di sum (load_u64_le w 0) = hw_bytes w sum) ->
  Forall is_byte data -> hw_words data sum = hw_bytes data sum.
Proof.
  intros Hdi. revert sum. induction data as [data IH] using (induction_ltof1 _ (@length Z)).
  intros sum Hd. unfold ltof in IH.
  destruct data as [|b0 [|b1 [|b2 [|b3 [|b4 [|b5 [|b6 [|b7 rest]]]]]]]]; try done.
  set (w := [b0; b1; b2; b3; b4; b5; b6; b7]).
  change (b0 :: b1 :: b2 :: b3 :: b4 :: b5 :: b6 :: b7 :: rest) with (w ++ rest) in *.
  apply Forall_app in Hd as [Hw Hr].
  rewrite hw_bytes_app, <- IH, <- Hdi by (done || rewrite length_app; simpl; lia). done.
Qed.
End hw_loops.

(** [mask] is the low three bits of the buffer's address. *)
Definition crc32c_hw (mask : Z) (data : bytes) (crc : Z) : Z :=
  let limit := if negb (mask =? 0) then Z.min (zlen data) (8 - mask) else 0 in
  hw_words crc32qi crc32di (zdrop limit data) (hw_bytes crc32qi (ztake limit data) crc).

Definition crc32c_extend (hardware_available : bool) (mask : Z) (data : bytes) (crc : Z) : Z :=
  if zlen data =? 0 then crc
  else if hardware_available then crc32c_hw mask data crc
  else crc32c_sw data crc.

Definition crc32c (hw : bool) (mask : Z) (data : bytes) : Z := crc32c_extend hw mask data 0.
Definition crc32c_salt (hw : bool) (mask : Z) (data : bytes) : Z :=
  crc32c_extend hw mask data 100007.

(** ** The register is linear over xor *)

Lemma crc_bit_lxor x y : crc_bit (Z.lxor x y) = Z.lxor (crc_bit x) (crc_bit y).
Proof.
  unfold crc_bit. rewrite Z.shiftr_lxor, Z.lxor_spec.
  apply Z.bits_inj'. intros n Hn. rewrite !Z.lxor_spec.
  destruct (Z.testbit x 0), (Z.testbit y 0); simpl; rewrite ?Z.bits_0;
    repeat match goal with |- context [Z.testbit ?a ?b] => destruct (Z.testbit a b) end; done.
Qed.

Lemma crc_bits_lxor n x y :
  crc_bits n (Z.lxor x y) = Z.lxor (crc_bits n x) (crc_bits n y).
Proof.
  induction n as [|n IH]; [done|]. unfold crc_bits in *; simpl.
  by rewrite IH, crc_bit_lxor.
Qed.

(** Bits above the clocked ones are only shifted down. *)
Lemma crc_bits_shiftl (n : nat) x : crc_bits n (Z.shiftl x (Z.of_nat n)) = x.
Proof.
  revert x. induction n as [|n IH]; intros x; [apply Z.shiftl_0_r|].
  unfold crc_bits in *. rewrite Nat.iter_succ_r.
  replace (crc_bit (Z.shiftl x (Z.of_nat (S n)))) with (Z.shiftl x (Z.of_nat n)); [apply IH|].
  unfold crc_bit. rewrite Z.shiftl_spec_low by lia. rewrite Z.lxor_0_r.
  rewrite Z.shiftr_shiftl_l by lia. f_equal. lia.
Qed.

Lemma crc_bits8_shiftl x : crc_bits 8 (Z.shiftl x 8) = x.
Proof. exact (crc_bits_shiftl 8 x). Qed.
Lemma crc_bits_0 x : crc_bits 0 x = x.
Proof. done. Qed.
Lemma crc_bits_add n m x : crc_bits (n + m) x = crc_bits n (crc_bits m x).
Proof. unfold crc_bits. apply Nat.iter_add. Qed.

Lemma split_low8 x : 0 <= x -> x = Z.lxor (Z.land x 0xff) (Z.shiftl (Z.shiftr x 8) 8).
Proof.
  intros Hx. apply Z.bits_inj'. intros n Hn. rewrite Z.lxor_spec, Z.land_spec.
  change 0xff with (Z.ones 8). rewrite Z.testbit_ones_nonneg by lia.
  destruct (Z.ltb_spec n 8).
  - rewrite Z.shiftl_spec_low by lia. by rewrite andb_true_r, xorb_false_r.
  - rewrite Z.shiftl_spec, Z.shiftr_spec by lia. rewrite andb_false_r. simpl.
    f_equal. lia.
Qed.

(** The table holds the register after eight clocks, for each byte. *)
Lemma table_is_register i : 0 <= i < 256 -> table_at i = crc_bits 8 i.
Proof.
  intros Hi.
  assert (forallb (fun i => table_at i =? crc_bits 8 i) (seqZ 0 256) = true) as H
    by (vm_compute; done).
  rewrite forallb_forall in H. apply Z.eqb_eq, H. apply list_elem_of_In, elem_of_seqZ. lia.
Qed.

Lemma sw_byte_is_crc32qi crc b :
  0 <= crc -> is_byte b -> crc32c_sw_byte crc b = crc32qi crc b.
Proof.
  intros Hc Hb. unfold crc32c_sw_byte, crc32qi, is_byte in *.
  assert (0 <= Z.lxor crc b) as Hx by (apply Z.lxor_nonneg; lia).
  rewrite (split_low8 (Z.lxor crc b) Hx) at 2.
  rewrite crc_bits_lxor, crc_bits8_shiftl, table_is_register.
  - f_equal. rewrite Z.shiftr_lxor. rewrite (Z.shiftr_div_pow2 b) by lia.
    rewrite (Z.div_small b) by lia. by rewrite Z.lxor_0_r.
  - change 0xff with (Z.ones 8). rewrite Z.land_ones by lia. apply Z.mod_pos_bound. lia.
Qed.

Lemma crc_bit_nonneg c : 0 <= c -> 0 <= crc_bit c.
Proof.
  intros. unfold crc_bit. apply Z.lxor_nonneg. split; intros _; [|by apply Z.shiftr_nonneg].
  by case_match.
Qed.
Lemma crc_bits_nonneg n c : 0 <= c -> 0 <= crc_bits n c.
Proof. intros. induction n; [done|]. by apply crc_bit_nonneg. Qed.
Lemma crc32qi_nonneg c b : 0 <= c -> is_byte b -> 0 <= crc32qi c b.
Proof. intros Hc [Hb _]. apply crc_bits_nonneg. by apply Z.lxor_nonneg. Qed.

(** A wide instruction is the narrow one on the low byte and the rest. *)
Lemma crc_bits_word n sum b w :
  0 <= b < 256 ->
  crc_bits (n + 8) (Z.lxor sum (b + 2 ^ 8 * w)) = crc_bits n (Z.lxor (crc32qi sum b) w).
Proof.
  intros Hb. unfold crc32qi. rewrite crc_bits_add.
  rewrite (Z.mul_comm _ w), <- (lor_shiftl_add b w 8) by lia.
  rewrite <- Z.lxor_lor by (apply land_low_shiftl; lia).
  rewrite <- Z.lxor_assoc, crc_bits_lxor, crc_bits8_shiftl. reflexivity.
Qed.

#[local] Opaque crc_bits crc32qi.

Lemma crc_bits_le_val l sum :
  Forall is_byte l -> crc_bits (8 * length l) (Z.lxor sum (le_val l)) = hw_bytes crc32qi l sum.
Proof.
  intros Hl. revert sum. induction Hl as [|b l Hb Hl IH]; intros sum; simpl le_val.
  - rewrite Z.lxor_0_r. apply crc_bits_0.
  - simpl length. replace (8 * S (length l))%nat with (8 * length l + 8)%nat by lia.
    rewrite crc_bits_word by exact Hb. by rewrite IH, hw_bytes_cons.
Qed.

Lemma crc32di_bytes w sum :
  length w = 8%nat -> Forall is_byte w ->
  crc32di sum (load_u64_le w 0) = hw_bytes crc32qi w sum.
Proof.
  intros Hl Hw. unfold crc32di. rewrite load_u64_val by (done || unfold zlen; lia).
  rewrite <- crc_bits_le_val by done. rewrite Hl. f_equal.
  unfold sub, ztake. rewrite zdrop_0, take_ge by (simpl; lia). done.
Qed.

Lemma crc32c_sw_app a b crc : crc32c_sw (a ++ b) crc = crc32c_sw b (crc32c_sw a crc).
Proof. apply foldl_app. Qed.
Lemma crc32c_sw_cons b l crc : crc32c_sw (b :: l) crc = crc32c_sw l (crc32c_sw_byte crc b).
Proof. exact (hw_bytes_cons crc32c_sw_byte b l crc). Qed.

Lemma crc32c_sw_hw_bytes data crc :
  Forall is_byte data -> 0 <= crc ->
  crc32c_sw data crc = hw_bytes crc32qi data crc /\ 0 <= crc32c_sw data crc.
Proof.
  intros Hd. revert crc. induction Hd as [|b data Hb Hd IH]; intros crc Hc; [done|].
  rewrite crc32c_sw_cons, hw_bytes_cons, sw_byte_is_crc32qi by done.
  apply IH. by apply crc32qi_nonneg.
Qed.

Lemma crc32c_hw_bytes mask data crc :
  0 <= mask < 8 -> Forall is_byte data -> crc32c_hw mask data crc = hw_bytes crc32qi data crc.
Proof.
  intros Hm Hd. unfold crc32c_hw.
  rewrite hw_words_bytes by (apply crc32di_bytes || by apply Forall_drop). rewrite <- hw_bytes_app.
  unfold ztake, zdrop. by rewrite take_drop.
Qed.

Lemma crc32c_extend_sw hw mask data crc :
  0 <= mask < 8 -> Forall is_byte data -> 0 <= crc ->
  crc32c_extend hw mask data crc = crc32c_sw data crc.
Proof.
  intros Hm Hd Hc. unfold crc32c_extend. case_if.
  - destruct data; [done|len].
  - destruct hw; [|done]. rewrite crc32c_hw_bytes by done. symmetry. by apply crc32c_sw_hw_bytes.
Qed.

(** ** The checksum fits its word *)

Lemma lxor_bound n a b : 0 <= n -> 0 <= a < 2 ^ n -> 0 <= b < 2 ^ n -> 0 <= Z.lxor a b < 2 ^ n.
Proof.
  intros Hn Ha Hb. replace (Z.lxor a b) with (Z.lxor a b mod 2 ^ n); [apply Z.mod_pos_bound; lia|].
  apply Z.bits_inj'. intros i Hi. destruct (decide (i < n)).
  - by rewrite Z.mod_pow2_bits_low.
  - rewrite Z.mod_pow2_bits_high, Z.lxor_spec by lia.
    rewrite <- (Z.mod_small a (2 ^ n)), <- (Z.mod_small b (2 ^ n)) by lia.
    by rewrite !Z.mod_pow2_bits_high by lia.
Qed.

Lemma table_at_bound i : 0 <= table_at i < 2 ^ 32.
Proof.
  assert (Forall (fun x => 0 <= x < 2 ^ 32) kCrc32cTable) as Ht.
  { apply Forall_forall. intros x Hx. apply list_elem_of_In in Hx. revert x Hx.
    apply List.Forall_forall. repeat constructor; lia || done. }
  unfold table_at. destruct (nth_in_or_default (Z.to_nat i) kCrc32cTable 0) as [Hin| ->]; [|lia].
  rewrite Forall_forall in Ht. by apply Ht, list_elem_of_In.
Qed.

Lemma crc32c_sw_bound data crc : 0 <= crc < 2 ^ 32 -> 0 <= crc32c_sw data crc < 2 ^ 32.
Proof.
  revert crc. induction data as [|b data IH]; intros crc Hc; [done|]. apply IH.
  apply lxor_bound; [lia|apply table_at_bound|]. rewrite Z.shiftr_div_pow2 by lia.
  split; [apply Z.div_pos; lia|]. apply Z.div_lt_upper_bound; lia.
Qed.

Lemma crc32c_bound data : 0 <= crc32c false 0 data < 2 ^ 32.
Proof. unfold crc32c, crc32c_extend. case_if; [lia|]. by apply crc32c_sw_bound. Qed.

(** C5. The digest of a buffer does not depend on the routine chosen at run
    time, on the buffer's alignment or on how it is cut: extending over the two
    parts on any mix of hardware and software gives the software digest of the
    whole. *)
Theorem crc32c_extend_split hw1 hw2 mask1 mask2 a b crc :
  0 <= mask1 < 8 -> 0 <= mask2 < 8 -> 0 <= crc ->
  Forall is_byte a -> Forall is_byte b ->
  crc32c_extend hw2 mask2 b (crc32c_extend hw1 mask1 a crc) = crc32c_sw (a ++ b) crc.
Proof.
  intros Hm1 Hm2 Hc Ha Hb.
  rewrite (crc32c_extend_sw hw1), crc32c_extend_sw, crc32c_sw_app; auto.
  by apply crc32c_sw_hw_bytes.
Qed.

Lemma crc32c_extend_split_witness :
  let a := [49; 50; 51; 52] in
  let b := [53; 54; 55; 56; 57; 49; 50; 51; 52; 53; 54; 55; 56] in
  crc32c_extend true 3 b (crc32c_extend false 1 a 100007) = crc32c_sw (a ++ b) 100007.
Proof.
  apply crc32c_extend_split; [lia..| |]; repeat constructor; vm_compute; congruence.
Defined.
