(* ===== verification/LsmtFormat.v ===== *)
(** * The LSMT header and trailer ([format/lsmt_format.{hpp,cpp}])

    The 390-byte record at the front of a 4096-byte region: its fields, the
    flag accessors, [parse] and [serialize] at their byte offsets, and the round
    trip between them. *)
From S2P Require Import Prelude Bytes.

Open Scope Z_scope.

Definition kSpace : Z := 4096.
Definition kHeaderSize : Z := 390.
Definition kAlignment : Z := 512.
Definition kMaxRoIndexSize : Z := 1000000.
Definition kMaxStackLayers : Z := 255.
Definition kDataStartSector : Z := kSpace / kAlignment.

Definition kMagic0 : bytes := [0x4C; 0x53; 0x4D; 0x54; 0x00; 0x01; 0x02; 0x00].
Definition kMagic1 : bytes :=
  [0x65; 0x7E; 0x63; 0xD2; 0x94; 0x44; 0x08; 0x4C;
   0xA2; 0xD2; 0xC8; 0xEC; 0x4F; 0xCF; 0xAE; 0x8A].

Definition kFlagShiftHeader : Z := 0.
Definition kFlagShiftType : Z := 1.
Definition kFlagShiftSealed : Z := 2.
Definition kFlagShiftGcLayer : Z := 3.
Definition kFlagShiftSparseRw : Z := 4.
Definition kFlagShiftHybridRw : Z := 5.

(** Strings are the bytes before the terminating NUL. *)
Record HeaderTrailer := HT {
  ht_size : Z;
  ht_flags : Z;
  ht_index_offset : Z;
  ht_index_size : Z;
  ht_virtual_size : Z;
  ht_uuid : bytes;
  ht_parent_uuid : bytes;
  ht_reserved : Z;
  ht_version : Z;
  ht_sub_version : Z;
  ht_user_tag : bytes;
}.

#[export] Instance HeaderTrailer_eq_dec : EqDecision HeaderTrailer.
Proof. solve_decision. Defined.

Definition get_flag_bit (ht : HeaderTrailer) (shift : Z) : bool :=
  negb (Z.land (Z.shiftr (ht_flags ht) shift) 1 =? 0).
Definition with_flags (ht : HeaderTrailer) (f : Z) : HeaderTrailer :=
  HT (ht_size ht) f (ht_index_offset ht) (ht_index_size ht) (ht_virtual_size ht)
    (ht_uuid ht) (ht_parent_uuid ht) (ht_reserved ht) (ht_version ht)
    (ht_sub_version ht) (ht_user_tag ht).
Definition set_flag_bit (ht : HeaderTrailer) (shift : Z) : HeaderTrailer :=
  with_flags ht (Z.lor (ht_flags ht) (u32 (Z.shiftl 1 shift))).
Definition clr_flag_bit (ht : HeaderTrailer) (shift : Z) : HeaderTrailer :=
  with_flags ht (Z.land (ht_flags ht) (Z.lxor (Z.ones 32) (u32 (Z.shiftl 1 shift)))).
Definition is_header (ht : HeaderTrailer) : bool := get_flag_bit ht kFlagShiftHeader.
Definition is_trailer (ht : HeaderTrailer) : bool := negb (is_header ht).
Definition is_data_file (ht : HeaderTrailer) : bool := get_flag_bit ht kFlagShiftType.
Definition is_sealed (ht : HeaderTrailer) : bool := get_flag_bit ht kFlagShiftSealed.

(** The field's bytes up to the first NUL. *)
Fixpoint until_nul (l : bytes) : bytes :=
  match l with
  | [] => []
  | b :: l => if negb (b =? 0) then b :: until_nul l else []
  end.
Definition read_cstr (b : bytes) (p maxlen : Z) : bytes := until_nul (sub p maxlen b).

Definition write_cstr (b : bytes) (p maxlen : Z) (s : bytes) : res bytes :=
  if maxlen <=? zlen s then format_error
  else Ok (put (put b p (zeros maxlen)) p s).

Definition parse (b : bytes) : res HeaderTrailer :=
  if negb (bool_decide (sub 0 8 b = kMagic0)) || negb (bool_decide (sub 8 16 b = kMagic1))
  then format_error
  else
    let size := load_u32_le b 24 in
    if negb (size =? kHeaderSize) then format_error
    else Ok {| ht_size := size;
               ht_flags := load_u32_le b 28;
               ht_index_offset := load_u64_le b 32;
               ht_index_size := load_u64_le b 40;
               ht_virtual_size := load_u64_le b 48;
               ht_uuid := read_cstr b 56 37;
               ht_parent_uuid := read_cstr b 93 37;
               ht_reserved := load_u16_le b 130;
               ht_version := bget b 132;
               ht_sub_version := bget b 133;
               ht_user_tag := read_cstr b 134 256 |}.

Definition serialize (ht : HeaderTrailer) : res bytes :=
  let b := zeros kSpace in
  let b := put b 0 kMagic0 in
  let b := put b 8 kMagic1 in
  let b := store_u32_le b 24 kHeaderSize in
  let b := store_u32_le b 28 (ht_flags ht) in
  let b := store_u64_le b 32 (ht_index_offset ht) in
  let b := store_u64_le b 40 (ht_index_size ht) in
  let b := store_u64_le b 48 (ht_virtual_size ht) in
  b ← write_cstr b 56 37 (ht_uuid ht);
  b ← write_cstr b 93 37 (ht_parent_uuid ht);
  let b := store_u16_le b 130 (ht_reserved ht) in
  let b := put b 132 [ht_version ht] in
  let b := put b 133 [ht_sub_version ht] in
  write_cstr b 134 256 (ht_user_tag ht).

(** A string the format can hold: no NUL inside, room for the terminator. *)
Definition cstr_ok (maxlen : Z) (s : bytes) : Prop :=
  Forall (fun b => 0 < b < 256) s /\ zlen s < maxlen.

Definition ht_ok (ht : HeaderTrailer) : Prop :=
  ht_size ht = kHeaderSize /\ 0 <= ht_flags ht < 2 ^ 32 /\
  0 <= ht_index_offset ht < 2 ^ 64 /\ 0 <= ht_index_size ht < 2 ^ 64 /\
  0 <= ht_virtual_size ht < 2 ^ 64 /\ cstr_ok 37 (ht_uuid ht) /\
  cstr_ok 37 (ht_parent_uuid ht) /\ 0 <= ht_reserved ht < 2 ^ 16 /\
  is_byte (ht_version ht) /\ is_byte (ht_sub_version ht) /\ cstr_ok 256 (ht_user_tag ht).

(** ** String fields *)

Lemma until_nul_padded s n : Forall (fun b => 0 < b < 256) s -> until_nul (s ++ zeros n) = s.
Proof.
  induction 1 as [|b s Hb Hs IH]; simpl.
  - unfold zeros. by destruct (Z.to_nat n).
  - rewrite (proj2 (Z.eqb_neq b 0)) by lia. simpl. by rewrite IH.
Qed.

Section cstr.
Context (b : bytes) (p maxlen : Z) (s : bytes).
Context (Hp : 0 <= p) (Hl : p + maxlen <= zlen b) (Hs : zlen s < maxlen).

Lemma write_cstr_put :
  write_cstr b p maxlen s = Ok (put b p (s ++ zeros (maxlen - zlen s))).
Proof.
  unfold write_cstr. rewrite (proj2 (Z.leb_gt _ _)) by lia. f_equal.
  assert (zlen (zeros maxlen) = maxlen) as Hz by len.
  assert (zlen (s ++ zeros (maxlen - zlen s)) = maxlen) as Ht by len.
  assert (zlen (put b p (zeros maxlen)) = zlen b) as Hpz by (apply zlen_put; lia).
  apply list_eq_bget; rewrite (zlen_put (put b p _)) by lia; [rewrite Hpz, zlen_put; lia|].
  intros i Hi. rewrite !bget_put by lia. rewrite Hz, Ht.
  repeat case_decide; try lia.
  - by rewrite bget_app_l by lia.
  - by rewrite bget_zeros, bget_app_r, bget_zeros by lia.
Qed.
End cstr.

Lemma read_cstr_field b p maxlen s :
  cstr_ok maxlen s -> sub p maxlen b = s ++ zeros (maxlen - zlen s) -> read_cstr b p maxlen = s.
Proof. intros [Hb _] H. unfold read_cstr. rewrite H. by apply until_nul_padded. Qed.

Lemma cstr_field_byte s n : Forall (fun b => 0 < b < 256) s -> Forall is_byte (s ++ zeros n).
Proof.
  intros H. apply Forall_app. split; [|apply zeros_byte].
  eapply Forall_impl; [exact H|]. unfold is_byte. simpl. lia.
Qed.

(** ** The record as fields at increasing offsets *)

Definition ht_fields (ht : HeaderTrailer) : list (Z * bytes) :=
  [(0, kMagic0); (8, kMagic1); (24, le_bytes 4 kHeaderSize);
   (28, le_bytes 4 (ht_flags ht)); (32, le_bytes 8 (ht_index_offset ht));
   (40, le_bytes 8 (ht_index_size ht)); (48, le_bytes 8 (ht_virtual_size ht));
   (56, ht_uuid ht ++ zeros (37 - zlen (ht_uuid ht)));
   (93, ht_parent_uuid ht ++ zeros (37 - zlen (ht_parent_uuid ht)));
   (130, le_bytes 2 (ht_reserved ht)); (132, [ht_version ht]); (133, [ht_sub_version ht]);
   (134, ht_user_tag ht ++ zeros (256 - zlen (ht_user_tag ht)))].

Section fields.
Context (ht : HeaderTrailer) (Hok : ht_ok ht).

Lemma ht_fields_layout : layout_ok 0 (zlen (zeros kSpace)) (ht_fields ht).
Proof.
  destruct Hok as (_ & _ & _ & _ & _ & [_ ?] & [_ ?] & _ & _ & _ & [_ ?]).
  unfold ht_fields. cbn [layout_ok]. change (zlen kMagic0) with 8. change (zlen kMagic1) with 16.
  change (zlen (zeros kSpace)) with 4096. rewrite !zlen_le_bytes.
  autorewrite with zlen. zlen_nonneg. lia.
Qed.

Lemma ht_fields_byte : Forall (fun f => Forall is_byte f.2) (ht_fields ht).
Proof.
  destruct Hok as (_ & _ & _ & _ & _ & [? _] & [? _] & _ & ? & ? & [? _]).
  unfold ht_fields. forall_fields ltac:(fun _ =>
    first [apply le_bytes_byte | by apply cstr_field_byte | by apply Forall_singleton
          | by repeat constructor]).
Qed.

Lemma serialize_puts : serialize ht = Ok (puts (zeros kSpace) (ht_fields ht)).
Proof.
  pose proof ht_fields_layout as Hl.
  destruct Hok as (_ & _ & _ & _ & _ & [_ ?] & [_ ?] & _ & _ & _ & [_ ?]).
  assert (forall k, zlen (puts (zeros kSpace) (take k (ht_fields ht))) = 4096) as Hk.
  { intros k. by rewrite (zlen_puts_take _ _ 0). }
  unfold serialize. rewrite !store_u32_val, !store_u64_val.
  pose proof (Hk 7%nat) as H7. cbn [ht_fields take puts] in H7.
  rewrite write_cstr_put by (cbn zeta; lia). cbn [mbind res_bind].
  pose proof (Hk 8%nat) as H8. cbn [ht_fields take puts] in H8.
  rewrite write_cstr_put by lia. cbn [mbind res_bind].
  pose proof (Hk 12%nat) as H12. cbn [ht_fields take puts] in H12.
  rewrite store_u16_val, write_cstr_put by lia. done.
Qed.
End fields.

Lemma parse_puts ht : ht_ok ht -> parse (puts (zeros kSpace) (ht_fields ht)) = Ok ht.
Proof.
  intros Hok. pose proof (ht_fields_layout ht Hok) as Hl.
  assert (Forall is_byte (puts (zeros kSpace) (ht_fields ht))) as Hb
    by (apply puts_byte; [apply zeros_byte|by apply ht_fields_byte]).
  assert (zlen (puts (zeros kSpace) (ht_fields ht)) = 4096) as Hz
    by (destruct (puts_below _ _ 0 ltac:(lia) Hl) as [-> _]; done).
  assert (forall p bs n, (p, bs) ∈ ht_fields ht -> zlen bs = n ->
    sub p n (puts (zeros kSpace) (ht_fields ht)) = bs) as Hf by eauto using puts_field, Z.le_refl.
  set (b := puts _ _) in *. clearbody b.
  destruct ht as [size flags ioff isz vsz uuid puuid rsv ver sub utag].
  destruct Hok as (?&?&?&?&?&?&?&?&?&?&?). simpl in *. subst size.
  assert (forall x n, 0 <= x < 2 ^ n -> x mod 2 ^ n = x) as Hmod by (intros; by apply Z.mod_small).
  unfold parse, kHeaderSize in *.
  rewrite (Hf 0 kMagic0), (Hf 8 kMagic1) by (done || in_fields).
  rewrite !bool_decide_true by done. cbn [negb orb].
  rewrite (load_field_u32 b 24 Hb ltac:(lia) 390) by (lia || by apply Hf; in_fields).
  rewrite (load_field_u32 b 28 Hb ltac:(lia) flags) by (lia || by apply Hf; in_fields).
  rewrite (load_field_u64 b 32 Hb ltac:(lia) ioff) by (lia || by apply Hf; in_fields).
  rewrite (load_field_u64 b 40 Hb ltac:(lia) isz) by (lia || by apply Hf; in_fields).
  rewrite (load_field_u64 b 48 Hb ltac:(lia) vsz) by (lia || by apply Hf; in_fields).
  rewrite (load_field_u16 b 130 Hb ltac:(lia) rsv) by (lia || by apply Hf; in_fields).
  rewrite (load_field_u8 b 132 ltac:(lia) ver), (load_field_u8 b 133 ltac:(lia) sub)
    by (lia || by apply Hf; in_fields).
  rewrite (read_cstr_field b 56 37 uuid), (read_cstr_field b 93 37 puuid),
    (read_cstr_field b 134 256 utag)
    by (done || (apply Hf; [in_fields|destruct_and?; unfold cstr_ok in *; len])).
  rewrite !Hmod by done. done.
Qed.

Lemma parse_serialize ht :
  ht_ok ht ->
  exists b, serialize ht = Ok b /\ zlen b = kSpace /\ Forall is_byte b /\ parse b = Ok ht.
Proof.
  intros Hok. eexists. split; [by apply serialize_puts|].
  pose proof (ht_fields_layout ht Hok) as Hl. repeat split.
  - by destruct (puts_below _ _ 0 ltac:(lia) Hl) as [-> _].
  - apply puts_byte; [apply zeros_byte|by apply ht_fields_byte].
  - by apply parse_puts.
Qed.

Lemma write_cstr_too_long b p maxlen s : maxlen <= zlen s -> write_cstr b p maxlen s = format_error.
Proof. intros. unfold write_cstr. by rewrite (proj2 (Z.leb_le _ _)). Qed.

Lemma parse_errno b : res_errno (parse b).
Proof. unfold parse. cbv zeta. res_errno. Qed.

Lemma parse_bounds b ht :
  parse b = Ok ht -> Forall is_byte b -> zlen b = kSpace ->
  0 <= ht_index_offset ht < 2 ^ 64 /\ 0 <= ht_index_size ht < 2 ^ 64 /\
  0 <= ht_virtual_size ht < 2 ^ 64.
Proof.
  unfold parse, kSpace. intros Hp Hb Hl. repeat case_if_in Hp; try done.
  injection Hp as <-. simpl. split; [|split]; apply load_u64_bound; done || lia.
Qed.

(** ** Flags *)

Lemma get_flag_testbit ht shift :
  0 <= shift -> get_flag_bit ht shift = Z.testbit (ht_flags ht) shift.
Proof.
  intros. unfold get_flag_bit. rewrite Z.testbit_odd, land_one, Zmod_odd.
  by destruct (Z.odd _).
Qed.

Lemma testbit_flag shift t :
  0 <= shift < 32 -> 0 <= t -> Z.testbit (u32 (Z.shiftl 1 shift)) t = (t =? shift).
Proof.
  intros. rewrite Z.shiftl_1_l, u32_small.
  - rewrite Z.pow2_bits_eqb by lia. apply Z.eqb_sym.
  - split; [lia|]. apply Z.pow_lt_mono_r; lia.
Qed.

Lemma get_set_flag ht shift t :
  0 <= shift < 32 -> 0 <= t ->
  get_flag_bit (set_flag_bit ht shift) t = (t =? shift) || get_flag_bit ht t.
Proof.
  intros. rewrite !get_flag_testbit by lia. unfold set_flag_bit. simpl.
  rewrite Z.lor_spec, testbit_flag by lia. apply orb_comm.
Qed.

Lemma get_clr_flag ht shift t :
  0 <= shift < 32 -> 0 <= t < 32 ->
  get_flag_bit (clr_flag_bit ht shift) t = negb (t =? shift) && get_flag_bit ht t.
Proof.
  intros. rewrite !get_flag_testbit by lia. unfold clr_flag_bit, with_flags. simpl.
  rewrite Z.land_spec, Z.lxor_spec, testbit_flag, Z.testbit_ones_nonneg by lia.
  rewrite (proj2 (Z.ltb_lt t 32)) by lia. by rewrite andb_comm.
Qed.


