(* ===== verification/Source.v ===== *)
(** * The byte-source interface ([source/blob_source.hpp])

    [BlobSource] is the interface every layer of the read stack is built on.
    [SourceSpec] is its documented contract: a read returns [count] bytes except
    at the end of the blob, always of the same content, or fails with an error
    of the source.  Clients are proved against the contract and composite
    sources (the layer view, the merged view, the tar and block decoders)
    discharge it. *)
From S2P Require Import Prelude Bytes.

Open Scope Z_scope.

(** A successful read is the bytes placed at the front of the caller's buffer;
    a negative return is [Err (Errno e)]. *)
Record BlobSource (W : Type) := Src {
  src_size : Z;
  src_pread : Z -> Z -> io W bytes;  (* count, offset *)
}.
Arguments Src {W} _ _.
Arguments src_size {W} _.
Arguments src_pread {W} _ _ _.

(** How many bytes a read delivers. *)
Definition avail (size count off : Z) : Z := Z.min count (Z.max 0 (size - off)).

Class SourceSpec {W} (E : fail -> Prop) (src : BlobSource W) (content : Z -> Z) : Prop := {
  src_size_ok : 0 <= src_size src < 2 ^ 64;
  src_content_byte : forall i, is_byte (content i);
  src_pread_ok : forall count off, 0 <= count -> 0 <= off ->
    io_spec E (src_pread src count off)
      (fun bs => bs = slice content off (avail (src_size src) count off));
}.

(** A read delivers a prefix of what was asked for; the content past a short
    read is zero. *)
Definition delivers (content : Z -> Z) (off count : Z) (bs : bytes) : Prop :=
  bs = slice content off (zlen bs) /\ zlen bs <= count /\
  (zlen bs < count -> forall i, off + zlen bs <= i -> content i = 0).

(** The contract of a source with this content as long as the world is in [I]. *)
Class SourceInv {W} (I : W -> Prop) (E : fail -> Prop) (src : BlobSource W) (content : Z -> Z) : Prop := {
  inv_pread_ok : forall count off, 0 <= count -> 0 <= off ->
    io_inv I E (src_pread src count off) (delivers content off count);
}.

(** The content of a source, continued with zeroes. *)
Definition extent {W} (src : BlobSource W) (content : Z -> Z) (i : Z) : Z :=
  if i <? src_size src then content i else 0.

#[export] Instance spec_inv {W} E (src : BlobSource W) content :
  SourceSpec E src content -> SourceInv (fun _ => True) E src (extent src content).
Proof.
  intros [H1 H2 H3]. split. intros count off Hc Ho.
  apply io_inv_true. eapply io_spec_mono; [by apply H3|]. cbv beta. intros bs ->.
  unfold delivers. rewrite zlen_slice, Z.max_r by (unfold avail; lia). split; [|split].
  - apply slice_ext. unfold extent, avail. intros i Hi. by rewrite (proj2 (Z.ltb_lt _ _)) by lia.
  - unfold avail. lia.
  - unfold extent, avail. intros Hs i Hi. by rewrite (proj2 (Z.ltb_ge _ _)) by lia.
Qed.

(** The contract of a source that serves whole sectors. *)
Class BlockSpec {W} (E : fail -> Prop) (src : BlobSource W) (content : Z -> Z) : Prop := {
  blk_size_ok : 0 <= src_size src < 2 ^ 64;
  blk_content_byte : forall i, is_byte (content i);
  blk_pread_ok : forall count off, 0 <= count -> 0 <= off ->
    count mod 512 = 0 -> off mod 512 = 0 ->
    io_spec E (src_pread src count off)
      (fun bs => bs = slice content off (avail (src_size src) count off));
}.

(** A source that returns at most what was asked for: all that memory safety of
    its clients relies on. *)
Class SourceSafe {W} (src : BlobSource W) : Prop := {
  safe_size : 0 <= src_size src < 2 ^ 64;
  safe_pread : forall count off, 0 <= count -> 0 <= off ->
    io_spec any_errno (src_pread src count off)
      (fun bs => zlen bs <= count /\ Forall is_byte bs);
}.

Lemma slice_bytes f off n : (forall i, is_byte (f i)) -> Forall is_byte (slice f off n).
Proof. intros H. apply Forall_fmap, Forall_true. intros i. apply H. Qed.

(** Memory that has been allocated and not yet written: no byte. *)
Definition uninit (n : Z) : bytes := replicate (Z.to_nat n) (-1).

Lemma zlen_uninit n : zlen (uninit n) = Z.max 0 n.
Proof. unfold uninit. rewrite zlen_replicate. lia. Qed.
#[export] Hint Rewrite zlen_uninit : zlen.

Lemma zdrop_uninit n m : 0 <= n -> zdrop n (uninit m) = uninit (m - n).
Proof. intros. unfold zdrop, uninit. rewrite drop_replicate. f_equal. lia. Qed.

(** A buffer of [n] bytes filled with [f] from [off] on up to [done]. *)
Definition filled (f : Z -> Z) (off done n : Z) : bytes := slice f off done ++ uninit (n - done).

Lemma zlen_filled f off done n : 0 <= done <= n -> zlen (filled f off done n) = n.
Proof. intros. unfold filled. len. Qed.
Lemma filled_0 f off n : filled f off 0 n = uninit n.
Proof. unfold filled. rewrite slice_nil by lia. by rewrite Z.sub_0_r. Qed.
Lemma filled_all f off n : filled f off n n = slice f off n.
Proof. unfold filled. rewrite Z.sub_diag. apply app_nil_r. Qed.

Lemma write_filled f off done n k bs :
  0 <= done -> 0 <= k -> done + k <= n -> bs = slice f (off + done) k ->
  mem_write (filled f off done n) done bs = Ok (filled f off (done + k) n).
Proof.
  intros Hd Hk Hn ->. unfold filled. rewrite mem_write_prefix by len.
  rewrite <- slice_app, zlen_slice, zdrop_uninit by lia. do 3 f_equal. lia.
Qed.

Lemma zero_filled f off done n k :
  0 <= done -> 0 <= k -> done + k <= n ->
  (forall i, off + done <= i < off + done + k -> f i = 0) ->
  mem_zero (filled f off done n) done k = Ok (filled f off (done + k) n).
Proof.
  intros Hd Hk Hn Hf. unfold filled. rewrite mem_zero_prefix by len.
  rewrite <- (slice_zero f (off + done)) by done.
  rewrite <- slice_app, zdrop_uninit by lia. do 3 f_equal. lia.
Qed.

(** Turns the negative return of a call into a value; model failures pass
    through. *)
Definition io_try {W A} (m : io W A) : io W (A + Z) := fun w =>
  match m w with
  | (Ok a, w) => (Ok (inl a), w)
  | (Err (Errno e), w) => (Ok (inr e), w)
  | (Err f, w) => (Err f, w)
  end.

(** [r = pread(buf, count, off); if (r != count) throw error(EIO, ...)] *)
Definition read_exact {W} (src : BlobSource W) (count off : Z) : io W bytes :=
  r ← io_try (src_pread src count off);
  match r with
  | inl bs => if zlen bs =? count then mret bs else io_fail (Errno EIO)
  | inr _ => io_fail (Errno EIO)
  end.

Lemma io_try_spec {W A} E (m : io W A) (Q : A -> Prop) :
  io_spec E m Q -> io_spec E (io_try m) (fun r => match r with inl a => Q a | inr e => E (Errno e) end).
Proof.
  intros H w. specialize (H w). unfold io_try. destruct (m w) as [[a|[]] w']; done.
Qed.

Lemma io_try_inv {W A} I E (m : io W A) (Q : A -> Prop) :
  io_inv I E m Q ->
  io_inv I E (io_try m) (fun r => match r with inl a => Q a | inr e => E (Errno e) end).
Proof.
  intros H w Hw. specialize (H w Hw). unfold io_try. destruct (m w) as [[a|[]] w']; done.
Qed.

Lemma io_try_errno {W A} E (m : io W A) (Q : A -> Prop) :
  io_spec E m Q -> (forall f, E f -> any_errno f) ->
  io_spec (fun _ => False) (io_try m) (fun r => match r with inl a => Q a | inr _ => True end).
Proof.
  intros H HE w. specialize (H w). unfold io_try.
  destruct (m w) as [[a|f] w']; [done|]. by destruct (HE f H) as [e ->].
Qed.

Lemma io_spec_E_mono {W A} (E E' : fail -> Prop) (m : io W A) Q :
  io_spec E m Q -> (forall f, E f -> E' f) -> io_spec E' m Q.
Proof. intros H HE w. specialize (H w). destruct (m w) as [[a|f] w']; auto. Qed.

Lemma io_spec_fail {W A} (E : fail -> Prop) f (Q : A -> Prop) : E f -> io_spec E (io_fail f : io W A) Q.
Proof. intros H w. exact H. Qed.

Lemma read_exact_spec {W} (src : BlobSource W) E content count off :
  SourceSpec E src content -> (forall f, E f -> any_errno f) -> 0 <= count -> 0 <= off ->
  io_spec (fun f => f = Errno EIO) (read_exact src count off)
    (fun bs => bs = slice content off count /\ off + count <= Z.max off (src_size src)).
Proof.
  intros Hs HE Hc Ho. eapply io_spec_bind.
  - eapply io_spec_E_mono; [by apply (io_try_errno E); [apply src_pread_ok|]|done].
  - intros [bs|e] Hbs; [|by apply io_spec_fail]. subst bs. rewrite zlen_slice.
    case_if; [|by apply io_spec_fail]. apply io_spec_ret. unfold avail in *.
    split; [f_equal; lia|lia].
Qed.

Lemma read_exact_safe {W} (src : BlobSource W) count off :
  SourceSafe src -> 0 <= count -> 0 <= off ->
  io_spec (fun f => f = Errno EIO) (read_exact src count off)
    (fun bs => zlen bs = count /\ Forall is_byte bs).
Proof.
  intros Hs Hc Ho. eapply io_spec_bind.
  - eapply io_spec_E_mono; [by eapply io_try_errno; [apply safe_pread|]|done].
  - intros [bs|e] Hbs; [|by apply io_spec_fail]. case_if; [|by apply io_spec_fail].
    apply io_spec_ret. tauto.
Qed.

#[export] Instance spec_safe {W} E (src : BlobSource W) content :
  SourceSpec E src content -> (forall f, E f -> any_errno f) -> SourceSafe src.
Proof.
  intros Hs HE. split; [apply src_size_ok|]. intros count off Hc Ho.
  eapply io_spec_E_mono; [|exact HE]. eapply io_spec_mono; [by apply src_pread_ok|].
  simpl. intros bs ->. split; [rewrite zlen_slice; unfold avail; lia|].
  apply Forall_fmap, Forall_true. intros i. apply src_content_byte.
Qed.

(** ** A source over bytes held in memory *)

Definition mem_source {W} (b : bytes) : BlobSource W :=
  Src (zlen b) (fun count off => mret (sub off count b)).

#[export] Instance mem_source_spec {W} E (b : bytes) :
  Forall is_byte b -> zlen b < 2 ^ 64 -> SourceSpec E (@mem_source W b) (bget b).
Proof.
  intros Hb Hl. split; simpl.
  - pose proof (zlen_nonneg b). lia.
  - intros i. by apply Forall_byte_bget.
  - intros count off Hc Ho. apply io_spec_ret. unfold avail. pose proof (zlen_nonneg b).
    destruct (decide (off + count <= zlen b)).
    + rewrite sub_slice by lia. f_equal. lia.
    + unfold sub. rewrite ztake_all by len. destruct (decide (off <= zlen b)).
      * replace (zdrop off b) with (sub off (zlen b - off) b) by (unfold sub; apply ztake_all; len).
        rewrite sub_slice by lia. f_equal. lia.
      * rewrite zdrop_all, slice_nil by lia. done.
Qed.

(** A source given by its content. *)
Definition fn_source {W} (size : Z) (f : Z -> Z) : BlobSource W :=
  Src size (fun count off => mret (slice f off (avail size count off))).

#[export] Instance fn_source_spec {W} E size f :
  0 <= size < 2 ^ 64 -> (forall i, is_byte (f i)) -> SourceSpec E (@fn_source W size f) f.
Proof. intros Hs Hf. split; [done|done|]. intros count off _ _. by apply io_spec_ret. Qed.
