(* ===== verification/File.v ===== *)
(** * Files and faults

    A regular file is its size and bytes.  Every operation on a file takes the
    next outcome from a script the environment chose: it completes, or it stops
    after some bytes with an errno.  A theorem for every script is a theorem for
    every pattern of I/O failures.  [elio::io]'s exact transfers and the POSIX
    calls are used through this interface. *)
From S2P Require Import Prelude Bytes Source.

Open Scope Z_scope.

Record file := File { f_size : Z; f_byte : Z -> Z }.

Definition empty_file : file := File 0 (fun _ => 0).

Definition file_write (f : file) (off : Z) (bs : bytes) : file :=
  File (if zlen bs =? 0 then f_size f else Z.max (f_size f) (off + zlen bs))
    (fun i => if (off <=? i) && (i <? off + zlen bs) then bget bs (i - off) else f_byte f i).

Definition file_read (f : file) (off n : Z) : bytes := slice (f_byte f) off (avail (f_size f) n off).

(** [ftruncate]: cutting, or extending with zeroes. *)
Definition file_truncate (f : file) (n : Z) : file :=
  File n (fun i => if i <? f_size f then f_byte f i else 0).

Inductive outcome := Done | Failed (transferred e : Z).

Definition script := list outcome.
Definition next_outcome (s : script) : outcome * script :=
  match s with [] => (Done, []) | o :: s => (o, s) end.

(** The prefix of a failed write that reached the file. *)
Definition partial (n : Z) (bs : bytes) : bytes := ztake n bs.

(** Errors of a script are errnos of the system, all positive. *)
Lemma f_byte_write_in f off bs i :
  off <= i < off + zlen bs -> f_byte (file_write f off bs) i = bget bs (i - off).
Proof.
  intros. simpl. by rewrite (proj2 (Z.leb_le _ _)), (proj2 (Z.ltb_lt _ _)) by lia.
Qed.
Lemma f_byte_write_out f off bs i :
  i < off \/ off + zlen bs <= i -> f_byte (file_write f off bs) i = f_byte f i.
Proof.
  intros. simpl. destruct (Z.leb_spec off i), (Z.ltb_spec i (off + zlen bs)); done || lia.
Qed.
Lemma f_size_write f off bs : f_size f <= f_size (file_write f off bs).
Proof. simpl. case_if; lia. Qed.
Lemma f_size_write_end f off bs :
  0 < zlen bs -> f_size (file_write f off bs) = Z.max (f_size f) (off + zlen bs).
Proof. intros. simpl. by rewrite (proj2 (Z.eqb_neq _ _)) by lia. Qed.

Lemma file_read_full f off n :
  0 <= off -> 0 <= n -> off + n <= f_size f -> file_read f off n = slice (f_byte f) off n.
Proof. intros. unfold file_read, avail. f_equal. lia. Qed.
Lemma file_write_nil f off : file_write f off [] = File (f_size f) (f_byte (file_write f off [])).
Proof. done. Qed.

(** ** Operations that fail only by a fault of the script *)

(** The script holds a failure with this errno. *)
Definition faults (s : script) (e : Z) : Prop := exists n, Failed n e ∈ s.

(** [attempt scr m w Q F]: from [w], [m] ends in a value and a world satisfying
    [Q], or fails with the errno of one of the script's faults in a world
    satisfying [F].  Without faults it succeeds. *)
Section Attempt.
Context {W : Type} (scr : W -> script).

Definition attempt {A} (m : io W A) (w : W) (Q : A -> W -> Prop) (F : W -> Prop) : Prop :=
  match m w with
  | (Ok a, w') => scr w' ⊆ scr w /\ Q a w'
  | (Err (Errno e), w') => faults (scr w) e /\ F w'
  | (Err _, _) => False
  end.

Lemma attempt_ret {A} (a : A) w (Q : A -> W -> Prop) F : Q a w -> attempt (mret a) w Q F.
Proof. intros H. by split. Qed.

Lemma attempt_lift {A} (r : res A) a w (Q : A -> W -> Prop) F :
  r = Ok a -> Q a w -> attempt (io_lift r) w Q F.
Proof. intros -> H. by split. Qed.

Lemma attempt_run {A} (f : W -> res A * W) a w w' (Q : A -> W -> Prop) F :
  f w = (Ok a, w') -> scr w' = scr w -> Q a w' -> attempt (io_run f) w Q F.
Proof. unfold attempt, io_run. intros -> -> H. by split. Qed.

Lemma attempt_bind {A B} (m : io W A) (k : A -> io W B) w (P : A -> W -> Prop) (Q : B -> W -> Prop) F :
  attempt m w P F -> (forall a w', P a w' -> attempt (k a) w' Q F) -> attempt (m ≫= k) w Q F.
Proof.
  unfold attempt, mbind, io_bind. intros Hm Hk. destruct (m w) as [[a|f] w1]; [|done].
  destruct Hm as [Hs HP]. specialize (Hk a w1 HP). destruct (k a w1) as [[b|[e| |]] w2]; try done.
  - destruct Hk as [Hs' HQ]. split; [by etrans|done].
  - destruct Hk as [[n Hn] HF]. split; [|done]. exists n. by apply Hs.
Qed.

Lemma attempt_lift_bind {A B} (r : res A) a (k : A -> io W B) w (Q : B -> W -> Prop) F :
  r = Ok a -> attempt (k a) w Q F -> attempt (io_lift r ≫= k) w Q F.
Proof. by intros ->. Qed.

Lemma attempt_ret_bind {A B} (a : A) (k : A -> io W B) w (Q : B -> W -> Prop) F :
  attempt (k a) w Q F -> attempt (mret a ≫= k) w Q F.
Proof. done. Qed.

(** An operation that looks at the world first. *)
Lemma attempt_here {A} (m : W -> io W A) w (Q : A -> W -> Prop) F :
  attempt (m w) w Q F -> attempt (fun w => m w w) w Q F.
Proof. done. Qed.

Lemma attempt_as {A} (m m' : io W A) w (Q : A -> W -> Prop) F :
  m w = m' w -> attempt m' w Q F -> attempt m w Q F.
Proof. unfold attempt. by intros ->. Qed.

Lemma attempt_mono {A} (m : io W A) w (P Q : A -> W -> Prop) (F G : W -> Prop) :
  attempt m w P F -> (forall a w', P a w' -> Q a w') -> (forall w', F w' -> G w') -> attempt m w Q G.
Proof.
  unfold attempt. intros Hm HQ HG. destruct (m w) as [[a|[e| |]] w']; try done;
    destruct Hm; split; auto.
Qed.

Lemma attempt_succeeds {A} (m : io W A) w (Q : A -> W -> Prop) F :
  attempt m w Q F -> scr w = [] -> exists a w', m w = (Ok a, w') /\ Q a w'.
Proof.
  unfold attempt. intros Hm Hs. destruct (m w) as [[a|[e| |]] w']; try done.
  - destruct Hm as [_ HQ]. eauto.
  - destruct Hm as [[n Hn] _]. rewrite Hs in Hn. by apply not_elem_of_nil in Hn.
Qed.

(** What an attempt says of any result. *)
Lemma attempt_result {A} (m : io W A) w (Q : A -> W -> Prop) F :
  attempt m w Q F ->
  match m w with (Ok a, w') => Q a w' | (Err f, w') => any_errno f /\ F w' end.
Proof.
  unfold attempt. destruct (m w) as [[a|[e| |]] w']; intros H; try done; destruct H; eauto with errno.
Qed.
End Attempt.

(** Taking an outcome uses up the script. *)
Lemma next_outcome_spec s :
  let '(o, s') := next_outcome s in
  s' ⊆ s /\ forall n e, o = Failed n e -> faults s e.
Proof.
  destruct s as [|o s]; simpl; [by split|]. split; [by apply list_subseteq_cons|].
  intros n e ->. exists n. apply list_elem_of_here.
Qed.
