(* ===== verification/Segments.v ===== *)
(** * Segment lists as partial maps from sectors to storage

    The meaning of a vector of [segment_mapping]: for each sector, the first
    entry that covers it.  Indexes that answer every lookup alike are
    equivalent; the merge, the incremental rebuild and the journal insertions
    are all specified up to that equivalence.  The file also holds the binary
    search that the index lookups share. *)
From S2P Require Import Prelude Bytes.

Open Scope Z_scope.

(** ** [std::upper_bound] with the predicate [value < element] *)

Section upper_bound.
Context {A : Type} (p : A -> bool).

(** The loop of the library routine: [len] elements remain from [first]. *)
Fixpoint upper_bound_loop (fuel : nat) (l : list A) (first len : nat) : nat :=
  match fuel with
  | O => first
  | S fuel =>
      if (len =? 0)%nat then first
      else let half := (len / 2)%nat in
           let middle := (first + half)%nat in
           match l !! middle with
           | Some x => if p x then upper_bound_loop fuel l first half
                       else upper_bound_loop fuel l (S middle) (len - half - 1)
           | None => first
           end
  end.
Definition upper_bound (l : list A) : nat := upper_bound_loop (S (length l)) l 0 (length l).

(** The elements that satisfy [p] form a suffix. *)
Definition partitioned (l : list A) : Prop :=
  forall i j x y, (i <= j)%nat -> l !! i = Some x -> l !! j = Some y -> p x = true -> p y = true.

Lemma upper_bound_loop_spec fuel l first len :
  partitioned l -> (first + len <= length l)%nat -> (len < fuel)%nat ->
  (forall i x, (i < first)%nat -> l !! i = Some x -> p x = false) ->
  (forall i x, (first + len <= i)%nat -> l !! i = Some x -> p x = true) ->
  let k := upper_bound_loop fuel l first len in
  (first <= k <= first + len)%nat /\
  (forall i x, (i < k)%nat -> l !! i = Some x -> p x = false) /\
  (forall i x, (k <= i)%nat -> l !! i = Some x -> p x = true).
Proof.
  intros Hp. revert first len. induction fuel as [|fuel IH]; intros first len Hl Hf Hlo Hhi; [lia|].
  cbn [upper_bound_loop]. cbv zeta. destruct (Nat.eqb_spec len 0) as [->|Hn].
  { split; [lia|]. split; [done|]. intros i x Hi. apply Hhi. lia. }
  assert (len / 2 < len)%nat as Hh by (apply Nat.div_lt; lia).
  set (half := (len / 2)%nat) in *.
  destruct (lookup_lt_is_Some_2 l (first + half)) as [x Hx]; [lia|]. rewrite Hx.
  destruct (p x) eqn:Hpx.
  - destruct (IH first half) as (H1 & H2 & H3); [lia..|done| |].
    + intros i y Hi Hy. eapply Hp; [exact Hi|exact Hx|exact Hy|done].
    + split; [lia|done].
  - destruct (IH (S (first + half)) (len - half - 1)%nat) as (H1 & H2 & H3); [lia..| | |].
    + intros i y Hi Hy. destruct (p y) eqn:Hpy; [|done].
      rewrite (Hp i (first + half)%nat y x) in Hpx; [done|lia|done..].
    + intros i y Hi Hy. eapply Hhi; [|done]. lia.
    + split; [lia|done].
Qed.

(** On a partitioned range the search cuts it at the boundary. *)
Lemma upper_bound_spec l :
  partitioned l ->
  Forall (fun x => p x = false) (take (upper_bound l) l) /\
  Forall (fun x => p x = true) (drop (upper_bound l) l).
Proof.
  intros Hp. destruct (upper_bound_loop_spec (S (length l)) l 0 (length l)) as (_ & H2 & H3);
    [done|lia|lia|lia| |].
  { intros i x Hi Hx%lookup_lt_Some. lia. }
  fold (upper_bound l) in H2, H3. split; apply Forall_lookup_2.
  - intros i x [Hx Hi]%lookup_take_Some. eauto.
  - intros i x Hx. rewrite lookup_drop in Hx. eapply H3; [|exact Hx]. lia.
Qed.

Lemma upper_bound_le l : partitioned l -> (upper_bound l <= length l)%nat.
Proof.
  intros Hp. apply (upper_bound_loop_spec (S (length l)) l 0 (length l)); try done; try lia.
  intros i x Hi Hx%lookup_lt_Some. lia.
Qed.

Lemma upper_bound_unique l k :
  partitioned l -> (k <= length l)%nat ->
  Forall (fun x => p x = false) (take k l) -> Forall (fun x => p x = true) (drop k l) ->
  upper_bound l = k.
Proof.
  intros Hp Hk H0 H1. destruct (upper_bound_spec l Hp) as [G0 G1].
  pose proof (upper_bound_le l Hp) as Hu.
  rewrite !Forall_lookup in *.
  destruct (lt_eq_lt_dec (upper_bound l) k) as [[Hlt| ->]|Hlt]; [|done|].
  - destruct (lookup_lt_is_Some_2 l (upper_bound l)) as [x Hx]; [lia|].
    specialize (H0 (upper_bound l) x). specialize (G1 0%nat x).
    rewrite lookup_drop, Nat.add_0_r in G1. rewrite lookup_take_lt in H0 by done.
    rewrite H0 in G1 by done. by specialize (G1 Hx).
  - destruct (lookup_lt_is_Some_2 l k) as [x Hx]; [lia|].
    specialize (G0 k x). specialize (H1 0%nat x).
    rewrite lookup_drop, Nat.add_0_r in H1. rewrite lookup_take_lt in G0 by done.
    rewrite G0 in H1 by done. by specialize (H1 Hx).
Qed.
End upper_bound.

(** ** What a segment list says of a sector *)

Inductive cell := Hole | Zero | Data (tag phys : Z).

#[export] Instance cell_eq_dec : EqDecision cell.
Proof. solve_decision. Defined.

Definition fin (s : segment_mapping) : Z := s_offset s + s_length s.
Definition covers (s : segment_mapping) (x : Z) : bool := (s_offset s <=? x) && (x <? fin s).
Definition seg_cell (s : segment_mapping) (x : Z) : cell :=
  if s_zeroed s then Zero else Data (s_tag s) (s_moffset s + (x - s_offset s)).

Fixpoint resolve (l : list segment_mapping) (x : Z) : cell :=
  match l with
  | [] => Hole
  | s :: l => if covers s x then seg_cell s x else resolve l x
  end.

Definition over (c d : cell) : cell := match c with Hole => d | _ => c end.

(** Indexes that agree on every sector. *)
Definition seg_equiv (l k : list segment_mapping) : Prop := forall x, resolve l x = resolve k x.
Infix "≡ₛ" := seg_equiv (at level 70).

#[export] Instance seg_equiv_equivalence : Equivalence seg_equiv.
Proof.
  split; red; unfold seg_equiv; [done|by intros ?? H x|].
  intros ??? H1 H2 x. by rewrite H1.
Qed.
#[export] Instance resolve_proper : Proper (seg_equiv ==> eq ==> eq) resolve.
Proof. intros l k H x ? <-. apply H. Qed.

Lemma over_assoc a b c : over (over a b) c = over a (over b c).
Proof. by destruct a. Qed.
Lemma over_hole_r c : over c Hole = c.
Proof. by destruct c. Qed.

Lemma resolve_app l k x : resolve (l ++ k) x = over (resolve l x) (resolve k x).
Proof.
  induction l as [|s l IH]; simpl; [done|]. destruct (covers s x); [|done].
  unfold seg_cell. by destruct (s_zeroed s).
Qed.
#[export] Instance app_seg_proper : Proper (seg_equiv ==> seg_equiv ==> seg_equiv) (@app segment_mapping).
Proof. intros l l' Hl k k' Hk x. by rewrite !resolve_app, Hl, Hk. Qed.

(** ** Well-formed indexes: bounded entries, increasing and disjoint *)

(** Every entry an opened index or a merge holds: the logical range and the
    mapped byte range both fit their machine words. *)
Definition seg_ok (s : segment_mapping) : Prop :=
  0 <= s_offset s <= kMaxOffset /\ 0 < s_length s <= kMaxLength /\
  0 <= s_moffset s < 2 ^ 56 /\ 0 <= s_tag s < 256 /\
  (s_zeroed s = false -> s_moffset s + s_length s <= 2 ^ 55).

Fixpoint sorted_from (lo : Z) (l : list segment_mapping) : Prop :=
  match l with
  | [] => True
  | s :: l => lo <= s_offset s /\ sorted_from (fin s) l
  end.

Definition index_ok (lo : Z) (l : list segment_mapping) : Prop :=
  Forall seg_ok l /\ sorted_from lo l.

(** Where the list ends, [lo] if it is empty. *)
Fixpoint end_from (lo : Z) (l : list segment_mapping) : Z :=
  match l with [] => lo | s :: l => end_from (fin s) l end.

Lemma seg_ok_end s : seg_ok s -> seg_end s = fin s.
Proof.
  intros (H1 & H2 & _). unfold seg_end, fin, kMaxOffset, kMaxLength in *. apply u64_small. lia.
Qed.
Lemma seg_ok_mend s : seg_ok s -> s_zeroed s = false -> seg_mend s = s_moffset s + s_length s.
Proof.
  intros (_ & H2 & H3 & _ & H4) Hz. unfold seg_mend. rewrite Hz. specialize (H4 Hz).
  apply u64_small. lia.
Qed.

Lemma covers_true s x : covers s x = true <-> s_offset s <= x < fin s.
Proof. unfold covers. rewrite andb_true_iff, Z.leb_le, Z.ltb_lt. done. Qed.
Lemma covers_false s x : covers s x = false <-> ~ (s_offset s <= x < fin s).
Proof. rewrite <- covers_true. by destruct (covers s x). Qed.

Lemma index_ok_nil lo : index_ok lo [].
Proof. repeat constructor. Qed.
Lemma index_ok_cons lo s l :
  index_ok lo (s :: l) <-> seg_ok s /\ lo <= s_offset s /\ index_ok (fin s) l.
Proof. unfold index_ok. rewrite Forall_cons. simpl. tauto. Qed.

Lemma index_ok_mono lo lo' l : lo' <= lo -> index_ok lo l -> index_ok lo' l.
Proof.
  destruct l as [|s l]; [intros; apply index_ok_nil|].
  rewrite !index_ok_cons. intros Hl (? & ? & ?). split; [done|split; [lia|done]].
Qed.

Lemma index_ok_app lo l k :
  index_ok lo (l ++ k) <-> index_ok lo l /\ index_ok (end_from lo l) k.
Proof.
  revert lo. induction l as [|s l IH]; intros lo; simpl.
  - split; [intros; split; [apply index_ok_nil|done]|tauto].
  - rewrite !index_ok_cons, IH. tauto.
Qed.

Lemma index_ok_end_ge lo l : index_ok lo l -> lo <= end_from lo l.
Proof.
  revert lo. induction l as [|s l IH]; intros lo; simpl; [done|].
  rewrite index_ok_cons. intros (Hs & Hlo & H%IH).
  destruct Hs as (_ & ? & _). unfold fin in *. lia.
Qed.

Lemma end_from_snoc lo l s : end_from lo (l ++ [s]) = fin s.
Proof. revert lo. induction l; intros lo; simpl; auto. Qed.
Lemma end_from_app lo l k : end_from lo (l ++ k) = end_from (end_from lo l) k.
Proof. revert lo. induction l; intros lo; simpl; auto. Qed.

Lemma resolve_below lo l x : index_ok lo l -> x < lo -> resolve l x = Hole.
Proof.
  revert lo. induction l as [|s l IH]; intros lo; simpl; [done|].
  rewrite index_ok_cons. intros (Hs & Hlo & Hl) Hx.
  rewrite (proj2 (covers_false s x)) by (unfold fin; lia). eapply IH; [done|].
  destruct Hs as (_ & ? & _). unfold fin. lia.
Qed.

Lemma resolve_above lo l x : index_ok lo l -> end_from lo l <= x -> resolve l x = Hole.
Proof.
  revert lo. induction l as [|s l IH]; intros lo; simpl; [done|].
  rewrite index_ok_cons. intros (Hs & Hlo & Hl) Hx.
  pose proof (index_ok_end_ge _ _ Hl).
  rewrite (proj2 (covers_false s x)) by lia. eapply IH; done.
Qed.

(** In a well-formed index the covering entry is unique. *)
Lemma resolve_cons_ge lo s l x :
  index_ok lo (s :: l) -> fin s <= x -> resolve (s :: l) x = resolve l x.
Proof. intros _ Hx. simpl. by rewrite (proj2 (covers_false s x)) by lia. Qed.

Lemma sorted_ends_partitioned lo x l :
  index_ok lo l -> partitioned (fun s => x <? seg_end s) l.
Proof.
  revert lo. induction l as [|s l IH]; intros lo; [by intros _ i j a b ? ?|].
  rewrite index_ok_cons. intros (Hs & Hlo & Hl) [|i] j a b Hij Ha Hb Hp.
  - simpl in Ha. injection Ha as ->. destruct j as [|j]; [by injection Hb as ->|].
    assert (fin a <= s_offset b) as Hab.
    { clear -Hl Hb. simpl in Hb. revert Hl Hb. generalize (fin a) as z.
      revert j. induction l as [|c l IH]; intros j z; [done|]. rewrite index_ok_cons.
      intros (Hc & Hz & Hl) Hb. destruct j as [|j]; [by injection Hb as ->|].
      specialize (IH j (fin c) Hl Hb). destruct Hc as (_ & ? & _). unfold fin in *. lia. }
    assert (seg_ok b) as Hok by (eapply Forall_lookup_1; [apply Hl|exact Hb]).
    rewrite seg_ok_end in * by done. bool_hyps. apply Z.ltb_lt.
    destruct Hok as (_ & ? & _). unfold fin in *. lia.
  - destruct j as [|j]; [lia|]. eapply (IH _ Hl i j); eauto. lia.
Qed.

Lemma resolve_elem lo s l x :
  index_ok lo l -> s ∈ l -> s_offset s <= x < fin s -> resolve l x = seg_cell s x.
Proof.
  revert lo. induction l as [|s' l IH]; intros lo; [by intros _ ?%not_elem_of_nil|].
  rewrite index_ok_cons. intros (Hs' & Hlo & Hl) [-> |Hin]%elem_of_cons Hx; simpl.
  - by rewrite (proj2 (covers_true s' x)).
  - destruct (decide (x < fin s')); [|rewrite (proj2 (covers_false s' x)) by lia; eauto].
    pose proof (IH _ Hl Hin Hx) as Hr. rewrite (resolve_below _ l x Hl) in Hr by done.
    unfold seg_cell in Hr. by destruct (s_zeroed s).
Qed.
