(* ===== verification/Merge.v ===== *)
(** * The gap merge of layer indexes ([MergedLsmt::merge_range], [merge_indexes])

    The specification reads a sector from the first layer, top first, whose
    index covers it.  The merge is proved to compute exactly that map, as a
    sorted, disjoint, coalesced index with the tag of each entry the layer it
    came from. *)
From S2P Require Import Prelude Bytes LsmtFormat Segments.

Open Scope Z_scope.

Definition with_length (s : segment_mapping) (n : Z) : segment_mapping :=
  Seg (s_offset s) n (s_moffset s) (s_zeroed s) (s_tag s).
Definition with_tag (s : segment_mapping) (t : Z) : segment_mapping :=
  Seg (s_offset s) (s_length s) (s_moffset s) (s_zeroed s) t.

(** Clip head, then clip tail. *)
Definition clip (lo hi : Z) (s : segment_mapping) : segment_mapping :=
  let s := if s_offset s <? lo then
             let delta := u64 (lo - s_offset s) in
             Seg lo (u32 (s_length s - delta))
               (if s_zeroed s then s_moffset s else u64 (s_moffset s + delta))
               (s_zeroed s) (s_tag s)
           else s in
  if hi <? seg_end s then with_length s (u32 (hi - s_offset s)) else s.

(** Appends [s], or extends the previous entry of this merge's output with it. *)
Definition merge_push (output_begin : nat) (out : list segment_mapping)
    (s : segment_mapping) : list segment_mapping :=
  if (output_begin <? length out)%nat then
    match last out with
    | Some previous =>
        if (seg_end previous =? s_offset s) && (s_tag previous =? s_tag s) &&
           eqb (s_zeroed previous) (s_zeroed s) &&
           (s_zeroed s || (seg_mend previous =? s_moffset s)) &&
           (s_length s <=? u32 (kMaxLength - s_length previous))
        then removelast out ++ [with_length previous (u32 (s_length previous + s_length s))]
        else out ++ [s]
    | None => out ++ [s]
    end
  else out ++ [s].

(** The loop over one level's segments from [it] on, and the tail after it;
    [below] is the recursive call into the lower levels. *)
Section merge_loop.
Context (below : Z -> Z -> list segment_mapping -> list segment_mapping).
Context (level hi : Z) (output_begin : nat).

Definition merge_finish (lo : Z) (out : list segment_mapping) : list segment_mapping :=
  if lo <? hi then below lo hi out else out.

Fixpoint merge_loop (it : list segment_mapping) (lo : Z) (out : list segment_mapping)
    : list segment_mapping :=
  match it with
  | [] => merge_finish lo out
  | s0 :: it' =>
      if s_offset s0 <? hi then
        let out := if lo <? s_offset s0 then below lo (s_offset s0) out else out in
        let s := clip lo hi s0 in
        if s_length s =? 0 then merge_loop it' lo out
        else
          let s := with_tag s (u8 level) in
          let out := merge_push output_begin out s in
          let lo := seg_end s in
          if hi <=? lo then merge_finish lo out else merge_loop it' lo out
      else merge_finish lo out
  end.
End merge_loop.

Fixpoint merge_range (layers : list (list segment_mapping)) (level lo hi : Z)
    (output_begin : nat) (out : list segment_mapping) {struct layers}
    : list segment_mapping :=
  match layers with
  | [] => out
  | segs :: lower =>
      if hi <=? lo then out
      else merge_loop
             (fun lo hi out => merge_range lower (level + 1) lo hi output_begin out)
             level hi output_begin
             (drop (upper_bound (fun s => lo <? seg_end s) segs) segs) lo out
  end.

Definition merge_indexes (layers : list (list segment_mapping)) (out : list segment_mapping)
    : res (list segment_mapping) :=
  let out := merge_range layers 0 0 kMaxOffset (length out) out in
  if kMaxRoIndexSize <? zlen out then format_error else Ok out.

(** ** Specification: the topmost covering layer *)

Definition retag (level : Z) (c : cell) : cell :=
  match c with Data _ p => Data level p | c => c end.

Fixpoint stack_resolve (level : Z) (layers : list (list segment_mapping)) (x : Z) : cell :=
  match layers with
  | [] => Hole
  | segs :: lower => over (retag level (resolve segs x)) (stack_resolve (level + 1) lower x)
  end.

Definition within (lo hi x : Z) (c : cell) : cell :=
  if (lo <=? x) && (x <? hi) then c else Hole.

(** [acc'] extends the well-formed [acc] by the map [f] and ends by [hi]. *)
Definition extends (z : Z) (acc : list segment_mapping) (f : Z -> cell) (hi : Z)
    (acc' : list segment_mapping) : Prop :=
  index_ok z acc' /\ end_from z acc' <= hi /\
  forall x, resolve acc' x = over (resolve acc x) (f x).

(** ** One entry *)

Lemma clip_ok lo hi s :
  seg_ok s -> 0 <= lo < hi -> hi <= kMaxOffset -> lo < fin s -> s_offset s < hi ->
  let c := clip lo hi s in
  seg_ok c /\ s_tag c = s_tag s /\ s_offset c = Z.max lo (s_offset s) /\
  fin c = Z.min hi (fin s) /\
  forall x, resolve [c] x = within lo hi x (resolve [s] x).
Proof.
  intros Hok Hlo Hhi Hf Ho. pose proof Hok as (H1 & H2 & H3 & H4 & H5).
  unfold fin, kMaxOffset, kMaxLength in *.
  assert (forall c, s_zeroed c = s_zeroed s -> s_tag c = s_tag s ->
    s_offset c = Z.max lo (s_offset s) -> fin c = Z.min hi (fin s) ->
    (if s_zeroed s then s_moffset c = s_moffset s
     else s_moffset c - s_offset c = s_moffset s - s_offset s) ->
    seg_ok c /\ s_tag c = s_tag s /\ s_offset c = Z.max lo (s_offset s) /\
    fin c = Z.min hi (fin s) /\
    forall x, resolve [c] x = within lo hi x (resolve [s] x)) as Hgen.
  { unfold fin. intros c Hz Ht Hc Hfc Hm. split; [|split; [done|split; [done|split; [done|]]]].
    - unfold seg_ok, kMaxOffset, kMaxLength. rewrite Hz, Ht. destruct (s_zeroed s); [|specialize (H5 eq_refl)];
        repeat split; try lia; done.
    - intros x. unfold within, resolve, covers, seg_cell, fin. rewrite Hz, Ht.
      destruct (s_zeroed s); repeat case_if; try lia; done || (f_equal; lia). }
  unfold clip. destruct (Z.ltb_spec (s_offset s) lo).
  - rewrite (u64_small (lo - s_offset s)) by lia.
    rewrite (u32_small (s_length s - _)) by lia.
    unfold seg_end. simpl. rewrite u64_small by lia.
    destruct (Z.ltb_spec hi (lo + (s_length s - (lo - s_offset s)))); apply Hgen; unfold fin; simpl;
      rewrite ?u32_small by lia; try lia; try done;
      destruct (s_zeroed s); rewrite ?u64_small by (try lia; specialize (H5 eq_refl); lia); lia.
  - rewrite seg_ok_end by done. unfold fin.
    destruct (Z.ltb_spec hi (s_offset s + s_length s)); apply Hgen; unfold fin; simpl;
      rewrite ?u32_small by lia; try lia; try done; destruct (s_zeroed s); lia.
Qed.

Lemma resolve_retag level s x : resolve [with_tag s level] x = retag level (resolve [s] x).
Proof.
  unfold resolve, covers, seg_cell, fin. simpl. destruct (_ && _); [|done].
  by destruct (s_zeroed s).
Qed.
Lemma seg_ok_retag s t : seg_ok s -> 0 <= t < 256 -> seg_ok (with_tag s t).
Proof. unfold seg_ok. simpl. tauto. Qed.

(** ** Appending with coalescing *)

(** Two entries the merge may fuse mean the same as one. *)
Lemma fuse_ok p s :
  seg_ok p -> seg_ok s -> fin p = s_offset s -> s_tag p = s_tag s ->
  s_zeroed p = s_zeroed s ->
  (s_zeroed s = false -> s_moffset p + s_length p = s_moffset s) ->
  s_length s <= kMaxLength - s_length p ->
  let f := with_length p (s_length p + s_length s) in
  seg_ok f /\ fin f = fin s /\ forall x, resolve [f] x = resolve [p; s] x.
Proof.
  intros (P1 & P2 & P3 & P4 & P5) (S1 & S2 & S3 & S4 & S5) He Ht Hz Hm Hl.
  unfold fin in *. split; [|split; [simpl; lia|]].
  - unfold seg_ok. simpl. repeat split; try lia. intros Hp.
    rewrite Hz in Hp. specialize (S5 Hp). specialize (Hm Hp). lia.
  - intros x. unfold resolve, covers, seg_cell, fin. simpl. rewrite Ht, Hz.
    destruct (s_zeroed s); [repeat case_if; done || lia|].
    specialize (Hm eq_refl). repeat case_if; try lia; try done. f_equal. lia.
Qed.

Lemma merge_push_spec pre acc z s :
  index_ok z acc -> seg_ok s -> end_from z acc <= s_offset s -> z <= s_offset s ->
  exists acc', merge_push (length pre) (pre ++ acc) s = pre ++ acc' /\
    extends z acc (resolve [s]) (fin s) acc' /\ end_from z acc' = fin s.
Proof.
  intros Hacc Hs He Hz.
  assert (exists acc', pre ++ acc ++ [s] = pre ++ acc' /\
    extends z acc (resolve [s]) (fin s) acc' /\ end_from z acc' = fin s) as Happ.
  { exists (acc ++ [s]). split; [done|]. split; [|apply end_from_snoc].
    split; [|split; [rewrite end_from_snoc; lia|apply resolve_app with (k := [s])]].
    apply index_ok_app. split; [done|]. apply index_ok_cons. eauto using index_ok_nil. }
  unfold merge_push. destruct (Nat.ltb_spec (length pre) (length (pre ++ acc))) as [Hl|];
    [|by rewrite <- app_assoc].
  destruct acc as [|p acc _] using rev_ind; [rewrite length_app in Hl; simpl in Hl; lia|].
  rewrite app_assoc, last_snoc. case_if; [|by rewrite <- !app_assoc in *].
  rewrite removelast_last. apply index_ok_app in Hacc as [Hacc Hp].
  apply index_ok_cons in Hp as (Hp & Hpz & _). rewrite end_from_snoc in *.
  rewrite seg_ok_end in * by done. apply eqb_prop in H2.
  assert (s_zeroed s = false -> s_moffset p + s_length p = s_moffset s) as Hm.
  { intros Hzs. rewrite Hzs in *. simpl in *. rewrite seg_ok_mend in * by (done || congruence).
    by bool_hyps. }
  pose proof Hp as (_ & Hpl & _). pose proof Hs as (_ & Hsl & _). unfold kMaxLength in *.
  rewrite u32_small in * by lia.
  destruct (fuse_ok p s) as (Hf & Hff & Hfr); try done.
  eexists (acc ++ [_]). split; [by rewrite <- app_assoc|].
  split; [|by rewrite end_from_snoc]. split; [|split; [rewrite end_from_snoc; lia|]].
  - apply index_ok_app. split; [done|]. apply index_ok_cons. eauto using index_ok_nil.
  - intros x. rewrite !resolve_app, Hfr, over_assoc. f_equal. by rewrite <- resolve_app.
Qed.

(** ** The merge *)

Lemma within_true lo hi x c : lo <= x < hi -> within lo hi x c = c.
Proof. intros. unfold within. by rewrite (proj2 (Z.leb_le _ _)), (proj2 (Z.ltb_lt _ _)) by lia. Qed.
Lemma within_false lo hi x c : ~ lo <= x < hi -> within lo hi x c = Hole.
Proof. intros. unfold within. destruct (Z.leb_spec lo x), (Z.ltb_spec x hi); done || lia. Qed.

(** Adjacent extensions compose. *)
Lemma extends_trans z acc f g hi hi' acc' acc'' :
  extends z acc f hi acc' -> extends z acc' g hi' acc'' ->
  extends z acc (fun x => over (f x) (g x)) hi' acc''.
Proof.
  intros (_ & _ & H1) (H2 & H3 & H4). split; [done|split; [done|]].
  intros x. by rewrite H4, H1, over_assoc.
Qed.
Lemma extends_ext z acc f g hi acc' :
  (forall x, f x = g x) -> extends z acc f hi acc' -> extends z acc g hi acc'.
Proof. intros H (H1 & H2 & H3). split; [done|split; [done|]]. intros x. by rewrite H3, H. Qed.
Lemma extends_nil z acc f hi :
  index_ok z acc -> end_from z acc <= hi -> (forall x, f x = Hole) -> extends z acc f hi acc.
Proof.
  intros H1 H2 H3. split; [done|split; [done|]]. intros x. by rewrite H3, over_hole_r.
Qed.

Definition merge_spec (layers : list (list segment_mapping)) (level : Z) : Prop :=
  forall lo hi pre acc z,
    0 <= lo -> hi <= kMaxOffset -> z <= lo -> index_ok z acc -> end_from z acc <= lo ->
    exists acc', merge_range layers level lo hi (length pre) (pre ++ acc) = pre ++ acc' /\
      extends z acc (fun x => within lo hi x (stack_resolve level layers x)) (Z.max lo hi) acc'.

Lemma merge_spec_nil level : merge_spec [] level.
Proof.
  intros lo hi pre acc z Hlo Hhi Hz Hacc He. exists acc. split; [done|].
  apply extends_nil; [done|lia|]. intros x. unfold within; simpl. by case_if.
Qed.

Section merge_loop_spec.
Context (lower : list (list segment_mapping)) (level : Z).
Context (Hlevel : 0 <= level < 256) (IH : merge_spec lower (level + 1)).

Let below (pre : list segment_mapping) lo hi out :=
  merge_range lower (level + 1) lo hi (length pre) out.
Let low x := stack_resolve (level + 1) lower x.

Lemma merge_finish_spec hi lo pre acc z :
  0 <= lo -> hi <= kMaxOffset -> z <= lo -> index_ok z acc -> end_from z acc <= lo ->
  exists acc', merge_finish (below pre) hi lo (pre ++ acc) = pre ++ acc' /\
    extends z acc (fun x => within lo hi x (low x)) (Z.max lo hi) acc'.
Proof.
  intros. unfold merge_finish. destruct (Z.ltb_spec lo hi).
  - by apply IH.
  - exists acc. split; [done|]. apply extends_nil; [done|lia|].
    intros x. apply within_false. lia.
Qed.

(** The remaining segments end above [lo]. *)
Definition rest_ok (lo : Z) (it : list segment_mapping) : Prop :=
  match it with [] => True | s :: it' => seg_ok s /\ lo < fin s /\ index_ok (fin s) it' end.

Lemma rest_ok_index lo it : index_ok lo it -> rest_ok lo it.
Proof.
  destruct it as [|s it]; [done|]. rewrite index_ok_cons. intros (Hs & Ho & Hit).
  split; [done|]. split; [|done]. destruct Hs as (_ & ? & _). unfold fin. lia.
Qed.

(** Gap, segment and rest together are the level over the lower levels. *)
Lemma merge_pointwise lo hi s0 it x :
  lo < hi -> s_offset s0 < hi -> lo < fin s0 -> seg_ok s0 -> index_ok (fin s0) it ->
  over (over (within lo (s_offset s0) x (low x))
          (within lo hi x (retag level (resolve [s0] x))))
    (within (Z.min hi (fin s0)) hi x (over (retag level (resolve it x)) (low x))) =
  within lo hi x (over (retag level (resolve (s0 :: it) x)) (low x)).
Proof.
  intros Hlo Ho Hf (_ & Hl & _) Hit. unfold fin in *.
  destruct (decide (lo <= x < hi)) as [Hx|Hx]; [|by rewrite !within_false by lia].
  rewrite !(within_true lo hi) by done. simpl.
  destruct (decide (x < s_offset s0)); [|destruct (decide (x < fin s0))]; unfold fin in *.
  - rewrite (proj2 (covers_false s0 x)) by (unfold fin; lia).
    rewrite within_true, (within_false (Z.min _ _)) by lia.
    rewrite (resolve_below _ it x Hit) by lia. simpl. by rewrite !over_hole_r.
  - rewrite (proj2 (covers_true s0 x)) by (unfold fin; lia).
    rewrite !within_false by lia. unfold seg_cell. by destruct (s_zeroed s0).
  - rewrite (proj2 (covers_false s0 x)) by (unfold fin; lia).
    by rewrite within_false, within_true by lia.
Qed.

Lemma merge_loop_spec hi pre it lo acc z :
  0 <= lo < hi -> hi <= kMaxOffset -> z <= lo -> rest_ok lo it ->
  index_ok z acc -> end_from z acc <= lo ->
  exists acc', merge_loop (below pre) level hi (length pre) it lo (pre ++ acc) = pre ++ acc' /\
    extends z acc (fun x => within lo hi x (over (retag level (resolve it x)) (low x)))
      (Z.max lo hi) acc'.
Proof.
  revert lo acc. induction it as [|s0 it IHit]; intros lo acc Hlo Hhi Hz Hit Hacc He.
  { simpl. apply merge_finish_spec; done || lia. }
  destruct Hit as (Hs0 & Hf0 & Hit). simpl merge_loop. destruct (Z.ltb_spec (s_offset s0) hi) as [Ho|Ho].
  2: { destruct (merge_finish_spec hi lo pre acc z) as (acc' & -> & H'); [done || lia..|].
    exists acc'. split; [done|]. eapply extends_ext; [|exact H']. intros x. simpl.
    unfold within. case_if; [|done].
    change (if covers s0 x then _ else _) with (resolve (s0 :: it) x).
    rewrite (resolve_below (s_offset s0)); [done| |lia].
    apply index_ok_cons. split; [done|split; [lia|done]]. }
  (* the gap before the segment *)
  assert (exists acc1,
    (if lo <? s_offset s0 then below pre lo (s_offset s0) (pre ++ acc) else pre ++ acc) =
      pre ++ acc1 /\
    extends z acc (fun x => within lo (s_offset s0) x (low x)) (Z.max lo (s_offset s0)) acc1)
    as (acc1 & -> & Hgap).
  { destruct (Z.ltb_spec lo (s_offset s0)); [apply IH; done || lia|].
    exists acc. split; [done|]. apply extends_nil; [done|lia|].
    intros x. apply within_false. lia. }
  pose proof Hgap as (Hok1 & He1 & _).
  (* the clipped segment *)
  destruct (clip_ok lo hi s0) as (Hc & _ & Hco & Hcf & Hcr); [done || lia..|].
  set (c := clip lo hi s0) in *. pose proof Hc as (_ & Hcl & _).
  rewrite (proj2 (Z.eqb_neq (s_length c) 0)) by lia.
  rewrite (u8_small level) by lia. set (t := with_tag c level).
  assert (seg_ok t) as Ht by (by apply seg_ok_retag).
  rewrite seg_ok_end by done. change (fin t) with (fin c).
  destruct (merge_push_spec pre acc1 z t) as (acc2 & -> & Hpush & He2);
    [done|done|simpl; lia|simpl; lia|].
  change (fin t) with (fin c) in *.
  pose proof (extends_trans _ _ _ _ _ _ _ _ Hgap Hpush) as H12. pose proof H12 as (Hok2 & _).
  assert (forall x, resolve [t] x = within lo hi x (retag level (resolve [s0] x))) as Htr.
  { intros x. unfold t. rewrite resolve_retag, Hcr. unfold within. by case_if. }
  (* the rest *)
  assert (exists acc', (if hi <=? fin c then merge_finish (below pre) hi (fin c) (pre ++ acc2)
      else merge_loop (below pre) level hi (length pre) it (fin c) (pre ++ acc2)) = pre ++ acc' /\
    extends z acc2 (fun x => within (fin c) hi x (over (retag level (resolve it x)) (low x)))
      (Z.max lo hi) acc') as (acc' & -> & Hrest).
  { destruct (Z.leb_spec hi (fin c)).
    - exists acc2. unfold merge_finish. rewrite (proj2 (Z.ltb_ge _ _)) by lia. split; [done|].
      apply extends_nil; [done|lia|]. intros x. apply within_false. lia.
    - replace (Z.max lo hi) with (Z.max (fin c) hi) by lia.
      apply IHit; try done; try lia. apply rest_ok_index.
      by replace (fin c) with (fin s0) by lia. }
  exists acc'. split; [done|].
  eapply extends_ext; [|eapply extends_trans; [exact H12|exact Hrest]].
  intros x. cbv beta. rewrite Htr, Hcf. apply merge_pointwise; lia || done.
Qed.
End merge_loop_spec.

Lemma drop_upper_bound lo z l :
  index_ok z l ->
  rest_ok lo (drop (upper_bound (fun s => lo <? seg_end s) l) l) /\
  forall x, lo <= x -> resolve (drop (upper_bound (fun s => lo <? seg_end s) l) l) x = resolve l x.
Proof.
  intros Hl. set (p := fun s => lo <? seg_end s).
  destruct (upper_bound_spec p l) as [Ht Hd]; [by eapply sorted_ends_partitioned|].
  set (k := upper_bound p l) in *. pose proof Hl as Hok.
  rewrite <- (take_drop k l) in Hok. apply index_ok_app in Hok as [Hok1 Hok2]. split.
  - destruct (drop k l) as [|s it]; [done|]. apply index_ok_cons in Hok2 as (Hs & _ & Hit).
    apply Forall_cons in Hd as [Hp _]. unfold p in Hp. rewrite seg_ok_end in Hp by done.
    bool_hyps. by split.
  - intros x Hx. rewrite <- (take_drop k l) at 2. rewrite resolve_app.
    replace (resolve (take k l) x) with Hole; [done|].
    clear Hok2 Hd. revert Hok1 Ht. generalize (take k l) as t. clear Hl. intros t [Hok _] Ht.
    induction t as [|s t IHt]; simpl; [done|].
    apply Forall_cons in Hok as [Hs Hok]. apply Forall_cons in Ht as [Hp Ht].
    unfold p in Hp. rewrite seg_ok_end in Hp by done. bool_hyps.
    rewrite (proj2 (covers_false s x)) by lia. auto.
Qed.

(** The merge of any range computes the stack's map on it, appended to what the
    output already holds. *)
Lemma merge_range_spec layers level :
  Forall (index_ok 0) layers -> 0 <= level -> level + zlen layers <= 256 ->
  merge_spec layers level.
Proof.
  intros Hl. revert level. induction Hl as [|segs lower Hsegs Hl IH]; intros level Hlv Hlen.
  - apply merge_spec_nil.
  - rewrite zlen_cons in Hlen. pose proof (zlen_nonneg lower).
    intros lo hi pre acc z Hlo Hhi Hz Hacc He. simpl merge_range.
    destruct (Z.leb_spec hi lo).
    + exists acc. split; [done|]. apply extends_nil; [done|lia|]. intros x. apply within_false. lia.
    + destruct (drop_upper_bound lo 0 segs Hsegs) as [Hrest Hres].
      destruct (merge_loop_spec lower level ltac:(lia) (IH (level + 1) ltac:(lia) ltac:(lia))
                  hi pre _ lo acc z ltac:(lia) Hhi Hz Hrest Hacc He) as (acc' & Heq & Hext).
      exists acc'. split; [exact Heq|]. eapply extends_ext; [|exact Hext].
      intros x. unfold within. simpl. case_if; [|done]. by rewrite Hres by (bool_hyps; lia).
Qed.

Lemma merge_indexes_spec layers out :
  Forall (index_ok 0) layers -> zlen layers <= 256 ->
  merge_indexes layers [] = Ok out ->
  index_ok 0 out /\ zlen out <= kMaxRoIndexSize /\
  forall x, resolve out x = within 0 kMaxOffset x (stack_resolve 0 layers x).
Proof.
  intros Hl Hn. unfold merge_indexes.
  destruct (merge_range_spec layers 0 Hl ltac:(lia) ltac:(lia) 0 kMaxOffset [] [] 0)
    as (out' & Heq & Hok & _ & Hr); [unfold kMaxOffset; simpl; lia || apply index_ok_nil..|].
  cbn [length app] in Heq |- *. rewrite Heq. case_if; [done|]. intros [= <-].
  split; [done|]. split; [done|]. intros x. apply Hr.
Qed.

Lemma stack_resolve_level level layers x t p :
  stack_resolve level layers x = Data t p -> level <= t < level + zlen layers.
Proof.
  revert level. induction layers as [|l layers IH]; intros level; simpl; [done|].
  rewrite zlen_cons. pose proof (zlen_nonneg layers).
  destruct (resolve l x); simpl; [intros H'%IH; lia|done|intros [= -> ->]; lia].
Qed.

(** Data entries of a merged index name a layer of the stack. *)
Lemma merge_indexes_tags layers out s :
  Forall (index_ok 0) layers -> zlen layers <= 256 -> merge_indexes layers [] = Ok out ->
  s ∈ out -> s_zeroed s = false -> s_tag s < zlen layers.
Proof.
  intros Hl Hn Ho Hin Hz. destruct (merge_indexes_spec layers out Hl Hn Ho) as (Hok & _ & Hr).
  assert (seg_ok s) as (_ & ? & _) by (destruct Hok as [Hf _]; rewrite Forall_forall in Hf; auto).
  pose proof (resolve_elem 0 s out (s_offset s) Hok Hin) as Hs. rewrite Hr in Hs.
  unfold within, seg_cell in Hs. rewrite Hz in Hs.
  case_if_in Hs; [|by specialize (Hs ltac:(unfold fin; lia))].
  apply (stack_resolve_level 0 layers (s_offset s) _ (s_moffset s + (s_offset s - s_offset s))).
  apply Hs. unfold fin. lia.
Qed.

(** C2. Merging the indexes of a stack of up to 256 well-formed layers, top
    first, either reports that the result exceeds the index size limit or
    yields a sorted, disjoint index that sends every sector to the topmost
    layer covering it, tagged with that layer's position. *)
Theorem merge_indexes_correct layers :
  Forall (index_ok 0) layers -> zlen layers <= 256 ->
  match merge_indexes layers [] with
  | Ok out =>
      index_ok 0 out /\ zlen out <= kMaxRoIndexSize /\
      forall x, 0 <= x < kMaxOffset -> resolve out x = stack_resolve 0 layers x
  | Err f =>
      f = Errno EINVAL /\ kMaxRoIndexSize < zlen (merge_range layers 0 0 kMaxOffset 0 [])
  end.
Proof.
  intros Hl Hn. destruct (merge_indexes layers []) as [out|f] eqn:E.
  - destruct (merge_indexes_spec layers out Hl Hn E) as (H1 & H2 & H3).
    split; [done|]. split; [done|]. intros x Hx. rewrite H3. by apply within_true.
  - unfold merge_indexes in E. case_if_in E; [|done]. unfold format_error in E. by simplify_eq.
Qed.

Lemma seg_ok_dec_example :
  Forall (index_ok 0) [[Seg 2 4 8 false 0]; [Seg 0 3 8 false 0; Seg 3 5 11 true 0]].
Proof.
  repeat constructor; simpl; unfold kMaxOffset, kMaxLength, fin; simpl; lia || congruence.
Qed.

Lemma merge_indexes_correct_witness :
  let layers := [[Seg 2 4 8 false 0]; [Seg 0 3 8 false 0; Seg 3 5 11 true 0]] in
  match merge_indexes layers [] with
  | Ok out =>
      index_ok 0 out /\ zlen out <= kMaxRoIndexSize /\
      forall x, 0 <= x < kMaxOffset -> resolve out x = stack_resolve 0 layers x
  | Err f =>
      f = Errno EINVAL /\ kMaxRoIndexSize < zlen (merge_range layers 0 0 kMaxOffset 0 [])
  end.
Proof. apply merge_indexes_correct; [apply seg_ok_dec_example|vm_compute; congruence]. Defined.

(** The merge needs every mapping to be non-empty: a zero-length mapping in
    the upper layer makes it emit the gap before that mapping twice, so the
    merged index is neither sorted nor disjoint. *)
Theorem merge_zero_length_overlaps :
  exists out,
    merge_indexes [[Seg 10 0 8 false 0]; [Seg 0 5 8 false 0; Seg 5 15 13 false 0]] [] = Ok out /\
    out = [Seg 0 10 8 false 1; Seg 0 20 8 false 1] /\
    ~ sorted_from 0 out.
Proof.
  eexists. split; [vm_compute; reflexivity|]. split; [done|].
  unfold sorted_from, fin; simpl. lia.
Qed.
