(* ===== verification/Trim.v ===== *)
(** * Replacing a sector range of an index

    The split-and-trim loop that [LsmtRwLayer::pwrite], [discard] and
    [Replay::append] all run before they insert new mappings: entries outside
    the range are kept, an entry across a border keeps its head or tail.  The
    file proves what remains, and that inserting the new entry in order gives
    the index that maps the range to it and everything else as before. *)
From S2P Require Import Prelude Bytes LsmtFormat Segments Merge.

Open Scope Z_scope.

Definition trim_head (lo : Z) (s : segment_mapping) : segment_mapping :=
  with_length s (u32 (lo - s_offset s)).
Definition trim_tail (hi : Z) (s : segment_mapping) : segment_mapping :=
  Seg hi (u32 (seg_end s - hi))
    (if s_zeroed s then s_moffset s else u64 (s_moffset s + (hi - s_offset s)))
    (s_zeroed s) (s_tag s).

(** What one entry leaves outside [lo, hi). *)
Definition trim (lo hi : Z) (s : segment_mapping) : list segment_mapping :=
  (if s_offset s <? lo then [trim_head lo s] else []) ++
  (if hi <? seg_end s then [trim_tail hi s] else []).

Definition cut_one (lo hi : Z) (s : segment_mapping) : list segment_mapping :=
  if (seg_end s <=? lo) || (hi <=? s_offset s) then [s] else trim lo hi s.

Fixpoint cut (lo hi : Z) (l : list segment_mapping) : list segment_mapping :=
  match l with [] => [] | s :: l => cut_one lo hi s ++ cut lo hi l end.

(** Ordered insertion that keeps an entry with the same start: the [emplace] of
    a map keyed by the start. *)
Fixpoint emplace (l : list segment_mapping) (m : segment_mapping) : list segment_mapping :=
  match l with
  | [] => [m]
  | s :: l' => if s_offset m <? s_offset s then m :: l
               else if s_offset m =? s_offset s then l
               else s :: emplace l' m
  end.

(** [std::sort] by offset. *)
Fixpoint insert_by_offset (m : segment_mapping) (l : list segment_mapping) : list segment_mapping :=
  match l with
  | [] => [m]
  | a :: l' => if s_offset m <=? s_offset a then m :: l else a :: insert_by_offset m l'
  end.
Definition sort_by_offset (l : list segment_mapping) : list segment_mapping := foldr insert_by_offset [] l.

(** ** One entry *)

Lemma trim_head_ok lo s :
  seg_ok s -> s_offset s < lo < fin s ->
  seg_ok (trim_head lo s) /\ fin (trim_head lo s) = lo /\ s_offset (trim_head lo s) = s_offset s /\
  forall x, x < lo -> resolve [trim_head lo s] x = resolve [s] x.
Proof.
  intros (H1 & H2 & H3 & H4 & H5) Hlo. unfold trim_head, fin, kMaxLength, kMaxOffset in *.
  rewrite u32_small by lia. split; [|split; [simpl; lia|split; [done|]]].
  - unfold seg_ok, kMaxOffset, kMaxLength. simpl. repeat split; try lia.
    intros Hz. specialize (H5 Hz). lia.
  - intros x Hx. unfold resolve, covers, seg_cell, fin. simpl. repeat case_if; done || lia.
Qed.

Lemma trim_tail_ok hi s :
  seg_ok s -> s_offset s < hi < fin s -> hi <= kMaxOffset ->
  seg_ok (trim_tail hi s) /\ fin (trim_tail hi s) = fin s /\ s_offset (trim_tail hi s) = hi /\
  forall x, hi <= x -> resolve [trim_tail hi s] x = resolve [s] x.
Proof.
  intros Hok Hhi Hm. pose proof Hok as (H1 & H2 & H3 & H4 & H5).
  unfold trim_tail. rewrite seg_ok_end by done.
  unfold fin, kMaxLength, kMaxOffset in *. rewrite u32_small by lia.
  assert (s_zeroed s = false -> u64 (s_moffset s + (hi - s_offset s)) = s_moffset s + (hi - s_offset s)) as Hu.
  { intros Hz. specialize (H5 Hz). apply u64_small. lia. }
  split; [|split; [simpl; lia|split; [done|]]].
  - unfold seg_ok, kMaxOffset, kMaxLength. simpl. destruct (s_zeroed s); [repeat split; lia || done|].
    rewrite Hu by done. specialize (H5 eq_refl). repeat split; lia.
  - intros x Hx. unfold resolve, covers, seg_cell, fin. simpl. destruct (s_zeroed s).
    + repeat case_if; done || lia.
    + rewrite Hu by done. repeat case_if; try done; try lia. f_equal. lia.
Qed.

(** ** The whole index *)

(** [cut] is a part below [lo] and a part from [hi] on, each meaning what the
    index meant there. *)
Lemma cut_split lo hi z l :
  index_ok z l -> lo < hi -> hi <= kMaxOffset ->
  exists L R, cut lo hi l = L ++ R /\ index_ok z L /\ end_from z L <= Z.max z lo /\
    index_ok (Z.max z hi) R /\
    (forall x, x < lo -> resolve L x = resolve l x) /\
    (forall x, hi <= x -> resolve R x = resolve l x).
Proof.
  intros Hl Hlo Hhi. revert z Hl. induction l as [|s l IH]; intros z Hl.
  { exists [], []. split; [done|]. split; [apply index_ok_nil|]. split; [simpl; lia|].
    split; [apply index_ok_nil|done]. }
  apply index_ok_cons in Hl as (Hs & Hz & Hl). pose proof Hs as (_ & Hlen & _).
  destruct (IH _ Hl) as (L & R & Hc & HL & HeL & HR & HrL & HrR). clear IH.
  simpl cut. rewrite Hc. unfold cut_one. rewrite seg_ok_end by done.
  destruct (Z.leb_spec (fin s) lo) as [Hbelow|Hbelow]; simpl orb.
  { (* entirely below *)
    exists (s :: L), R. split; [done|]. split; [by apply index_ok_cons|].
    split; [simpl; unfold fin in *; lia|].
    split; [eapply index_ok_mono; [|exact HR]; unfold fin; lia|]. split; intros x Hx; simpl.
    - destruct (covers s x); auto.
    - rewrite (proj2 (covers_false s x)) by lia. auto. }
  destruct (Z.leb_spec hi (s_offset s)) as [Habove|Habove].
  { (* entirely above: so is everything after it *)
    assert (L = []) as ->.
    { destruct L as [|s' L]; [done|]. apply index_ok_cons in HL as (? & ? & HL').
      pose proof (index_ok_end_ge _ _ HL') as Hge. simpl in HeL.
      destruct H as (_ & ? & _). unfold fin in *. lia. }
    exists [], (s :: R). split; [done|]. split; [apply index_ok_nil|]. split; [simpl; lia|].
    split; [apply index_ok_cons; split; [done|]; split; [lia|]; rewrite Z.max_l in HR by (unfold fin; lia); done|].
    split; intros x Hx; simpl.
    - rewrite (proj2 (covers_false s x)) by lia. symmetry. eapply resolve_below; [exact Hl|]. unfold fin; lia.
    - destruct (covers s x); auto. }
  (* across the range *)
  unfold trim. rewrite seg_ok_end by done.
  assert (L = []) as ->.
  { destruct L as [|s' L]; [done|]. apply index_ok_cons in HL as (Hs' & ? & HL').
    pose proof (index_ok_end_ge _ _ HL') as Hge. simpl in HeL.
    destruct Hs' as (_ & ? & _). unfold fin in *. lia. }
  set (H := if s_offset s <? lo then [trim_head lo s] else []).
  set (T := if hi <? fin s then [trim_tail hi s] else []).
  assert (index_ok z H /\ end_from z H <= Z.max z lo /\ forall x, x < lo -> resolve H x = resolve [s] x)
    as (HH1 & HH2 & HH3).
  { unfold H. destruct (Z.ltb_spec (s_offset s) lo).
    - destruct (trim_head_ok lo s) as (? & He & Ho & ?); [done|lia|].
      split; [apply index_ok_cons; rewrite Ho; auto using index_ok_nil|].
      split; [simpl; lia|done].
    - split; [apply index_ok_nil|]. split; [simpl; lia|]. intros x Hx. simpl.
      by rewrite (proj2 (covers_false s x)) by lia. }
  assert (index_ok (Z.max z hi) (T ++ R) /\ forall x, hi <= x -> resolve (T ++ R) x = resolve (s :: l) x)
    as [HT1 HT2].
  { unfold T. destruct (Z.ltb_spec hi (fin s)).
    - destruct (trim_tail_ok hi s) as (? & He & Ho & Hr); [done|lia|lia|]. split.
      + apply index_ok_cons. rewrite Ho, He. split; [done|]. split; [lia|].
        by rewrite Z.max_l in HR by lia.
      + intros x Hx. rewrite resolve_app, Hr, HrR by done.
        change (s :: l) with ([s] ++ l). by rewrite resolve_app.
    - split; [simpl; eapply index_ok_mono; [|exact HR]; unfold fin; lia|]. intros x Hx. simpl.
      rewrite (proj2 (covers_false s x)) by lia. auto. }
  exists H, (T ++ R). split; [simpl; by rewrite app_assoc|]. split; [done|]. split; [done|]. split; [done|].
  split; [|done]. intros x Hx. rewrite HH3 by done.
  change (s :: l) with ([s] ++ l). rewrite resolve_app, <- HrL by done. simpl. by rewrite over_hole_r.
Qed.

(** ** Inserting where the range was *)

Lemma emplace_between z L m R :
  index_ok z L -> end_from z L <= s_offset m -> index_ok (fin m) R -> seg_ok m ->
  emplace (L ++ R) m = L ++ m :: R.
Proof.
  intros HL He HR Hm. revert z HL He. induction L as [|s L IH]; intros z HL He; simpl.
  - destruct R as [|r R]; [done|]. apply index_ok_cons in HR as (_ & Hr & _).
    destruct Hm as (_ & ? & _). unfold fin in *. simpl.
    by rewrite (proj2 (Z.ltb_lt _ _)) by lia.
  - apply index_ok_cons in HL as (Hs & _ & HL). simpl in He.
    pose proof (index_ok_end_ge _ _ HL). destruct Hs as (_ & ? & _). unfold fin in *.
    rewrite (proj2 (Z.ltb_ge _ _)), (proj2 (Z.eqb_neq _ _)) by lia. by rewrite (IH _ HL He).
Qed.

(** [l'] maps [m]'s range to [m] and everything else as [l] does. *)
Definition replaces (l : list segment_mapping) (m : segment_mapping) (l' : list segment_mapping) : Prop :=
  forall x, resolve l' x = over (resolve [m] x) (resolve l x).

Lemma cut_insert z l m :
  index_ok z l -> z <= s_offset m -> seg_ok m -> fin m <= kMaxOffset ->
  exists L R, cut (s_offset m) (fin m) l = L ++ R /\
    index_ok z L /\ end_from z L <= s_offset m /\ index_ok (fin m) R /\
    index_ok z (L ++ m :: R) /\ replaces l m (L ++ m :: R).
Proof.
  intros Hl Hz Hm Hf. pose proof Hm as (_ & Hlen & _).
  destruct (cut_split (s_offset m) (fin m) z l) as (L & R & Hc & HL & HeL & HR & HrL & HrR);
    [done|unfold fin; lia|done|].
  rewrite Z.max_r in HeL by done. rewrite Z.max_r in HR by (unfold fin; lia).
  exists L, R. split; [done|]. split; [done|]. split; [done|]. split; [done|]. split.
  - apply index_ok_app. split; [done|]. apply index_ok_cons. split; [done|]. by split.
  - intros x. rewrite resolve_app. change (m :: R) with ([m] ++ R). rewrite resolve_app.
    destruct (decide (x < s_offset m)) as [H1|H1]; [|destruct (decide (x < fin m)) as [H2|H2]].
    + rewrite HrL by done. rewrite (resolve_below _ R x HR) by (unfold fin; lia). simpl.
      rewrite (proj2 (covers_false m x)) by lia. simpl. by rewrite over_hole_r.
    + rewrite (resolve_above _ L x HL) by lia. simpl.
      rewrite (proj2 (covers_true m x)) by lia. unfold seg_cell. by destruct (s_zeroed m).
    + rewrite (resolve_above _ L x HL) by lia. simpl.
      rewrite (proj2 (covers_false m x)) by lia. simpl. apply HrR. lia.
Qed.

(** Cutting the range out and inserting the entry replaces it. *)
Lemma emplace_cut z l m :
  index_ok z l -> z <= s_offset m -> seg_ok m -> fin m <= kMaxOffset ->
  let l' := emplace (cut (s_offset m) (fin m) l) m in index_ok z l' /\ replaces l m l'.
Proof.
  intros Hl Hz Hm Hf. destruct (cut_insert z l m Hl Hz Hm Hf) as (L & R & -> & HL & He & HR & Hok & Hr).
  cbv zeta. by rewrite (emplace_between z).
Qed.

(** ** Insertion with coalescing ([insert_sorted] of [lsmt_rw.cpp]) *)

Definition can_join (a b : segment_mapping) : bool :=
  (seg_end a =? s_offset b) && (seg_mend a =? s_moffset b) &&
  negb (s_zeroed a) && negb (s_zeroed b) && (u32 (s_length a + s_length b) <=? kMaxLength).
Definition join (a b : segment_mapping) : segment_mapping :=
  with_length a (u32 (s_length a + s_length b)).

Fixpoint take_below (off : Z) (v : list segment_mapping) : list segment_mapping :=
  match v with
  | s :: v => if s_offset s <? off then s :: take_below off v else []
  | [] => []
  end.

Definition insert_sorted (v : list segment_mapping) (m : segment_mapping) : list segment_mapping :=
  let before := take_below (s_offset m) v in
  let after := drop (length before) v in
  let '(before, it) :=
    match last before with
    | Some prev => if can_join prev m then (removelast before, join prev m) else (before, m)
    | None => (before, m)
    end in
  match after with
  | next :: rest => if can_join it next then before ++ join it next :: rest
                    else before ++ it :: after
  | [] => before ++ [it]
  end.

Definition untagged (s : segment_mapping) : Prop := s_tag s = 0.

Lemma take_below_split z L m R :
  index_ok z L -> end_from z L <= s_offset m -> index_ok (fin m) R -> seg_ok m ->
  take_below (s_offset m) (L ++ R) = L.
Proof.
  intros HL He HR Hm. revert z HL He. induction L as [|s L IH]; intros z HL He; simpl.
  - destruct R as [|r R]; [done|]. apply index_ok_cons in HR as (_ & Hr & _).
    destruct Hm as (_ & ? & _). unfold fin in *. simpl.
    by rewrite (proj2 (Z.ltb_ge _ _)) by lia.
  - apply index_ok_cons in HL as (Hs & _ & HL). simpl in He.
    pose proof (index_ok_end_ge _ _ HL). destruct Hs as (_ & ? & _). unfold fin in *.
    rewrite (proj2 (Z.ltb_lt _ _)) by lia. f_equal. eauto.
Qed.

Lemma can_join_ok a b :
  seg_ok a -> seg_ok b -> untagged a -> untagged b -> can_join a b = true ->
  seg_ok (join a b) /\ untagged (join a b) /\ s_offset (join a b) = s_offset a /\ fin a = s_offset b /\
  fin (join a b) = fin b /\ s_zeroed (join a b) = false /\
  (forall x, resolve [join a b] x = resolve [a; b] x).
Proof.
  intros Ha Hb Hta Htb Hj. unfold can_join in Hj. bool_hyps.
  pose proof Ha as (_ & Hla & _). pose proof Hb as (_ & Hlb & _).
  rewrite seg_ok_end, seg_ok_mend in * by done. unfold join, kMaxLength in *.
  rewrite u32_small in * by lia. unfold untagged in *.
  destruct (fuse_ok a b) as (H' & Hf & Hr); try done; try congruence.
  { unfold kMaxLength. lia. }
Qed.

(** Joining neighbours changes neither the order nor the meaning. *)
Lemma join_neighbours z pre a b post :
  index_ok z (pre ++ a :: b :: post) -> untagged a -> untagged b -> can_join a b = true ->
  index_ok z (pre ++ join a b :: post) /\ untagged (join a b) /\
  pre ++ join a b :: post ≡ₛ pre ++ a :: b :: post.
Proof.
  intros Hok Ha Hb Hj. apply index_ok_app in Hok as [Hp Hab].
  apply index_ok_cons in Hab as (Hsa & Hea & Hab). apply index_ok_cons in Hab as (Hsb & Heb & Hpost).
  destruct (can_join_ok a b Hsa Hsb Ha Hb Hj) as (Hs & Ht & Ho & _ & Hf & _ & Hr).
  split; [|split; [done|]].
  - apply index_ok_app. split; [done|]. apply index_ok_cons. rewrite Ho, Hf. by split.
  - change (join a b :: post) with ([join a b] ++ post).
    change (a :: b :: post) with ([a; b] ++ post).
    assert ([join a b] ≡ₛ [a; b]) as -> by exact Hr. done.
Qed.

(** Inserting into the gap left for [m] gives the list with [m] in place, up to
    coalescing. *)
Definition inserts (ins : list segment_mapping -> segment_mapping -> list segment_mapping) : Prop :=
  forall z L m R, index_ok z (L ++ m :: R) -> Forall untagged (L ++ m :: R) ->
  let v := ins (L ++ R) m in
  index_ok z v /\ Forall untagged v /\ v ≡ₛ L ++ m :: R.

Lemma insert_sorted_spec : inserts insert_sorted.
Proof.
  intros z L m R Hok Ht. pose proof Hok as Hok'. apply index_ok_app in Hok' as [HL HmR].
  apply index_ok_cons in HmR as (Hm & He & HR). apply Forall_app in Ht as [HtL HtR].
  apply Forall_cons in HtR as [Htm HtR]. unfold insert_sorted.
  rewrite (take_below_split z), drop_app_length by done.
  assert (forall pre it post, index_ok z (pre ++ it :: post) -> Forall untagged (pre ++ it :: post) ->
    pre ++ it :: post ≡ₛ L ++ m :: R ->
    let v := match post with
             | next :: rest => if can_join it next then pre ++ join it next :: rest else pre ++ it :: post
             | [] => pre ++ [it]
             end in index_ok z v /\ Forall untagged v /\ v ≡ₛ L ++ m :: R) as Hnext.
  { intros pre it [|next rest] H1 H2 H3; [done|]. cbv zeta. destruct (can_join it next) eqn:Hj; [|done].
    apply Forall_app in H2 as [Hp Hit]. apply Forall_cons in Hit as [Hit Hn]. apply Forall_cons in Hn as [Hn Hrest].
    destruct (join_neighbours z pre it next rest) as (G1 & G2 & G3); try done.
    split; [done|]. split; [|by rewrite G3]. apply Forall_app. split; [done|]. by apply Forall_cons. }
  destruct (last L) as [p|] eqn:Hlast; [|apply Hnext; try done; apply Forall_app; split; [done|by apply Forall_cons]].
  apply last_Some in Hlast as [L' ->]. apply Forall_app in HtL as [HtL Htp]. apply Forall_cons in Htp as [Htp _].
  destruct (can_join p m) eqn:Hj.
  - rewrite removelast_last. rewrite <- app_assoc in Hok. simpl in Hok.
    destruct (join_neighbours z L' p m R Hok Htp Htm Hj) as (G1 & G2 & G3).
    apply Hnext; [done| |rewrite G3, <- app_assoc; done].
    apply Forall_app. split; [done|]. by apply Forall_cons.
  - apply Hnext; [done| |done]. apply Forall_app. split; [by apply Forall_app; split; [|apply Forall_singleton]|].
    by apply Forall_cons.
Qed.

(** ** Bounds from the meaning *)

Lemma index_end_bound lo l e :
  index_ok lo l -> lo <= e -> (forall x, e <= x -> resolve l x = Hole) -> end_from lo l <= e.
Proof.
  intros Hl He Hx. destruct l as [|s l _] using rev_ind; [done|]. rewrite end_from_snoc.
  destruct (decide (fin s <= e)); [done|].
  assert (s ∈ l ++ [s]) as Hin by (apply elem_of_app; right; apply list_elem_of_here).
  assert (seg_ok s) as (_ & ? & _) by (destruct Hl as [Hl _]; rewrite Forall_forall in Hl; auto).
  pose proof (resolve_elem _ _ _ (fin s - 1) Hl Hin ltac:(unfold fin in *; lia)) as Hr.
  rewrite Hx in Hr by lia. unfold seg_cell in Hr. by destruct (s_zeroed s).
Qed.

Lemma index_ok_raise lo lo' l :
  index_ok lo l -> Forall (fun s => lo' <= s_offset s) l -> index_ok lo' l.
Proof.
  destruct l as [|s l]; [intros; apply index_ok_nil|]. rewrite !index_ok_cons.
  intros (? & ? & ?) [? _]%Forall_cons. done.
Qed.

(** ** Inserting into free space *)

Lemma resolve_covered s l x : covers s x = true -> resolve (s :: l) x <> Hole.
Proof. simpl. intros ->. unfold seg_cell. by destruct (s_zeroed s). Qed.

(** An index splits at a range it does not cover. *)
Lemma gap_split z v a b :
  index_ok z v -> a < b -> (forall x, a <= x < b -> resolve v x = Hole) ->
  exists L R, v = L ++ R /\ index_ok z L /\ end_from z L <= Z.max z a /\ index_ok b R.
Proof.
  intros Hv Hab. revert z Hv. induction v as [|s v IH]; intros z Hv Hx.
  { exists [], []. split; [done|]. split; [apply index_ok_nil|]. split; [simpl; lia|apply index_ok_nil]. }
  pose proof Hv as Hv'. apply index_ok_cons in Hv' as (Hs & Hz & Hl). pose proof Hs as (_ & Hlen & _).
  destruct (decide (fin s <= a)) as [Hf|Hf].
  - destruct (IH _ Hl) as (L & R & -> & HL & He & HR).
    { intros x Hxr. specialize (Hx x Hxr). simpl in Hx. by rewrite (proj2 (covers_false s x)) in Hx by lia. }
    exists (s :: L), R. split; [done|]. split; [by apply index_ok_cons|]. split; [simpl; unfold fin in *; lia|done].
  - assert (b <= s_offset s) as Hb.
    { destruct (decide (b <= s_offset s)); [done|]. exfalso.
      apply (resolve_covered s v (Z.max a (s_offset s))); [apply covers_true; unfold fin in *; lia|].
      apply Hx. unfold fin in *. lia. }
    exists [], (s :: v). split; [done|]. split; [apply index_ok_nil|]. split; [simpl; lia|].
    apply index_ok_cons. by split.
Qed.

Lemma insert_free_with ins z v m :
  inserts ins -> index_ok z v -> Forall untagged v -> seg_ok m -> untagged m -> z <= s_offset m ->
  (forall x, s_offset m <= x < fin m -> resolve v x = Hole) ->
  let v' := ins v m in
  index_ok z v' /\ Forall untagged v' /\ replaces v m v'.
Proof.
  intros Hins Hv Ht Hm Htm Hz Hx. pose proof Hm as (_ & Hlen & _).
  destruct (gap_split z v (s_offset m) (fin m)) as (L & R & -> & HL & He & HR);
    [done|unfold fin; lia|done|]. rewrite Z.max_r in He by done.
  apply Forall_app in Ht as [HtL HtR].
  assert (index_ok z (L ++ m :: R)) as Hok.
  { apply index_ok_app. split; [done|]. apply index_ok_cons. by split. }
  destruct (Hins z L m R) as (H1 & H2 & H3); [done| |].
  { apply Forall_app. split; [done|]. by apply Forall_cons. }
  split; [done|]. split; [done|]. intros x. rewrite H3, resolve_app. change (m :: R) with ([m] ++ R).
  rewrite !resolve_app. destruct (covers m x) eqn:Hc.
  - apply covers_true in Hc. rewrite (resolve_above _ L x HL) by lia. done.
  - simpl. by rewrite Hc.
Qed.

Lemma insert_free z v m :
  index_ok z v -> Forall untagged v -> seg_ok m -> untagged m -> z <= s_offset m ->
  (forall x, s_offset m <= x < fin m -> resolve v x = Hole) ->
  let v' := insert_sorted v m in
  index_ok z v' /\ Forall untagged v' /\ replaces v m v'.
Proof. apply insert_free_with, insert_sorted_spec. Qed.

(** What is left of an index after the range is cut out. *)
Lemma cut_resolve z l lo hi x :
  index_ok z l -> lo < hi -> hi <= kMaxOffset -> z <= lo ->
  resolve (cut lo hi l) x = if (lo <=? x) && (x <? hi) then Hole else resolve l x.
Proof.
  intros Hl Hlh Hm Hz. destruct (cut_split lo hi z l Hl Hlh Hm) as (L & R & -> & HL & He & HR & HrL & HrR).
  rewrite Z.max_r in He, HR by lia. rewrite resolve_app.
  destruct (Z.leb_spec lo x), (Z.ltb_spec x hi); simpl.
  - rewrite (resolve_above _ L x HL), (resolve_below _ R x HR) by lia. done.
  - rewrite (resolve_above _ L x HL), HrR by lia. done.
  - rewrite HrL, (resolve_below _ R x HR) by lia. apply over_hole_r.
  - lia.
Qed.
Lemma cut_index z l lo hi :
  index_ok z l -> lo < hi -> hi <= kMaxOffset -> z <= lo -> index_ok z (cut lo hi l).
Proof.
  intros Hl Hlh Hm Hz. destruct (cut_split lo hi z l Hl Hlh Hm) as (L & R & -> & HL & He & HR & _).
  rewrite Z.max_r in He, HR by lia. apply index_ok_app. split; [done|].
  eapply index_ok_mono; [|exact HR]. lia.
Qed.

(** Inserting a run of adjacent entries into free space. *)
Fixpoint run_of (cur hi : Z) (ms : list segment_mapping) : Prop :=
  match ms with
  | [] => cur = hi
  | m :: ms => s_offset m = cur /\ seg_ok m /\ untagged m /\ run_of (fin m) hi ms
  end.

Lemma run_of_le cur hi ms : run_of cur hi ms -> cur <= hi.
Proof.
  revert cur. induction ms as [|m ms IH]; intros cur; simpl; [lia|].
  intros (<- & (_ & Hl & _) & _ & Hr%IH). unfold fin in *. lia.
Qed.
Lemma run_of_below cur hi ms x : run_of cur hi ms -> x < cur -> resolve ms x = Hole.
Proof.
  revert cur. induction ms as [|m ms IH]; intros cur; simpl; [done|].
  intros (<- & (_ & Hl & _) & _ & Hr) Hx. rewrite (proj2 (covers_false m x)) by lia.
  apply (IH _ Hr). unfold fin. lia.
Qed.

Lemma insert_run z v cur hi ms :
  index_ok z v -> Forall untagged v -> z <= cur -> run_of cur hi ms ->
  (forall x, cur <= x < hi -> resolve v x = Hole) ->
  let v' := foldl insert_sorted v ms in
  index_ok z v' /\ Forall untagged v' /\ forall x, resolve v' x = over (resolve ms x) (resolve v x).
Proof.
  revert v cur. induction ms as [|m ms IH]; intros v cur Hv Ht Hz Hr Hx; [done|].
  destruct Hr as (<- & Hm & Htm & Hr). pose proof (run_of_le _ _ _ Hr) as Hle. pose proof Hm as (_ & Hlen & _).
  destruct (insert_free z v m) as (H1 & H2 & H3); try done.
  { intros x Hxr. apply Hx. lia. }
  cbv zeta. cbn [foldl].
  destruct (IH (insert_sorted v m) (fin m)) as (G1 & G2 & G3); try done.
  { unfold fin. lia. }
  { intros x Hxr. rewrite H3. simpl. rewrite (proj2 (covers_false m x)) by lia. apply Hx. unfold fin in *. lia. }
  split; [done|]. split; [done|]. intros x. rewrite G3, H3. change (m :: ms) with ([m] ++ ms).
  rewrite resolve_app. destruct (covers m x) eqn:Hc.
  - apply covers_true in Hc. rewrite (run_of_below _ _ _ x Hr) by lia. simpl.
    rewrite (proj2 (covers_true m x)) by done. unfold seg_cell. by destruct (s_zeroed m).
  - simpl. rewrite Hc. simpl. done.
Qed.

(** ** Properties of every entry *)

Lemma take_below_prefix off v : take_below off v = take (length (take_below off v)) v.
Proof. induction v as [|s v IH]; simpl; [done|]. case_if; simpl; [by f_equal|done]. Qed.

Lemma cut_Forall (P : segment_mapping -> Prop) lo hi l :
  (forall s, P s -> P (trim_head lo s)) -> (forall s, P s -> P (trim_tail hi s)) ->
  Forall P l -> Forall P (cut lo hi l).
Proof.
  intros Hh Ht. induction 1 as [|s l Hs Hl IH]; simpl; [constructor|]. apply Forall_app. split; [|done].
  unfold cut_one, trim. repeat case_if; simpl; repeat constructor; auto.
Qed.

Lemma insert_sorted_Forall (P : segment_mapping -> Prop) v m :
  (forall a b, can_join a b = true -> P a -> P b -> P (join a b)) ->
  Forall P v -> P m -> Forall P (insert_sorted v m).
Proof.
  intros Hj Hv Hm. unfold insert_sorted.
  assert (forall before it after, Forall P before -> P it -> Forall P after ->
    Forall P match after with
             | next :: rest => if can_join it next then before ++ join it next :: rest
                               else before ++ it :: after
             | [] => before ++ [it]
             end) as Hnext.
  { intros before it after Hb Hit Ha. destruct after as [|next rest]; [apply Forall_app; auto|].
    apply Forall_cons in Ha as [Hn Hr]. destruct (can_join it next) eqn:Hc; apply Forall_app; split; auto. }
  assert (Forall P (take_below (s_offset m) v)) as Hb by (rewrite take_below_prefix; by apply Forall_take).
  destruct (last (take_below (s_offset m) v)) as [prev|] eqn:Hl.
  - apply last_Some in Hl as [b Hb']. rewrite Hb' in *.
    apply Forall_app in Hb as [Hb1 Hb2]. apply Forall_cons in Hb2 as [Hb2 _].
    destruct (can_join prev m) eqn:Hc.
    + rewrite removelast_last. apply Hnext; [done|by apply Hj|by apply Forall_drop].
    + apply Hnext; [by apply Forall_app; split; [|apply Forall_singleton]|done|by apply Forall_drop].
  - apply Hnext; [done|done|by apply Forall_drop].
Qed.

(** A zeroed entry's placeholder is the first payload sector. *)
Definition zero_ok (s : segment_mapping) : Prop := s_zeroed s = true -> s_moffset s = kDataStartSector.

Lemma cut_zero lo hi l : Forall zero_ok l -> Forall zero_ok (cut lo hi l).
Proof.
  apply cut_Forall; [done|]. intros s Hs. unfold zero_ok, trim_tail in *. simpl.
  destruct (s_zeroed s); [auto|done].
Qed.
Lemma insert_sorted_zero v m : Forall zero_ok v -> zero_ok m -> Forall zero_ok (insert_sorted v m).
Proof.
  apply insert_sorted_Forall. intros a b Hc _ _ Hz. unfold can_join in Hc. bool_hyps.
  simpl in Hz. congruence.
Qed.
Lemma emplace_zero l m : zero_ok m -> Forall zero_ok l -> Forall zero_ok (emplace l m).
Proof.
  intros Hm. induction 1 as [|s l Hs Hl IH]; simpl; [by repeat constructor|].
  repeat case_if; repeat constructor; done.
Qed.
Lemma insert_all_zero v ms : Forall zero_ok v -> Forall zero_ok ms -> Forall zero_ok (foldl insert_sorted v ms).
Proof.
  intros Hv Hms. revert v Hv. induction Hms as [|m ms Hm Hms IH]; intros v Hv; [done|].
  simpl. by apply IH, insert_sorted_zero.
Qed.
