(* ===== verification/Lsmt.v ===== *)
(** * Read-only LSMT layers and the merged view ([format/lsmt.{hpp,cpp}])

    [WarpSource], the validation that opens one layer ([LsmtLayer::open_impl]),
    the assembly of a stack ([MergedLsmt::open]) with its lookup directory, and
    the sector-aligned read that dispatches each piece to the owning layer.
    The merged view is shown to discharge the source contract with the content
    the stack of layers defines. *)
From S2P Require Import Prelude Bytes LsmtFormat Source Segments Merge.

Open Scope Z_scope.

(** ** The two byte sources of a warp layer *)

Section Warp.
Context {W : Type} (metadata_ target_ : BlobSource W) (base_ : Z).

Definition warp_size : Z := u64 (base_ + src_size target_).

(** The copy loop; metadata, gap and target are visited at most once each. *)
Fixpoint warp_loop (fuel : nat) (out : bytes) (count offset done : Z) : io W bytes :=
  if done <? count then
    match fuel with
    | O => io_fail Fuel
    | S fuel =>
        let pos := u64 (offset + done) in
        if base_ <=? pos then
          r ← src_pread target_ (count - done) (pos - base_);
          out ← io_lift (mem_write out done r);
          if negb (zlen r =? count - done) then io_fail (Errno EIO)
          else warp_loop fuel out count offset count
        else if src_size metadata_ <=? pos then
          let n := Z.min (count - done) (base_ - pos) in
          out ← io_lift (mem_zero out done n);
          warp_loop fuel out count offset (done + n)
        else
          let n := Z.min (count - done) (src_size metadata_ - pos) in
          r ← src_pread metadata_ n pos;
          out ← io_lift (mem_write out done r);
          if negb (zlen r =? n) then io_fail (Errno EIO)
          else warp_loop fuel out count offset (done + n)
    end
  else mret out.

Definition warp_pread (count offset : Z) : io W bytes :=
  if warp_size <=? offset then mret []
  else
    let count := Z.min count (warp_size - offset) in
    warp_loop 3 (uninit count) count offset 0.

Definition WarpSource : BlobSource W := Src warp_size warp_pread.
End Warp.

(** ** Opening one layer *)

Record LsmtLayer (W : Type) := Layer {
  l_src : BlobSource W;
  l_ht : HeaderTrailer;
  l_segments : list segment_mapping;
}.
Arguments Layer {W} _ _ _.
Arguments l_src {W} _.
Arguments l_ht {W} _.
Arguments l_segments {W} _.

Definition virtual_size {W} (l : LsmtLayer W) : Z := ht_virtual_size (l_ht l).

Definition hybrid_allowed : Z :=
  Z.lor (Z.lor (Z.lor (Z.shiftl 1 kFlagShiftHeader) (Z.shiftl 1 kFlagShiftType))
           (Z.shiftl 1 kFlagShiftSealed)) (Z.shiftl 1 kFlagShiftHybridRw).
Definition hybrid_bad_flags (flags : Z) : bool :=
  negb (Z.land flags (Z.lxor (Z.ones 32) hybrid_allowed) =? 0).

(** The checks on the two records that precede the index load; the result is
    whether the layer is Hybrid. *)
Definition check_headers (has_target : bool) (file_size : Z) (hht tht : HeaderTrailer) : res bool :=
  let trailer_offset := file_size - kSpace in
  if negb (is_trailer tht) || negb (is_data_file tht) || negb (is_sealed tht)
  then format_error else
  let hybrid := get_flag_bit hht kFlagShiftHybridRw in
  if negb (eqb hybrid (get_flag_bit tht kFlagShiftHybridRw)) then format_error else
  if hybrid && (has_target || hybrid_bad_flags (ht_flags hht) || hybrid_bad_flags (ht_flags tht) ||
                negb (ht_version hht =? 1) || negb (ht_sub_version hht =? 1) ||
                negb (ht_version tht =? 1) || negb (ht_sub_version tht =? 1))
  then format_error else
  if kMaxRoIndexSize <? ht_index_size tht then format_error else
  let index_bytes := u64 (ht_index_size tht * kEncodedSize) in
  if (ht_index_offset tht <? kSpace) || (trailer_offset <? ht_index_offset tht) ||
     (u64 (trailer_offset - ht_index_offset tht) <? index_bytes)
  then format_error else Ok hybrid.

(** The decode loop: invalid entries are dropped and, without a warp target,
    the wire tag is cleared. *)
Definition load_index (has_target : bool) (raw : bytes) (index_size : Z) : list segment_mapping :=
  omap (fun i =>
    let s := load_segment_le raw (i * kEncodedSize) in
    if s_offset s =? kInvalidOffset then None
    else Some (if has_target then s else with_tag s 0)) (seqZ 0 index_size).

Fixpoint ordered (l : list segment_mapping) : bool :=
  match l with
  | s :: ((s' :: _) as l') => (seg_end s <=? s_offset s') && ordered l'
  | _ => true
  end.

Definition target_base (file_size : Z) : Z :=
  (file_size + kAlignment - 1) / kAlignment * kAlignment.

Definition min_tag (l : list segment_mapping) : Z :=
  foldl (fun t s => Z.min t (s_tag s)) 255 l.

(** Range check of an ordinary mapping. *)
Definition mapping_in_range (hybrid : bool) (moffset_end : Z) (m : segment_mapping) : bool :=
  let moffset_begin := kDataStartSector in
  if s_zeroed m then
    (hybrid && (s_moffset m =? kMaxMoffset)) ||
    ((moffset_begin <=? s_moffset m) && (s_moffset m <=? moffset_end))
  else
    (moffset_begin <=? s_moffset m) && (s_moffset m <? moffset_end) &&
    (moffset_begin <? seg_mend m) && (seg_mend m <=? moffset_end).

(** One turn of the validation loop; a warp mapping comes out with its tag
    cleared and a target offset moved past the metadata. *)
Definition check_mapping (hybrid : bool) (target_size : option Z) (tbase mtag : Z)
    (tht : HeaderTrailer) (m : segment_mapping) : res segment_mapping :=
  let vs := ht_virtual_size tht in
  let moffset_end := ht_index_offset tht / kAlignment in
  if hybrid && ((s_length m =? 0) || negb (vs mod kAlignment =? 0) ||
                (vs / kAlignment <? seg_end m))
  then format_error else
  match target_size with
  | Some tsize =>
      let source_tag := s_tag m - mtag in
      if 1 <? source_tag then format_error else
      if (s_length m =? 0) || (kMaxOffset <? seg_end m) || negb (vs mod kAlignment =? 0) ||
         (vs / kAlignment <? seg_end m)
      then format_error else
      let m := with_tag m 0 in
      if s_zeroed m then Ok m else
      if source_tag =? 1 then
        let sectors := tsize / kAlignment in
        if (sectors <? s_moffset m) || (sectors - s_moffset m <? s_length m) then format_error
        else Ok (Seg (s_offset m) (s_length m) (u64 (s_moffset m + tbase / kAlignment))
                   (s_zeroed m) (s_tag m))
      else if mapping_in_range hybrid moffset_end m then Ok m else format_error
  | None => if mapping_in_range hybrid moffset_end m then Ok m else format_error
  end.

Fixpoint check_mappings (f : segment_mapping -> res segment_mapping)
    (l : list segment_mapping) : res (list segment_mapping) :=
  match l with
  | [] => Ok []
  | m :: l => m ← f m; l ← check_mappings f l; Ok (m :: l)
  end.

(** The limits on the combined offset space of a warp layer. *)
Definition check_warp (file_size vs tsize : Z) : res Z :=
  if negb (vs mod kAlignment =? 0) then format_error else
  if 2 ^ 64 - 1 - (kAlignment - 1) <? file_size then format_error else
  if 2 ^ 64 - 1 - target_base file_size <? tsize then format_error
  else Ok (target_base file_size).

Definition with_index_size (ht : HeaderTrailer) (n : Z) : HeaderTrailer :=
  HT (ht_size ht) (ht_flags ht) (ht_index_offset ht) n (ht_virtual_size ht)
    (ht_uuid ht) (ht_parent_uuid ht) (ht_reserved ht) (ht_version ht)
    (ht_sub_version ht) (ht_user_tag ht).

(** The part of [open_impl] after the two records and the index are in memory. *)
Definition build_layer {W} (src : BlobSource W) (target : option (BlobSource W))
    (hybrid : bool) (tht : HeaderTrailer) (raw : bytes) : res (LsmtLayer W) :=
  let has_target := match target with Some _ => true | None => false end in
  let segments := load_index has_target raw (ht_index_size tht) in
  if negb (ordered segments) then format_error else
  tbase ← match target with
          | Some t => check_warp (src_size src) (ht_virtual_size tht) (src_size t)
          | None => Ok 0
          end;
  let mtag := match target with Some _ => min_tag segments | None => 255 end in
  segments ← check_mappings
    (check_mapping hybrid (src_size <$> target) tbase mtag tht) segments;
  Ok (Layer (match target with Some t => WarpSource src t tbase | None => src end)
        (with_index_size tht (zlen segments)) segments).

Definition open_impl {W} (src : option (BlobSource W)) (target : option (BlobSource W))
    : io W (LsmtLayer W) :=
  match src with
  | None => io_fail (Errno EINVAL)
  | Some src =>
      let has_target := match target with Some _ => true | None => false end in
      let file_size := src_size src in
      if file_size <? kSpace * 2 then io_lift format_error else
      region ← read_exact src kSpace 0;
      hht ← io_lift (parse region);
      if negb (is_header hht) then io_lift format_error else
      if negb (is_data_file hht) then io_lift format_error else
      region ← read_exact src kSpace (file_size - kSpace);
      tht ← io_lift (parse region);
      hybrid ← io_lift (check_headers has_target file_size hht tht);
      let index_bytes := u64 (ht_index_size tht * kEncodedSize) in
      raw ← (if 0 <? index_bytes then read_exact src index_bytes (ht_index_offset tht)
             else mret []);
      io_lift (build_layer src target hybrid tht raw)
  end.

Definition open {W} (src : option (BlobSource W)) : io W (LsmtLayer W) := open_impl src None.
Definition open_warp {W} (metadata target : option (BlobSource W)) : io W (LsmtLayer W) :=
  match target with
  | None => io_fail (Errno EINVAL)
  | Some _ => open_impl metadata target
  end.

(** ** The merged view *)

Record MergedLsmt (W : Type) := Merged {
  m_layers : list (LsmtLayer W);  (* topmost first *)
  m_index : list segment_mapping;
  m_lookup_ends : list Z;
  m_lookup_stride : nat;
  m_vsize : Z;
}.
Arguments Merged {W} _ _ _ _ _.
Arguments m_layers {W} _.
Arguments m_index {W} _.
Arguments m_lookup_ends {W} _.
Arguments m_lookup_stride {W} _.
Arguments m_vsize {W} _.

(** [virtual_size] of the topmost layer that reports one. *)
Fixpoint top_vsize {W} (layers : list (LsmtLayer W)) : Z :=
  match layers with
  | [] => 0
  | l :: layers => if negb (virtual_size l =? 0) then virtual_size l else top_vsize layers
  end.

(** The last endpoint of each group of [stride] entries: [for (begin = 0;
    begin < size; begin += stride)]. *)
Fixpoint group_ends (fuel stride : nat) (index : list segment_mapping) : list Z :=
  match fuel with
  | O => []
  | S fuel =>
      match last (take stride index) with
      | None => []
      | Some s => seg_end s :: group_ends fuel stride (drop stride index)
      end
  end.

Definition lookup_stride_of (size : nat) : nat :=
  Nat.max 64 (size / 4096 + (if (size mod 4096 =? 0)%nat then 0 else 1)).

Definition merged_open {W} (layers_bottom_up : list (LsmtLayer W)) : res (MergedLsmt W) :=
  if zlen layers_bottom_up =? 0 then Err (Errno EINVAL) else
  if kMaxStackLayers <? zlen layers_bottom_up then format_error else
  let layers := reverse layers_bottom_up in
  let vsize := top_vsize layers in
  if vsize =? 0 then format_error else
  index ← merge_indexes (l_segments <$> layers) [];
  Ok (if 65536 <=? zlen index then
        let stride := lookup_stride_of (length index) in
        Merged layers index (group_ends (length index) stride index) stride vsize
      else Merged layers index [] 0 vsize).

(** The index position the read starts from: by the directory of group ends
    when there is one. *)
Definition lookup_first {W} (m : MergedLsmt W) (start_sec : Z) : nat :=
  let index := m_index m in
  let above := fun s => start_sec <? seg_end s in
  match m_lookup_ends m with
  | [] => upper_bound above index
  | ends =>
      let group := upper_bound (fun e => start_sec <? e) ends in
      let begin := Nat.min (group * m_lookup_stride m) (length index) in
      (begin + upper_bound above
                 (take (Nat.min (m_lookup_stride m) (length index - begin)) (drop begin index)))%nat
  end.

Section Pread.
Context {W : Type} (sources : list (BlobSource W)) (start_sec end_sec : Z).

(** One mapped piece: read, one retry of a short read, zero fill of what the
    blob does not hold. *)
Definition read_piece (src : BlobSource W) (out : bytes) (pos piece_bytes data_off : Z)
    : io W bytes :=
  r ← src_pread src piece_bytes data_off;
  out ← io_lift (mem_write out pos r);
  if zlen r <? piece_bytes then
    r2 ← io_try (src_pread src (piece_bytes - zlen r) (u64 (data_off + zlen r)));
    let r2 := match r2 with inl bs => bs | inr _ => [] end in
    out ← io_lift (mem_write out (pos + zlen r) r2);
    let filled := zlen r2 + zlen r in
    if filled <? piece_bytes then io_lift (mem_zero out (pos + filled) (piece_bytes - filled))
    else mret out
  else mret out.

Definition sector_bytes (n : Z) : Z := u64 (n * kAlignment).

Fixpoint pread_loop (fuel : nat) (it : list segment_mapping) (cur : Z) (out : bytes)
    : io W bytes :=
  if cur <? end_sec then
    match fuel with
    | O => io_fail Fuel
    | S fuel =>
        let at_cur := sector_bytes (cur - start_sec) in
        match it with
        | [] => io_lift (mem_zero out at_cur (sector_bytes (end_sec - cur)))
        | s :: it' =>
            if end_sec <=? s_offset s then
              io_lift (mem_zero out at_cur (sector_bytes (end_sec - cur)))
            else if cur <? s_offset s then
              let h := Z.min (s_offset s) end_sec in
              out ← io_lift (mem_zero out at_cur (sector_bytes (h - cur)));
              pread_loop fuel it h out
            else
              let seg_from := Z.max (s_offset s) cur in
              let seg_to := Z.min (seg_end s) end_sec in
              let piece_bytes := sector_bytes (u64 (seg_to - seg_from)) in
              let piece := sector_bytes (seg_from - start_sec) in
              out ← (if s_zeroed s then io_lift (mem_zero out piece piece_bytes)
                     else
                       let data_off := sector_bytes (u64 (s_moffset s + (seg_from - s_offset s))) in
                       match sources !! Z.to_nat (s_tag s) with
                       | None => io_fail Undefined
                       | Some src => read_piece src out piece piece_bytes data_off
                       end);
              pread_loop fuel (if seg_end s <=? seg_to then it' else it) seg_to out
        end
    end
  else mret out.
End Pread.

Definition merged_pread {W} (m : MergedLsmt W) (count offset : Z) : io W bytes :=
  if negb (offset mod kAlignment =? 0) || negb (count mod kAlignment =? 0)
  then io_fail (Errno EINVAL) else
  if m_vsize m <=? offset then mret [] else
  let count := if m_vsize m - offset <? count then m_vsize m - offset else count in
  if count =? 0 then mret [] else
  let start_sec := offset / kAlignment in
  let end_sec := u64 (offset + count) / kAlignment in
  let it := drop (lookup_first m start_sec) (m_index m) in
  pread_loop (l_src <$> m_layers m) start_sec end_sec (2 * length it + 2) it start_sec (uninit count).

(** The merged view as a source. *)
Definition MergedSource {W} (m : MergedLsmt W) : BlobSource W :=
  Src (m_vsize m) (merged_pread m).

(** ** The warp source meets the contract *)

Section WarpSpec.
Context {W : Type} (E : fail -> Prop) (md tg : BlobSource W) (base : Z) (cm ct : Z -> Z).
Context `{Hmd : !SourceSpec E md cm} `{Htg : !SourceSpec E tg ct}.
Context (Hbase : src_size md <= base) (Hsize : base + src_size tg < 2 ^ 64).

Definition warp_content (i : Z) : Z :=
  if i <? base then (if i <? src_size md then cm i else 0) else ct (i - base).

Lemma warp_size_val : warp_size tg base = base + src_size tg.
Proof.
  pose proof (src_size_ok (src := tg)). pose proof (src_size_ok (src := md)).
  apply u64_small. lia.
Qed.

Lemma slice_warp_target off n :
  base <= off -> slice warp_content off n = slice ct (off - base) n.
Proof.
  intros. replace (off - base) with (- base + off) by lia. rewrite <- slice_shift.
  apply slice_ext. intros i Hi. unfold warp_content.
  rewrite (proj2 (Z.ltb_ge i base)) by lia. f_equal. lia.
Qed.

Lemma warp_loop_target fuel n offset done :
  base <= offset + done -> 0 <= done <= n -> 0 <= offset -> offset + n <= base + src_size tg ->
  (0 < fuel)%nat ->
  io_spec E (warp_loop md tg base fuel (filled warp_content offset done n) n offset done)
    (fun out => out = slice warp_content offset n).
Proof.
  intros Hb Hd Ho Hn Hf. destruct fuel as [|fuel]; [lia|]. simpl.
  destruct (Z.ltb_spec done n); [|replace n with done by lia; apply io_spec_ret, filled_all].
  rewrite u64_small by lia. rewrite (proj2 (Z.leb_le base _)) by lia.
  eapply io_spec_bind; [apply src_pread_ok; lia|]. simpl. intros r ->.
  replace (avail _ _ _) with (n - done) by (unfold avail; lia).
  rewrite (write_filled _ _ _ _ (n - done)) by (lia || rewrite slice_warp_target by lia; f_equal; lia).
  eapply io_spec_bind; [by eapply io_spec_lift_ok with (Q := eq _)|]. intros ? <-.
  rewrite zlen_slice, Z.max_r, Z.eqb_refl by lia. simpl.
  replace (done + (n - done)) with n by lia.
  destruct fuel; simpl; rewrite Z.ltb_irrefl; apply io_spec_ret, filled_all.
Qed.

Lemma warp_loop_gap fuel n offset done :
  src_size md <= offset + done -> 0 <= done <= n -> 0 <= offset ->
  offset + n <= base + src_size tg -> (1 < fuel)%nat ->
  io_spec E (warp_loop md tg base fuel (filled warp_content offset done n) n offset done)
    (fun out => out = slice warp_content offset n).
Proof.
  intros Hb Hd Ho Hn Hf.
  destruct (decide (base <= offset + done)); [apply warp_loop_target; done || lia|].
  destruct fuel as [|fuel]; [lia|]. simpl.
  destruct (Z.ltb_spec done n); [|replace n with done by lia; apply io_spec_ret, filled_all].
  rewrite u64_small by lia. rewrite (proj2 (Z.leb_gt base _)), (proj2 (Z.leb_le _ _)) by lia.
  rewrite zero_filled; try lia.
  2: { intros i Hi. unfold warp_content.
    by rewrite (proj2 (Z.ltb_lt i base)), (proj2 (Z.ltb_ge i (src_size md))) by lia. }
  eapply io_spec_bind; [by eapply io_spec_lift_ok with (Q := eq _)|]. intros ? <-.
  destruct (decide (n - done <= base - (offset + done))).
  - rewrite Z.min_l by lia. replace (done + (n - done)) with n by lia.
    destruct fuel; simpl; rewrite Z.ltb_irrefl; apply io_spec_ret, filled_all.
  - apply warp_loop_target; lia.
Qed.

Lemma warp_loop_spec n offset :
  0 <= n -> 0 <= offset -> offset + n <= base + src_size tg ->
  io_spec E (warp_loop md tg base 3 (uninit n) n offset 0)
    (fun out => out = slice warp_content offset n).
Proof.
  intros Hn0 Ho Hn. rewrite <- (filled_0 warp_content offset).
  destruct (decide (src_size md <= offset)); [apply warp_loop_gap; lia|].
  cbn [warp_loop]. destruct (Z.ltb_spec 0 n); [|replace n with 0 by lia; apply io_spec_ret, filled_all].
  rewrite Z.add_0_r. rewrite u64_small by lia.
  rewrite (proj2 (Z.leb_gt base _)), (proj2 (Z.leb_gt _ _)) by lia.
  set (k := Z.min _ _). assert (0 <= k <= n /\ offset + k <= src_size md) as Hk by lia.
  eapply io_spec_bind; [apply src_pread_ok; lia|]. simpl. intros r ->.
  replace (avail _ _ _) with k by (unfold avail; lia).
  rewrite (write_filled _ _ _ _ k); try lia.
  2: { rewrite Z.add_0_r. apply slice_ext. intros i Hi. unfold warp_content.
    by rewrite (proj2 (Z.ltb_lt i base)), (proj2 (Z.ltb_lt i (src_size md))) by lia. }
  eapply io_spec_bind; [by eapply io_spec_lift_ok with (Q := eq _)|]. intros ? <-.
  rewrite zlen_slice, Z.max_r, Z.eqb_refl by lia. simpl.
  destruct (decide (n <= src_size md - offset)).
  - replace k with n by lia. rewrite Z.add_0_l, Z.ltb_irrefl. apply io_spec_ret, filled_all.
  - apply (warp_loop_gap 2); lia.
Qed.

#[export] Instance warp_source_spec : SourceSpec E (WarpSource md tg base) warp_content.
Proof.
  pose proof (src_size_ok (src := tg)). pose proof (src_size_ok (src := md)). split; simpl.
  - rewrite warp_size_val. lia.
  - intros i. unfold warp_content. case_if; [case_if|]; try apply src_content_byte. by split.
  - intros count off Hc Ho. unfold warp_pread. rewrite warp_size_val.
    destruct (Z.leb_spec (base + src_size tg) off).
    + apply io_spec_ret. rewrite slice_nil by (unfold avail; lia). done.
    + eapply io_spec_mono; [apply warp_loop_spec; lia|]. simpl. intros bs ->. f_equal.
      unfold avail. lia.
Qed.
End WarpSpec.

(** ** The lookup directory finds what the plain binary search finds *)

Section Directory.
Context (stride : nat) (Hstride : (0 < stride)%nat).

Lemma group_ends_lookup fuel index g :
  (length index <= fuel)%nat ->
  group_ends fuel stride index !! g =
    if decide (g * stride < length index)%nat
    then seg_end <$> index !! (Nat.min (g * stride + stride) (length index) - 1)%nat
    else None.
Proof.
  revert index g. induction fuel as [|fuel IH]; intros index g Hf; simpl.
  { rewrite lookup_nil. case_decide; [lia|done]. }
  destruct (decide (length index = 0)%nat) as [H0|H0].
  { apply nil_length_inv in H0 as ->. rewrite take_nil. cbn [last length]. rewrite lookup_nil.
    by rewrite decide_False by lia. }
  rewrite last_lookup, length_take.
  destruct (lookup_lt_is_Some_2 index (Nat.min stride (length index) - 1)) as [s Hs]; [lia|].
  replace (pred (Nat.min stride (length index))) with (Nat.min stride (length index) - 1)%nat by lia.
  rewrite lookup_take_lt, Hs by lia. destruct g as [|g]; simpl.
  - rewrite decide_True by lia. by rewrite Hs.
  - rewrite IH, length_drop by (rewrite length_drop; lia).
    destruct (decide (g * stride < length index - stride)%nat).
    + rewrite decide_True, lookup_drop by lia. do 2 f_equal. lia.
    + by rewrite decide_False by lia.
Qed.

Context (index : list segment_mapping) (x : Z).
Let p (s : segment_mapping) := x <? seg_end s.
Context (Hp : partitioned p index).
Let ends := group_ends (length index) stride index.

Lemma group_ends_partitioned : partitioned (fun e => x <? e) ends.
Proof.
  intros i j a b Hij Ha Hb Ht. unfold ends in *. rewrite group_ends_lookup in Ha, Hb by lia.
  repeat case_decide; try done.
  apply fmap_Some in Ha as (sa & Ha & ->). apply fmap_Some in Hb as (sb & Hb & ->).
  eapply (Hp _ _ sa sb); [|exact Ha|exact Hb|exact Ht]. nia.
Qed.

Lemma directory_lookup :
  let group := upper_bound (fun e => x <? e) ends in
  let begin := Nat.min (group * stride) (length index) in
  (begin + upper_bound p (take (Nat.min stride (length index - begin)) (drop begin index)))%nat =
  upper_bound p index.
Proof.
  intros group begin. destruct (upper_bound_spec _ _ group_ends_partitioned) as [G0 G1].
  fold group in G0, G1.
  assert (forall g, (0 < g)%nat -> ((g - 1) * stride + stride = g * stride)%nat) as Hgs
    by (intros [|g'] ?; simpl; rewrite ?Nat.sub_0_r; lia).
  set (sub := take (Nat.min stride (length index - begin)) (drop begin index)).
  assert (forall i, sub !! i = if decide (i < stride)%nat then index !! (begin + i)%nat else None) as Hsub.
  { intros i. unfold sub. rewrite lookup_take, lookup_drop. repeat case_decide; try lia; try done.
    rewrite lookup_ge_None_2; [done|lia]. }
  assert (partitioned p sub) as Hps.
  { intros i j a b Hij Ha Hb. rewrite Hsub in Ha, Hb. repeat case_decide; try done.
    eapply (Hp (begin + i)%nat (begin + j)%nat); [lia|done..]. }
  destruct (upper_bound_spec _ _ Hps) as [S0 S1]. set (u := upper_bound p sub) in *.
  pose proof (upper_bound_le _ _ Hps) as Hu. fold u in Hu.
  pose proof (upper_bound_le _ _ group_ends_partitioned) as Hg. fold group in Hg.
  assert (length sub <= length index - begin)%nat as Hls.
  { unfold sub. rewrite length_take, length_drop. lia. }
  rewrite Forall_lookup in G0, G1. rewrite Forall_lookup in S0, S1. symmetry. apply upper_bound_unique; [done|lia| |];
    apply Forall_lookup_2; intros i s Hi.
  - apply lookup_take_Some in Hi as [Hi Hlt]. destruct (decide (i < begin)%nat) as [Hb|Hb].
    + (* an entry of an earlier group: its group's end is not above *)
      destruct (p s) eqn:Hs; [|done]. apply lookup_lt_Some in Hi as Hil.
      assert (0 < group)%nat by (destruct group; [unfold begin in Hb; simpl in Hb; lia|lia]).
      destruct (lookup_lt_is_Some_2 ends (group - 1)%nat) as [e He]; [lia|].
      specialize (G0 (group - 1)%nat e). rewrite lookup_take_lt in G0 by lia.
      specialize (G0 He).
      unfold ends in He. rewrite group_ends_lookup in He by lia. case_decide; [|done].
      rewrite Hgs in He by done. fold begin in He.
      apply fmap_Some in He as (s' & Hs' & ->).
      rewrite <- G0. symmetry. eapply (Hp i (begin - 1)%nat s s'); [lia|done..].
    + apply (S0 (i - begin)%nat). rewrite lookup_take_lt by lia. rewrite Hsub.
      rewrite decide_True by (unfold sub in *; rewrite length_take in *; lia).
      rewrite <- Hi. f_equal. lia.
  - rewrite lookup_drop in Hi. apply lookup_lt_Some in Hi as Hil.
    destruct (decide (begin + stride <= begin + u + i)%nat) as [Hge|Hlt].
    + (* an entry of a later group: the found group's end is above *)
      specialize (G1 0%nat). rewrite lookup_drop, Nat.add_0_r in G1.
      unfold ends in G1. rewrite group_ends_lookup in G1 by lia.
      assert (begin = group * stride)%nat as Hbeg by (unfold begin in *; lia).
      rewrite decide_True in G1 by lia.
      destruct (lookup_lt_is_Some_2 index (Nat.min (group * stride + stride) (length index) - 1)%nat)
        as [s' Hs']; [lia|].
      rewrite Hs' in G1. specialize (G1 _ eq_refl).
      eapply (Hp _ _ s' s); [|exact Hs'|exact Hi|exact G1]. lia.
    + apply (S1 i). rewrite lookup_drop, Hsub. rewrite decide_True by lia.
      rewrite <- Hi. f_equal. lia.
Qed.
End Directory.

(** The directory [merged_open] builds, if any. *)
Definition directory_ok {W} (m : MergedLsmt W) : Prop :=
  m_lookup_ends m = [] \/
  ((0 < m_lookup_stride m)%nat /\
   m_lookup_ends m = group_ends (length (m_index m)) (m_lookup_stride m) (m_index m)).

Lemma lookup_first_spec {W} (m : MergedLsmt W) x :
  index_ok 0 (m_index m) -> directory_ok m ->
  lookup_first m x = upper_bound (fun s => x <? seg_end s) (m_index m).
Proof.
  intros Hok [He|[Hs He]]; unfold lookup_first; [by rewrite He|].
  destruct (m_lookup_ends m) as [|e ends] eqn:Hends; [done|]. rewrite He.
  apply (directory_lookup _ Hs (m_index m) x). by eapply sorted_ends_partitioned.
Qed.

(** ** Reading through the merged index *)

(** The byte at position [r] of the sector a cell names; [cs] are the contents of
    the sources. *)
Definition cell_byte (cs : list (Z -> Z)) (c : cell) (r : Z) : Z :=
  match c with
  | Data t p =>
      match cs !! Z.to_nat t with
      | Some content => content (p * kAlignment + r)
      | None => 0
      end
  | _ => 0
  end.

Definition index_content (cs : list (Z -> Z)) (look : Z -> cell) (i : Z) : Z :=
  cell_byte cs (look (i / kAlignment)) (i mod kAlignment).

Section ReadPiece.
Context {W : Type} (I : W -> Prop) (E : fail -> Prop) (src : BlobSource W) (c : Z -> Z).
Context `{Hsrc : !SourceInv I E src c}.

(** What a read delivered continues the buffer. *)
Lemma deliver_filled f off pos N n d bs :
  0 <= pos -> pos + n <= N -> delivers c d n bs ->
  (forall i, 0 <= i < n -> f (off + pos + i) = c (d + i)) ->
  mem_write (filled f off pos N) pos bs = Ok (filled f off (pos + zlen bs) N).
Proof.
  intros Hp HN (Hbs & Hn & _) Hf. apply write_filled; [done|apply zlen_nonneg|lia|].
  rewrite Hbs at 1. apply list_eq_bget; [rewrite !zlen_slice; lia|]. intros i. rewrite zlen_slice. intros Hi.
  rewrite !bget_slice by lia. symmetry. apply Hf. lia.
Qed.

Lemma read_piece_spec f off pos N n d :
  0 <= pos -> 0 <= n -> pos + n <= N -> 0 <= d -> d + n <= 2 ^ 64 ->
  (forall i, 0 <= i < n -> f (off + pos + i) = c (d + i)) ->
  io_inv I E (read_piece src (filled f off pos N) pos n d)
    (fun out => out = filled f off (pos + n) N).
Proof.
  intros Hp Hn HN Hd Hdn Hf. unfold read_piece.
  eapply io_inv_bind; [apply inv_pread_ok; lia|]. intros r Hr. pose proof (zlen_nonneg r) as Hr0.
  eapply io_inv_bind; [by eapply io_inv_lift_ok with (Q := eq _); [eapply deliver_filled|]|]. intros ? <-.
  destruct Hr as (_ & Hrn & Hz). destruct (Z.ltb_spec (zlen r) n) as [Hs|];
    [|replace n with (zlen r) by lia; by apply io_inv_ret].
  specialize (Hz Hs). rewrite u64_small by lia.
  eapply io_inv_bind; [apply io_try_inv, inv_pread_ok; lia|]. intros r2 Hr2.
  set (b2 := match r2 with inl bs => bs | inr _ => [] end).
  assert (delivers c (d + zlen r) (n - zlen r) b2) as Hb2.
  { unfold b2. destruct r2; [done|]. split; [done|]. split; [rewrite zlen_nil; lia|]. intros _ i.
    rewrite zlen_nil, Z.add_0_r. apply Hz. }
  pose proof (zlen_nonneg b2).
  eapply io_inv_bind; [eapply io_inv_lift_ok with (Q := eq _); [|done]|].
  { eapply deliver_filled; [lia| |exact Hb2|]; [lia|]. intros i Hi.
    rewrite <- (Z.add_assoc d), <- Hf by lia. f_equal. lia. }
  intros ? <-. destruct Hb2 as (_ & Hbn & _). rewrite (Z.add_comm (zlen b2)).
  destruct (Z.ltb_spec (zlen r + zlen b2) n).
  - eapply io_inv_lift_ok; [|reflexivity]. rewrite Z.add_assoc, zero_filled; try lia.
    + do 2 f_equal. lia.
    + intros i Hi. replace i with (off + pos + (i - off - pos)) by lia. rewrite Hf by lia. apply Hz. lia.
  - apply io_inv_ret. f_equal. lia.
Qed.
End ReadPiece.

Lemma sector_bytes_small n : 0 <= n -> n * kAlignment < 2 ^ 64 -> sector_bytes n = n * kAlignment.
Proof. intros. unfold sector_bytes, kAlignment in *. apply u64_small. lia. Qed.

Lemma resolve_head s it x :
  rest_ok x (s :: it) -> s_offset s <= x -> resolve (s :: it) x = seg_cell s x.
Proof. intros (Hs & Hx & _) Ho. simpl. by rewrite (proj2 (covers_true s x)) by lia. Qed.

Lemma rest_below cur s it x :
  rest_ok cur (s :: it) -> x < s_offset s -> resolve (s :: it) x = Hole.
Proof.
  intros (Hs & Hx & Hit) Ho. apply (resolve_below (s_offset s)); [|done].
  apply index_ok_cons. split; [done|split; [lia|done]].
Qed.

Section PreadLoop.
Context {W : Type} (I : W -> Prop) (E : fail -> Prop) (sources : list (BlobSource W)) (cs : list (Z -> Z)).
Context (Hspec : Forall2 (SourceInv I E) sources cs).
Context (index : list segment_mapping).
Context (Htags : forall s, s ∈ index -> s_zeroed s = false -> s_tag s < zlen sources).
Context (start_sec end_sec : Z).
Context (Hstart : 0 <= start_sec) (Hend : end_sec * kAlignment < 2 ^ 64).

Let f := index_content cs (resolve index).
Let off := start_sec * kAlignment.
Let N := (end_sec - start_sec) * kAlignment.
Let buf cur := filled f off ((cur - start_sec) * kAlignment) N.

Lemma zero_sectors cur h :
  start_sec <= cur <= h -> h <= end_sec ->
  (forall x, cur <= x < h -> resolve index x = Hole \/ resolve index x = Zero) ->
  mem_zero (buf cur) (sector_bytes (cur - start_sec)) (sector_bytes (h - cur)) = Ok (buf h).
Proof.
  intros Hc Hh Hx. unfold buf. rewrite !sector_bytes_small by (unfold kAlignment in *; lia).
  rewrite zero_filled; unfold N, off, kAlignment in *; try lia.
  - do 2 f_equal. lia.
  - intros i Hi. unfold f, index_content, kAlignment.
    destruct (Hx (i / 512)) as [-> | ->]; [|done..].
    split; [apply Z.div_le_lower_bound; lia|apply Z.div_lt_upper_bound; lia].
Qed.

(** A data piece of [s] that lies in the requested range. *)
Lemma data_piece_spec s a b :
  s ∈ index -> seg_ok s -> s_zeroed s = false -> start_sec <= a < b -> b <= end_sec ->
  s_offset s <= a -> b <= fin s ->
  (forall x, a <= x < b -> resolve index x = seg_cell s x) ->
  io_inv I E
    (match sources !! Z.to_nat (s_tag s) with
     | None => io_fail Undefined
     | Some src => read_piece src (buf a) (sector_bytes (a - start_sec))
                   (sector_bytes (u64 (b - a)))
                   (sector_bytes (u64 (s_moffset s + (a - s_offset s))))
     end) (fun out => out = buf b).
Proof.
  intros Hin Hok Hz Hab Hb Ha Hfin Hres. pose proof Hok as (H1 & H2 & H3 & H4 & H5).
  specialize (H5 Hz). specialize (Htags s Hin Hz). unfold fin, zlen in *.
  destruct (lookup_lt_is_Some_2 sources (Z.to_nat (s_tag s))) as [l Hl]; [lia|]. rewrite Hl.
  destruct (Forall2_lookup_l _ _ _ _ _ Hspec Hl) as (c & Hc & Hls).
  rewrite (u64_small (b - a)), (u64_small (s_moffset s + _)) by lia.
  rewrite !sector_bytes_small by (unfold kAlignment in *; lia).
  unfold buf. eapply io_inv_mono; [apply (read_piece_spec I E l c)|].
  1-5: unfold N, kAlignment in *; lia.
  - intros i Hi. unfold f, index_content, off, kAlignment in *.
    replace (start_sec * 512 + (a - start_sec) * 512 + i) with (i + a * 512) by lia.
    rewrite Z.div_add, Z_mod_plus_full by lia.
    pose proof (Z.div_mod i 512 ltac:(lia)) as Hdm.
    pose proof (Z.mod_pos_bound i 512 ltac:(lia)) as Hm.
    rewrite Hres by lia. unfold seg_cell, cell_byte, kAlignment. rewrite Hz, Hc.
    replace ((s_moffset s + (i / 512 + a - s_offset s)) * 512 + i mod 512)
      with ((s_moffset s + (a - s_offset s)) * 512 + i) by lia. done.
  - simpl. intros out ->. f_equal. unfold kAlignment. lia.
Qed.

(** The loop from a segment that starts at or before [cur]. *)
Definition loop_ok (it : list segment_mapping) (cur : Z) (need : nat) : Prop :=
  forall fuel, (need <= fuel)%nat ->
  io_inv I E (pread_loop sources start_sec end_sec fuel it cur (buf cur))
    (fun out => out = slice f off N).

Lemma loop_done it : start_sec <= end_sec -> loop_ok it end_sec 0.
Proof.
  intros Hse fuel _. destruct fuel; simpl; rewrite Z.ltb_irrefl; apply io_inv_ret; apply filled_all.
Qed.

(** What holds of the iterator when the loop is at [cur]. *)
Definition loop_inv (it : list segment_mapping) (cur : Z) : Prop :=
  start_sec <= cur <= end_sec /\ rest_ok cur it /\ (forall s, s ∈ it -> s ∈ index) /\
  forall x, cur <= x -> resolve it x = resolve index x.

Lemma loop_trailing it cur :
  loop_inv it cur -> cur < end_sec -> (forall x, cur <= x < end_sec -> resolve it x = Hole) ->
  io_inv I E (io_lift (mem_zero (buf cur) (sector_bytes (cur - start_sec))
                        (sector_bytes (end_sec - cur))) : io W bytes)
    (fun out => out = slice f off N).
Proof.
  intros (Hc & _ & _ & Hr) Hlt Hx. eapply io_inv_lift_ok; [|reflexivity].
  rewrite zero_sectors by (lia || intros x Hxx; left; rewrite <- Hr by lia; auto).
  f_equal. apply filled_all.
Qed.

Lemma loop_segment s it cur need :
  loop_inv (s :: it) cur -> s_offset s <= cur -> cur < end_sec ->
  (fin s <= end_sec -> loop_ok it (fin s) need) -> loop_ok (s :: it) cur (S need).
Proof.
  intros (Hc & Hrest & Hin & Hr) Ho Hlt IH fuel Hfuel. destruct fuel as [|fuel]; [lia|].
  pose proof Hrest as (Hs & Hf & Hit). simpl.
  rewrite (proj2 (Z.ltb_lt cur end_sec)), (proj2 (Z.leb_gt end_sec _)),
    (proj2 (Z.ltb_ge cur _)) by lia.
  rewrite (Z.max_r (s_offset s) cur), seg_ok_end by done || lia.
  set (b := Z.min (fin s) end_sec).
  assert (forall x, cur <= x < b -> resolve index x = seg_cell s x) as Hcell.
  { intros x Hx. rewrite <- Hr by lia. apply resolve_head; [|lia]. split; [done|split; [lia|done]]. }
  eapply (io_inv_bind _ _ _ _ (fun out => out = buf b)).
  - destruct (s_zeroed s) eqn:Hz.
    + rewrite (u64_small (b - cur)) by (unfold kAlignment in *; lia).
      eapply io_inv_lift_ok; [|reflexivity]. apply zero_sectors; [lia..|].
      intros x Hx. right. rewrite Hcell by done. unfold seg_cell. by rewrite Hz.
    + apply data_piece_spec; try done; try lia. apply Hin, list_elem_of_here.
  - intros out ->. destruct (Z.leb_spec (fin s) b).
    + replace b with (fin s) by lia. apply IH; lia.
    + replace b with end_sec by lia. apply (loop_done (s :: it)); lia.
Qed.

Lemma loop_hole s it cur need :
  loop_inv (s :: it) cur -> cur < s_offset s -> s_offset s < end_sec ->
  loop_ok (s :: it) (s_offset s) need -> loop_ok (s :: it) cur (S need).
Proof.
  intros (Hc & Hrest & Hin & Hr) Ho Hlt IH fuel Hfuel. destruct fuel as [|fuel]; [lia|].
  cbn [pread_loop]. rewrite (proj2 (Z.ltb_lt cur end_sec)), (proj2 (Z.leb_gt end_sec _)),
    (proj2 (Z.ltb_lt cur _)) by lia. rewrite Z.min_l by lia.
  eapply (io_inv_bind _ _ _ _ (fun out => out = buf (s_offset s))).
  - eapply io_inv_lift_ok; [|reflexivity]. apply zero_sectors; [lia..|].
    intros x Hx. left. rewrite <- Hr by lia. apply (rest_below cur); done || lia.
  - intros out ->. apply IH. lia.
Qed.

Lemma pread_loop_spec it cur : loop_inv it cur -> loop_ok it cur (2 * length it + 2).
Proof.
  revert cur. induction it as [|s it IH]; intros cur Hinv; pose proof Hinv as (Hc & Hrest & Hin & Hr);
    (destruct (decide (cur = end_sec)) as [->|Hne];
      [intros fuel _; apply loop_done; lia|]).
  - intros [|fuel] Hf; [simpl in Hf; lia|]. cbn [pread_loop].
    rewrite (proj2 (Z.ltb_lt cur end_sec)) by lia. by apply (loop_trailing []); [|lia|].
  - pose proof Hrest as (Hs & Hf & Hit). pose proof Hs as (_ & Hsl & _). unfold fin in *.
    destruct (decide (end_sec <= s_offset s)).
    { intros [|fuel] Hfu; [simpl in Hfu; lia|]. cbn [pread_loop].
      rewrite (proj2 (Z.ltb_lt cur end_sec)), (proj2 (Z.leb_le end_sec _)) by lia.
      apply (loop_trailing (s :: it)); [done|lia|]. intros x Hx.
      apply (rest_below cur); done || lia. }
    assert (fin s <= end_sec -> loop_ok it (fin s) (2 * length it + 2)) as IH'.
    { intros Hfe. apply IH. split; [unfold fin in *; lia|]. split; [by apply rest_ok_index|].
      split; [intros s' Hs'; by apply Hin, list_elem_of_further|].
      intros x Hx. rewrite <- Hr by (unfold fin in *; lia). simpl.
      by rewrite (proj2 (covers_false s x)) by (unfold fin in *; lia). }
    replace (2 * length (s :: it) + 2)%nat with (S (S (2 * length it + 2))) by (simpl; lia).
    destruct (decide (s_offset s <= cur)).
    + intros fuel Hfu. eapply loop_segment; [done|done|lia|exact IH'|lia].
    + apply loop_hole; [done|lia|lia|]. apply loop_segment; [|lia|lia|done].
      split; [lia|]. split; [split; [done|split; [unfold fin; lia|done]]|]. split; [done|].
      intros x Hx. apply Hr. lia.
Qed.

(** The whole read, from the first segment past its start. *)
Lemma index_read_spec :
  index_ok 0 index -> start_sec <= end_sec ->
  let it := drop (upper_bound (fun s => start_sec <? seg_end s) index) index in
  io_inv I E (pread_loop sources start_sec end_sec (2 * length it + 2) it start_sec (uninit N))
    (fun out => out = slice f off N).
Proof.
  intros Hok Hse it. destruct (drop_upper_bound start_sec 0 index Hok) as [Hrest Hres].
  rewrite <- (filled_0 f off N). replace 0 with ((start_sec - start_sec) * kAlignment) at 1 by lia.
  apply pread_loop_spec; [|done]. split; [lia|]. split; [exact Hrest|]. split; [|exact Hres].
  intros s Hs. unfold it in Hs. rewrite <- (take_drop (upper_bound (fun s => start_sec <? seg_end s) index)).
  apply elem_of_app. by right.
Qed.
End PreadLoop.

(** ** The merged view meets the block contract *)

Lemma cell_byte_byte cs c r : Forall (fun f => forall i, is_byte (f i)) cs -> is_byte (cell_byte cs c r).
Proof.
  intros H. unfold cell_byte. destruct c as [| |t p]; [by split|by split|].
  destruct (cs !! _) as [content|] eqn:Hl; [|by split]. by apply (Forall_lookup_1 _ _ _ _ H Hl).
Qed.

Record merged_ok {W} (m : MergedLsmt W) : Prop := {
  mok_index : index_ok 0 (m_index m);
  mok_dir : directory_ok m;
  mok_tags : forall s, s ∈ m_index m -> s_zeroed s = false -> s_tag s < zlen (m_layers m);
  mok_vsize : 0 < m_vsize m < 2 ^ 64;
}.

(** The contents of the layers' sources, each continued with zeroes. *)
Definition layer_extents {W} (layers : list (LsmtLayer W)) (cs : list (Z -> Z)) : list (Z -> Z) :=
  zip_with (fun l c => extent (l_src l) c) layers cs.

Lemma layer_sources {W} E (layers : list (LsmtLayer W)) cs :
  Forall2 (fun l c => SourceSpec E (l_src l) c) layers cs ->
  Forall2 (SourceInv (fun _ => True) E) (l_src <$> layers) (layer_extents layers cs).
Proof. induction 1; csimpl; constructor; [by apply spec_inv|done]. Qed.

Lemma layer_extents_byte {W} E (layers : list (LsmtLayer W)) cs :
  Forall2 (fun l c => SourceSpec E (l_src l) c) layers cs ->
  Forall (fun f => forall i, is_byte (f i)) (layer_extents layers cs).
Proof.
  induction 1 as [|l c layers cs Hl _ IH]; csimpl; constructor; [|done]. intros i. unfold extent.
  case_if; [apply Hl|by split].
Qed.

Section MergedSpec.
Context {W : Type} (E : fail -> Prop) (m : MergedLsmt W) (cs : list (Z -> Z)).
Context (Hm : merged_ok m) (Hal : m_vsize m mod 512 = 0).
Context (Hspec : Forall2 (fun l c => SourceSpec E (l_src l) c) (m_layers m) cs).

Let sources := l_src <$> m_layers m.

Lemma merged_block_spec :
  BlockSpec E (MergedSource m) (index_content (layer_extents (m_layers m) cs) (resolve (m_index m))).
Proof.
  destruct Hm as [Hok Hdir Htags Hv]. split; simpl.
  - lia.
  - intros i. apply cell_byte_byte. by eapply layer_extents_byte.
  - intros count off Hc Ho Hcm Hom. unfold merged_pread, kAlignment.
    rewrite Hcm, Hom. simpl. unfold avail.
    destruct (Z.leb_spec (m_vsize m) off).
    { apply io_spec_ret. rewrite slice_nil by lia. done. }
    rewrite Z.max_r by lia. set (n := if _ <? count then _ else _).
    assert (n = Z.min count (m_vsize m - off)) as Hn by (unfold n; case_if; lia).
    assert (n mod 512 = 0) as Hnm.
    { unfold n. case_if; [|done]. rewrite Zminus_mod, Hal, Hom. done. }
    rewrite <- Hn. clearbody n. destruct (Z.eqb_spec n 0) as [->|].
    { apply io_spec_ret. by rewrite slice_nil. }
    rewrite u64_small by lia.
    pose proof (Z.div_mod off 512 ltac:(lia)) as Hdo. rewrite Hom in Hdo.
    pose proof (Z.div_mod n 512 ltac:(lia)) as Hdn. rewrite Hnm in Hdn.
    assert ((off + n) / 512 = off / 512 + n / 512) as Hend.
    { rewrite Hdo at 1. rewrite Z.add_0_r, (Z.mul_comm 512), Z.div_add_l by lia. done. }
    rewrite Hend. set (start := off / 512) in *. set (k := n / 512) in *.
    assert (0 <= start) by (unfold start; apply Z.div_pos; lia). clearbody start k.
    rewrite lookup_first_spec by done.
    replace n with ((start + k - start) * kAlignment) at 1 by (unfold kAlignment; lia).
    eapply io_spec_mono; [apply io_inv_true|].
    + eapply (index_read_spec _ E sources _ (layer_sources E _ _ Hspec) (m_index m));
        [intros s Hs Hz; unfold sources; rewrite zlen_fmap; by apply Htags|done|unfold kAlignment; lia|done|lia].
    + cbv beta. intros out ->. unfold kAlignment. f_equal; lia.
Qed.
End MergedSpec.

Lemma top_vsize_bound {W} (layers : list (LsmtLayer W)) :
  Forall (fun l => 0 <= virtual_size l < 2 ^ 64) layers -> 0 <= top_vsize layers < 2 ^ 64.
Proof. induction 1; simpl; [lia|]. case_if; lia. Qed.

Lemma merged_open_ok {W} (layers : list (LsmtLayer W)) m :
  Forall (fun l => index_ok 0 (l_segments l)) layers ->
  Forall (fun l => 0 <= virtual_size l < 2 ^ 64) layers ->
  merged_open layers = Ok m ->
  merged_ok m /\ m_layers m = reverse layers /\
  forall x, resolve (m_index m) x =
    within 0 kMaxOffset x (stack_resolve 0 (l_segments <$> reverse layers) x).
Proof.
  intros Hok Hv. unfold merged_open. do 2 (case_if; [done|]).
  destruct (Z.eqb_spec (top_vsize (reverse layers)) 0); [done|].
  destruct (merge_indexes _ []) as [index|] eqn:Hi; [|done]. cbn [mbind res_bind].
  assert (Forall (index_ok 0) (l_segments <$> reverse layers)) as Hls.
  { apply Forall_fmap. by apply Forall_reverse. }
  assert (zlen (l_segments <$> reverse layers) <= 256) as Hn.
  { unfold zlen, kMaxStackLayers in *. rewrite length_fmap, length_reverse. lia. }
  destruct (merge_indexes_spec _ _ Hls Hn Hi) as (Hidx & _ & Hr).
  assert (0 <= top_vsize (reverse layers) < 2 ^ 64) as Hvs.
  { apply top_vsize_bound. by apply Forall_reverse. }
  assert (forall s, s ∈ index -> s_zeroed s = false -> s_tag s < zlen (reverse layers)) as Ht.
  { intros s Hs Hz. pose proof (merge_indexes_tags _ _ s Hls Hn Hi Hs Hz). by rewrite zlen_fmap in *. }
  intros [= <-]. case_if; (split; [split; simpl; [done| |done|lia]|done]).
  - right. simpl. split; [|done]. unfold lookup_stride_of. lia.
  - by left.
Qed.

(** ** What [open_impl] accepts *)

(** An opened mapping: decodable logical range, tag cleared, and mapped data
    inside the layer's source. *)
Definition mapping_ok (size : Z) (s : segment_mapping) : Prop :=
  0 <= s_offset s < kInvalidOffset /\ 0 <= s_length s <= kMaxLength /\
  0 <= s_moffset s < 2 ^ 56 /\ s_tag s = 0 /\
  (s_zeroed s = false -> (s_moffset s + s_length s) * kAlignment <= size).

Record layer_ok {W} (l : LsmtLayer W) : Prop := {
  lok_size : 0 <= src_size (l_src l) < 2 ^ 64;
  lok_vsize : 0 <= virtual_size l < 2 ^ 64;
  lok_mappings : Forall (mapping_ok (src_size (l_src l))) (l_segments l);
  lok_ordered : ordered (l_segments l) = true;
}.

Definition non_empty (s : segment_mapping) : Prop := 0 < s_length s.

Lemma mapping_seg_ok size s : size < 2 ^ 64 -> mapping_ok size s -> non_empty s -> seg_ok s.
Proof.
  unfold mapping_ok, non_empty, seg_ok, kInvalidOffset, kMaxOffset, kMaxLength, kAlignment.
  intros Hs (H1 & H2 & H3 & H4 & H5) Hn. repeat split; try lia. intros Hz. specialize (H5 Hz). lia.
Qed.

Lemma ordered_sorted l lo :
  Forall seg_ok l -> ordered l = true -> (match l with [] => True | s :: _ => lo <= s_offset s end) ->
  sorted_from lo l.
Proof.
  intros Hl. revert lo. induction Hl as [|s l Hs Hl IH]; intros lo Ho Hlo; simpl; [done|].
  split; [done|]. apply IH; destruct l as [|s' l]; try done; simpl in Ho; bool_hyps; [done|].
  by rewrite <- (seg_ok_end s).
Qed.

(** An opened layer without empty mappings is a well-formed index. *)
Lemma layer_index_ok {W} (l : LsmtLayer W) :
  layer_ok l -> Forall non_empty (l_segments l) -> index_ok 0 (l_segments l).
Proof.
  intros [[_ Hs] _ Hm Ho] Hn.
  assert (Forall seg_ok (l_segments l)) as Hok.
  { rewrite Forall_forall in *. eauto using mapping_seg_ok. }
  split; [done|]. apply ordered_sorted; [done|done|].
  destruct (l_segments l) as [|s segs]; [done|]. apply Forall_cons in Hok as [(? & _) _]. lia.
Qed.

Lemma check_mappings_Forall2 f l k :
  check_mappings f l = Ok k -> Forall2 (fun m m' => f m = Ok m') l k.
Proof.
  revert k. induction l as [|m l IH]; intros k; simpl; [intros [= <-]; constructor|].
  destruct (f m) as [m'|] eqn:Hf; [|done]. simpl.
  destruct (check_mappings f l) as [l'|]; [|done]. simpl. intros [= <-]. constructor; auto.
Qed.

(** The checks keep the logical extents, so the order survives them. *)
Lemma ordered_ext l k :
  Forall2 (fun m m' => s_offset m' = s_offset m /\ s_length m' = s_length m) l k ->
  ordered k = ordered l.
Proof.
  induction 1 as [|m m' l k [Ho Hl] H IH]; [done|].
  destruct H as [|n n' l k [Ho' _] H]; [done|].
  change ((seg_end m' <=? s_offset n') && ordered (n' :: k) =
          (seg_end m <=? s_offset n) && ordered (n :: l)).
  unfold seg_end. by rewrite IH, Ho, Hl, Ho'.
Qed.

Lemma load_index_decoded has_target raw n m :
  m ∈ load_index has_target raw n ->
  0 <= s_offset m < kInvalidOffset /\ 0 <= s_length m <= kMaxLength /\
  0 <= s_moffset m <= kMaxMoffset /\ 0 <= s_tag m < 256 /\ (has_target = false -> s_tag m = 0).
Proof.
  unfold load_index. intros (i & Hi & Hm)%list_elem_of_omap. case_if_in Hm; [done|].
  pose proof (load_segment_encodable raw (i * kEncodedSize)) as (H1 & H2 & H3 & H4).
  unfold kInvalidOffset in *. destruct has_target; injection Hm as <-; simpl in *; repeat split; lia || done.
Qed.

Lemma mapping_in_range_data hybrid e m :
  mapping_in_range hybrid e m = true -> s_zeroed m = false ->
  0 <= s_length m <= kMaxLength -> 0 <= s_moffset m <= kMaxMoffset ->
  s_moffset m + s_length m <= e.
Proof.
  unfold mapping_in_range, seg_mend, kMaxLength, kMaxMoffset. intros H Hz Hl Hm. rewrite Hz in H.
  bool_hyps. rewrite u64_small in * by lia. done.
Qed.

Section CheckMapping.
Context (hybrid : bool) (tht : HeaderTrailer) (file_size : Z) (m m' : segment_mapping).
Context (Hm : 0 <= s_offset m < kInvalidOffset /\ 0 <= s_length m <= kMaxLength /\
              0 <= s_moffset m <= kMaxMoffset /\ 0 <= s_tag m < 256).
Context (Hidx : 0 <= ht_index_offset tht <= file_size).

(** Both range checks bound a mapping by the metadata file. *)
Lemma in_range_mapping_ok size :
  mapping_in_range hybrid (ht_index_offset tht / kAlignment) m = true -> file_size <= size ->
  mapping_ok size (with_tag m 0).
Proof.
  intros Hr Hs. destruct Hm as (H1 & H2 & H3 & H4). unfold mapping_ok; simpl.
  unfold kMaxMoffset in *. repeat split; try lia. intros Hz.
  pose proof (mapping_in_range_data _ _ _ Hr Hz H2 H3) as He.
  pose proof (Z.mul_div_le (ht_index_offset tht) kAlignment ltac:(done)). unfold kAlignment in *. nia.
Qed.

Lemma check_mapping_plain tbase mtag :
  s_tag m = 0 -> check_mapping hybrid None tbase mtag tht m = Ok m' ->
  m' = m /\ mapping_ok file_size m' /\ (hybrid = true -> non_empty m').
Proof.
  intros Ht. unfold check_mapping, non_empty. case_if; [done|]. case_if; [|done]. intros [= <-].
  split; [done|]. split.
  - replace m with (with_tag m 0) by (destruct m; simpl in *; by subst). by apply in_range_mapping_ok.
  - intros ->. simpl in *. bool_hyps. lia.
Qed.

Lemma check_mapping_warp tsize mtag :
  0 <= file_size -> 0 <= tsize -> target_base file_size + tsize < 2 ^ 64 ->
  check_mapping hybrid (Some tsize) (target_base file_size) mtag tht m = Ok m' ->
  (s_offset m' = s_offset m /\ s_length m' = s_length m) /\ non_empty m' /\
  mapping_ok (target_base file_size + tsize) m'.
Proof.
  intros Hf Ht Hb. destruct Hm as (H1 & H2 & H3 & H4).
  assert (file_size <= target_base file_size /\
    target_base file_size = target_base file_size / kAlignment * kAlignment) as [Hfb Hal].
  { unfold target_base, kAlignment. rewrite Z.div_mul by lia. split; [|done].
    pose proof (Z.div_mod (file_size + 512 - 1) 512 ltac:(lia)).
    pose proof (Z.mod_pos_bound (file_size + 512 - 1) 512 ltac:(lia)). lia. }
  unfold check_mapping, non_empty. do 3 (case_if; [done|]).
  assert (0 < s_length m) as Hlen by lia.
  simpl. destruct (s_zeroed m) eqn:Hz.
  { intros [= <-]. simpl. split; [done|]. split; [done|]. unfold mapping_ok; simpl.
    unfold kMaxMoffset in *. repeat split; try lia. congruence. }
  case_if.
  - case_if; [done|]. intros [= <-]. simpl. split; [done|]. split; [done|].
    pose proof (Z.mul_div_le tsize kAlignment ltac:(done)).
    set (tb := target_base file_size / kAlignment) in *. unfold mapping_ok, kMaxMoffset, kAlignment in *; simpl.
    assert (0 <= tb) by (unfold tb; apply Z.div_pos; lia).
    rewrite u64_small by lia. repeat split; lia.
  - case_if; [|done]. intros [= <-]. simpl. split; [done|]. split; [done|].
    apply in_range_mapping_ok; [done|lia].
Qed.
End CheckMapping.

Lemma check_warp_ok file_size vs tsize b :
  check_warp file_size vs tsize = Ok b ->
  b = target_base file_size /\ target_base file_size + tsize < 2 ^ 64.
Proof. unfold check_warp. do 3 (case_if; [done|]). intros [= <-]. split; [done|lia]. Qed.

Lemma Forall2_elem_r {A B} (P : A -> B -> Prop) l k y :
  Forall2 P l k -> y ∈ k -> exists x, x ∈ l /\ P x y.
Proof.
  intros H [i Hi]%list_elem_of_lookup. destruct (Forall2_lookup_r _ _ _ _ _ H Hi) as (x & Hx & HP).
  exists x. split; [|done]. by eapply list_elem_of_lookup_2.
Qed.

(** A check that keeps the logical extents and establishes the mapping
    invariant turns an ordered list into a valid one. *)
Lemma checked_mappings f segs segs' size (P : Prop) :
  check_mappings f segs = Ok segs' -> ordered segs = true ->
  (forall m m', m ∈ segs -> f m = Ok m' ->
     (s_offset m' = s_offset m /\ s_length m' = s_length m) /\ mapping_ok size m' /\
     (P -> non_empty m')) ->
  Forall (mapping_ok size) segs' /\ ordered segs' = true /\ (P -> Forall non_empty segs').
Proof.
  intros Hc%check_mappings_Forall2 Ho Hf.
  assert (forall m', m' ∈ segs' -> mapping_ok size m' /\ (P -> non_empty m')) as Hall.
  { intros m' Hm'. destruct (Forall2_elem_r _ _ _ _ Hc Hm') as (m & Hm & Hk). by apply (Hf m m' Hm Hk). }
  split; [|split].
  - apply Forall_forall. intros m' Hm'. by apply Hall.
  - rewrite (ordered_ext segs); [done|]. rewrite Forall2_lookup in *. intros i. specialize (Hc i).
    destruct (segs !! i) eqn:Hs; inversion Hc; subst; constructor.
    eapply Hf; [by eapply list_elem_of_lookup_2|done].
  - intros HP. apply Forall_forall. intros m' Hm'. by apply Hall.
Qed.

Lemma target_base_nonneg n : 0 <= n -> 0 <= target_base n.
Proof. intros. unfold target_base, kAlignment. pose proof (Z.div_pos (n + 512 - 1) 512). lia. Qed.

Section OpenSound.
Context {W : Type} (src : BlobSource W) (target : option (BlobSource W)).
Context (Hsrc : 0 <= src_size src < 2 ^ 64).
Context (Htgt : forall t, target = Some t -> 0 <= src_size t < 2 ^ 64).

Definition opened (hybrid : bool) (l : LsmtLayer W) : Prop :=
  layer_ok l /\ (hybrid = true \/ target <> None -> Forall non_empty (l_segments l)) /\
  match target with
  | None => l_src l = src
  | Some t => l_src l = WarpSource src t (target_base (src_size src)) /\
              target_base (src_size src) + src_size t < 2 ^ 64
  end.

Lemma build_layer_sound hybrid tht raw l :
  0 <= ht_index_offset tht <= src_size src -> 0 <= ht_virtual_size tht < 2 ^ 64 ->
  build_layer src target hybrid tht raw = Ok l -> opened hybrid l.
Proof.
  intros Hi Hv. unfold build_layer, opened.
  set (segs := load_index _ _ _). destruct (ordered segs) eqn:Ho; [|done]. cbn [negb].
  pose proof (load_index_decoded (match target with Some _ => true | None => false end) raw (ht_index_size tht)) as Hd.
  change (load_index _ _ _) with segs in Hd.
  pose proof (target_base_nonneg (src_size src)).
  destruct target as [t|]; cbn [fmap option_fmap option_map].
  - specialize (Htgt t eq_refl).
    destruct (check_warp _ _ _) as [b|] eqn:Hw; [|done]. cbn [mbind res_bind].
    apply check_warp_ok in Hw as [-> Hb].
    destruct (check_mappings _ segs) as [segs'|] eqn:Hc; [|done]. cbn [mbind res_bind].
    intros [= <-]. simpl.
    assert (warp_size t (target_base (src_size src)) = target_base (src_size src) + src_size t)
      as Hws by (apply u64_small; lia).
    apply (checked_mappings _ _ _ (target_base (src_size src) + src_size t) True) in Hc
      as (H1 & H2 & H3); [|done|].
    + split; [split; simpl; rewrite ?Hws; done || lia|]. split; auto.
    + intros m m' Hm Hk. destruct (Hd m Hm) as (? & ? & ? & ? & _).
      apply check_mapping_warp in Hk; [tauto|done..|lia|lia|lia].
  - cbn [mbind res_bind].
    destruct (check_mappings _ segs) as [segs'|] eqn:Hc; [|done]. cbn [mbind res_bind].
    intros [= <-]. simpl.
    apply (checked_mappings _ _ _ (src_size src) (hybrid = true)) in Hc as (H1 & H2 & H3); [|done|].
    + split; [by split|]. split; [|done]. intros [Hh|Hn]; [by apply H3|done].
    + intros m m' Hm Hk. destruct (Hd m Hm) as (? & ? & ? & ? & Ht).
      apply (check_mapping_plain _ _ (src_size src)) in Hk as (-> & ? & ?); auto.
Qed.

Lemma check_headers_sound has_target size hht tht hybrid :
  check_headers has_target size hht tht = Ok hybrid -> ht_index_offset tht <= size - kSpace.
Proof. unfold check_headers. repeat (case_if; [done|]). intros _. lia. Qed.
End OpenSound.

Lemma check_headers_errno has_target size hht tht : res_errno (check_headers has_target size hht tht).
Proof. unfold check_headers. cbv zeta. res_errno. Qed.

Lemma check_mappings_errno f l : (forall m, res_errno (f m)) -> res_errno (check_mappings f l).
Proof. intros Hf. induction l as [|m l IH]; simpl; [done|]. by res_errno. Qed.

Lemma build_layer_errno {W} (src : BlobSource W) target hybrid tht raw :
  res_errno (build_layer src target hybrid tht raw).
Proof.
  unfold build_layer, check_warp. cbv zeta. case_if; [auto with errno|].
  apply res_errno_bind; [res_errno|]. intros b _. apply res_errno_bind; [|auto with errno].
  apply check_mappings_errno. intros m. unfold check_mapping. cbv zeta. res_errno.
Qed.

Lemma read_exact_errno {W} (src : BlobSource W) c o :
  SourceSafe src -> 0 <= c -> 0 <= o ->
  io_spec any_errno (read_exact src c o) (fun bs => zlen bs = c /\ Forall is_byte bs).
Proof.
  intros. eapply io_spec_E_mono; [by apply read_exact_safe|]. intros f ->. auto with errno.
Qed.

Lemma open_impl_sound {W} (src : BlobSource W) target :
  SourceSafe src -> (forall t, target = Some t -> 0 <= src_size t < 2 ^ 64) ->
  io_spec any_errno (open_impl (Some src) target) (fun l => exists h, opened src target h l).
Proof.
  intros Hs Ht. pose proof (safe_size (src := src)) as Hsz. unfold open_impl, kSpace.
  assert (forall A (Q : A -> Prop), io_spec (W := W) any_errno (io_lift format_error) Q) as Hfail.
  { intros A Q. apply io_spec_fail. auto with errno. }
  case_if; [apply Hfail|].
  eapply io_spec_bind; [apply read_exact_errno; done || lia|]. intros region [Hl Hb].
  eapply io_spec_bind; [by apply io_spec_lift_res with (Q := fun _ => True); [|apply parse_errno|]|].
  intros hht _. do 2 (case_if; [apply Hfail|]).
  eapply io_spec_bind; [apply read_exact_errno; done || lia|]. clear region Hl Hb. intros region [Hl Hb].
  eapply io_spec_bind; [by apply io_spec_lift_res; [|apply parse_errno|intros ? Hp; exact Hp]|].
  intros tht (Hio & His & Hvs)%parse_bounds; try done.
  eapply io_spec_bind;
    [by apply io_spec_lift_res; [|apply check_headers_errno|intros ? Hp; exact Hp]|].
  intros h Hoff%check_headers_sound. unfold kSpace in Hoff.
  eapply (io_spec_bind _ _ _ (fun _ => True)).
  { case_if; [|by apply io_spec_ret]. eapply io_spec_mono; [apply read_exact_errno; done || lia|done]. }
  intros raw _. apply io_spec_lift_res; [done|apply build_layer_errno|].
  intros l Hbl. exists h. eapply build_layer_sound; [..|exact Hbl]; done || lia.
Qed.

(** ** The properties of this component *)

Lemma block_spec_ext {W} E (src : BlobSource W) c c' :
  BlockSpec E src c -> (forall i, c i = c' i) -> BlockSpec E src c'.
Proof.
  intros [H1 H2 H3] Hc. split; [done|intros i; rewrite <- Hc; apply H2|].
  intros count off ????. eapply io_spec_mono; [by apply H3|]. simpl. intros bs ->.
  apply slice_ext. auto.
Qed.

Lemma merged_view_spec {W} E (layers : list (LsmtLayer W)) m cs :
  merged_open layers = Ok m ->
  Forall layer_ok layers -> Forall (fun l => Forall non_empty (l_segments l)) layers ->
  Forall2 (fun l c => SourceSpec E (l_src l) c) (reverse layers) cs ->
  m_vsize m mod 512 = 0 ->
  BlockSpec E (MergedSource m)
    (index_content (layer_extents (reverse layers) cs) (fun x =>
       within 0 kMaxOffset x (stack_resolve 0 (l_segments <$> reverse layers) x))).
Proof.
  intros Ho Hok Hne Hspec Hal.
  destruct (merged_open_ok layers m) as (Hm & Hl & Hr); [| |done|].
  { rewrite Forall_forall in *. intros l Hin. apply layer_index_ok; auto. }
  { eapply Forall_impl; [exact Hok|]. intros l Hlok. apply Hlok. }
  eapply block_spec_ext; [apply (merged_block_spec E m cs); by rewrite ?Hl|].
  intros i. unfold index_content. by rewrite Hl, Hr.
Qed.


(** Two overlapping layers over a constant blob. *)
Definition example_layer (vs : Z) (segs : list segment_mapping) : LsmtLayer unit :=
  Layer (fn_source 6144 (fun _ => 7)) (HT 390 6 6144 (zlen segs) vs [] [] 0 1 1 []) segs.
Definition example_stack : list (LsmtLayer unit) :=
  [example_layer 4096 [Seg 0 3 8 false 0; Seg 3 2 8 true 0];
   example_layer 8192 [Seg 2 2 9 false 0]].

Lemma example_layer_ok vs segs :
  0 <= vs < 2 ^ 64 -> Forall (mapping_ok 6144) segs -> ordered segs = true ->
  layer_ok (example_layer vs segs).
Proof. intros. split; simpl; [lia|done..]. Qed.

Ltac mappings_ok :=
  repeat constructor; simpl; unfold kMaxLength, kInvalidOffset, kMaxOffset, kAlignment; lia || done.

Lemma example_stack_ok :
  Forall layer_ok example_stack /\
  Forall (fun l => Forall non_empty (l_segments l)) example_stack /\
  Forall2 (fun l c => SourceSpec (fun _ => False) (l_src l) c) (reverse example_stack)
    [fun _ => 7; fun _ => 7].
Proof.
  split; [|split].
  - apply Forall_cons_2; [|apply Forall_singleton];
      apply example_layer_ok; try lia; try done; mappings_ok.
  - repeat constructor; unfold non_empty; simpl; lia.
  - assert (SourceSpec (fun _ => False) (@fn_source unit 6144 (fun _ => 7)) (fun _ => 7)) as Hc
      by (apply fn_source_spec; [lia|by split]).
    apply Forall2_cons_2; [exact Hc|apply Forall2_cons_2; [exact Hc|apply Forall2_nil_2]].
Qed.

Lemma merged_open_small {W} (layers : list (LsmtLayer W)) index v :
  0 < zlen layers <= kMaxStackLayers -> top_vsize (reverse layers) = v -> v <> 0 ->
  merge_indexes (l_segments <$> reverse layers) [] = Ok index -> zlen index < 65536 ->
  merged_open layers = Ok (Merged (reverse layers) index [] 0 v).
Proof.
  intros Hn <- Hv Hi Hl. unfold merged_open.
  rewrite (proj2 (Z.eqb_neq _ _)), (proj2 (Z.ltb_ge _ _)), (proj2 (Z.eqb_neq _ _)), Hi by lia.
  cbn [mbind res_bind]. by rewrite (proj2 (Z.leb_gt _ _)).
Qed.

Definition example_merged : MergedLsmt unit :=
  Merged (reverse example_stack)
    [Seg 0 2 8 false 1; Seg 2 2 9 false 0; Seg 4 1 8 true 1] [] 0 8192.

Lemma example_merged_open : merged_open example_stack = Ok example_merged.
Proof. apply merged_open_small; vm_compute; done. Qed.


(** C3. Opening a layer never reads outside a buffer and never accepts a
    mapping the view could not serve: over any well-behaved source it reports
    an errno or returns a layer whose mappings are ordered, tagged zero, free of
    the invalid offset and, when they carry data, inside the layer's source;
    Hybrid and warp layers hold no empty mapping, and a warp layer reads its
    target past the metadata without wrapping. *)
Theorem layer_open_sound W (src : BlobSource W) target :
  SourceSafe src -> (forall t, target = Some t -> 0 <= src_size t < 2 ^ 64) ->
  io_spec any_errno (open_impl (Some src) target) (fun l => exists h, opened src target h l).
Proof. apply open_impl_sound. Qed.

(** A sealed layer image with one data extent. *)
Definition example_header (flags : Z) : bytes :=
  match serialize (HT 390 flags 4608 1 8192 [97] [] 0 1 1 []) with Ok b => b | Err _ => [] end.
Definition example_image : bytes :=
  example_header 7 ++ replicate (Z.to_nat 512) 5 ++
  store_segment_le (zeros 16) 0 (Seg 1 1 8 false 3) ++ example_header 6.

Lemma layer_open_sound_witness :
  io_spec any_errno (open_impl (Some (@mem_source unit example_image)) None)
    (fun l => exists h, opened (@mem_source unit example_image) None h l) /\
  exists l, (open_impl (Some (@mem_source unit example_image)) None tt).1 = Ok l /\
    l_segments l = [Seg 1 1 8 false 0].
Proof.
  split.
  - apply layer_open_sound; [|discriminate].
    apply (spec_safe (fun _ => False) _ (bget example_image)); [|done].
    apply mem_source_spec; [|vm_compute; reflexivity].
    apply (Forall_impl (fun b => Is_true ((0 <=? b) && (b <? 256)))).
    + apply forallb_True. vm_compute. exact I.
    + unfold is_byte. intros b Hb. apply Is_true_true in Hb. bool_hyps. lia.
  - eexists. split; vm_compute; reflexivity.
Defined.

(** The two-level lookup of a large index (group directory, then binary
    search inside one group) finds the same entry as one binary search over the
    whole index, for every start sector. *)
Theorem lookup_directory_equiv W (layers : list (LsmtLayer W)) m x :
  merged_open layers = Ok m ->
  Forall layer_ok layers -> Forall (fun l => Forall non_empty (l_segments l)) layers ->
  lookup_first m x = upper_bound (fun s => x <? seg_end s) (m_index m).
Proof.
  intros Ho Hok Hne. destruct (merged_open_ok layers m) as ([Hi Hd _ _] & _); [| |done|].
  - rewrite Forall_forall in *. intros l Hin. apply layer_index_ok; auto.
  - eapply Forall_impl; [exact Hok|]. intros l Hlok. apply Hlok.
  - by apply lookup_first_spec.
Qed.

Lemma lookup_directory_equiv_witness :
  exists m, merged_open example_stack = Ok m /\
    lookup_first m 4 = upper_bound (fun s => 4 <? seg_end s) (m_index m).
Proof.
  exists example_merged. split; [apply example_merged_open|].
  apply (lookup_directory_equiv unit example_stack); [apply example_merged_open|apply example_stack_ok..].
Defined.

