(* ===== verification/Journal.v ===== *)
(** * The mapping journal of a writable layer ([format/lsmt_rw_index.{hpp,cpp}])

    [validate_pair], and [Replay], which folds the log of 16-byte records into
    the live index.  The replay is shown to compute "the last record covering a
    sector wins", to keep its index sorted and disjoint, and to accept exactly
    the records inside the payload. *)
From S2P Require Import Prelude Bytes LsmtFormat Source Segments Merge Trim.

Open Scope Z_scope.

Definition kMaxLogRecords : Z := 4 * kMaxRoIndexSize.

Definition is_xdigit (c : Z) : bool :=
  ((48 <=? c) && (c <=? 57)) || ((65 <=? c) && (c <=? 70)) || ((97 <=? c) && (c <=? 102)).

Fixpoint uuid_chars (i : Z) (uuid : bytes) : bool :=
  match uuid with
  | [] => true
  | c :: uuid =>
      (if (i =? 8) || (i =? 13) || (i =? 18) || (i =? 23) then c =? 45 else is_xdigit c) &&
      uuid_chars (i + 1) uuid
  end.
Definition valid_uuid (uuid : bytes) : bool := (zlen uuid =? 36) && uuid_chars 0 uuid.

Definition validate_pair (data index : HeaderTrailer) (data_bytes index_bytes : Z) : res Z :=
  if negb (ht_flags data =? 3) || negb (ht_flags index =? 1) ||
     negb (ht_version data =? 1) || negb (ht_version index =? 1) ||
     negb (ht_sub_version data =? 1) || negb (ht_sub_version index =? 1) ||
     negb (ht_reserved data =? 0) || negb (ht_reserved index =? 0)
  then format_error else
  if negb (valid_uuid (ht_uuid data)) || negb (bool_decide (ht_uuid data = ht_uuid index)) ||
     negb (bool_decide (ht_parent_uuid data = ht_parent_uuid index)) ||
     (negb (zlen (ht_parent_uuid data) =? 0) && negb (valid_uuid (ht_parent_uuid data))) ||
     negb (ht_virtual_size data =? ht_virtual_size index)
  then format_error else
  if (ht_virtual_size data =? 0) || negb (ht_virtual_size data mod kAlignment =? 0) ||
     (kMaxOffset <? ht_virtual_size data / kAlignment) ||
     (data_bytes <? kSpace) || negb (data_bytes mod kAlignment =? 0) ||
     (kMaxMoffset <=? data_bytes / kAlignment)
  then format_error else
  if negb (ht_index_offset data =? 0) || negb (ht_index_size data =? 0) ||
     negb (ht_index_offset index =? kSpace) || negb (ht_index_size index =? 0) ||
     (index_bytes <? kSpace) || negb ((index_bytes - kSpace) mod kEncodedSize =? 0)
  then format_error else
  let count := (index_bytes - kSpace) / kEncodedSize in
  if kMaxLogRecords <? count then format_error else Ok count.

(** ** Replay *)

(** [live_] is a map keyed by the start sector: the entries in key order. *)
Record Replay := Rp {
  rp_sectors : Z;
  rp_data_sectors : Z;
  rp_records : Z;
  rp_live : list segment_mapping;
}.

Definition replay_new (virtual_size data_bytes : Z) : res Replay :=
  let sectors := virtual_size / kAlignment in
  let data_sectors := data_bytes / kAlignment in
  if (virtual_size =? 0) || negb (virtual_size mod kAlignment =? 0) ||
     (kMaxOffset <? sectors) || (data_bytes <? kSpace) ||
     negb (data_bytes mod kAlignment =? 0) || (kMaxMoffset <=? data_sectors)
  then format_error else Ok (Rp sectors data_sectors 0 []).

(** Iterator position of the first entry the record may overlap. *)
Definition first_overlap (live : list segment_mapping) (off : Z) : nat :=
  let it := length (take_below off live) in
  match last (take it live) with
  | Some previous => if off <? seg_end previous then pred it else it
  | None => it
  end.

(** Replaces [m]'s range in the live map: erase the overlapped entries, put
    back what they leave outside, then the record. *)
Definition live_replace (live : list segment_mapping) (m : segment_mapping) : list segment_mapping :=
  let it := first_overlap live (s_offset m) in
  let overlapped := take_below (seg_end m) (drop it live) in
  let retained := concat (trim (s_offset m) (seg_end m) <$> overlapped) in
  let live := take it live ++ drop (it + length overlapped) live in
  emplace (foldl emplace live retained) m.

Definition replay_record (r : Replay) (m : segment_mapping) : res Replay :=
  if s_offset m =? kInvalidOffset then Ok r else
  if (s_length m =? 0) || (rp_sectors r <=? s_offset m) ||
     (u64 (rp_sectors r - s_offset m) <? s_length m)
  then format_error else
  if negb (s_zeroed m) &&
     ((s_moffset m <? kDataStartSector) || (rp_data_sectors r <=? s_moffset m) ||
      (u64 (rp_data_sectors r - s_moffset m) <? s_length m))
  then format_error else
  let m := Seg (s_offset m) (s_length m)
             (if s_zeroed m then kDataStartSector else s_moffset m) (s_zeroed m) 0 in
  let live := live_replace (rp_live r) m in
  if kMaxRoIndexSize <? zlen live then format_error
  else Ok (Rp (rp_sectors r) (rp_data_sectors r) (rp_records r) live).

Definition load_records (records : bytes) : list segment_mapping :=
  (fun i => load_segment_le records (i * kEncodedSize)) <$> seqZ 0 (zlen records / kEncodedSize).

Definition replay_append (r : Replay) (records : bytes) : res Replay :=
  if negb (zlen records mod kEncodedSize =? 0) ||
     (kMaxLogRecords - rp_records r <? zlen records / kEncodedSize)
  then format_error else
  res_fold replay_record
    (Rp (rp_sectors r) (rp_data_sectors r) (rp_records r + zlen records / kEncodedSize) (rp_live r))
    (load_records records).

(** The extents of the live data sorted by (start, end), as [std::sort] orders
    pairs; adjacent ones may not overlap. *)
Definition extent_le (a b : Z * Z) : bool :=
  (a.1 <? b.1) || ((a.1 =? b.1) && (a.2 <=? b.2)).
Fixpoint insert_extent (e : Z * Z) (l : list (Z * Z)) : list (Z * Z) :=
  match l with
  | [] => [e]
  | a :: l' => if extent_le e a then e :: l else a :: insert_extent e l'
  end.
Definition sort_extents (l : list (Z * Z)) : list (Z * Z) := foldr insert_extent [] l.
Fixpoint extents_disjoint (l : list (Z * Z)) : bool :=
  match l with
  | a :: ((b :: _) as l') => negb (b.1 <? a.2) && extents_disjoint l'
  | _ => true
  end.
Definition physical (l : list segment_mapping) : list (Z * Z) :=
  omap (fun m => if s_zeroed m then None else Some (s_moffset m, seg_mend m)) l.

Definition replay_finish (r : Replay) : res (list segment_mapping) :=
  if extents_disjoint (sort_extents (physical (rp_live r))) then Ok (rp_live r) else format_error.

(** ** The map update is the cut followed by the insertion *)

Lemma index_ok_app_r lo l k : index_ok lo (l ++ k) -> index_ok lo k.
Proof.
  rewrite index_ok_app. intros [Hl Hk]. eapply index_ok_mono; [|exact Hk].
  by apply index_ok_end_ge.
Qed.

Lemma foldl_emplace z A ret C :
  index_ok z (A ++ ret ++ C) -> foldl emplace (A ++ C) ret = A ++ ret ++ C.
Proof.
  revert A. induction ret as [|r ret IH]; intros A Hok; simpl; [done|].
  pose proof Hok as Hok'. apply index_ok_app in Hok' as [HA Hr]. simpl in Hr.
  apply index_ok_cons in Hr as (Hr & He & HrC).
  rewrite (emplace_between z) by (done || by eapply index_ok_app_r).
  rewrite (cons_middle r A C), app_assoc, IH; rewrite <- !app_assoc; done.
Qed.

Lemma cut_app lo hi l k : cut lo hi (l ++ k) = cut lo hi l ++ cut lo hi k.
Proof. induction l as [|s l IH]; simpl; [done|]. by rewrite IH, app_assoc. Qed.

Lemma cut_below lo hi l : Forall seg_ok l -> Forall (fun s => fin s <= lo) l -> cut lo hi l = l.
Proof.
  intros Hok Hl. induction Hl as [|s l Hs Hl IH]; simpl; [done|].
  apply Forall_cons in Hok as [Ho Hok]. unfold cut_one. rewrite seg_ok_end by done.
  rewrite (proj2 (Z.leb_le _ _)) by done. simpl. by rewrite IH.
Qed.
Lemma cut_above lo hi l : Forall (fun s => hi <= s_offset s) l -> cut lo hi l = l.
Proof.
  induction 1 as [|s l Hs Hl IH]; simpl; [done|]. unfold cut_one.
  rewrite (proj2 (Z.leb_le hi _)) by done. rewrite orb_true_r. simpl. by rewrite IH.
Qed.
Lemma cut_across lo hi l :
  Forall seg_ok l -> Forall (fun s => lo < fin s /\ s_offset s < hi) l ->
  cut lo hi l = concat (trim lo hi <$> l).
Proof.
  intros Hok Hl. induction Hl as [|s l [H1 H2] Hl IH]; simpl; [done|].
  apply Forall_cons in Hok as [Ho Hok]. unfold cut_one. rewrite seg_ok_end by done.
  rewrite (proj2 (Z.leb_gt _ _)), (proj2 (Z.leb_gt _ _)) by lia. simpl. by rewrite IH.
Qed.

Lemma index_ok_starts z l : index_ok z l -> Forall (fun s => z <= s_offset s) l.
Proof.
  revert z. induction l as [|s l IH]; intros z; [constructor|]. rewrite index_ok_cons.
  intros (Hs & Hz & Hl). constructor; [done|]. eapply Forall_impl; [by apply IH|].
  intros s' Hs'. destruct Hs as (_ & ? & _). unfold fin in *. simpl in *. lia.
Qed.
Lemma index_ok_ends z l : index_ok z l -> Forall (fun s => fin s <= end_from z l) l.
Proof.
  revert z. induction l as [|s l IH]; intros z; [constructor|]. rewrite index_ok_cons.
  intros (Hs & Hz & Hl). constructor; simpl; [by apply index_ok_end_ge|by apply IH].
Qed.

(** The entries whose start is below [off], and those from there on. *)
Lemma take_below_spec z l off :
  index_ok z l ->
  exists k, l = take_below off l ++ k /\ Forall (fun s => s_offset s < off) (take_below off l) /\
    Forall (fun s => off <= s_offset s) k.
Proof.
  revert z. induction l as [|s l IH]; intros z Hl; simpl; [by exists []|].
  apply index_ok_cons in Hl as (Hs & Hz & Hl). destruct (Z.ltb_spec (s_offset s) off).
  - destruct (IH _ Hl) as (k & Hk & H1 & H2). exists k. simpl. rewrite <- Hk. split; [done|].
    split; [by constructor|done].
  - exists (s :: l). split; [done|]. split; [constructor|]. constructor; [done|].
    eapply Forall_impl; [by apply index_ok_starts|]. intros s' Hs'. simpl in *.
    destruct Hs as (_ & ? & _). unfold fin in *. lia.
Qed.

(** Stepping back over a last entry that reaches past [off] separates the
    entries that end by [off] from the rest. *)
Lemma step_back_spec z b k off :
  index_ok z (b ++ k) -> Forall (fun s => s_offset s < off) b -> Forall (fun s => off <= s_offset s) k ->
  let it := match last b with
            | Some p => if off <? seg_end p then pred (length b) else length b
            | None => length b
            end in
  Forall (fun s => fin s <= off) (take it (b ++ k)) /\ Forall (fun s => off < fin s) (drop it (b ++ k)).
Proof.
  intros Hl H1 H2. apply index_ok_app in Hl as [Hb Hk].
  assert (Forall (fun s => off < fin s) k) as Hkf.
  { destruct Hk as [Hk _]. rewrite Forall_forall in *. intros s Hs. specialize (H2 s Hs).
    destruct (Hk s Hs) as (_ & ? & _). unfold fin. lia. }
  destruct b as [|p b' _] using rev_ind; [by split; [constructor|]|].
  rewrite last_snoc. apply index_ok_app in Hb as [Hb' Hp].
  apply index_ok_cons in Hp as (Hp & Hpe & _).
  assert (Forall (fun s => fin s <= s_offset p) b') as Hb'p.
  { eapply Forall_impl; [by apply index_ok_ends|]. simpl. intros s Hs. lia. }
  apply Forall_app in H1 as [_ H1]. apply Forall_cons in H1 as [H1 _].
  rewrite seg_ok_end by done. destruct (Z.ltb_spec off (fin p)); cbv zeta.
  - rewrite length_app. simpl. rewrite Nat.add_1_r. simpl.
    rewrite <- app_assoc, take_app_length, drop_app_length.
    split; [eapply Forall_impl; [exact Hb'p|]; simpl; lia|]. by constructor.
  - rewrite take_app_length, drop_app_length. split; [|done].
    apply Forall_app. split; [|by apply Forall_cons].
    eapply Forall_impl; [exact Hb'p|]. simpl. destruct Hp as (_ & ? & _). unfold fin in *. lia.
Qed.

Lemma first_overlap_spec z l off :
  index_ok z l ->
  let it := first_overlap l off in
  Forall (fun s => fin s <= off) (take it l) /\ Forall (fun s => off < fin s) (drop it l).
Proof.
  intros Hl. unfold first_overlap. destruct (take_below_spec z l off Hl) as (k & Hk & H1 & H2).
  assert (take (length (take_below off l)) l = take_below off l) as ->.
  { rewrite Hk at 2. apply take_app_length. }
  generalize dependent (take_below off l). intros b -> H1. by apply (step_back_spec z).
Qed.

Lemma live_replace_cut z l m :
  index_ok z l -> z <= s_offset m -> seg_ok m -> fin m <= kMaxOffset ->
  live_replace l m = emplace (cut (s_offset m) (fin m) l) m.
Proof.
  intros Hl Hz Hm Hf. unfold live_replace. rewrite seg_ok_end by done.
  destruct (first_overlap_spec z l (s_offset m) Hl) as [HA HB].
  set (it := first_overlap l (s_offset m)) in *.
  pose proof Hl as Hl'. rewrite <- (take_drop it l) in Hl'. apply index_ok_app in Hl' as [HlA HlB].
  destruct (take_below_spec _ _ (fin m) HlB) as (C & HC & H1 & H2).
  set (B := take_below (fin m) (drop it l)) in *. f_equal.
  assert (drop (it + length B) l = C) as ->.
  { rewrite <- drop_drop, HC. apply drop_app_length. }
  assert (cut (s_offset m) (fin m) l =
    take it l ++ concat (trim (s_offset m) (fin m) <$> B) ++ C) as Hcut.
  { rewrite <- (take_drop it l) at 1. rewrite HC, !cut_app.
    rewrite HC in HB, HlB. apply Forall_app in HB as [HB _]. destruct HlB as [HlB _].
    apply Forall_app in HlB as [HlB _].
    rewrite cut_below, cut_across, cut_above; try done; [|apply HlA].
    rewrite Forall_forall in *. auto. }
  rewrite Hcut. apply (foldl_emplace z). rewrite <- Hcut.
  destruct (cut_insert z l m Hl Hz Hm Hf) as (L & R & -> & HL & He & HR & Hok & _).
  apply index_ok_app. split; [done|]. eapply index_ok_mono; [|exact HR].
  destruct Hm as (_ & ? & _). unfold fin. lia.
Qed.

Lemma live_replace_spec z l m :
  index_ok z l -> z <= s_offset m -> seg_ok m -> fin m <= kMaxOffset ->
  index_ok z (live_replace l m) /\ replaces l m (live_replace l m).
Proof.
  intros Hl Hz Hm Hf. rewrite (live_replace_cut z) by done. by apply emplace_cut.
Qed.

(** ** What the replayed index means *)

(** A record as the replay stores it. *)
Definition normal (m : segment_mapping) : segment_mapping :=
  Seg (s_offset m) (s_length m) (if s_zeroed m then kDataStartSector else s_moffset m) (s_zeroed m) 0.

(** The log as a map: the last record covering a sector wins. *)
Definition log_step (c : cell) (m : segment_mapping) (x : Z) : cell :=
  if s_offset m =? kInvalidOffset then c else over (resolve [normal m] x) c.
Definition log_resolve (log : list segment_mapping) (x : Z) (c : cell) : cell :=
  foldl (fun c m => log_step c m x) c log.

(** The records a replay admits. *)
Definition record_ok (sectors data_sectors : Z) (m : segment_mapping) : Prop :=
  s_offset m = kInvalidOffset \/
  (0 < s_length m /\ s_offset m + s_length m <= sectors /\
   (s_zeroed m = false -> kDataStartSector <= s_moffset m /\ s_moffset m + s_length m <= data_sectors)).

(** Invariant of the live index, on what it says of each sector. *)
Record live_ok (sectors data_sectors : Z) (l : list segment_mapping) : Prop := {
  live_index : index_ok 0 l;
  live_untagged : Forall untagged l;
  live_bound : forall x, resolve l x <> Hole -> 0 <= x < sectors;
  live_payload : forall x t p, resolve l x = Data t p -> t = 0 /\ kDataStartSector <= p < data_sectors;
}.

Lemma cut_untagged lo hi l : Forall untagged l -> Forall untagged (cut lo hi l).
Proof.
  induction 1 as [|s l Hs Hl IH]; simpl; [constructor|]. apply Forall_app. split; [|done].
  unfold cut_one, trim. repeat case_if; simpl; repeat constructor; done.
Qed.
Lemma emplace_untagged l m : untagged m -> Forall untagged l -> Forall untagged (emplace l m).
Proof.
  intros Hm. induction 1 as [|s l Hs Hl IH]; simpl; [by repeat constructor|].
  repeat case_if; repeat constructor; done.
Qed.

Section ReplayRecord.
Context (sectors data_sectors : Z).
Context (Hs : 0 <= sectors <= kMaxOffset) (Hd : 0 <= data_sectors < kMaxMoffset).

Lemma normal_ok m :
  seg_encodable m -> record_ok sectors data_sectors m -> s_offset m <> kInvalidOffset ->
  seg_ok (normal m) /\ fin (normal m) <= sectors /\
  forall x, (resolve [normal m] x <> Hole -> 0 <= x < sectors) /\
    forall t p, resolve [normal m] x = Data t p -> t = 0 /\ kDataStartSector <= p < data_sectors.
Proof.
  intros (E1 & E2 & E3 & E4) [?|(H1 & H2 & H3)] Hi; [done|].
  unfold kMaxMoffset, kMaxLength, kMaxOffset, kDataStartSector in *.
  assert (seg_ok (normal m)) as Hok.
  { unfold seg_ok, normal, kMaxOffset, kMaxLength, kDataStartSector; simpl.
    destruct (s_zeroed m); [repeat split; done || lia|]. specialize (H3 eq_refl). repeat split; lia. }
  split; [done|]. split; [unfold fin; simpl; lia|]. intros x.
  unfold resolve, covers, seg_cell, fin, normal; simpl. split.
  - case_if; [lia|done].
  - intros t p. case_if; [|done]. destruct (s_zeroed m); [done|]. intros [= <- <-].
    specialize (H3 eq_refl). split; [done|]. lia.
Qed.

(** One admitted record. *)
Lemma live_replace_ok l m :
  live_ok sectors data_sectors l -> seg_encodable m -> record_ok sectors data_sectors m ->
  s_offset m <> kInvalidOffset ->
  live_ok sectors data_sectors (live_replace l (normal m)) /\
  forall x, resolve (live_replace l (normal m)) x = log_step (resolve l x) m x.
Proof.
  intros [Hi Hu Hb Hp] He Hr Hn. destruct (normal_ok m He Hr Hn) as (Hm & Hf & Hx).
  assert (0 <= s_offset (normal m)) as H0 by apply Hm.
  destruct (live_replace_spec 0 l (normal m) Hi H0 Hm ltac:(lia)) as [Hok Hrep].
  assert (forall x, resolve (live_replace l (normal m)) x = log_step (resolve l x) m x) as Hstep.
  { intros x. rewrite Hrep. unfold log_step. by rewrite (proj2 (Z.eqb_neq _ _)). }
  split; [|done]. split; [done| | |].
  - rewrite (live_replace_cut 0) by (done || lia). by apply emplace_untagged, cut_untagged.
  - intros x. rewrite Hrep. destruct (Hx x) as [H1 _].
    destruct (resolve [normal m] x); simpl; auto; intros _; apply H1; done.
  - intros x t p. rewrite Hrep. destruct (Hx x) as [_ H1].
    destruct (resolve [normal m] x) eqn:E; simpl; [apply Hp|done|apply H1].
Qed.

Lemma replay_record_spec r m :
  rp_sectors r = sectors -> rp_data_sectors r = data_sectors ->
  live_ok sectors data_sectors (rp_live r) -> seg_encodable m ->
  match replay_record r m with
  | Ok r' =>
      record_ok sectors data_sectors m /\ rp_sectors r' = sectors /\ rp_data_sectors r' = data_sectors /\
      live_ok sectors data_sectors (rp_live r') /\ zlen (rp_live r') <= Z.max kMaxRoIndexSize (zlen (rp_live r)) /\
      forall x, resolve (rp_live r') x = log_step (resolve (rp_live r) x) m x
  | Err f =>
      f = Errno EINVAL /\
      (~ record_ok sectors data_sectors m \/ kMaxRoIndexSize < zlen (live_replace (rp_live r) (normal m)))
  end.
Proof.
  intros Hrs Hrd Hl He. unfold replay_record, record_ok. pose proof He as (E1 & E2 & E3 & _).
  unfold kInvalidOffset, kMaxMoffset, kMaxLength, kMaxOffset in *. rewrite Hrs, Hrd.
  destruct (Z.eqb_spec (s_offset m) (2 ^ 50 - 1)) as [Hinv|Hinv].
  { cbv iota. split; [by left|]. split; [done|]. split; [done|]. split; [done|]. split; [lia|].
    intros x. unfold log_step, kInvalidOffset, kMaxOffset. by rewrite (proj2 (Z.eqb_eq _ _)). }
  destruct (_ || _) eqn:Hlog.
  { cbv iota beta delta [format_error]. split; [done|]. left. intros [?|(? & ? & _)]; [done|].
    apply orb_true_iff in Hlog as [Hlog|Hlog]; [apply orb_true_iff in Hlog as [Hlog|Hlog]|]; bool_hyps; try lia.
    destruct (decide (s_offset m < sectors)); [|lia]. rewrite u64_small in * by lia. lia. }
  bool_hyps. rewrite u64_small in * by lia.
  destruct (negb (s_zeroed m) && _) eqn:Hdat.
  { cbv iota beta delta [format_error]. split; [done|]. left. intros [?|(? & ? & Hd')]; [done|]. bool_hyps.
    specialize (Hd' ltac:(done)). unfold kDataStartSector in *.
    match goal with H : _ || _ = true |- _ =>
      apply orb_true_iff in H as [H|H]; [apply orb_true_iff in H as [H|H]|]; bool_hyps end; try lia.
    rewrite u64_small in * by lia. lia. }
  assert (record_ok sectors data_sectors m) as Hr.
  { right. split; [lia|]. split; [lia|]. intros Hz. rewrite Hz in Hdat. simpl in Hdat.
    bool_hyps. rewrite u64_small in * by lia. lia. }
  destruct (live_replace_ok (rp_live r) m Hl He Hr Hinv) as [Hok Hstep].
  change (Seg _ _ _ _ _) with (normal m).
  destruct (Z.ltb_spec kMaxRoIndexSize (zlen (live_replace (rp_live r) (normal m)))).
  - cbv iota beta delta [format_error]. split; [done|]. by right.
  - simpl. split; [apply Hr|]. split; [done|]. split; [done|]. split; [done|].
    split; [lia|done].
Qed.
End ReplayRecord.

Section ReplayLog.
Context (sectors data_sectors : Z).
Context (Hs : 0 <= sectors <= kMaxOffset) (Hd : 0 <= data_sectors < kMaxMoffset).

Definition replay_ok (r : Replay) : Prop :=
  rp_sectors r = sectors /\ rp_data_sectors r = data_sectors /\
  live_ok sectors data_sectors (rp_live r).

Lemma replay_fold_spec r log :
  replay_ok r -> Forall seg_encodable log ->
  match res_fold replay_record r log with
  | Ok r' =>
      Forall (record_ok sectors data_sectors) log /\ replay_ok r' /\
      forall x, resolve (rp_live r') x = log_resolve log x (resolve (rp_live r) x)
  | Err f => f = Errno EINVAL
  end.
Proof.
  intros Hr Hlog. revert r Hr. induction Hlog as [|m log Hm Hlog IH]; intros r Hr; simpl.
  { split; [constructor|]. by split. }
  destruct Hr as (H1 & H2 & H3).
  pose proof (replay_record_spec sectors data_sectors Hs Hd r m H1 H2 H3 Hm) as Hrec.
  destruct (replay_record r m) as [r1|f]; [|by destruct Hrec].
  destruct Hrec as (G1 & G2 & G3 & G4 & _ & G6).
  specialize (IH r1 (conj G2 (conj G3 G4))). destruct (res_fold replay_record r1 log) as [r'|f]; [|done].
  destruct IH as (I1 & I2 & I3). split; [by constructor|]. split; [done|].
  intros x. by rewrite I3, G6.
Qed.
End ReplayLog.

Lemma load_records_encodable bs : Forall seg_encodable (load_records bs).
Proof. apply Forall_fmap, Forall_true. intros i. apply load_segment_encodable. Qed.

Lemma load_segment_app_l a b p :
  0 <= p -> p + 16 <= zlen a -> load_segment_le (a ++ b) p = load_segment_le a p.
Proof.
  intros. unfold load_segment_le, load_u64_le. by rewrite !bget_app_l by lia.
Qed.
Lemma load_segment_app_r a b p :
  zlen a <= p -> load_segment_le (a ++ b) p = load_segment_le b (p - zlen a).
Proof.
  intros. unfold load_segment_le, load_u64_le. rewrite !bget_app_r by lia.
  repeat (f_equal; try lia).
Qed.

Lemma load_records_app a b :
  zlen a mod kEncodedSize = 0 -> load_records (a ++ b) = load_records a ++ load_records b.
Proof.
  unfold load_records, kEncodedSize. intros Ha. rewrite zlen_app.
  pose proof (Z.div_mod (zlen a) 16 ltac:(lia)) as Hda. rewrite Ha in Hda.
  pose proof (zlen_nonneg a). pose proof (zlen_nonneg b).
  set (na := zlen a / 16) in *.
  assert ((zlen a + zlen b) / 16 = na + zlen b / 16) as ->.
  { rewrite Hda at 1. rewrite Z.add_0_r, (Z.mul_comm 16), Z.div_add_l by lia. done. }
  assert (0 <= na) by lia. assert (0 <= zlen b / 16) by (apply Z.div_pos; lia).
  change (slice (fun i => load_segment_le (a ++ b) (i * 16)) 0 (na + zlen b / 16) =
    slice (fun i => load_segment_le a (i * 16)) 0 na ++
    slice (fun i => load_segment_le b (i * 16)) 0 (zlen b / 16)).
  rewrite slice_app by lia. f_equal.
  - apply slice_ext. intros i Hi. apply load_segment_app_l; lia.
  - rewrite Z.add_0_l. rewrite <- (Z.add_0_r na) at 1. rewrite <- slice_shift. apply slice_ext.
    intros i Hi. rewrite load_segment_app_r by lia. f_equal. lia.
Qed.

(** ** Aliasing *)

Definition apart (a b : Z * Z) : Prop := a.2 <= b.1 \/ b.2 <= a.1.
Fixpoint pairwise (l : list (Z * Z)) : Prop :=
  match l with [] => True | a :: l => Forall (apart a) l /\ pairwise l end.

#[export] Instance pairwise_proper : Proper (Permutation ==> iff) pairwise.
Proof.
  assert (forall l k, Permutation l k -> pairwise l -> pairwise k) as H.
  { induction 1 as [|a l k Hp IH|a b l|]; simpl; [done| |  |by auto].
    - intros [H1 H2]. split; [by rewrite <- Hp|auto].
    - rewrite !Forall_cons. unfold apart. intros ([[?|?] ?] & ? & ?); tauto. }
  intros l k Hp. split; apply H; [done|by symmetry].
Qed.

Lemma sort_extents_perm l : Permutation (sort_extents l) l.
Proof.
  induction l as [|e l IH]; simpl; [done|]. rewrite <- IH at 2. clear IH.
  generalize (sort_extents l) as k. clear l. induction k as [|a k IH]; simpl; [done|].
  case_if; [done|]. rewrite IH. apply perm_swap.
Qed.

Fixpoint starts_sorted (lo : Z) (l : list (Z * Z)) : Prop :=
  match l with [] => True | a :: l => lo <= a.1 /\ starts_sorted a.1 l end.

Lemma insert_extent_sorted e l lo :
  lo <= e.1 -> starts_sorted lo l -> starts_sorted lo (insert_extent e l).
Proof.
  revert lo. induction l as [|a l IH]; intros lo Hlo; simpl; [done|]. intros [H1 H2].
  unfold extent_le. case_if; simpl.
  - split; [done|]. split; [|done]. apply orb_true_iff in E as [E|E]; bool_hyps; lia.
  - split; [done|]. apply IH; [|done]. bool_hyps. lia.
Qed.

Lemma sort_extents_sorted l lo : Forall (fun e => lo <= e.1) l -> starts_sorted lo (sort_extents l).
Proof. induction 1; simpl; [done|]. by apply insert_extent_sorted. Qed.

(** The adjacent test on the sorted extents decides whether any two overlap. *)
Lemma extents_disjoint_pairwise l lo :
  starts_sorted lo l -> Forall (fun e => e.1 < e.2) l ->
  extents_disjoint l = true <-> pairwise l.
Proof.
  revert lo. induction l as [|a l IH]; intros lo Hs Hne; [done|].
  destruct Hs as [_ Hs]. apply Forall_cons in Hne as [Ha Hne]. specialize (IH _ Hs Hne).
  destruct l as [|b l]; [split; [intros _; split; [constructor|done]|done]|].
  change (extents_disjoint (a :: b :: l)) with (negb (b.1 <? a.2) && extents_disjoint (b :: l)).
  rewrite andb_true_iff, IH, negb_true_iff, Z.ltb_ge.
  change (pairwise (a :: b :: l)) with (Forall (apart a) (b :: l) /\ pairwise (b :: l)).
  split; intros [H1 H2]; (split; [|done]).
  - apply Forall_cons. split; [by left|]. destruct H2 as [H2 _]. destruct Hs as [_ Hs].
    clear -H1 H2 Hs Hne. apply Forall_cons in Hne as [Hb Hne].
    rewrite Forall_forall in *. intros c Hc. left. specialize (H2 c Hc).
    assert (b.1 <= c.1) as Hbc.
    { clear -Hs Hc. revert Hs. generalize b.1 as z. induction l as [|d l IH]; intros z; [by apply not_elem_of_nil in Hc|].
      intros [? ?]. apply elem_of_cons in Hc as [->|Hc]; [done|]. specialize (IH Hc _ H0). lia. }
    specialize (Hne c Hc). unfold apart in H2. lia.
  - apply Forall_cons in H1 as [H1 _]. apply Forall_cons in Hne as [Hb _]. destruct Hs as [Hab _].
    unfold apart in H1. lia.
Qed.

(** ** A finished index owns each payload sector once *)

Definition phys_inj (l : list segment_mapping) : Prop :=
  forall x y t u p, resolve l x = Data t p -> resolve l y = Data u p -> x = y.

Lemma resolve_data_inv l x t p :
  resolve l x = Data t p ->
  exists s, s ∈ l /\ s_zeroed s = false /\ s_offset s <= x < fin s /\ p = s_moffset s + (x - s_offset s).
Proof.
  induction l as [|s l IH]; simpl; [done|]. destruct (covers s x) eqn:Hc.
  - apply covers_true in Hc. unfold seg_cell. destruct (s_zeroed s) eqn:Hz; [done|]. intros [= <- <-].
    exists s. split; [apply list_elem_of_here|]. done.
  - intros H. destruct (IH H) as (s' & ? & ?). exists s'. split; [by apply list_elem_of_further|done].
Qed.

Lemma physical_extents l :
  Forall seg_ok l ->
  Forall (fun e => 0 <= e.1 /\ e.1 < e.2) (physical l) /\
  forall s, s ∈ l -> s_zeroed s = false -> (s_moffset s, s_moffset s + s_length s) ∈ physical l.
Proof.
  intros Hl. induction Hl as [|s l Hs Hl [IH1 IH2]]; [split; [constructor|by intros s ?%not_elem_of_nil]|].
  unfold physical in *; simpl. destruct (s_zeroed s) eqn:Hz.
  - split; [done|]. intros s' [-> |Hin]%elem_of_cons Hz'; [congruence|auto].
  - rewrite seg_ok_mend by done. pose proof Hs as (_ & ? & ? & _). split; [constructor; [simpl; lia|done]|].
    intros s' [-> |Hin]%elem_of_cons Hz'; [apply list_elem_of_here|apply list_elem_of_further; auto].
Qed.

Lemma pairwise_phys_inj z l : index_ok z l -> pairwise (physical l) <-> phys_inj l.
Proof.
  intros Hok. split.
  - revert z Hok. induction l as [|s l IH]; intros z Hok Hpw x y t u p; [done|].
    pose proof Hok as [Hsok _]. apply Forall_cons in Hsok as [Hs Hsok].
    apply index_ok_cons in Hok as (_ & _ & Hl). destruct (physical_extents l Hsok) as [_ Hin].
    unfold physical in Hpw. simpl in Hpw. fold (physical l) in Hpw.
    assert (pairwise (physical l)) as Hpl by (destruct (s_zeroed s); [done|apply Hpw]).
    assert (forall x y t u, covers s x = true -> covers s y = false ->
      resolve (s :: l) x = Data t p -> resolve (s :: l) y = Data u p -> False) as Hcross.
    { clear x y t u. intros x y t u Hcx Hcy Hx Hy. simpl in Hx, Hy. rewrite Hcx in Hx. rewrite Hcy in Hy.
      unfold seg_cell in Hx. destruct (s_zeroed s) eqn:Hz; [done|]. injection Hx as _ Hp.
      apply covers_true in Hcx. apply resolve_data_inv in Hy as (s' & Hs' & Hz' & Hc' & Hp').
      destruct Hpw as [Hap _]. rewrite Forall_forall in Hap.
      specialize (Hap _ (Hin s' Hs' Hz')). unfold apart in Hap. rewrite seg_ok_mend in Hap by done.
      simpl in Hap. unfold fin in *. lia. }
    destruct (covers s x) eqn:Hcx, (covers s y) eqn:Hcy; intros Hx Hy.
    + simpl in Hx, Hy. rewrite Hcx in Hx. rewrite Hcy in Hy. unfold seg_cell in *.
      destruct (s_zeroed s); [done|]. injection Hx as _ Hx. injection Hy as _ Hy. lia.
    + by destruct (Hcross x y t u).
    + by destruct (Hcross y x u t).
    + simpl in Hx, Hy. rewrite Hcx in Hx. rewrite Hcy in Hy. by eapply (IH _ Hl).
  - revert z Hok. induction l as [|s l IH]; intros z Hok Hinj; [done|].
    pose proof Hok as Hok'. apply index_ok_cons in Hok' as (Hs & Hz & Hl).
    assert (phys_inj l) as Hinj'.
    { intros x y t u p Hx Hy. apply (Hinj x y t u p);
        change (s :: l) with ([s] ++ l); rewrite resolve_app; simpl.
      - destruct (covers s x) eqn:Hc; [|done]. apply covers_true in Hc.
        rewrite (resolve_below _ l x Hl) in Hx by lia. done.
      - destruct (covers s y) eqn:Hc; [|done]. apply covers_true in Hc.
        rewrite (resolve_below _ l y Hl) in Hy by lia. done. }
    specialize (IH _ Hl Hinj'). unfold physical. simpl. fold (physical l).
    destruct (s_zeroed s) eqn:Hzs; [done|]. split; [|done].
    apply Forall_forall. intros [a b] Hab.
    unfold physical in Hab. apply list_elem_of_omap in Hab as (s' & Hs' & He).
    destruct (s_zeroed s') eqn:Hzs'; [done|].
    assert (seg_ok s') as Hso by (destruct Hl as [Hl _]; rewrite Forall_forall in Hl; auto).
    rewrite !seg_ok_mend in * by done. injection He as <- <-. unfold apart. simpl.
    destruct (decide (s_moffset s + s_length s <= s_moffset s')); [by left|].
    destruct (decide (s_moffset s' + s_length s' <= s_moffset s)); [by right|].
    exfalso. set (p := Z.max (s_moffset s) (s_moffset s')).
    pose proof Hs as (_ & ? & _). pose proof Hso as (_ & ? & _).
    assert (fin s <= s_offset s') as Hord.
    { pose proof (index_ok_starts _ _ Hl) as Hst. rewrite Forall_forall in Hst. auto. }
    pose proof (resolve_elem _ s _ (s_offset s + (p - s_moffset s)) Hok
      (list_elem_of_here s l) ltac:(unfold fin; lia)) as Hx.
    pose proof (resolve_elem _ s' _ (s_offset s' + (p - s_moffset s')) Hok
      (list_elem_of_further _ s _ Hs') ltac:(unfold fin; lia)) as Hy.
    unfold seg_cell in Hx, Hy. rewrite Hzs in Hx. rewrite Hzs' in Hy.
    pose proof (Hinj (s_offset s + (p - s_moffset s)) (s_offset s' + (p - s_moffset s'))
      (s_tag s) (s_tag s') p) as Heq.
    rewrite Hx, Hy in Heq. unfold fin in *.
    assert (s_offset s + (p - s_moffset s) = s_offset s' + (p - s_moffset s'))
      by (apply Heq; f_equal; lia). lia.
Qed.

(** [finish] reports aliasing exactly when two sectors share payload. *)
Lemma replay_finish_spec r :
  index_ok 0 (rp_live r) ->
  match replay_finish r with
  | Ok l => l = rp_live r /\ phys_inj l
  | Err f => f = Errno EINVAL /\ ~ phys_inj (rp_live r)
  end.
Proof.
  intros Hok. destruct (physical_extents (rp_live r) (proj1 Hok)) as [He _].
  assert (extents_disjoint (sort_extents (physical (rp_live r))) = true <-> phys_inj (rp_live r)) as Hiff.
  { assert (pairwise (sort_extents (physical (rp_live r))) <-> pairwise (physical (rp_live r))) as Hperm
      by (by rewrite sort_extents_perm).
    rewrite <- (pairwise_phys_inj 0 _ Hok), <- Hperm. apply (extents_disjoint_pairwise _ 0).
    - apply sort_extents_sorted. eapply Forall_impl; [exact He|]. simpl. lia.
    - rewrite sort_extents_perm. eapply Forall_impl; [exact He|]. simpl. lia. }
  unfold replay_finish. destruct (extents_disjoint _).
  - split; [done|]. by apply Hiff.
  - split; [done|]. intros H. apply Hiff in H. done.
Qed.

(** ** The properties of this component *)

Lemma live_ok_nil sectors data_sectors : live_ok sectors data_sectors [].
Proof. split; [apply index_ok_nil|constructor|done|done]. Qed.

Lemma replay_new_ok vs db r :
  replay_new vs db = Ok r -> 0 <= vs -> 0 <= db ->
  0 <= rp_sectors r <= kMaxOffset /\ 0 <= rp_data_sectors r < kMaxMoffset /\
  rp_sectors r = vs / kAlignment /\ rp_data_sectors r = db / kAlignment /\
  rp_records r = 0 /\ rp_live r = [].
Proof.
  unfold replay_new. case_if; [done|]. intros [= <-] Hv Hdb. simpl. bool_hyps.
  unfold kAlignment in *. pose proof (Z.div_pos vs 512). pose proof (Z.div_pos db 512).
  repeat split; lia.
Qed.

(** C15. Replaying a log accepts exactly records inside the device and the
    payload and computes the map "the last record covering a sector wins", as a
    sorted, disjoint index; [finish] then returns that index exactly when no two
    sectors share a payload sector.  Every failure is the format error. *)
Theorem replay_last_record_wins vs db log r0 :
  0 <= vs -> 0 <= db -> replay_new vs db = Ok r0 ->
  match replay_append r0 log with
  | Ok r =>
      Forall (record_ok (vs / kAlignment) (db / kAlignment)) (load_records log) /\
      live_ok (vs / kAlignment) (db / kAlignment) (rp_live r) /\
      (forall x, resolve (rp_live r) x = log_resolve (load_records log) x Hole) /\
      match replay_finish r with
      | Ok l => l = rp_live r /\ phys_inj l
      | Err f => f = Errno EINVAL /\ ~ phys_inj (rp_live r)
      end
  | Err f => f = Errno EINVAL
  end.
Proof.
  intros Hv Hdb Hnew. destruct (replay_new_ok vs db r0 Hnew Hv Hdb) as (H1 & H2 & H3 & H4 & _ & H6).
  unfold replay_append. case_if; [done|].
  pose proof (replay_fold_spec (vs / kAlignment) (db / kAlignment) ltac:(lia) ltac:(lia)
    (Rp (rp_sectors r0) (rp_data_sectors r0) (rp_records r0 + zlen log / kEncodedSize) (rp_live r0))
    (load_records log)) as Hf.
  destruct (res_fold _ _ _) as [r|f]; [|apply Hf].
  - destruct Hf as (G1 & (_ & _ & G2) & G3).
    { split; [done|]. split; [done|]. simpl. rewrite H6. apply live_ok_nil. }
    { apply load_records_encodable. }
    split; [done|]. split; [done|]. split.
    + intros x. rewrite G3. simpl. by rewrite H6.
    + apply replay_finish_spec, G2.
  - split; [done|]. split; [done|]. simpl. rewrite H6. apply live_ok_nil.
  - apply load_records_encodable.
Qed.

Lemma replay_last_record_wins_witness :
  let log := store_segment_le (store_segment_le (zeros 32) 0 (Seg 0 4 8 false 0)) 16 (Seg 1 2 12 false 9) in
  match replay_append (Rp 16 16 0 []) log with
  | Ok r =>
      Forall (record_ok (8192 / kAlignment) (8192 / kAlignment)) (load_records log) /\
      live_ok (8192 / kAlignment) (8192 / kAlignment) (rp_live r) /\
      (forall x, resolve (rp_live r) x = log_resolve (load_records log) x Hole) /\
      match replay_finish r with
      | Ok l => l = rp_live r /\ phys_inj l
      | Err f => f = Errno EINVAL /\ ~ phys_inj (rp_live r)
      end
  | Err f => f = Errno EINVAL
  end.
Proof. apply (replay_last_record_wins 8192 8192); [lia|lia|reflexivity]. Defined.

(** The record count is carried along and not consulted by the records. *)
Definition with_records (r : Replay) (n : Z) : Replay := Rp (rp_sectors r) (rp_data_sectors r) n (rp_live r).

Lemma replay_fold_records r n log :
  res_fold replay_record (with_records r n) log =
  match res_fold replay_record r log with Ok r' => Ok (with_records r' n) | Err f => Err f end /\
  forall f, res_fold replay_record r log = Err f -> f = Errno EINVAL.
Proof.
  revert r. induction log as [|m log IH]; intros r; simpl; [done|].
  assert (replay_record (with_records r n) m =
    match replay_record r m with Ok r' => Ok (with_records r' n) | Err f => Err f end) as ->.
  { unfold replay_record; simpl. repeat case_if; done. }
  destruct (replay_record r m) as [r'|f] eqn:Hr; [apply IH|]. split; [done|]. intros f' [= <-].
  unfold replay_record in Hr. revert Hr. repeat case_if; by intros [= <-].
Qed.

Lemma replay_fold_keeps r log r' :
  res_fold replay_record r log = Ok r' -> rp_records r' = rp_records r.
Proof.
  revert r. induction log as [|m log IH]; intros r; simpl; [by intros [= <-]|].
  destruct (replay_record r m) as [r1|] eqn:Hr; [|done]. intros H%IH. rewrite H. clear H IH.
  unfold replay_record in Hr. revert Hr. repeat case_if; by intros [= <-].
Qed.

(** Replay does not depend on how the log is cut into chunks of whole
    records: appending two chunks is appending their concatenation, failures
    included. *)
Theorem replay_append_chunks r a b :
  zlen a mod kEncodedSize = 0 -> zlen b mod kEncodedSize = 0 ->
  (r1 ← replay_append r a; replay_append r1 b) = replay_append r (a ++ b).
Proof.
  intros Ha Hb. unfold replay_append. rewrite zlen_app, load_records_app by done.
  assert ((zlen a + zlen b) mod kEncodedSize = 0) as Hab by (rewrite Zplus_mod, Ha, Hb; done).
  pose proof (Z.div_mod (zlen a) kEncodedSize ltac:(done)) as Hda. rewrite Ha in Hda.
  assert ((zlen a + zlen b) / kEncodedSize = zlen a / kEncodedSize + zlen b / kEncodedSize) as Hdiv.
  { rewrite Hda at 1. rewrite Z.add_0_r, (Z.mul_comm kEncodedSize), Z.div_add_l by done. done. }
  rewrite Ha, Hab, Hdiv. simpl.
  assert (0 <= zlen b / kEncodedSize) by (apply Z.div_pos; [apply zlen_nonneg|done]).
  set (na := zlen a / kEncodedSize) in *. set (nb := zlen b / kEncodedSize) in *.
  fold (with_records r (rp_records r + na)). fold (with_records r (rp_records r + (na + nb))).
  rewrite res_fold_app.
  destruct (replay_fold_records r (rp_records r + na) (load_records a)) as [-> He].
  destruct (replay_fold_records r (rp_records r + (na + nb)) (load_records a)) as [-> _].
  destruct (Z.ltb_spec (kMaxLogRecords - rp_records r) na).
  { rewrite (proj2 (Z.ltb_lt _ _)) by lia. done. }
  destruct (res_fold replay_record r (load_records a)) as [r1|f] eqn:Hr1; simpl.
  - rewrite Hb. simpl. apply replay_fold_keeps in Hr1.
    destruct (Z.ltb_spec (kMaxLogRecords - rp_records r) (na + nb)).
    + rewrite (proj2 (Z.ltb_lt _ _)) by (unfold nb in *; lia). done.
    + rewrite (proj2 (Z.ltb_ge _ _)) by (unfold nb in *; lia). f_equal. unfold with_records; simpl.
      f_equal. unfold nb. lia.
  - destruct (_ <? na + nb); [|done]. by rewrite (He f eq_refl).
Qed.

Lemma replay_append_chunks_witness :
  let a := store_segment_le (zeros 16) 0 (Seg 0 4 8 false 0) in
  let b := store_segment_le (zeros 16) 0 (Seg 1 2 9 true 0) in
  (r1 ← replay_append (Rp 16 16 0 []) a; replay_append r1 b) = replay_append (Rp 16 16 0 []) (a ++ b).
Proof. apply replay_append_chunks; reflexivity. Defined.
