(* ===== verification/FilePair.v ===== *)
(** * The writable pair of files ([format/lsmt_rw_file.{hpp,cpp}])

    A payload file and its mapping journal: opening with replay, appending one
    record with admission by the replay partition, flushing and compacting the
    journal.  The test hooks ([io_failure] and the boundary functions) are the
    identity in production builds; the failures they simulate are outcomes of
    the I/O script here. *)
From S2P Require Import Prelude Bytes Crc32c LsmtFormat Source File Segments Merge Trim Journal.

Open Scope Z_scope.

(** [data_fd_] and [index_fd_] are the files they refer to; [live_ranges_] is a
    map from start to end, in key order.  [p_grow] is the intent of a growth in
    the directory of the index. *)
Record FilePair := Pair {
  p_script : script;
  p_data : file;
  p_index : file;
  p_index_bytes : Z;
  p_poisoned : bool;
  p_header : HeaderTrailer;
  p_mappings : list segment_mapping;
  p_live_ranges : list (Z * Z);
  p_data_bytes : Z;
  p_growth_pending : bool;
  p_grow : option bytes;
}.

Definition set_script (p : FilePair) (s : script) : FilePair :=
  Pair s (p_data p) (p_index p) (p_index_bytes p) (p_poisoned p) (p_header p) (p_mappings p)
    (p_live_ranges p) (p_data_bytes p) (p_growth_pending p) (p_grow p).
Definition set_data (p : FilePair) (f : file) : FilePair :=
  Pair (p_script p) f (p_index p) (p_index_bytes p) (p_poisoned p) (p_header p) (p_mappings p)
    (p_live_ranges p) (p_data_bytes p) (p_growth_pending p) (p_grow p).
Definition set_index (p : FilePair) (f : file) : FilePair :=
  Pair (p_script p) (p_data p) f (p_index_bytes p) (p_poisoned p) (p_header p) (p_mappings p)
    (p_live_ranges p) (p_data_bytes p) (p_growth_pending p) (p_grow p).
Definition set_poisoned (p : FilePair) : FilePair :=
  Pair (p_script p) (p_data p) (p_index p) (p_index_bytes p) true (p_header p) (p_mappings p)
    (p_live_ranges p) (p_data_bytes p) (p_growth_pending p) (p_grow p).
Definition set_log (p : FilePair) (n : Z) (r : list (Z * Z)) : FilePair :=
  Pair (p_script p) (p_data p) (p_index p) n (p_poisoned p) (p_header p) (p_mappings p) r
    (p_data_bytes p) (p_growth_pending p) (p_grow p).
Definition set_growth (p : FilePair) (poisoned pending : bool) (h : HeaderTrailer) : FilePair :=
  Pair (p_script p) (p_data p) (p_index p) (p_index_bytes p) poisoned h (p_mappings p) (p_live_ranges p)
    (p_data_bytes p) pending (p_grow p).
Definition set_grow (p : FilePair) (g : option bytes) : FilePair :=
  Pair (p_script p) (p_data p) (p_index p) (p_index_bytes p) (p_poisoned p) (p_header p) (p_mappings p)
    (p_live_ranges p) (p_data_bytes p) (p_growth_pending p) g.

Definition healthy (p : FilePair) : bool := negb (p_poisoned p).

(** Takes the outcome of the next operation. *)
Definition pair_step : io FilePair outcome := fun p =>
  let '(o, s) := next_outcome (p_script p) in (Ok o, set_script p s).

(** An operation with no effect of its own here (a sync, a lock). *)
Definition pair_sync : io FilePair unit :=
  o ← pair_step; match o with Done => mret tt | Failed _ e => io_fail (Errno e) end.

(** [pwrite_exactly] on the payload and on the index. *)
Definition pair_write_data (bs : bytes) (off : Z) : io FilePair unit :=
  o ← pair_step;
  io_run (fun p => match o with
           | Done => (Ok tt, set_data p (file_write (p_data p) off bs))
           | Failed n e => (Err (Errno e), set_data p (file_write (p_data p) off (partial n bs)))
           end).
Definition pair_write_index (bs : bytes) (off : Z) : io FilePair unit :=
  o ← pair_step;
  io_run (fun p => match o with
           | Done => (Ok tt, set_index p (file_write (p_index p) off bs))
           | Failed n e => (Err (Errno e), set_index p (file_write (p_index p) off (partial n bs)))
           end).

(** ** Admission by the replay partition *)

Fixpoint ranges_below (off : Z) (l : list (Z * Z)) : list (Z * Z) :=
  match l with
  | r :: l => if r.1 <? off then r :: ranges_below off l else []
  | [] => []
  end.
Fixpoint range_emplace (l : list (Z * Z)) (r : Z * Z) : list (Z * Z) :=
  match l with
  | [] => [r]
  | a :: l' => if r.1 <? a.1 then r :: l
               else if r.1 =? a.1 then l
               else a :: range_emplace l' r
  end.

Definition ranges_first (l : list (Z * Z)) (off : Z) : nat :=
  let first := length (ranges_below off l) in
  match last (take first l) with
  | Some previous => if off <? previous.2 then pred first else first
  | None => first
  end.

(** What one overlapped range leaves: the loop's two [replacement.emplace]. *)
Definition range_trim (lo hi : Z) (r : Z * Z) : list (Z * Z) :=
  (if r.1 <? lo then [(r.1, lo)] else []) ++ (if hi <? r.2 then [(hi, r.2)] else []).

(** The entries erased, the replacement map, and the ranges afterwards. *)
Definition ranges_overlapped (l : list (Z * Z)) (m : segment_mapping) : list (Z * Z) :=
  ranges_below (seg_end m) (drop (ranges_first l (s_offset m)) l).
Definition ranges_replacement (l : list (Z * Z)) (m : segment_mapping) : list (Z * Z) :=
  range_emplace
    (foldl range_emplace [] (concat (range_trim (s_offset m) (seg_end m) <$> ranges_overlapped l m)))
    (s_offset m, seg_end m).
Definition ranges_replace (l : list (Z * Z)) (m : segment_mapping) : list (Z * Z) :=
  let first := ranges_first l (s_offset m) in
  let removed := length (ranges_overlapped l m) in
  foldl range_emplace (take first l ++ drop (first + removed) l) (ranges_replacement l m).

Definition encode_record (m : segment_mapping) : bytes := store_segment_le (zeros kEncodedSize) 0 m.

Definition log_records (p : FilePair) : Z := (p_index_bytes p - kSpace) / 16.

Definition pair_append (m : segment_mapping) : io FilePair unit := fun p =>
  if p_poisoned p then (Err (Errno EIO), p) else
  if kMaxLogRecords <=? log_records p then (Err (Errno EFBIG), p) else
  let l := p_live_ranges p in
  if kMaxRoIndexSize <?
     zlen l - zlen (ranges_overlapped l m) + zlen (ranges_replacement l m)
  then (Err (Errno EFBIG), p) else
  match pair_write_index (encode_record m) (p_index_bytes p) p with
  | (Ok _, p) => (Ok tt, set_log p (p_index_bytes p + kEncodedSize) (ranges_replace l m))
  | (Err f, p) => (Err f, set_poisoned p)
  end.

Definition pair_flush : io FilePair unit := fun p =>
  if p_poisoned p then (Err (Errno EIO), p) else
  (_ ← pair_sync; _ ← pair_sync; pair_sync) p.

(** ** Compaction of the journal *)

(** The ordering test and replay of the live mappings. *)
Fixpoint compact_replay (r : Replay) (previous : Z) (live : list segment_mapping) : res Replay :=
  match live with
  | [] => Ok r
  | m :: live =>
      if s_offset m <? previous then Err (Errno EINVAL)
      else r ← replay_append r (encode_record m); compact_replay r (seg_end m) live
  end.

(** One [write_exact] into the temporary file, which no one else sees. *)
Definition temp_write (f : file) (off : Z) (bs : bytes) : io FilePair file :=
  _ ← pair_sync; mret (file_write f off bs).

Fixpoint temp_write_records (f : file) (off : Z) (live : list segment_mapping)
    : io FilePair (file * Z) :=
  match live with
  | [] => mret (f, off)
  | m :: live => f ← temp_write f off (encode_record m); temp_write_records f (off + 16) live
  end.

Definition index_header (ht : HeaderTrailer) : HeaderTrailer :=
  HT (ht_size ht) 1 kSpace 0 (ht_virtual_size ht) (ht_uuid ht) (ht_parent_uuid ht)
    (ht_reserved ht) (ht_version ht) (ht_sub_version ht) (ht_user_tag ht).

Definition pair_compact (live : list segment_mapping) : io FilePair unit := fun p =>
  if p_poisoned p then (Err (Errno EIO), p) else
  if kMaxRoIndexSize <? zlen live then (Err (Errno EFBIG), p) else
  (_ ← pair_sync;                                   (* create the temporary *)
   _ ← pair_sync;                                   (* lock *)
   r ← io_lift (replay_new (ht_virtual_size (p_header p)) (f_size (p_data p)));
   r ← io_lift (compact_replay r 0 live);
   replayed ← io_lift (replay_finish r);
   let ranges := (fun m => (s_offset m, seg_end m)) <$> replayed in
   _ ← pair_sync;                                   (* payload before the log *)
   raw ← io_lift (serialize (index_header (p_header p)));
   f ← temp_write empty_file 0 raw;
   fo ← temp_write_records f kSpace live;
   _ ← pair_sync;                                   (* the new log *)
   _ ← pair_sync;                                   (* rename *)
   _ ← io_run (fun p => (Ok tt, set_log (set_index p fo.1) fo.2 ranges));
   pair_sync) p.                                    (* directory *)

(** ** Opening an existing pair *)

(** A pair whose files are there but not read yet. *)
Definition no_header : HeaderTrailer := HT 0 0 0 0 0 [] [] 0 0 0 [].
Definition unopened (s : script) (data index : file) (grow : option bytes) : FilePair :=
  Pair s data index 0 false no_header [] [] 0 false grow.

(** [read_exact]: a short file is [EIO]. *)
Definition disk_read (f : file) (off n : Z) : io FilePair bytes :=
  o ← pair_step;
  match o with
  | Done => let bs := file_read f off n in
            if zlen bs =? n then mret bs else io_fail (Errno EIO)
  | Failed _ e => io_fail (Errno e)
  end.

(** One record of a candidate sealed trailer's index; [None] ends the scan with
    "not sealed". *)
Definition sealed_record (tail : HeaderTrailer) (previous : Z) (m : segment_mapping) : option Z :=
  if s_offset m =? kInvalidOffset then Some previous else
  if (s_length m =? 0) || (s_offset m <? previous) ||
     (ht_virtual_size tail / kAlignment <? seg_end m) then None else
  let e := ht_index_offset tail / kAlignment in
  if (s_moffset m <? kDataStartSector) || (e <? s_moffset m) ||
     (negb (s_zeroed m) && ((s_moffset m =? e) || (u64 (e - s_moffset m) <? s_length m)))
  then None else Some (seg_end m).

Fixpoint sealed_records (f : file) (tail : HeaderTrailer) (n : nat) (i previous : Z) : io FilePair bool :=
  match n with
  | O => mret true
  | S n =>
      record ← disk_read f (ht_index_offset tail + 16 * i) 16;
      match sealed_record tail previous (load_segment_le record 0) with
      | None => mret false
      | Some previous => sealed_records f tail n (i + 1) previous
      end
  end.

(** The tests on a parsed trailer before its index is scanned. *)
Definition sealed_candidate (bytes : Z) (tail : HeaderTrailer) : bool :=
  negb (negb (ht_flags tail =? 6) || negb (ht_version tail =? 1) || negb (ht_sub_version tail =? 1) ||
        (ht_index_offset tail <? kSpace) || (bytes - kSpace <? ht_index_offset tail) ||
        (kMaxRoIndexSize <? ht_index_size tail) ||
        (u64 (bytes - kSpace - ht_index_offset tail) <? u64 (ht_index_size tail * 16)) ||
        negb (ht_virtual_size tail mod kAlignment =? 0)).

Definition sealed_trailer (f : file) : io FilePair bool :=
  let bytes := f_size f in
  if bytes <? 2 * kSpace then mret false else
  raw ← disk_read f (bytes - kSpace) kSpace;
  match parse raw with
  | Err _ => mret false
  | Ok tail =>
      if sealed_candidate bytes tail
      then sealed_records f tail (Z.to_nat (ht_index_size tail)) 0 0
      else mret false
  end.

(** The chunked replay of the log between the header and [index_bytes]. *)
Fixpoint replay_loop (fuel : nat) (f : file) (index_bytes off : Z) (r : Replay) : io FilePair Replay :=
  if off <? index_bytes then
    match fuel with
    | O => io_fail Fuel
    | S fuel =>
        let count := Z.min kSpace (index_bytes - off) in
        raw ← disk_read f off count;
        r ← io_lift (replay_append r raw);
        replay_loop fuel f index_bytes (off + count) r
    end
  else mret r.
Definition replay_fuel (index_bytes : Z) : nat := Z.to_nat (index_bytes / kSpace).

(** [ftruncate] of one of the files. *)
Definition disk_truncate (set : FilePair -> Z -> FilePair) (n : Z) : io FilePair unit :=
  o ← pair_step;
  io_run (fun d => match o with
                   | Done => (Ok tt, set d n)
                   | Failed _ e => (Err (Errno e), d)
                   end).

Definition round_up (n : Z) : Z := (n + kAlignment - 1) / kAlignment * kAlignment.

(** The repairs at the end of [open_sync]: the incomplete record is cut off, the
    incomplete sector of the payload is completed. *)
Definition pair_align (header : HeaderTrailer) (mappings : list segment_mapping) (index_bytes : Z)
    : io FilePair FilePair := fun d =>
  let aligned := round_up (f_size (p_data d)) in
  (_ ← (if f_size (p_index d) =? index_bytes then mret tt
        else disk_truncate (fun d n => set_index d (file_truncate (p_index d) n)) index_bytes);
   _ ← (if f_size (p_data d) =? aligned then mret tt
        else disk_truncate (fun d n => set_data d (file_truncate (p_data d) n)) aligned);
   io_run (fun d =>
     let ranges := (fun m => (s_offset m, seg_end m)) <$> mappings in
     let p := Pair (p_script d) (p_data d) (p_index d) index_bytes (p_poisoned d) header mappings ranges
                aligned (p_growth_pending d) (p_grow d) in
     (Ok p, p))) d.

(** ** The growth transaction *)

Definition kGrowMagic : Z := 0x31574f52474d534c.
Definition kGrowBytes : Z := 16 + 2 * kSpace + 4.

Definition with_virtual_size (ht : HeaderTrailer) (vs : Z) : HeaderTrailer :=
  HT (ht_size ht) (ht_flags ht) (ht_index_offset ht) (ht_index_size ht) vs (ht_uuid ht) (ht_parent_uuid ht)
    (ht_reserved ht) (ht_version ht) (ht_sub_version ht) (ht_user_tag ht).

(** The checksum of an intent, by either implementation of the CRC. *)
Definition intent_checksum (raw : bytes) : Z := crc32c false 0 raw.

(** The intent: magic, old capacity, the two headers to write, checksum. *)
Definition grow_intent (old_size : Z) (target target_index : HeaderTrailer) : res bytes :=
  let raw := store_u64_le (zeros kGrowBytes) 0 kGrowMagic in
  let raw := store_u64_le raw 8 old_size in
  h ← serialize target;
  let raw := put raw 16 h in
  ih ← serialize target_index;
  let raw := put raw (16 + kSpace) ih in
  Ok (store_u32_le raw (kGrowBytes - 4) (intent_checksum (ztake (kGrowBytes - 4) raw))).

Definition read_intent (raw : bytes) : res (Z * HeaderTrailer * HeaderTrailer) :=
  if negb (load_u64_le raw 0 =? kGrowMagic) ||
     negb (load_u32_le raw (kGrowBytes - 4) =? intent_checksum (ztake (kGrowBytes - 4) raw))
  then format_error else
  let old_size := load_u64_le raw 8 in
  target ← parse (sub 16 kSpace raw);
  target_index ← parse (sub (16 + kSpace) kSpace raw);
  if (old_size =? 0) || negb (old_size mod kAlignment =? 0) || (ht_virtual_size target <=? old_size)
  then format_error else Ok (old_size, target, target_index).

(** What a short forward write of the new capacity can leave: a prefix of its
    bytes and a suffix of the old one's. *)
Definition capacity_matches (current target old_size : Z) : bool :=
  existsb (fun prefix =>
    let mask := if prefix =? 8 then 2 ^ 64 - 1 else Z.shiftl 1 (8 * prefix) - 1 in
    current =? Z.lor (Z.land target mask) (Z.land old_size (Z.lxor mask (2 ^ 64 - 1)))) (seqZ 0 9).

(** A live header differs from the one the intent writes in capacity only. *)
Definition check_live_header (raw : bytes) (vs old_size : Z) (wanted : HeaderTrailer) : res unit :=
  header ← parse raw;
  if negb (capacity_matches (ht_virtual_size header) vs old_size) then format_error else
  normalized ← serialize (with_virtual_size header vs);
  wanted ← serialize wanted;
  if bool_decide (normalized = wanted) then Ok tt else format_error.

(** Validation of the intent and of the files it applies to. *)
Definition check_grow (raw : bytes) : io FilePair HeaderTrailer := fun p =>
  (intent ← io_lift (read_intent raw);
   let '(old_size, target, target_index) := intent in
   let vs := ht_virtual_size target in
   let data_size := f_size (p_data p) / kAlignment * kAlignment in
   let index_size := f_size (p_index p) in
   if index_size <? kSpace then io_lift format_error else
   let complete_index := kSpace + (index_size - kSpace) / 16 * 16 in
   _ ← io_lift (validate_pair target target_index data_size complete_index);
   current ← disk_read (p_data p) 0 kSpace;
   _ ← io_lift (check_live_header current vs old_size target);
   current ← disk_read (p_index p) 0 kSpace;
   _ ← io_lift (check_live_header current vs old_size target_index);
   replay ← io_lift (replay_new vs data_size);
   replay ← replay_loop (replay_fuel complete_index) (p_index p) complete_index kSpace replay;
   _ ← io_lift (replay_finish replay);
   mret target) p.

(** Rolling the published growth forward. *)
Definition roll_grow (raw : bytes) (target : HeaderTrailer) : io FilePair bool :=
  _ ← io_run (fun p => (Ok tt, set_growth p true true target));
  _ ← pair_write_data (sub 16 kSpace raw) 0;
  _ ← pair_write_index (sub (16 + kSpace) kSpace raw) 0;
  _ ← pair_sync;                                    (* the payload file *)
  _ ← pair_sync;                                    (* the index file *)
  _ ← pair_sync;                                    (* unlink the intent *)
  _ ← io_run (fun p => (Ok tt, set_grow p None));
  _ ← pair_sync;                                    (* directory *)
  io_run (fun p => (Ok true, set_growth p false false target)).

Definition recover_grow : io FilePair bool := fun p =>
  match p_grow p with
  | None => (Ok false, p)
  | Some raw =>
      (_ ← pair_sync;                               (* open the intent *)
       if negb (zlen raw =? kGrowBytes) then io_lift format_error else
       _ ← pair_sync;                               (* read it *)
       target ← check_grow raw;
       roll_grow raw target) p
  end.

(** Writing the intent aside and publishing its name. *)
Definition publish_grow (virtual_size : Z) : io FilePair unit := fun p =>
  (raw ← disk_read (p_index p) 0 kSpace;
   ih ← io_lift (parse raw);
   _ ← io_lift (validate_pair (p_header p) ih (f_size (p_data p)) (p_index_bytes p));
   raw ← io_lift (grow_intent (ht_virtual_size (p_header p)) (with_virtual_size (p_header p) virtual_size)
                    (with_virtual_size ih virtual_size));
   _ ← pair_sync;                                   (* create the temporary *)
   _ ← pair_sync;                                   (* write it *)
   _ ← pair_sync;                                   (* sync it *)
   _ ← pair_sync;                                   (* link it, never replacing *)
   _ ← io_run (fun p => match p_grow p with
                        | Some _ => (Err (Errno EEXIST), p)
                        | None => (Ok tt, set_growth (set_grow p (Some raw)) true true (p_header p))
                        end);
   pair_sync) p.                                    (* directory *)

Definition pair_grow (virtual_size : Z) : io FilePair unit := fun p =>
  if p_poisoned p && negb (p_growth_pending p) then (Err (Errno EIO), p) else
  (_ ← (if p_growth_pending p then
          _ ← recover_grow;
          _ ← pair_sync;
          io_run (fun p => (Ok tt, set_growth p false false (p_header p)))
        else mret tt);
   io_run (fun p =>
     if (virtual_size =? 0) || negb (virtual_size mod kAlignment =? 0) ||
        (kMaxOffset <? virtual_size / kAlignment) || (virtual_size <? ht_virtual_size (p_header p))
     then (Err (Errno EINVAL), p) else
     if virtual_size =? ht_virtual_size (p_header p) then (Ok tt, p) else
     (_ ← publish_grow virtual_size; _ ← recover_grow; mret tt) p)) p.

(** ** Opening *)

(** The rest of [open_sync] once the intents are settled. *)
Definition pair_load (data_bytes index_size : Z) : io FilePair FilePair := fun d =>
  let header := p_header d in
  (raw ← disk_read (p_index d) 0 kSpace;
   ih ← io_lift (parse raw);
   let index_bytes := kSpace + (index_size - kSpace) / 16 * 16 in
   let complete_data := data_bytes / kAlignment * kAlignment in
   _ ← io_lift (validate_pair header ih complete_data index_bytes);
   replay ← io_lift (replay_new (ht_virtual_size header) complete_data);
   replay ← replay_loop (replay_fuel index_bytes) (p_index d) index_bytes kSpace replay;
   mappings ← io_lift (replay_finish replay);
   pair_align header mappings index_bytes) d.

(** [open_sync] of a pair whose creation is complete. *)
Definition pair_open : io FilePair FilePair := fun d =>
  let data_bytes := f_size (p_data d) in
  (if data_bytes <? kSpace then io_lift format_error else
   raw ← disk_read (p_data d) 0 kSpace;
   header ← io_lift (parse raw);
   _ ← io_run (fun d => (Ok tt, set_growth d (p_poisoned d) (p_growth_pending d) header));
   sealed ← (if is_sealed header then mret true else sealed_trailer (p_data d));
   if (sealed : bool) then io_fail (Errno EALREADY) else
   let index_size := f_size (p_index d) in
   if index_size <? kSpace then io_lift format_error else
   _ ← recover_grow;
   pair_load data_bytes index_size) d.

(** ** The admission partition is the replay partition *)

Definition rng (s : segment_mapping) : Z * Z := (s_offset s, seg_end s).

Lemma ranges_below_fmap off l : ranges_below off (rng <$> l) = rng <$> take_below off l.
Proof. induction l as [|s l IH]; csimpl; [done|]. case_if; csimpl; [by rewrite IH|done]. Qed.

Lemma range_emplace_fmap l m : range_emplace (rng <$> l) (rng m) = rng <$> emplace l m.
Proof.
  induction l as [|s l IH]; csimpl; [done|]. repeat case_if; csimpl; try done. by rewrite IH.
Qed.

Lemma range_emplaces_fmap l k : foldl range_emplace (rng <$> l) (rng <$> k) = rng <$> foldl emplace l k.
Proof.
  revert l. induction k as [|m k IH]; intros l; csimpl; [done|]. by rewrite range_emplace_fmap, IH.
Qed.

Lemma ranges_first_fmap l off : ranges_first (rng <$> l) off = first_overlap l off.
Proof.
  unfold ranges_first, first_overlap. rewrite ranges_below_fmap, length_fmap, <- fmap_take, fmap_last.
  by destruct (last _).
Qed.

Lemma range_trim_fmap lo hi s :
  seg_ok s -> lo < fin s -> s_offset s < hi -> hi <= kMaxOffset ->
  range_trim lo hi (rng s) = rng <$> trim lo hi s.
Proof.
  intros Hs Hlo Hhi Hm. unfold range_trim, trim. rewrite fmap_app. simpl. rewrite seg_ok_end by done.
  f_equal.
  - destruct (Z.ltb_spec (s_offset s) lo); [|done].
    destruct (trim_head_ok lo s) as (Hok & Hf & Ho & _); [done|lia|]. simpl. unfold rng.
    by rewrite seg_ok_end, Ho, Hf.
  - destruct (Z.ltb_spec hi (fin s)); [|done].
    destruct (trim_tail_ok hi s) as (Hok & Hf & Ho & _); [done|lia|done|]. simpl. unfold rng.
    by rewrite seg_ok_end, Ho, Hf.
Qed.

Section Partition.
Context (z : Z) (l : list segment_mapping) (m : segment_mapping).
Context (Hl : index_ok z l) (Hz : z <= s_offset m) (Hm : seg_ok m) (Hf : fin m <= kMaxOffset).

(** The three parts of the map around the record. *)
Lemma overlap_split :
  let it := first_overlap l (s_offset m) in
  let B := take_below (seg_end m) (drop it l) in
  exists A C L R, l = A ++ B ++ C /\ A = take it l /\ C = drop (it + length B) l /\
    Forall (fun s => seg_ok s /\ s_offset m < fin s /\ s_offset s < fin m) B /\
    concat (trim (s_offset m) (fin m) <$> B) = L ++ R /\
    index_ok z (A ++ (L ++ m :: R) ++ C) /\
    live_replace l m = A ++ (L ++ m :: R) ++ C.
Proof.
  intros it B. destruct (first_overlap_spec z l (s_offset m) Hl) as [HA HB]. fold it in HA, HB.
  pose proof Hl as Hl'. rewrite <- (take_drop it l) in Hl'. apply index_ok_app in Hl' as [HlA HlB].
  unfold B. rewrite seg_ok_end by done. fold B.
  destruct (take_below_spec _ _ (fin m) HlB) as (C & HC & H1 & H2).
  set (B' := take_below (fin m) (drop it l)) in *.
  assert (C = drop (it + length B') l) as HCd by (rewrite <- drop_drop, HC; by rewrite drop_app_length).
  pose proof HlB as HlBC. rewrite HC in HlBC. apply index_ok_app in HlBC as [HlB' HlC].
  rewrite HC in HB. apply Forall_app in HB as [HB' _].
  assert (Forall (fun s => seg_ok s /\ s_offset m < fin s /\ s_offset s < fin m) B') as HBall.
  { destruct HlB' as [Hso _]. rewrite Forall_forall in *. auto. }
  assert (end_from z (take it l) <= s_offset m) as HeA.
  { destruct (take it l) as [|s A0] using rev_ind; [done|]. rewrite end_from_snoc.
    apply Forall_app in HA as [_ HA]. by apply Forall_cons in HA as [HA _]. }
  destruct (cut_insert (end_from z (take it l)) B' m) as (L & R & HLR & HL & HeL & HR & Hok & Hrep); try done.
  pose proof (cut_across (s_offset m) (fin m) B' (proj1 HlB')) as Hac. rewrite Hac in HLR
    by (eapply Forall_impl; [exact HBall|]; simpl; tauto).
  assert (end_from (end_from z (take it l)) (L ++ m :: R) <=
    Z.max (fin m) (end_from (end_from z (take it l)) B')) as Hend.
  { apply index_end_bound; [done|pose proof (index_ok_end_ge _ _ HlB'); lia|].
    intros x Hx. rewrite Hrep, (resolve_above _ B' x HlB') by lia. simpl.
    by rewrite (proj2 (covers_false m x)) by lia. }
  assert (index_ok z (take it l ++ (L ++ m :: R) ++ C)) as Htot.
  { apply index_ok_app. split; [done|]. apply index_ok_app. split; [done|].
    eapply index_ok_mono; [exact Hend|]. eapply index_ok_raise; [exact HlC|].
    pose proof (index_ok_starts _ _ HlC) as Hst. rewrite Forall_forall in *. intros s Hs.
    specialize (Hst s Hs). specialize (H2 s Hs). simpl in *. lia. }
  exists (take it l), C, L, R. split; [rewrite <- HC; by rewrite take_drop|]. split; [done|]. split; [done|].
  split; [done|]. split; [done|]. split; [done|].
  assert (cut (s_offset m) (fin m) l = (take it l ++ L) ++ (R ++ C)) as Hcut.
  { rewrite <- (take_drop it l) at 1. rewrite HC, !cut_app, cut_below, Hac, HLR, cut_above;
      [by rewrite <- !app_assoc|done| |apply HlA|done].
    eapply Forall_impl; [exact HBall|]. simpl. tauto. }
  rewrite (live_replace_cut z), Hcut by done.
  assert ((take it l ++ (L ++ m :: R) ++ C) = (take it l ++ L) ++ m :: (R ++ C)) as Hre
    by (rewrite <- !app_assoc; done).
  rewrite Hre in Htot |- *. apply index_ok_app in Htot as [HAL HmR].
  apply index_ok_cons in HmR as (_ & He' & HRC). by apply (emplace_between z).
Qed.

(** The bookkeeping of [append] follows the replay's map exactly, and the size
    it checks is the size the map will have. *)
Lemma ranges_replace_mirror :
  ranges_replace (rng <$> l) m = rng <$> live_replace l m /\
  zlen l - zlen (ranges_overlapped (rng <$> l) m) + zlen (ranges_replacement (rng <$> l) m) =
    zlen (live_replace l m).
Proof.
  destruct overlap_split as (A & C & L & R & Hall & HA & HC & HB & Htr & Hok & Hlr).
  unfold ranges_replace, ranges_overlapped. rewrite ranges_first_fmap.
  rewrite <- fmap_take, <- !fmap_drop, ranges_below_fmap, length_fmap.
  set (it := first_overlap l (s_offset m)) in *. set (B := take_below (seg_end m) (drop it l)) in *.
  assert (ranges_replacement (rng <$> l) m = rng <$> (L ++ m :: R)) as Hrep.
  { unfold ranges_replacement, ranges_overlapped. rewrite ranges_first_fmap, <- fmap_drop, ranges_below_fmap.
    fold it. fold B.
    assert (concat (range_trim (s_offset m) (seg_end m) <$> (rng <$> B)) = rng <$> (L ++ R)) as ->.
    { rewrite <- Htr, seg_ok_end by done. clear -HB Hf. induction HB as [|s B (H1 & H2 & H3) HB IH]; [done|].
      csimpl. rewrite fmap_app. by rewrite range_trim_fmap, IH. }
    pose proof (range_emplaces_fmap [] (L ++ R)) as Hfe. simpl in Hfe. rewrite Hfe.
    change (s_offset m, seg_end m) with (rng m). rewrite range_emplace_fmap. f_equal.
    apply index_ok_app in Hok as [_ Hok]. apply index_ok_app in Hok as [Hok _].
    apply index_ok_app in Hok as [HL HmR]. apply index_ok_cons in HmR as (_ & He & HR).
    pose proof (foldl_emplace (end_from z A) [] (L ++ R) []) as Hfo. rewrite app_nil_r in Hfo. simpl in Hfo.
    rewrite Hfo; [by apply (emplace_between (end_from z A))|].
    apply index_ok_app. split; [done|]. eapply index_ok_mono; [|exact HR].
    destruct Hm as (_ & ? & _). unfold fin. lia. }
  rewrite Hrep. split.
  - rewrite <- HA, <- HC, <- fmap_app, range_emplaces_fmap, Hlr. f_equal. by apply (foldl_emplace z).
  - rewrite Hlr. rewrite Hall at 1. len.
Qed.
End Partition.

(** ** The log as records *)

Definition encode_log (log : list segment_mapping) : bytes := concat (encode_record <$> log).
Definition log_live (log : list segment_mapping) : list segment_mapping :=
  foldl (fun l m => live_replace l (normal m)) [] log.

Lemma zlen_encode_record m : seg_encodable m -> zlen (encode_record m) = 16.
Proof. intros. unfold encode_record. rewrite zlen_store_segment; done || by len. Qed.

Lemma load_encode_record m : seg_encodable m -> load_segment_le (encode_record m) 0 = m.
Proof. intros. apply load_store_segment; [apply zeros_byte|done..]. Qed.

Lemma encode_log_cons m log : encode_log (m :: log) = encode_record m ++ encode_log log.
Proof. done. Qed.

Lemma zlen_encode_log log : Forall seg_encodable log -> zlen (encode_log log) = 16 * zlen log.
Proof.
  induction 1 as [|m log Hm Hl IH]; [done|].
  rewrite encode_log_cons, zlen_app, zlen_encode_record, IH, zlen_cons by done. lia.
Qed.

Lemma encode_log_snoc log m : encode_log (log ++ [m]) = encode_log log ++ encode_record m.
Proof.
  induction log as [|a log IH]; [apply app_nil_r|].
  change ((a :: log) ++ [m]) with (a :: log ++ [m]).
  by rewrite !encode_log_cons, IH, app_assoc.
Qed.

Lemma load_encode_log log : Forall seg_encodable log -> load_records (encode_log log) = log.
Proof.
  induction 1 as [|m log Hm Hl IH]; [done|].
  rewrite encode_log_cons, load_records_app by (by rewrite zlen_encode_record). rewrite IH.
  unfold load_records. rewrite zlen_encode_record by done.
  change (16 / kEncodedSize) with 1. change (seqZ 0 1) with [0]. csimpl.
  by rewrite Z.mul_0_l, load_encode_record.
Qed.

Lemma log_live_snoc log m : log_live (log ++ [m]) = live_replace (log_live log) (normal m).
Proof. unfold log_live. by rewrite foldl_app. Qed.

Lemma record_ok_mono sectors sectors' d d' m :
  record_ok sectors d m -> sectors <= sectors' -> d <= d' -> record_ok sectors' d' m.
Proof.
  intros [?|(H1 & H2 & H3)] ??; [by left|right]. split; [done|]. split; [lia|].
  intros Hz. specialize (H3 Hz). lia.
Qed.

(** A pair without an unfinished growth. *)
Definition settled (p : FilePair) : Prop :=
  p_poisoned p = false /\ p_growth_pending p = false /\ p_grow p = None.

(** Only the script advanced. *)
Definition same_files (d d' : FilePair) : Prop := exists s, d' = set_script d s.

Lemma same_files_refl d : same_files d d.
Proof. exists (p_script d). by destruct d. Qed.
Lemma same_files_trans d d1 d2 : same_files d d1 -> same_files d1 d2 -> same_files d d2.
Proof. intros [s ->] [s2 ->]. by exists s2. Qed.
#[export] Hint Resolve same_files_refl : core.

Section LogLive.
Context (sectors dsec : Z).
Context (Hs : 0 <= sectors <= kMaxOffset) (Hd : 0 <= dsec < kMaxMoffset).

(** A record that names a real range of the device. *)
Definition live_record (m : segment_mapping) : Prop :=
  seg_encodable m /\ s_offset m <> kInvalidOffset /\ record_ok sectors dsec m.

Lemma log_live_ok log :
  Forall live_record log ->
  live_ok sectors dsec (log_live log) /\
  forall x, resolve (log_live log) x = log_resolve log x Hole.
Proof.
  induction log as [|m log IH] using rev_ind; intros Hl.
  { split; [apply live_ok_nil|done]. }
  apply Forall_app in Hl as [Hl Hm]. apply Forall_cons in Hm as [(He & Hn & Hr) _].
  destruct (IH Hl) as [Hok Hres]. rewrite log_live_snoc.
  destruct (live_replace_ok sectors dsec Hs Hd _ m Hok He Hr Hn) as [Hok' Hstep].
  split; [done|]. intros x. rewrite Hstep, Hres. unfold log_resolve. by rewrite foldl_app.
Qed.

Lemma log_append_mirror log m :
  Forall live_record (log ++ [m]) ->
  ranges_replace (rng <$> log_live log) m = rng <$> log_live (log ++ [m]) /\
  zlen (log_live log) - zlen (ranges_overlapped (rng <$> log_live log) m) +
    zlen (ranges_replacement (rng <$> log_live log) m) = zlen (log_live (log ++ [m])).
Proof.
  intros Hl. apply Forall_app in Hl as [Hl Hm]. apply Forall_cons in Hm as [(He & Hn & Hr) _].
  destruct (log_live_ok log Hl) as [[Hi _ _ _] _].
  destruct (normal_ok sectors dsec Hd m He Hr Hn) as (Hok & Hf & _).
  rewrite log_live_snoc.
  destruct (ranges_replace_mirror 0 (log_live log) (normal m) Hi (proj1 (proj1 Hok)) Hok ltac:(lia)) as [H1 H2].
  (* the bookkeeping looks at the logical range only *)
  change (ranges_replace (rng <$> log_live log) m) with (ranges_replace (rng <$> log_live log) (normal m)).
  change (ranges_overlapped (rng <$> log_live log) m) with (ranges_overlapped (rng <$> log_live log) (normal m)).
  change (ranges_replacement (rng <$> log_live log) m) with (ranges_replacement (rng <$> log_live log) (normal m)).
  done.
Qed.

(** The journal of a healthy pair holds exactly [log]. *)
Record journal_ok (p : FilePair) (log : list segment_mapping) : Prop := {
  jo_records : Forall live_record log;
  jo_bytes : p_index_bytes p = kSpace + 16 * zlen log;
  jo_count : zlen log <= kMaxLogRecords;
  jo_size : f_size (p_index p) = p_index_bytes p;
  jo_read : slice (f_byte (p_index p)) kSpace (16 * zlen log) = encode_log log;
  jo_limit : forall k, zlen (log_live (take k log)) <= kMaxRoIndexSize;
  jo_ranges : p_live_ranges p = rng <$> log_live log;
}.

Lemma live_encodable log : Forall live_record log -> Forall seg_encodable log.
Proof. intros H. eapply Forall_impl; [exact H|]. intros m (? & _). done. Qed.

Lemma log_records_val p log : journal_ok p log -> log_records p = zlen log.
Proof.
  intros [_ Hb _ _ _ _ _]. unfold log_records. rewrite Hb.
  replace (kSpace + 16 * zlen log - kSpace) with (zlen log * 16) by lia. by rewrite Z.div_mul.
Qed.

(** Writing the record at the end of the log extends what is read back. *)
Lemma write_record_read f log m :
  Forall seg_encodable (log ++ [m]) ->
  slice (f_byte f) kSpace (16 * zlen log) = encode_log log ->
  slice (f_byte (file_write f (kSpace + 16 * zlen log) (encode_record m))) kSpace
    (16 * zlen (log ++ [m])) = encode_log (log ++ [m]).
Proof.
  intros He Hr. apply Forall_app in He as [Hl Hm]. apply Forall_cons in Hm as [Hm _].
  pose proof (zlen_nonneg log). rewrite zlen_app, zlen_cons, zlen_nil.
  replace (16 * (zlen log + (1 + 0))) with (16 * zlen log + 16) by lia.
  rewrite slice_app, encode_log_snoc by lia. f_equal.
  - rewrite <- Hr. apply slice_ext. intros i Hi. apply f_byte_write_out. lia.
  - pose proof (zlen_encode_record m Hm) as Hz. apply list_eq_bget; [by len|].
    rewrite zlen_slice. intros i Hi. rewrite bget_slice by lia. rewrite f_byte_write_in by lia.
    f_equal. lia.
Qed.

(** What the index file holds, with an incomplete record at most after it. *)
Definition index_holds (f : file) (log : list segment_mapping) : Prop :=
  kSpace + 16 * zlen log <= f_size f < kSpace + 16 * zlen log + 16 /\
  slice (f_byte f) kSpace (16 * zlen log) = encode_log log.

Lemma journal_index_holds p log : journal_ok p log -> index_holds (p_index p) log.
Proof. intros [_ Hb _ Hsz Hr _ _]. split; [lia|done]. Qed.

(** A record cut short leaves the log, or the log with the whole record. *)
Lemma torn_index_holds f log m n :
  Forall seg_encodable (log ++ [m]) -> f_size f = kSpace + 16 * zlen log ->
  slice (f_byte f) kSpace (16 * zlen log) = encode_log log ->
  let f' := file_write f (kSpace + 16 * zlen log) (partial n (encode_record m)) in
  index_holds f' log \/ index_holds f' (log ++ [m]).
Proof.
  intros He Hsz Hr. pose proof He as Hm. apply Forall_app in Hm as [_ Hm]. apply Forall_cons in Hm as [Hm _].
  pose proof (zlen_encode_record m Hm) as Hz. pose proof (zlen_nonneg log). cbv zeta.
  destruct (decide (16 <= n)).
  - right. unfold partial. rewrite ztake_all by lia. split; [|by apply write_record_read].
    rewrite f_size_write_end by lia. rewrite zlen_app, zlen_cons, zlen_nil. lia.
  - left. assert (zlen (partial n (encode_record m)) < 16) as Hp by (unfold partial; rewrite zlen_ztake; lia).
    pose proof (zlen_nonneg (partial n (encode_record m))). split.
    + destruct (decide (zlen (partial n (encode_record m)) = 0)) as [Hp0|Hp0].
      * simpl. rewrite Hp0, Z.eqb_refl. lia.
      * rewrite f_size_write_end by lia. lia.
    + rewrite <- Hr. apply slice_ext. intros i Hi. apply f_byte_write_out. lia.
Qed.

Lemma pair_append_spec p log m :
  journal_ok p log -> p_poisoned p = false -> live_record m ->
  let '(r, p') := pair_append m p in
  p_data p' = p_data p /\ p_header p' = p_header p /\
  match r with
  | Ok _ => p_poisoned p' = false /\ journal_ok p' (log ++ [m])
  | Err f =>
      any_errno f /\
      ((p_poisoned p' = false /\ journal_ok p' log) \/
       (p_poisoned p' = true /\ (index_holds (p_index p') log \/ index_holds (p_index p') (log ++ [m])) /\
        zlen (log ++ [m]) <= kMaxLogRecords /\ forall k, zlen (log_live (take k (log ++ [m]))) <= kMaxRoIndexSize))
  end.
Proof.
  intros Hj Hp Hm. pose proof Hj as [H1 H2 H3 H4 H5 H6 H7].
  assert (Forall live_record (log ++ [m])) as Hlm by (apply Forall_app; split; [done|by apply Forall_singleton]).
  pose proof (log_append_mirror log m Hlm) as [Hmir Hsz].
  unfold pair_append. rewrite Hp, (log_records_val p log Hj), H7, zlen_fmap, Hsz.
  destruct (Z.leb_spec kMaxLogRecords (zlen log)); [by eauto 10 with errno|].
  destruct (Z.ltb_spec kMaxRoIndexSize (zlen (log_live (log ++ [m])))); [by eauto 10 with errno|].
  assert (zlen (log ++ [m]) <= kMaxLogRecords) as Hcount by (rewrite zlen_app, zlen_cons, zlen_nil; lia).
  assert (forall k, zlen (log_live (take k (log ++ [m]))) <= kMaxRoIndexSize) as Hfits.
  { intros k. destruct (decide (k <= length log)%nat).
    - rewrite take_app_le by lia. apply H6.
    - rewrite take_ge by (rewrite length_app; simpl; lia). done. }
  unfold pair_write_index, pair_step, mbind, io_bind, io_run.
  destruct (next_outcome (p_script p)) as [[|n e] s]; simpl.
  - split; [done|]. split; [done|]. split; [done|]. split; simpl; try done.
    + rewrite H2, zlen_app, zlen_cons, zlen_nil. unfold kEncodedSize. lia.
    + rewrite zlen_encode_record by apply Hm. simpl. rewrite H4. unfold kEncodedSize. lia.
    + rewrite H2. apply write_record_read; [by apply live_encodable|done].
  - split; [done|]. split; [done|]. split; [auto with errno|]. right. split; [done|].
    split; [|done]. rewrite H2. apply torn_index_holds; [by apply live_encodable|lia|done].
Qed.

Lemma pair_sync_spec p :
  let '(r, p') := pair_sync p in
  exists s, p' = set_script p s /\ match r with Ok _ => True | Err f => any_errno f end.
Proof.
  unfold pair_sync, pair_step, mbind, io_bind. destruct (next_outcome (p_script p)) as [[|n e] s]; simpl;
    exists s; auto with errno.
Qed.

Lemma journal_ok_script p log s : journal_ok p log -> journal_ok (set_script p s) log.
Proof. intros []. by split. Qed.

(** The payload and the header do not take part in the journal. *)
Lemma journal_ok_data p log f : journal_ok p log -> journal_ok (set_data p f) log.
Proof. intros []. by split. Qed.

(** ** Replaying the log *)

Lemma replay_record_live l n m :
  live_record m -> zlen (live_replace l (normal m)) <= kMaxRoIndexSize ->
  replay_record (Rp sectors dsec n l) m = Ok (Rp sectors dsec n (live_replace l (normal m))).
Proof.
  intros ((E1 & E2 & E3 & _) & Hn & [?|(R1 & R2 & R3)]) Hz; [done|]. unfold replay_record. simpl.
  rewrite (proj2 (Z.eqb_neq _ _)) by done. unfold kMaxMoffset, kMaxLength, kMaxOffset in *.
  rewrite (u64_small (sectors - s_offset m)) by lia.
  rewrite (proj2 (Z.eqb_neq (s_length m) 0)), (proj2 (Z.leb_gt sectors _)),
    (proj2 (Z.ltb_ge _ (s_length m))) by lia. simpl.
  change (Seg _ _ _ _ _) with (normal m). rewrite (proj2 (Z.ltb_ge kMaxRoIndexSize _)) by done.
  destruct (s_zeroed m) eqn:Hzm; simpl; [done|]. specialize (R3 eq_refl). unfold kDataStartSector in *.
  rewrite u64_small by (simpl in *; lia).
  by rewrite (proj2 (Z.ltb_ge (s_moffset m) _)), (proj2 (Z.leb_gt dsec _)), (proj2 (Z.ltb_ge _ (s_length m))) by lia.
Qed.

(** The bound on the live index after every prefix of the log. *)
Definition log_fits (log : list segment_mapping) : Prop :=
  forall k, zlen (log_live (take k log)) <= kMaxRoIndexSize.

Lemma log_fits_prefix log rest : log_fits (log ++ rest) -> log_fits log.
Proof.
  intros H k. destruct (decide (k <= length log)%nat).
  - specialize (H k). by rewrite take_app_le in H by lia.
  - specialize (H (length log)). by rewrite take_app_length, <- (take_ge log k) in H by lia.
Qed.

Lemma replay_fold_live log chunk n :
  Forall live_record (log ++ chunk) -> log_fits (log ++ chunk) ->
  res_fold replay_record (Rp sectors dsec n (log_live log)) chunk =
    Ok (Rp sectors dsec n (log_live (log ++ chunk))).
Proof.
  revert log. induction chunk as [|m chunk IH]; intros log Hl Hf; [by rewrite app_nil_r|].
  rewrite cons_middle, app_assoc in Hl, Hf |- *.
  assert (zlen (log_live (log ++ [m])) <= kMaxRoIndexSize) as Hz.
  { apply log_fits_prefix in Hf. specialize (Hf (length (log ++ [m]))). by rewrite take_ge in Hf by lia. }
  rewrite log_live_snoc in Hz. cbn [res_fold].
  rewrite replay_record_live; [|by apply Forall_app in Hl as [[_ Hm]%Forall_app _]; apply Forall_cons in Hm as [? _]|done].
  rewrite <- log_live_snoc. by apply IH.
Qed.

Lemma replay_append_live log chunk :
  Forall live_record (log ++ chunk) -> log_fits (log ++ chunk) -> zlen (log ++ chunk) <= kMaxLogRecords ->
  replay_append (Rp sectors dsec (zlen log) (log_live log)) (encode_log chunk) =
    Ok (Rp sectors dsec (zlen (log ++ chunk)) (log_live (log ++ chunk))).
Proof.
  intros Hl Hf Hc. pose proof Hl as He. apply live_encodable, Forall_app in He as [_ He].
  unfold replay_append. rewrite zlen_encode_log by done. unfold kEncodedSize. simpl.
  rewrite (Z.mul_comm 16), Z.mod_mul, Z.div_mul by lia. rewrite zlen_app in *.
  rewrite (proj2 (Z.ltb_ge _ _)) by lia. cbn [negb orb Z.eqb].
  rewrite load_encode_log by done. by apply replay_fold_live.
Qed.

Lemma encode_log_app log rest : encode_log (log ++ rest) = encode_log log ++ encode_log rest.
Proof. unfold encode_log. by rewrite fmap_app, concat_app. Qed.

(** The bytes of a chunk of the log. *)
Lemma slice_log_chunk f log chunk rest :
  Forall seg_encodable (log ++ chunk ++ rest) ->
  slice f kSpace (16 * zlen (log ++ chunk ++ rest)) = encode_log (log ++ chunk ++ rest) ->
  slice f (kSpace + 16 * zlen log) (16 * zlen chunk) = encode_log chunk.
Proof.
  intros He Hr. apply Forall_app in He as [H1 [H2 H3]%Forall_app].
  rewrite !encode_log_app, !zlen_app in Hr. pose proof (zlen_nonneg log). pose proof (zlen_nonneg chunk).
  pose proof (zlen_nonneg rest).
  replace (16 * (zlen log + (zlen chunk + zlen rest))) with
    (16 * zlen log + (16 * zlen chunk + 16 * zlen rest)) in Hr by lia.
  rewrite !slice_app in Hr by lia. apply app_inj_1 in Hr as [_ Hr].
  - by apply app_inj_1 in Hr as [Hr _]; [|apply Nat2Z.inj; fold (zlen (slice f (kSpace + 16 * zlen log) (16 * zlen chunk)));
      fold (zlen (encode_log chunk)); rewrite zlen_encode_log by done; len].
  - apply Nat2Z.inj. fold (zlen (slice f kSpace (16 * zlen log))). fold (zlen (encode_log log)).
    rewrite zlen_encode_log by done. len.
Qed.

(** ** Reopening *)

Lemma disk_read_attempt f off n d :
  0 <= off -> 0 <= n -> off + n <= f_size f ->
  attempt p_script (disk_read f off n) d
    (fun bs d' => bs = slice (f_byte f) off n /\ same_files d d') (same_files d).
Proof.
  intros. unfold attempt, disk_read, pair_step, mbind, io_bind.
  pose proof (next_outcome_spec (p_script d)) as Ho.
  destruct (next_outcome (p_script d)) as [[|k e] s]; destruct Ho as [Hsub Hf]; simpl.
  - rewrite file_read_full by lia. rewrite (proj2 (Z.eqb_eq _ _)) by len. split; [done|]. split; [done|]. by exists s.
  - split; [by apply (Hf k)|by exists s].
Qed.

Lemma replay_loop_attempt f log rest fuel d :
  Forall live_record (log ++ rest) -> log_fits (log ++ rest) -> zlen (log ++ rest) <= kMaxLogRecords ->
  kSpace + 16 * zlen (log ++ rest) <= f_size f ->
  slice (f_byte f) kSpace (16 * zlen (log ++ rest)) = encode_log (log ++ rest) ->
  zlen rest <= 256 * Z.of_nat fuel ->
  attempt p_script
    (replay_loop fuel f (kSpace + 16 * zlen (log ++ rest)) (kSpace + 16 * zlen log)
       (Rp sectors dsec (zlen log) (log_live log))) d
    (fun r d' => r = Rp sectors dsec (zlen (log ++ rest)) (log_live (log ++ rest)) /\ same_files d d')
    (same_files d).
Proof.
  revert log rest d. induction fuel as [|fuel IH]; intros log rest d Hl Hf Hc Hsz Hr Hfu.
  { destruct rest; [|rewrite zlen_cons in Hfu; pose proof (zlen_nonneg rest); lia].
    rewrite app_nil_r in *. unfold replay_loop. rewrite Z.ltb_irrefl. by apply attempt_ret. }
  cbn [replay_loop]. destruct (Z.ltb_spec (kSpace + 16 * zlen log) (kSpace + 16 * zlen (log ++ rest))).
  2: { destruct rest; [|rewrite zlen_app, zlen_cons in *; pose proof (zlen_nonneg rest); lia].
       rewrite app_nil_r in *. by apply attempt_ret. }
  pose proof (zlen_nonneg log).
  set (chunk := ztake 256 rest). set (rest' := zdrop 256 rest).
  assert (rest = chunk ++ rest') as Hrest by (symmetry; apply take_drop).
  assert (zlen chunk = Z.min 256 (zlen rest)) as Hcl by (unfold chunk; len).
  assert (Z.min kSpace (kSpace + 16 * zlen (log ++ rest) - (kSpace + 16 * zlen log)) = 16 * zlen chunk) as ->
    by (rewrite zlen_app, Hcl; unfold kSpace; lia).
  rewrite Hrest in Hl, Hf, Hc, Hsz, Hr |- *. pose proof (zlen_nonneg chunk).
  eapply attempt_bind.
  { apply disk_read_attempt; [unfold kSpace; lia|lia|]. rewrite !zlen_app in Hsz. pose proof (zlen_nonneg rest'). lia. }
  intros raw d1 [-> Hd1]. rewrite (slice_log_chunk _ log chunk rest') by (done || by apply live_encodable).
  rewrite app_assoc in *. eapply attempt_lift_bind.
  { apply replay_append_live; [by apply Forall_app in Hl as [? _]|by eapply log_fits_prefix|].
    rewrite zlen_app in Hc. pose proof (zlen_nonneg rest'). lia. }
  replace (kSpace + 16 * zlen log + 16 * zlen chunk) with (kSpace + 16 * zlen (log ++ chunk))
    by (rewrite zlen_app; lia).
  eapply attempt_mono; [apply IH; try done|..].
  - unfold rest'. rewrite zlen_zdrop. lia.
  - intros r d2 [-> Hd2]. split; [done|]. by eapply same_files_trans.
  - intros d2. by apply same_files_trans.
Qed.
End LogLive.

(** ** The test for a sealed payload *)

(** What [sealed_trailer] decides, without the reads. *)
Fixpoint sealed_scan (f : file) (tail : HeaderTrailer) (n : nat) (i previous : Z) : bool :=
  match n with
  | O => true
  | S n =>
      match sealed_record tail previous
              (load_segment_le (slice (f_byte f) (ht_index_offset tail + 16 * i) 16) 0) with
      | None => false
      | Some previous => sealed_scan f tail n (i + 1) previous
      end
  end.
Definition sealed_tail (f : file) : bool :=
  if f_size f <? 2 * kSpace then false else
  match parse (slice (f_byte f) (f_size f - kSpace) kSpace) with
  | Err _ => false
  | Ok tail => sealed_candidate (f_size f) tail &&
               sealed_scan f tail (Z.to_nat (ht_index_size tail)) 0 0
  end.

Lemma sealed_records_attempt f tail n i previous d :
  0 <= ht_index_offset tail -> 0 <= i ->
  ht_index_offset tail + 16 * (i + Z.of_nat n) <= f_size f ->
  attempt p_script (sealed_records f tail n i previous) d
    (fun b d' => b = sealed_scan f tail n i previous /\ same_files d d') (same_files d).
Proof.
  revert i previous d. induction n as [|n IH]; intros i previous d Ho Hi Hb; cbn [sealed_records sealed_scan].
  { by apply attempt_ret. }
  eapply attempt_bind; [apply disk_read_attempt; lia|]. intros raw d1 [-> Hd1].
  destruct (sealed_record _ _ _) as [p|]; [|by apply attempt_ret].
  eapply attempt_mono; [apply IH; lia|..].
  - intros b d2 [-> Hd2]. split; [done|]. by eapply same_files_trans.
  - intros d2. by apply same_files_trans.
Qed.

Lemma sealed_trailer_attempt f d :
  f_size f < 2 ^ 64 ->
  attempt p_script (sealed_trailer f) d
    (fun b d' => b = sealed_tail f /\ same_files d d') (same_files d).
Proof.
  intros Hsz. unfold sealed_trailer, sealed_tail. unfold kSpace in *.
  destruct (Z.ltb_spec (f_size f) (2 * 4096)); [by apply attempt_ret|].
  eapply attempt_bind; [apply disk_read_attempt; lia|]. intros raw d1 [-> Hd1].
  destruct (parse _) as [tail|]; [|by apply attempt_ret].
  destruct (sealed_candidate _ _) eqn:Hc; [|by apply attempt_ret]. simpl.
  unfold sealed_candidate, kSpace, kMaxRoIndexSize in Hc. bool_hyps.
  eapply attempt_mono; [apply sealed_records_attempt; [lia|done|]|..].
  - destruct (decide (ht_index_size tail < 0)); [lia|].
    rewrite !u64_small in * by lia. lia.
  - intros b d2 [-> Hd2]. split; [done|]. by eapply same_files_trans.
  - intros d2. by apply same_files_trans.
Qed.

(** ** What a pair on disk holds *)

(** A header [validate_pair] accepts. *)
Definition pair_header (h : HeaderTrailer) : Prop :=
  (ht_flags h = 3 /\ ht_version h = 1 /\ ht_sub_version h = 1 /\ ht_reserved h = 0) /\
  (valid_uuid (ht_uuid h) = true /\ (ht_parent_uuid h = [] \/ valid_uuid (ht_parent_uuid h) = true)) /\
  (ht_index_offset h = 0 /\ ht_index_size h = 0) /\
  0 < ht_virtual_size h /\ ht_virtual_size h mod kAlignment = 0 /\
  ht_virtual_size h / kAlignment <= kMaxOffset /\ ht_ok h.

Lemma validate_pair_ok h data_bytes n :
  pair_header h -> kSpace <= data_bytes -> data_bytes mod kAlignment = 0 ->
  data_bytes / kAlignment < kMaxMoffset -> 0 <= n <= kMaxLogRecords ->
  validate_pair h (index_header h) data_bytes (kSpace + 16 * n) = Ok n.
Proof.
  intros ((F1 & F2 & F3 & F4) & (U1 & U2) & (I1 & I2) & V1 & V2 & V3 & _) H1 H2 H3 Hn.
  unfold validate_pair, index_header; simpl. rewrite F1, F2, F3, F4, U1, I1, I2, V2, H2. simpl.
  rewrite !bool_decide_true by done. rewrite !Z.eqb_refl. simpl.
  assert (negb (zlen (ht_parent_uuid h) =? 0) && negb (valid_uuid (ht_parent_uuid h)) = false) as ->.
  { destruct U2 as [-> | ->]; [done|]. by rewrite andb_false_r. }
  rewrite (proj2 (Z.eqb_neq (ht_virtual_size h) 0)), (proj2 (Z.ltb_ge kMaxOffset _)),
    (proj2 (Z.ltb_ge data_bytes _)), (proj2 (Z.leb_gt kMaxMoffset _)) by lia. simpl.
  replace (kSpace + 16 * n - kSpace) with (n * 16) by lia. unfold kEncodedSize.
  rewrite Z.mod_mul, Z.div_mul by lia. rewrite (proj2 (Z.ltb_ge _ kSpace)), (proj2 (Z.ltb_ge kMaxLogRecords _)) by lia.
  done.
Qed.

Lemma replay_new_header h data_bytes :
  pair_header h -> kSpace <= data_bytes -> data_bytes mod kAlignment = 0 ->
  data_bytes / kAlignment < kMaxMoffset ->
  replay_new (ht_virtual_size h) data_bytes =
    Ok (Rp (ht_virtual_size h / kAlignment) (data_bytes / kAlignment) 0 []).
Proof.
  intros (_ & _ & _ & V1 & V2 & V3 & _) H1 H2 H3. unfold replay_new. rewrite V2, H2.
  by rewrite (proj2 (Z.eqb_neq (ht_virtual_size h) 0)), (proj2 (Z.ltb_ge kMaxOffset _)),
    (proj2 (Z.ltb_ge data_bytes _)), (proj2 (Z.leb_gt kMaxMoffset _)) by lia.
Qed.

(** The two files hold the layer [header] with the mapping log [log]; the end of
    each may be an incomplete sector or record. *)
Record disk_log (data index : file) (header : HeaderTrailer) (log : list segment_mapping) : Prop := {
  do_header : pair_header header;
  do_data : parse (slice (f_byte data) 0 kSpace) = Ok header;
  do_index : parse (slice (f_byte index) 0 kSpace) = Ok (index_header header);
  do_size : kSpace <= f_size data;
  do_room : f_size data / kAlignment < kMaxMoffset;
  do_log : index_holds index log;
  do_records : Forall (live_record (ht_virtual_size header / kAlignment) (f_size data / kAlignment)) log;
  do_count : zlen log <= kMaxLogRecords;
  do_fits : log_fits log;
  do_inj : phys_inj (log_live log);
}.

(** And no block of the payload is mistaken for a trailer. *)
Definition disk_ok (data index : file) (header : HeaderTrailer) (log : list segment_mapping) : Prop :=
  disk_log data index header log /\ sealed_tail data = false.

(** A payload file with its last sector completed by zeroes. *)
Definition padded (data data' : file) : Prop :=
  f_size data' = round_up (f_size data) /\ (forall i, i < f_size data -> f_byte data' i = f_byte data i) /\
  forall i, f_byte data' i = f_byte data i \/ f_byte data' i = 0.

Lemma round_up_spec n : 0 <= n -> n <= round_up n < n + kAlignment /\ round_up n mod kAlignment = 0.
Proof.
  intros. unfold round_up, kAlignment. rewrite Z.mod_mul by lia.
  pose proof (Z.div_mod (n + 512 - 1) 512 ltac:(lia)). pose proof (Z.mod_pos_bound (n + 512 - 1) 512 ltac:(lia)).
  lia.
Qed.
Lemma round_up_id n : n mod kAlignment = 0 -> round_up n = n.
Proof.
  intros H. unfold round_up, kAlignment in *. pose proof (Z.div_mod n 512 ltac:(lia)) as Hd.
  rewrite H, Z.add_0_r in Hd. rewrite Hd at 1.
  replace (512 * (n / 512) + 512 - 1) with (n / 512 * 512 + 511) by lia.
  rewrite Z.div_add_l by lia. change (511 / 512) with 0. lia.
Qed.

Lemma index_holds_size f log :
  index_holds f log -> kSpace + (f_size f - kSpace) / 16 * 16 = kSpace + 16 * zlen log.
Proof.
  intros [H _]. assert ((f_size f - kSpace) / 16 = zlen log) as ->; [|lia].
  symmetry. apply (Z.div_unique _ _ _ (f_size f - kSpace - 16 * zlen log)); lia.
Qed.

Lemma disk_ok_truncate_index data index h log :
  disk_ok data index h log -> disk_ok data (file_truncate index (kSpace + 16 * zlen log)) h log.
Proof.
  intros [[H1 H2 H3 H4 H5 H7 H8 H9 H10 H11] H6]. split; [|done]. destruct H7 as [Hs Hr]. pose proof (zlen_nonneg log).
  assert (forall i, i < kSpace + 16 * zlen log ->
    f_byte (file_truncate index (kSpace + 16 * zlen log)) i = f_byte index i) as Hb.
  { intros i Hi. simpl. by rewrite (proj2 (Z.ltb_lt _ _)) by lia. }
  split; try done.
  - rewrite <- H3. f_equal. apply slice_ext. intros i Hi. apply Hb. lia.
  - split; [simpl; lia|]. rewrite <- Hr. apply slice_ext. intros i Hi. apply Hb. lia.
Qed.

Lemma disk_truncate_attempt (set : FilePair -> Z -> FilePair) n d (Q : unit -> FilePair -> Prop) (F : FilePair -> Prop) :
  (forall s, p_script (set (set_script d s) n) = s) ->
  (forall s, Q tt (set (set_script d s) n)) ->
  (forall s, F (set_script d s)) ->
  attempt p_script (disk_truncate set n) d Q F.
Proof.
  intros Hs HQ HF. unfold attempt, disk_truncate, pair_step, mbind, io_bind, io_run.
  pose proof (next_outcome_spec (p_script d)) as Ho.
  destruct (next_outcome (p_script d)) as [[|k e] s]; destruct Ho as [Hsub Hf]; simpl.
  - by rewrite Hs.
  - split; [by apply (Hf k)|done].
Qed.

(** The opened pair: its index is the replayed log and its files hold the same
    layer. *)
Definition opened (data : file) (header : HeaderTrailer) (log : list segment_mapping) (p : FilePair) : Prop :=
  p_mappings p = log_live log /\ p_header p = header /\ settled p /\
  p_data_bytes p = round_up (f_size data) /\ padded data (p_data p) /\
  parse (slice (f_byte (p_index p)) 0 kSpace) = Ok (index_header header) /\
  journal_ok (ht_virtual_size header / kAlignment) (f_size data / kAlignment) p log.

Lemma unsealed_header h : pair_header h -> is_sealed h = false.
Proof. intros ((F1 & _) & _). unfold is_sealed, get_flag_bit. by rewrite F1. Qed.

(** A step that only reads. *)
Lemma attempt_reads {A B} (m : io FilePair A) v (k : A -> io FilePair B) d0 d Q (F : FilePair -> Prop) :
  attempt p_script m d (fun a d' => a = v /\ same_files d d') (same_files d) ->
  same_files d0 d -> (forall d', same_files d0 d' -> F d') ->
  (forall d', same_files d0 d' -> attempt p_script (k v) d' Q F) ->
  attempt p_script (m ≫= k) d Q F.
Proof.
  intros Hm Hd HF Hk.
  assert (forall d', same_files d d' -> same_files d0 d') as Ht by (intros d'; by apply same_files_trans).
  eapply attempt_bind; [eapply attempt_mono; [exact Hm|intros a d' Ha; exact Ha|auto]|].
  intros a d' [-> Hs]. auto.
Qed.

Lemma pair_align_attempt d header log :
  disk_ok (p_data d) (p_index d) header log -> settled d ->
  attempt p_script (pair_align header (log_live log) (kSpace + 16 * zlen log)) d
    (fun p _ => opened (p_data d) header log p)
    (fun d' => disk_ok (p_data d') (p_index d') header log /\ settled d' /\
       p_data d' = p_data d).
Proof.
  intros Hok Hset. pose proof Hok as [[_ _ _ _ _ Hl Hrec Hc Hf Hj] _].
  unfold pair_align. apply (attempt_here p_script (fun d => _)). cbn beta. cbv zeta.
  set (index' := if f_size (p_index d) =? kSpace + 16 * zlen log then p_index d
                 else file_truncate (p_index d) (kSpace + 16 * zlen log)).
  assert (disk_ok (p_data d) index' header log /\ f_size index' = kSpace + 16 * zlen log) as [Hok' Hsz'].
  { unfold index'. destruct (Z.eqb_spec (f_size (p_index d)) (kSpace + 16 * zlen log)); [done|].
    split; [by apply disk_ok_truncate_index|done]. }
  eapply (attempt_bind _ _ _ _ (fun _ d' => p_data d' = p_data d /\ p_index d' = index' /\ settled d')).
  { unfold index'. case_if; [by apply attempt_ret|].
    apply disk_truncate_attempt; [done|..]; intros s; [done|by split; [|split]]. }
  clearbody index'. intros _ d5 (E1 & E2 & S5).
  set (data' := if f_size (p_data d) =? round_up (f_size (p_data d)) then p_data d
                else file_truncate (p_data d) (round_up (f_size (p_data d)))).
  assert (padded (p_data d) data') as Hpad.
  { unfold data'. destruct (Z.eqb_spec (f_size (p_data d)) (round_up (f_size (p_data d)))).
    { split; [done|]. split; [done|]. by left. }
    split; [done|]. split; intros i; simpl; [intros Hlt; by rewrite (proj2 (Z.ltb_lt _ _))|case_if; auto]. }
  eapply (attempt_bind _ _ _ _ (fun _ d' => p_data d' = data' /\ p_index d' = index' /\ settled d')).
  { unfold data'. case_if; [by apply attempt_ret|].
    apply disk_truncate_attempt; [done|..]; intros s; cbn [p_data p_index set_script set_data]; rewrite E1, E2;
      [done|by split; [|split]]. }
  clearbody data'. intros _ d6 (E3 & E4 & S6). eapply attempt_run; [done|done|]. rewrite E3, E4.
  split; [done|]. split; [done|]. split; [done|]. split; [done|]. split; [done|].
  destruct Hok' as [[_ _ Hi' _ _ [_ Hlr'] _ _ _ _] _]. split; [exact Hi'|]. by split.
Qed.

(** Replaying the log of the index, whatever the headers of the files. *)
Lemma replay_disk data index header log d :
  pair_header header -> kSpace <= f_size data -> f_size data / kAlignment < kMaxMoffset -> index_holds index log ->
  Forall (live_record (ht_virtual_size header / kAlignment) (f_size data / kAlignment)) log ->
  zlen log <= kMaxLogRecords -> log_fits log -> phys_inj (log_live log) -> f_size data < 2 ^ 64 ->
  let n := f_size data / kAlignment * kAlignment in
  let index_bytes := kSpace + (f_size index - kSpace) / 16 * 16 in
  let sectors := ht_virtual_size header / kAlignment in
  let dsec := f_size data / kAlignment in
  let r := Rp sectors dsec (zlen log) (log_live log) in
  index_bytes = kSpace + 16 * zlen log /\
  validate_pair header (index_header header) n index_bytes = Ok (zlen log) /\
  replay_new (ht_virtual_size header) n = Ok (Rp sectors dsec 0 []) /\
  attempt p_script (replay_loop (replay_fuel index_bytes) index index_bytes kSpace (Rp sectors dsec 0 [])) d
    (fun r' d' => r' = r /\ same_files d d') (same_files d) /\
  replay_finish r = Ok (log_live log).
Proof.
  intros Hh Hs Hr Hl Hrec Hc Hf Hj H64 n index_bytes sectors dsec r.
  pose proof (index_holds_size _ _ Hl) as Hib. pose proof Hl as [Hls Hlr]. pose proof (zlen_nonneg log).
  fold index_bytes in Hib. clearbody index_bytes. subst index_bytes. split; [done|].
  assert (kSpace <= n) as Hcd.
  { pose proof (Z.div_le_mono _ _ kAlignment ltac:(unfold kAlignment; lia) Hs). unfold n, kSpace, kAlignment in *.
    change (4096 / 512) with 8 in *. lia. }
  assert (n mod kAlignment = 0) as Hmod by (apply Z.mod_mul; unfold kAlignment; lia).
  assert (n / kAlignment = dsec) as Hdiv by (apply Z.div_mul; unfold kAlignment; lia).
  assert (0 <= sectors <= kMaxOffset) as Hvs.
  { destruct Hh as (_ & _ & _ & ? & _ & ? & _). split; [|done]. apply Z.div_pos; unfold kAlignment; lia. }
  assert (0 <= dsec < kMaxMoffset) as Hds.
  { split; [|done]. apply Z.div_pos; unfold kAlignment, kSpace in *; lia. }
  split; [apply validate_pair_ok; rewrite ?Hdiv; done || lia|].
  split; [rewrite replay_new_header by (rewrite ?Hdiv; done || lia); by rewrite Hdiv|]. split.
  - eapply (replay_loop_attempt _ _ Hvs Hds index [] log); [done|done|done|simpl; lia|done|].
    unfold replay_fuel, kSpace.
    pose proof (Z.div_mod (4096 + 16 * zlen log) 4096 ltac:(lia)).
    pose proof (Z.mod_pos_bound (4096 + 16 * zlen log) 4096 ltac:(lia)). simpl. lia.
  - destruct (log_live_ok _ _ Hvs Hds log Hrec) as [Hlive _].
    pose proof (replay_finish_spec r (live_index _ _ _ Hlive)) as Hfin.
    destruct (replay_finish r) as [l|]; [|by destruct Hfin]. by destruct Hfin as [-> _].
Qed.

Lemma pair_load_spec d header log :
  disk_ok (p_data d) (p_index d) header log -> f_size (p_data d) < 2 ^ 64 ->
  settled d -> p_header d = header ->
  attempt p_script (pair_load (f_size (p_data d)) (f_size (p_index d))) d
    (fun p _ => opened (p_data d) header log p)
    (fun d' => disk_ok (p_data d') (p_index d') header log /\ settled d' /\
       p_data d' = p_data d).
Proof.
  intros Hok H64 Hset Hhd. pose proof Hok as [Hlog _]. pose proof Hlog as [Hh Hd Hi Hs Hr Hl Hrec Hc Hf Hj].
  pose proof Hl as [Hls Hlr]. pose proof (zlen_nonneg log).
  pose proof (round_up_spec (f_size (p_data d)) ltac:(unfold kSpace in *; lia)) as [Hru _].
  assert (forall d', same_files d d' -> disk_ok (p_data d') (p_index d') header log /\ settled d' /\
    p_data d' = p_data d) as Hsame
    by (by intros d' [s ->]; split; [|split]).
  unfold pair_load. apply (attempt_here p_script (fun d => _)). cbn beta. cbv zeta. rewrite Hhd.
  eapply attempt_reads; [apply disk_read_attempt; unfold kSpace in *; lia|done|done|]. intros d3 Hd3.
  eapply attempt_lift_bind; [exact Hi|].
  destruct (replay_disk _ _ _ _ d3 Hh Hs Hr Hl Hrec Hc Hf Hj H64) as (Eib & Hval & Hnew & Hloop & Hfin).
  eapply attempt_lift_bind; [exact Hval|]. eapply attempt_lift_bind; [exact Hnew|].
  eapply attempt_reads; [exact Hloop|done|done|]. intros d4 [s ->].
  eapply attempt_lift_bind; [exact Hfin|]. rewrite Eib. by apply (pair_align_attempt (set_script d s)).
Qed.

Lemma pair_open_attempt d header log :
  disk_ok (p_data d) (p_index d) header log -> f_size (p_data d) < 2 ^ 64 -> settled d ->
  attempt p_script pair_open d (fun p _ => opened (p_data d) header log p)
    (fun d' => disk_ok (p_data d') (p_index d') header log /\ settled d' /\
       p_data d' = p_data d).
Proof.
  intros Hok H64 Hset. pose proof Hok as [[Hh Hd Hi Hs Hr Hl Hrec Hc Hf Hj] Ho].
  pose proof Hl as [Hls Hlr]. pose proof (zlen_nonneg log).
  pose proof (round_up_spec (f_size (p_data d)) ltac:(unfold kSpace in *; lia)) as [Hru _].
  assert (forall d0 s, p_data d0 = p_data d -> p_index d0 = p_index d -> settled d0 ->
    disk_ok (p_data (set_script d0 s)) (p_index (set_script d0 s)) header log /\ settled (set_script d0 s) /\
    p_data (set_script d0 s) = p_data d) as Hsame.
  { intros d0 s E1 E2 E3. simpl. rewrite E1, E2. by split; [|split]. }
  unfold pair_open. apply (attempt_here p_script (fun d => _)). cbn beta. cbv zeta.
  rewrite (proj2 (Z.ltb_ge (f_size (p_data d)) _)) by done.
  eapply attempt_reads; [apply disk_read_attempt; unfold kSpace in *; lia|done|by intros d' [s ->]; apply Hsame|].
  intros d1 [s1 ->]. eapply attempt_lift_bind; [exact Hd|].
  eapply attempt_bind; [eapply attempt_run with (Q := fun _ d' => exists s, d' = set_growth (set_script d s) false false header);
    [reflexivity|done|]|].
  { exists s1. destruct Hset as (S1 & S2 & _). simpl. by rewrite S1, S2. }
  intros _ d1 [s2 ->]. rewrite unsealed_header by done. set (d1 := set_growth _ _ _ _).
  assert (settled d1) as Hset1 by (destruct Hset as (_ & _ & ?); by split).
  eapply (attempt_reads _ _ _ d1); [by apply sealed_trailer_attempt|done|by intros d' [s ->]; apply Hsame|]. rewrite Ho.
  rewrite (proj2 (Z.ltb_ge (f_size (p_index d)) _)) by lia. intros d2 [s3 ->].
  eapply (attempt_bind _ _ _ _ (fun _ d' => d' = set_script d1 s3)).
  { unfold recover_grow, attempt. change (p_grow (set_script d1 s3)) with (p_grow d1).
    destruct Hset1 as (_ & _ & ->). done. }
  intros _ d3 ->. by apply (pair_load_spec (set_script d1 s3) header log).
Qed.

Lemma pair_open_spec d header log :
  disk_ok (p_data d) (p_index d) header log -> f_size (p_data d) < 2 ^ 64 -> settled d ->
  attempt p_script pair_open d (fun p _ => opened (p_data d) header log p)
    (fun d' => disk_ok (p_data d') (p_index d') header log /\ settled d').
Proof.
  intros Hok H64 Hset. eapply attempt_mono; [by apply pair_open_attempt|done|]. cbv beta. tauto.
Qed.

(** ** Compaction *)

Lemma emplace_last l m : Forall (fun s => seg_ok s /\ fin s <= s_offset m) l -> emplace l m = l ++ [m].
Proof.
  induction 1 as [|s l [Hs Hf] Hl IH]; simpl; [done|]. destruct Hs as (_ & ? & _). unfold fin in Hf.
  rewrite (proj2 (Z.ltb_ge _ _)), (proj2 (Z.eqb_neq _ _)) by lia. by rewrite IH.
Qed.

Lemma resolve_normal l x : Forall untagged l -> resolve (normal <$> l) x = resolve l x.
Proof.
  induction 1 as [|s l Hs Hl IH]; csimpl; [done|]. rewrite IH.
  change (covers (normal s) x) with (covers s x). destruct (covers s x); [|done].
  unfold seg_cell, normal; simpl. unfold untagged in Hs. rewrite Hs. by destruct (s_zeroed s).
Qed.

Section Sorted.
Context (sectors dsec : Z).
Context (Hs : 0 <= sectors <= kMaxOffset) (Hd : 0 <= dsec < kMaxMoffset).

Lemma normal_index z l :
  index_ok z l -> Forall (live_record sectors dsec) l -> index_ok z (normal <$> l) /\
    end_from z (normal <$> l) = end_from z l.
Proof.
  revert z. induction l as [|s l IH]; intros z Hi Hl; [done|].
  apply index_ok_cons in Hi as (H1 & H2 & H3). apply Forall_cons in Hl as [(E & N & R) Hl].
  destruct (IH _ H3 Hl) as [I1 I2]. csimpl. rewrite index_ok_cons. split; [|done].
  split; [by apply (normal_ok sectors dsec Hd)|]. by split.
Qed.

(** A sorted log replays to itself. *)
Lemma log_live_sorted l :
  index_ok 0 l -> Forall (live_record sectors dsec) l -> log_live l = normal <$> l.
Proof.
  induction l as [|m l IH] using rev_ind; intros Hi Hl; [done|].
  pose proof Hi as Hi'. apply index_ok_app in Hi' as [Hil Him]. apply index_ok_cons in Him as (Hm & Hlo & _).
  pose proof Hl as Hl'. apply Forall_app in Hl' as [Hll Hlm]. apply Forall_cons in Hlm as [(E & N & R) _].
  destruct (normal_ok sectors dsec Hd m E R N) as (Hn & Hf & _).
  destruct (normal_index 0 l Hil Hll) as [Hin Hen].
  rewrite log_live_snoc, IH, fmap_app by done. csimpl.
  assert (Forall (fun s => seg_ok s /\ fin s <= s_offset (normal m)) (normal <$> l)) as Hbelow.
  { pose proof (index_ok_ends _ _ Hin) as He. destruct Hin as [Hok _]. rewrite Forall_forall in *.
    intros s Hin. split; [auto|]. specialize (He s Hin). simpl in *. lia. }
  rewrite (live_replace_cut 0) by (done || apply Hn || lia).
  rewrite cut_below; [by apply emplace_last|..].
  - eapply Forall_impl; [exact Hbelow|]. simpl. tauto.
  - eapply Forall_impl; [exact Hbelow|]. simpl. tauto.
Qed.

Lemma log_fits_sorted l :
  index_ok 0 l -> Forall (live_record sectors dsec) l -> zlen l <= kMaxRoIndexSize -> log_fits l.
Proof.
  intros Hi Hl Hz k. rewrite <- (take_drop k l) in Hi, Hl. apply index_ok_app in Hi as [Hi _].
  apply Forall_app in Hl as [Hl _]. rewrite log_live_sorted by done. rewrite zlen_fmap.
  unfold zlen in *. rewrite length_take. lia.
Qed.

Lemma compact_replay_sorted log live previous :
  index_ok 0 (log ++ live) -> Forall (live_record sectors dsec) (log ++ live) ->
  zlen (log ++ live) <= kMaxRoIndexSize ->
  match last log with Some m => previous = seg_end m | None => previous = 0 end ->
  compact_replay (Rp sectors dsec (zlen log) (log_live log)) previous live =
    Ok (Rp sectors dsec (zlen (log ++ live)) (log_live (log ++ live))).
Proof.
  revert log previous. induction live as [|m live IH]; intros log previous Hi Hl Hz Hp; [by rewrite app_nil_r|].
  cbn [compact_replay].
  assert (previous <= s_offset m) as Hprev.
  { apply index_ok_app in Hi as [Hil Him]. apply index_ok_cons in Him as (Hm & Hlo & _).
    destruct log as [|a log _] using rev_ind; [by simpl in *; subst|].
    rewrite last_snoc in Hp. rewrite end_from_snoc in Hlo. subst previous.
    destruct Hil as [Hok _]. apply Forall_app in Hok as [_ Hok]. apply Forall_cons in Hok as [Hok _].
    by rewrite seg_ok_end. }
  rewrite (proj2 (Z.ltb_ge _ _)) by done.
  assert (encode_record m = encode_log [m]) as -> by (symmetry; apply app_nil_r).
  rewrite cons_middle, app_assoc in *.
  rewrite (replay_append_live sectors dsec Hs Hd).
  - cbn [mbind res_bind]. apply IH; [done..|]. by rewrite last_snoc.
  - by apply Forall_app in Hl as [? _].
  - apply log_fits_sorted.
    + by apply index_ok_app in Hi as [? _].
    + by apply Forall_app in Hl as [? _].
    + rewrite zlen_app in Hz. pose proof (zlen_nonneg live). lia.
  - rewrite zlen_app in Hz. pose proof (zlen_nonneg live). unfold kMaxLogRecords, kMaxRoIndexSize in *. lia.
Qed.
End Sorted.

(** ** The pair while it is open *)

Definition pair_sectors (p : FilePair) : Z := ht_virtual_size (p_header p) / kAlignment.
Definition data_sectors (f : file) : Z := f_size f / kAlignment.

(** A healthy pair whose journal is [log]. *)
Record pair_ok (p : FilePair) (log : list segment_mapping) : Prop := {
  po_journal : journal_ok (pair_sectors p) (data_sectors (p_data p)) p log;
  po_healthy : settled p;
  po_header : pair_header (p_header p);
  po_data : parse (slice (f_byte (p_data p)) 0 kSpace) = Ok (p_header p);
  po_index : parse (slice (f_byte (p_index p)) 0 kSpace) = Ok (index_header (p_header p));
  po_size : kSpace <= f_size (p_data p);
  po_room : data_sectors (p_data p) < kMaxMoffset;
}.

Lemma pair_ok_sectors p log : pair_ok p log -> 0 <= pair_sectors p <= kMaxOffset.
Proof.
  intros [_ _ (_ & _ & _ & ? & _ & ? & _) _ _ _ _]. unfold pair_sectors. split; [|done].
  apply Z.div_pos; unfold kAlignment; lia.
Qed.
Lemma pair_ok_data_sectors p log : pair_ok p log -> 0 <= data_sectors (p_data p) < kMaxMoffset.
Proof.
  intros [_ _ _ _ _ ? ?]. split; [|done]. unfold data_sectors.
  apply Z.div_pos; unfold kSpace, kAlignment in *; lia.
Qed.

Lemma pair_ok_script p log s : pair_ok p log -> pair_ok (set_script p s) log.
Proof. intros [H1 H2 H3 H4 H5 H6 H7]. split; try done. by apply journal_ok_script. Qed.

(** The files of a healthy pair hold its log. *)
Lemma pair_ok_disk p log :
  pair_ok p log -> phys_inj (log_live log) -> disk_log (p_data p) (p_index p) (p_header p) log.
Proof.
  intros [H1 H2 H3 H4 H5 H6 H7] Hj. pose proof (journal_index_holds _ _ _ _ H1).
  destruct H1. by split.
Qed.

Lemma journal_ok_mono sectors sectors' dsec dsec' p log :
  journal_ok sectors dsec p log -> sectors <= sectors' -> dsec <= dsec' -> journal_ok sectors' dsec' p log.
Proof.
  intros [H1 H2 H3 H4 H5 H6 H7] ??. split; try done. eapply Forall_impl; [exact H1|].
  intros m (? & ? & ?). split; [done|]. split; [done|]. by eapply record_ok_mono.
Qed.

(** A payload write past the header. *)
Lemma pair_ok_write p log off bs :
  pair_ok p log -> kSpace <= off ->
  data_sectors (file_write (p_data p) off bs) < kMaxMoffset ->
  pair_ok (set_data p (file_write (p_data p) off bs)) log.
Proof.
  intros [H1 H2 H3 H4 H5 H6 H7] Ho Hroom. pose proof (f_size_write (p_data p) off bs). split; try done.
  - apply journal_ok_data. eapply journal_ok_mono; [exact H1|done|].
    apply Z.div_le_mono; [unfold kAlignment; lia|done].
  - cbn [p_data set_data p_header]. rewrite <- H4. f_equal. apply slice_ext. intros i Hi.
    apply f_byte_write_out. lia.
  - simpl. simpl in H. lia.
Qed.

(** Appending has no part in a growth. *)
Lemma pair_append_growth m p :
  p_growth_pending (pair_append m p).2 = p_growth_pending p /\ p_grow (pair_append m p).2 = p_grow p.
Proof.
  unfold pair_append. repeat case_if; try done. unfold pair_write_index, pair_step, mbind, io_bind, io_run.
  by destruct (next_outcome (p_script p)) as [[|n e] s].
Qed.

Lemma pair_append_ok p log m :
  pair_ok p log -> live_record (pair_sectors p) (data_sectors (p_data p)) m ->
  let '(r, p') := pair_append m p in
  p_data p' = p_data p /\ p_header p' = p_header p /\
  match r with
  | Ok _ => pair_ok p' (log ++ [m])
  | Err f =>
      any_errno f /\
      (pair_ok p' log \/
       p_poisoned p' = true /\
       parse (slice (f_byte (p_index p')) 0 kSpace) = Ok (index_header (p_header p)) /\
       (index_holds (p_index p') log \/ index_holds (p_index p') (log ++ [m])) /\
       zlen (log ++ [m]) <= kMaxLogRecords /\ log_fits (log ++ [m]))
  end.
Proof.
  intros Hp Hm. pose proof Hp as [H1 H2 H3 H4 H5 H6 H7].
  pose proof (pair_append_spec _ _ (pair_ok_sectors _ _ Hp) (pair_ok_data_sectors _ _ Hp) p log m H1 (proj1 H2) Hm) as Ha.
  assert (parse (slice (f_byte (p_index (pair_append m p).2)) 0 kSpace) = Ok (index_header (p_header p))) as Hi.
  { destruct H1 as [_ Hb _ _ _ _ _]. pose proof (zlen_nonneg log).
    unfold pair_append. repeat case_if; try done.
    unfold pair_write_index, pair_step, mbind, io_bind, io_run.
    destruct (next_outcome (p_script p)) as [[|n e] s]; cbn -[file_write]; rewrite <- H5; f_equal;
      apply slice_ext; intros i Hi; apply f_byte_write_out; lia. }
  pose proof (pair_append_growth m p) as Hg. destruct H2 as (_ & G1 & G2). rewrite G1, G2 in Hg.
  destruct (pair_append m p) as [r p']. cbn [snd] in Hi, Hg. destruct Ha as (Ed & Eh & Ha).
  split; [done|]. split; [done|].
  assert (forall l, p_poisoned p' = false ->
    journal_ok (pair_sectors p) (data_sectors (p_data p)) p' l -> pair_ok p' l) as Hmk.
  { intros l Hh Hj. unfold pair_sectors in *.
    split; rewrite ?Eh, ?Ed; try done. unfold pair_sectors. by rewrite Eh. }
  destruct r as [u|f]; [destruct Ha; auto|]. destruct Ha as [He Ha]. split; [done|].
  destruct Ha as [[? ?]|[? ?]]; auto.
Qed.

Lemma pair_sync_attempt p (Q : unit -> FilePair -> Prop) (F : FilePair -> Prop) :
  (forall s, Q tt (set_script p s)) -> (forall s, F (set_script p s)) ->
  attempt p_script pair_sync p Q F.
Proof.
  intros HQ HF. unfold attempt, pair_sync, pair_step, mbind, io_bind.
  pose proof (next_outcome_spec (p_script p)) as Ho.
  destruct (next_outcome (p_script p)) as [[|k e] s]; destruct Ho as [Hsub Hf]; simpl.
  - by split.
  - split; [by apply (Hf k)|done].
Qed.

(** One step that leaves the pair as it is but for the script. *)
Lemma sync_bind {B} (k : unit -> io FilePair B) p p0 s0 Q (F : FilePair -> Prop) :
  p = set_script p0 s0 -> (forall s, F (set_script p0 s)) ->
  (forall s, attempt p_script (k tt) (set_script p0 s) Q F) ->
  attempt p_script (pair_sync ≫= k) p Q F.
Proof.
  intros -> HF Hk. eapply (attempt_bind _ _ _ _ (fun _ p' => exists s, p' = set_script p0 s)).
  - apply pair_sync_attempt; intros s; [by exists s|apply HF].
  - intros [] p' [s ->]. apply Hk.
Qed.

Lemma pair_flush_attempt p log :
  pair_ok p log ->
  attempt p_script pair_flush p (fun _ p' => exists s, p' = set_script p s) (fun p' => exists s, p' = set_script p s).
Proof.
  intros Hp. eapply attempt_as; [unfold pair_flush; rewrite (proj1 (po_healthy _ _ Hp)); reflexivity|].
  eapply (sync_bind _ p p (p_script p)); [by destruct p|by eauto|]. intros s1.
  eapply (sync_bind _ _ p s1); [done|by eauto|]. intros s2.
  apply pair_sync_attempt; intros s; by exists s.
Qed.

(** The records written into the new log. *)
Lemma temp_records_attempt f off live p0 s0 (F : FilePair -> Prop) :
  0 <= off -> Forall seg_encodable live -> f_size f = off -> (forall s, F (set_script p0 s)) ->
  attempt p_script (temp_write_records f off live) (set_script p0 s0)
    (fun fo p' => (exists s, p' = set_script p0 s) /\ fo.2 = off + 16 * zlen live /\ f_size fo.1 = fo.2 /\
       (forall i, i < off -> f_byte fo.1 i = f_byte f i) /\
       slice (f_byte fo.1) off (16 * zlen live) = encode_log live) F.
Proof.
  intros Ho Hl. revert f off s0 Ho. induction Hl as [|m live Hm Hl IH]; intros f off s0 Ho Hsz HF.
  { apply attempt_ret. split; [by exists s0|]. change (zlen (@nil segment_mapping)) with 0. split; [simpl; lia|]. split; [done|].
    split; [done|]. by apply slice_nil. }
  pose proof (zlen_encode_record m Hm) as Hz. cbn [temp_write_records].
  eapply (attempt_bind _ _ _ _ (fun f' p' => (exists s, p' = set_script p0 s) /\ f' = file_write f off (encode_record m))).
  { unfold temp_write. eapply sync_bind; [done|done|]. intros s. apply attempt_ret. split; [by exists s|done]. }
  intros f' p' [[s ->] ->]. pose proof (zlen_nonneg live).
  eapply attempt_mono; [apply IH; [lia| |done]|..|done].
  - rewrite f_size_write_end by lia. lia.
  - intros [f2 o2] p' (Hs & Ho2 & Hs2 & Hb & Hr). cbn [fst snd] in *. split; [done|].
    rewrite zlen_cons. split; [lia|]. split; [done|]. split.
    + intros i Hi. rewrite Hb by lia. apply f_byte_write_out. lia.
    + replace (16 * (1 + zlen live)) with (16 + 16 * zlen live) by lia.
      rewrite slice_app, encode_log_cons by lia. f_equal; [|done].
      apply list_eq_bget; [by len|]. rewrite zlen_slice. intros i Hi. rewrite bget_slice by lia.
      rewrite Hb, f_byte_write_in by lia. f_equal. lia.
Qed.

(** What compaction publishes. *)
Definition compacted (p : FilePair) (live : list segment_mapping) (p' : FilePair) : Prop :=
  pair_ok p' live /\ p_data p' = p_data p /\ p_header p' = p_header p.

Section Compact.
Context (p : FilePair) (log live : list segment_mapping) (Hp : pair_ok p log).
Context (Hi : index_ok 0 live) (Hu : Forall untagged live) (Hinj : phys_inj live).
Context (Hl : Forall (live_record (pair_sectors p) (data_sectors (p_data p))) live).

Let Hsec := pair_ok_sectors p log Hp.
Let Hdat := pair_ok_data_sectors p log Hp.

(** The replay of the live index succeeds on an aligned payload and gives the
    index back. *)
Lemma compact_replayed :
  f_size (p_data p) mod kAlignment = 0 -> zlen live <= kMaxRoIndexSize ->
  exists r, replay_new (ht_virtual_size (p_header p)) (f_size (p_data p)) = Ok r /\
    exists r', compact_replay r 0 live = Ok r' /\ replay_finish r' = Ok (log_live live).
Proof.
  intros Ha Hz. pose proof Hp as [_ _ Hh _ _ Hs Hr].
  eexists. split; [by apply replay_new_header|].
  eexists. split; [by apply (compact_replay_sorted _ _ Hsec Hdat [])|].
  destruct (log_live_ok _ _ Hsec Hdat live Hl) as [Hok _].
  pose proof (replay_finish_spec (Rp (pair_sectors p) (data_sectors (p_data p)) (zlen live) (log_live live))
    (live_index _ _ _ Hok)) as Hfin.
  change ([] ++ live) with live. destruct (replay_finish _) as [l|].
  - by destruct Hfin as [-> _].
  - destruct Hfin as [_ []]. simpl. rewrite (log_live_sorted _ _ Hsec Hdat) by done.
    intros x y t u q. rewrite !resolve_normal by done. apply Hinj.
Qed.

(** The new log as a file. *)
Lemma compact_file raw f :
  parse raw = Ok (index_header (p_header p)) -> zlen raw = kSpace -> zlen live <= kMaxRoIndexSize ->
  f_size f = kSpace + 16 * zlen live ->
  (forall i, 0 <= i < kSpace -> f_byte f i = bget raw i) ->
  slice (f_byte f) kSpace (16 * zlen live) = encode_log live ->
  forall s, pair_ok (set_log (set_index (set_script p s) f) (kSpace + 16 * zlen live) (rng <$> log_live live)) live.
Proof.
  intros Hraw Hlen Hz Hsz Hb Hr s. pose proof Hp as [H1 H2 H3 H4 H5 H6 H7]. split; try done.
  - split; try done; [|by eapply log_fits_sorted].
    unfold kMaxLogRecords, kMaxRoIndexSize in *. lia.
  - cbn [p_index set_log set_index p_header set_script]. rewrite <- Hraw. f_equal.
    rewrite <- (slice_bget raw), Hlen. apply slice_ext. intros i Hx. apply Hb. lia.
Qed.

(** Compaction keeps the old journal or publishes the new one; with no more
    entries than the format allows, it fails only with the errno of a fault. *)
Lemma pair_compact_attempt :
  f_size (p_data p) mod kAlignment = 0 -> zlen live <= kMaxRoIndexSize ->
  attempt p_script (pair_compact live) p (fun _ p' => compacted p live p')
    (fun p' => compacted p log p' \/ compacted p live p').
Proof.
  intros Ha Hz. pose proof Hp as [H1 H2 H3 H4 H5 H6 H7].
  assert (forall s, compacted p log (set_script p s) \/ compacted p live (set_script p s)) as HF.
  { intros s. left. split; [by apply pair_ok_script|done]. }
  destruct (compact_replayed Ha Hz) as (r & Hnew & r' & Hrep & Hfin).
  destruct (parse_serialize (index_header (p_header p))) as (raw & Hser & Hlen & _ & Hparse).
  { destruct H3 as (_ & _ & _ & _ & _ & _ & K1 & K2 & K3 & K4 & K5). unfold ht_ok, index_header, kSpace; simpl.
    split; [done|]. split; [lia|]. split; [lia|]. split; [lia|]. done. }
  eapply attempt_as; [unfold pair_compact; rewrite (proj1 H2), (proj2 (Z.ltb_ge _ _)) by done; reflexivity|].
  eapply (sync_bind _ p p (p_script p)); [by destruct p|done|]. intros s1.
  eapply (sync_bind _ _ p s1); [done|done|]. intros s2.
  eapply attempt_lift_bind; [exact Hnew|]. eapply attempt_lift_bind; [exact Hrep|].
  eapply attempt_lift_bind; [exact Hfin|].
  eapply (sync_bind _ _ p s2); [done|done|]. intros s3. eapply attempt_lift_bind; [exact Hser|].
  eapply (attempt_bind _ _ _ _ (fun f' p' => (exists s, p' = set_script p s) /\ f' = file_write empty_file 0 raw)).
  { unfold temp_write. eapply sync_bind; [done|done|]. intros s. apply attempt_ret. split; [by exists s|done]. }
  intros f p1 [[s4 ->] ->]. eapply attempt_bind.
  { apply (temp_records_attempt _ _ live p s4); [done|by eapply live_encodable| |done].
    rewrite f_size_write_end, Hlen by (rewrite Hlen; done). done. }
  intros [f o] p2 ([s5 ->] & Ho & Hs & Hb & Hr). cbn [fst snd] in *.
  eapply (sync_bind _ _ p s5); [done|done|]. intros s6.
  eapply (sync_bind _ _ p s6); [done|done|]. intros s7.
  assert (forall s, compacted p live (set_script
    (set_log (set_index (set_script p s7) f) o (rng <$> log_live live)) s)) as HQ.
  { intros s. split; [|done]. rewrite Ho.
    change (set_script (set_log (set_index (set_script p s7) f) (kSpace + 16 * zlen live) (rng <$> log_live live)) s)
      with (set_log (set_index (set_script p s) f) (kSpace + 16 * zlen live) (rng <$> log_live live)).
    apply (compact_file raw); try done; [lia|]. intros i Hx. rewrite Hb by lia.
    rewrite f_byte_write_in by lia. f_equal. lia. }
  eapply (attempt_bind _ _ _ _ (fun _ p' => p' = set_log (set_index (set_script p s7) f) o (rng <$> log_live live))).
  { eapply attempt_run; done. }
  intros u p3 ->. apply pair_sync_attempt; intros s; [|right]; apply HQ.
Qed.
End Compact.

(** [append] in terms of what the files hold afterwards. *)
(** The files of a pair in any state hold this log, and no growth is under way. *)
Definition pair_disk (p : FilePair) (log : list segment_mapping) : Prop :=
  disk_log (p_data p) (p_index p) (p_header p) log /\ p_grow p = None.

Lemma pair_append_log p log m :
  pair_ok p log -> live_record (pair_sectors p) (data_sectors (p_data p)) m ->
  phys_inj (log_live log) -> phys_inj (log_live (log ++ [m])) ->
  let '(r, p') := pair_append m p in
  p_data p' = p_data p /\ p_header p' = p_header p /\
  match r with
  | Ok _ => pair_ok p' (log ++ [m])
  | Err f =>
      any_errno f /\
      exists log', (log' = log \/ log' = log ++ [m]) /\
        disk_log (p_data p) (p_index p') (p_header p) log' /\
        (p_poisoned p' = false -> log' = log /\ pair_ok p' log)
  end.
Proof.
  intros Hp Hm Hj Hj'. pose proof (pair_append_ok p log m Hp Hm) as Ha.
  destruct (pair_append m p) as [r p']. destruct Ha as (Ed & Eh & Ha).
  split; [done|]. split; [done|]. destruct r as [u|f]; [done|].
  destruct Ha as [He [Hl|(Hpo & Hidx & Hholds & Hc & Hf)]]; (split; [done|]).
  { exists log. split; [by left|]. split; [|done]. rewrite <- Ed, <- Eh. by apply pair_ok_disk. }
  pose proof Hp as [[J1 _ J3 _ _ J6 _] _ P3 P4 _ P6 P7].
  destruct Hholds as [Hh|Hh]; [exists log|exists (log ++ [m])].
  - split; [by left|]. split; [by split|]. by rewrite Hpo.
  - split; [by right|]. split; [|by rewrite Hpo]. split; try done.
    apply Forall_app. split; [done|]. by apply Forall_cons.
Qed.

(** [compact] on any payload: the journal stays or becomes the live index. *)
Lemma pair_compact_any p log live :
  pair_ok p log -> index_ok 0 live -> Forall untagged live -> phys_inj live ->
  Forall (live_record (pair_sectors p) (data_sectors (p_data p))) live ->
  let '(r, p') := pair_compact live p in
  res_errno r /\ exists log', (log' = log \/ log' = live) /\ compacted p log' p'.
Proof.
  intros Hp Hi Hu Hj Hl.
  assert (forall s, compacted p log (set_script p s)) as Hsame.
  { intros s. split; [by apply pair_ok_script|done]. }
  destruct (decide (zlen live <= kMaxRoIndexSize)) as [Hz|Hz].
  2: { unfold pair_compact. rewrite (proj1 (po_healthy _ _ Hp)), (proj2 (Z.ltb_lt _ _)) by lia.
       split; [auto with errno|]. exists log. split; [by left|]. by split. }
  destruct (decide (f_size (p_data p) mod kAlignment = 0)) as [Ha|Ha].
  - pose proof (attempt_result _ _ _ _ _ (pair_compact_attempt p log live Hp Hi Hu Hj Hl Ha Hz)) as Hc.
    destruct (pair_compact live p) as [[u|f] p'].
    + split; [done|]. exists live. split; [by right|done].
    + destruct Hc as [He [Hc|Hc]]; (split; [done|]); eauto.
  - unfold pair_compact. rewrite (proj1 (po_healthy _ _ Hp)), (proj2 (Z.ltb_ge _ _)) by lia.
    unfold pair_sync, pair_step, mbind, io_bind, io_lift. cbn -[replay_new].
    destruct (next_outcome (p_script p)) as [[|n e] s1]; cbn -[replay_new];
      [|split; [auto with errno|]; exists log; split; [by left|apply Hsame]].
    destruct (next_outcome s1) as [[|n e] s2]; cbn -[replay_new];
      [|split; [auto with errno|]; exists log; split; [by left|apply Hsame]].
    unfold replay_new. rewrite (proj2 (Z.eqb_neq (f_size _ mod _) 0)) by done. rewrite !orb_true_r.
    split; [auto with errno|]. exists log. split; [by left|apply Hsame].
Qed.

(** ** The properties of this component *)

(** A new pair, as its creation leaves it: two headers and no record. *)
Definition raw_header (h : HeaderTrailer) : bytes := match serialize h with Ok b => b | Err _ => [] end.
Definition header_file (h : HeaderTrailer) : file := File kSpace (bget (raw_header h)).
Definition fresh_pair (h : HeaderTrailer) (s : script) : FilePair :=
  Pair s (header_file h) (header_file (index_header h)) kSpace false h [] [] kSpace false None.

Lemma raw_header_ok h : ht_ok h -> zlen (raw_header h) = kSpace /\ parse (raw_header h) = Ok h.
Proof. intros H. destruct (parse_serialize h H) as (b & Hs & Hz & _ & Hp). unfold raw_header. by rewrite Hs. Qed.

Lemma header_file_ok h : ht_ok h -> parse (slice (f_byte (header_file h)) 0 kSpace) = Ok h.
Proof. intros H. destruct (raw_header_ok h H) as [Hz Hp]. rewrite <- Hz. cbn [f_byte header_file]. by rewrite slice_bget. Qed.

Lemma index_header_ok h : ht_ok h -> ht_ok (index_header h).
Proof.
  intros (K0 & _ & _ & _ & K). unfold ht_ok, index_header, kSpace; simpl.
  split; [done|]. split; [lia|]. split; [lia|]. split; [lia|]. done.
Qed.

Lemma fresh_pair_ok h s : pair_header h -> pair_ok (fresh_pair h s) [].
Proof.
  intros H. pose proof H as (_ & _ & _ & _ & _ & _ & Hok). split; try done.
  - split; try done; intros; by rewrite take_nil.
  - by apply header_file_ok.
  - by apply header_file_ok, index_header_ok.
Qed.

(** A crash of the journal append at any point is recovered.  Whatever the
    faults of [append], the files it leaves reopen, and the index of the
    reopened layer is the replay of the old log or of the old log with the new
    record, the latter whenever [append] reported success.  A failed append
    either leaves the pair healthy and unchanged or poisons it.  The reopening
    itself fails only with the errno of an I/O fault, and then leaves the same
    log on disk. *)
Theorem append_crash_recovery p log m s :
  pair_ok p log -> live_record (pair_sectors p) (data_sectors (p_data p)) m ->
  phys_inj (log_live log) -> phys_inj (log_live (log ++ [m])) ->
  sealed_tail (p_data p) = false -> f_size (p_data p) < 2 ^ 64 ->
  let '(r, p') := pair_append m p in
  (exists log', (log' = log \/ log' = log ++ [m]) /\ (is_ok r = true -> log' = log ++ [m]) /\
    attempt p_script pair_open (unopened s (p_data p') (p_index p') (p_grow p'))
      (fun q _ => opened (p_data p) (p_header p) log' q)
      (fun d' => disk_ok (p_data d') (p_index d') (p_header p) log' /\ settled d')) /\
  match r with
  | Ok _ => pair_ok p' (log ++ [m])
  | Err f => any_errno f /\ (pair_ok p' log \/ p_poisoned p' = true)
  end.
Proof.
  intros Hp Hm Hj Hj' Hs H64. pose proof (pair_append_log p log m Hp Hm Hj Hj') as Ha.
  pose proof (proj2 (pair_append_growth m p)) as Eg. destruct (po_healthy _ _ Hp) as (_ & _ & G). rewrite G in Eg.
  destruct (pair_append m p) as [r p']. cbn [snd] in Eg. destruct Ha as (Ed & Eh & Ha).
  assert (forall l, disk_log (p_data p) (p_index p') (p_header p) l ->
    attempt p_script pair_open (unopened s (p_data p') (p_index p') (p_grow p'))
      (fun q _ => opened (p_data p) (p_header p) l q)
      (fun d' => disk_ok (p_data d') (p_index d') (p_header p) l /\ settled d')) as Hopen.
  { intros l Hd. rewrite Ed, Eg. by apply (pair_open_spec (unopened s (p_data p) (p_index p') None)). }
  destruct r as [u|f].
  - split; [|done]. exists (log ++ [m]). split; [by right|]. split; [done|]. apply Hopen.
    rewrite <- Ed, <- Eh. by apply pair_ok_disk.
  - destruct Ha as (He & log' & Hl & Hd & Hh). split; [exists log'; split; [done|]; split; [done|]; auto|]. split; [done|].
    destruct (p_poisoned p') eqn:Hpo; [by right|]. left. by apply Hh.
Qed.

(** A header for the examples: one mebibyte, a well-formed uuid. *)
Definition example_uuid : bytes :=
  replicate 8 48 ++ [45] ++ replicate 4 48 ++ [45] ++ replicate 4 48 ++ [45] ++ replicate 4 48 ++ [45] ++ replicate 12 48.
Definition example_header : HeaderTrailer := HT 390 3 0 0 1048576 example_uuid [] 0 1 1 [].
Lemma example_header_ok : pair_header example_header.
Proof.
  unfold pair_header, ht_ok, cstr_ok, is_byte, kMaxOffset, kAlignment; simpl.
  repeat split; try lia; try (by vm_compute); try (by left); repeat constructor; lia.
Qed.

Lemma append_crash_recovery_witness :
  let p := fresh_pair example_header [Failed 8 EIO] in
  let m := Seg 0 16 8 true 0 in
  exists log', (log' = [] \/ log' = [m]) /\
    attempt p_script pair_open
      (unopened [] (p_data (pair_append m p).2) (p_index (pair_append m p).2) (p_grow (pair_append m p).2))
      (fun q _ => opened (p_data p) (p_header p) log' q)
      (fun d' => disk_ok (p_data d') (p_index d') (p_header p) log' /\ settled d').
Proof.
  intros p m.
  assert (forall l, l = [] \/ l = [m] -> phys_inj (log_live l)) as Hj.
  { intros l Hl x y t u q. destruct Hl as [-> | ->]; [done|].
    change (log_live [m]) with [m]. simpl. case_if; done. }
  pose proof (append_crash_recovery p [] m [] (fresh_pair_ok _ _ example_header_ok)) as H.
  destruct (pair_append m p) as [r p']. destruct H as [(log' & H1 & _ & H2) _].
  - split; [unfold seg_encodable, kMaxMoffset, kMaxLength, kMaxOffset; simpl; lia|].
    split; [done|]. right. by vm_compute.
  - apply Hj. by left.
  - apply Hj. by right.
  - reflexivity.
  - reflexivity.
  - by exists log'.
Defined.

(** Compacting the journal never changes what the layer holds.  On an
    aligned payload, a log whose replay agrees with the live index given to
    [compact] is replaced by that index: after any faults the pair is healthy,
    its payload is untouched, and its journal resolves every sector as before.
    When nothing fails the journal has one record per index entry. *)
Theorem compaction_preserves_mappings p log live :
  pair_ok p log -> index_ok 0 live -> Forall untagged live -> phys_inj live ->
  Forall (live_record (pair_sectors p) (data_sectors (p_data p))) live ->
  (forall x, resolve live x = log_resolve log x Hole) ->
  f_size (p_data p) mod kAlignment = 0 -> zlen live <= kMaxRoIndexSize ->
  attempt p_script (pair_compact live) p
    (fun _ p' => compacted p live p')
    (fun p' => compacted p log p' \/ compacted p live p') /\
  (forall log', log' = log \/ log' = live ->
     forall x, resolve (log_live log') x = resolve live x).
Proof.
  intros Hp Hi Hu Hj Hl Hres Ha Hz. split; [by apply pair_compact_attempt|].
  pose proof (pair_ok_sectors _ _ Hp) as Hsec. pose proof (pair_ok_data_sectors _ _ Hp) as Hdat.
  intros log' [-> | ->] x.
  - destruct Hp as [[J _ _ _ _ _ _] _ _ _ _ _ _]. rewrite Hres.
    by destruct (log_live_ok _ _ Hsec Hdat log J) as [_ ->].
  - rewrite (log_live_sorted _ _ Hsec Hdat) by done. by apply resolve_normal.
Qed.

Lemma compaction_preserves_mappings_witness :
  let p := fresh_pair example_header [] in
  attempt p_script (pair_compact []) p (fun _ p' => compacted p [] p')
    (fun p' => compacted p [] p' \/ compacted p [] p').
Proof.
  apply (compaction_preserves_mappings _ []); [by apply fresh_pair_ok, example_header_ok|apply index_ok_nil|
    constructor|done|constructor|done|reflexivity|done].
Defined.

(** A payload write that stops inside a sector disables compaction.  The pair
    stays healthy, but [compact] checks the raw size of the payload file where
    [open] rounds it: every later compaction reports [EINVAL] although nothing
    on disk is wrong. *)
Theorem torn_payload_blocks_compaction p log bs n e live :
  pair_ok p log -> p_script p = [Failed n e] ->
  f_size (p_data p) mod kAlignment = 0 -> data_sectors (p_data p) + n < kMaxMoffset ->
  0 < n < zlen bs -> n mod kAlignment <> 0 -> zlen live <= kMaxRoIndexSize ->
  let '(r, p1) := pair_write_data bs (f_size (p_data p)) p in
  r = Err (Errno e) /\ pair_ok p1 log /\ pair_compact live p1 = (Err (Errno EINVAL), p1).
Proof.
  intros Hp Hs Ha Hroom Hn Hm Hz. pose proof Hp as [_ _ Hh _ _ Hsz Hr].
  assert (f_size (file_write (p_data p) (f_size (p_data p)) (partial n bs)) = f_size (p_data p) + n) as Hsize.
  { rewrite f_size_write_end; unfold partial; rewrite zlen_ztake; lia. }
  assert ((f_size (p_data p) + n) mod kAlignment <> 0) as Hmod.
  { rewrite Z.add_mod, Ha, Z.add_0_l, Z.mod_mod by (unfold kAlignment; lia). done. }
  unfold pair_write_data, pair_step, mbind, io_bind, io_run. rewrite Hs. simpl.
  split; [done|]. set (p1 := set_data _ _).
  assert (pair_ok p1 log) as Hp1.
  { apply (pair_ok_write (set_script p [])); [by apply pair_ok_script|done|]. unfold data_sectors in *. change (p_data (set_script p [])) with (p_data p).
    rewrite Hsize. assert ((f_size (p_data p) + n) / kAlignment <= f_size (p_data p) / kAlignment + n); [|lia].
    rewrite (Z.div_mod (f_size (p_data p)) kAlignment) at 1 by (unfold kAlignment; lia).
    rewrite Ha, Z.add_0_r, Z.mul_comm, Z.div_add_l by (unfold kAlignment; lia).
    pose proof (Z.div_le_upper_bound n kAlignment n). unfold kAlignment in *. lia. }
  split; [done|]. unfold pair_compact. rewrite (proj1 (po_healthy _ _ Hp1)), (proj2 (Z.ltb_ge _ _)) by done.
  unfold pair_sync, pair_step, mbind, io_bind, io_lift. cbn -[file_write replay_new]. 
  unfold replay_new. rewrite Hsize, (proj2 (Z.eqb_neq ((_ + n) mod _) 0)) by done.
  destruct Hh as (_ & _ & _ & V1 & V2 & V3 & _). by rewrite !orb_true_r.
Qed.

Lemma torn_payload_blocks_compaction_witness :
  let p := fresh_pair example_header [Failed 100 ENOSPC] in
  let '(r, p1) := pair_write_data (zeros 512) (f_size (p_data p)) p in
  r = Err (Errno ENOSPC) /\ pair_ok p1 [] /\ pair_compact [] p1 = (Err (Errno EINVAL), p1).
Proof.
  apply (torn_payload_blocks_compaction _ [] (zeros 512) 100 ENOSPC []);
    [by apply fresh_pair_ok, example_header_ok|reflexivity|reflexivity|reflexivity|split; reflexivity|done|done].
Defined.

Lemma sealed_tail_last f tail :
  2 * kSpace <= f_size f < 2 ^ 64 -> parse (slice (f_byte f) (f_size f - kSpace) kSpace) = Ok tail ->
  ht_flags tail = 6 -> ht_version tail = 1 -> ht_sub_version tail = 1 ->
  ht_index_offset tail = kSpace -> ht_index_size tail = 0 -> ht_virtual_size tail mod kAlignment = 0 ->
  sealed_tail f = true.
Proof.
  intros Hs Hp T1 T2 T3 T4 T5 T6. unfold sealed_tail. rewrite (proj2 (Z.ltb_ge _ _)), Hp by lia.
  unfold sealed_candidate. rewrite T1, T2, T3, T4, T5, T6. simpl. unfold kSpace in *.
  rewrite (u64_small (_ - _ - _)) by lia.
  by rewrite (proj2 (Z.ltb_ge (_ - _) _)), (proj2 (Z.ltb_ge (_ - _ - _) (u64 0))) by (lia || (change (u64 0) with 0; lia)).
Qed.

(** A read-only step without faults. *)
Lemma faultless_read {A} (m : io FilePair A) v d Q :
  p_script d = [] -> attempt p_script m d (fun x d' => x = v /\ same_files d d') Q -> m d = (Ok v, d).
Proof.
  unfold attempt. intros Hd. rewrite Hd. destruct (m d) as [[x|[e| |]] d']; intros H; try done.
  - destruct H as (Hs & -> & [s ->]). simpl in *. destruct s as [|o s]; [destruct d; simpl in *; by subst|].
    specialize (Hs o (list_elem_of_here o s)). by apply not_elem_of_nil in Hs.
  - destruct H as [[n Hn] _]. by apply not_elem_of_nil in Hn.
Qed.

(** The contents of the device decide whether its layer reopens.  A payload
    whose last block is a well-formed trailer, as the last block of any sealed
    layer file written by the guest is, makes [open] report [EALREADY]: the
    header says the layer is not sealed, but the guest's block is taken for the
    layer's own trailer.  The journal and the payload are intact throughout. *)
Theorem guest_block_blocks_reopen p log tail :
  pair_ok p log -> p_script p = [] -> ht_ok tail ->
  ht_flags tail = 6 -> ht_version tail = 1 -> ht_sub_version tail = 1 ->
  ht_index_offset tail = kSpace -> ht_index_size tail = 0 -> ht_virtual_size tail mod kAlignment = 0 ->
  f_size (p_data p) < 2 ^ 50 ->
  let '(r, p1) := pair_write_data (raw_header tail) (f_size (p_data p)) p in
  r = Ok tt /\ pair_ok p1 log /\
  (pair_open (unopened [] (p_data p1) (p_index p1) (p_grow p1))).1 = Err (Errno EALREADY).
Proof.
  intros Hp Hs Ht T1 T2 T3 T4 T5 T6 Hlt. destruct (raw_header_ok tail Ht) as [Hz Hparse].
  pose proof Hp as [_ _ Hh Hd _ Hsz Hr].
  assert (f_size (file_write (p_data p) (f_size (p_data p)) (raw_header tail)) = f_size (p_data p) + kSpace) as Hsize
    by (rewrite f_size_write_end; rewrite Hz; unfold kSpace; lia).
  unfold pair_write_data, pair_step, mbind, io_bind, io_run. rewrite Hs. simpl next_outcome. cbv iota beta.
  split; [done|]. set (p1 := set_data _ _).
  assert (pair_ok p1 log) as Hp1.
  { apply (pair_ok_write (set_script p [])); [by apply pair_ok_script|done|].
    change (p_data (set_script p [])) with (p_data p). unfold data_sectors. rewrite Hsize.
    apply Z.div_lt_upper_bound; unfold kMaxMoffset, kSpace, kAlignment in *; lia. }
  split; [done|]. set (f := p_data p1).
  assert (f_size f = f_size (p_data p) + kSpace) as Hf by exact Hsize.
  assert (sealed_tail f = true) as Hseal.
  { apply (sealed_tail_last f tail); try done; [unfold kSpace in *; lia|].
    rewrite <- Hparse, Hf. f_equal. replace (f_size (p_data p) + kSpace - kSpace) with (f_size (p_data p)) by lia.
    apply list_eq_bget; [by len|]. rewrite zlen_slice. intros i Hi. rewrite bget_slice by lia.
    unfold f, p1. cbn [p_data set_data]. rewrite f_byte_write_in by lia. f_equal. lia. }
  unfold pair_open, mbind, io_bind, io_lift. cbv zeta. cbn [p_data unopened].
  rewrite (proj2 (Z.ltb_ge (f_size f) kSpace)) by (unfold kSpace in *; lia).
  rewrite (faultless_read _ _ (unopened [] f (p_index p1) (p_grow p1)) _ eq_refl (disk_read_attempt f 0 kSpace _ ltac:(lia) ltac:(done) ltac:(unfold kSpace in *; lia))).
  pose proof (po_data _ _ Hp1) as Hd1. fold f in Hd1. rewrite Hd1, unsealed_header by apply Hp1.
  unfold io_run. rewrite (faultless_read _ _ (set_growth (unopened [] f (p_index p1) (p_grow p1)) _ _ _) _ eq_refl (sealed_trailer_attempt f _ ltac:(unfold kSpace in *; lia))), Hseal. done.
Qed.

Lemma guest_block_blocks_reopen_witness :
  let p := fresh_pair example_header [] in
  let tail := HT 390 6 4096 0 1048576 example_uuid [] 0 1 1 [] in
  let '(r, p1) := pair_write_data (raw_header tail) (f_size (p_data p)) p in
  r = Ok tt /\ pair_ok p1 [] /\
  (pair_open (unopened [] (p_data p1) (p_index p1) (p_grow p1))).1 = Err (Errno EALREADY).
Proof.
  apply (guest_block_blocks_reopen (fresh_pair example_header []) [] (HT 390 6 4096 0 1048576 example_uuid [] 0 1 1 []));
    [by apply fresh_pair_ok, example_header_ok|reflexivity| |reflexivity..].
  unfold ht_ok, cstr_ok, is_byte; simpl.
  repeat split; try lia; try (by vm_compute); repeat constructor; lia.
Defined.
