(* ===== verification/PairGrow.v ===== *)
(** * Growing a writable pair ([format/lsmt_rw_file.cpp], [recover_grow] and [grow])

    The transaction that changes the capacity in the two headers: an intent is
    published next to the index, the headers are written forward, the intent is
    retired.  A stop at any point, also inside a header, is completed by the
    next open or by the next grow of the same instance. *)
From S2P Require Import Prelude Bytes Crc32c LsmtFormat Source File Segments Merge Trim Journal FilePair.

Open Scope Z_scope.

(** ** Torn headers *)

(** What a write of [a] over [b] leaves that stops after [k] bytes. *)
Definition torn (k : Z) (a b : bytes) : bytes := ztake k a ++ zdrop k b.

Lemma zlen_torn k a b : zlen a = zlen b -> zlen (torn k a b) = zlen b.
Proof. intros. unfold torn. len. Qed.

Lemma bget_torn k a b i :
  zlen a = zlen b -> 0 <= i -> bget (torn k a b) i = if i <? k then bget a i else bget b i.
Proof.
  intros Hz Hi. pose proof (zlen_nonneg a). unfold torn. destruct (Z.ltb_spec i k).
  - destruct (decide (i < zlen a)).
    + rewrite bget_app_l by len. by apply bget_ztake.
    + rewrite !bget_out; [done|lia|len].
  - destruct (decide (zlen a <= k)).
    + rewrite !bget_out; [done|lia|len].
    + rewrite bget_app_r by len. rewrite zlen_ztake. destruct (decide (k < 0)).
      * unfold zdrop. replace (Z.to_nat k) with 0%nat by lia. rewrite drop_0. f_equal. lia.
      * rewrite bget_zdrop by lia. f_equal. lia.
Qed.

Lemma torn_byte k a b : Forall is_byte a -> Forall is_byte b -> Forall is_byte (torn k a b).
Proof. intros. apply Forall_app. split; [by apply Forall_take|by apply Forall_drop]. Qed.

(** Writing again over a torn write. *)
Lemma torn_torn k j a b : zlen a = zlen b -> torn k a (torn j a b) = torn (Z.max k j) a b.
Proof.
  intros Hz. apply list_eq_bget; [by rewrite !zlen_torn by (rewrite ?zlen_torn; done)|].
  intros i Hi. rewrite !bget_torn by (rewrite ?zlen_torn; lia || done).
  destruct (Z.ltb_spec i k), (Z.ltb_spec i j), (Z.ltb_spec i (Z.max k j)); done || lia.
Qed.
Lemma torn_none a b : torn 0 a b = b.
Proof. done. Qed.
Lemma torn_all k a b : zlen a <= k -> zlen a = zlen b -> torn k a b = a.
Proof. intros. unfold torn. rewrite ztake_all, zdrop_all by lia. apply app_nil_r. Qed.

(** Records that differ in one field differ in its bytes. *)
Lemma puts_swap fs gs b c i :
  0 <= i ->
  Forall2 (fun f g => f.1 = g.1 /\ zlen f.2 = zlen g.2 /\ (f.2 = g.2 \/ ~ (f.1 <= i < f.1 + zlen f.2))) fs gs ->
  forall lo, 0 <= lo -> layout_ok lo (zlen b) fs -> zlen c = zlen b -> bget b i = bget c i ->
  bget (puts b fs) i = bget (puts c gs) i.
Proof.
  intros Hi H. revert b c. induction H as [|[p x] [q y] fs gs (E1 & E2 & E3) H IH]; intros b c lo Hlo Hl Hz Hb; [done|].
  simpl in *. subst q. destruct Hl as [Hp Hl]. pose proof (layout_ok_le _ _ _ Hl). pose proof (zlen_nonneg x).
  apply (IH _ _ (p + zlen x)); [lia|by rewrite zlen_put by lia|rewrite !zlen_put; lia|].
  rewrite !bget_put by lia. rewrite <- E2. repeat case_decide; try done. destruct E3 as [-> |]; [done|lia].
Qed.

Section Headers.
Context (h : HeaderTrailer) (Hok : ht_ok h).

Lemma with_vs_ok v : 0 <= v < 2 ^ 64 -> ht_ok (with_virtual_size h v).
Proof.
  destruct Hok as (H1 & H2 & H3 & H4 & H5 & H6). intros Hv. unfold ht_ok, with_virtual_size. simpl.
  do 4 (split; [done|]). split; [lia|done].
Qed.

Lemma raw_header_puts v :
  0 <= v < 2 ^ 64 -> raw_header (with_virtual_size h v) = puts (zeros kSpace) (ht_fields (with_virtual_size h v)).
Proof. intros Hv. unfold raw_header. by rewrite serialize_puts by by apply with_vs_ok. Qed.

Lemma raw_header_vs v :
  0 <= v < 2 ^ 64 -> sub 48 8 (raw_header (with_virtual_size h v)) = le_bytes 8 v.
Proof.
  intros Hv. rewrite raw_header_puts by done.
  apply (puts_field _ _ 0); [lia|by apply ht_fields_layout, with_vs_ok| |by rewrite zlen_le_bytes].
  unfold ht_fields. in_fields.
Qed.

Lemma raw_header_same u v i :
  0 <= u < 2 ^ 64 -> 0 <= v < 2 ^ 64 -> 0 <= i -> ~ (48 <= i < 56) ->
  bget (raw_header (with_virtual_size h u)) i = bget (raw_header (with_virtual_size h v)) i.
Proof.
  intros Hu Hv Hi Hn. rewrite !raw_header_puts by done.
  apply (puts_swap _ _ _ _ _ Hi) with (lo := 0); [|lia|by apply ht_fields_layout, with_vs_ok|done|done].
  unfold ht_fields, with_virtual_size. simpl ht_flags. 
  repeat (apply Forall2_cons_2; [cbn [fst snd]; split; [done|]; split; [done|]; first [by left|right; done]|]).
  apply Forall2_nil_2.
Qed.
End Headers.

(** ** The capacity of a torn header *)

Lemma le_val_torn j n a b :
  (j <= n)%nat ->
  le_val (take j (le_bytes n a) ++ drop j (le_bytes n b)) =
    a mod 2 ^ (8 * Z.of_nat j) + 2 ^ (8 * Z.of_nat j) * ((b / 2 ^ (8 * Z.of_nat j)) mod 2 ^ (8 * Z.of_nat (n - j))).
Proof.
  revert n a b. induction j as [|j IH]; intros n a b Hj.
  { rewrite drop_0, take_0. cbn [app]. rewrite le_val_bytes, Z.mod_1_r, Z.div_1_r, Nat.sub_0_r. lia. }
  destruct n as [|n]; [lia|]. cbn [le_bytes take drop app le_val]. rewrite IH by lia.
  replace (8 * Z.of_nat (S j)) with (8 + 8 * Z.of_nat j) by lia. rewrite Z.pow_add_r by lia.
  rewrite Z.rem_mul_r, Z.div_div by lia. replace (S n - S j)%nat with (n - j)%nat by lia. lia.
Qed.

Lemma land_mask v m : 0 <= m <= 64 -> Z.land v (2 ^ m - 1) = v mod 2 ^ m.
Proof. intros. replace (2 ^ m - 1) with (Z.ones m) by (rewrite Z.ones_equiv; lia). apply Z.land_ones. lia. Qed.

Lemma land_unmask v m :
  0 <= m <= 64 -> 0 <= v < 2 ^ 64 -> Z.land v (Z.lxor (2 ^ m - 1) (2 ^ 64 - 1)) = Z.shiftl (v / 2 ^ m) m.
Proof.
  intros Hm Hv. replace (2 ^ m - 1) with (Z.ones m) by (rewrite Z.ones_equiv; lia).
  change (2 ^ 64 - 1) with (Z.ones 64). apply Z.bits_inj'. intros i Hi.
  rewrite Z.land_spec, Z.lxor_spec, Z.shiftl_spec by lia.
  rewrite !Z.testbit_ones by lia. rewrite (proj2 (Z.leb_le 0 i)) by lia. cbn [andb].
  destruct (Z.ltb_spec i m).
  - rewrite (proj2 (Z.ltb_lt i 64)), (Z.testbit_neg_r _ (i - m)) by lia. apply andb_false_r.
  - rewrite <- Z.shiftr_div_pow2, Z.shiftr_spec by lia. replace (i - m + m) with i by lia.
    destruct (Z.ltb_spec i 64); [apply andb_true_r|]. rewrite andb_false_r. symmetry.
    rewrite <- (Z.mod_small v (2 ^ 64)) by lia. by apply Z.mod_pow2_bits_high.
Qed.

Definition mixed (k v' v : Z) : Z := le_val (torn (k - 48) (le_bytes 8 v') (le_bytes 8 v)).

Lemma mixed_bound k v' v : 0 <= mixed k v' v < 2 ^ 64.
Proof.
  unfold mixed. pose proof (le_val_bound (torn (k - 48) (le_bytes 8 v') (le_bytes 8 v))) as H.
  rewrite zlen_torn, zlen_le_bytes in H by (by rewrite !zlen_le_bytes). apply H.
  apply torn_byte; apply le_bytes_byte.
Qed.

Lemma mixed_matches k v' v :
  0 <= v < 2 ^ 64 -> capacity_matches (mixed k v' v) v' v = true.
Proof.
  intros Hv. set (j := Z.min 8 (Z.max 0 (k - 48))).
  assert (mixed k v' v = le_val (take (Z.to_nat j) (le_bytes 8 v') ++ drop (Z.to_nat j) (le_bytes 8 v))) as ->.
  { unfold mixed, torn, ztake, zdrop, j. destruct (decide (k - 48 <= 8)).
    - do 3 f_equal; lia.
    - rewrite !take_ge, !drop_ge by (rewrite length_le_bytes; lia). done. }
  rewrite le_val_torn by lia. unfold capacity_matches. apply existsb_exists. exists j.
  split; [apply list_elem_of_In, elem_of_seqZ; lia|]. apply Z.eqb_eq.
  replace (if j =? 8 then 2 ^ 64 - 1 else Z.shiftl 1 (8 * j) - 1) with (2 ^ (8 * j) - 1).
  2: { destruct (Z.eqb_spec j 8) as [-> |]; [done|]. by rewrite Z.shiftl_1_l. }
  rewrite land_mask, land_unmask by lia. rewrite lor_shiftl_add by (try apply Z.mod_pos_bound; lia).
  rewrite Z2Nat.id by lia. rewrite (Z.mod_small (v / 2 ^ (8 * j))); [lia|].
  split; [apply Z.div_pos; lia|]. apply Z.div_lt_upper_bound; [lia|]. rewrite <- Z.pow_add_r by lia.
  replace (8 * j + 8 * Z.of_nat (8 - Z.to_nat j)) with 64 by lia. lia.
Qed.

Lemma torn_header h k v' v :
  ht_ok h -> 0 <= v' < 2 ^ 64 -> 0 <= v < 2 ^ 64 ->
  torn k (raw_header (with_virtual_size h v')) (raw_header (with_virtual_size h v)) =
    raw_header (with_virtual_size h (mixed k v' v)).
Proof.
  intros Hok Hv' Hv. pose proof (mixed_bound k v' v) as Hm.
  assert (forall u, 0 <= u < 2 ^ 64 -> zlen (raw_header (with_virtual_size h u)) = 4096) as Hz
    by (intros u Hu; by apply raw_header_ok, with_vs_ok).
  assert (forall u i, 0 <= u < 2 ^ 64 -> 48 <= i < 56 ->
    bget (raw_header (with_virtual_size h u)) i = bget (le_bytes 8 u) (i - 48)) as Hvs.
  { intros u i Hu Hi. rewrite <- (raw_header_vs h Hok u Hu), bget_sub by lia. f_equal. lia. }
  assert (zlen (torn k (raw_header (with_virtual_size h v')) (raw_header (with_virtual_size h v))) = 4096) as Hzt
    by (rewrite zlen_torn; rewrite ?Hz; done).
  apply list_eq_bget; [by rewrite Hzt, Hz|]. rewrite Hzt.
  intros i Hi. rewrite bget_torn by (rewrite ?Hz; done || lia).
  destruct (decide (48 <= i < 56)) as [Hin|Hout].
  - rewrite !Hvs by done. unfold mixed.
    assert (zlen (torn (k - 48) (le_bytes 8 v') (le_bytes 8 v)) = 8) as Hz8
      by (rewrite zlen_torn; by rewrite !zlen_le_bytes).
    replace 8%nat with (length (torn (k - 48) (le_bytes 8 v') (le_bytes 8 v))) at 3
      by (unfold zlen in Hz8; lia).
    rewrite le_bytes_val by (apply torn_byte; apply le_bytes_byte).
    rewrite bget_torn by (rewrite ?zlen_le_bytes; done || lia).
    destruct (Z.ltb_spec i k), (Z.ltb_spec (i - 48) (k - 48)); done || lia.
  - case_if; apply raw_header_same; done || lia.
Qed.

(** ** The intent *)

Lemma raw_header_byte h : ht_ok h -> Forall is_byte (raw_header h).
Proof. intros H. destruct (parse_serialize h H) as (b & Hs & _ & Hb & _). unfold raw_header. by rewrite Hs. Qed.

Lemma layout_ok_mono lo n n' fs : n <= n' -> layout_ok lo n fs -> layout_ok lo n' fs.
Proof. revert lo. induction fs as [|[p bs] fs IH]; intros lo Hn; simpl; [lia|]. intros [? ?]. auto. Qed.
Lemma layout_ok_in lo n fs p bs : layout_ok lo n fs -> (p, bs) ∈ fs -> lo <= p /\ p + zlen bs <= n.
Proof.
  revert lo. induction fs as [|[q cs] fs IH]; intros lo; [by intros _ ?%not_elem_of_nil|].
  simpl. intros [Hq Hf] [[= <- <-]|Hin]%elem_of_cons.
  - split; [done|]. by apply layout_ok_le in Hf.
  - pose proof (zlen_nonneg cs). destruct (IH _ Hf Hin). lia.
Qed.

(** A record of fields that ends in the checksum of what precedes it. *)
Section Checked.
Context (n : Z) (fields : list (Z * bytes)).
Context (Hn : 4 <= n) (Hl : layout_ok 0 (n - 4) fields) (Hb : Forall (fun f => Forall is_byte f.2) fields).

Let body : bytes := puts (zeros n) fields.
Definition checked : bytes := put body (n - 4) (le_bytes 4 (intent_checksum (ztake (n - 4) body))).

Lemma checked_spec :
  zlen checked = n /\ Forall is_byte checked /\
  load_u32_le checked (n - 4) = intent_checksum (ztake (n - 4) checked) /\
  forall p bs k, (p, bs) ∈ fields -> zlen bs = k -> sub p k checked = bs.
Proof.
  assert (layout_ok 0 (zlen (zeros n)) fields) as Hl'
    by (eapply layout_ok_mono; [|exact Hl]; rewrite zlen_zeros; lia).
  assert (zlen body = n) as Hz.
  { destruct (puts_below _ _ 0 ltac:(lia) Hl') as [Hz _]. unfold body. rewrite Hz, zlen_zeros. lia. }
  unfold checked. set (c := intent_checksum _). assert (0 <= c < 2 ^ 32) as Hc by apply crc32c_bound.
  assert (Forall is_byte body) as Hbb by (apply puts_byte; [apply zeros_byte|done]).
  set (raw := put body (n - 4) (le_bytes 4 c)).
  assert (zlen raw = n) as Hzr by (unfold raw; rewrite zlen_put; rewrite ?zlen_le_bytes, ?Hz; lia).
  assert (Forall is_byte raw) as Hbr by (apply put_byte; [done|apply le_bytes_byte]).
  assert (forall p k, 0 <= p -> 0 <= k -> p + k <= n - 4 -> sub p k raw = sub p k body) as Hsub.
  { intros p k Hp Hk Hpk. apply sub_put_other; rewrite ?zlen_le_bytes, ?Hz; lia. }
  split; [done|]. split; [done|]. split.
  - rewrite (load_field_u32 raw (n - 4) Hbr ltac:(lia) c); [|rewrite Hzr; lia|].
    2: { unfold raw. apply sub_put_same; rewrite ?zlen_le_bytes, ?Hz; lia. }
    rewrite Z.mod_small by lia. unfold c. f_equal. symmetry. apply (Hsub 0 (n - 4)); lia.
  - intros p bs k Hin Hk. destruct (layout_ok_in _ _ _ _ _ Hl Hin) as [Hp Hpk]. pose proof (zlen_nonneg bs).
    rewrite Hsub by lia. by apply (puts_field _ _ 0).
Qed.
End Checked.

Section Intent.
Context (old_size : Z) (t ti : HeaderTrailer).
Context (Hold : 0 < old_size < 2 ^ 64) (Hal : old_size mod kAlignment = 0) (Hgrow : old_size < ht_virtual_size t).
Context (Ht : ht_ok t) (Hti : ht_ok ti).

Let fields : list (Z * bytes) :=
  [(0, le_bytes 8 kGrowMagic); (8, le_bytes 8 old_size); (16, raw_header t); (16 + kSpace, raw_header ti)].
Definition intent_bytes : bytes := checked kGrowBytes fields.

Lemma intent_layout : layout_ok 0 (kGrowBytes - 4) fields.
Proof.
  unfold fields. cbn [layout_ok]. rewrite !zlen_le_bytes.
  destruct (raw_header_ok t Ht) as [-> _]. destruct (raw_header_ok ti Hti) as [-> _].
  unfold kGrowBytes, kSpace. lia.
Qed.

Lemma grow_intent_bytes : grow_intent old_size t ti = Ok intent_bytes.
Proof.
  unfold grow_intent. rewrite (serialize_puts t Ht), (serialize_puts ti Hti). cbn [mbind res_bind].
  unfold intent_bytes, checked, fields, raw_header. rewrite (serialize_puts t Ht), (serialize_puts ti Hti).
  by rewrite !store_u64_val, store_u32_val.
Qed.

Lemma intent_read :
  zlen intent_bytes = kGrowBytes /\ sub 16 kSpace intent_bytes = raw_header t /\
  sub (16 + kSpace) kSpace intent_bytes = raw_header ti /\ read_intent intent_bytes = Ok (old_size, t, ti).
Proof.
  destruct (raw_header_ok t Ht) as [Hzt Hpt]. destruct (raw_header_ok ti Hti) as [Hzi Hpi].
  destruct (checked_spec kGrowBytes fields ltac:(unfold kGrowBytes, kSpace; lia) intent_layout) as (Hz & Hb & Hc & Hf).
  { unfold fields. forall_fields ltac:(fun _ => first [apply le_bytes_byte|apply raw_header_byte; done]). }
  fold intent_bytes in Hz, Hb, Hc, Hf.
  assert (sub 16 kSpace intent_bytes = raw_header t) as E1 by (apply Hf; [in_fields|done]).
  assert (sub (16 + kSpace) kSpace intent_bytes = raw_header ti) as E2 by (apply Hf; [in_fields|done]).
  split; [done|]. split; [done|]. split; [done|]. unfold read_intent.
  rewrite (load_field_u64 intent_bytes 0 Hb ltac:(lia) kGrowMagic).
  2: { rewrite Hz. unfold kGrowBytes, kSpace. lia. }
  2: { apply Hf; [in_fields|by rewrite zlen_le_bytes]. }
  change (kGrowMagic mod 2 ^ 64) with kGrowMagic. rewrite Hc, !Z.eqb_refl. cbn [negb orb].
  rewrite (load_field_u64 intent_bytes 8 Hb ltac:(lia) old_size).
  2: { rewrite Hz. unfold kGrowBytes, kSpace. lia. }
  2: { apply Hf; [in_fields|by rewrite zlen_le_bytes]. }
  rewrite Z.mod_small by lia. rewrite E1, E2, Hpt, Hpi. cbn [mbind res_bind].
  rewrite Hal, (proj2 (Z.eqb_neq old_size 0)), (proj2 (Z.leb_gt _ _)) by lia. done.
Qed.
End Intent.

(** ** Files that differ in their header *)

Definition payload_same (f g : file) : Prop :=
  f_size f = f_size g /\ forall i, kSpace <= i -> f_byte f i = f_byte g i.

Lemma payload_same_refl f : payload_same f f.
Proof. done. Qed.
Lemma payload_same_trans f g k : payload_same f g -> payload_same g k -> payload_same f k.
Proof. intros [E1 H1] [E2 H2]. split; [congruence|]. intros i Hi. by rewrite H1, H2. Qed.

Lemma payload_same_slice f g off n :
  payload_same f g -> kSpace <= off -> slice (f_byte f) off n = slice (f_byte g) off n.
Proof. intros [_ H] Ho. apply slice_ext. intros i Hi. apply H. lia. Qed.

Lemma write_header f n raw :
  zlen raw = kSpace -> kSpace <= f_size f ->
  payload_same (file_write f 0 (partial n raw)) f /\
  slice (f_byte (file_write f 0 (partial n raw))) 0 kSpace = torn n raw (slice (f_byte f) 0 kSpace).
Proof.
  intros Hz Hs. unfold partial.
  assert (zlen (ztake n raw) = Z.min (Z.max 0 n) kSpace) as Hzt by (rewrite zlen_ztake; lia).
  split; [split|].
  - unfold file_write. cbn [f_size]. rewrite Hzt. case_if; unfold kSpace in *; lia.
  - intros i Hi. apply f_byte_write_out. lia.
  - assert (zlen (slice (f_byte f) 0 kSpace) = kSpace) as Hzs by (rewrite zlen_slice; unfold kSpace; lia).
    apply list_eq_bget; [rewrite zlen_torn by lia; rewrite !zlen_slice; done|].
    rewrite zlen_slice. intros i Hi. rewrite bget_torn by lia. rewrite !bget_slice by lia.
    destruct (Z.ltb_spec i n).
    + rewrite f_byte_write_in by lia. rewrite bget_ztake by lia. f_equal. lia.
    + apply f_byte_write_out. lia.
Qed.

Lemma write_header_all f raw :
  zlen raw = kSpace -> kSpace <= f_size f ->
  payload_same (file_write f 0 raw) f /\ slice (f_byte (file_write f 0 raw)) 0 kSpace = raw.
Proof.
  intros Hz Hs. pose proof (write_header f kSpace raw Hz Hs) as H. unfold partial in H.
  rewrite ztake_all in H by lia. rewrite torn_all in H by (rewrite ?zlen_slice; unfold kSpace in *; lia). done.
Qed.

Lemma sealed_scan_payload f g tail n i previous :
  payload_same f g -> kSpace <= ht_index_offset tail -> 0 <= i ->
  sealed_scan f tail n i previous = sealed_scan g tail n i previous.
Proof.
  intros H Ho. revert i previous. induction n as [|n IH]; intros i previous Hi; cbn [sealed_scan]; [done|].
  rewrite (payload_same_slice f g) by (done || lia). destruct (sealed_record _ _ _); [apply IH; lia|done].
Qed.

Lemma sealed_tail_payload f g : payload_same f g -> sealed_tail f = sealed_tail g.
Proof.
  intros H. pose proof H as [E _]. unfold sealed_tail. rewrite E.
  destruct (Z.ltb_spec (f_size g) (2 * kSpace)); [done|].
  rewrite (payload_same_slice f g) by (done || lia). destruct (parse _) as [tail|]; [|done].
  destruct (sealed_candidate (f_size g) tail) eqn:Hc; [|done]. simpl.
  unfold sealed_candidate in Hc. bool_hyps. apply sealed_scan_payload; [done|lia|lia].
Qed.

(** The same log under headers with a larger capacity. *)
Lemma disk_log_rehead data index h log data' index' h' :
  disk_log data index h log -> payload_same data' data -> payload_same index' index ->
  pair_header h' -> ht_virtual_size h <= ht_virtual_size h' ->
  parse (slice (f_byte data') 0 kSpace) = Ok h' ->
  parse (slice (f_byte index') 0 kSpace) = Ok (index_header h') ->
  disk_log data' index' h' log.
Proof.
  intros [Hh _ _ Hs Hr [Hls Hlr] Hrec Hc Hf Hj] Hd Hi Hh' Hle P1 P2.
  pose proof Hd as [Ed _]. pose proof Hi as [Ei _].
  split; rewrite ?Ed; try done.
  - split; [by rewrite Ei|]. by rewrite (payload_same_slice _ _ _ _ Hi) by done.
  - eapply Forall_impl; [exact Hrec|]. intros m (He & Hn & Hk). split; [done|]. split; [done|].
    eapply record_ok_mono; [exact Hk| |lia]. apply Z.div_le_mono; unfold kAlignment; lia.
Qed.

Lemma pair_write_data_attempt bs off p (Q : unit -> FilePair -> Prop) (F : FilePair -> Prop) :
  (forall s, Q tt (set_data (set_script p s) (file_write (p_data p) off bs))) ->
  (forall s n, F (set_data (set_script p s) (file_write (p_data p) off (partial n bs)))) ->
  attempt p_script (pair_write_data bs off) p Q F.
Proof.
  intros HQ HF. unfold attempt, pair_write_data, pair_step, mbind, io_bind, io_run.
  pose proof (next_outcome_spec (p_script p)) as Ho.
  destruct (next_outcome (p_script p)) as [[|k e] s]; destruct Ho as [Hsub Hf]; cbn -[file_write].
  - split; [done|apply HQ].
  - split; [by apply (Hf k)|apply HF].
Qed.
Lemma pair_write_index_attempt bs off p (Q : unit -> FilePair -> Prop) (F : FilePair -> Prop) :
  (forall s, Q tt (set_index (set_script p s) (file_write (p_index p) off bs))) ->
  (forall s n, F (set_index (set_script p s) (file_write (p_index p) off (partial n bs)))) ->
  attempt p_script (pair_write_index bs off) p Q F.
Proof.
  intros HQ HF. unfold attempt, pair_write_index, pair_step, mbind, io_bind, io_run.
  pose proof (next_outcome_spec (p_script p)) as Ho.
  destruct (next_outcome (p_script p)) as [[|k e] s]; destruct Ho as [Hsub Hf]; cbn -[file_write].
  - split; [done|apply HQ].
  - split; [by apply (Hf k)|apply HF].
Qed.

(** ** Rolling the growth forward *)

Section Growth.
Context (data0 index0 : file) (h : HeaderTrailer) (vs : Z) (log : list segment_mapping).
Context (Hdisk : disk_log data0 index0 h log) (H64 : f_size data0 < 2 ^ 64).
Context (Hvs : ht_virtual_size h < vs) (Hal : vs mod kAlignment = 0) (Hmax : vs / kAlignment <= kMaxOffset).

Let h' := with_virtual_size h vs.
Let intent := intent_bytes (ht_virtual_size h) h' (index_header h').

Lemma grow_header : pair_header h.
Proof. apply (do_header _ _ _ _ Hdisk). Qed.
Lemma grow_vs_bound : 0 <= ht_virtual_size h < 2 ^ 64 /\ 0 <= vs < 2 ^ 64.
Proof.
  destruct grow_header as (_ & _ & _ & H1 & _ & _ & (_ & _ & _ & _ & H2 & _)). split; [lia|].
  unfold kAlignment, kMaxOffset in *. pose proof (Z.div_mod vs 512 ltac:(lia)). lia.
Qed.
Lemma grow_target : pair_header h'.
Proof.
  destruct grow_vs_bound as [B1 B2].
  destruct grow_header as (H1 & H2 & H3 & H4 & H5 & H6 & H7). do 3 (split; [done|]).
  split; [simpl; lia|]. split; [done|]. split; [done|]. apply with_vs_ok; done || lia.
Qed.
Lemma header_is_own : with_virtual_size h (ht_virtual_size h) = h.
Proof. by destruct h. Qed.

Lemma grow_intent_read :
  grow_intent (ht_virtual_size h) h' (index_header h') = Ok intent /\
  zlen intent = kGrowBytes /\ sub 16 kSpace intent = raw_header h' /\
  sub (16 + kSpace) kSpace intent = raw_header (index_header h') /\
  read_intent intent = Ok (ht_virtual_size h, h', index_header h').
Proof.
  destruct grow_vs_bound as [B1 B2]. destruct grow_header as (_ & _ & _ & H4 & H5 & _ & H7).
  destruct grow_target as (_ & _ & _ & _ & _ & _ & T7).
  pose proof (index_header_ok _ T7) as T8.
  split; [by apply grow_intent_bytes|]. apply intent_read; try done; simpl; lia.
Qed.

(** A file whose header is somewhere between the old and the new one. *)
Definition headed (f : file) (hd : HeaderTrailer) : Prop :=
  exists k, slice (f_byte f) 0 kSpace = torn k (raw_header (with_virtual_size hd vs)) (raw_header hd).

Definition growing (p : FilePair) : Prop :=
  payload_same (p_data p) data0 /\ payload_same (p_index p) index0 /\
  headed (p_data p) h /\ headed (p_index p) (index_header h) /\ p_grow p = Some intent.
Definition grown (p : FilePair) : Prop :=
  payload_same (p_data p) data0 /\ payload_same (p_index p) index0 /\
  slice (f_byte (p_data p)) 0 kSpace = raw_header h' /\
  slice (f_byte (p_index p)) 0 kSpace = raw_header (index_header h') /\ p_grow p = None.

Lemma grown_disk p : grown p -> disk_log (p_data p) (p_index p) h' log.
Proof.
  intros (G1 & G2 & G3 & G4 & _). destruct grow_target as (_ & _ & _ & _ & _ & _ & T).
  eapply disk_log_rehead; [exact Hdisk|done|done|exact grow_target|simpl; lia|..].
  - rewrite G3. by apply raw_header_ok.
  - rewrite G4. by apply raw_header_ok, index_header_ok.
Qed.

(** A header between the two is accepted, whatever was written of it. *)
Lemma check_headed f hd :
  ht_ok hd -> ht_virtual_size hd = ht_virtual_size h -> headed f hd ->
  check_live_header (slice (f_byte f) 0 kSpace) vs (ht_virtual_size h) (with_virtual_size hd vs) = Ok tt.
Proof.
  intros Hok Hv [k ->]. destruct grow_vs_bound as [B1 B2].
  replace (raw_header hd) with (raw_header (with_virtual_size hd (ht_virtual_size h)))
    by (rewrite <- Hv; by destruct hd).
  rewrite torn_header by done. pose proof (mixed_bound k vs (ht_virtual_size h)) as Hm.
  unfold check_live_header. destruct (raw_header_ok _ (with_vs_ok hd Hok _ Hm)) as [_ ->].
  cbn [mbind res_bind]. cbn [ht_virtual_size with_virtual_size]. rewrite mixed_matches by done. cbn [negb].
  change (with_virtual_size (with_virtual_size hd (mixed k vs (ht_virtual_size h))) vs) with (with_virtual_size hd vs).
  rewrite serialize_puts by (by apply with_vs_ok). cbn [mbind res_bind]. by rewrite bool_decide_true.
Qed.

Lemma check_grow_attempt p :
  growing p ->
  attempt p_script (check_grow intent) p (fun t p' => t = h' /\ same_files p p') (same_files p).
Proof.
  intros (G1 & G2 & G3 & G4 & G5). pose proof Hdisk as [Hh _ _ Hs Hr Hl Hrec Hc Hf Hj].
  destruct grow_intent_read as (_ & _ & _ & _ & Hread). pose proof grow_target as Ht.
  pose proof (proj2 (proj2 (proj2 (proj2 (proj2 (proj2 Hh)))))) as Hok.
  assert (disk_log (file_write data0 0 (raw_header h')) (file_write index0 0 (raw_header (index_header h'))) h' log)
    as [_ _ _ Ts Tr Tl Trec Tc Tf Tj].
  { destruct Ht as (_ & _ & _ & _ & _ & _ & T). pose proof Hl as [Hls _]. pose proof (zlen_nonneg log).
    destruct (raw_header_ok _ T) as [Z1 P1]. destruct (raw_header_ok _ (index_header_ok _ T)) as [Z2 P2].
    destruct (write_header_all data0 (raw_header h') Z1 Hs) as [W1 W2].
    destruct (write_header_all index0 (raw_header (index_header h')) Z2 ltac:(unfold kSpace in *; lia)) as [W3 W4].
    eapply disk_log_rehead; [exact Hdisk|done|done|exact grow_target|simpl; lia|by rewrite W2|by rewrite W4]. }
  pose proof G1 as [E1 _]. pose proof G2 as [E2 _]. pose proof Hl as [Hls Hlr]. pose proof (zlen_nonneg log).
  assert (index_holds (p_index p) log) as Hlp.
  { split; [by rewrite E2|]. by rewrite (payload_same_slice _ _ _ _ G2) by done. }
  destruct (write_header_all data0 (raw_header h')) as [[Esz _] _]; [apply raw_header_ok, Ht|done|].
  rewrite Esz, <- E1 in Ts, Tr, Trec.
  unfold check_grow. apply (attempt_here p_script (fun p => _)). cbn beta.
  eapply attempt_lift_bind; [exact Hread|]. cbn beta iota zeta.
  rewrite (proj2 (Z.ltb_ge (f_size (p_index p)) _)) by (rewrite E2; unfold kSpace in *; lia).
  destruct (replay_disk (p_data p) (p_index p) h' log p Ht Ts Tr Hlp Trec Hc Hf Hj ltac:(by rewrite E1))
    as (_ & Hval & _).
  eapply attempt_lift_bind; [exact Hval|].
  eapply attempt_reads; [apply disk_read_attempt; [lia|unfold kSpace; lia|rewrite E1; unfold kSpace in *; lia]|done|done|].
  intros p1 Hp1. eapply attempt_lift_bind; [apply (check_headed (p_data p) h); done|].
  eapply attempt_reads; [apply disk_read_attempt; [lia|unfold kSpace; lia|rewrite E2; unfold kSpace in *; lia]|done|done|].
  intros p2 Hp2.
  eapply attempt_lift_bind; [apply (check_headed (p_index p) (index_header h)); [by apply index_header_ok|done|done]|].
  destruct (replay_disk (p_data p) (p_index p) h' log p2 Ht Ts Tr Hlp Trec Hc Hf Hj ltac:(by rewrite E1))
    as (Eib & _ & Hnew & Hloop & Hfin).
  eapply attempt_lift_bind; [exact Hnew|].
  eapply attempt_reads; [exact Hloop|done|done|]. intros p3 Hp3.
  eapply attempt_lift_bind; [exact Hfin|]. by apply attempt_ret.
Qed.

(** The journal's bookkeeping is not touched. *)
Definition same_log (p p' : FilePair) : Prop :=
  p_index_bytes p' = p_index_bytes p /\ p_mappings p' = p_mappings p /\
  p_live_ranges p' = p_live_ranges p /\ p_data_bytes p' = p_data_bytes p.

(** Between publication and retirement of the intent. *)
Definition pending (p0 p : FilePair) : Prop :=
  (growing p /\ (p_header p = h \/ p_header p = h') \/ grown p /\ p_header p = h') /\ p_poisoned p = true /\ p_growth_pending p = true /\ same_log p0 p.
Definition complete (p0 p : FilePair) : Prop :=
  grown p /\ p_header p = h' /\ settled p /\ same_log p0 p.

Lemma pending_script p0 p s : pending p0 p -> pending p0 (set_script p s).
Proof. done. Qed.

(** A further write of either header. *)
Lemma headed_write f hd n :
  ht_ok hd -> kSpace <= f_size f -> headed f hd ->
  headed (file_write f 0 (partial n (raw_header (with_virtual_size hd vs)))) hd.
Proof.
  intros Hok Hs [k Hk]. destruct grow_vs_bound as [_ B2].
  destruct (raw_header_ok _ (with_vs_ok hd Hok vs B2)) as [Hz _]. destruct (raw_header_ok _ Hok) as [Hz' _].
  exists (Z.max n k). destruct (write_header f n _ Hz Hs) as [_ ->]. rewrite Hk. apply torn_torn. congruence.
Qed.

Lemma grow_sizes p : payload_same (p_data p) data0 -> payload_same (p_index p) index0 ->
  kSpace <= f_size (p_data p) /\ kSpace <= f_size (p_index p).
Proof.
  intros [E1 _] [E2 _]. destruct Hdisk as [_ _ _ Hs _ [Hls _] _ _ _ _]. pose proof (zlen_nonneg log).
  rewrite E1, E2. unfold kSpace in *. lia.
Qed.

(** One header of a growing pair is written: all of it, or some. *)
Lemma growing_data p n :
  growing p -> growing (set_data p (file_write (p_data p) 0 (partial n (raw_header h')))).
Proof.
  intros (G1 & G2 & G3 & G4 & G5). destruct (grow_sizes p G1 G2) as [S1 S2].
  destruct grow_header as (_ & _ & _ & _ & _ & _ & Hok). destruct grow_target as (_ & _ & _ & _ & _ & _ & Hok').
  split; [|split; [done|split; [by apply headed_write|done]]].
  eapply payload_same_trans; [|exact G1]. apply write_header; [by apply raw_header_ok|done].
Qed.
Lemma growing_index p n :
  growing p -> growing (set_index p (file_write (p_index p) 0 (partial n (raw_header (index_header h'))))).
Proof.
  intros (G1 & G2 & G3 & G4 & G5). destruct (grow_sizes p G1 G2) as [S1 S2].
  destruct grow_header as (_ & _ & _ & _ & _ & _ & Hok). destruct grow_target as (_ & _ & _ & _ & _ & _ & Hok').
  split; [done|]. split; [|split; [done|split; [by apply (headed_write (p_index p) (index_header h)); [apply index_header_ok|..]|done]]].
  eapply payload_same_trans; [|exact G2]. apply write_header; [by apply raw_header_ok, index_header_ok|done].
Qed.

Lemma growing_full (f : FilePair -> file -> FilePair) g raw (P : FilePair -> Prop) p :
  zlen raw = kSpace -> P (f p (file_write g 0 (partial kSpace raw))) -> P (f p (file_write g 0 raw)).
Proof. intros Hz. unfold partial. by rewrite ztake_all by lia. Qed.

Lemma roll_grow_attempt p0 p :
  growing p -> same_log p0 p ->
  attempt p_script (roll_grow intent h') p (fun b p' => b = true /\ complete p0 p') (pending p0).
Proof.
  intros G L. destruct grow_target as (_ & _ & _ & _ & _ & _ & Hok').
  destruct (raw_header_ok _ Hok') as [Z1 _]. destruct (raw_header_ok _ (index_header_ok _ Hok')) as [Z2 _].
  destruct grow_intent_read as (_ & _ & E1 & E2 & _). unfold roll_grow.
  set (p1 := set_growth p true true h').
  assert (pending p0 p1 /\ growing p1) as [N1 G1]
    by (split; [split; [left; split; [done|by right]|done]|done]).
  eapply attempt_bind; [eapply attempt_run with (Q := fun _ p' => p' = p1); done|]. intros _ ? ->.
  rewrite E1, E2.
  (* the payload header *)
  set (d := file_write (p_data p1) 0 (raw_header h')).
  eapply (attempt_bind _ _ _ _ (fun _ p' => exists s, p' = set_script (set_data p1 d) s)).
  { apply pair_write_data_attempt; intros s; [by exists s|]. intros n. split; [left; split; [|by right]|done].
    by apply (growing_data (set_script p1 s)). }
  intros _ ? [s1 ->].
  assert (growing (set_data p1 d)) as G2.
  { apply (growing_full set_data (p_data p1) (raw_header h')); [done|]. by apply growing_data. }
  (* the index header *)
  set (i := file_write (p_index p1) 0 (raw_header (index_header h'))).
  set (p3 := set_index (set_data p1 d) i).
  eapply (attempt_bind _ _ _ _ (fun _ p' => exists s, p' = set_script p3 s)).
  { apply pair_write_index_attempt; intros s; [by exists s|]. intros n. split; [left; split; [|by right]|done].
    by apply (growing_index (set_script (set_data p1 d) s)). }
  intros _ ? [s2 ->].
  assert (growing p3) as G3.
  { apply (growing_full set_index (p_index p1) (raw_header (index_header h'))); [done|].
    by apply (growing_index (set_data p1 d)). }
  assert (grown (set_grow p3 None)) as D.
  { destruct G3 as (A1 & A2 & _). destruct G as (B1 & B2 & _). destruct (grow_sizes p B1 B2) as [S1 S2].
    split; [done|]. split; [done|]. split; [by apply write_header_all|]. split; [by apply write_header_all|done]. }
  assert (forall s, pending p0 (set_script p3 s)) as F3
    by (intros s; split; [left; split; [done|by right]|done]).
  assert (forall s, pending p0 (set_script (set_grow p3 None) s)) as F4 by (intros s; split; [by right|done]).
  eapply (sync_bind _ _ p3 s2); [done|done|]. intros s3.
  eapply (sync_bind _ _ p3 s3); [done|done|]. intros s4.
  eapply (sync_bind _ _ p3 s4); [done|done|]. intros s5.
  eapply attempt_bind; [eapply attempt_run with (Q := fun _ p' => p' = set_script (set_grow p3 None) s5); done|].
  intros _ ? ->. eapply (sync_bind _ _ (set_grow p3 None) s5); [done|done|]. intros s6.
  eapply attempt_run; [done|done|]. by split.
Qed.

(** The outcome of recovery: complete, or still to be completed. *)
Lemma recover_grow_attempt p0 p :
  growing p -> same_log p0 p ->
  attempt p_script recover_grow p (fun b p' => b = true /\ complete p0 p')
    (fun p' => pending p0 p' \/ same_files p p').
Proof.
  intros G L. pose proof G as (_ & _ & _ & _ & Hg). destruct grow_intent_read as (_ & Hz & _).
  eapply attempt_as; [unfold recover_grow; rewrite Hg; reflexivity|].
  assert (forall s, pending p0 (set_script p s) \/ same_files p (set_script p s)) as HF by (intros s; right; by exists s).
  eapply (sync_bind _ p p (p_script p)); [by destruct p|done|]. intros s1.
  rewrite Hz, Z.eqb_refl. cbn [negb].
  eapply (sync_bind _ _ p s1); [done|done|]. intros s2.
  eapply (attempt_bind _ _ _ _ (fun t p' => t = h' /\ same_files p p')).
  { eapply attempt_mono; [by apply check_grow_attempt|..].
    - intros t p' [-> H]. split; [done|]. eapply same_files_trans; [|exact H]. by exists s2.
    - intros p' H. right. eapply same_files_trans; [|exact H]. by exists s2. }
  intros t p' [-> [s ->]]. eapply attempt_mono; [by apply (roll_grow_attempt p0)|done|by left].
Qed.
(** ** Opening in the middle of a growth *)

(** What the files hold after any further attempt to open them. *)
Definition regrowing (d : FilePair) : Prop :=
  growing d \/ disk_ok (p_data d) (p_index d) h' log /\ p_grow d = None.

Lemma grown_regrowing p : sealed_tail data0 = false -> grown p -> regrowing p.
Proof.
  intros Hst G. right. split; [split; [by apply grown_disk|]|apply G].
  destruct G as (G1 & _). by rewrite (sealed_tail_payload _ _ G1).
Qed.

Lemma parse_headed f hd :
  ht_ok hd -> headed f hd -> exists v, parse (slice (f_byte f) 0 kSpace) = Ok (with_virtual_size hd v).
Proof.
  intros Hok [k ->]. destruct grow_vs_bound as [_ B2]. pose proof Hok as (_ & _ & _ & _ & Hv & _).
  exists (mixed k vs (ht_virtual_size hd)).
  replace (raw_header hd) with (raw_header (with_virtual_size hd (ht_virtual_size hd))) by (by destruct hd).
  rewrite torn_header by done. apply raw_header_ok, with_vs_ok; [done|apply mixed_bound].
Qed.

Lemma pair_open_growing d :
  growing d -> p_poisoned d = false -> p_growth_pending d = false -> sealed_tail data0 = false ->
  attempt p_script pair_open d
    (fun q _ => exists data, payload_same data data0 /\ opened data h' log q) regrowing.
Proof.
  intros G N1 N2 Hst. pose proof G as (G1 & G2 & G3 & G4 & G5). destruct (grow_sizes d G1 G2) as [S1 S2].
  pose proof G1 as [E1 _]. pose proof grow_header as Hh. pose proof Hh as (_ & _ & _ & _ & _ & _ & Hok).
  destruct (parse_headed _ _ Hok G3) as [v Hv].
  unfold pair_open. apply (attempt_here p_script (fun d => _)). cbn beta. cbv zeta.
  rewrite (proj2 (Z.ltb_ge (f_size (p_data d)) _)) by done.
  eapply attempt_reads; [apply disk_read_attempt; unfold kSpace in *; lia|done|intros d' [s ->]; by left|].
  intros d1 [s1 ->]. eapply attempt_lift_bind; [exact Hv|].
  set (d1 := set_growth d false false (with_virtual_size h v)).
  eapply (attempt_bind _ _ _ _ (fun _ d' => d' = set_script d1 s1)).
  { eapply attempt_run; [done|done|]. simpl. by rewrite N1, N2. }
  intros _ ? ->.
  change (is_sealed (with_virtual_size h v)) with (is_sealed h). rewrite unsealed_header by done.
  eapply (attempt_reads _ _ _ d1); [apply sealed_trailer_attempt; by rewrite E1|by exists s1|intros d' [s ->]; by left|].
  intros d2 [s2 ->]. rewrite (sealed_tail_payload _ _ G1), Hst.
  rewrite (proj2 (Z.ltb_ge (f_size (p_index d)) _)) by done.
  eapply (attempt_bind _ _ _ _ (fun _ d' => complete d1 d')).
  { eapply attempt_mono; [apply (recover_grow_attempt d1 (set_script d1 s2)); done|by intros b d' [_ ?]|].
    intros d' [([[? _]|[? _]] & _)|[s ->]]; [by left|by apply grown_regrowing|by left]. }
  intros _ d3 (D1 & D2 & D3 & _). pose proof D1 as (A1 & A2 & _ & _ & A5).
  assert (f_size (p_data d) = f_size (p_data d3)) as -> by (rewrite E1; symmetry; apply A1).
  assert (f_size (p_index d) = f_size (p_index d3)) as -> by (destruct G2 as [-> _]; symmetry; apply A2).
  assert (disk_ok (p_data d3) (p_index d3) h' log) as Hd3.
  { split; [by apply grown_disk|]. by rewrite (sealed_tail_payload _ _ A1). }
  eapply attempt_mono; [apply (pair_load_spec d3 h' log); try done; by destruct A1 as [-> _]|..].
  - intros q d' Hq. by exists (p_data d3).
  - intros d' [Hd' [(_ & _ & ?) _]]. by right.
Qed.

(** ** Retrying on the same instance *)

Lemma complete_script p0 p s : complete p0 p -> complete p0 (set_script p s).
Proof. done. Qed.

Lemma pending_retry p0 p :
  pending p0 p ->
  attempt p_script (pair_grow vs) p (fun _ p' => complete p0 p')
    (fun p' => pending p0 p' \/ complete p0 p').
Proof.
  intros (Hst & N1 & N2 & L). destruct grow_target as (_ & _ & _ & T4 & _).
  eapply attempt_as; [unfold pair_grow; rewrite N1, N2; reflexivity|].
  eapply (attempt_bind _ _ _ _ (fun _ p' => complete p0 p')).
  - (* recovered by this call, or only the directory sync was missing *)
    set (M := fun p' => complete p0 p' \/ grown p' /\ p_header p' = h' /\ pending p0 p').
    eapply (attempt_bind _ _ _ _ (fun _ p' => M p')).
    + destruct Hst as [[G Hg]|[G Hh]].
      * eapply attempt_mono; [by apply (recover_grow_attempt p0)|..].
        -- intros b p' [_ D]. by left.
        -- intros p' [?|[s ->]]; [by left|]. left. split; [by left|done].
      * pose proof G as (_ & _ & _ & _ & A5). unfold recover_grow, attempt. rewrite A5.
        split; [done|]. right. split; [done|]. split; [done|]. split; [by right|done].
    + intros _ p' HM.
      assert (forall s, pending p0 (set_script p' s) \/ complete p0 (set_script p' s)) as HF
        by (intros s; destruct HM as [?|(_ & _ & ?)]; [by right|by left]).
      eapply (sync_bind _ p' p' (p_script p')); [by destruct p'|done|]. intros s.
      eapply attempt_run; [done|done|].
      assert (grown p' /\ p_header p' = h' /\ same_log p0 p') as (D1 & D2 & D3).
      { destruct HM as [(D1 & D2 & D3 & D4)|(D1 & D2 & _ & _ & _ & D4)]; done. }
      split; [done|]. split; [done|]. split; [by destruct D1 as (_ & _ & _ & _ & ?)|done].
  - intros _ p' D. pose proof D as (_ & Eh & _).
    eapply attempt_run; [|done|exact D]. rewrite Eh.
    rewrite (proj2 (Z.eqb_neq vs 0)), Hal, (proj2 (Z.ltb_ge kMaxOffset _)), (proj2 (Z.ltb_ge vs _)) by (simpl in *; lia).
    simpl. by rewrite Z.eqb_refl.
Qed.
End Growth.

(** ** The whole call *)

(** The headers on disk are the ones in memory, as [serialize] writes them. *)
Definition canonical (p : FilePair) : Prop :=
  slice (f_byte (p_data p)) 0 kSpace = raw_header (p_header p) /\
  slice (f_byte (p_index p)) 0 kSpace = raw_header (index_header (p_header p)).

Section Grow.
Context (p : FilePair) (log : list segment_mapping) (vs : Z).
Context (Hp : pair_ok p log) (Hcan : canonical p) (Hj : phys_inj (log_live log)) (H64 : f_size (p_data p) < 2 ^ 64).
Context (Hvs : ht_virtual_size (p_header p) < vs) (Hal : vs mod kAlignment = 0) (Hmax : vs / kAlignment <= kMaxOffset).

Let Hdisk := pair_ok_disk p log Hp Hj.
Let h' := with_virtual_size (p_header p) vs.
Let pend := pending (p_data p) (p_index p) (p_header p) vs p.
Let finished := complete (p_data p) (p_index p) (p_header p) vs p.

Lemma complete_pair_ok p' : finished p' -> pair_ok p' log /\ canonical p' /\ p_header p' = h'.
Proof.
  intros ((A1 & A2 & A3 & A4 & A5) & Eh & Hs & (L1 & L2 & L3 & L4)).
  assert (pair_header h') as Ht by (eapply grow_target; [exact Hdisk|..]; done).
  assert (canonical p') as Hc by (split; by rewrite Eh). split; [|done].
  pose proof Hp as [[J1 J2 J3 J4 J5 J6 J7] _ _ _ _ H6 H7]. pose proof Ht as (_ & _ & _ & _ & _ & _ & Hok).
  pose proof A1 as [E1 _]. pose proof A2 as [E2 _]. split; rewrite ?Eh; try done.
  - apply (journal_ok_mono (pair_sectors p) (pair_sectors p') (data_sectors (p_data p)) (data_sectors (p_data p')));
      [|unfold pair_sectors; rewrite Eh; apply Z.div_le_mono; simpl; unfold kAlignment; lia|unfold data_sectors; by rewrite E1].
    split; try done; try congruence. by rewrite (payload_same_slice _ _ _ _ A2).
  - rewrite A3. by apply raw_header_ok.
  - rewrite A4. by apply raw_header_ok, index_header_ok.
  - by rewrite E1.
  - unfold data_sectors. by rewrite E1.
Qed.

Lemma publish_grow_attempt :
  f_size (p_data p) mod kAlignment = 0 ->
  attempt p_script (publish_grow vs) p
    (fun _ p' => growing (p_data p) (p_index p) (p_header p) vs p' /\ pend p')
    (fun p' => same_files p p' \/ pend p').
Proof.
  intros Hmod. pose proof Hp as [[J1 J2 J3 J4 J5 J6 J7] (N1 & N2 & N3) Hh _ Hi H6 H7]. destruct Hcan as [C1 C2].
  pose proof (zlen_nonneg log).
  unfold publish_grow. apply (attempt_here p_script (fun p => _)). cbn beta.
  eapply attempt_reads; [apply disk_read_attempt; unfold kSpace in *; lia|done|by left|].
  intros p1 [s1 ->]. eapply attempt_lift_bind; [exact Hi|].
  eapply attempt_lift_bind; [rewrite J2; apply validate_pair_ok; done || lia|].
  destruct (grow_intent_read _ _ _ vs log Hdisk Hvs Hal Hmax) as (Hint & _).
  eapply attempt_lift_bind; [exact Hint|].
  assert (forall s, same_files p (set_script p s) \/ pend (set_script p s)) as HF by (intros s; left; by exists s).
  do 4 (eapply (sync_bind _ _ p); [done|done|]; intros ?).
  set (p2 := set_growth (set_grow p (Some (intent_bytes (ht_virtual_size (p_header p)) h' (index_header h')))) true true (p_header p)).
  assert (growing (p_data p) (p_index p) (p_header p) vs p2) as G.
  { split; [done|]. split; [done|]. split; [exists 0; by rewrite torn_none|]. split; [exists 0; by rewrite torn_none|done]. }
  assert (forall s', pend (set_script p2 s')) as Hpend by (intros s'; split; [left; split; [done|by left]|done]).
  eapply (attempt_bind _ _ _ _ (fun _ p' => exists s', p' = set_script p2 s')).
  { eapply attempt_run with (w' := set_script p2 _); [|done|by eexists]. cbn [p_grow set_script]. by rewrite N3. }
  intros _ ? [s' ->]. apply pair_sync_attempt; intros s9; [|right; apply (Hpend s9)]. split; [done|apply (Hpend s9)].
Qed.

Lemma pair_grow_attempt :
  f_size (p_data p) mod kAlignment = 0 ->
  attempt p_script (pair_grow vs) p (fun _ p' => finished p') (fun p' => same_files p p' \/ pend p').
Proof.
  intros Hmod. pose proof Hp as [_ (N1 & N2 & N3) (_ & _ & _ & V1 & _) _ _ _ _].
  eapply attempt_as; [unfold pair_grow; rewrite N1, N2; reflexivity|]. cbn [andb].
  eapply attempt_ret_bind. eapply attempt_as.
  { unfold io_run. rewrite (proj2 (Z.eqb_neq vs 0)), Hal, (proj2 (Z.ltb_ge kMaxOffset _)), (proj2 (Z.ltb_ge vs _)),
      (proj2 (Z.eqb_neq vs _)) by lia. cbn [orb negb Z.eqb]. reflexivity. }
  eapply attempt_bind; [by apply publish_grow_attempt|]. intros _ p1 [G (Hst & M1 & M2 & L)].
  eapply (attempt_bind _ _ _ _ (fun _ p' => finished p')); [|by intros b p' D; apply attempt_ret].
  eapply attempt_mono; [by eapply recover_grow_attempt|by intros b p' [_ ?]|].
  intros p' [?|[s ->]]; [by right|]. right. by split.
Qed.
End Grow.

(** ** The properties of this component *)

(** Reopening the files after a grow from capacity [ht_virtual_size h]. *)
Definition reopens (p p' : FilePair) (log : list segment_mapping) (vs : Z) (s : script) (h1 : HeaderTrailer) : Prop :=
  attempt p_script pair_open (unopened s (p_data p') (p_index p') (p_grow p'))
    (fun q _ => exists data, payload_same data (p_data p) /\ opened data h1 log q)
    (fun d => disk_ok (p_data d) (p_index d) h1 log /\ p_grow d = None \/
              regrowing (p_data p) (p_index p) (p_header p) vs log d).

Lemma reopens_settled p p' log vs s h1 :
  disk_ok (p_data p') (p_index p') h1 log -> p_grow p' = None -> payload_same (p_data p') (p_data p) ->
  f_size (p_data p) < 2 ^ 64 -> reopens p p' log vs s h1.
Proof.
  intros Hd Hg Hs H64. unfold reopens. rewrite Hg. pose proof Hs as [Es _].
  eapply attempt_mono; [apply (pair_open_spec (unopened s (p_data p') (p_index p') None) h1 log); try done; simpl; lia|..].
  - intros q d Hq. by exists (p_data p').
  - intros d [Hd' (_ & _ & ?)]. by left.
Qed.

(** C16. Growing.  Whatever faults a grow meets, the files it leaves reopen with
    the same log and payload under the old capacity or the new one, the new one
    whenever it reported success; a stop inside a header is rolled forward, and
    reopening can itself be interrupted any number of times.  A grow that failed
    left the pair as it was, or repeating it on the same instance completes it
    unless it hits another fault. *)
Theorem grow_crash_recovery p log vs s :
  pair_ok p log -> canonical p -> phys_inj (log_live log) -> sealed_tail (p_data p) = false ->
  f_size (p_data p) < 2 ^ 64 -> f_size (p_data p) mod kAlignment = 0 ->
  ht_virtual_size (p_header p) < vs -> vs mod kAlignment = 0 -> vs / kAlignment <= kMaxOffset ->
  let h' := with_virtual_size (p_header p) vs in
  let '(r, p') := pair_grow vs p in
  (exists h1, (h1 = p_header p \/ h1 = h') /\ (is_ok r = true -> h1 = h') /\ reopens p p' log vs s h1) /\
  match r with
  | Ok _ => pair_ok p' log /\ canonical p' /\ p_header p' = h'
  | Err f =>
      any_errno f /\
      (pair_ok p' log /\ p_header p' = p_header p \/
       attempt p_script (pair_grow vs) p' (fun _ p2 => pair_ok p2 log /\ p_header p2 = h') (fun _ => True))
  end.
Proof.
  intros Hp Hc Hj Hst H64 Hmod Hvs Hal Hmax h'. pose proof (pair_ok_disk p log Hp Hj) as Hdisk.
  pose proof (pair_grow_attempt p log vs Hp Hc Hj H64 Hvs Hal Hmax Hmod) as Ha. unfold attempt in Ha.
  destruct (pair_grow vs p) as [[u|[e| |]] p']; try done.
  - destruct Ha as [_ D]. pose proof D as ((A1 & A2 & A3 & A4 & A5) & _).
    split; [|by apply (complete_pair_ok p log vs)]. exists h'. split; [by right|]. split; [done|].
    apply reopens_settled; try done. split; [|by rewrite (sealed_tail_payload _ _ A1)].
    by eapply grown_disk.
  - destruct Ha as [_ [[s' ->]|Hpend]].
    + split; [|split; [auto with errno|left; by split; [apply pair_ok_script|]]].
      exists (p_header p). split; [by left|]. split; [done|].
      apply reopens_settled; try done. apply Hp.
    + split; [|split; [auto with errno|right; eapply attempt_mono; [by eapply pending_retry|..]; [|done]]].
      2: { intros b p2 D. by apply (complete_pair_ok p log vs) in D as (? & _ & ?). }
      exists h'. split; [by right|]. split; [done|]. destruct Hpend as ([[G _]|[G _]] & _).
      * unfold reopens. eapply attempt_mono; [eapply (pair_open_growing _ _ _ vs log Hdisk); try done|done|].
        intros d Hd. by right.
      * pose proof G as (A1 & A2 & A3 & A4 & A5). apply reopens_settled; try done.
        split; [|by rewrite (sealed_tail_payload _ _ A1)]. by eapply grown_disk.
Qed.

Lemma fresh_canonical h s : pair_header h -> canonical (fresh_pair h s).
Proof.
  intros (_ & _ & _ & _ & _ & _ & Hok). destruct (raw_header_ok _ Hok) as [Z1 _].
  destruct (raw_header_ok _ (index_header_ok _ Hok)) as [Z2 _].
  unfold canonical, fresh_pair, header_file. cbn [p_data p_index p_header f_byte].
  split; [rewrite <- Z1|rewrite <- Z2]; apply slice_bget.
Qed.

Lemma grow_crash_recovery_witness :
  let p := fresh_pair example_header [Done; Done; Done; Done; Done; Done; Done; Done; Done; Done; Failed 51 EIO] in
  let h' := with_virtual_size example_header 2097152 in
  let '(r, p') := pair_grow 2097152 p in
  (exists h1, (h1 = p_header p \/ h1 = h') /\ (is_ok r = true -> h1 = h') /\ reopens p p' [] 2097152 [] h1) /\
  match r with
  | Ok _ => pair_ok p' [] /\ canonical p' /\ p_header p' = h'
  | Err f =>
      any_errno f /\
      (pair_ok p' [] /\ p_header p' = p_header p \/
       attempt p_script (pair_grow 2097152) p' (fun _ p2 => pair_ok p2 [] /\ p_header p2 = h') (fun _ => True))
  end.
Proof.
  apply (grow_crash_recovery (fresh_pair example_header [Done; Done; Done; Done; Done; Done; Done; Done; Done; Done; Failed 51 EIO]) []);
    [by apply fresh_pair_ok, example_header_ok| | |done|done|done|done|done|done].
  - apply fresh_canonical, example_header_ok.
  - done.
Defined.
