(* ===== verification/LsmtRw.v ===== *)
(** * The writable layer ([format/lsmt_rw.{hpp,cpp}])

    [LsmtRwLayer] over its pair of files: the terminal-state gates, planning a
    write into in-place and appended extents, publishing new ownership through
    the journal, reading, discarding, flushing and checkpointing.  The layer
    without a pair exists only behind a test hook and is not modelled.  The
    duplicated descriptor [fd_] refers to the pair's payload file. *)
From S2P Require Import Prelude Bytes LsmtFormat Source File Segments Merge Trim Journal FilePair.

Open Scope Z_scope.

Definition kSector : Z := 512.
Definition kHeaderSectors : Z := 8.
Definition kMaxSegLen : Z := kMaxLength.
Definition kUnknownRevision : Z := 2 ^ 64 - 1.

Record LsmtRwLayer := Rw {
  rw_pair : FilePair;
  rw_segments : list segment_mapping;
  rw_segments_revision : Z;
  rw_data_end_sector : Z;
  rw_data_bytes : Z;
  rw_vsize : Z;
  rw_uuid : bytes;
  rw_journal_failed : bool;
  rw_sealed : bool;
  rw_checkpointed : bool;
  rw_grow_op : bool;
  rw_terminal_op : bool;
}.

Definition set_pair (w : LsmtRwLayer) (p : FilePair) : LsmtRwLayer :=
  Rw p (rw_segments w) (rw_segments_revision w) (rw_data_end_sector w) (rw_data_bytes w) (rw_vsize w)
    (rw_uuid w) (rw_journal_failed w) (rw_sealed w) (rw_checkpointed w) (rw_grow_op w) (rw_terminal_op w).
Definition set_segments (w : LsmtRwLayer) (l : list segment_mapping) (revision : Z) : LsmtRwLayer :=
  Rw (rw_pair w) l revision (rw_data_end_sector w) (rw_data_bytes w) (rw_vsize w)
    (rw_uuid w) (rw_journal_failed w) (rw_sealed w) (rw_checkpointed w) (rw_grow_op w) (rw_terminal_op w).
Definition set_data_end (w : LsmtRwLayer) (e : Z) : LsmtRwLayer :=
  Rw (rw_pair w) (rw_segments w) (rw_segments_revision w) e (rw_data_bytes w) (rw_vsize w)
    (rw_uuid w) (rw_journal_failed w) (rw_sealed w) (rw_checkpointed w) (rw_grow_op w) (rw_terminal_op w).
Definition set_data_bytes (w : LsmtRwLayer) (n : Z) : LsmtRwLayer :=
  Rw (rw_pair w) (rw_segments w) (rw_segments_revision w) (rw_data_end_sector w) n (rw_vsize w)
    (rw_uuid w) (rw_journal_failed w) (rw_sealed w) (rw_checkpointed w) (rw_grow_op w) (rw_terminal_op w).
Definition set_journal_failed (w : LsmtRwLayer) (b : bool) : LsmtRwLayer :=
  Rw (rw_pair w) (rw_segments w) (rw_segments_revision w) (rw_data_end_sector w) (rw_data_bytes w) (rw_vsize w)
    (rw_uuid w) b (rw_sealed w) (rw_checkpointed w) (rw_grow_op w) (rw_terminal_op w).
Definition set_gates (w : LsmtRwLayer) (checkpointed grow terminal : bool) : LsmtRwLayer :=
  Rw (rw_pair w) (rw_segments w) (rw_segments_revision w) (rw_data_end_sector w) (rw_data_bytes w) (rw_vsize w)
    (rw_uuid w) (rw_journal_failed w) (rw_sealed w) checkpointed grow terminal.

(** Runs an operation of the pair. *)
Definition on_pair {A} (m : io FilePair A) : io LsmtRwLayer A := fun w =>
  let '(r, p) := m (rw_pair w) in (r, set_pair w p).

(** ** Gates *)

Definition begin_grow_op : io LsmtRwLayer unit := fun w =>
  if rw_terminal_op w || rw_grow_op w then (Err (Errno EBUSY), w) else
  if rw_sealed w || rw_checkpointed w then (Err (Errno EROFS), w) else
  (Ok tt, set_gates w (rw_checkpointed w) true (rw_terminal_op w)).
Definition end_grow_op : io LsmtRwLayer unit := fun w =>
  (Ok tt, set_gates w (rw_checkpointed w) false (rw_terminal_op w)).
Definition begin_terminal_op (allow_checkpointed : bool) : io LsmtRwLayer unit := fun w =>
  if rw_terminal_op w || rw_grow_op w then (Err (Errno EBUSY), w) else
  if rw_sealed w then (Err (Errno EROFS), w) else
  if negb allow_checkpointed && rw_checkpointed w then (Err (Errno EROFS), w) else
  (Ok tt, set_gates w (rw_checkpointed w) (rw_grow_op w) true).
Definition end_terminal_op : io LsmtRwLayer unit := fun w =>
  (Ok tt, set_gates w (rw_checkpointed w) (rw_grow_op w) false).

(** ** Construction *)

Definition from_pair (p : FilePair) : LsmtRwLayer :=
  Rw p (p_mappings p) 0 (p_data_bytes p / kSector) (p_data_bytes p) (ht_virtual_size (p_header p))
    (ht_uuid (p_header p)) false false false false false.

Definition mappings_changed (w : LsmtRwLayer) : Z :=
  if rw_segments_revision w =? kUnknownRevision then rw_segments_revision w
  else u64 (rw_segments_revision w + 1).

(** Compacts the journal when it has grown past its index. *)
Definition prepare_mutation : io LsmtRwLayer unit := fun w =>
  if rw_journal_failed w then (Err (Errno EIO), w) else
  if Z.max 4096 (4 * zlen (rw_segments w)) <=? log_records (rw_pair w)
  then on_pair (pair_compact (rw_segments w)) w
  else (Ok tt, w).

(** ** Writing *)

Record Op := MkOp { op_voff : Z; op_moff : Z; op_nsector : Z; op_inplace : bool }.

(** The loop over the segments from the first that ends past [lo]; [cur] is the
    first sector not planned yet and [e] the append position. *)
Fixpoint plan (l : list segment_mapping) (lo hi cur e : Z) : list Op * Z * Z :=
  match l with
  | [] => ([], cur, e)
  | s :: l =>
      if hi <=? s_offset s then ([], cur, e) else
      if s_zeroed s || (seg_end s <=? lo) then plan l lo hi cur e else
      let '(gap, e) := if cur <? s_offset s
                       then ([MkOp cur e (s_offset s - cur) false], u64 (e + (s_offset s - cur)))
                       else ([], e) in
      let cs := Z.max cur (s_offset s) in
      let ce := Z.min (seg_end s) hi in
      if cs <? ce then
        let '(ops, cur, e) := plan l lo hi ce e in
        (gap ++ MkOp cs (u64 (s_moffset s + (cs - s_offset s))) (ce - cs) true :: ops, cur, e)
      else
        let '(ops, cur, e) := plan l lo hi cur e in (gap ++ ops, cur, e)
  end.
Definition plan_ops (l : list segment_mapping) (lo hi e : Z) : list Op * Z :=
  let first := upper_bound (fun m => lo <? seg_end m) l in
  let '(ops, cur, e) := plan (drop first l) lo hi lo e in
  if cur <? hi then (ops ++ [MkOp cur e (hi - cur) false], u64 (e + (hi - cur))) else (ops, e).

Definition op_segment (op : Op) : segment_mapping :=
  Seg (op_voff op) (u32 (op_nsector op)) (op_moff op) false 0.

(** [src + pos .. + n], a read of the caller's buffer. *)
Definition mem_read (buf : bytes) (pos n : Z) : res bytes :=
  if (0 <=? pos) && (0 <=? n) && (pos + n <=? zlen buf) then Ok (sub pos n buf) else Err Undefined.

(** The data writes; each publishes the readable extent. *)
Fixpoint write_ops (buf : bytes) (offset : Z) (ops : list Op) : io LsmtRwLayer unit :=
  match ops with
  | [] => mret tt
  | op :: ops =>
      src ← io_lift (mem_read buf (op_voff op * kSector - offset) (op_nsector op * kSector));
      _ ← on_pair (pair_write_data src (op_moff op * kSector));
      _ ← io_run (fun w => (Ok tt, set_data_bytes w (Z.max (rw_data_bytes w) ((op_moff op + op_nsector op) * kSector))));
      write_ops buf offset ops
  end.

(** The journal records of the appended extents. *)
Fixpoint publish_ops (ops : list Op) (ownership_published : bool) : io LsmtRwLayer unit :=
  match ops with
  | [] => mret tt
  | op :: ops =>
      if op_inplace op then publish_ops ops ownership_published else
      io_run (fun w =>
        match pair_append (op_segment op) (rw_pair w) with
        | (Ok _, p) => publish_ops ops true (set_pair w p)
        | (Err f, p) => (Err f, set_journal_failed (set_pair w p) (negb (healthy p) || ownership_published))
        end)
  end.

(** One piece of at most [kMaxSegLen] sectors. *)
Definition write_piece (buf : bytes) (offset lo hi : Z) : io LsmtRwLayer unit := fun w =>
  let '(ops, e) := plan_ops (rw_segments w) lo hi (rw_data_end_sector w) in
  (_ ← write_ops buf offset ops;
   if forallb op_inplace ops then mret tt else
   _ ← publish_ops ops false;
   io_run (fun w =>
     (Ok tt, set_segments w (foldl insert_sorted (cut lo hi (rw_segments w)) (op_segment <$> ops))
               (mappings_changed w)))) (set_data_end w e).

Fixpoint write_pieces (fuel : nat) (buf : bytes) (offset done : Z) : io LsmtRwLayer unit :=
  if done <? zlen buf then
    match fuel with
    | O => io_fail Fuel
    | S fuel =>
        let piece := Z.min (zlen buf - done) (kMaxSegLen * kSector) in
        let lo := (offset + done) / kSector in
        let hi := lo + piece / kSector in
        _ ← write_piece buf offset lo hi;
        write_pieces fuel buf offset (done + piece)
    end
  else mret tt.
Definition write_fuel (count : Z) : nat := Z.to_nat (count / (kMaxSegLen * kSector) + 1).

Definition pwrite (buf : bytes) (offset : Z) : io LsmtRwLayer Z := fun w =>
  let count := zlen buf in
  if rw_sealed w || rw_checkpointed w then (Err (Errno EROFS), w) else
  if negb (offset mod kSector =? 0) || negb (count mod kSector =? 0) || (count =? 0)
  then (Err (Errno EINVAL), w) else
  if (rw_vsize w <? offset) || (u64 (rw_vsize w - offset) <? count) then (Err (Errno EINVAL), w) else
  (_ ← prepare_mutation;
   _ ← write_pieces (write_fuel count) buf offset 0;
   io_run (fun w => (Ok count, set_data_bytes w (u64 (rw_data_end_sector w * kSector))))) w.

(** ** Reading *)

(** The scan for the segment at [sector]: the last one that starts at or before
    it and ends after it, and the start of the first one past it. *)
Fixpoint read_scan (l : list segment_mapping) (sector next_start : Z) (hit : option segment_mapping)
    : option segment_mapping * Z :=
  match l with
  | [] => (hit, next_start)
  | s :: l =>
      if sector <? s_offset s then (hit, Z.min next_start (u64 (s_offset s * kSector)))
      else read_scan l sector next_start (if sector <? seg_end s then Some s else hit)
  end.

(** [read_all] on the payload: a short file is [EIO]. *)
Definition pair_read (off n : Z) : io FilePair bytes :=
  o ← pair_step;
  io_run (fun p => match o with
           | Done => let bs := file_read (p_data p) off n in
                     if zlen bs =? n then (Ok bs, p) else (Err (Errno EIO), p)
           | Failed _ e => (Err (Errno e), p)
           end).

(** [out] is what the loop has written from the start of the caller's buffer, so
    [done] is its length. *)
Fixpoint read_loop (fuel : nat) (count offset : Z) (out : bytes) : io LsmtRwLayer bytes :=
  let done := zlen out in
  if done <? count then
    match fuel with
    | O => io_fail Fuel
    | S fuel =>
        io_run (fun w =>
          let pos := offset + done in
          let sector := pos / kSector in
          match read_scan (rw_segments w) sector (offset + count) None with
          | (Some hit, next_start) =>
              if s_zeroed hit then
                let n := Z.min (u64 (seg_end hit * kSector - pos)) (count - done) in
                read_loop fuel count offset (out ++ zeros n) w
              else
                let mbyte := u64 ((s_moffset hit + (sector - s_offset hit)) * kSector) in
                let n := Z.min (u64 (seg_end hit * kSector - pos)) (count - done) in
                (bs ← on_pair (pair_read mbyte n); read_loop fuel count offset (out ++ bs)) w
          | (None, next_start) =>
              let n := Z.min (u64 (next_start - pos)) (count - done) in
              read_loop fuel count offset (out ++ zeros n) w
          end)
    end
  else mret out.
Definition read_fuel (count : Z) : nat := Z.to_nat (count / kSector).

Definition pread (count offset : Z) : io LsmtRwLayer bytes := fun w =>
  if rw_journal_failed w then (Err (Errno EIO), w) else
  if negb (offset mod kSector =? 0) || negb (count mod kSector =? 0) then (Err (Errno EINVAL), w) else
  if rw_vsize w <=? offset then (Ok [], w) else
  let count := if rw_vsize w - offset <? count then rw_vsize w - offset else count in
  read_loop (read_fuel count) count offset [] w.

(** [View]: the payload as a source, bounded by the published extent. *)
Definition view_pread (count offset : Z) : io LsmtRwLayer bytes := fun w =>
  let bound := rw_data_bytes w in
  if bound <=? offset then (Ok [], w) else
  let count := if bound - offset <? count then bound - offset else count in
  if count =? 0 then (Ok [], w) else
  on_pair (o ← pair_step;
           io_run (fun p => match o with
                    | Done => (Ok (file_read (p_data p) offset count), p)
                    | Failed _ e => (Err (Errno e), p)
                    end)) w.

(** ** Discarding *)

(** The zeroed segments from [cur] on, each journalled before it joins the
    staged index. *)
Fixpoint discard_loop (fuel : nat) (lo hi cur : Z) (next : list segment_mapping)
    : io LsmtRwLayer (list segment_mapping) :=
  if cur <? hi then
    match fuel with
    | O => io_fail Fuel
    | S fuel =>
        let n := Z.min (hi - cur) kMaxSegLen in
        let m := Seg cur (u32 n) kHeaderSectors true 0 in
        io_run (fun w =>
          match pair_append m (rw_pair w) with
          | (Ok _, p) => discard_loop fuel lo hi (cur + n) (insert_sorted next m) (set_pair w p)
          | (Err f, p) => (Err f, set_journal_failed (set_pair w p) (negb (healthy p) || negb (cur =? lo)))
          end)
    end
  else mret next.
Definition discard_fuel (lo hi : Z) : nat := Z.to_nat ((hi - lo) / kMaxSegLen + 1).

(** The index is staged aside and swapped in once every record is out. *)
Definition discard_range (lo hi : Z) : io LsmtRwLayer unit := fun w =>
  (next ← discard_loop (discard_fuel lo hi) lo hi lo (cut lo hi (rw_segments w));
   io_run (fun w => (Ok tt, set_segments w next (mappings_changed w)))) w.

Definition discard (offset len : Z) : io LsmtRwLayer unit := fun w =>
  if rw_sealed w || rw_checkpointed w then (Err (Errno EROFS), w) else
  if negb (offset mod kSector =? 0) || negb (len mod kSector =? 0) || (len =? 0)
  then (Err (Errno EINVAL), w) else
  if (rw_vsize w <? offset) || (u64 (rw_vsize w - offset) <? len) then (Err (Errno EINVAL), w) else
  let lo := offset / kSector in
  let hi := lo + len / kSector in
  (_ ← prepare_mutation; discard_range lo hi) w.

(** ** Durability *)

Definition flush : io LsmtRwLayer unit := fun w =>
  if rw_journal_failed w then (Err (Errno EIO), w) else
  if negb (rw_sealed w) then on_pair pair_flush w else on_pair pair_sync w.

Definition checkpoint : io LsmtRwLayer unit := fun w =>
  match begin_terminal_op false w with
  | (Err f, w) => (Err f, w)
  | (Ok _, w) =>
      let '(r, w) :=
        if rw_journal_failed w then (Err (Errno EIO), w) else
        match on_pair pair_flush w with
        | (Ok _, w) => (Ok tt, set_gates w true (rw_grow_op w) (rw_terminal_op w))
        | (Err f, w) => (Err f, w)
        end in
      (r, (end_terminal_op w).2)
  end.

(** ** The plan of a write *)

(** [ops] cover the sectors from [cur] to [hi] in order: an in-place extent is
    where the index [l] has these sectors, the appended ones are consecutive from
    [e] to [e']. *)
Fixpoint ops_ok (l : list segment_mapping) (e cur hi e' : Z) (ops : list Op) : Prop :=
  match ops with
  | [] => cur = hi /\ e' = e
  | op :: ops =>
      op_voff op = cur /\ 0 < op_nsector op /\
      if op_inplace op
      then (forall x, cur <= x < cur + op_nsector op -> resolve l x = Data 0 (op_moff op + (x - cur))) /\
           ops_ok l e (cur + op_nsector op) hi e' ops
      else op_moff op = e /\ ops_ok l (e + op_nsector op) (cur + op_nsector op) hi e' ops
  end.

Lemma ops_ok_app l e a b e1 c e2 ops1 ops2 :
  ops_ok l e a b e1 ops1 -> ops_ok l e1 b c e2 ops2 -> ops_ok l e a c e2 (ops1 ++ ops2).
Proof.
  revert e a. induction ops1 as [|op ops1 IH]; intros e a; simpl; [by intros [-> ->]|].
  intros (H1 & H2 & H3) H. split; [done|]. split; [done|].
  destruct (op_inplace op); destruct H3; split; auto.
Qed.

Lemma ops_ok_bounds l e cur hi e' ops :
  ops_ok l e cur hi e' ops -> cur <= hi /\ e <= e' <= e + (hi - cur).
Proof.
  revert e cur. induction ops as [|op ops IH]; intros e cur; simpl; [lia|].
  intros (H1 & H2 & H3). destruct (op_inplace op); destruct H3 as [H3 H4]; specialize (IH _ _ H4); lia.
Qed.

Lemma plan_spec l z k lo hi cur e ops cur' e' :
  index_ok z k -> Forall untagged k ->
  (forall x t p, resolve k x = Data t p -> resolve l x = Data t p) ->
  lo <= cur <= hi -> hi <= kMaxOffset -> 0 <= e -> e + (hi - cur) < 2 ^ 63 ->
  plan k lo hi cur e = (ops, cur', e') ->
  ops_ok l e cur cur' e' ops /\ cur' <= hi.
Proof.
  intros Hk. revert z cur e ops cur' e' Hk.
  induction k as [|s k IH]; intros z cur e ops cur' e' Hk Hu Hl Hlo Hhi He Hroom; cbn [plan].
  { intros [= <- <- <-]. split; [done|lia]. }
  pose proof Hk as Hsk. apply index_ok_cons in Hk as (Hs & Hz & Hk). apply Forall_cons in Hu as [Hus Hu].
  assert (forall x t p, resolve k x = Data t p -> resolve l x = Data t p) as Hlk.
  { intros x t p Hx. apply Hl. simpl. destruct (covers s x) eqn:Hc; [|done]. apply covers_true in Hc.
    by rewrite (resolve_below _ k x Hk) in Hx by lia. }
  rewrite seg_ok_end by done. destruct (Z.leb_spec hi (s_offset s)).
  { intros [= <- <- <-]. split; [done|lia]. }
  destruct (s_zeroed s || (fin s <=? lo)) eqn:Hskip; [by apply (IH (fin s))|].
  apply orb_false_iff in Hskip as [Hzs Hfl]. apply Z.leb_gt in Hfl.
  pose proof Hs as (Ho & Hlen & Hmo & _ & Hme). specialize (Hme Hzs).
  assert (exists gap e1, (if cur <? s_offset s
      then ([MkOp cur e (s_offset s - cur) false], u64 (e + (s_offset s - cur))) else ([], e)) = (gap, e1) /\
    ops_ok l e cur (Z.max cur (s_offset s)) e1 gap /\ e <= e1 <= e + (Z.max cur (s_offset s) - cur))
    as (gap & e1 & -> & Hgap & He1).
  { destruct (Z.ltb_spec cur (s_offset s)).
    - eexists _, _. split; [done|]. rewrite u64_small by lia. simpl. split; [lia|lia].
    - eexists _, _. split; [done|]. simpl. lia. }
  set (cs := Z.max cur (s_offset s)) in *. set (ce := Z.min (fin s) hi) in *.
  destruct (Z.ltb_spec cs ce).
  - destruct (plan k lo hi ce e1) as [[ops1 c1] e2] eqn:Hp. intros [= <- <- <-].
    destruct (IH (fin s) ce e1 ops1 c1 e2) as [H1 H2]; try done; try lia.
    split; [|done]. eapply ops_ok_app; [exact Hgap|]. cbn [ops_ok op_voff op_nsector op_inplace op_moff].
    rewrite Zplus_minus. split; [done|]. split; [lia|]. split; [|done]. intros x Hx. apply Hl. simpl.
    rewrite (proj2 (covers_true s x)) by lia. unfold seg_cell. rewrite Hzs, Hus. f_equal.
    unfold fin in *. rewrite u64_small by lia. lia.
  - (* the segment ends before [cur]: nothing is planned for it *)
    destruct (plan k lo hi cur e1) as [[ops1 c1] e2] eqn:Hp. intros [= <- <- <-].
    assert (cs = cur) as Hcs by (unfold cs, ce, fin in *; lia). rewrite Hcs in *.
    destruct (IH (fin s) cur e1 ops1 c1 e2) as [H1 H2]; try done; try lia.
    split; [|done]. by eapply ops_ok_app.
Qed.

Lemma plan_ops_spec l lo hi e ops e' :
  index_ok 0 l -> Forall untagged l -> 0 <= lo < hi -> hi <= kMaxOffset -> 0 <= e ->
  e + (hi - lo) < 2 ^ 63 -> plan_ops l lo hi e = (ops, e') -> ops_ok l e lo hi e' ops.
Proof.
  intros Hi Hu Hlo Hhi He Hroom. unfold plan_ops. set (k := upper_bound _ l).
  pose proof Hi as Hi'. rewrite <- (take_drop k l) in Hi'. apply index_ok_app in Hi' as [H1 H2].
  destruct (plan (drop k l) lo hi lo e) as [[ops1 cur] e1] eqn:Hp.
  destruct (plan_spec l _ _ lo hi lo e ops1 cur e1 H2) as [Hops Hcur]; try done; try lia.
  { by apply Forall_drop. }
  { intros x t p Hx. rewrite <- (take_drop k l), resolve_app.
    destruct (decide (x < end_from 0 (take k l))) as [Hlt|Hge].
    - by rewrite (resolve_below _ _ x H2) in Hx by done.
    - by rewrite (resolve_above _ _ x H1) by lia. }
  pose proof (ops_ok_bounds _ _ _ _ _ _ Hops). destruct (Z.ltb_spec cur hi).
  - intros [= <- <-]. eapply ops_ok_app; [exact Hops|]. simpl. rewrite u64_small by lia. lia.
  - intros [= <- <-]. by replace hi with cur by lia.
Qed.

(** ** The payload writes *)

Definition op_owns (op : Op) (q : Z) : Prop := op_moff op <= q < op_moff op + op_nsector op.

(** The physical sectors of a plan are the index's own or fresh ones. *)
Lemma ops_owned l e cur hi e' ops op q :
  ops_ok l e cur hi e' ops -> op ∈ ops -> op_owns op q ->
  (exists x, cur <= x < hi /\ resolve l x = Data 0 q) \/ e <= q < e'.
Proof.
  revert e cur. induction ops as [|o ops IH]; intros e cur; [by intros _ ?%not_elem_of_nil|].
  cbn [ops_ok]. intros (H1 & H2 & H3) Hin Hq.
  destruct (op_inplace o); destruct H3 as [H3 H4]; pose proof (ops_ok_bounds _ _ _ _ _ _ H4);
    apply elem_of_cons in Hin as [-> |Hin].
  - left. exists (cur + (q - op_moff o)). unfold op_owns in Hq. split; [lia|].
    rewrite H3 by lia. f_equal. lia.
  - destruct (IH _ _ H4 Hin Hq) as [(x & ? & ?)|?]; [left; exists x; split; [lia|done]|by right].
  - right. unfold op_owns in Hq. lia.
  - destruct (IH _ _ H4 Hin Hq) as [(x & ? & ?)|?]; [left; exists x; split; [lia|done]|right; lia].
Qed.

(** One payload write, complete or cut short. *)
Lemma pair_write_data_spec p log off bs :
  pair_ok p log -> kSpace <= off -> Z.max (f_size (p_data p)) (off + zlen bs) < kMaxMoffset * kAlignment ->
  let '(r, p') := pair_write_data bs off p in
  pair_ok p' log /\ p_header p' = p_header p /\ p_index p' = p_index p /\
  f_size (p_data p) <= f_size (p_data p') <= Z.max (f_size (p_data p)) (off + zlen bs) /\
  (forall i, i < off \/ off + zlen bs <= i -> f_byte (p_data p') i = f_byte (p_data p) i) /\
  match r with
  | Ok _ => p_data p' = file_write (p_data p) off bs
  | Err f => any_errno f
  end.
Proof.
  intros Hp Ho Hroom. unfold pair_write_data, pair_step, mbind, io_bind, io_run.
  assert (forall s b, zlen b <= zlen bs ->
    let p' := set_data (set_script p s) (file_write (p_data p) off b) in
    pair_ok p' log /\ p_header p' = p_header p /\ p_index p' = p_index p /\
    f_size (p_data p) <= f_size (p_data p') <= Z.max (f_size (p_data p)) (off + zlen bs) /\
    forall i, i < off \/ off + zlen bs <= i -> f_byte (p_data p') i = f_byte (p_data p) i) as Hw.
  { intros s b Hb p'. pose proof (zlen_nonneg b).
    assert (f_size (p_data p) <= f_size (p_data p') <= Z.max (f_size (p_data p)) (off + zlen bs)) as Hsz.
    { split; [apply f_size_write|]. simpl. case_if; lia. }
    split; [|split; [done|]; split; [done|]; split; [done|]].
    - apply (pair_ok_write (set_script p s)); [by apply pair_ok_script|done|]. unfold data_sectors.
      apply Z.div_lt_upper_bound; [unfold kAlignment; lia|]. unfold p' in Hsz. simpl in *. lia.
    - intros i Hi. apply f_byte_write_out. lia. }
  destruct (next_outcome (p_script p)) as [[|n e] s]; cbn [p_data set_script].
  - destruct (Hw s bs ltac:(lia)) as (H1 & H2 & H3 & H4 & H5).
    split; [done|]. split; [done|]. split; [done|]. split; [done|]. by split.
  - destruct (Hw s (partial n bs)) as (H1 & H2 & H3 & H4 & H5); [unfold partial; rewrite zlen_ztake; lia|].
    split; [done|]. split; [done|]. split; [done|]. split; [done|]. split; [done|]. auto with errno.
Qed.

(** What a completed list of extents leaves in the payload. *)
Definition written (buf : bytes) (offset : Z) (ops : list Op) (f : file) : Prop :=
  forall op x j, op ∈ ops -> op_voff op <= x < op_voff op + op_nsector op -> 0 <= j < kSector ->
    f_byte f ((op_moff op + (x - op_voff op)) * kSector + j) = bget buf (x * kSector + j - offset) /\
    (op_moff op + op_nsector op) * kSector <= f_size f.
(** Sectors outside the extents keep their bytes. *)
Definition untouched (ops : list Op) (f f' : file) : Prop :=
  forall q j, (forall op, op ∈ ops -> ~ op_owns op q) -> 0 <= j < kSector ->
    f_byte f' (q * kSector + j) = f_byte f (q * kSector + j).

Section Writes.
Context (l : list segment_mapping) (e0 : Z) (buf : bytes) (offset : Z).
Context (Hinj : phys_inj l).
Context (Hpay : forall x t p, resolve l x = Data t p -> kHeaderSectors <= p < e0).

(** The extents of a plan do not overlap. *)
Lemma ops_disjoint e cur hi e' op ops op2 q :
  ops_ok l e cur hi e' (op :: ops) -> e0 <= e -> op_owns op q -> op2 ∈ ops -> ~ op_owns op2 q.
Proof.
  cbn [ops_ok]. intros (H1 & H2 & H3) He Hq Hin Hq2. unfold op_owns in Hq.
  destruct (op_inplace op); destruct H3 as [H3 H4];
    destruct (ops_owned _ _ _ _ _ _ _ _ H4 Hin Hq2) as [(x & Hx & Hr)|Hr].
  - specialize (H3 (cur + (q - op_moff op)) ltac:(lia)).
    replace (op_moff op + (cur + (q - op_moff op) - cur)) with q in H3 by lia.
    pose proof (Hinj _ _ _ _ _ H3 Hr). lia.
  - specialize (H3 (cur + (q - op_moff op)) ltac:(lia)).
    replace (op_moff op + (cur + (q - op_moff op) - cur)) with q in H3 by lia.
    pose proof (Hpay _ _ _ H3). lia.
  - pose proof (Hpay _ _ _ Hr). lia.
  - lia.
Qed.

Lemma ops_head_bounds e cur hi e' op ops :
  ops_ok l e cur hi e' (op :: ops) -> e0 <= e -> kHeaderSectors <= e ->
  kHeaderSectors <= op_moff op /\
  exists e1, e <= e1 /\ op_moff op + op_nsector op <= e1 /\ ops_ok l e1 (cur + op_nsector op) hi e' ops.
Proof.
  cbn [ops_ok]. intros (H1 & H2 & H3) He H8. destruct (op_inplace op); destruct H3 as [H3 H4].
  - pose proof (Hpay _ _ _ (H3 cur ltac:(lia))).
    pose proof (Hpay _ _ _ (H3 (cur + op_nsector op - 1) ltac:(lia))).
    split; [lia|]. exists e. split; [lia|]. split; [lia|done].
  - split; [lia|]. exists (e + op_nsector op). split; [lia|]. split; [lia|done].
Qed.

(** The extents lie within the first [n] bytes. *)
Definition readable (ops : list Op) (n : Z) : Prop :=
  forall op, op ∈ ops -> (op_moff op + op_nsector op) * kSector <= n.

Definition only_payload (w w' : LsmtRwLayer) (log : list segment_mapping) (ops : list Op) (e' : Z) : Prop :=
  exists p' n, w' = set_data_bytes (set_pair w p') n /\ pair_ok p' log /\
    p_header p' = p_header (rw_pair w) /\ p_index p' = p_index (rw_pair w) /\
    f_size (p_data (rw_pair w)) <= f_size (p_data p') <= e' * kSector /\
    untouched ops (p_data (rw_pair w)) (p_data p') /\ rw_data_bytes w <= n.

Lemma write_ops_spec ops e cur hi e' w log :
  ops_ok l e cur hi e' ops -> e0 <= e -> kHeaderSectors <= e -> e' < kMaxMoffset ->
  pair_ok (rw_pair w) log -> f_size (p_data (rw_pair w)) <= e * kSector ->
  offset <= cur * kSector -> hi * kSector <= offset + zlen buf ->
  let '(r, w') := write_ops buf offset ops w in
  only_payload w w' log ops e' /\
  match r with
  | Ok _ => written buf offset ops (p_data (rw_pair w')) /\ readable ops (rw_data_bytes w')
  | Err f => any_errno f
  end.
Proof.
  revert e cur w. induction ops as [|op ops IH]; intros e cur w Hops He H8 He' Hp Hsz Hlo Hhi.
  { destruct Hops as [_ ->]. cbn [write_ops mret io_ret]. split.
    - exists (rw_pair w), (rw_data_bytes w). destruct w. do 5 (split; [done|]). split; [by intros q j _ _|done].
    - split; [by intros op x j ?%not_elem_of_nil|by intros op ?%not_elem_of_nil]. }
  destruct (ops_head_bounds _ _ _ _ _ _ Hops He H8) as (Hmo & e1 & He1 & Hme & Hrest).
  pose proof (ops_ok_bounds _ _ _ _ _ _ Hrest) as Hb.
  pose proof (fun q op2 => ops_disjoint _ _ _ _ _ _ op2 q Hops He) as Hdis.
  destruct Hops as (Hv & Hn & _). unfold kHeaderSectors, kSector in *. cbn [write_ops].
  assert (mem_read buf (op_voff op * 512 - offset) (op_nsector op * 512) =
    Ok (sub (op_voff op * 512 - offset) (op_nsector op * 512) buf)) as Hmr.
  { unfold mem_read. rewrite !(proj2 (Z.leb_le _ _)) by lia. done. }
  set (src := sub _ _ _) in Hmr.
  assert (zlen src = op_nsector op * 512) as Hsrc by (unfold src; rewrite zlen_sub; lia).
  unfold kSector. unfold mbind at 1, io_bind at 1, io_lift. rewrite Hmr. cbv iota beta.
  unfold mbind at 1, io_bind at 1, on_pair.
  pose proof (pair_write_data_spec (rw_pair w) log (op_moff op * 512) src Hp) as Hw.
  destruct (pair_write_data src (op_moff op * 512) (rw_pair w)) as [r p1].
  destruct Hw as (P1 & P2 & P3 & P4 & P5 & P6); [unfold kSpace; lia|unfold kAlignment; lia|].
  assert (untouched [op] (p_data (rw_pair w)) (p_data p1)) as Hun1.
  { intros q j Hq Hj. apply P5. specialize (Hq op (list_elem_of_here _ _)). unfold op_owns, kSector in *. lia. }
  destruct r as [u|f].
  2: { split; [|done]. exists p1, (rw_data_bytes w). split; [by destruct w|]. split; [done|]. split; [done|].
       split; [done|]. split; [unfold kSector; lia|]. split; [|done]. intros q j Hq Hj. apply Hun1; [|done].
       intros o [-> |[]%not_elem_of_nil]%elem_of_cons. apply Hq, list_elem_of_here. }
  unfold mbind at 1, io_bind at 1, io_run.
  set (w1 := set_data_bytes _ _).
  assert (rw_data_bytes w1 = Z.max (rw_data_bytes w) ((op_moff op + op_nsector op) * 512)) as Hw1 by done.
  specialize (IH e1 (cur + op_nsector op) w1 Hrest ltac:(lia) ltac:(lia) He' P1).
  destruct (write_ops buf offset ops w1) as [r w'].
  destruct IH as [(p' & n & -> & Q1 & Q2 & Q3 & Q4 & Q5 & Q7) Q6]; [simpl; lia|lia|lia|].
  split.
  { exists p', n. split; [done|]. split; [done|]. split; [by rewrite Q2|]. split; [by rewrite Q3|].
    split; [simpl in Q4; lia|]. split; [|rewrite Hw1 in Q7; lia]. intros q j Hq Hj. rewrite Q5, Hun1; try done.
    - intros o [-> |[]%not_elem_of_nil]%elem_of_cons. apply Hq, list_elem_of_here.
    - intros o Ho. apply Hq. by apply list_elem_of_further. }
  destruct r as [u'|f]; [|done]. destruct Q6 as [Q6 Q8]. split.
  2: { intros o [-> |Ho]%elem_of_cons; [|by apply Q8].
       cbn [rw_data_bytes set_data_bytes] in *. rewrite Hw1 in Q7. unfold kSector. lia. }
  intros o x j Hin Hx Hj. apply elem_of_cons in Hin as [-> |Hin]; [|by apply Q6].
  cbn [rw_pair set_data_bytes set_pair]. split.
  - rewrite Q5; [|intros o2 Ho2; apply Hdis; [unfold op_owns; lia|done]|done].
    cbn [rw_pair w1 set_data_bytes set_pair]. rewrite P6.
    unfold kSector in *. rewrite f_byte_write_in by lia. unfold src. rewrite bget_sub by lia. f_equal. lia.
  - cbn [rw_pair w1 set_data_bytes set_pair] in Q4. rewrite P6 in Q4.
    rewrite f_size_write_end in Q4 by lia. unfold kSector. lia.
Qed.
End Writes.

(** ** Publishing the appended extents *)

(** The records a plan adds to the journal. *)
Fixpoint records (ops : list Op) : list segment_mapping :=
  match ops with
  | [] => []
  | op :: ops => if op_inplace op then records ops else op_segment op :: records ops
  end.

(** The payload sectors an index uses lie below [e]. *)
Definition phys_below (l : list segment_mapping) (e : Z) : Prop :=
  forall x t p, resolve l x = Data t p -> p < e.

Lemma phys_below_mono l e e' : phys_below l e -> e <= e' -> phys_below l e'.
Proof. intros H He x t p Hx. specialize (H x t p Hx). lia. Qed.

Section Fresh.
Context (sectors dsec : Z).
Context (Hs : 0 <= sectors <= kMaxOffset) (Hd : 0 <= dsec < kMaxMoffset).

Lemma log_live_step log m x :
  Forall (live_record sectors dsec) log -> live_record sectors dsec m ->
  resolve (log_live (log ++ [m])) x = over (resolve [normal m] x) (resolve (log_live log) x).
Proof.
  intros Hl Hm. destruct (log_live_ok sectors dsec Hs Hd log Hl) as [Hok _].
  rewrite log_live_snoc. destruct Hm as (He & Hn & Hr).
  destruct (live_replace_ok sectors dsec Hs Hd _ m Hok He Hr Hn) as [_ ->].
  unfold log_step. by rewrite (proj2 (Z.eqb_neq _ _)).
Qed.

(** A record over fresh payload keeps every payload sector owned once. *)
Lemma fresh_step log m :
  Forall (live_record sectors dsec) log -> live_record sectors dsec m ->
  phys_inj (log_live log) ->
  (s_zeroed m = false -> phys_below (log_live log) (s_moffset m)) ->
  phys_inj (log_live (log ++ [m])) /\
  forall e, phys_below (log_live log) e -> (s_zeroed m = false -> s_moffset m + s_length m <= e) ->
    phys_below (log_live (log ++ [m])) e.
Proof.
  intros Hl Hm Hj Hb.
  assert (forall x t p, resolve [normal m] x = Data t p ->
    s_zeroed m = false /\ p = s_moffset m + (x - s_offset m) /\ s_offset m <= x < s_offset m + s_length m) as Hc.
  { intros x t p. unfold normal. simpl. destruct (covers _ x) eqn:Hcov; [|done]. apply covers_true in Hcov.
    unfold fin, seg_cell in *. simpl in *. destruct (s_zeroed m); [done|]. by intros [= <- <-]. }
  assert (forall x t p, resolve (log_live (log ++ [m])) x = Data t p ->
    resolve [normal m] x = Data t p \/ resolve (log_live log) x = Data t p) as Hor.
  { intros x t p. rewrite log_live_step by done. destruct (resolve [normal m] x); simpl; auto. }
  split.
  - intros x y t u p Hx Hy. destruct (Hor _ _ _ Hx) as [Hx'|Hx'], (Hor _ _ _ Hy) as [Hy'|Hy'].
    + apply Hc in Hx' as (_ & ? & _). apply Hc in Hy' as (_ & ? & _). lia.
    + apply Hc in Hx' as (Hz & ? & ?). specialize (Hb Hz y u p Hy'). lia.
    + apply Hc in Hy' as (Hz & ? & ?). specialize (Hb Hz x t p Hx'). lia.
    + by eapply Hj.
  - intros e He Hme x t p Hx. destruct (Hor _ _ _ Hx) as [Hx'|Hx']; [|by eapply He].
    apply Hc in Hx' as (Hz & -> & ?). specialize (Hme Hz). lia.
Qed.
End Fresh.

(** The record of an appended extent, once its payload is in the file. *)
Lemma op_record sectors dsec op :
  0 <= op_voff op -> 0 < op_nsector op <= kMaxLength -> op_voff op + op_nsector op <= sectors ->
  sectors <= kMaxOffset -> kHeaderSectors <= op_moff op -> op_moff op + op_nsector op <= dsec ->
  dsec < kMaxMoffset ->
  live_record sectors dsec (op_segment op) /\ s_length (op_segment op) = op_nsector op /\
  seg_ok (op_segment op) /\ fin (op_segment op) = op_voff op + op_nsector op.
Proof.
  intros. unfold live_record, seg_encodable, record_ok, seg_ok, fin, op_segment, kInvalidOffset,
    kMaxMoffset, kMaxLength, kMaxOffset, kHeaderSectors, kDataStartSector, kSpace, kAlignment in *.
  cbn [s_offset s_length s_moffset s_zeroed s_tag]. rewrite u32_small by lia.
  change (4096 / 512) with 8. split; [|split; [done|split; [repeat split; intros; lia|done]]].
  split; [lia|]. split; [lia|]. right. repeat split; intros; lia.
Qed.

(** The journal now ends with the new records, nothing else of the layer moved. *)
Definition published (w w' : LsmtRwLayer) (log' : list segment_mapping) : Prop :=
  exists p', w' = set_pair w p' /\ pair_ok p' log' /\ p_data p' = p_data (rw_pair w) /\
    p_header p' = p_header (rw_pair w).

(** An append failed: the files hold the log with some of the new records, and
    the layer is fenced unless the journal is exactly as before. *)
Definition broken (w w' : LsmtRwLayer) (log ms : list segment_mapping) (some : bool) : Prop :=
  exists p' b k, w' = set_journal_failed (set_pair w p') b /\
    p_data p' = p_data (rw_pair w) /\ p_header p' = p_header (rw_pair w) /\
    pair_disk p' (log ++ take k ms) /\
    (b = false -> some = false /\ k = 0%nat /\ pair_ok p' log).

(** One record, appended. *)
Lemma append_step w log m some :
  pair_ok (rw_pair w) log -> live_record (pair_sectors (rw_pair w)) (data_sectors (p_data (rw_pair w))) m ->
  phys_inj (log_live log) -> phys_inj (log_live (log ++ [m])) ->
  match pair_append m (rw_pair w) with
  | (Ok _, p) => published w (set_pair w p) (log ++ [m])
  | (Err f, p) =>
      any_errno f /\ forall ms, broken w (set_journal_failed (set_pair w p) (negb (healthy p) || some)) log (m :: ms) some
  end.
Proof.
  intros Hp Hm Hj Hj'.
  pose proof (pair_append_log _ _ _ Hp Hm Hj Hj') as Ha.
  pose proof (proj2 (pair_append_growth m (rw_pair w))) as Eg.
  destruct (po_healthy _ _ Hp) as (_ & _ & G). rewrite G in Eg.
  destruct (pair_append m (rw_pair w)) as [[u|f] p]; cbn [snd] in Eg; destruct Ha as (E1 & E2 & Ha).
  - exists p. split; [done|]. by split.
  - destruct Ha as (He & log' & Hl & Hdl & Hh). split; [done|]. intros ms.
    exists p, (negb (healthy p) || some), (if decide (log' = log) then 0%nat else 1%nat).
    split; [done|]. split; [done|]. split; [done|]. unfold pair_disk. rewrite E1, E2, Eg. split; [split; [|done]|].
    + case_decide as Hdec; cbn [take]; [rewrite app_nil_r; by subst log'|].
      destruct Hl as [Hl|Hl]; [done|]. by subst log'.
    + intros Hb. apply orb_false_iff in Hb as [Hb Hsome]. unfold healthy in Hb. rewrite negb_involutive in Hb.
      destruct (Hh Hb) as [-> Hok]. by rewrite decide_True.
Qed.

Section Publish.
Context (l : list segment_mapping) (sectors dsec hi : Z).
Context (Hs : 0 <= sectors <= kMaxOffset) (Hd : 0 <= dsec < kMaxMoffset) (Hhi : hi <= sectors).

Lemma publish_ops_spec ops e cur e' some w log :
  ops_ok l e cur hi e' ops -> 0 <= cur -> kHeaderSectors <= e ->
  (forall op, op ∈ ops -> op_nsector op <= kMaxLength /\ (op_inplace op = false -> op_moff op + op_nsector op <= dsec)) ->
  pair_ok (rw_pair w) log -> pair_sectors (rw_pair w) = sectors -> data_sectors (p_data (rw_pair w)) = dsec ->
  phys_inj (log_live log) -> phys_below (log_live log) e ->
  let '(r, w') := publish_ops ops some w in
  match r with
  | Ok _ => published w w' (log ++ records ops) /\ phys_inj (log_live (log ++ records ops)) /\
            phys_below (log_live (log ++ records ops)) e'
  | Err f => any_errno f /\ broken w w' log (records ops) some
  end.
Proof.
  revert e cur some w log. induction ops as [|op ops IH]; intros e cur some w log Hops H0 H8 Hop Hp Es Ed Hj Hb.
  { destruct Hops as [_ ->]. cbn [publish_ops records]. rewrite app_nil_r. split; [|done].
    exists (rw_pair w). split; [by destruct w|done]. }
  cbn [ops_ok] in Hops. destruct Hops as (Hv & Hn & Hops).
  destruct (Hop op (list_elem_of_here _ _)) as [Hn' Hm].
  assert (forall o, o ∈ ops -> op_nsector o <= kMaxLength /\ (op_inplace o = false -> op_moff o + op_nsector o <= dsec))
    as Hrest by (intros o Ho; by apply Hop, list_elem_of_further).
  cbn [publish_ops records]. destruct (op_inplace op) eqn:Hin; destruct Hops as [Hx Hops].
  { by apply (IH e (cur + op_nsector op)); try done; lia. }
  pose proof (ops_ok_bounds _ _ _ _ _ _ Hops) as Hbd.
  destruct (op_record sectors dsec op) as (Hr & Hlen & _ & _); [lia|lia|lia|lia|lia|by apply Hm|lia|].
  assert (Forall (live_record sectors dsec) log) as Hll
    by (destruct Hp as [[J _ _ _ _ _ _] _ _ _ _ _ _]; by rewrite Es, Ed in J).
  destruct (fresh_step sectors dsec Hs Hd log (op_segment op) Hll Hr Hj) as [Hj' Hb'].
  { intros _. simpl. by rewrite Hx. }
  specialize (Hb' (e + op_nsector op) ltac:(eapply phys_below_mono; [done|lia])
    ltac:(intros _; rewrite Hlen; simpl; lia)).
  pose proof (append_step w log (op_segment op) some Hp ltac:(by rewrite Es, Ed) Hj Hj') as Ha. unfold io_run.
  destruct (pair_append (op_segment op) (rw_pair w)) as [[u|f] p1].
  - destruct Ha as (p1' & [= <-] & Hp1 & E1 & E2).
    pose proof (IH (e + op_nsector op) (cur + op_nsector op) true (set_pair w p1) (log ++ [op_segment op])) as IH'.
    destruct (publish_ops ops true (set_pair w p1)) as [r w']. rewrite <- app_assoc in IH'. cbn [app] in IH'.
    unfold pair_sectors in *. cbn [rw_pair set_pair] in IH'. rewrite E1, E2 in IH'.
    specialize (IH' Hops ltac:(lia) ltac:(lia) Hrest Hp1 Es Ed Hj' Hb'). destruct r as [u'|f].
    + destruct IH' as ((p' & -> & I1 & I2 & I3) & I4). split; [|done]. exists p'. split; [done|].
      cbn [rw_pair set_pair] in *. split; [done|]. split; congruence.
    + destruct IH' as (He & p' & b & k & -> & I1 & I2 & I3 & I4). split; [done|].
      exists p', b, (S k). cbn [rw_pair set_pair] in *. split; [done|]. split; [congruence|]. split; [congruence|].
      rewrite <- app_assoc in I3. split; [done|]. intros Hbf. by destruct (I4 Hbf).
  - destruct Ha as [He Ha]. split; [done|apply Ha].
Qed.
End Publish.

(** ** The new index is the new log *)

Section Extents.
Context (l : list segment_mapping) (hi : Z) (Hhi : hi <= kMaxOffset).

(** Extents the segment format can hold. *)
Definition ops_fit (ops : list Op) : Prop :=
  Forall (fun op => op_nsector op <= kMaxLength /\ 0 <= op_moff op /\ op_moff op + op_nsector op < kMaxMoffset) ops.

Lemma op_segment_ok op cur :
  op_voff op = cur -> 0 <= cur -> 0 < op_nsector op -> cur + op_nsector op <= hi ->
  op_nsector op <= kMaxLength /\ 0 <= op_moff op /\ op_moff op + op_nsector op < kMaxMoffset ->
  seg_ok (op_segment op) /\ fin (op_segment op) = cur + op_nsector op /\
  forall x, resolve [op_segment op] x =
    if (cur <=? x) && (x <? cur + op_nsector op) then Data 0 (op_moff op + (x - cur)) else Hole.
Proof.
  intros <- H0 Hn Hle (H1 & H2 & H3).
  unfold seg_ok, fin, op_segment, kMaxMoffset, kMaxLength, kMaxOffset in *.
  cbn [s_offset s_length s_moffset s_zeroed s_tag]. rewrite u32_small by lia.
  split; [repeat split; intros; lia|]. split; [done|]. intros x. done.
Qed.

Lemma ops_run ops e cur e' :
  ops_ok l e cur hi e' ops -> 0 <= cur -> ops_fit ops ->
  run_of cur hi (op_segment <$> ops) /\ index_ok cur (records ops) /\ Forall untagged (records ops) /\
  (forall x, cur <= x < hi -> exists op, op ∈ ops /\ op_voff op <= x < op_voff op + op_nsector op /\
     resolve (op_segment <$> ops) x = Data 0 (op_moff op + (x - op_voff op)) /\
     over (resolve (records ops) x) (resolve l x) = Data 0 (op_moff op + (x - op_voff op))) /\
  (forall x, x < cur \/ hi <= x -> resolve (op_segment <$> ops) x = Hole /\ resolve (records ops) x = Hole).
Proof.
  revert e cur. induction ops as [|op ops IH]; intros e cur Hops H0 Hfit.
  { destruct Hops as [-> _]. split; [done|]. split; [apply index_ok_nil|]. split; [constructor|].
    split; [lia|done]. }
  apply Forall_cons in Hfit as [Hf Hfit]. cbn [ops_ok] in Hops. destruct Hops as (Hv & Hn & Hops).
  assert (exists e1, ops_ok l e1 (cur + op_nsector op) hi e' ops) as [e1 Hrest]
    by (destruct (op_inplace op); destruct Hops; eauto).
  pose proof (ops_ok_bounds _ _ _ _ _ _ Hrest) as Hb.
  destruct (op_segment_ok op cur Hv H0 Hn ltac:(lia) Hf) as (Hs & Hfin & Hres).
  destruct (IH _ _ Hrest ltac:(lia) Hfit) as (I1 & I2 & I3 & I4 & I5).
  assert (forall x, resolve (op_segment <$> op :: ops) x =
    over (resolve [op_segment op] x) (resolve (op_segment <$> ops) x)) as Hcons.
  { intros x. change (op_segment <$> op :: ops) with ([op_segment op] ++ (op_segment <$> ops)). apply resolve_app. }
  assert (forall x, resolve (records (op :: ops)) x =
    over (if op_inplace op then Hole else resolve [op_segment op] x) (resolve (records ops) x)) as Hrec.
  { intros x. cbn [records]. destruct (op_inplace op); [done|].
    change (op_segment op :: records ops) with ([op_segment op] ++ records ops). apply resolve_app. }
  split; [|split; [|split; [|split]]].
  - csimpl. cbn [run_of]. rewrite Hfin. done.
  - cbn [records]. destruct (op_inplace op); [eapply index_ok_mono; [|exact I2]; lia|].
    apply index_ok_cons. rewrite Hfin. split; [done|]. split; [simpl; lia|done].
  - cbn [records]. destruct (op_inplace op); [done|]. by constructor.
  - intros x Hx. rewrite Hcons, Hrec, Hres.
    destruct (Z.ltb_spec x (cur + op_nsector op)).
    + exists op. rewrite (proj2 (Z.leb_le cur x)) by lia. cbn [andb].
      split; [apply list_elem_of_here|]. rewrite Hv. split; [lia|]. split; [done|].
      destruct (I5 x ltac:(lia)) as [_ ->]. destruct (op_inplace op); [|done].
      destruct Hops as [Hops _]. simpl. apply Hops. lia.
    + destruct (I4 x ltac:(lia)) as (op2 & J1 & J2 & J3 & J4). exists op2. rewrite andb_false_r. cbn [over].
      split; [by apply list_elem_of_further|]. split; [done|]. split; [done|]. by destruct (op_inplace op).
  - intros x Hx. rewrite Hcons, Hrec, Hres. destruct (I5 x ltac:(lia)) as [-> ->].
    assert ((cur <=? x) && (x <? cur + op_nsector op) = false) as ->.
    { destruct (Z.leb_spec cur x), (Z.ltb_spec x (cur + op_nsector op)); done || lia. }
    by destruct (op_inplace op).
Qed.
End Extents.

(** Appending a sorted run of records to the log overrides it there. *)
Lemma log_live_run sectors dsec log ms z x :
  0 <= sectors <= kMaxOffset -> 0 <= dsec < kMaxMoffset ->
  Forall (live_record sectors dsec) (log ++ ms) -> index_ok z ms -> Forall untagged ms ->
  resolve (log_live (log ++ ms)) x = over (resolve ms x) (resolve (log_live log) x).
Proof.
  intros Hs Hd. induction ms as [|m ms IH] using rev_ind; intros Hl Hi Hu; [by rewrite app_nil_r|].
  rewrite app_assoc in *. apply Forall_app in Hl as [Hl Hm]. apply Forall_cons in Hm as [Hm _].
  apply index_ok_app in Hi as [Hi Him]. apply index_ok_cons in Him as (_ & Hge & _).
  apply Forall_app in Hu as [Hu Hum].
  rewrite (log_live_step sectors dsec Hs Hd) by done. rewrite IH by done.
  pose proof (resolve_normal [m] x Hum) as Hn. change (normal <$> [m]) with [normal m] in Hn. rewrite Hn, resolve_app.
  destruct (resolve [m] x) eqn:E; [by rewrite over_hole_r|..];
    (assert (s_offset m <= x) by (simpl in E; destruct (covers m x) eqn:Hc; [apply covers_true in Hc; lia|done]));
    rewrite (resolve_above _ ms x Hi) by lia; done.
Qed.

(** ** The invariant of the layer *)

Definition rw_data (w : LsmtRwLayer) : file := p_data (rw_pair w).
Definition rw_sectors (w : LsmtRwLayer) : Z := pair_sectors (rw_pair w).

(** What holds of the index in every state: it is well-formed, it maps payload
    inside the file and inside the extent published to readers. *)
Record rw_wf (w : LsmtRwLayer) : Prop := {
  wf_live : live_ok (rw_sectors w) (data_sectors (rw_data w)) (rw_segments w);
  wf_zero : Forall zero_ok (rw_segments w);
  wf_extent : forall x t p, resolve (rw_segments w) x = Data t p -> (p + 1) * kSector <= rw_data_bytes w;
  wf_revision : 0 <= rw_segments_revision w <= kUnknownRevision;
}.

(** The layer can serve and take I/O and its journal is [log]. *)
Record rw_ok (w : LsmtRwLayer) (log : list segment_mapping) : Prop := {
  ro_pair : pair_ok (rw_pair w) log;
  ro_journal : rw_journal_failed w = false;
  ro_wf : rw_wf w;
  ro_inj : phys_inj (rw_segments w);
  ro_log : forall x, resolve (rw_segments w) x = resolve (log_live log) x;
  ro_end : f_size (rw_data w) <= rw_data_end_sector w * kSector;
  ro_vsize : rw_vsize w = ht_virtual_size (p_header (rw_pair w));
}.

(** The bytes of the device, from the index and from the journal. *)
Definition cell_byte (f : file) (c : cell) (j : Z) : Z :=
  match c with Data _ p => f_byte f (p * kSector + j) | _ => 0 end.
Definition index_view (f : file) (l : list segment_mapping) (i : Z) : Z :=
  cell_byte f (resolve l (i / kSector)) (i mod kSector).
Definition rw_view (w : LsmtRwLayer) : Z -> Z := index_view (rw_data w) (rw_segments w).

Lemma rw_view_log w log i : rw_ok w log -> rw_view w i = index_view (rw_data w) (log_live log) i.
Proof. intros H. unfold rw_view, index_view. by rewrite (ro_log _ _ H). Qed.

(** What the files of the layer hold in every state, and that a layer which is
    not fenced agrees with them. *)
Definition rw_state (w : LsmtRwLayer) (log : list segment_mapping) : Prop :=
  pair_disk (rw_pair w) log /\
  (rw_journal_failed w = false -> rw_ok w log).

Lemma rw_ok_state w log : rw_ok w log -> rw_state w log.
Proof.
  intros H. split; [|done]. pose proof H as [H1 _ _ H5 H6 _ _].
  split; [|by destruct (po_healthy _ _ H1) as (_ & _ & ?)]. apply pair_ok_disk; [done|].
  intros x y t u p. rewrite <- !H6. apply H5.
Qed.

Lemma rw_ok_end w log : rw_ok w log -> kHeaderSectors <= rw_data_end_sector w.
Proof.
  intros [H1 _ _ _ _ H7 _]. pose proof (po_size _ _ H1). unfold rw_data, kSpace, kSector, kHeaderSectors in *. lia.
Qed.

Lemma data_sectors_bytes f p : 0 <= p < data_sectors f -> (p + 1) * kSector <= f_size f.
Proof.
  unfold data_sectors, kSector, kAlignment. intros H.
  pose proof (Z.div_mod (f_size f) 512 ltac:(lia)). pose proof (Z.mod_pos_bound (f_size f) 512 ltac:(lia)). lia.
Qed.
Lemma data_sectors_le f e : f_size f <= e * kSector -> data_sectors f <= e.
Proof.
  unfold data_sectors, kSector, kAlignment. intros H. apply Z.div_le_upper_bound; lia.
Qed.
Lemma data_sectors_ge f e : e * kSector <= f_size f -> e <= data_sectors f.
Proof.
  unfold data_sectors, kSector, kAlignment. intros H. apply Z.div_le_lower_bound; lia.
Qed.
Lemma data_sectors_mono f f' : f_size f <= f_size f' -> data_sectors f <= data_sectors f'.
Proof. intros. apply Z.div_le_mono; [unfold kAlignment; lia|done]. Qed.

(** The index agrees with the replay, so it inherits the replay's bounds. *)
Lemma live_ok_transfer sectors dsec l k :
  live_ok sectors dsec k -> (forall x, resolve l x = resolve k x) -> index_ok 0 l -> Forall untagged l ->
  live_ok sectors dsec l.
Proof.
  intros [_ _ H3 H4] Hr Hi Hu. split; [done|done|..].
  - intros x. rewrite Hr. apply H3.
  - intros x t p. rewrite Hr. apply H4.
Qed.
Lemma phys_inj_transfer l k : phys_inj k -> (forall x, resolve l x = resolve k x) -> phys_inj l.
Proof. intros H Hr x y t u p. rewrite !Hr. apply H. Qed.

(** A live index is a list of records a journal can hold. *)
Lemma live_records sectors dsec l :
  0 <= sectors <= kMaxOffset -> 0 <= dsec < kMaxMoffset ->
  live_ok sectors dsec l -> Forall zero_ok l -> Forall (live_record sectors dsec) l.
Proof.
  intros Hs Hd [Hi Hu Hb Hp] Hz. apply Forall_forall. intros s Hin.
  rewrite Forall_forall in Hu, Hz. specialize (Hu s Hin). specialize (Hz s Hin).
  assert (seg_ok s) as Hok by (destruct Hi as [Hi _]; rewrite Forall_forall in Hi; auto).
  pose proof Hok as (H1 & H2 & H3 & H4 & H5).
  assert (forall x, s_offset s <= x < fin s -> resolve l x = seg_cell s x) as Hr
    by (intros; by eapply resolve_elem).
  pose proof (Hr (fin s - 1) ltac:(unfold fin; lia)) as Hlast.
  pose proof (Hb (fin s - 1)) as Hbound. rewrite Hlast in Hbound.
  unfold seg_cell in Hbound.
  assert (0 <= fin s - 1 < sectors) as Hin' by (apply Hbound; by destruct (s_zeroed s)). clear Hbound.
  unfold live_record, seg_encodable, record_ok, kInvalidOffset, untagged, zero_ok, fin in *.
  unfold kDataStartSector, kSpace, kAlignment in *.
  assert (s_zeroed s = false -> 4096 / 512 <= s_moffset s /\ s_moffset s + s_length s <= dsec) as Hdata.
  { intros Hzs. pose proof (Hp (s_offset s) (s_tag s) (s_moffset s)) as Hp1.
    rewrite (Hr (s_offset s)) in Hp1 by lia. unfold seg_cell in *. rewrite Hzs in *.
    specialize (Hp1 ltac:(f_equal; lia)). specialize (Hp _ _ _ Hlast). lia. }
  split.
  - split; [lia|]. split; [lia|]. split; [|lia]. destruct (s_zeroed s); [rewrite Hz by done; change (4096 / 512) with 8; unfold kMaxMoffset; lia|].
    specialize (Hdata eq_refl). lia.
  - split; [lia|]. right. split; [lia|]. split; [lia|done].
Qed.

Lemma view_of_replay w log :
  rw_ok w log -> 0 <= rw_sectors w <= kMaxOffset /\ 0 <= data_sectors (rw_data w) < kMaxMoffset.
Proof. intros [H _ _ _ _ _ _]. split; [by eapply pair_ok_sectors|by eapply pair_ok_data_sectors]. Qed.

Lemma sector_range i lo hi :
  lo * kSector <= i < hi * kSector <-> lo <= i / kSector < hi.
Proof.
  unfold kSector. pose proof (Z.div_mod i 512 ltac:(lia)). pose proof (Z.mod_pos_bound i 512 ltac:(lia)). lia.
Qed.

(** ** Writing one piece *)

Section Piece.
Context (l : list segment_mapping) (e0 e lo hi e' : Z) (ops : list Op) (buf : bytes) (offset : Z) (f f1 : file).
Context (Hinj : phys_inj l) (Hpay : forall x t p, resolve l x = Data t p -> kHeaderSectors <= p < e0).
Context (Hops : ops_ok l e lo hi e' ops) (He : e0 <= e) (Hun : untouched ops f f1).

(** Sectors outside the range keep their bytes whatever extents were written. *)
Lemma view_outside k i :
  (forall x, x < lo \/ hi <= x -> resolve k x = resolve l x) ->
  ~ (lo * kSector <= i < hi * kSector) -> index_view f1 k i = index_view f l i.
Proof.
  intros Hk Hi. rewrite sector_range in Hi. unfold index_view. rewrite Hk by lia.
  destruct (resolve l (i / kSector)) as [| |t p] eqn:Hr; [done|done|]. simpl. apply Hun.
  - intros op Hin Ho. destruct (ops_owned _ _ _ _ _ _ _ _ Hops Hin Ho) as [(x & Hx & Hrx)|Hp].
    + pose proof (Hinj _ _ _ _ _ Hr Hrx). lia.
    + pose proof (Hpay _ _ _ Hr). lia.
  - unfold kSector. apply Z.mod_pos_bound. lia.
Qed.

(** Sectors inside read back what was written. *)
Lemma view_inside k i :
  written buf offset ops f1 ->
  (forall x, lo <= x < hi -> exists op, op ∈ ops /\ op_voff op <= x < op_voff op + op_nsector op /\
     resolve k x = Data 0 (op_moff op + (x - op_voff op))) ->
  lo * kSector <= i < hi * kSector -> index_view f1 k i = bget buf (i - offset).
Proof.
  intros Hw Hk Hi. rewrite sector_range in Hi. unfold index_view.
  destruct (Hk _ Hi) as (op & Hin & Hx & ->). simpl.
  destruct (Hw op (i / kSector) (i mod kSector) Hin Hx) as [-> _].
  - unfold kSector. apply Z.mod_pos_bound. lia.
  - f_equal. unfold kSector. pose proof (Z.div_mod i 512 ltac:(lia)). lia.
Qed.
End Piece.

(** The fields a write does not touch. *)
Definition same_device (w w' : LsmtRwLayer) : Prop :=
  rw_vsize w' = rw_vsize w /\ rw_sealed w' = rw_sealed w /\ rw_checkpointed w' = rw_checkpointed w /\
  p_header (rw_pair w') = p_header (rw_pair w).

(** The revision moves whenever the index does, until it runs out. *)
Definition revised (w w' : LsmtRwLayer) : Prop :=
  rw_segments_revision w <= rw_segments_revision w' /\
  (rw_segments_revision w' = rw_segments_revision w ->
   rw_segments_revision w' = kUnknownRevision \/ rw_segments w' = rw_segments w).

Lemma revised_refl w w' :
  rw_segments w' = rw_segments w -> rw_segments_revision w' = rw_segments_revision w -> revised w w'.
Proof. intros Hs Hr. split; [lia|]. by right. Qed.

Lemma revised_trans w w1 w2 :
  rw_segments_revision w2 <= kUnknownRevision -> revised w w1 -> revised w1 w2 -> revised w w2.
Proof.
  intros Hu [H1 H2] [H3 H4]. split; [lia|]. intros He.
  destruct (H2 ltac:(lia)) as [?|E1]; [left; lia|]. destruct (H4 ltac:(lia)) as [?|E2]; [by left|].
  right. congruence.
Qed.

Lemma mappings_changed_spec w :
  0 <= rw_segments_revision w <= kUnknownRevision ->
  0 <= mappings_changed w <= kUnknownRevision /\
  (rw_segments_revision w < mappings_changed w \/
   rw_segments_revision w = kUnknownRevision /\ mappings_changed w = kUnknownRevision).
Proof.
  unfold mappings_changed, kUnknownRevision. intros H.
  destruct (Z.eqb_spec (rw_segments_revision w) (2 ^ 64 - 1)); [lia|]. rewrite u64_small; lia.
Qed.

(** The index is well-formed and the same outside the sectors of [a .. b]. *)
Definition index_local (w : LsmtRwLayer) (a b : Z) (w' : LsmtRwLayer) : Prop :=
  rw_wf w' /\ revised w w' /\
  forall x, x * kSector < a \/ b <= x * kSector -> resolve (rw_segments w') x = resolve (rw_segments w) x.

(** The state of the files and gates does not matter to the index. *)
Definition same_index (w w' : LsmtRwLayer) : Prop :=
  rw_segments w' = rw_segments w /\ rw_segments_revision w' = rw_segments_revision w /\
  rw_data_bytes w' = rw_data_bytes w /\ rw_data w' = rw_data w /\ rw_sectors w' = rw_sectors w.

Lemma rw_wf_same w w' : same_index w w' -> rw_wf w -> rw_wf w'.
Proof.
  intros (E1 & E2 & E3 & E4 & E5) [H1 H2 H3 H4]. split; rewrite ?E1, ?E2, ?E3, ?E4, ?E5; done.
Qed.

Lemma index_local_same w w' a b : same_index w w' -> rw_wf w -> index_local w a b w'.
Proof.
  intros Hs Hw. split; [by eapply rw_wf_same|]. destruct Hs as (E1 & E2 & _).
  split; [by apply revised_refl|]. intros x _. by rewrite E1.
Qed.

Lemma index_local_from w w1 w2 a b : same_index w w1 -> index_local w1 a b w2 -> index_local w a b w2.
Proof.
  intros (E1 & E2 & _) (W & [R1 R2] & L). rewrite E1, E2 in *. split; [done|]. split; [by split|exact L].
Qed.

Lemma rw_sectors_header w w' :
  p_header (rw_pair w') = p_header (rw_pair w) -> rw_sectors w' = rw_sectors w.
Proof. unfold rw_sectors, pair_sectors. by intros ->. Qed.

(** The layer itself answers for the sectors of [a .. b]. *)
Definition mapped (w : LsmtRwLayer) (a b : Z) : Prop :=
  forall x, a <= x * kSector < b -> resolve (rw_segments w) x <> Hole.

(** A mutation of the bytes from [a] to [b]: on success the layer holds [g]
    there; on failure the layer and its files hold outside the range what the
    layer held, and the layer is fenced or still agrees with its files. *)
Definition mutates (w : LsmtRwLayer) (a b : Z) (g : Z -> Z) (r : res unit) (w' : LsmtRwLayer) : Prop :=
  same_device w w' /\ index_local w a b w' /\
  match r with
  | Ok _ => (exists log', rw_ok w' log') /\
            (forall i, rw_view w' i = if (a <=? i) && (i <? b) then g i else rw_view w i) /\
            mapped w' a b
  | Err f => any_errno f /\
             exists log', rw_state w' log' /\
               forall i, i < a \/ b <= i ->
                 index_view (rw_data w') (log_live log') i = rw_view w i /\ rw_view w' i = rw_view w i
  end.

Lemma live_ok_mono sectors dsec sectors' dsec' l :
  live_ok sectors dsec l -> sectors <= sectors' -> dsec <= dsec' -> live_ok sectors' dsec' l.
Proof.
  intros [H1 H2 H3 H4] ??. split; [done|done|..].
  - intros x Hx. specialize (H3 x Hx). lia.
  - intros x t p Hx. specialize (H4 x t p Hx). lia.
Qed.

(** Payload writes alone keep the layer as it was, but for bytes it does not map. *)
Lemma only_payload_ok w w1 log ops e' :
  rw_ok w log -> only_payload (set_data_end w e') w1 log ops e' ->
  rw_ok w1 log /\ same_device w w1 /\ untouched ops (rw_data w) (rw_data w1) /\
  rw_segments w1 = rw_segments w /\ rw_data_end_sector w1 = e' /\
  data_sectors (rw_data w) <= data_sectors (rw_data w1) /\
  rw_segments_revision w1 = rw_segments_revision w.
Proof.
  intros [H1 H2 [H3 H4 H9 H10] H5 H6 H7 H8] (p' & n & -> & Q1 & Q2 & Q3 & Q4 & Q5 & Q6).
  cbn [rw_pair set_data_end] in *. unfold rw_data in *. cbn [rw_pair set_data_bytes set_pair set_data_end].
  pose proof (data_sectors_mono (p_data (rw_pair w)) (p_data p') ltac:(lia)) as Hd.
  split; [|done]. split; try done.
  - unfold rw_sectors, pair_sectors, rw_data in *. split; try done.
    + unfold rw_sectors, pair_sectors, rw_data. cbn [rw_pair set_data_bytes set_pair set_data_end].
      rewrite Q2. eapply live_ok_mono; [exact H3|lia|done].
    + cbn [rw_segments rw_data_bytes set_data_bytes set_pair set_data_end] in *.
      intros x t q Hx. specialize (H9 x t q Hx). lia.
  - cbn -[Z.mul]. unfold rw_data. cbn -[Z.mul]. lia.
  - cbn. by rewrite Q2.
Qed.

Section WritePiece.
Context (w : LsmtRwLayer) (log : list segment_mapping) (buf : bytes) (offset lo hi : Z).
Context (Hok : rw_ok w log) (Hlo : 0 <= lo < hi) (Hhi : hi <= rw_sectors w).
Context (Hlen : hi - lo <= kMaxLength) (Hbuf : offset <= lo * kSector /\ hi * kSector <= offset + zlen buf).
Context (Hroom : rw_data_end_sector w + (hi - lo) < kMaxMoffset).

Let l := rw_segments w.
Let e0 := data_sectors (rw_data w).
Let e := rw_data_end_sector w.

Lemma piece_payload_bound : forall x t p, resolve l x = Data t p -> kHeaderSectors <= p < e0.
Proof. intros x t p Hx. by destruct (live_payload _ _ _ (wf_live _ (ro_wf _ _ Hok)) x t p Hx). Qed.

Lemma piece_end : e0 <= e /\ kHeaderSectors <= e /\ hi <= kMaxOffset.
Proof.
  split; [apply data_sectors_le; exact (ro_end _ _ Hok)|]. split; [by eapply rw_ok_end|].
  destruct (view_of_replay _ _ Hok). lia.
Qed.

Lemma piece_plan ops e' :
  plan_ops l lo hi e = (ops, e') -> ops_ok l e lo hi e' ops /\ e <= e' <= e + (hi - lo).
Proof.
  intros Hp. pose proof piece_end as (? & ? & ?). destruct (wf_live _ (ro_wf _ _ Hok)) as [Hi Hu _ _].
  assert (ops_ok l e lo hi e' ops) as Hops.
  { eapply plan_ops_spec; [done|done|done|done|unfold kHeaderSectors in *; lia| |exact Hp].
    unfold kMaxMoffset, e in *. lia. }
  split; [done|]. by apply ops_ok_bounds in Hops as [_ ?].
Qed.

Lemma piece_fit ops e' cur e1 :
  ops_ok l e1 cur hi e' ops -> lo <= cur -> e <= e1 -> e' < kMaxMoffset -> ops_fit ops.
Proof.
  pose proof piece_end as (Hee & H8 & _). pose proof piece_payload_bound as Hpb. unfold kHeaderSectors in *.
  revert e1 cur. induction ops as [|op ops IH]; intros e1 cur Hops Hcur He1 He'; [constructor|].
  pose proof (ops_ok_bounds _ _ _ _ _ _ Hops) as Hb.
  cbn [ops_ok] in Hops. destruct Hops as (Hv & Hn & Hops).
  destruct (op_inplace op); destruct Hops as [Hx Hops]; pose proof (ops_ok_bounds _ _ _ _ _ _ Hops) as Hb2;
    (constructor; [|by eapply IH; [exact Hops|lia|lia|]]).
  - pose proof (Hpb _ _ _ (Hx cur ltac:(lia))). pose proof (Hpb _ _ _ (Hx (cur + op_nsector op - 1) ltac:(lia))).
    lia.
  - lia.
Qed.

(** A failed piece: the files hold the old log with some of the new records. *)
Lemma piece_broken w1 w2 ops e' :
  ops_ok l e lo hi e' ops -> ops_fit ops -> Forall (live_record (rw_sectors w) (data_sectors (rw_data w1))) (records ops) ->
  rw_ok w1 log -> same_device w w1 -> untouched ops (rw_data w) (rw_data w1) -> rw_segments w1 = l ->
  rw_segments_revision w1 = rw_segments_revision w ->
  broken w1 w2 log (records ops) false ->
  same_device w w2 /\ index_local w (lo * kSector) (hi * kSector) w2 /\
  exists log', rw_state w2 log' /\
    forall i, i < lo * kSector \/ hi * kSector <= i ->
      index_view (rw_data w2) (log_live log') i = rw_view w i /\ rw_view w2 i = rw_view w i.
Proof.
  intros Hops Hfit Hrec Hw1 Hdev Hun Hseg Hrev (p' & b & k & -> & E1 & E2 & Hdisk & Hb).
  pose proof piece_end as (Hee & H8 & Hmax). pose proof Hw1 as [P1 P2 [P3 P4 P9 P10] P5 P6 P7 P8].
  assert (same_index w1 (set_journal_failed (set_pair w1 p') b)) as Hsi.
  { do 3 (split; [done|]). split; [done|]. by apply rw_sectors_header. }
  split; [destruct Hdev as (? & ? & ? & ?); repeat split; try done; simpl; congruence|].
  split.
  { destruct (index_local_same _ _ (lo * kSector) (hi * kSector) Hsi (ro_wf _ _ Hw1)) as (L1 & _ & _).
    split; [done|]. split; [by apply revised_refl|]. intros x _. cbn [rw_segments set_journal_failed set_pair].
    by rewrite Hseg. }
  exists (log ++ take k (records ops)).
  assert (rw_journal_failed (set_journal_failed (set_pair w1 p') b) = false ->
    rw_ok (set_journal_failed (set_pair w1 p') b) log /\ k = 0%nat) as Hheal.
  { intros Hbf. simpl in Hbf. destruct (Hb Hbf) as (_ & -> & Hpok). split; [|done].
    split; try done; [by eapply rw_wf_same|unfold rw_data in *; simpl; by rewrite E1|simpl; by rewrite E2]. }
  split.
  { split; [done|]. intros Hf. destruct (Hheal Hf) as [H ->]. by rewrite take_0, app_nil_r. }
  intros i Hi. unfold rw_view at 2, rw_data at 1 2. cbn [rw_pair rw_segments set_journal_failed set_pair].
  rewrite E1, Hseg. split;
    [|by apply (view_outside l e0 e lo hi e' ops _ _ (ro_inj _ _ Hok) piece_payload_bound Hops Hee Hun); [|lia]].
  apply (view_outside l e0 e lo hi e' ops _ _ (ro_inj _ _ Hok) piece_payload_bound Hops Hee Hun); [|lia].
  intros x Hx. destruct (ops_run l hi Hmax ops e lo e' Hops ltac:(lia) Hfit) as (_ & Hi1 & Hu1 & _ & Hx1).
  destruct (view_of_replay _ _ Hw1) as [Hs Hd].
  assert (rw_sectors w1 = rw_sectors w) as Esec.
  { unfold rw_sectors, pair_sectors. destruct Hdev as (_ & _ & _ & ->). done. }
  rewrite (log_live_run (rw_sectors w1) (data_sectors (rw_data w1)) log (take k (records ops)) lo x Hs Hd).
  - assert (resolve (take k (records ops)) x = Hole) as ->; [|simpl; rewrite <- (ro_log _ _ Hok); done].
    destruct (Hx1 x Hx) as [_ Hh]. rewrite <- (take_drop k (records ops)), resolve_app in Hh.
    by destruct (resolve (take k (records ops)) x).
  - apply Forall_app. split; [|rewrite Esec; by apply Forall_take].
    by destruct (po_journal _ _ P1).
  - rewrite <- (take_drop k (records ops)) in Hi1. by apply index_ok_app in Hi1 as [? _].
  - by apply Forall_take.
Qed.
(** A published piece: the index agrees with the extended log. *)
Lemma piece_done w1 w2 ops e' :
  ops_ok l e lo hi e' ops -> ops_fit ops -> Forall (live_record (rw_sectors w) (data_sectors (rw_data w1))) (records ops) ->
  rw_ok w1 log -> same_device w w1 -> untouched ops (rw_data w) (rw_data w1) -> rw_segments w1 = l ->
  rw_segments_revision w1 = rw_segments_revision w ->
  written buf offset ops (rw_data w1) -> readable ops (rw_data_bytes w1) ->
  published w1 w2 (log ++ records ops) -> phys_inj (log_live (log ++ records ops)) ->
  let w3 := set_segments w2 (foldl insert_sorted (cut lo hi l) (op_segment <$> ops)) (mappings_changed w2) in
  same_device w w3 /\ index_local w (lo * kSector) (hi * kSector) w3 /\ rw_ok w3 (log ++ records ops) /\
  mapped w3 (lo * kSector) (hi * kSector) /\ forall i, rw_view w3 i =
    if (lo * kSector <=? i) && (i <? hi * kSector) then bget buf (i - offset) else rw_view w i.
Proof.
  intros Hops Hfit Hrec Hw1 Hdev Hun Hseg Hrev Hwr Hrd (p' & -> & Hp' & E1 & E2) Hj w3.
  pose proof piece_end as (Hee & H8 & Hmax). pose proof Hw1 as [P1 P2 [P3 P4 P9 P10] P5 P6 P7 P8].
  destruct (ops_run l hi Hmax ops e lo e' Hops ltac:(lia) Hfit) as (Hrun & Hi1 & Hu1 & Hin1 & Hx1).
  destruct (view_of_replay _ _ Hw1) as [Hs Hd]. rewrite Hseg in *.
  assert (rw_sectors w1 = rw_sectors w) as Esec.
  { unfold rw_sectors, pair_sectors. destruct Hdev as (_ & _ & _ & ->). done. }
  assert (Forall (live_record (rw_sectors w1) (data_sectors (rw_data w1))) (log ++ records ops)) as Hlr.
  { apply Forall_app. split; [by destruct (po_journal _ _ P1)|by rewrite Esec]. }
  destruct P3 as [Li Lu Lb Lp].
  destruct (insert_run 0 (cut lo hi l) lo hi (op_segment <$> ops)) as (G1 & G2 & G3); [| |lia|done|..].
  { apply cut_index; [done|lia|done|lia]. }
  { by apply cut_untagged. }
  { intros x Hx. rewrite (cut_resolve 0) by (done || lia).
    by rewrite (proj2 (Z.leb_le _ _)), (proj2 (Z.ltb_lt _ _)) by lia. }
  set (segs' := foldl insert_sorted (cut lo hi l) (op_segment <$> ops)) in *.
  assert (forall x, x < lo \/ hi <= x -> resolve segs' x = resolve l x) as Hout.
  { intros x Hx. rewrite G3. destruct (Hx1 x Hx) as [-> _]. simpl. rewrite (cut_resolve 0) by (done || lia).
    destruct (Z.leb_spec lo x), (Z.ltb_spec x hi); done || lia. }
  assert (forall x, resolve segs' x = resolve (log_live (log ++ records ops)) x) as Hres.
  { intros x. rewrite (log_live_run _ _ log (records ops) lo x Hs Hd) by done. rewrite <- P6.
    destruct (decide (lo <= x < hi)) as [Hx|Hx].
    - destruct (Hin1 x Hx) as (op & _ & _ & J1 & J2). rewrite G3, J1, J2. done.
    - rewrite Hout by lia. by destruct (Hx1 x ltac:(lia)) as [_ ->]. }
  destruct (mappings_changed_spec (set_pair w1 p') P10) as [Hr1 Hr2].
  assert (rw_wf w3) as Hwf.
  { split; unfold rw_sectors, rw_data, pair_sectors in *; cbn [rw_pair rw_segments rw_data_bytes w3 set_segments set_pair] in *;
      rewrite ?E1, ?E2; try done.
    - eapply live_ok_transfer; [|exact Hres|done|done]. apply log_live_ok; done.
    - apply insert_all_zero; [by apply cut_zero|]. by apply Forall_fmap, Forall_true.
    - intros x t q Hx. destruct (decide (lo <= x < hi)) as [Hin|Hin]; [|rewrite Hout in Hx by lia; by eapply P9].
      destruct (Hin1 x Hin) as (op & O1 & O2 & J1 & _). rewrite G3, J1 in Hx. injection Hx as _ <-.
      specialize (Hrd op O1). unfold kSector in *. lia. }
  split; [destruct Hdev as (? & ? & ? & ?); repeat split; try done; simpl; congruence|]. split.
  { split; [done|]. split; [|intros x Hx; apply Hout; unfold kSector in *; lia].
    unfold revised. change (rw_segments_revision w3) with (mappings_changed (set_pair w1 p')).
    change (rw_segments_revision (set_pair w1 p')) with (rw_segments_revision w1) in Hr2. split; [lia|].
    intros He. left. lia. }
  split.
  - split; try done.
    + unfold rw_segments, w3. eapply phys_inj_transfer; [exact Hj|exact Hres].
    + unfold rw_data. cbn [rw_pair w3 set_segments set_pair]. rewrite E1. done.
    + cbn. by rewrite E2.
  - split.
    { intros x Hx. change (rw_segments w3) with segs'. destruct (Hin1 x ltac:(unfold kSector in *; lia)) as (op & _ & _ & J3 & _).
      by rewrite G3, J3. }
    intros i. change (rw_view w3 i) with (index_view (p_data p') segs' i). rewrite E1.
    change (p_data (rw_pair w1)) with (rw_data w1).
    destruct (Z.leb_spec (lo * kSector) i), (Z.ltb_spec i (hi * kSector)); cbn [andb];
      [|apply (view_outside l e0 e lo hi e' ops _ _ (ro_inj _ _ Hok) piece_payload_bound Hops Hee Hun); [done|lia]..].
    apply (view_inside lo hi ops buf offset _ segs'); [done| |lia].
    intros x Hx. destruct (Hin1 x Hx) as (op & J1 & J2 & J3 & J4). exists op. rewrite G3, J3. done.
Qed.

(** Once the payload is written its extents are within the file. *)
Lemma piece_written w1 ops e' cur e1 :
  ops_ok l e1 cur hi e' ops -> lo <= cur -> kHeaderSectors <= e1 -> ops_fit ops ->
  written buf offset ops (rw_data w1) -> data_sectors (rw_data w1) < kMaxMoffset ->
  Forall (live_record (rw_sectors w) (data_sectors (rw_data w1))) (records ops) /\
  forall op, op ∈ ops -> op_nsector op <= kMaxLength /\
    (op_inplace op = false -> op_moff op + op_nsector op <= data_sectors (rw_data w1)).
Proof.
  intros Hops Hcur H8 Hfit Hwr Hroom'. destruct (view_of_replay _ _ Hok) as [Hs _].
  assert (forall op, op ∈ ops -> 0 < op_nsector op -> op_moff op + op_nsector op <= data_sectors (rw_data w1)) as Hin.
  { intros op Hop Hn. apply data_sectors_ge.
    destruct (Hwr op (op_voff op) 0 Hop ltac:(lia)) as [_ ?]; [unfold kSector; lia|done]. }
  clear Hwr. revert e1 cur Hops Hcur H8. induction Hfit as [|op ops [Hf1 Hf2] Hfit IH]; intros e1 cur Hops Hcur H8.
  { split; [constructor|]. by intros op ?%not_elem_of_nil. }
  cbn [ops_ok] in Hops. destruct Hops as (Hv & Hn & Hops).
  pose proof (Hin op (list_elem_of_here _ _) Hn) as Hop.
  assert (forall o, o ∈ ops -> 0 < op_nsector o -> op_moff o + op_nsector o <= data_sectors (rw_data w1)) as Hin'
    by (intros o Ho; by apply Hin, list_elem_of_further).
  assert (exists e2, e1 <= e2 /\ ops_ok l e2 (cur + op_nsector op) hi e' ops) as (e2 & He2 & Hrest).
  { destruct (op_inplace op); destruct Hops as [? Hops]; [by exists e1|exists (e1 + op_nsector op)].
    split; [lia|done]. }
  destruct (IH Hin' e2 (cur + op_nsector op) Hrest ltac:(lia) ltac:(lia)) as [I1 I2].
  pose proof (ops_ok_bounds _ _ _ _ _ _ Hrest) as Hb. split.
  - cbn [records]. destruct (op_inplace op); [done|]. destruct Hops as [Hm _]. constructor; [|done].
    apply op_record; lia.
  - intros o [-> |Ho]%elem_of_cons; [done|by apply I2].
Qed.

Lemma write_piece_spec :
  let '(r, w') := write_piece buf offset lo hi w in
  mutates w (lo * kSector) (hi * kSector) (fun i => bget buf (i - offset)) r w' /\
  rw_data_end_sector w <= rw_data_end_sector w' <= rw_data_end_sector w + (hi - lo).
Proof.
  unfold write_piece. fold l. fold e. destruct (plan_ops l lo hi e) as [ops e'] eqn:Hplan.
  destruct (piece_plan ops e' Hplan) as [Hops He']. pose proof piece_end as (Hee & H8 & Hmax).
  assert (e' < kMaxMoffset) as Hem by (unfold e in *; lia).
  pose proof (piece_fit ops e' lo e Hops ltac:(lia) ltac:(lia) Hem) as Hfit.
  pose proof (write_ops_spec l e0 buf offset (ro_inj _ _ Hok) piece_payload_bound ops e lo hi e'
    (set_data_end w e') log Hops Hee H8 Hem (ro_pair _ _ Hok) (ro_end _ _ Hok) (proj1 Hbuf) (proj2 Hbuf)) as Hw.
  unfold mbind at 1, io_bind at 1. destruct (write_ops buf offset ops (set_data_end w e')) as [r w1].
  destruct Hw as [Hpay Hr].
  destruct (only_payload_ok w w1 log ops e' Hok Hpay) as (Hw1 & Hdev & Hun & Hseg & Hend & Hdat & Hrev).
  assert (forall k i, (forall x, x < lo \/ hi <= x -> resolve k x = resolve l x) ->
    i < lo * kSector \/ hi * kSector <= i -> index_view (rw_data w1) k i = rw_view w i) as Hout.
  { intros k i Hk Hi.
    apply (view_outside l e0 e lo hi e' ops _ _ (ro_inj _ _ Hok) piece_payload_bound Hops Hee Hun); [done|lia]. }
  assert (index_local w (lo * kSector) (hi * kSector) w1) as Hloc.
  { split; [apply Hw1|]. split; [by apply revised_refl|]. intros x _. by rewrite Hseg. }
  destruct r as [u|f].
  2: { split; [|lia]. split; [done|]. split; [done|]. split; [done|]. exists log. split; [by apply rw_ok_state|].
       intros i Hi. split; [apply Hout; [|done]; intros x _; symmetry; apply (ro_log _ _ Hok)|].
       unfold rw_view at 1. rewrite Hseg. by apply Hout. }
  destruct Hr as [Hr Hrd]. destruct (view_of_replay _ _ Hw1) as [Hs Hd].
  destruct (forallb op_inplace ops) eqn:Hall.
  { assert (forall x, lo <= x < hi -> exists op, op ∈ ops /\ op_voff op <= x < op_voff op + op_nsector op /\
      resolve l x = Data 0 (op_moff op + (x - op_voff op))) as Hown.
    { intros x Hx. destruct (ops_run l hi Hmax ops e lo e' Hops ltac:(lia) Hfit) as (_ & _ & _ & Hin & _).
      destruct (Hin x Hx) as (op & J1 & J2 & _ & J4). exists op. split; [done|]. split; [done|].
      assert (records ops = []) as Hrec; [|by rewrite Hrec in J4].
      clear -Hall. induction ops as [|o ops IH]; simpl in *; [done|]. by destruct (op_inplace o); [apply IH|]. }
    split; [|rewrite Hend; lia]. split; [done|]. split; [done|]. split; [by exists log|]. split.
    2: { intros x Hx. rewrite Hseg. fold l. destruct (Hown x ltac:(unfold kSector in *; lia)) as (op & _ & _ & ->). done. }
    intros i. unfold rw_view at 1. rewrite Hseg. fold l.
    destruct (Z.leb_spec (lo * kSector) i), (Z.ltb_spec i (hi * kSector)); cbn [andb]; try (apply Hout; [done|lia]).
    apply (view_inside lo hi ops buf offset _ l); [done|done|lia]. }
  assert (rw_sectors w1 = rw_sectors w) as Esec.
  { unfold rw_sectors, pair_sectors. destruct Hdev as (_ & _ & _ & ->). done. }
  destruct (piece_written w1 ops e' lo e Hops ltac:(lia) H8 Hfit Hr ltac:(lia)) as [Hrec Hop].
  pose proof (publish_ops_spec l (rw_sectors w1) (data_sectors (rw_data w1)) hi Hs Hd ltac:(lia) ops e lo e' false w1 log
    Hops ltac:(lia) H8 Hop (ro_pair _ _ Hw1) eq_refl eq_refl) as Hpub.
  unfold mbind at 1, io_bind at 1. destruct (publish_ops ops false w1) as [r w2].
  assert (phys_inj (log_live log)) as Hjl.
  { eapply phys_inj_transfer; [exact (ro_inj _ _ Hok)|]. intros x. symmetry. apply (ro_log _ _ Hok). }
  assert (phys_below (log_live log) e) as Hbl.
  { intros x t p Hx. rewrite <- (ro_log _ _ Hok) in Hx. pose proof (piece_payload_bound x t p Hx). lia. }
  specialize (Hpub Hjl Hbl). destruct r as [u'|f].
  - destruct Hpub as (Hpub & Hj & _).
    destruct Hpub as (p' & -> & Hp').
    destruct (piece_done w1 (set_pair w1 p') ops e' Hops Hfit Hrec Hw1 Hdev Hun Hseg Hrev Hr Hrd
      (ex_intro _ p' (conj eq_refl Hp')) Hj) as (D1 & D0 & D2 & D4 & D3).
    unfold io_run. cbn [rw_segments set_pair]. rewrite Hseg. fold l. split; [|simpl; lia].
    split; [done|]. split; [done|]. split; [by eexists|done].
  - destruct Hpub as [He Hbr].
    destruct (piece_broken w1 w2 ops e' Hops Hfit Hrec Hw1 Hdev Hun Hseg Hrev Hbr) as (D1 & D0 & log' & D2 & D3).
    split; [|destruct Hbr as (? & ? & ? & -> & _); simpl; lia].
    split; [done|]. split; [done|]. split; [done|]. by exists log'.
Qed.

End WritePiece.

(** ** The whole write *)

Lemma mutates_nothing w log a g : rw_ok w log -> mutates w a a g (Ok tt) w.
Proof.
  intros H. split; [done|]. split; [by apply index_local_same; [|apply (ro_wf _ _ H)]|]. split; [by exists log|].
  split; [|intros x Hx; lia]. intros i. destruct (Z.leb_spec a i), (Z.ltb_spec i a); done || lia.
Qed.

Lemma index_local_trans w w1 w2 a b c :
  a <= b <= c -> index_local w a b w1 -> index_local w1 b c w2 -> index_local w a c w2.
Proof.
  intros Hab (_ & R1 & L1) (W2 & R2 & L2). split; [done|].
  split; [eapply revised_trans; [apply (wf_revision _ W2)|done|done]|].
  intros x Hx. rewrite L2, L1 by lia. done.
Qed.

Lemma mutates_trans w w1 w2 a b c g r :
  a <= b <= c -> mutates w a b g (Ok tt) w1 -> mutates w1 b c g r w2 -> mutates w a c g r w2.
Proof.
  intros Hab [(D1 & D2 & D3 & D4) [L1 [_ [H1 M1]]]] [(E1 & E2 & E3 & E4) [L2 H2]].
  split; [repeat split; congruence|]. split; [by apply (index_local_trans _ w1 _ _ b)|]. destruct r as [u|f].
  - destruct H2 as (Hok & H2 & M2). split; [done|]. split.
    + intros i. rewrite H2, H1.
      destruct (Z.leb_spec a i), (Z.leb_spec b i), (Z.ltb_spec i b), (Z.ltb_spec i c); cbn [andb]; done || lia.
    + intros x Hx. destruct (decide (x * kSector < b)); [|apply M2; lia].
      destruct L2 as (_ & _ & L2). rewrite L2 by lia. apply M1. lia.
  - destruct H2 as (He & log' & Hs & H2). split; [done|]. exists log'. split; [done|].
    intros i Hi. destruct (H2 i ltac:(lia)) as [-> ->]. rewrite H1.
    destruct (Z.leb_spec a i), (Z.ltb_spec i b); cbn [andb]; done || lia.
Qed.

Lemma mutates_widen w w' a b c g f :
  b <= c -> mutates w a b g (Err f) w' -> mutates w a c g (Err f) w'.
Proof.
  intros Hbc (D & (W & R & L) & He & log' & Hs & Hv). split; [done|]. split.
  { split; [done|]. split; [done|]. intros x Hx. apply L. lia. }
  split; [done|]. exists log'. split; [done|]. intros i Hi. apply Hv. lia.
Qed.

Lemma prepare_mutation_spec w log :
  rw_ok w log ->
  let '(r, w') := prepare_mutation w in
  res_errno r /\ same_device w w' /\ (exists log', rw_ok w' log') /\
  same_index w w' /\ rw_data_end_sector w' = rw_data_end_sector w.
Proof.
  intros H. pose proof H as [H1 H2 [H3 H4 H9 H10] H5 H6 H7 H8]. unfold prepare_mutation. rewrite H2.
  case_if; [|split; [done|]; split; [done|]; split; [by exists log|done]]. destruct (view_of_replay _ _ H) as [Hs Hd].
  pose proof (pair_compact_any _ _ (rw_segments w) H1 (live_index _ _ _ H3) (live_untagged _ _ _ H3) H5
    (live_records _ _ _ Hs Hd H3 H4)) as Hc. unfold on_pair.
  destruct (pair_compact (rw_segments w) (rw_pair w)) as [r p'].
  destruct Hc as (He & log' & Hl & Hp' & E1 & E2). split; [done|].
  assert (same_index w (set_pair w p')) as Hsi by (do 4 (split; [done|]); by apply rw_sectors_header).
  split; [repeat split; done|]. split; [|done]. exists log'.
  split; try done; [by eapply rw_wf_same|
    |unfold rw_data in *; simpl; by rewrite E1|simpl; by rewrite E2].
  intros x. destruct Hl as [-> | ->]; [done|].
  rewrite (log_live_sorted _ _ Hs Hd), resolve_normal; [done|apply H3|apply H3|].
  by apply live_records.
Qed.

Lemma mod_sector n : n mod kSector = 0 -> n = n / kSector * kSector.
Proof. unfold kSector. intros H. pose proof (Z.div_mod n 512 ltac:(lia)). lia. Qed.

Section Write.
Context (buf : bytes) (offset : Z).
Context (H0 : 0 <= offset) (Ho : offset mod kSector = 0) (Hc : zlen buf mod kSector = 0).

Lemma write_pieces_spec fuel done w log :
  rw_ok w log -> offset + zlen buf <= rw_sectors w * kSector ->
  0 <= done <= zlen buf -> done mod kSector = 0 ->
  zlen buf - done <= Z.of_nat fuel * (kMaxSegLen * kSector) ->
  rw_data_end_sector w + (zlen buf - done) / kSector < kMaxMoffset ->
  let '(r, w') := write_pieces fuel buf offset done w in
  mutates w (offset + done) (offset + zlen buf) (fun i => bget buf (i - offset)) r w' /\
  rw_data_end_sector w' <= rw_data_end_sector w + (zlen buf - done) / kSector.
Proof.
  intros Hok Hvs Hd Hm Hf Hroom. revert done w log Hok Hvs Hd Hm Hf Hroom.
  induction fuel as [|fuel IH]; intros done w log Hok Hvs Hd Hm Hf Hroom.
  { assert (done = zlen buf) as -> by (unfold kMaxSegLen, kMaxLength, kSector in *; lia).
    cbn [write_pieces]. rewrite Z.ltb_irrefl. cbn -[Z.div].
    split; [by eapply mutates_nothing|rewrite Z.sub_diag, Z.div_0_l by (unfold kSector; lia); lia]. }
  cbn [write_pieces]. destruct (Z.ltb_spec done (zlen buf)).
  2: { assert (done = zlen buf) as -> by lia. cbn -[Z.div].
       split; [by eapply mutates_nothing|rewrite Z.sub_diag, Z.div_0_l by (unfold kSector; lia); lia]. }
  set (piece := Z.min (zlen buf - done) (kMaxSegLen * kSector)).
  apply mod_sector in Ho as Eo. apply mod_sector in Hc as Ec. apply mod_sector in Hm as Em.
  set (o := offset / kSector) in *. set (c := zlen buf / kSector) in *. set (d := done / kSector) in *.
  assert (piece = Z.min (c - d) kMaxSegLen * kSector) as Ep by (unfold piece, kSector in *; lia).
  set (n := Z.min (c - d) kMaxSegLen) in *.
  assert (0 < n <= kMaxLength) as Hn by (unfold n, kMaxSegLen, kMaxLength, kSector in *; lia).
  assert ((offset + done) / kSector = o + d) as Elo.
  { rewrite Eo, Em, <- Z.mul_add_distr_r. apply Z.div_mul. unfold kSector. lia. }
  assert (piece / kSector = n) as Epn by (rewrite Ep; apply Z.div_mul; unfold kSector; lia).
  assert ((zlen buf - done) / kSector = c - d) as Erem.
  { rewrite Ec, Em, <- Z.mul_sub_distr_r. apply Z.div_mul. unfold kSector. lia. }
  rewrite Elo, Epn, Erem. rewrite Erem in Hroom.
  pose proof (write_piece_spec w log buf offset (o + d) (o + d + n) Hok ltac:(unfold kSector in *; lia)
    ltac:(unfold n, kSector in *; lia) ltac:(lia) ltac:(unfold n, kSector in *; lia) ltac:(unfold n in *; lia)) as Hp.
  unfold mbind at 1, io_bind at 1.
  destruct (write_piece buf offset (o + d) (o + d + n) w) as [r w1]. destruct Hp as [Hmut Hend].
  replace ((o + d) * kSector) with (offset + done) in Hmut by lia.
  replace ((o + d + n) * kSector) with (offset + (done + piece)) in Hmut by lia.
  destruct r as [u|f].
  - destruct u. pose proof Hmut as [(D1 & D2 & D3 & D4) [_ [[log1 Hok1] _]]].
    assert (rw_sectors w1 = rw_sectors w) as Esec by (unfold rw_sectors, pair_sectors; by rewrite D4).
    specialize (IH (done + piece) w1 log1 Hok1). destruct (write_pieces fuel buf offset (done + piece) w1) as [r w2].
    assert ((zlen buf - (done + piece)) / kSector = c - d - n) as Erem2.
    { replace (zlen buf - (done + piece)) with ((c - d - n) * kSector) by lia. apply Z.div_mul. unfold kSector. lia. }
    rewrite Erem2 in IH. destruct IH as [IH1 IH2].
    + by rewrite Esec.
    + unfold piece, kMaxSegLen, kMaxLength, kSector in *. lia.
    + rewrite Em, Ep, <- Z.mul_add_distr_r. apply Z.mod_mul. unfold kSector. lia.
    + unfold piece, kMaxSegLen, kMaxLength, kSector in *. lia.
    + lia.
    + split; [|lia]. eapply (mutates_trans _ w1); [|exact Hmut|exact IH1]. lia.
  - split; [|unfold n in *; lia]. eapply mutates_widen; [|exact Hmut]. unfold piece. lia.
Qed.
End Write.

Lemma rw_sectors_bytes w log : rw_ok w log -> rw_sectors w * kSector = rw_vsize w.
Proof.
  intros [H1 _ _ _ _ _ H8]. destruct (po_header _ _ H1) as (_ & _ & _ & _ & Hm & _).
  rewrite H8. unfold rw_sectors, pair_sectors. symmetry. by apply mod_sector.
Qed.

(** Publishing everything up to the append position. *)
Lemma data_bytes_end w log :
  rw_ok w log -> rw_data_end_sector w < kMaxMoffset ->
  rw_wf (set_data_bytes w (u64 (rw_data_end_sector w * kSector))).
Proof.
  intros H He. pose proof (rw_ok_end _ _ H). pose proof H as [_ _ [W1 W2 W3 W4] _ _ H7 _].
  split; try done. cbn [rw_segments rw_data_bytes set_data_bytes]. intros x t p Hx.
  destruct (live_payload _ _ _ W1 x t p Hx) as [_ Hp]. apply data_sectors_le in H7.
  unfold kMaxMoffset, kSector, kHeaderSectors in *. rewrite u64_small by lia. lia.
Qed.

Lemma pwrite_spec w log buf offset :
  rw_ok w log -> rw_sealed w || rw_checkpointed w = false ->
  0 <= offset -> offset mod kSector = 0 -> zlen buf mod kSector = 0 -> 0 < zlen buf ->
  offset + zlen buf <= rw_vsize w -> rw_vsize w < 2 ^ 64 ->
  rw_data_end_sector w + zlen buf / kSector < kMaxMoffset ->
  let '(r, w') := pwrite buf offset w in
  (forall n, r = Ok n -> n = zlen buf) /\
  mutates w offset (offset + zlen buf) (fun i => bget buf (i - offset))
    (match r with Ok _ => Ok tt | Err f => Err f end) w'.
Proof.
  intros Hok Hst H0 Ho Hc Hp Hv H64 Hroom. unfold pwrite. rewrite Hst, Ho, Hc.
  rewrite (proj2 (Z.eqb_neq (zlen buf) 0)), (proj2 (Z.ltb_ge (rw_vsize w) _)) by lia. simpl.
  rewrite u64_small, (proj2 (Z.ltb_ge _ _)) by lia.
  pose proof (prepare_mutation_spec w log Hok) as Hpre. unfold mbind at 1, io_bind at 1.
  destruct (prepare_mutation w) as [r w1]. destruct Hpre as (He & Hdev & [log1 Hok1] & Hsi & Hend).
  assert (forall i, rw_view w1 i = rw_view w i) as Hview
    by (intros i; destruct Hsi as (E1 & _ & _ & E2 & _); unfold rw_view; by rewrite E1, E2).
  assert (forall a b, index_local w a b w1) as Hl1 by (intros a b; apply index_local_same; [done|apply (ro_wf _ _ Hok)]).
  destruct r as [u|f].
  2: { split; [done|]. split; [done|]. split; [done|]. split; [done|]. exists log1. split; [by apply rw_ok_state|].
       intros i _. by rewrite <- (rw_view_log _ _ _ Hok1). }
  assert (rw_sectors w1 * kSector = rw_vsize w) as Hsec.
  { rewrite (rw_sectors_bytes _ _ Hok1). apply Hdev. }
  pose proof (write_pieces_spec buf offset H0 Ho Hc (write_fuel (zlen buf)) 0 w1 log1 Hok1) as Hw.
  unfold mbind, io_bind. destruct (write_pieces (write_fuel (zlen buf)) buf offset 0 w1) as [r w2].
  assert (mutates w1 offset (offset + zlen buf) (fun i => bget buf (i - offset)) r w2 /\
    rw_data_end_sector w2 < kMaxMoffset) as [Hm Hend2].
  { rewrite <- (Z.add_0_r offset) at 1. rewrite !Z.sub_0_r in Hw. destruct Hw; [lia|lia|done| |by rewrite Hend|split; [done|lia]].
    unfold write_fuel, kMaxSegLen, kMaxLength, kSector. pose proof (Z.div_mod (zlen buf) ((2 ^ 14 - 1) * 512) ltac:(lia)).
    pose proof (Z.mod_pos_bound (zlen buf) ((2 ^ 14 - 1) * 512) ltac:(lia)).
    pose proof (Z.div_pos (zlen buf) ((2 ^ 14 - 1) * 512) ltac:(lia) ltac:(lia)). lia. }
  destruct Hdev as (D1 & D2 & D3 & D4). destruct Hm as [(E1 & E2 & E3 & E4) [Hl2 Hm]].
  destruct Hsi as (S1 & S2 & _). destruct Hl2 as (W2 & [R1 R2] & L2). rewrite S2, S1 in *.
  destruct r as [u'|f]; unfold io_run.
  - split; [by intros n [= <-]|]. split; [repeat split; simpl; congruence|]. destruct Hm as [[log2 Hok2] Hv2].
    assert (rw_wf (set_data_bytes w2 (u64 (rw_data_end_sector w2 * kSector)))) as W3 by by eapply data_bytes_end.
    split; [split; [done|]; split; [by split|done]|]. split.
    + exists log2. destruct Hok2. by split.
    + destruct Hv2 as [Hv2 M2]. split; [|exact M2]. intros i. rewrite <- Hview. apply Hv2.
  - split; [done|]. split; [repeat split; congruence|]. split; [split; [done|]; split; [by split|done]|].
    destruct Hm as (He2 & log2 & Hs2 & Hv2). split; [done|].
    exists log2. split; [done|]. intros i Hi. by rewrite <- (Hview i); apply Hv2.
Qed.

(** ** Reading *)

(** The scan finds the entry covering the sector, or how far the hole goes. *)
Lemma read_scan_spec l z sector ns hit :
  index_ok z l -> sector * kSector < ns ->
  match read_scan l sector ns hit with
  | (h, ns') =>
      (exists s, h = Some s /\ s ∈ l /\ s_offset s <= sector < fin s) \/
      (h = hit /\ sector * kSector < ns' <= ns /\
       (ns mod kSector = 0 -> ns' mod kSector = 0) /\
       forall x, sector <= x -> x * kSector < ns' -> resolve l x = Hole)
  end.
Proof.
  revert z hit. induction l as [|s l IH]; intros z hit Hi Hns; cbn [read_scan].
  { right. split; [done|]. split; [lia|]. split; [done|done]. }
  pose proof Hi as Hi'. apply index_ok_cons in Hi' as (Hs & Hz & Hl). pose proof Hs as (Ho & Hlen & _).
  rewrite seg_ok_end by done. destruct (Z.ltb_spec sector (s_offset s)).
  - right. unfold kSector, kMaxOffset in *. rewrite u64_small by lia. split; [done|]. split; [lia|].
    split; [intros Hns0; destruct (Z.min_spec ns (s_offset s * 512)) as [[_ ->] | [_ ->]]; [done|apply Z.mod_mul; lia]|].
    intros x Hx Hx2. eapply (resolve_below (s_offset s)); [|lia]. apply index_ok_cons. by split.
  - destruct (Z.ltb_spec sector (fin s)) as [Hlt|Hge].
    + (* the rest of the list starts past the sector *)
      assert (exists ns', read_scan l sector ns (Some s) = (Some s, ns')) as [ns' ->].
      { destruct l as [|s2 l]; [by eexists|]. apply index_ok_cons in Hl as (_ & Hs2 & _). cbn [read_scan].
        rewrite (proj2 (Z.ltb_lt _ _)) by lia. by eexists. }
      left. exists s. split; [done|]. split; [apply list_elem_of_here|lia].
    + specialize (IH (fin s) hit Hl Hns). destruct (read_scan l sector ns hit) as [h ns'].
      destruct IH as [(s' & -> & Hin & Hc)|(-> & Hb & Hmod & Hh)].
      * left. exists s'. split; [done|]. split; [by apply list_elem_of_further|done].
      * right. split; [done|]. split; [done|]. split; [done|]. intros x Hx Hx2.
        rewrite (resolve_cons_ge z) by (done || lia). by apply Hh.
Qed.

Definition rw_script (w : LsmtRwLayer) : script := p_script (rw_pair w).
(** Only the script advanced. *)
Definition only_io (w w' : LsmtRwLayer) : Prop := exists s, w' = set_pair w (set_script (rw_pair w) s).

Lemma only_io_trans w w1 w2 : only_io w w1 -> only_io w1 w2 -> only_io w w2.
Proof. intros [s ->] [s2 ->]. by exists s2. Qed.
Lemma only_io_view w w' : only_io w w' -> rw_view w' = rw_view w /\ rw_segments w' = rw_segments w.
Proof. by intros [s ->]. Qed.

Lemma pair_read_attempt w off n :
  0 <= off -> 0 <= n -> off + n <= f_size (rw_data w) ->
  attempt rw_script (on_pair (pair_read off n)) w
    (fun bs w' => bs = slice (f_byte (rw_data w)) off n /\ only_io w w') (only_io w).
Proof.
  intros. unfold attempt, on_pair, pair_read, pair_step, mbind, io_bind, io_run, rw_script.
  pose proof (next_outcome_spec (p_script (rw_pair w))) as Ho.
  destruct (next_outcome (p_script (rw_pair w))) as [[|k e] s]; destruct Ho as [Hsub Hf];
    cbn -[file_read].
  - change (p_data (rw_pair w)) with (rw_data w). rewrite file_read_full by lia.
    rewrite (proj2 (Z.eqb_eq _ _)) by len. cbn. split; [done|]. split; [done|]. by exists s.
  - split; [by apply (Hf k)|by exists s].
Qed.

(** A run of sectors with one meaning. *)
Lemma view_run f l s pos n :
  index_ok 0 l -> s ∈ l -> s_zeroed s = false -> 0 <= pos -> pos mod kSector = 0 ->
  s_offset s <= pos / kSector -> pos + n <= fin s * kSector ->
  slice (f_byte f) ((s_moffset s + (pos / kSector - s_offset s)) * kSector) n = slice (index_view f l) pos n.
Proof.
  intros Hi Hin Hz H0 Hm Hlo Hhi. apply mod_sector in Hm as Em.
  set (b := (s_moffset s + (pos / kSector - s_offset s)) * kSector).
  rewrite <- (Z.add_0_r b), <- (Z.add_0_r pos), <- !slice_shift. apply slice_ext. intros i Hi'.
  unfold index_view. assert ((pos + i) / kSector = pos / kSector + i / kSector /\ (pos + i) mod kSector = i mod kSector) as [Ed Em'].
  { rewrite Em. rewrite Z.div_mul by (unfold kSector; lia).
    split; [apply Z.div_add_l; unfold kSector; lia|]. rewrite Z.add_comm, Z.mod_add by (unfold kSector; lia). done. }
  rewrite Ed, Em'. unfold kSector in *. pose proof (Z.div_mod i 512 ltac:(lia)). pose proof (Z.mod_pos_bound i 512 ltac:(lia)).
  rewrite (resolve_elem 0 s l) by (done || lia). unfold seg_cell. rewrite Hz. simpl. f_equal. unfold b, kSector. lia.
Qed.
Lemma view_zero_run f l pos n :
  (forall x, pos / kSector <= x -> x * kSector < pos + n -> match resolve l x with Data _ _ => False | _ => True end) ->
  slice (index_view f l) pos n = zeros n.
Proof.
  intros H. apply slice_zero. intros i Hi. unfold index_view.
  specialize (H (i / kSector)). unfold kSector in *. pose proof (Z.div_mod i 512 ltac:(lia)).
  pose proof (Z.mod_pos_bound i 512 ltac:(lia)). pose proof (Z.div_le_mono pos i 512 ltac:(lia) ltac:(lia)).
  specialize (H ltac:(lia) ltac:(lia)). by destruct (resolve l (i / 512)).
Qed.

(** Running past a piece that was just read. *)
Lemma slice_extend (g : Z -> Z) offset d n bs :
  0 <= d -> 0 <= n -> bs = slice g (offset + d) n -> slice g offset d ++ bs = slice g offset (d + n).
Proof. intros ?? ->. by rewrite slice_app. Qed.

Section ReadLoop.
Context (count offset : Z) (H0 : 0 <= offset) (Ho : offset mod kSector = 0) (Hc : count mod kSector = 0).

Lemma read_loop_spec fuel d w log :
  rw_ok w log -> offset + count <= rw_vsize w -> rw_vsize w < 2 ^ 63 ->
  0 <= d <= count -> d mod kSector = 0 -> count - d <= Z.of_nat fuel * kSector ->
  attempt rw_script (read_loop fuel count offset (slice (rw_view w) offset d)) w
    (fun bs w' => bs = slice (rw_view w) offset count /\ only_io w w') (only_io w).
Proof.
  revert d w. induction fuel as [|fuel IH]; intros d w Hok Hv H63 Hd Hm Hf;
    cbn [read_loop]; rewrite zlen_slice, (Z.max_r 0 d) by lia.
  { assert (d = count) as -> by (unfold kSector in *; lia). rewrite Z.ltb_irrefl. apply attempt_ret.
    split; [done|]. by exists (p_script (rw_pair w)); destruct w as [[]]. }
  destruct (Z.ltb_spec d count) as [Hlt|Hge].
  2: { assert (d = count) as -> by lia. apply attempt_ret. split; [done|].
       by exists (p_script (rw_pair w)); destruct w as [[]]. }
  pose proof Hok as [H1 H2 [[Hi Hu Hb Hp] H4 _ _] H5 H6 H7 H8].
  apply mod_sector in Ho as Eo. apply mod_sector in Hc as Ec. apply mod_sector in Hm as Em.
  assert ((offset + d) mod kSector = 0) as Hpm.
  { rewrite Eo, Em, <- Z.mul_add_distr_r. apply Z.mod_mul. unfold kSector. lia. }
  apply mod_sector in Hpm as Epos. set (pos := offset + d) in *.
  assert (pos = offset + d) as Edef by done.
  pose proof (read_scan_spec (rw_segments w) 0 (pos / kSector) (offset + count) None Hi ltac:(lia)) as Hscan.
  (* one step that reads [n] more bytes leaves the rest to the induction *)
  assert (forall n w1, only_io w w1 -> 0 < n <= count - d -> n mod kSector = 0 ->
    attempt rw_script (read_loop fuel count offset (slice (rw_view w) offset (d + n))) w1
      (fun bs w' => bs = slice (rw_view w) offset count /\ only_io w w') (only_io w)) as Hstep.
  { intros n w1 Hw1 Hn Hnm. destruct (only_io_view _ _ Hw1) as [Ev Es]. rewrite <- Ev.
    assert (rw_ok w1 log) as Hok1.
    { destruct Hw1 as [s ->]. split; try done; [by apply pair_ok_script|].
      eapply rw_wf_same; [|apply (ro_wf _ _ Hok)]. done. }
    assert (rw_vsize w1 = rw_vsize w) as Evs by (by destruct Hw1 as [s ->]).
    eapply attempt_mono; [apply IH; rewrite ?Evs; try done|..].
    - lia.
    - rewrite Z.add_mod, Hm, Hnm by (unfold kSector; lia). done.
    - apply mod_sector in Hnm. unfold kSector in *. lia.
    - intros bs w2 [-> Hw2]. split; [done|]. by eapply only_io_trans.
    - intros w2 Hw2. by eapply only_io_trans. }
  assert (0 <= pos < 2 ^ 63) as Hpos by lia.
  destruct (read_scan (rw_segments w) (pos / kSector) (offset + count) None) as [h ns] eqn:Hsc.
  assert (only_io w w) as Hself by (by exists (p_script (rw_pair w)); destruct w as [[]]).
  destruct Hscan as [(s & -> & Hin & Hcov)|(-> & Hns & Hnm0 & Hhole)].
  - assert (seg_ok s) as Hso by (destruct Hi as [Hi' _]; rewrite Forall_forall in Hi'; auto).
    pose proof Hso as (Q1 & Q2 & Q3 & _ & Q5). set (n := Z.min (fin s * kSector - pos) (count - d)).
    assert (0 < n <= count - d /\ n mod kSector = 0) as [Hn Hnm].
    { split; [unfold n, kSector, fin in *; lia|].
      assert (n = Z.min (fin s - pos / kSector) (count / kSector - d / kSector) * kSector) as ->
        by (unfold n, kSector in *; lia).
      apply Z.mod_mul. unfold kSector. lia. }
    assert (u64 (fin s * kSector - pos) = fin s * kSector - pos) as Hu1
      by (apply u64_small; unfold fin, kSector, kMaxOffset, kMaxLength in *; lia).
    destruct (s_zeroed s) eqn:Hz.
    + eapply attempt_as; [unfold io_run; rewrite Hsc, Hz, seg_ok_end, Hu1 by done; reflexivity|].
      rewrite (slice_extend (rw_view w) offset d n); [by apply Hstep|lia|lia|].
      symmetry. apply view_zero_run. intros x Hx1 Hx2.
      fold pos in Hx1, Hx2.
      rewrite (resolve_elem 0 s); [|done|done|clear Hnm Hpm; unfold n, kSector in *; lia].
      unfold seg_cell. by rewrite Hz.
    + specialize (Q5 eq_refl).
      assert (u64 ((s_moffset s + (pos / kSector - s_offset s)) * kSector) =
        (s_moffset s + (pos / kSector - s_offset s)) * kSector) as Hu2
        by (apply u64_small; unfold fin, kSector in *; lia).
      eapply attempt_as; [unfold io_run; rewrite Hsc, Hz, seg_ok_end, Hu1, Hu2 by done; reflexivity|].
      eapply attempt_bind; [apply pair_read_attempt|].
      * unfold fin, kSector in *. lia.
      * unfold n in *. lia.
      * pose proof (resolve_elem 0 s (rw_segments w) (fin s - 1) Hi Hin ltac:(unfold fin; lia)) as Hr.
        unfold seg_cell in Hr. rewrite Hz in Hr. apply Hp in Hr as [_ Hr].
        pose proof (data_sectors_bytes (rw_data w) (s_moffset s + (fin s - 1 - s_offset s))
          ltac:(unfold fin in *; lia)) as Hdb.
        clear Hnm Hpm. unfold n, fin, kSector in *. lia.
      * intros bs w1 [-> Hw1]. cbn beta.
        rewrite (slice_extend (rw_view w) offset d n); [by apply Hstep|lia|lia|].
        fold pos. apply view_run; try done; unfold n; lia.
  - set (n := Z.min (ns - pos) (count - d)).
    assert (u64 (ns - pos) = ns - pos) as Hu1 by (apply u64_small; lia).
    eapply attempt_as; [unfold io_run; rewrite Hsc, Hu1; reflexivity|]. fold n.
    assert (0 < n <= count - d /\ n mod kSector = 0) as [Hn Hnm].
    { split; [unfold n; lia|]. unfold n. destruct (Z.min_spec (ns - pos) (count - d)) as [[_ ->] | [_ ->]]; rewrite Zminus_mod.
      - rewrite Hnm0, Hpm; [done|]. rewrite Z.add_mod, Ho, Hc by (unfold kSector; lia). done.
      - by rewrite Hc, Hm. }
    rewrite (slice_extend (rw_view w) offset d n); [by apply Hstep|lia|lia|].
    symmetry. apply view_zero_run. fold pos. intros x Hx1 Hx2. rewrite Hhole; [done|done|]. unfold n in *. lia.
Qed.
End ReadLoop.

Lemma pread_attempt w log count offset :
  rw_ok w log -> rw_vsize w < 2 ^ 63 -> 0 <= offset -> 0 <= count ->
  offset mod kSector = 0 -> count mod kSector = 0 ->
  attempt rw_script (pread count offset) w
    (fun bs w' => bs = slice (rw_view w) offset (Z.max 0 (Z.min count (rw_vsize w - offset))) /\ only_io w w')
    (only_io w).
Proof.
  intros Hok H63 H0 Hc0 Ho Hc. pose proof (rw_sectors_bytes _ _ Hok) as Hvs.
  assert (rw_vsize w mod kSector = 0) as Hvm by (rewrite <- Hvs; apply Z.mod_mul; unfold kSector; lia).
  destruct (Z.leb_spec (rw_vsize w) offset) as [Hle|Hgt].
  { eapply attempt_as.
    { unfold pread. rewrite (ro_journal _ _ Hok), Ho, Hc, (proj2 (Z.leb_le _ _)) by done. reflexivity. }
    apply (attempt_ret rw_script []). rewrite Z.max_l by lia. split; [by rewrite slice_nil|].
    by exists (p_script (rw_pair w)); destruct w as [[]]. }
  set (c := Z.min count (rw_vsize w - offset)). rewrite Z.max_r by lia.
  eapply (attempt_as _ _ (read_loop (read_fuel c) c offset [])).
  { unfold pread. rewrite (ro_journal _ _ Hok), Ho, Hc, (proj2 (Z.leb_gt _ _)) by done. simpl.
    destruct (Z.ltb_spec (rw_vsize w - offset) count); do 2 f_equal; unfold c; lia. }
  assert (c mod kSector = 0) as Hcm.
  { unfold c. destruct (Z.min_spec count (rw_vsize w - offset)) as [[_ ->] | [_ ->]]; [done|].
    by rewrite Zminus_mod, Hvm, Ho. }
  change (@nil Z) with (slice (rw_view w) offset 0).
  apply (read_loop_spec c offset H0 Ho Hcm (read_fuel c) 0 w log); try done; [unfold c; lia|unfold c; lia|].
  apply mod_sector in Hcm. unfold read_fuel, kSector in *. unfold c in *. lia.
Qed.

(** ** Discarding *)

(** The record of a discarded run. *)
Lemma zero_record sectors dsec cur n :
  0 <= cur -> 0 < n <= kMaxLength -> cur + n <= sectors -> sectors <= kMaxOffset ->
  let m := Seg cur (u32 n) kHeaderSectors true 0 in
  live_record sectors dsec m /\ seg_ok m /\ untagged m /\ zero_ok m /\ fin m = cur + n /\
  forall x, resolve [m] x = if (cur <=? x) && (x <? cur + n) then Zero else Hole.
Proof.
  intros H0 Hn Hs Hm. unfold live_record, seg_encodable, record_ok, seg_ok, fin, kInvalidOffset, untagged, zero_ok,
    kMaxMoffset, kMaxLength, kMaxOffset, kHeaderSectors in *.
  cbn [s_offset s_length s_moffset s_zeroed s_tag]. rewrite u32_small by lia.
  split; [split; [lia|]; split; [lia|]; right; split; [lia|]; split; [lia|done]|].
  split; [repeat split; intros; done || lia|]. split; [done|]. split; [done|]. split; [done|]. done.
Qed.

Definition zero_at (cur hi : Z) (c : Z -> cell) (x : Z) : cell :=
  if (cur <=? x) && (x <? hi) then Zero else c x.

Lemma zero_at_ext cur hi c d x : c x = d x -> zero_at cur hi c x = zero_at cur hi d x.
Proof. unfold zero_at. by intros ->. Qed.

Lemma zero_at_step cur n hi c x :
  0 <= n -> cur + n <= hi ->
  zero_at (cur + n) hi (zero_at cur (cur + n) c) x = zero_at cur hi c x.
Proof.
  intros. unfold zero_at.
  destruct (Z.leb_spec cur x), (Z.leb_spec (cur + n) x), (Z.ltb_spec x (cur + n)), (Z.ltb_spec x hi);
    cbn [andb]; done || lia.
Qed.

Section Discard.
Context (sectors dsec lo hi : Z).
Context (Hs : 0 <= sectors <= kMaxOffset) (Hd : 0 <= dsec < kMaxMoffset) (Hhi : hi <= sectors).

Lemma discard_loop_spec fuel cur next w log :
  0 <= lo <= cur -> cur <= hi -> hi - cur <= Z.of_nat fuel * kMaxSegLen ->
  pair_ok (rw_pair w) log -> rw_sectors w = sectors -> data_sectors (rw_data w) = dsec ->
  phys_inj (log_live log) ->
  index_ok 0 next -> Forall untagged next -> Forall zero_ok next ->
  (forall x, cur <= x < hi -> resolve next x = Hole) ->
  let '(r, w') := discard_loop fuel lo hi cur next w in
  match r with
  | Ok next' =>
      index_ok 0 next' /\ Forall untagged next' /\ Forall zero_ok next' /\
      (forall x, resolve next' x = zero_at cur hi (resolve next) x) /\
      exists log', published w w' log' /\ phys_inj (log_live log') /\
        forall x, resolve (log_live log') x = zero_at cur hi (resolve (log_live log)) x
  | Err f =>
      any_errno f /\
      exists p' b log', w' = set_journal_failed (set_pair w p') b /\
        p_data p' = rw_data w /\ p_header p' = p_header (rw_pair w) /\
        pair_disk p' log' /\
        (forall x, ~ (cur <= x < hi) -> resolve (log_live log') x = resolve (log_live log) x) /\
        (b = false -> cur = lo /\ log' = log /\ pair_ok p' log)
  end.
Proof.
  revert cur next w log. induction fuel as [|fuel IH];
    intros cur next w log Hlo Hch Hf Hp Es Ed Hj Hni Hnu Hnz Hfree; cbn [discard_loop];
    (destruct (Z.ltb_spec cur hi) as [Hlt|Hge];
     [|split; [done|]; split; [done|]; split; [done|]; split;
       [intros x; unfold zero_at; destruct (Z.leb_spec cur x), (Z.ltb_spec x hi); done || lia|];
       exists log; split; [exists (rw_pair w); split; [by destruct w|done]|]; split; [done|];
       intros x; unfold zero_at; destruct (Z.leb_spec cur x), (Z.ltb_spec x hi); done || lia]);
    [exfalso; unfold kMaxSegLen, kMaxLength in *; lia|].
  set (n := Z.min (hi - cur) kMaxSegLen).
  assert (0 < n <= kMaxLength /\ cur + n <= hi) as [Hn Hn2] by (unfold n, kMaxSegLen, kMaxLength; lia).
  destruct (zero_record sectors dsec cur n) as (Hr & Hok & Hu & Hz & Hfin & Hres); [lia|done|lia|lia|].
  set (m := Seg cur (u32 n) kHeaderSectors true 0) in *.
  assert (Forall (live_record sectors dsec) log) as Hll.
  { destruct (po_journal _ _ Hp) as [J _ _ _ _ _ _]. unfold rw_sectors, rw_data in *. by rewrite Es, Ed in J. }
  destruct (fresh_step sectors dsec Hs Hd log m Hll Hr Hj) as [Hj' _]; [done|].
  assert (forall x, resolve (log_live (log ++ [m])) x = zero_at cur (cur + n) (resolve (log_live log)) x) as Hstep.
  { intros x. rewrite (log_live_step sectors dsec Hs Hd) by done.
    pose proof (resolve_normal [m] x ltac:(by apply Forall_singleton)) as Hnm.
    change (normal <$> [m]) with [normal m] in Hnm. rewrite Hnm, Hres. unfold zero_at. by case_if. }
  pose proof (append_step w log m (negb (cur =? lo)) Hp ltac:(unfold rw_sectors, rw_data in *; by rewrite Es, Ed) Hj Hj') as Ha.
  unfold io_run. destruct (pair_append m (rw_pair w)) as [[u|f] p1].
  2: { destruct Ha as [He Ha]. split; [done|]. destruct (Ha []) as (p' & b & k & Heq & E1 & E2 & E3 & E4).
       exists p', b, (log ++ take k [m]). split; [done|]. split; [done|]. split; [done|]. split; [done|]. split.
       - intros x Hx. destruct k as [|k]; [by rewrite app_nil_r|]. cbn [take]. rewrite take_nil, Hstep.
         unfold zero_at. destruct (Z.leb_spec cur x), (Z.ltb_spec x (cur + n)); done || lia.
       - intros Hb. destruct (E4 Hb) as (Hc & -> & Hp'). rewrite app_nil_r.
         apply negb_false_iff, Z.eqb_eq in Hc. done. }
  destruct Ha as (p1' & [= <-] & Hp1 & E1 & E2).
  destruct (insert_free 0 next m) as (I1 & I2 & I3); try done.
  { simpl. lia. } { intros x Hx. apply Hfree. simpl in Hx. lia. }
  specialize (IH (cur + n) (insert_sorted next m) (set_pair w p1) (log ++ [m])).
  destruct (discard_loop fuel lo hi (cur + n) (insert_sorted next m) (set_pair w p1)) as [r w'].
  assert (forall x, resolve (insert_sorted next m) x = zero_at cur (cur + n) (resolve next) x) as Hins.
  { intros x. rewrite I3, Hres. unfold zero_at. by case_if. }
  unfold rw_sectors, rw_data, pair_sectors in *. cbn [rw_pair set_pair] in IH. rewrite E1, E2 in IH.
  specialize (IH ltac:(lia) ltac:(lia) ltac:(unfold n, kMaxSegLen, kMaxLength in *; lia) Hp1 Es Ed Hj' I1 I2
    ltac:(by apply insert_sorted_zero)).
  assert (forall x, cur + n <= x < hi -> resolve (insert_sorted next m) x = Hole) as Hfree'.
  { intros x Hx. rewrite Hins. unfold zero_at. rewrite (proj2 (Z.ltb_ge x (cur + n))), andb_false_r by lia.
    apply Hfree. lia. }
  specialize (IH Hfree'). destruct r as [next'|f].
  - destruct IH as (G1 & G2 & G3 & G4 & log' & (p' & -> & G5 & G6 & G7) & G8 & G9).
    split; [done|]. split; [done|]. split; [done|]. split.
    { intros x. rewrite G4, <- (zero_at_step cur n hi) by lia. by apply zero_at_ext. }
    exists log'. cbn [rw_pair set_pair] in *. split; [exists p'; split; [done|]; split; [done|]; split; congruence|].
    split; [done|]. intros x. rewrite G9, <- (zero_at_step cur n hi) by lia. by apply zero_at_ext.
  - destruct IH as (He & p' & b & log' & -> & G1 & G2 & G3 & G4 & G5). split; [done|].
    exists p', b, log'. split; [done|]. split; [congruence|]. split; [congruence|]. split; [done|]. split.
    + intros x Hx. rewrite G4 by lia. rewrite Hstep. unfold zero_at.
      destruct (Z.leb_spec cur x), (Z.ltb_spec x (cur + n)); done || lia.
    + intros Hb. destruct (G5 Hb). lia.
Qed.
End Discard.

Lemma index_view_zero_at f l k lo hi i :
  (forall x, resolve k x = zero_at lo hi (resolve l) x) ->
  index_view f k i = if (lo * kSector <=? i) && (i <? hi * kSector) then 0 else index_view f l i.
Proof.
  intros Hk. pose proof (sector_range i lo hi) as Hr. unfold index_view. rewrite Hk. unfold zero_at.
  destruct (Z.leb_spec (lo * kSector) i), (Z.ltb_spec i (hi * kSector)), (Z.leb_spec lo (i / kSector)),
    (Z.ltb_spec (i / kSector) hi); cbn [andb]; done || lia.
Qed.

Lemma discard_range_spec w log lo hi :
  rw_ok w log -> 0 <= lo < hi -> hi <= rw_sectors w ->
  let '(r, w') := discard_range lo hi w in
  mutates w (lo * kSector) (hi * kSector) (fun _ => 0) r w' /\
  (is_ok r = false -> rw_view w' = rw_view w).
Proof.
  intros Hok Hlo Hhi. pose proof Hok as [P1 P2 [[Li Lu Lb Lp] P4 P9 P10] P5 P6 P7 P8].
  destruct (view_of_replay _ _ Hok) as [Hs Hd].
  assert (phys_inj (log_live log)) as Hj by (eapply phys_inj_transfer; [exact P5|]; intros x; symmetry; apply P6).
  pose proof (discard_loop_spec (rw_sectors w) (data_sectors (rw_data w)) lo hi Hs Hd Hhi (discard_fuel lo hi) lo
    (cut lo hi (rw_segments w)) w log) as Hl.
  unfold discard_range, mbind, io_bind.
  destruct (discard_loop (discard_fuel lo hi) lo hi lo (cut lo hi (rw_segments w)) w) as [r w1].
  assert (forall x, resolve (cut lo hi (rw_segments w)) x =
    if (lo <=? x) && (x <? hi) then Hole else resolve (rw_segments w) x) as Hcut
    by (intros x; apply (cut_resolve 0); done || lia).
  specialize (Hl ltac:(lia) ltac:(lia)). unfold discard_fuel, kMaxSegLen, kMaxLength in Hl.
  pose proof (Z.div_mod (hi - lo) (2 ^ 14 - 1) ltac:(lia)). pose proof (Z.mod_pos_bound (hi - lo) (2 ^ 14 - 1) ltac:(lia)).
  specialize (Hl ltac:(lia) P1 eq_refl eq_refl Hj (cut_index 0 _ lo hi Li ltac:(lia) ltac:(lia) ltac:(lia))
    (cut_untagged _ _ _ Lu) (cut_zero _ _ _ P4)).
  assert (forall x, lo <= x < hi -> resolve (cut lo hi (rw_segments w)) x = Hole) as Hfree.
  { intros x Hx. rewrite Hcut. by rewrite (proj2 (Z.leb_le _ _)), (proj2 (Z.ltb_lt _ _)) by lia. }
  specialize (Hl Hfree). destruct r as [next|f].
  - destruct Hl as (G1 & G2 & G3 & G4 & log' & (p' & -> & G5 & E1 & E2) & G6 & G7). unfold io_run.
    split; [|done].
    assert (forall x, resolve next x = zero_at lo hi (resolve (rw_segments w)) x) as Hn.
    { intros x. rewrite G4. unfold zero_at. rewrite Hcut. by case_if. }
    destruct (mappings_changed_spec (set_pair w p') P10) as [Hr1 Hr2].
    set (w3 := set_segments _ _ _).
    assert (rw_wf w3) as Hwf.
    { split; try done; unfold rw_sectors, rw_data, pair_sectors in *;
        cbn [rw_pair rw_segments rw_data_bytes w3 set_segments set_pair] in *; rewrite ?E1, ?E2.
      - split; try done.
        + intros x. rewrite Hn. unfold zero_at. case_if; [|apply Lb]. bool_hyps. lia.
        + intros x t p. rewrite Hn. unfold zero_at. case_if; [done|apply Lp].
      - intros x t p. rewrite Hn. unfold zero_at. case_if; [done|apply P9]. }
    split; [repeat split; done|]. split; [|split].
    + split; [done|]. split.
      * unfold revised. change (rw_segments_revision w3) with (mappings_changed (set_pair w p')).
        change (rw_segments_revision (set_pair w p')) with (rw_segments_revision w) in Hr2. split; [lia|]. intros He. left. lia.
      * intros x Hx. change (rw_segments w3) with next. rewrite Hn. unfold zero_at.
        destruct (Z.leb_spec lo x), (Z.ltb_spec x hi); try done. unfold kSector in *. lia.
    + exists log'. split; try done.
      * intros x y t u p. change (rw_segments w3) with next. rewrite !Hn. unfold zero_at. do 2 (case_if; [done|]). apply P5.
      * intros x. change (rw_segments w3) with next. rewrite Hn, G7. apply zero_at_ext, P6.
      * unfold rw_data in *. cbn [rw_pair w3 set_segments set_pair]. by rewrite E1.
      * cbn. by rewrite E2.
    + split.
      * intros i. unfold rw_view, rw_data. cbn [rw_pair w3 set_segments set_pair rw_segments]. rewrite E1.
        by apply index_view_zero_at.
      * intros x Hx. change (rw_segments w3) with next. rewrite Hn. unfold zero_at.
        rewrite (proj2 (Z.leb_le lo x)), (proj2 (Z.ltb_lt x hi)) by (unfold kSector in *; lia). done.
  - destruct Hl as (He & p' & b & log' & -> & E1 & E2 & G1 & G2 & G3).
    assert (same_index w (set_journal_failed (set_pair w p') b)) as Hsi
      by (do 4 (split; [done|]); by apply rw_sectors_header).
    split; [|intros _; unfold rw_view, rw_data; simpl; by rewrite E1].
    split; [repeat split; done|]. split; [apply index_local_same; [done|apply (ro_wf _ _ Hok)]|].
    split; [done|]. exists log'. split.
    + split; [done|]. simpl. intros Hb. destruct (G3 Hb) as (_ & -> & Hp').
      split; try done; [eapply rw_wf_same; [done|apply (ro_wf _ _ Hok)]
        |unfold rw_data in *; simpl; by rewrite E1|simpl; by rewrite E2].
    + intros i Hi. split; [|unfold rw_view, rw_data; simpl; by rewrite E1].
      rewrite (rw_view_log _ _ _ Hok). unfold rw_data. simpl. rewrite E1. unfold index_view, rw_data.
      rewrite G2; [done|]. rewrite <- sector_range. lia.
Qed.

Lemma discard_spec w log offset len :
  rw_ok w log -> rw_sealed w || rw_checkpointed w = false ->
  0 <= offset -> offset mod kSector = 0 -> len mod kSector = 0 -> 0 < len ->
  offset + len <= rw_vsize w -> rw_vsize w < 2 ^ 64 ->
  let '(r, w') := discard offset len w in
  mutates w offset (offset + len) (fun _ => 0) r w' /\ (is_ok r = false -> rw_view w' = rw_view w).
Proof.
  intros Hok Hst H0 Ho Hc Hp Hv H64. unfold discard. rewrite Hst, Ho, Hc.
  rewrite (proj2 (Z.eqb_neq len 0)), (proj2 (Z.ltb_ge (rw_vsize w) _)) by lia. simpl.
  rewrite u64_small, (proj2 (Z.ltb_ge _ _)) by lia.
  pose proof (prepare_mutation_spec w log Hok) as Hpre. unfold mbind at 1, io_bind at 1.
  destruct (prepare_mutation w) as [r w1]. destruct Hpre as (He & Hdev & [log1 Hok1] & Hsi & Hend).
  assert (rw_view w1 = rw_view w) as Hview
    by (destruct Hsi as (E1 & _ & _ & E2 & _); unfold rw_view; by rewrite E1, E2).
  destruct r as [u|f].
  2: { split; [|done]. split; [done|]. split; [apply index_local_same; [done|apply (ro_wf _ _ Hok)]|]. split; [done|].
       exists log1. split; [by apply rw_ok_state|].
       intros i _. rewrite <- (rw_view_log _ _ _ Hok1). by rewrite Hview. }
  apply mod_sector in Ho as Eo. apply mod_sector in Hc as Ec.
  assert (rw_sectors w1 * kSector = rw_vsize w) as Hsec by (rewrite (rw_sectors_bytes _ _ Hok1); apply Hdev).
  pose proof (discard_range_spec w1 log1 (offset / kSector) (offset / kSector + len / kSector) Hok1
    ltac:(unfold kSector in *; lia) ltac:(unfold kSector in *; lia)) as Hd.
  destruct (discard_range _ _ w1) as [r w2]. destruct Hd as [Hm Hun].
  rewrite Z.mul_add_distr_r, <- Eo, <- Ec in Hm.
  destruct Hdev as (D1 & D2 & D3 & D4). destruct Hm as [(E1 & E2 & E3 & E4) [Hl Hm]].
  split; [|intros Hr; by rewrite Hun, Hview]. split; [repeat split; congruence|].
  split; [by eapply index_local_from|]. by rewrite Hview in Hm.
Qed.

(** ** Opening *)

Lemma log_live_zero sectors dsec log :
  0 <= sectors <= kMaxOffset -> 0 <= dsec < kMaxMoffset ->
  Forall (live_record sectors dsec) log -> Forall zero_ok (log_live log).
Proof.
  intros Hs Hd. induction log as [|m log IH] using rev_ind; intros Hl; [constructor|].
  apply Forall_app in Hl as [Hl Hm]. apply Forall_cons in Hm as [(E & N & R) _].
  destruct (log_live_ok sectors dsec Hs Hd log Hl) as [[Hi _ _ _] _].
  destruct (normal_ok sectors dsec Hd m E R N) as (Hok & Hf & _).
  rewrite log_live_snoc, (live_replace_cut 0) by (done || apply Hok || lia).
  apply emplace_zero; [|by apply cut_zero, IH]. intros Hz. simpl in *. by rewrite Hz.
Qed.

Lemma opened_layer data index header log p :
  disk_log data index header log -> opened data header log p ->
  data_sectors data + 1 < kMaxMoffset ->
  rw_ok (from_pair p) log /\ forall i, rw_view (from_pair p) i = index_view data (log_live log) i.
Proof.
  intros [Dh Dd Di Ds Dr Dl Drec Dc Df Dj] (Em & Eh & Ep & Eb & (Hsz & Hpad & _) & Hidx & Hj) Hroom.
  unfold kSpace in *. pose proof (round_up_spec (f_size data) ltac:(lia)) as [Hru Hmod].
  assert (data_sectors data <= data_sectors (p_data p)) as Hle by (apply data_sectors_mono; lia).
  assert (data_sectors (p_data p) <= data_sectors data + 1) as Hge.
  { unfold data_sectors. rewrite Hsz. unfold kAlignment in *. replace (f_size data / 512 + 1) with ((f_size data + 1 * 512) / 512)
      by (rewrite Z.div_add by lia; done). apply Z.div_le_mono; lia. }
  assert (pair_ok p log) as Hp.
  { split; try done.
    - unfold pair_sectors. rewrite Eh. by eapply journal_ok_mono.
    - by rewrite Eh.
    - rewrite Eh, <- Dd. f_equal. apply slice_ext. intros i Hi. apply Hpad. unfold kSpace in *. lia.
    - by rewrite Eh.
    - unfold kSpace. lia.
    - lia. }
  destruct (log_live_ok _ _ (pair_ok_sectors _ _ Hp) (pair_ok_data_sectors _ _ Hp) log
    (jo_records _ _ _ _ (po_journal _ _ Hp))) as [Hlive _].
  split.
  - split; try done; cbn [from_pair rw_segments rw_data_end_sector]; rewrite ?Em; try done.
    + split; try done; cbn [from_pair rw_segments rw_data_bytes]; rewrite ?Em; try done.
      * exact (log_live_zero _ _ _ (pair_ok_sectors _ _ Hp) (pair_ok_data_sectors _ _ Hp)
          (jo_records _ _ _ _ (po_journal _ _ Hp))).
      * intros x t q Hx. destruct (live_payload _ _ _ Hlive x t q Hx) as [_ Hq1].
        change kDataStartSector with 8 in Hq1. pose proof (data_sectors_bytes (p_data p) q ltac:(lia)). lia.
    + unfold rw_data. cbn [from_pair rw_pair]. rewrite Hsz, Eb. apply mod_sector in Hmod. unfold kSector in *. lia.
  - intros i. unfold rw_view, index_view, rw_data. cbn [from_pair rw_pair rw_segments]. rewrite Em.
    destruct (resolve (log_live log) (i / kSector)) as [| |t q] eqn:Hr; [done|done|]. simpl. apply Hpad.
    destruct (log_live_ok (ht_virtual_size header / kAlignment) (data_sectors data)) with (log := log)
      as [[_ _ _ Hpay] _]; [| |done|].
    + destruct Dh as (_ & _ & _ & ? & _ & ? & _). split; [apply Z.div_pos; unfold kAlignment; lia|done].
    + split; [apply Z.div_pos; unfold kAlignment; lia|done].
    + destruct (Hpay _ _ _ Hr) as [_ Hq]. pose proof (data_sectors_bytes data q) as Hb.
      change kDataStartSector with 8 in Hq. specialize (Hb ltac:(lia)). unfold kSector in *.
      pose proof (Z.mod_pos_bound i 512 ltac:(lia)). lia.
Qed.

(** A new layer. *)
Definition fresh_layer (h : HeaderTrailer) (s : script) : LsmtRwLayer := from_pair (fresh_pair h s).
Lemma fresh_layer_ok h s : pair_header h -> rw_ok (fresh_layer h s) [].
Proof.
  intros H. split; try done; by apply fresh_pair_ok.
Qed.

(** ** The properties of this component *)

(** C7. Writing.  An admissible write either completes, and then the device
    holds the written bytes in its range and everything else as before, and
    reading the range back gives exactly those bytes unless the read itself hits
    an I/O fault; or it fails with an errno, and then the files of the layer
    still hold a well-formed journal under which every byte outside the range is
    what it was, as it is through the index in memory, whatever payload or
    journal write was interrupted.  A layer not
    fenced by the failure still agrees with its journal.  No failure is a memory
    error, and the write never runs out of pieces. *)
Theorem pwrite_correct w log buf offset :
  rw_ok w log -> rw_sealed w || rw_checkpointed w = false ->
  0 <= offset -> offset mod kSector = 0 -> zlen buf mod kSector = 0 -> 0 < zlen buf ->
  offset + zlen buf <= rw_vsize w -> rw_vsize w < 2 ^ 63 ->
  rw_data_end_sector w + zlen buf / kSector < kMaxMoffset ->
  let '(r, w') := pwrite buf offset w in
  match r with
  | Ok n =>
      n = zlen buf /\ (exists log', rw_ok w' log') /\
      (forall i, rw_view w' i =
         if (offset <=? i) && (i <? offset + zlen buf) then bget buf (i - offset) else rw_view w i) /\
      attempt rw_script (pread (zlen buf) offset) w' (fun bs w2 => bs = buf /\ only_io w' w2) (only_io w')
  | Err f =>
      any_errno f /\
      exists log', rw_state w' log' /\
        forall i, i < offset \/ offset + zlen buf <= i ->
          index_view (rw_data w') (log_live log') i = rw_view w i /\ rw_view w' i = rw_view w i
  end.
Proof.
  intros Hok Hst H0 Ho Hc Hp Hv H63 Hroom.
  pose proof (pwrite_spec w log buf offset Hok Hst H0 Ho Hc Hp Hv ltac:(lia) Hroom) as Hw.
  destruct (pwrite buf offset w) as [[n|f] w']; destruct Hw as [Hn (Hdev & _ & Hm)]; [|done].
  destruct Hm as ([log' Hok'] & Hview & _). split; [by apply Hn|]. split; [by exists log'|]. split; [done|].
  destruct Hdev as (E1 & _).
  eapply attempt_mono; [apply (pread_attempt w' log'); try done; lia| |done].
  intros bs w2 [-> Hio]. split; [|done]. rewrite E1, Z.min_l, Z.max_r by lia.
  rewrite <- (slice_bget buf) at 2. rewrite <- (Z.add_0_r offset) at 1. rewrite <- slice_shift. apply slice_ext. intros i Hi.
  rewrite Hview. rewrite (proj2 (Z.leb_le _ _)), (proj2 (Z.ltb_lt _ _)) by lia. cbn [andb]. f_equal. lia.
Qed.

Lemma pwrite_correct_witness :
  let w := fresh_layer example_header [] in
  let buf := replicate 1024 7 in
  let '(r, w') := pwrite buf 512 w in
  match r with
  | Ok n =>
      n = zlen buf /\ (exists log', rw_ok w' log') /\
      (forall i, rw_view w' i =
         if (512 <=? i) && (i <? 512 + zlen buf) then bget buf (i - 512) else rw_view w i) /\
      attempt rw_script (pread (zlen buf) 512) w' (fun bs w2 => bs = buf /\ only_io w' w2) (only_io w')
  | Err f =>
      any_errno f /\
      exists log', rw_state w' log' /\
        forall i, i < 512 \/ 512 + zlen buf <= i ->
          index_view (rw_data w') (log_live log') i = rw_view w i /\ rw_view w' i = rw_view w i
  end.
Proof. apply (pwrite_correct _ []); [by apply fresh_layer_ok, example_header_ok|reflexivity|done..]. Defined.

(** C14. Reading.  A fenced layer refuses to read and a misaligned request is
    invalid; any other read returns exactly the device's bytes in the part of
    the range inside the device, or the errno of an I/O fault.  The layer does
    not change. *)
Theorem pread_correct w log count offset :
  rw_state w log -> rw_vsize w < 2 ^ 63 -> 0 <= offset -> 0 <= count ->
  if rw_journal_failed w then pread count offset w = (Err (Errno EIO), w)
  else if (offset mod kSector =? 0) && (count mod kSector =? 0)
  then attempt rw_script (pread count offset) w
         (fun bs w' => bs = slice (rw_view w) offset (Z.max 0 (Z.min count (rw_vsize w - offset))) /\ only_io w w')
         (only_io w)
  else pread count offset w = (Err (Errno EINVAL), w).
Proof.
  intros [_ Hok] H63 H0 Hc. destruct (rw_journal_failed w) eqn:Hj; [unfold pread; by rewrite Hj|].
  destruct (Z.eqb_spec (offset mod kSector) 0) as [Ho|Ho].
  - destruct (Z.eqb_spec (count mod kSector) 0) as [Hm|Hm]; [by eapply pread_attempt; [apply Hok|..]|].
    unfold pread. rewrite Hj, (proj2 (Z.eqb_neq (count mod _) 0)) by done. by rewrite orb_true_r.
  - unfold pread. by rewrite Hj, (proj2 (Z.eqb_neq (offset mod _) 0)) by done.
Qed.

Lemma pread_correct_witness :
  let w := fresh_layer example_header [Failed 0 EIO] in
  attempt rw_script (pread 512 0) w
    (fun bs w' => bs = slice (rw_view w) 0 (Z.max 0 (Z.min 512 (rw_vsize w - 0))) /\ only_io w w') (only_io w).
Proof.
  apply (pread_correct (fresh_layer example_header [Failed 0 EIO]) [] 512 0); [|done..].
  by apply rw_ok_state, fresh_layer_ok, example_header_ok.
Defined.

(** C13. Discarding is atomic to the caller.  A completed discard makes its range
    read as zeroes and changes nothing else; a failed one leaves every byte of
    the device as it was, and what the files hold differs from that at most
    inside the range. *)
Theorem discard_correct w log offset len :
  rw_ok w log -> rw_sealed w || rw_checkpointed w = false ->
  0 <= offset -> offset mod kSector = 0 -> len mod kSector = 0 -> 0 < len ->
  offset + len <= rw_vsize w -> rw_vsize w < 2 ^ 63 ->
  let '(r, w') := discard offset len w in
  match r with
  | Ok _ =>
      (exists log', rw_ok w' log') /\
      forall i, rw_view w' i = if (offset <=? i) && (i <? offset + len) then 0 else rw_view w i
  | Err f =>
      any_errno f /\ rw_view w' = rw_view w /\
      exists log', rw_state w' log' /\
        forall i, i < offset \/ offset + len <= i -> index_view (rw_data w') (log_live log') i = rw_view w i
  end.
Proof.
  intros Hok Hst H0 Ho Hc Hp Hv H63.
  pose proof (discard_spec w log offset len Hok Hst H0 Ho Hc Hp Hv ltac:(lia)) as Hd.
  destruct (discard offset len w) as [[u|f] w']; destruct Hd as [(_ & _ & Hm) Hun];
    [by destruct Hm as (? & ? & _)|].
  destruct Hm as (He & log' & Hs & Hm). split; [done|]. split; [by apply Hun|].
  exists log'. split; [done|]. intros i Hi. by apply Hm.
Qed.

Lemma discard_correct_witness :
  let w := fresh_layer example_header [Failed 9 ENOSPC] in
  let '(r, w') := discard 0 8192 w in
  match r with
  | Ok _ =>
      (exists log', rw_ok w' log') /\
      forall i, rw_view w' i = if (0 <=? i) && (i <? 0 + 8192) then 0 else rw_view w i
  | Err f =>
      any_errno f /\ rw_view w' = rw_view w /\
      exists log', rw_state w' log' /\
        forall i, i < 0 \/ 0 + 8192 <= i -> index_view (rw_data w') (log_live log') i = rw_view w i
  end.
Proof. apply (discard_correct _ []); [by apply fresh_layer_ok, example_header_ok|reflexivity|done..]. Defined.



(** ** Terminal states *)

(** A checkpoint is terminal.  It succeeds only on a layer in service that
    has no other terminal or grow operation in flight; afterwards the device is
    unchanged and every write, discard, grow and second checkpoint is refused
    with [EROFS] without touching the layer.  A failed checkpoint leaves the
    layer as it was, its gate released. *)
Theorem checkpoint_terminal w log :
  rw_ok w log ->
  let '(r, w') := checkpoint w in
  rw_view w' = rw_view w /\ rw_terminal_op w' = (if is_ok r then false else rw_terminal_op w) /\
  match r with
  | Ok _ =>
      rw_ok w' log /\ rw_sealed w = false /\ rw_checkpointed w = false /\
      rw_terminal_op w = false /\ rw_grow_op w = false /\
      (forall buf offset, pwrite buf offset w' = (Err (Errno EROFS), w')) /\
      (forall offset len, discard offset len w' = (Err (Errno EROFS), w')) /\
      begin_grow_op w' = (Err (Errno EROFS), w') /\ checkpoint w' = (Err (Errno EROFS), w')
  | Err f => any_errno f /\ rw_ok w' log /\ rw_checkpointed w' = rw_checkpointed w
  end.
Proof.
  intros Hok. pose proof Hok as [P1 P2 [P3 P4 P9 P10] P5 P6 P7 P8]. unfold checkpoint, begin_terminal_op.
  destruct (rw_terminal_op w || rw_grow_op w) eqn:Hb; [by split; [done|]; split; [done|]; eauto with errno|].
  destruct (rw_sealed w) eqn:Hse; [by split; [done|]; split; [done|]; eauto with errno|].
  simpl andb. destruct (rw_checkpointed w) eqn:Hck; [by split; [done|]; split; [done|]; eauto with errno|].
  apply orb_false_iff in Hb as [Hb1 Hb2]. cbn [rw_journal_failed set_gates]. rewrite P2.
  pose proof (attempt_result _ _ _ _ _ (pair_flush_attempt _ _ P1)) as Hf.
  unfold on_pair. cbn [rw_pair set_gates].
  destruct (pair_flush (rw_pair w)) as [[u|f] p'].
  - destruct Hf as [s ->]. split; [done|]. split; [done|].
    split; [split; try done; by apply pair_ok_script|].
    unfold begin_grow_op, checkpoint, begin_terminal_op, pwrite, discard. cbn. rewrite Hse, Hb2. done.
  - destruct Hf as [He [s ->]]. split; [done|]. split; [done|]. split; [done|].
    split; [split; try done; by apply pair_ok_script|]. done.
Qed.

Lemma checkpoint_terminal_witness :
  let w := fresh_layer example_header [] in
  let '(r, w') := checkpoint w in
  rw_view w' = rw_view w /\ rw_terminal_op w' = (if is_ok r then false else rw_terminal_op w) /\
  match r with
  | Ok _ =>
      rw_ok w' [] /\ rw_sealed w = false /\ rw_checkpointed w = false /\
      rw_terminal_op w = false /\ rw_grow_op w = false /\
      (forall buf offset, pwrite buf offset w' = (Err (Errno EROFS), w')) /\
      (forall offset len, discard offset len w' = (Err (Errno EROFS), w')) /\
      begin_grow_op w' = (Err (Errno EROFS), w') /\ checkpoint w' = (Err (Errno EROFS), w')
  | Err f => any_errno f /\ rw_ok w' [] /\ rw_checkpointed w' = rw_checkpointed w
  end.
Proof. apply (checkpoint_terminal _ []). by apply fresh_layer_ok, example_header_ok. Defined.
