(* ===== verification/LsmtRwGrow.v ===== *)
(** * Growing the writable layer ([format/lsmt_rw.cpp], [grow])

    The layer's grow over its pair: the gate, the pair's transaction and what
    the layer makes of its outcome. *)
From S2P Require Import Prelude Bytes LsmtFormat Source File Segments Merge Trim Journal FilePair PairGrow LsmtRw.

Open Scope Z_scope.

Definition set_vsize (w : LsmtRwLayer) (v : Z) : LsmtRwLayer :=
  Rw (rw_pair w) (rw_segments w) (rw_segments_revision w) (rw_data_end_sector w) (rw_data_bytes w) v
    (rw_uuid w) (rw_journal_failed w) (rw_sealed w) (rw_checkpointed w) (rw_grow_op w) (rw_terminal_op w).

(** The outcome of the pair's transaction as the layer records it. *)
Definition grow_outcome (w : LsmtRwLayer) : LsmtRwLayer :=
  let p := rw_pair w in
  if healthy p then set_journal_failed (set_vsize w (ht_virtual_size (p_header p))) false
  else if p_growth_pending p then set_journal_failed w true else w.

Definition grow (vsize : Z) : io LsmtRwLayer unit := fun w =>
  match begin_grow_op w with
  | (Err f, w) => (Err f, w)
  | (Ok _, w) =>
      let '(r, w) :=
        if rw_journal_failed w && negb (p_growth_pending (rw_pair w)) then (Err (Errno EIO), w) else
        let '(rc, w) := on_pair (pair_grow vsize) w in (rc, grow_outcome w) in
      (r, (end_grow_op w).2)
  end.

(** A layer in service, open for a growth. *)
Definition can_grow (w : LsmtRwLayer) : Prop :=
  rw_terminal_op w || rw_grow_op w = false /\ rw_sealed w || rw_checkpointed w = false /\
  canonical (rw_pair w) /\ f_size (rw_data w) mod kAlignment = 0 /\ f_size (rw_data w) < 2 ^ 64.

(** The bytes of the device are not affected by its capacity. *)
Definition same_bytes (w w' : LsmtRwLayer) : Prop :=
  rw_segments w' = rw_segments w /\ rw_segments_revision w' = rw_segments_revision w /\
  rw_data_bytes w' = rw_data_bytes w /\ payload_same (rw_data w') (rw_data w) /\
  rw_sealed w' = rw_sealed w /\ rw_checkpointed w' = rw_checkpointed w /\ rw_grow_op w' = false.

(** The view reads mapped payload only, which starts after the header. *)
Lemma same_bytes_view w w' : rw_wf w -> same_bytes w w' -> forall i, rw_view w' i = rw_view w i.
Proof.
  intros Hwf (E1 & _ & _ & [_ Hp] & _) i. unfold rw_view, index_view. rewrite E1.
  destruct (resolve (rw_segments w) (i / kSector)) as [| |t q] eqn:Hr; [done|done|]. simpl. apply Hp.
  destruct (live_payload _ _ _ (wf_live _ Hwf) _ _ _ Hr) as [_ Hq].
  change kDataStartSector with 8 in Hq. unfold kSpace, kSector. pose proof (Z.mod_pos_bound i 512 ltac:(lia)). lia.
Qed.

Lemma same_bytes_wf w w' :
  rw_wf w -> same_bytes w w' -> rw_sectors w <= rw_sectors w' -> rw_wf w'.
Proof.
  intros [H1 H2 H3 H4] (E1 & E2 & E3 & [E4 _] & _) Hs.
  split; rewrite ?E1, ?E2, ?E3; try done. unfold data_sectors. rewrite E4.
  eapply live_ok_mono; [exact H1|done|done].
Qed.

(** ** Correctness *)

Definition layer_script (w : LsmtRwLayer) : script := p_script (rw_pair w).

Definition valid_capacity (w : LsmtRwLayer) (vs : Z) : bool :=
  (vs mod kAlignment =? 0) && (vs / kAlignment <=? kMaxOffset) && (rw_vsize w <? vs).

Section Layer.
Context (w : LsmtRwLayer) (log : list segment_mapping) (vs : Z).
Context (Hok : rw_ok w log) (Hcan : can_grow w).

Lemma layer_phys_inj : phys_inj (log_live log).
Proof. intros x y t u p. rewrite <- !(ro_log _ _ Hok). apply (ro_inj _ _ Hok). Qed.

(** The capacity is refused, or is the present one. *)
Lemma pair_grow_refuses :
  valid_capacity w vs = false ->
  pair_grow vs (rw_pair w) = ((if vs =? rw_vsize w then Ok tt else Err (Errno EINVAL)), rw_pair w).
Proof.
  intros Hv. pose proof Hok as [Hp _ _ _ _ _ Ev]. destruct (po_healthy _ _ Hp) as (N1 & N2 & _).
  destruct (po_header _ _ Hp) as (_ & _ & _ & V1 & V2 & V3 & _).
  unfold pair_grow. rewrite N1, N2. cbn [andb]. unfold mbind, io_bind, mret, io_ret. cbn [negb].
  unfold io_run. unfold valid_capacity in Hv. rewrite Ev in Hv |- *.
  destruct (Z.eqb_spec vs (ht_virtual_size (p_header (rw_pair w)))) as [->|Hne].
  - rewrite V2, (proj2 (Z.eqb_neq _ 0)), (proj2 (Z.ltb_ge kMaxOffset _)), Z.ltb_irrefl by lia. done.
  - destruct (vs =? 0); [done|]. destruct (vs mod kAlignment =? 0); [|done].
    destruct (Z.leb_spec (vs / kAlignment) kMaxOffset) as [?|?]; [|by rewrite (proj2 (Z.ltb_lt kMaxOffset _))].
    rewrite (proj2 (Z.ltb_ge kMaxOffset _)) by done. cbn [andb orb negb] in *.
    apply Z.ltb_ge in Hv. by rewrite (proj2 (Z.ltb_lt vs _)) by lia.
Qed.

End Layer.

(** The transaction of a layer that the gate admits. *)
Lemma grow_runs w vs :
  rw_terminal_op w || rw_grow_op w = false -> rw_sealed w || rw_checkpointed w = false ->
  rw_journal_failed w && negb (p_growth_pending (rw_pair w)) = false ->
  grow vs w = let '(rc, p') := pair_grow vs (rw_pair w) in (rc, (end_grow_op (grow_outcome (set_pair w p'))).2).
Proof.
  intros G1 G2 G3. unfold grow, begin_grow_op. rewrite G1, G2.
  cbn [rw_journal_failed rw_pair set_gates]. rewrite G3. unfold on_pair.
  cbn [rw_pair set_gates]. destruct (pair_grow vs (rw_pair w)) as [rc p']. f_equal.
  unfold grow_outcome, set_pair. cbn [rw_pair set_gates]. by destruct (healthy p'), (p_growth_pending p').
Qed.

(** A layer fenced by an unfinished growth: its index, payload and journal are
    the ones of [w]. *)
Definition growing_layer (w : LsmtRwLayer) (vs : Z) (w' : LsmtRwLayer) : Prop :=
  rw_journal_failed w' = true /\ rw_vsize w' = rw_vsize w /\
  rw_data_end_sector w' = rw_data_end_sector w /\ rw_terminal_op w' = false /\
  pending (p_data (rw_pair w)) (p_index (rw_pair w)) (p_header (rw_pair w)) vs (rw_pair w) (rw_pair w').

(** A layer that completed the growth. *)
Definition grown_to (w : LsmtRwLayer) (log : list segment_mapping) (vs : Z) (w' : LsmtRwLayer) : Prop :=
  rw_ok w' log /\ same_bytes w w' /\ rw_vsize w' = vs.

Lemma outcome_script w p : layer_script (end_grow_op (grow_outcome (set_pair w p))).2 = p_script p.
Proof. unfold grow_outcome. cbn [rw_pair set_pair]. by destruct (healthy p), (p_growth_pending p). Qed.

Section Transaction.
Context (w : LsmtRwLayer) (log : list segment_mapping) (vs : Z).
Context (Hok : rw_ok w log) (Hcan : can_grow w) (Hvs : valid_capacity w vs = true).

Let p := rw_pair w.

Lemma capacity_facts :
  ht_virtual_size (p_header p) < vs /\ vs mod kAlignment = 0 /\ vs / kAlignment <= kMaxOffset.
Proof.
  unfold valid_capacity in Hvs. rewrite (ro_vsize _ _ Hok) in Hvs. bool_hyps. done.
Qed.

Lemma complete_layer w1 p' :
  same_bytes w (set_gates w1 (rw_checkpointed w1) false (rw_terminal_op w1)) ->
  rw_data_end_sector w1 = rw_data_end_sector w ->
  complete (p_data p) (p_index p) (p_header p) vs p p' ->
  grown_to w log vs (end_grow_op (grow_outcome (set_pair w1 p'))).2.
Proof.
  intros Hb He Hc. destruct capacity_facts as (V1 & V2 & V3). destruct Hcan as (_ & _ & C1 & _ & C2).
  pose proof Hok as [P1 _ P3 P4 P5 P6 _].
  destruct (complete_pair_ok p log vs P1 (layer_phys_inj _ _ Hok) V1 V2 V3 p' Hc) as (Q1 & _ & Q2).
  pose proof Hc as ((Hpay & _) & _).
  destruct (po_healthy _ _ Q1) as (N1 & _). unfold grow_outcome, healthy. cbn [rw_pair set_pair].
  rewrite N1. cbn [negb end_grow_op snd]. set (s := set_gates _ _ _ _).
  assert (same_bytes w s) as Hs.
  { destruct Hb as (B1 & B2 & B3 & _ & B4 & B5 & _). do 3 (split; [done|]). split; done. }
  assert (rw_vsize s = vs) as Ev by (cbn [s rw_vsize set_gates set_journal_failed set_vsize set_pair]; by rewrite Q2).
  split; [|done]. split; try done.
  - eapply same_bytes_wf; [exact P3|exact Hs|]. unfold rw_sectors, pair_sectors.
    cbn [s set_gates rw_pair set_journal_failed set_vsize set_pair]. rewrite Q2.
    unfold p in *. apply Z.div_le_mono; cbn; unfold kAlignment; lia.
  - destruct Hs as (-> & _). done.
  - destruct Hs as (-> & _). done.
  - unfold rw_data. cbn [s rw_pair rw_data_end_sector set_gates set_journal_failed set_vsize set_pair].
    destruct Hpay as [-> _]. by rewrite He.
Qed.

(** What the layer records of a transaction that stopped after publication. *)
Lemma pending_layer w1 p' :
  same_bytes w (set_gates w1 (rw_checkpointed w1) false (rw_terminal_op w1)) ->
  rw_vsize w1 = rw_vsize w -> rw_data_end_sector w1 = rw_data_end_sector w -> rw_terminal_op w1 = false ->
  pending (p_data p) (p_index p) (p_header p) vs p p' ->
  let w' := (end_grow_op (grow_outcome (set_pair w1 p'))).2 in
  growing_layer w vs w' /\ same_bytes w w'.
Proof.
  intros Hb Ev He Ht Hp. pose proof Hp as (Hst & N1 & N2 & _).
  unfold grow_outcome, healthy. cbn [rw_pair set_pair]. rewrite N1, N2. cbn [negb].
  assert (payload_same (p_data p') (rw_data w)) as Hpay.
  { destruct Hst as [[(A & _) _]|[(A & _) _]]; exact A. }
  split; [do 4 (split; [done|]); exact Hp|].
  destruct Hb as (B1 & B2 & B3 & _ & B4 & B5 & _). do 3 (split; [done|]). done.
Qed.

(** A transaction that did not get to publication. *)
Lemma unchanged_layer s :
  let w' := (end_grow_op (grow_outcome (set_pair w (set_script p s)))).2 in
  same_bytes w w' /\ rw_ok w' log /\ rw_vsize w' = rw_vsize w.
Proof.
  pose proof Hok as [P1 P2 P3 P4 P5 P6 P7]. destruct (po_healthy _ _ P1) as (N1 & _).
  unfold grow_outcome, healthy, p. cbn [rw_pair set_pair set_script p_poisoned]. rewrite N1. cbn [negb].
  set (w' := (end_grow_op _).2).
  assert (same_bytes w w') as Hb by (do 3 (split; [done|]); split; [apply payload_same_refl|done]).
  split; [done|]. split; [|done]. split; try done.
  - by apply pair_ok_script.
  - by eapply same_bytes_wf.
Qed.

Lemma grow_attempt :
  attempt layer_script (grow vs) w (fun _ w' => grown_to w log vs w')
    (fun w' => same_bytes w w' /\ (rw_ok w' log /\ rw_vsize w' = rw_vsize w \/ growing_layer w vs w')).
Proof.
  destruct capacity_facts as (V1 & V2 & V3). pose proof Hcan as (G1 & G2 & C1 & C3 & C2).
  pose proof (pair_grow_attempt p log vs (ro_pair _ _ Hok) C1 (layer_phys_inj _ _ Hok) C2 V1 V2 V3 C3) as Ha.
  assert (same_bytes w (set_gates w (rw_checkpointed w) false (rw_terminal_op w))) as Hb
    by (do 3 (split; [done|]); split; [apply payload_same_refl|done]).
  unfold attempt in *. rewrite grow_runs by (done || by rewrite (ro_journal _ _ Hok)). fold p.
  destruct (pair_grow vs p) as [[u|[e| |]] p']; try done; destruct Ha as [Hs Ha].
  - split; [by rewrite outcome_script|by apply complete_layer].
  - split; [done|]. destruct Ha as [[s ->]|Ha].
    + destruct (unchanged_layer s) as (? & ? & ?). split; [done|by left].
    + apply orb_false_iff in G1 as [G1 _]. destruct (pending_layer w p' Hb eq_refl eq_refl G1 Ha). split; [done|by right].
Qed.
End Transaction.

(** Repeating the growth of a fenced layer. *)
Lemma grow_retry w log vs w1 :
  rw_ok w log -> can_grow w -> valid_capacity w vs = true ->
  growing_layer w vs w1 -> same_bytes w w1 ->
  attempt layer_script (grow vs) w1 (fun _ w2 => grown_to w log vs w2)
    (fun w2 => growing_layer w vs w2 /\ same_bytes w w2 \/ grown_to w log vs w2).
Proof.
  intros Hok Hcan Hvs (F1 & F2 & F3 & F4 & Hp) Hb. destruct (capacity_facts w log vs Hok Hvs) as (V1 & V2 & V3).
  pose proof Hcan as (_ & G2 & _ & _ & C2). pose proof Hp as (_ & _ & N2 & _).
  pose proof Hb as (_ & _ & _ & _ & B1 & B2 & B3).
  pose proof (pending_retry _ _ _ vs log (pair_ok_disk _ _ (ro_pair _ _ Hok) (layer_phys_inj _ _ Hok)) C2 V1 V2 V3 _ _ Hp) as Ha.
  assert (same_bytes w (set_gates w1 (rw_checkpointed w1) false (rw_terminal_op w1))) as Hb1
    by (destruct Hb as (? & ? & ? & ? & ? & ? & ?); do 3 (split; [done|]); done).
  unfold attempt in *. rewrite grow_runs by (rewrite ?F4, ?B1, ?B2, ?B3, ?F1, ?N2; done).
  destruct (pair_grow vs (rw_pair w1)) as [[u|[e| |]] p']; try done; destruct Ha as [Hs Ha].
  - split; [by rewrite outcome_script|by apply complete_layer].
  - split; [done|]. destruct Ha as [Ha|Ha]; [left|right; by apply complete_layer].
    by apply pending_layer.
Qed.

Lemma pending_sectors w log vs w' :
  rw_ok w log -> valid_capacity w vs = true ->
  pending (p_data (rw_pair w)) (p_index (rw_pair w)) (p_header (rw_pair w)) vs (rw_pair w) (rw_pair w') ->
  rw_sectors w <= rw_sectors w'.
Proof.
  intros Hok Hv [Hst _]. destruct (capacity_facts w log vs Hok Hv) as (V1 & _).
  unfold rw_sectors, pair_sectors. apply Z.div_le_mono; [unfold kAlignment; lia|].
  destruct Hst as [[_ [Eh|Eh]]|[_ Eh]]; rewrite Eh; cbn; lia.
Qed.

Lemma same_layer w log :
  rw_ok w log -> rw_grow_op w = false -> (end_grow_op (grow_outcome (set_pair w (rw_pair w)))).2 = w.
Proof.
  intros [P1 P2 _ _ _ _ P7] Hg. destruct (po_healthy _ _ P1) as (N1 & _).
  unfold grow_outcome, healthy. cbn [rw_pair set_pair]. rewrite N1. cbn. destruct w; simpl in *. by subst.
Qed.

(** Growing a layer.  A capacity that is not larger, not aligned or beyond
    the format is answered without touching anything.  Otherwise the layer keeps
    every byte it serves whatever faults the growth meets; success puts it in
    service at the new capacity; failure leaves it in service at the old one, or
    fenced with the growth on record, and then repeating the call completes it
    unless another fault stops it, which again leaves one of those states. *)
Theorem layer_grow_correct w log vs :
  rw_ok w log -> can_grow w ->
  if valid_capacity w vs then
    let '(r, w') := grow vs w in
    same_bytes w w' /\ rw_wf w' /\ (forall i, rw_view w' i = rw_view w i) /\
    match r with
    | Ok _ => rw_ok w' log /\ rw_vsize w' = vs
    | Err f => any_errno f /\
        (rw_ok w' log /\ rw_vsize w' = rw_vsize w \/
         growing_layer w vs w' /\
         attempt layer_script (grow vs) w' (fun _ w2 => grown_to w log vs w2)
           (fun w2 => growing_layer w vs w2 /\ same_bytes w w2 \/ grown_to w log vs w2))
    end
  else grow vs w = ((if vs =? rw_vsize w then Ok tt else Err (Errno EINVAL)), w).
Proof.
  intros Hok Hcan. destruct (valid_capacity w vs) eqn:Hv.
  - pose proof (attempt_result _ _ _ _ _ (grow_attempt w log vs Hok Hcan Hv)) as Ha.
    destruct (grow vs w) as [[u|f] w'].
    + destruct Ha as (? & Hb & ?). split; [done|]. split; [by apply ro_wf with log|]. split; [|done].
      apply same_bytes_view; [apply Hok|done].
    + destruct Ha as (? & Hb & Ha). split; [done|]. split; [|split; [apply same_bytes_view; [apply Hok|done]|]].
      * destruct Ha as [[? _]|(_ & _ & _ & _ & G)]; [by apply ro_wf with log|].
        eapply same_bytes_wf; [apply Hok|done|]. by eapply pending_sectors.
      * split; [done|]. destruct Ha as [?|G]; [by left|right]. split; [done|]. by apply grow_retry.
  - destruct Hcan as (G1 & G2 & _).
    rewrite grow_runs, (pair_grow_refuses w log vs Hok Hv) by (done || by rewrite (ro_journal _ _ Hok)).
    f_equal. apply (same_layer w log); [done|]. by apply orb_false_iff in G1 as [_ ?].
Qed.

Lemma layer_grow_correct_witness :
  let w := fresh_layer example_header [] in
  let '(r, w') := grow 2097152 w in
  same_bytes w w' /\ rw_wf w' /\ (forall i, rw_view w' i = rw_view w i) /\
  match r with
  | Ok _ => rw_ok w' [] /\ rw_vsize w' = 2097152
  | Err f => any_errno f /\
      (rw_ok w' [] /\ rw_vsize w' = rw_vsize w \/
       growing_layer w 2097152 w' /\
       attempt layer_script (grow 2097152) w' (fun _ w2 => grown_to w [] 2097152 w2)
         (fun w2 => growing_layer w 2097152 w2 /\ same_bytes w w2 \/ grown_to w [] 2097152 w2))
  end.
Proof.
  intros w.
  assert (valid_capacity w 2097152 = true) as E by reflexivity.
  assert (rw_ok w []) as Hok by (apply fresh_layer_ok, example_header_ok).
  assert (can_grow w) as Hcan.
  { do 2 (split; [done|]). split; [apply fresh_canonical, example_header_ok|]. split; reflexivity. }
  pose proof (layer_grow_correct w [] 2097152 Hok Hcan) as H. clearbody w. rewrite E in H. exact H.
Defined.
