(* ===== verification/MergedWritable.v ===== *)
(** * The writable device ([format/merged_writable.{hpp,cpp}], [format/writable.hpp])

    A writable layer over sealed read-only layers.  [WritableLayer] is the
    interface of the top, [WritableSpec] its contract; the device keeps a merged
    snapshot of all indexes, repairs it after every mutation and drops it when it
    cannot.  An exception thrown by the top and a negative return are both [Err]:
    the code treats them alike.  Allocation does not fail in the model. *)
From S2P Require Import Prelude Bytes LsmtFormat Source Segments Merge Trim Lsmt.

Open Scope Z_scope.

(** ** The writable top *)

(** [T] is the state of the layer with the outcomes of its I/O, [W] the world the
    lower layers read in. *)
Class WritableLayer (T W : Type) := {
  wl_pwrite : bytes -> Z -> io T Z;
  wl_discard : Z -> Z -> io T unit;
  wl_flush : io T unit;
  wl_grow : Z -> io T unit;
  wl_virtual_size : T -> Z;
  wl_segments : T -> list segment_mapping;
  wl_snapshot_ok : T -> bool;
  wl_generation : T -> Z;
  wl_revision : T -> option Z;
  wl_data_pread : Z -> Z -> io T bytes;
  wl_local : bool;
  wl_serialize : bool;
  wl_requires_view : bool;
  wl_pwrite_with_view : BlobSource (T * W) -> bytes -> Z -> io (T * W) Z;
  wl_discard_with_view : BlobSource (T * W) -> Z -> Z -> io (T * W) unit;
}.

Definition on_fst {T W A} (m : io T A) : io (T * W) A := fun s =>
  let '(r, t) := m s.1 in (r, (t, s.2)).
Definition on_snd {T W A} (m : io W A) : io (T * W) A := fun s =>
  let '(r, w) := m s.2 in (r, (s.1, w)).

(** ** The device *)

Section Device.
Context {T W : Type} `{WL : WritableLayer T W}.

Record MergedWritable := MW {
  mw_layers : list (LsmtLayer W);  (* topmost first *)
  mw_world : T * W;
  mw_index : option (list segment_mapping);
  mw_vsize : Z;
  mw_active_ops : Z;
  mw_grow_active : bool;
}.

Definition mw_top (s : MergedWritable) : T := (mw_world s).1.
Definition set_world (s : MergedWritable) (x : T * W) : MergedWritable :=
  MW (mw_layers s) x (mw_index s) (mw_vsize s) (mw_active_ops s) (mw_grow_active s).
Definition set_index (s : MergedWritable) (i : option (list segment_mapping)) : MergedWritable :=
  MW (mw_layers s) (mw_world s) i (mw_vsize s) (mw_active_ops s) (mw_grow_active s).
Definition set_gate (s : MergedWritable) (n : Z) (g : bool) : MergedWritable :=
  MW (mw_layers s) (mw_world s) (mw_index s) (mw_vsize s) n g.
Definition set_vsize (s : MergedWritable) (v : Z) : MergedWritable :=
  MW (mw_layers s) (mw_world s) (mw_index s) v (mw_active_ops s) (mw_grow_active s).

Definition on_world {A} (m : io (T * W) A) : io MergedWritable A := fun s =>
  let '(r, x) := m (mw_world s) in (r, set_world s x).

(** Tag 0 is the writable top; tags from 1 on index the read-only layers. *)
Definition mw_sources (s : MergedWritable) : list (BlobSource (T * W)) :=
  Src (wl_virtual_size (mw_top s)) (fun count off => on_fst (wl_data_pread count off)) ::
  ((fun l => Src (src_size (l_src l)) (fun count off => on_snd (src_pread (l_src l) count off))) <$> mw_layers s).

(** *** Gates *)

Definition begin_data_op (offset len : Z) : io MergedWritable unit := fun s =>
  if mw_grow_active s then (Err (Errno EBUSY), s) else
  if (mw_vsize s <? offset) || (mw_vsize s - offset <? len) then (Err (Errno EINVAL), s) else
  (Ok tt, set_gate s (u32 (mw_active_ops s + 1)) (mw_grow_active s)).
Definition begin_flush_op : io MergedWritable unit := fun s =>
  if mw_grow_active s then (Err (Errno EBUSY), s) else
  (Ok tt, set_gate s (u32 (mw_active_ops s + 1)) (mw_grow_active s)).
Definition begin_grow_op : io MergedWritable unit := fun s =>
  if mw_grow_active s || negb (mw_active_ops s =? 0) then (Err (Errno EBUSY), s) else
  (Ok tt, set_gate s (mw_active_ops s) true).
Definition end_data_op (s : MergedWritable) : MergedWritable :=
  set_gate s (u32 (mw_active_ops s - 1)) (mw_grow_active s).
Definition end_grow_op (s : MergedWritable) : MergedWritable := set_gate s (mw_active_ops s) false.

(** *** The snapshot *)

(** [segments_snapshot] throws [EIO] when the top's view needs repair. *)
Definition rebuild_index : io MergedWritable unit := fun s =>
  if negb (wl_snapshot_ok (mw_top s)) then (Err (Errno EIO), set_index s None) else
  match merge_indexes (wl_segments (mw_top s) :: (l_segments <$> mw_layers s)) [] with
  | Ok next => (Ok tt, set_index s (Some next))
  | Err f => (Err f, set_index s None)
  end.

(** The [append] lambda: the entry joined the previous one. *)
Definition range_append (next : list segment_mapping) (m : segment_mapping)
    : list segment_mapping * bool :=
  if s_length m =? 0 then (next, false) else
  match last next with
  | Some prior =>
      if (seg_end prior =? s_offset m) && (s_tag prior =? s_tag m) &&
         eqb (s_zeroed prior) (s_zeroed m) &&
         (s_zeroed m || (u64 (s_moffset prior + s_length prior) =? s_moffset m)) &&
         (s_length prior + s_length m <=? kMaxLength)
      then (removelast next ++ [with_length prior (u32 (s_length prior + s_length m))], true)
      else (next ++ [m], false)
  | None => (next ++ [m], false)
  end.

(** The part of the top's index inside the range; [None] if it leaves a gap. *)
Fixpoint splice_top (it : list segment_mapping) (lo hi cursor : Z) (next : list segment_mapping)
    : option (list segment_mapping * Z) :=
  match it with
  | [] => Some (next, cursor)
  | m :: it =>
      if s_offset m <? hi then
        let first := Z.max lo (s_offset m) in
        let last := Z.min hi (seg_end m) in
        if negb (first =? cursor) then None else
        let m := Seg first (u32 (last - first))
                   (if s_zeroed m then s_moffset m else u64 (s_moffset m + (first - s_offset m)))
                   (s_zeroed m) 0 in
        splice_top it lo hi last (range_append next m).1
      else Some (next, cursor)
  end.

(** The old entries past the range, until one does not join. *)
Fixpoint splice_rest (it next : list segment_mapping) : list segment_mapping :=
  match it with
  | [] => next
  | m :: it =>
      let '(next, merged) := range_append next m in
      if (merged : bool) then splice_rest it next else next ++ it
  end.

Definition splice_left (old : list segment_mapping) (lo : Z) : list segment_mapping :=
  let k := upper_bound (fun m => lo <? seg_end m) old in
  let next := take k old in
  match drop k old with
  | first :: _ => if s_offset first <? lo
                  then (range_append next (with_length first (u32 (lo - s_offset first)))).1 else next
  | [] => next
  end.

Definition splice_right (old : list segment_mapping) (hi : Z) (next : list segment_mapping)
    : list segment_mapping :=
  match drop (upper_bound (fun m => hi <? seg_end m) old) old with
  | m :: it =>
      if s_offset m <? hi then
        let delta := hi - s_offset m in
        let tail := Seg hi (u32 (s_length m - u32 delta))
                      (if s_zeroed m then s_moffset m else u64 (s_moffset m + delta))
                      (s_zeroed m) (s_tag m) in
        splice_rest it (range_append next tail).1
      else splice_rest (m :: it) next
  | [] => next
  end.

Definition splice (old top : list segment_mapping) (lo hi : Z) : option (list segment_mapping) :=
  match splice_top (drop (upper_bound (fun m => lo <? seg_end m) top) top) lo hi lo (splice_left old lo) with
  | Some (next, cursor) =>
      if negb (cursor =? hi) then None else
      let next := splice_right old hi next in
      if kMaxRoIndexSize <? zlen next then None else Some next
  | None => None
  end.

Definition rebuild_range (offset count : Z) : io MergedWritable unit := fun s =>
  if negb wl_local || (count =? 0) then rebuild_index s else
  match mw_index s with
  | None => rebuild_index s
  | Some old =>
      if negb (wl_snapshot_ok (mw_top s)) then (Err (Errno EIO), set_index s None) else
      let lo := offset / kAlignment in
      let hi := u64 (lo + count / kAlignment) in
      match splice old (wl_segments (mw_top s)) lo hi with
      | Some next => (Ok tt, set_index s (Some next))
      | None => rebuild_index s
      end
  end.

(** *** The view of a mutation in progress *)

Section View.
Context (sources : list (BlobSource (T * W))) (start_sec end_sec : Z).

(** Unlike the public read, a short read of a source is an error. *)
Fixpoint view_loop (fuel : nat) (it : list segment_mapping) (cur : Z) (out : bytes) : io (T * W) bytes :=
  if cur <? end_sec then
    match fuel with
    | O => io_fail Fuel
    | S fuel =>
        let at_cur := sector_bytes (cur - start_sec) in
        match it with
        | [] =>
            out ← io_lift (mem_zero out at_cur (sector_bytes (end_sec - cur)));
            view_loop fuel [] end_sec out
        | s :: it' =>
            if cur <? s_offset s then
              let next := Z.min end_sec (s_offset s) in
              out ← io_lift (mem_zero out at_cur (sector_bytes (next - cur)));
              view_loop fuel it next out
            else
              let next := Z.min end_sec (seg_end s) in
              let length := sector_bytes (u64 (next - cur)) in
              out ← (if s_zeroed s then io_lift (mem_zero out at_cur length)
                     else match sources !! Z.to_nat (s_tag s) with
                          | None => io_fail Undefined
                          | Some src =>
                              r ← src_pread src length (sector_bytes (u64 (s_moffset s + cur - s_offset s)));
                              out ← io_lift (mem_write out at_cur r);
                              if zlen r =? length then mret out else io_fail (Errno EIO)
                          end);
              view_loop fuel (if next =? seg_end s then it' else it) next out
        end
    end
  else mret out.
End View.

Definition MutationView (s : MergedWritable) : BlobSource (T * W) :=
  let size_ := mw_vsize s in
  Src size_ (fun count offset =>
    if negb (offset mod kAlignment =? 0) || negb (count mod kAlignment =? 0) then io_fail (Errno EINVAL) else
    match mw_index s with
    | None => io_fail (Errno EIO)
    | Some index =>
        if size_ <=? offset then mret [] else
        let count := Z.min count (size_ - offset) in
        let start := offset / kAlignment in
        let end_ := u64 (offset + count) / kAlignment in
        let it := drop (upper_bound (fun m => start <? seg_end m) index) index in
        view_loop (mw_sources s) start end_ (2 * length it + 2) it start (uninit count)
    end).

(** *** Operations *)

Definition misaligned (offset count : Z) : bool :=
  negb (offset mod kAlignment =? 0) || negb (count mod kAlignment =? 0).

(** The read once it is admitted. *)
Definition read_snapshot (count offset : Z) : io MergedWritable bytes := fun s =>
  if mw_vsize s <=? offset then (Ok [], s) else
  let count := if mw_vsize s - offset <? count then mw_vsize s - offset else count in
  if count =? 0 then (Ok [], s) else
  let start_sec := offset / kAlignment in
  let end_sec := u64 (offset + count) / kAlignment in
  match mw_index s with
  | None => (Err (Errno EIO), s)
  | Some index =>
      let it := drop (upper_bound (fun m => start_sec <? seg_end m) index) index in
      on_world (pread_loop (mw_sources s) start_sec end_sec (2 * length it + 2) it start_sec (uninit count)) s
  end.

Definition mw_pread (count offset : Z) : io MergedWritable bytes := fun s =>
  if misaligned offset count then (Err (Errno EINVAL), s) else
  if wl_serialize || wl_requires_view then
    match begin_flush_op s with
    | (Err f, s) => (Err f, s)
    | (Ok _, s) => let '(r, s) := read_snapshot count offset s in (r, end_data_op s)
    end
  else read_snapshot count offset s.

(** The result of a mutation and of the repair after it. *)
Definition repaired {A} (r : res A) (rebuild : res unit) : res A :=
  match r with
  | Err f => Err f
  | Ok a => match rebuild with Ok _ => Ok a | Err f => Err f end
  end.

(** Exactly the same mappings, by the top's own account. *)
Definition unrevised (before after : option Z) : bool :=
  match before, after with
  | Some a, Some b => a =? b
  | _, _ => false
  end.

Definition pwrite_admitted (buf : bytes) (offset : Z) : io MergedWritable Z := fun s =>
  if misaligned offset (zlen buf) then (Err (Errno EINVAL), s) else
  let revision := wl_revision (mw_top s) in
  let valid_snapshot := bool_decide (is_Some (mw_index s)) in
  let '(prepared, s) := if wl_requires_view && negb valid_snapshot then rebuild_index s else (Ok tt, s) in
  match prepared with
  | Err f => (Err f, s)
  | Ok _ =>
      let '(r, s) := on_world (if wl_requires_view then wl_pwrite_with_view (MutationView s) buf offset
                               else on_fst (wl_pwrite buf offset)) s in
      let '(rebuild, s) :=
        match r with
        | Ok n => if valid_snapshot && unrevised revision (wl_revision (mw_top s)) then (Ok tt, s)
                  else if n =? zlen buf then rebuild_range offset (zlen buf) s else rebuild_index s
        | Err _ => rebuild_index s
        end in
      (repaired r rebuild, s)
  end.
Definition mw_pwrite (buf : bytes) (offset : Z) : io MergedWritable Z := fun s =>
  match begin_data_op offset (zlen buf) s with
  | (Err f, s) => (Err f, s)
  | (Ok _, s) => let '(r, s) := pwrite_admitted buf offset s in (r, end_data_op s)
  end.

Definition discard_admitted (offset len : Z) : io MergedWritable unit := fun s =>
  if misaligned offset len then (Err (Errno EINVAL), s) else
  let '(prepared, s) := if wl_requires_view then rebuild_index s else (Ok tt, s) in
  match prepared with
  | Err f => (Err f, s)
  | Ok _ =>
      let '(r, s) := on_world (if wl_requires_view then wl_discard_with_view (MutationView s) offset len
                               else on_fst (wl_discard offset len)) s in
      let '(rebuild, s) := match r with Ok _ => rebuild_range offset len s | Err _ => rebuild_index s end in
      (repaired r rebuild, s)
  end.
Definition mw_discard (offset len : Z) : io MergedWritable unit := fun s =>
  match begin_data_op offset len s with
  | (Err f, s) => (Err f, s)
  | (Ok _, s) => let '(r, s) := discard_admitted offset len s in (r, end_data_op s)
  end.

(** The repair after an operation that notifies a change of the index. *)
Definition rebuild_changed (before : Z) : io MergedWritable unit := fun s =>
  if negb (wl_generation (mw_top s) =? before) then rebuild_index s else (Ok tt, s).

Definition mw_flush : io MergedWritable unit := fun s =>
  match begin_flush_op s with
  | (Err f, s) => (Err f, s)
  | (Ok _, s) =>
      let before := wl_generation (mw_top s) in
      let '(r, s) := on_world (on_fst wl_flush) s in
      let '(rebuild, s) := rebuild_changed before s in
      (repaired r rebuild, end_data_op s)
  end.

Definition mw_grow (vsize : Z) : io MergedWritable unit := fun s =>
  if (vsize =? 0) || negb (vsize mod kAlignment =? 0) then (Err (Errno EINVAL), s) else
  match begin_grow_op s with
  | (Err f, s) => (Err f, s)
  | (Ok _, s) =>
      let '(r, s) :=
        if vsize <? mw_vsize s then (Err (Errno EINVAL), s) else
        if vsize =? mw_vsize s then (Ok tt, s) else
        let '(r, s) :=
          if wl_virtual_size (mw_top s) <? vsize then
            let before := wl_generation (mw_top s) in
            let '(r, s) := on_world (on_fst (wl_grow vsize)) s in
            let '(rebuild, s) := rebuild_changed before s in
            (repaired r rebuild, s)
          else (Ok tt, s) in
        match r with Ok _ => (Ok tt, set_vsize s vsize) | Err f => (Err f, s) end in
      (r, end_grow_op s)
  end.

Definition mw_open (layers_bottom_up : list (LsmtLayer W)) (top : option T) (w : W) : res MergedWritable :=
  match top with
  | None => Err (Errno EINVAL)
  | Some top =>
      let layers := reverse layers_bottom_up in
      let vsize := foldl (fun v l => Z.max v (virtual_size l)) (wl_virtual_size top) layers in
      let '(r, out) := rebuild_index (MW layers (top, w) None vsize 0 false) in
      match r with Ok _ => Ok out | Err f => Err f end
  end.
End Device.
Arguments MergedWritable : clear implicits.

(** ** The splice *)

Lemma range_append_spec acc m :
  index_ok 0 acc -> seg_ok m -> end_from 0 acc <= s_offset m ->
  let acc' := (range_append acc m).1 in
  extends 0 acc (resolve [m]) (fin m) acc' /\ end_from 0 acc' = fin m.
Proof.
  intros Hacc Hm He. pose proof Hm as (Hm0 & Hml & _).
  assert (extends 0 acc (resolve [m]) (fin m) (acc ++ [m]) /\ end_from 0 (acc ++ [m]) = fin m) as Happ.
  { rewrite end_from_snoc. split; [|done]. split; [|split; [rewrite end_from_snoc; lia|apply resolve_app with (k := [m])]].
    apply index_ok_app. split; [done|]. apply index_ok_cons. eauto using index_ok_nil. }
  unfold range_append. rewrite (proj2 (Z.eqb_neq _ 0)) by lia.
  destruct acc as [|p acc _] using rev_ind; [done|]. rewrite last_snoc. case_if; [|done]. cbn [fst].
  rewrite removelast_last. apply index_ok_app in Hacc as [Hacc Hp].
  apply index_ok_cons in Hp as (Hp & Hpz & _). rewrite end_from_snoc in *.
  rewrite seg_ok_end in * by done. apply eqb_prop in H2. pose proof Hp as (_ & Hpl & Hpm & _ & Hpe).
  assert (s_zeroed m = false -> s_moffset p + s_length p = s_moffset m) as Hmo.
  { intros Hz. rewrite Hz in *. specialize (Hpe H2). simpl in *. rewrite u64_small in * by lia. by bool_hyps. }
  unfold kMaxLength in *. rewrite u32_small in * by lia.
  destruct (fuse_ok p m) as (Hf & Hff & Hfr); try done; [unfold kMaxLength; lia|].
  split; [|done]. split; [|split; [rewrite end_from_snoc; lia|]].
  - apply index_ok_app. split; [done|]. apply index_ok_cons. eauto using index_ok_nil.
  - intros x. rewrite !resolve_app, Hfr, over_assoc. f_equal. by rewrite <- resolve_app.
Qed.

(** A list cut at the first entry that ends past [x]. *)
Lemma cut_at x l :
  index_ok 0 l ->
  let k := upper_bound (fun m => x <? seg_end m) l in
  index_ok 0 (take k l) /\ end_from 0 (take k l) <= Z.max 0 x /\
  index_ok (end_from 0 (take k l)) (drop k l) /\
  (match drop k l with [] => True | m :: _ => x < fin m end).
Proof.
  intros Hl k. destruct (upper_bound_spec _ l (sorted_ends_partitioned 0 x l Hl)) as [H1 H2]. fold k in H1, H2.
  pose proof Hl as Hl'. rewrite <- (take_drop k l) in Hl'. apply index_ok_app in Hl' as [L1 L2].
  split; [done|]. split; [|split; [done|]].
  - destruct (take k l) as [|m L _] using rev_ind; [simpl; lia|]. rewrite end_from_snoc.
    apply Forall_app in H1 as [_ H1]. apply Forall_cons in H1 as [H1 _].
    apply index_ok_app in L1 as [_ L1]. apply index_ok_cons in L1 as (Hm & _). rewrite seg_ok_end in H1 by done.
    bool_hyps. lia.
  - destruct (drop k l) as [|m R]; [done|]. apply Forall_cons in H2 as [H2 _].
    apply index_ok_cons in L2 as (Hm & _). rewrite seg_ok_end in H2 by done. by bool_hyps.
Qed.

(** What lies below and above the range. *)
Definition below_of (lo x : Z) (c : cell) : cell := if x <? lo then c else Hole.
Definition from_of (hi x : Z) (c : cell) : cell := if hi <=? x then c else Hole.

Lemma splice_left_spec old lo :
  index_ok 0 old -> 0 <= lo ->
  let next := splice_left old lo in
  index_ok 0 next /\ end_from 0 next <= lo /\
  forall x, resolve next x = below_of lo x (resolve old x).
Proof.
  intros Hold Hlo. destruct (cut_at lo old Hold) as (H1 & H2 & H3 & H4). unfold splice_left.
  set (k := upper_bound _ old) in *. set (L := take k old) in *.
  assert (forall x, resolve old x = over (resolve L x) (resolve (drop k old) x)) as Hr
    by (intros x; rewrite <- resolve_app; unfold L; by rewrite take_drop).
  rewrite Z.max_r in H2 by done. destruct (drop k old) as [|m R].
  - split; [done|]. split; [done|]. intros x. rewrite Hr, over_hole_r. unfold below_of. case_if; [done|].
    eapply resolve_above; [exact H1|lia].
  - apply index_ok_cons in H3 as (Hm & Hmo & HR). pose proof Hm as (M1 & M2 & M3 & M4 & M5).
    destruct (Z.ltb_spec (s_offset m) lo).
    + destruct (trim_head_ok lo m Hm ltac:(lia)) as (C1 & C2 & C3 & C4).
      destruct (range_append_spec L (trim_head lo m) H1 C1 ltac:(lia)) as [(A1 & _ & A3) A4].
      split; [exact A1|]. split; [fold (trim_head lo m); lia|]. intros x. fold (trim_head lo m). rewrite A3.
      unfold below_of. case_if; [rewrite C4 by done|rewrite (resolve_above 0 L x H1) by lia].
      * rewrite Hr. change (m :: R) with ([m] ++ R). rewrite resolve_app, (resolve_below _ R x HR) by lia.
        by rewrite over_hole_r.
      * simpl. by rewrite (proj2 (covers_false _ x)) by lia.
    + split; [done|]. split; [done|]. intros x. rewrite Hr. unfold below_of. case_if.
      * rewrite (resolve_below (s_offset m) (m :: R)); [by rewrite over_hole_r| |lia].
        apply index_ok_cons. done.
      * eapply resolve_above; [exact H1|lia].
Qed.

Lemma splice_tail_is m hi :
  seg_ok m -> s_offset m < hi < fin m ->
  Seg hi (u32 (s_length m - u32 (hi - s_offset m)))
    (if s_zeroed m then s_moffset m else u64 (s_moffset m + (hi - s_offset m))) (s_zeroed m) (s_tag m) =
  trim_tail hi m.
Proof.
  intros Hm Hh. unfold trim_tail. rewrite seg_ok_end by done. destruct Hm as (M1 & M2 & _).
  unfold fin, kMaxLength, kMaxOffset in *. rewrite (u32_small (hi - _)) by lia. do 2 f_equal. lia.
Qed.

Lemma splice_rest_spec it : forall next,
  index_ok 0 next -> index_ok (end_from 0 next) it ->
  let l := splice_rest it next in
  index_ok 0 l /\ forall x, resolve l x = over (resolve next x) (resolve it x).
Proof.
  induction it as [|m it IH]; intros next Hn Hi; cbn [splice_rest].
  { split; [done|]. intros x. by rewrite over_hole_r. }
  apply index_ok_cons in Hi as (Hm & Ho & Hi).
  destruct (range_append_spec next m Hn Hm Ho) as [(A1 & _ & A3) A4].
  destruct (range_append next m) as [next' merged]. cbn [fst] in *.
  assert (index_ok (end_from 0 next') it) as Hi' by (by rewrite A4).
  assert (forall x, over (resolve next' x) (resolve it x) = over (resolve next x) (resolve (m :: it) x)) as Hx.
  { intros x. rewrite A3, over_assoc. f_equal. change (m :: it) with ([m] ++ it). by rewrite resolve_app. }
  destruct merged.
  - destruct (IH next' A1 Hi') as [I1 I2]. split; [done|]. intros x. by rewrite I2.
  - split; [by apply index_ok_app|]. intros x. by rewrite resolve_app.
Qed.

Lemma splice_right_spec old hi next :
  index_ok 0 old -> 0 <= hi <= kMaxOffset -> index_ok 0 next -> end_from 0 next <= hi ->
  let l := splice_right old hi next in
  index_ok 0 l /\ forall x, resolve l x = over (resolve next x) (from_of hi x (resolve old x)).
Proof.
  intros Hold Hhi Hn He. destruct (cut_at hi old Hold) as (H1 & H2 & H3 & H4). unfold splice_right.
  set (k := upper_bound _ old) in *. set (L := take k old) in *.
  assert (forall x, resolve old x = over (resolve L x) (resolve (drop k old) x)) as Hr
    by (intros x; rewrite <- resolve_app; unfold L; by rewrite take_drop).
  rewrite Z.max_r in H2 by lia.
  assert (forall x, from_of hi x (resolve old x) = from_of hi x (resolve (drop k old) x)) as Hf.
  { intros x. unfold from_of. case_if; [|done]. by rewrite Hr, (resolve_above 0 L x H1) by lia. }
  destruct (drop k old) as [|m R].
  { split; [done|]. intros x. rewrite Hf. unfold from_of. case_if; by rewrite over_hole_r. }
  apply index_ok_cons in H3 as (Hm & Hmo & HR). destruct (Z.ltb_spec (s_offset m) hi).
  - rewrite splice_tail_is by (done || lia). destruct (trim_tail_ok hi m Hm ltac:(lia) ltac:(lia)) as (C1 & C2 & C3 & C4).
    destruct (range_append_spec next (trim_tail hi m) Hn C1 ltac:(lia)) as [(A1 & _ & A3) A4].
    destruct (splice_rest_spec R _ A1) as [I1 I2]; [by rewrite A4, C2|]. split; [done|]. intros x.
    rewrite I2, A3, over_assoc, Hf. f_equal. change (m :: R) with ([m] ++ R). rewrite resolve_app.
    unfold from_of. case_if; [by rewrite C4|]. simpl. rewrite (proj2 (covers_false _ x)) by lia. simpl.
    eapply resolve_below; [exact HR|]. lia.
  - destruct (splice_rest_spec (m :: R) next Hn) as [I1 I2]; [apply index_ok_cons; split; [done|split; [lia|done]]|].
    split; [done|]. intros x. rewrite I2, Hf. f_equal. unfold from_of. case_if; [done|].
    eapply resolve_below; [by apply index_ok_cons; split; [done|split; [reflexivity|done]]|]. lia.
Qed.

(** The entry the splice takes from the top is the one the merge would take. *)
Lemma splice_entry_is lo hi m :
  seg_ok m -> 0 <= lo < hi -> hi <= kMaxOffset -> lo < fin m -> s_offset m < hi ->
  let first := Z.max lo (s_offset m) in
  Seg first (u32 (Z.min hi (seg_end m) - first))
    (if s_zeroed m then s_moffset m else u64 (s_moffset m + (first - s_offset m))) (s_zeroed m) 0 =
  with_tag (clip lo hi m) 0.
Proof.
  intros Hm Hlo Hhi Hf Ho. pose proof Hm as (M1 & M2 & M3 & _ & M5). unfold clip.
  rewrite seg_ok_end by done. unfold fin, kMaxLength, kMaxOffset in *. cbv zeta.
  destruct (Z.ltb_spec (s_offset m) lo).
  - rewrite Z.max_l by lia. rewrite (u64_small (lo - s_offset m)), (u32_small (s_length m - _)) by lia.
    unfold seg_end. cbn [s_offset s_length]. rewrite (u64_small (lo + _)) by lia.
    destruct (Z.ltb_spec hi (lo + (s_length m - (lo - s_offset m)))); unfold with_tag, with_length; cbn;
      f_equal; rewrite ?u32_small by lia; lia.
  - rewrite Z.max_r, Z.sub_diag, Z.add_0_r by lia. rewrite seg_ok_end by done. unfold fin.
    assert ((if s_zeroed m then s_moffset m else u64 (s_moffset m)) = s_moffset m) as ->
      by (destruct (s_zeroed m); [done|apply u64_small; lia]).
    destruct (Z.ltb_spec hi (s_offset m + s_length m)); unfold with_tag, with_length; cbn;
      f_equal; rewrite ?u32_small by lia; lia.
Qed.

Lemma later_ends a it : index_ok a it -> Forall (fun s => a < fin s) it.
Proof.
  revert a. induction it as [|s it IH]; intros a Hit; [done|].
  apply index_ok_cons in Hit as (Hs & Ha & Hit). pose proof Hs as (_ & Hl & _). constructor; [unfold fin; lia|].
  eapply Forall_impl; [apply (IH (fin s) Hit)|]. cbv beta. unfold fin. lia.
Qed.

Lemma splice_top_spec it lo hi : forall z cursor next next' cursor',
  0 <= lo < hi -> hi <= kMaxOffset -> lo <= cursor <= hi ->
  index_ok z it -> Forall (fun m => s_offset m < hi -> cursor < fin m) it ->
  index_ok 0 next -> end_from 0 next <= cursor ->
  splice_top it lo hi cursor next = Some (next', cursor') ->
  index_ok 0 next' /\ end_from 0 next' <= cursor' /\ cursor <= cursor' <= hi /\
  (forall x, resolve next' x = over (resolve next x) (within cursor cursor' x (retag 0 (resolve it x)))) /\
  forall x, cursor <= x < cursor' -> resolve it x <> Hole.
Proof.
  induction it as [|m it IH]; intros z cursor next next' cursor' Hlo Hhi Hc Hit Hfin Hn He; cbn [splice_top].
  { intros [= <- <-]. split; [done|]. split; [done|]. split; [lia|]. split; [|lia].
    intros x. rewrite within_false by lia. by rewrite over_hole_r. }
  apply index_ok_cons in Hit as (Hm & Hz & Hit). apply Forall_cons in Hfin as [Hfm Hfin].
  destruct (Z.ltb_spec (s_offset m) hi) as [Ho|Ho].
  2: { intros [= <- <-]. split; [done|]. split; [done|]. split; [lia|]. split; [|lia].
       intros x. rewrite within_false by lia. by rewrite over_hole_r. }
  specialize (Hfm Ho). destruct (Z.eqb_spec (Z.max lo (s_offset m)) cursor) as [Ec|]; [|done]. cbn [negb].
  rewrite splice_entry_is by (done || lia).
  destruct (clip_ok lo hi m Hm) as (C1 & C2 & C3 & C4 & C5); [lia|lia|lia|lia|].
  assert (seg_ok (with_tag (clip lo hi m) 0)) as Ht by (apply seg_ok_retag; [done|lia]).
  destruct (range_append_spec next (with_tag (clip lo hi m) 0) Hn Ht) as [(A1 & _ & A3) A4].
  { cbn. lia. }
  change (fin (with_tag (clip lo hi m) 0)) with (fin (clip lo hi m)) in A4.
  rewrite seg_ok_end by done. intros Hs.
  assert (Forall (fun s => s_offset s < hi -> Z.min hi (fin m) < fin s) it) as Hfin' by (eapply Forall_impl; [apply (later_ends _ _ Hit)|]; cbv beta; lia).
  destruct (IH (fin m) (Z.min hi (fin m)) _ next' cursor' Hlo Hhi ltac:(lia) Hit Hfin' A1 ltac:(lia) Hs)
    as (I1 & I2 & I3 & I4 & I5).
  split; [done|]. split; [done|]. split; [lia|].
  assert (forall x, cursor <= x < Z.min hi (fin m) -> resolve (m :: it) x = resolve [m] x /\ resolve [m] x <> Hole) as Hin.
  { intros x Hx. simpl. rewrite (proj2 (covers_true m x)) by lia. split; [done|]. unfold seg_cell. by destruct (s_zeroed m). }
  assert (forall x, Z.min hi (fin m) <= x < cursor' -> resolve (m :: it) x = resolve it x) as Hout.
  { intros x Hx. simpl. by rewrite (proj2 (covers_false m x)) by lia. }
  split.
  - intros x. rewrite I4, A3, over_assoc. f_equal. rewrite resolve_retag, C5.
    destruct (decide (cursor <= x < Z.min hi (fin m))) as [H1|H1].
    + destruct (Hin x H1) as [E1 E2]. rewrite (within_true cursor cursor'), E1, (within_true lo hi) by lia.
      rewrite (within_false (Z.min hi (fin m))) by lia. by rewrite over_hole_r.
    + assert (within lo hi x (resolve [m] x) = Hole) as ->.
      { unfold within. case_if; [|done]. simpl. rewrite (proj2 (covers_false m x)); [done|]. lia. }
      cbn [retag over]. unfold within. destruct (decide (Z.min hi (fin m) <= x < cursor')) as [H2|H2].
      * rewrite (Hout x H2). rewrite !(proj2 (Z.leb_le _ _)), (proj2 (Z.ltb_lt _ _)) by lia. done.
      * case_if; case_if; done || lia.
  - intros x Hx. destruct (decide (x < Z.min hi (fin m))).
    + destruct (Hin x ltac:(lia)) as [-> ?]. done.
    + rewrite Hout by lia. apply I5. lia.
Qed.

(** The spliced index is the old one with the top's entries in the range, which
    they cover. *)
Lemma splice_spec old top lo hi next :
  index_ok 0 old -> index_ok 0 top -> 0 <= lo < hi -> hi <= kMaxOffset ->
  splice old top lo hi = Some next ->
  index_ok 0 next /\ zlen next <= kMaxRoIndexSize /\
  (forall x, lo <= x < hi -> resolve top x <> Hole) /\
  forall x, resolve next x =
    if (lo <=? x) && (x <? hi) then retag 0 (resolve top x) else resolve old x.
Proof.
  intros Hold Htop Hlo Hhi. unfold splice.
  destruct (splice_left_spec old lo Hold ltac:(lia)) as (L1 & L2 & L3).
  destruct (drop_upper_bound lo 0 top Htop) as [_ Hres].
  destruct (cut_at lo top Htop) as (_ & _ & T1 & _).
  destruct (upper_bound_spec _ top (sorted_ends_partitioned 0 lo top Htop)) as [_ Hab].
  set (it := drop _ top) in *.
  assert (Forall (fun m => s_offset m < hi -> lo < fin m) it) as Hfin.
  { destruct T1 as [T1 _]. rewrite Forall_forall in *. intros m Hm _. rewrite <- seg_ok_end by auto.
    specialize (Hab m Hm). by bool_hyps. }
  destruct (splice_top it lo hi lo (splice_left old lo)) as [[n1 c1]|] eqn:Hs; [|done].
  destruct (splice_top_spec it lo hi _ lo _ n1 c1 Hlo Hhi ltac:(lia) T1 Hfin L1 L2 Hs) as (S1 & S2 & S3 & S4 & S5).
  destruct (Z.eqb_spec c1 hi) as [->|]; [|done]. cbn [negb].
  destruct (splice_right_spec old hi n1 Hold ltac:(lia) S1 S2) as (R1 & R2).
  case_if; [done|]. intros [= <-]. split; [done|]. split; [done|].
  assert (forall x, lo <= x < hi -> resolve it x = resolve top x) as Hit by (intros x Hx; apply Hres; lia).
  split; [intros x Hx; rewrite <- Hit by done; by apply S5|].
  intros x. rewrite R2, S4, L3. unfold below_of, from_of. destruct (decide (lo <= x < hi)) as [Hx|Hx].
  - rewrite (within_true lo hi), Hit, (proj2 (Z.ltb_ge x lo)), (proj2 (Z.leb_gt hi x)) by lia.
    rewrite (proj2 (Z.leb_le lo x)), (proj2 (Z.ltb_lt x hi)) by lia. cbn [over andb]. apply over_hole_r.
  - rewrite (within_false lo hi) by lia. destruct (Z.ltb_spec x lo).
    + rewrite (proj2 (Z.leb_gt lo x)), (proj2 (Z.leb_gt hi x)) by lia. cbn [andb]. by rewrite !over_hole_r.
    + rewrite (proj2 (Z.leb_le lo x)), (proj2 (Z.ltb_ge x hi)), (proj2 (Z.leb_le hi x)) by lia. done.
Qed.

(** ** The contract of a writable layer *)

(** The byte the layer itself holds at [i] of the device, if any. *)
Definition top_byte {T W} `{WritableLayer T W} (payload : T -> Z -> Z) (t : T) (i : Z) : option Z :=
  match resolve (wl_segments t) (i / kAlignment) with
  | Hole => None
  | Zero => Some 0
  | Data _ p => Some (payload t (p * kAlignment + i mod kAlignment))
  end.

(** A mutation of the bytes [a .. b): where the layer answers, and what it says
    elsewhere; [D] is the view the mutation may copy from, by its size and bytes. *)
Definition mutated {T W} `{WritableLayer T W} (payload : T -> Z -> Z) (D : option (Z * (Z -> Z))) (a b : Z)
    (g : option (Z -> Z)) (t t' : T) : Prop :=
  wl_virtual_size t' = wl_virtual_size t /\
  (unrevised (wl_revision t) (wl_revision t') = true -> wl_segments t' = wl_segments t) /\
  (forall i, ~ a <= i < b -> top_byte payload t' i = top_byte payload t i \/
                             exists n d, D = Some (n, d) /\ 0 <= i < n /\ top_byte payload t' i = Some (d i)) /\
  (forall v, g = Some v -> (forall i, a <= i < b -> top_byte payload t' i = Some (v i)) /\
    (wl_local = true -> forall x, ~ a <= x * kAlignment < b ->
       resolve (wl_segments t') x = resolve (wl_segments t) x)).

(** The view [V] a mutation of [t] is given: its bytes [D t'] as long as the top
    is in the state [t'] apart from I/O, never more than its size, unaffected by
    what the mutation has stored elsewhere, and the top's own bytes where it has
    any. *)
Record current_view {T W} `{WritableLayer T W} (ok : T -> Prop) (same : T -> T -> Prop) (payload : T -> Z -> Z)
    (t : T) (V : BlobSource (T * W)) (D : T -> Z -> Z) : Prop := {
  cv_read : forall t', ok t' -> SourceInv (fun x => same t' x.1) any_errno V (D t');
  cv_bound : forall t' count off x bs x', ok t' -> same t' x.1 -> 0 <= count -> 0 <= off ->
    src_pread V count off x = (Ok bs, x') -> bs = [] \/ off + zlen bs <= src_size V;
  cv_local : forall t' i,
    (forall g p, resolve (wl_segments t) (i / kAlignment) = Data g p ->
       payload t' (p * kAlignment + i mod kAlignment) = payload t (p * kAlignment + i mod kAlignment)) ->
    D t' i = D t i;
  cv_top : forall i b, 0 <= i < src_size V -> top_byte payload t i = Some b -> D t i = b;
}.

(** [ok] is the state invariant of the layer, [same] says that only I/O has
    happened, [room] that so many more bytes can be stored, [discardable] that the
    layer is in a state to discard the range, [growable] that it is open for a
    growth. *)
Class WritableSpec {T W} `{WritableLayer T W} (ok : T -> Prop) (same : T -> T -> Prop)
    (payload : T -> Z -> Z) (room : T -> Z -> Prop) (discardable : T -> Z -> Z -> Prop) (growable : T -> Prop) : Prop := {
  ws_index : forall t, ok t -> index_ok 0 (wl_segments t);
  ws_vsize : forall t, ok t -> 0 <= wl_virtual_size t <= kMaxOffset * kAlignment;
  ws_refl : forall t, same t t;
  ws_same : forall t t', ok t -> same t t' ->
    ok t' /\ wl_segments t' = wl_segments t /\ wl_virtual_size t' = wl_virtual_size t /\
    forall i, payload t' i = payload t i;
  ws_read : forall t, ok t -> SourceInv (same t) any_errno (Src (wl_virtual_size t) wl_data_pread) (payload t);
  ws_pwrite : forall t buf off, wl_requires_view = false ->
    ok t -> room t (zlen buf) -> 0 <= off -> misaligned off (zlen buf) = false ->
    let '(r, t') := wl_pwrite buf off t in
    ok t' /\
    match r with
    | Ok n => n = zlen buf /\ mutated payload None off (off + zlen buf) (Some (fun i => bget buf (i - off))) t t'
    | Err f => any_errno f /\ mutated payload None off (off + zlen buf) None t t'
    end;
  ws_discard : forall t off len, wl_requires_view = false ->
    ok t -> discardable t off len -> 0 <= off -> 0 <= len -> misaligned off len = false ->
    let '(r, t') := wl_discard off len t in
    ok t' /\
    match r with
    | Ok _ => mutated payload None off (off + len) (Some (fun _ => 0)) t t'
    | Err f => any_errno f /\ mutated payload None off (off + len) None t t'
    end;
  ws_pwrite_view : forall t w V D buf off, wl_requires_view = true ->
    current_view ok same payload t V D -> ok t -> room t (zlen buf) -> 0 <= off -> misaligned off (zlen buf) = false ->
    let '(r, (t', _)) := wl_pwrite_with_view V buf off (t, w) in
    ok t' /\
    match r with
    | Ok n => n = zlen buf /\ mutated payload (Some (src_size V, D t)) off (off + zlen buf) (Some (fun i => bget buf (i - off))) t t'
    | Err f => any_errno f /\ mutated payload (Some (src_size V, D t)) off (off + zlen buf) None t t'
    end;
  ws_discard_view : forall t w V D off len, wl_requires_view = true ->
    current_view ok same payload t V D -> ok t -> discardable t off len -> 0 <= off -> 0 <= len -> misaligned off len = false ->
    let '(r, (t', _)) := wl_discard_with_view V off len (t, w) in
    ok t' /\
    match r with
    | Ok _ => mutated payload (Some (src_size V, D t)) off (off + len) (Some (fun _ => 0)) t t'
    | Err f => any_errno f /\ mutated payload (Some (src_size V, D t)) off (off + len) None t t'
    end;
  ws_flush : forall t, ok t ->
    let '(r, t') := wl_flush t in
    ok t' /\ wl_virtual_size t' = wl_virtual_size t /\
    (wl_generation t' = wl_generation t -> wl_segments t' = wl_segments t) /\
    (forall i, top_byte payload t' i = top_byte payload t i) /\
    match r with Ok _ => True | Err f => any_errno f end;
  ws_grow : forall t vs, ok t -> growable t ->
    let '(r, t') := wl_grow vs t in
    ok t' /\ (wl_generation t' = wl_generation t -> wl_segments t' = wl_segments t) /\
    (forall i, top_byte payload t' i = top_byte payload t i) /\
    match r with
    | Ok _ => wl_virtual_size t' = vs
    | Err f => any_errno f
    end;
}.

(** ** The mutation view *)

Section ViewLoop.
Context {T W : Type} (I : T * W -> Prop) (E : fail -> Prop) (sources : list (BlobSource (T * W))) (cs : list (Z -> Z)).
Context (Hspec : Forall2 (SourceInv I E) sources cs) (HE : E (Errno EIO)).
Context (index : list segment_mapping).
Context (Htags : forall s, s ∈ index -> s_zeroed s = false -> s_tag s < zlen sources).
Context (start_sec end_sec : Z).
Context (Hstart : 0 <= start_sec) (Hend : end_sec * kAlignment < 2 ^ 64).

Let f := index_content cs (resolve index).
Let off := start_sec * kAlignment.
Let N := (end_sec - start_sec) * kAlignment.
Let buf cur := filled f off ((cur - start_sec) * kAlignment) N.

Definition view_ok (it : list segment_mapping) (cur : Z) (need : nat) : Prop :=
  forall fuel, (need <= fuel)%nat ->
  io_inv I E (view_loop sources start_sec end_sec fuel it cur (buf cur))
    (fun out => out = slice f off N).

Lemma view_done it : start_sec <= end_sec -> view_ok it end_sec 0.
Proof. intros Hse fuel _. destruct fuel; simpl; rewrite Z.ltb_irrefl; apply io_inv_ret; apply filled_all. Qed.

Lemma view_piece s a b :
  s ∈ index -> seg_ok s -> s_zeroed s = false -> start_sec <= a < b -> b <= end_sec ->
  s_offset s <= a -> b <= fin s ->
  (forall x, a <= x < b -> resolve index x = seg_cell s x) ->
  io_inv I E
    (match sources !! Z.to_nat (s_tag s) with
     | None => io_fail Undefined
     | Some src =>
         r ← src_pread src (sector_bytes (u64 (b - a))) (sector_bytes (u64 (s_moffset s + a - s_offset s)));
         out ← io_lift (mem_write (buf a) (sector_bytes (a - start_sec)) r);
         if zlen r =? sector_bytes (u64 (b - a)) then mret out else io_fail (Errno EIO)
     end) (fun out => out = buf b).
Proof.
  intros Hin Hok Hz Hab Hb Ha Hfin Hres. pose proof Hok as (H1 & H2 & H3 & H4 & H5).
  specialize (H5 Hz). specialize (Htags s Hin Hz). unfold fin in *. unfold zlen in Htags.
  destruct (lookup_lt_is_Some_2 sources (Z.to_nat (s_tag s))) as [l Hl]; [lia|]. rewrite Hl.
  destruct (Forall2_lookup_l _ _ _ _ _ Hspec Hl) as (c & Hc & Hls).
  rewrite (u64_small (b - a)), (u64_small (s_moffset s + _ - _)) by lia.
  rewrite !sector_bytes_small by (unfold kAlignment in *; lia).
  eapply io_inv_bind; [apply inv_pread_ok; unfold kAlignment; lia|]. intros r Hr. pose proof (zlen_nonneg r).
  pose proof Hr as (_ & Hrl & _).
  eapply io_inv_bind; [eapply io_inv_lift_ok with (Q := eq _); [eapply deliver_filled; [| |exact Hr|]|done]|].
  - unfold kAlignment; lia.
  - unfold N, kAlignment in *; lia.
  - intros i Hi. unfold f, index_content, off, kAlignment in *.
    replace (start_sec * 512 + (a - start_sec) * 512 + i) with (i + a * 512) by lia.
    rewrite Z.div_add, Z_mod_plus_full by lia.
    pose proof (Z.div_mod i 512 ltac:(lia)) as Hdm. pose proof (Z.mod_pos_bound i 512 ltac:(lia)) as Hm.
    rewrite Hres by lia. unfold seg_cell, cell_byte, kAlignment. rewrite Hz, Hc. f_equal. lia.
  - intros ? <-. destruct (Z.eqb_spec (zlen r) ((b - a) * kAlignment)) as [->|]; [|by apply io_inv_fail].
    apply io_inv_ret. unfold buf, kAlignment. f_equal. lia.
Qed.

Let view_inv := loop_inv index start_sec end_sec.

Lemma view_segment s it cur need :
  view_inv (s :: it) cur -> s_offset s <= cur -> cur < end_sec ->
  (fin s <= end_sec -> view_ok it (fin s) need) -> view_ok (s :: it) cur (S need).
Proof.
  intros (Hc & Hrest & Hin & Hr) Ho Hlt IH fuel Hfuel. destruct fuel as [|fuel]; [lia|].
  pose proof Hrest as (Hs & Hf & Hit). cbn [view_loop].
  rewrite (proj2 (Z.ltb_lt cur end_sec)), (proj2 (Z.ltb_ge cur _)), seg_ok_end by done || lia.
  set (b := Z.min end_sec (fin s)).
  assert (forall x, cur <= x < b -> resolve index x = seg_cell s x) as Hcell.
  { intros x Hx. rewrite <- Hr by lia. apply resolve_head; [|lia]. split; [done|split; [lia|done]]. }
  eapply (io_inv_bind _ _ _ _ (fun out => out = buf b)).
  - destruct (s_zeroed s) eqn:Hz.
    + rewrite (u64_small (b - cur)) by (unfold kAlignment in *; lia).
      eapply io_inv_lift_ok; [|reflexivity]. apply zero_sectors; [done..|lia|lia|].
      intros x Hx. right. rewrite Hcell by done. unfold seg_cell. by rewrite Hz.
    + apply view_piece; try done; try lia. apply Hin, list_elem_of_here.
  - intros out ->. destruct (Z.eqb_spec b (fin s)).
    + replace b with (fin s) by lia. apply IH; lia.
    + replace b with end_sec by lia. apply (view_done (s :: it)); lia.
Qed.

Lemma view_zero it cur next need :
  view_inv it cur -> cur < next <= end_sec -> (forall x, cur <= x < next -> resolve it x = Hole) ->
  view_ok it next need -> forall fuel, (need <= fuel)%nat ->
  io_inv I E (out ← io_lift (mem_zero (buf cur) (sector_bytes (cur - start_sec)) (sector_bytes (next - cur)));
              view_loop sources start_sec end_sec fuel it next out)
    (fun out => out = slice f off N).
Proof.
  intros (Hc & _ & _ & Hr) Hn Hx IH fuel Hf. eapply (io_inv_bind _ _ _ _ (fun out => out = buf next)).
  - eapply io_inv_lift_ok; [|reflexivity]. apply zero_sectors; [done..|lia|lia|].
    intros x Hxx. left. rewrite <- Hr by lia. auto.
  - intros out ->. by apply IH.
Qed.

Lemma view_loop_spec it cur : view_inv it cur -> view_ok it cur (2 * length it + 2).
Proof.
  revert cur. induction it as [|s it IH]; intros cur Hinv; pose proof Hinv as (Hc & Hrest & Hin & Hr);
    (destruct (decide (cur = end_sec)) as [->|Hne]; [intros fuel _; apply view_done; lia|]).
  - intros [|fuel] Hf; [simpl in Hf; lia|]. cbn [view_loop].
    rewrite (proj2 (Z.ltb_lt cur end_sec)) by lia. eapply view_zero; [done|lia|done|apply view_done; lia|lia].
  - pose proof Hrest as (Hs & Hf & Hit). pose proof Hs as (_ & Hsl & _). unfold fin in *.
    assert (fin s <= end_sec -> view_ok it (fin s) (2 * length it + 2)) as IH'.
    { intros Hfe. apply IH. split; [unfold fin in *; lia|]. split; [by apply rest_ok_index|].
      split; [intros s' Hs'; by apply Hin, list_elem_of_further|].
      intros x Hx. rewrite <- Hr by (unfold fin in *; lia). simpl.
      by rewrite (proj2 (covers_false s x)) by (unfold fin in *; lia). }
    replace (2 * length (s :: it) + 2)%nat with (S (S (2 * length it + 2))) by (simpl; lia).
    destruct (decide (s_offset s <= cur)).
    + intros fuel Hfu. eapply view_segment; [done|done|lia|exact IH'|lia].
    + intros [|fuel] Hfu; [lia|]. cbn [view_loop].
      rewrite (proj2 (Z.ltb_lt cur end_sec)), (proj2 (Z.ltb_lt cur _)) by lia.
      set (next := Z.min end_sec (s_offset s)).
      eapply (view_zero _ _ _ (S (2 * length it + 2))); [done|lia|intros x Hx; apply (rest_below cur); done || lia| |lia].
      destruct (decide (end_sec <= s_offset s)).
      { replace next with end_sec by lia. intros fuel' _. apply (view_done (s :: it)); lia. }
      replace next with (s_offset s) by lia. apply view_segment; [|lia|lia|done].
      split; [lia|]. split; [split; [done|split; [unfold fin; lia|done]]|]. split; [done|].
      intros x Hx. apply Hr. lia.
Qed.

(** The whole read, from the first entry past its start. *)
Lemma view_read_spec :
  index_ok 0 index -> start_sec <= end_sec ->
  let it := drop (upper_bound (fun s => start_sec <? seg_end s) index) index in
  io_inv I E (view_loop sources start_sec end_sec (2 * length it + 2) it start_sec (uninit N))
    (fun out => out = slice f off N).
Proof.
  intros Hok Hse it. destruct (drop_upper_bound start_sec 0 index Hok) as [Hrest Hres].
  rewrite <- (filled_0 f off N). replace 0 with ((start_sec - start_sec) * kAlignment) at 1 by lia.
  apply view_loop_spec; [|done]. split; [lia|]. split; [exact Hrest|]. split; [|exact Hres].
  intros s Hs. unfold it in Hs. rewrite <- (take_drop (upper_bound (fun s => start_sec <? seg_end s) index)).
  apply elem_of_app. by right.
Qed.
End ViewLoop.

(** ** The device over layers that meet their contracts *)

Section Contract.
Context {T W : Type} `{WL : WritableLayer T W}.
Context (ok : T -> Prop) (same : T -> T -> Prop) (payload : T -> Z -> Z) (room : T -> Z -> Prop) (discardable : T -> Z -> Z -> Prop) (growable : T -> Prop).
Context `{WS : !WritableSpec ok same payload room discardable growable}.
Context (cs : list (Z -> Z)).

Definition stack (s : MergedWritable T W) : list (list segment_mapping) :=
  wl_segments (mw_top s) :: (l_segments <$> mw_layers s).

(** What the snapshot must say. *)
Definition stack_cell (segs : list segment_mapping) (layers : list (LsmtLayer W)) (x : Z) : cell :=
  within 0 kMaxOffset x (stack_resolve 0 (segs :: (l_segments <$> layers)) x).
Definition index_matches (segs : list segment_mapping) (layers : list (LsmtLayer W))
    (i : option (list segment_mapping)) : Prop :=
  match i with
  | None => True
  | Some index => index_ok 0 index /\ forall x, resolve index x = stack_cell segs layers x
  end.

Record mw_ok (s : MergedWritable T W) : Prop := {
  mo_top : ok (mw_top s);
  mo_layers : Forall (fun l => index_ok 0 (l_segments l)) (mw_layers s);
  mo_count : zlen (mw_layers s) + 1 <= 256;
  mo_sources : Forall2 (fun l c => SourceSpec any_errno (l_src l) c) (mw_layers s) cs;
  mo_index : index_matches (wl_segments (mw_top s)) (mw_layers s) (mw_index s);
  mo_vsize : 0 <= mw_vsize s;
  mo_aligned : mw_vsize s mod kAlignment = 0;
  mo_capacity : mw_vsize s <= kMaxOffset * kAlignment;
}.

(** The bytes of the device: the topmost layer that covers the sector. *)
Definition contents (s : MergedWritable T W) : list (Z -> Z) :=
  payload (mw_top s) :: layer_extents (mw_layers s) cs.
Definition device (s : MergedWritable T W) (i : Z) : Z :=
  index_content (contents s) (stack_cell (wl_segments (mw_top s)) (mw_layers s)) i.

(** The bytes of the layers below the top. *)
Definition lower_byte (layers : list (LsmtLayer W)) (i : Z) : Z :=
  cell_byte ((fun _ => 0) :: layer_extents layers cs)
    (stack_resolve 1 (l_segments <$> layers) (i / kAlignment)) (i mod kAlignment).

Lemma device_split (s : MergedWritable T W) i :
  0 <= i < kMaxOffset * kAlignment ->
  device s i = match top_byte payload (mw_top s) i with Some b => b | None => lower_byte (mw_layers s) i end.
Proof.
  intros Hi. unfold device, index_content, stack_cell, top_byte, lower_byte. unfold kAlignment in *.
  assert (0 <= i / 512 < kMaxOffset) as Hx
    by (split; [apply Z.div_pos; lia|apply Z.div_lt_upper_bound; lia]).
  rewrite within_true by done. cbn [stack_resolve].
  destruct (resolve (wl_segments (mw_top s)) (i / 512)) as [| |t p]; [|done|done]. cbn [retag over].
  replace (0 + 1) with 1 by done.
  destruct (stack_resolve 1 (l_segments <$> mw_layers s) (i / 512)) as [| |t p] eqn:Hr; [done|done|].
  pose proof (stack_resolve_level _ _ _ _ _ Hr) as Ht. unfold cell_byte, contents.
  by replace (Z.to_nat t) with (S (Z.to_nat (t - 1))) by lia.
Qed.

Lemma stack_wf s : mw_ok s -> Forall (index_ok 0) (stack s) /\ zlen (stack s) <= 256.
Proof.
  intros [H1 H2 H3 _ _ _ _ _]. split.
  - constructor; [by apply ws_index|]. by apply Forall_fmap.
  - unfold stack. rewrite zlen_cons, zlen_fmap. lia.
Qed.

(** *** Repairing the snapshot *)

(** The snapshot of a device whose top has just changed. *)
Definition stale (s : MergedWritable T W) : Prop := mw_ok (set_index s None).

Lemma rebuild_index_spec (s : MergedWritable T W) :
  stale s ->
  let '(r, s') := rebuild_index s in
  mw_ok s' /\ (exists i, s' = set_index s i /\ (is_ok r = true -> is_Some i)) /\
  match r with Ok _ => True | Err f => any_errno f end.
Proof.
  intros Hs. destruct (stack_wf _ Hs) as [Hw Hn]. unfold rebuild_index. fold (stack s).
  change (stack (set_index s None)) with (stack s) in *.
  destruct Hs as [H1 H2 H3 H4 _ H6 H7 H8].
  destruct (wl_snapshot_ok (mw_top s)); cbn [negb]; [|split; [by split|]; split; [by exists None|auto with errno]].
  destruct (merge_indexes (stack s) []) as [next|f] eqn:E.
  - destruct (merge_indexes_spec _ _ Hw Hn E) as (M1 & _ & M3).
    split; [by split|]. split; [exists (Some next); by split|done].
  - split; [by split|]. split; [by exists None|]. unfold merge_indexes in E.
    case_if_in E; [|done]. injection E as <-. auto with errno.
Qed.

(** The splice applies after a local mutation. *)
Lemma rebuild_range_spec (s : MergedWritable T W) segs off n :
  stale s -> index_matches segs (mw_layers s) (mw_index s) ->
  0 <= off -> 0 <= n -> misaligned off n = false -> off + n <= mw_vsize s ->
  (wl_local = true -> forall x, ~ off <= x * kAlignment < off + n ->
     resolve (wl_segments (mw_top s)) x = resolve segs x) ->
  let '(r, s') := rebuild_range off n s in
  mw_ok s' /\ (exists i, s' = set_index s i /\ (is_ok r = true -> is_Some i)) /\
  match r with Ok _ => True | Err f => any_errno f end.
Proof.
  intros Hs Hi Ho Hn Hal Hv Hloc. pose proof (rebuild_index_spec s Hs) as Hri. unfold rebuild_range.
  destruct wl_local; [|done]. cbn [negb orb]. destruct (Z.eqb_spec n 0) as [|Hn0]; [done|].
  destruct (mw_index s) as [old|]; [|done]. destruct Hi as [Hold Hcell].
  destruct (wl_snapshot_ok (mw_top s)); cbn [negb]; [|split; [by destruct Hs; split|]; split; [by exists None|auto with errno]].
  pose proof Hs as [H1 H2 H3 H4 _ H6 H7 H8]. cbn [mw_layers mw_top mw_world mw_vsize set_index] in *.
  unfold misaligned in Hal. bool_hyps. unfold kAlignment in *.
  pose proof (Z.div_mod off 512 ltac:(lia)) as Do. pose proof (Z.div_mod n 512 ltac:(lia)) as Dn.
  set (lo := off / 512) in *. set (k := n / 512) in *.
  assert (0 <= lo) by (apply Z.div_pos; lia). rewrite (u64_small (lo + k)) by (unfold kMaxOffset in *; lia).
  destruct (splice old (wl_segments (mw_top s)) lo (lo + k)) as [next|] eqn:Hsp; [|done].
  destruct (splice_spec old (wl_segments (mw_top s)) lo (lo + k) next) as (S1 & _ & S3 & S4);
    [done|by apply ws_index|lia|unfold kMaxOffset in *; lia|done|].
  split; [|split; [by exists (Some next)|done]]. split; try done. split; [done|]. intros x. rewrite S4.
  unfold stack_cell in *. cbn [mw_layers mw_world set_index stack_resolve].
  destruct (decide (lo <= x < lo + k)) as [Hx|Hx].
  - rewrite (proj2 (Z.leb_le lo x)), (proj2 (Z.ltb_lt x _)) by lia. cbn [andb].
    rewrite within_true by lia. specialize (S3 x Hx). change (mw_top (set_index s (Some next))) with (mw_top s).
    by destruct (resolve (wl_segments (mw_top s)) x).
  - replace ((lo <=? x) && (x <? lo + k)) with false by (destruct (Z.leb_spec lo x), (Z.ltb_spec x (lo + k)); done || lia).
    rewrite Hcell. cbn [stack_resolve]. change (mw_top (set_index s (Some next))) with (mw_top s).
    by rewrite (Hloc eq_refl) by lia.
Qed.

(** *** Reading *)

(** The bytes the snapshot shows once the payload of the top is that of [t]. *)
Definition contents_at (s : MergedWritable T W) (t : T) : list (Z -> Z) :=
  payload t :: layer_extents (mw_layers s) cs.
Definition device_at (s : MergedWritable T W) (t : T) (i : Z) : Z :=
  index_content (contents_at s t) (stack_cell (wl_segments (mw_top s)) (mw_layers s)) i.

Lemma sources_at s t :
  mw_ok s -> ok t -> Forall2 (SourceInv (fun x : T * W => same t x.1) any_errno) (mw_sources s) (contents_at s t).
Proof.
  intros [_ _ _ H4 _ _ _ _] Ht. constructor.
  - destruct (ws_read _ Ht) as [R]. split. intros count off Hc Ho x Hx. specialize (R count off Hc Ho x.1 Hx).
    cbn [src_pread] in *. unfold on_fst. by destruct (wl_data_pread count off x.1) as [[bs|f] t'].
  - induction H4 as [|l c layers cs' Hl _ IH]; [constructor|]. constructor; [|exact IH].
    destruct (spec_inv _ _ _ Hl) as [R]. split. intros count off Hc Ho x Hx.
    specialize (R count off Hc Ho x.2 I). cbn [src_pread] in *. unfold on_snd.
    destruct (src_pread (l_src l) count off x.2) as [[bs|f] w]; by destruct R.
Qed.

Lemma device_tags s index :
  mw_ok s -> mw_index s = Some index ->
  forall e, e ∈ index -> s_zeroed e = false -> s_tag e < zlen (mw_sources s).
Proof.
  intros [_ _ _ _ H5 _ _ _] Hi e He Hz. rewrite Hi in H5. destruct H5 as [Hok Hr].
  assert (seg_ok e) as (_ & Hl & _) by (destruct Hok as [Hf _]; rewrite Forall_forall in Hf; auto).
  pose proof (resolve_elem 0 e index (s_offset e) Hok He ltac:(unfold fin; lia)) as Hx. rewrite Hr in Hx.
  unfold stack_cell, within, seg_cell in Hx. rewrite Hz in Hx. case_if_in Hx; [|done].
  apply stack_resolve_level in Hx. rewrite zlen_cons, zlen_fmap in Hx.
  unfold mw_sources. rewrite zlen_cons, zlen_fmap. lia.
Qed.

(** Only I/O happened. *)
Definition same_device (s s' : MergedWritable T W) : Prop :=
  exists x, s' = set_world s x /\ same (mw_top s) x.1.

Lemma same_device_ok s s' :
  mw_ok s -> same_device s s' -> mw_ok s' /\ forall i, device s' i = device s i.
Proof.
  intros Hs (x & -> & Hx). pose proof Hs as [H1 H2 H3 H4 H5 H6 H7 H8].
  destruct (ws_same _ _ H1 Hx) as (S1 & S2 & S3 & S4). split.
  - split; try done; unfold mw_top in *; cbn [set_world mw_world mw_layers mw_index mw_vsize] in *; by rewrite ?S2, ?S3.
  - intros i. unfold device, contents, mw_top. cbn [set_world mw_world mw_layers]. rewrite S2.
    unfold index_content, cell_byte. destruct (stack_cell _ _ _) as [| |t p]; [done|done|].
    destruct (Z.to_nat t); [simpl; apply S4|done].
Qed.

Lemma sector_range_eq off n :
  0 <= off -> 0 <= n -> off mod kAlignment = 0 -> n mod kAlignment = 0 -> off + n < 2 ^ 64 ->
  let start := off / kAlignment in
  let end_ := u64 (off + n) / kAlignment in
  0 <= start <= end_ /\ end_ * kAlignment < 2 ^ 64 /\
  start * kAlignment = off /\ (end_ - start) * kAlignment = n.
Proof.
  intros Ho Hn Mo Mn Hl. unfold kAlignment in *. rewrite u64_small by lia. cbv zeta.
  pose proof (Z.div_mod off 512 ltac:(lia)) as Do. pose proof (Z.div_mod n 512 ltac:(lia)) as Dn.
  assert ((off + n) / 512 = off / 512 + n / 512) as ->.
  { rewrite Do, Mo, Z.add_0_r at 1. rewrite (Z.mul_comm 512), Z.div_add_l by lia. done. }
  pose proof (Z.div_pos off 512 ltac:(lia) ltac:(lia)). pose proof (Z.div_pos n 512 ltac:(lia) ltac:(lia)). lia.
Qed.

(** A read of a valid snapshot: exactly the bytes it shows. *)
Lemma snapshot_read s t index off n :
  mw_ok s -> ok t -> mw_index s = Some index -> 0 <= off -> 0 <= n -> misaligned off n = false ->
  off + n <= mw_vsize s ->
  let start := off / kAlignment in
  let end_ := u64 (off + n) / kAlignment in
  let it := drop (upper_bound (fun m => start <? seg_end m) index) index in
  let fuel := (2 * length it + 2)%nat in
  io_inv (fun x => same t x.1) any_errno
    (pread_loop (mw_sources s) start end_ fuel it start (uninit n)) (fun out => out = slice (device_at s t) off n) /\
  io_inv (fun x => same t x.1) any_errno
    (view_loop (mw_sources s) start end_ fuel it start (uninit n)) (fun out => out = slice (device_at s t) off n).
Proof.
  intros Hs Ht Hi Ho Hn Hal Hv start end_ it fuel. pose proof Hs as [_ _ _ _ H5 _ _ H8]. rewrite Hi in H5.
  destruct H5 as [Hok Hr]. unfold misaligned in Hal. bool_hyps.
  destruct (sector_range_eq off n) as (R1 & R2 & R3 & R4); [done|done|done|done|unfold kMaxOffset, kAlignment in *; lia|].
  fold start end_ in R1, R2, R3, R4.
  assert (forall out, out = slice (index_content (contents_at s t) (resolve index)) (start * kAlignment)
            ((end_ - start) * kAlignment) -> out = slice (device_at s t) off n) as Hd.
  { intros out ->. rewrite R3, R4. apply slice_ext. intros i _. unfold device_at, index_content. by rewrite Hr. }
  assert (uninit n = uninit ((end_ - start) * kAlignment)) as -> by (by rewrite R4).
  split; (eapply io_inv_mono; [|exact Hd]).
  - eapply index_read_spec; [by apply sources_at|by eapply device_tags|lia|done|done|lia].
  - eapply view_read_spec; [by apply sources_at|auto with errno|by eapply device_tags|lia|done|done|lia].
Qed.

(** The outcome of a read. *)
Definition reads_device (s : MergedWritable T W) (count offset : Z) (r : res bytes) (s' : MergedWritable T W) : Prop :=
  same_device s s' /\
  match r with
  | Ok bs => bs = slice (device s) offset (avail (mw_vsize s) count offset)
  | Err f => any_errno f
  end.

Lemma avail_aligned v count offset :
  v mod kAlignment = 0 -> misaligned offset count = false -> 0 <= offset < v ->
  let n := if v - offset <? count then v - offset else count in
  misaligned offset n = false /\ n <= v - offset /\ avail v count offset = n.
Proof.
  intros Hv Hal Hlt. unfold misaligned in *. bool_hyps. unfold avail, kAlignment in *. cbv zeta. case_if.
  - rewrite Zminus_mod, Hv, H, Z.mod_0_l by lia. split; [done|]. lia.
  - rewrite H, H0. split; [done|]. lia.
Qed.

Lemma read_snapshot_spec s count offset :
  mw_ok s -> 0 <= offset -> 0 <= count -> misaligned offset count = false ->
  let '(r, s') := read_snapshot count offset s in
  reads_device s count offset r s' /\
  (mw_index s = None -> offset < mw_vsize s -> 0 < count -> r = Err (Errno EIO)).
Proof.
  intros Hs Ho Hc Hal. assert (same_device s s) as Hrefl.
  { exists (mw_world s). split; [by destruct s|apply ws_refl]. }
  unfold read_snapshot. destruct (Z.leb_spec (mw_vsize s) offset).
  { split; [|lia]. split; [done|]. unfold avail. rewrite slice_nil by lia. done. }
  destruct (avail_aligned _ count offset (mo_aligned _ Hs) Hal) as (A1 & A2 & A3); [lia|].
  set (n := if _ <? count then _ else _) in *. unfold reads_device. rewrite A3.
  assert (0 < count -> n <> 0) as Hn0 by (unfold n; case_if; lia). assert (0 <= n) by (unfold n; case_if; lia). clearbody n.
  destruct (Z.eqb_spec n 0) as [->|Hn]; [split; [by rewrite slice_nil|intros _ _ ?; by destruct Hn0]|].
  destruct (mw_index s) as [index|] eqn:Hi; [|split; [split; [done|auto with errno]|done]].
  destruct (snapshot_read s (mw_top s) index offset n Hs (mo_top _ Hs) Hi) as [R _]; [lia|lia|done|lia|].
  unfold on_world. specialize (R (mw_world s) (ws_refl _)). destruct (pread_loop _ _ _ _ _ _ _ (mw_world s)) as [[bs|f] x];
    destruct R as [R1 R2]; (split; [split; [by exists x|done]|done]).
Qed.

(** The view of a valid snapshot is a source with the device's bytes. *)
Definition bytes_at (s : MergedWritable T W) (t : T) (i : Z) : Z := if i <? mw_vsize s then device_at s t i else 0.
Definition device_bytes (s : MergedWritable T W) (i : Z) : Z := if i <? mw_vsize s then device s i else 0.

Lemma view_count s count off :
  mw_ok s -> misaligned off count = false -> 0 <= off < mw_vsize s ->
  misaligned off (Z.min count (mw_vsize s - off)) = false.
Proof.
  intros Hs Hal Ho. destruct (avail_aligned _ count off (mo_aligned _ Hs) Hal Ho) as (A & _ & _).
  revert A. destruct (Z.ltb_spec (mw_vsize s - off) count); [rewrite Z.min_r by lia|rewrite Z.min_l by lia]; done.
Qed.

Lemma mutation_view_read s t :
  mw_ok s -> ok t -> SourceInv (fun x => same t x.1) any_errno (MutationView s) (bytes_at s t).
Proof.
  intros Hs Ht. split. intros count off Hc Ho. unfold MutationView. cbn [src_pread]. fold (misaligned off count).
  destruct (misaligned off count) eqn:Hal; [apply io_inv_fail; auto with errno|].
  destruct (mw_index s) as [index|] eqn:Hi; [|apply io_inv_fail; auto with errno].
  destruct (Z.leb_spec (mw_vsize s) off).
  { apply io_inv_ret. split; [done|]. split; [rewrite zlen_nil; lia|]. rewrite zlen_nil. intros _ i Hlt.
    unfold bytes_at. by rewrite (proj2 (Z.ltb_ge _ _)) by lia. }
  pose proof (view_count s count off Hs Hal ltac:(lia)) as A1. set (n := Z.min count (mw_vsize s - off)) in *.
  destruct (snapshot_read s t index off n Hs Ht Hi) as [_ R]; [lia|lia|done|lia|].
  eapply io_inv_mono; [exact R|]. cbv beta. intros bs ->. unfold delivers. rewrite zlen_slice, Z.max_r by lia.
  split; [|split; [lia|]].
  - apply slice_ext. intros i Hlt. unfold bytes_at. by rewrite (proj2 (Z.ltb_lt _ _)) by lia.
  - intros Hlt i Hge. unfold bytes_at. by rewrite (proj2 (Z.ltb_ge _ _)) by lia.
Qed.

(** *** Mutations *)

(** The device after a mutation of [a .. b): nothing outside the range changes,
    and on success the range reads as [g] through a valid snapshot. *)
Definition mutates_device {A} (s : MergedWritable T W) (a b : Z) (g : Z -> Z) (r : res A)
    (s' : MergedWritable T W) : Prop :=
  mw_ok s' /\ mw_layers s' = mw_layers s /\ mw_vsize s' = mw_vsize s /\
  mw_active_ops s' = mw_active_ops s /\ mw_grow_active s' = mw_grow_active s /\
  (forall i, 0 <= i < mw_vsize s -> ~ a <= i < b -> device s' i = device s i) /\
  match r with
  | Ok _ => is_Some (mw_index s') /\ forall i, a <= i < b -> device s' i = g i
  | Err f => any_errno f
  end.

Lemma device_at_top s i : device_at s (mw_top s) i = device s i.
Proof. done. Qed.

(** What the top did, as the device sees it. *)
Definition top_mutated (s : MergedWritable T W) (a b : Z) (g : option (Z -> Z)) (x : T * W) : Prop :=
  ok x.1 /\ mutated payload (Some (mw_vsize s, device_bytes s)) a b g (mw_top s) x.1.

Lemma mutated_any D a b g t t' :
  mutated payload None a b g t t' -> mutated payload (Some D) a b g t t'.
Proof.
  intros (H1 & H2 & H3 & H4). split; [done|]. split; [done|]. split; [|done].
  intros i Hi. destruct (H3 i Hi) as [?|(m & d & ? & _)]; [by left|done].
Qed.

Lemma device_mutated s x a b g i :
  mw_ok s -> top_mutated s a b g x -> 0 <= i < mw_vsize s ->
  (~ a <= i < b -> device (set_world s x) i = device s i) /\
  (forall v, g = Some v -> a <= i < b -> device (set_world s x) i = v i).
Proof.
  intros Hs (_ & _ & _ & Hout & Hin) Hi. pose proof Hs as [_ _ _ _ _ H6 _ H8].
  rewrite (device_split (set_world s x)) by lia. change (mw_top (set_world s x)) with x.1. split.
  - intros Hn. destruct (Hout i Hn) as [->|(m & d & [= <- <-] & Hlt & ->)]; [by rewrite device_split by lia|].
    unfold device_bytes. by rewrite (proj2 (Z.ltb_lt _ _)) by lia.
  - intros v Hg Hr. destruct (Hin v Hg) as [-> _]; done.
Qed.

Lemma mutated_stale s x a b g : mw_ok s -> top_mutated s a b g x -> stale (set_world s x).
Proof.
  intros [H1 H2 H3 H4 _ H6 H7 H8] (Hok & Hv & _). by split.
Qed.

(** The outcome of a mutation and a repair that keeps the rest of the state. *)
Lemma mutation_repaired {A} s x a b g (r : res A) (rebuild : res unit) s' :
  mw_ok s -> 0 <= a -> b <= mw_vsize s ->
  top_mutated s a b (match r with Ok _ => Some g | Err _ => None end) x ->
  match r with Ok _ => True | Err f => any_errno f end ->
  mw_ok s' /\ (exists i, s' = set_index (set_world s x) i /\ (is_ok rebuild = true -> is_Some i)) /\
    match rebuild with Ok _ => True | Err f => any_errno f end ->
  mutates_device s a b g (repaired r rebuild) s'.
Proof.
  intros Hs Ha Hb Hm Hr (Hs' & (i & -> & Hi) & He). split; [done|]. do 4 (split; [done|]).
  assert (forall j, device (set_index (set_world s x) i) j = device (set_world s x) j) as Hd by done.
  split.
  - intros j Hj Hn. rewrite Hd. destruct (device_mutated s x a b _ j Hs Hm Hj) as [H _]. by apply H.
  - destruct r as [v|f]; [|done]. destruct rebuild as [u|f]; [|done]. cbn. split; [by apply Hi|].
    intros j Hj. rewrite Hd. destruct (device_mutated s x a b (Some g) j Hs Hm ltac:(lia)) as [_ H]. by apply H.
Qed.

(** The view given to a mutation is the current one. *)
Lemma mutation_view_current s :
  mw_ok s -> current_view ok same payload (mw_top s) (MutationView s) (bytes_at s).
Proof.
  intros Hs. split.
  - intros t Ht. by apply mutation_view_read.
  - intros t count off x bs x' Ht Hx Hc Ho. unfold MutationView. cbn [src_pread src_size]. fold (misaligned off count).
    destruct (misaligned off count) eqn:Hal; [done|]. destruct (mw_index s) as [index|] eqn:Hi; [|done].
    destruct (Z.leb_spec (mw_vsize s) off); [intros [= <- _]; by left|].
    pose proof (view_count s count off Hs Hal ltac:(lia)) as A1. set (n := Z.min count (mw_vsize s - off)) in *.
    destruct (snapshot_read s t index off n Hs Ht Hi) as [_ R]; [lia|lia|done|lia|]. specialize (R x Hx).
    intros E. cbv zeta in R. rewrite E in R. destruct R as [_ ->]. right. rewrite zlen_slice. lia.
  - intros t i Hp. unfold bytes_at. case_if; [|done]. unfold device_at, index_content, stack_cell, within.
    case_if; [|done]. cbn [stack_resolve]. destruct (resolve (wl_segments (mw_top s)) (i / kAlignment)) as [| |g p] eqn:Hr; [|done|].
    + cbn [retag over]. destruct (stack_resolve (0 + 1) _ _) as [| |g p] eqn:Hl; [done|done|].
      pose proof (stack_resolve_level _ _ _ _ _ Hl). unfold cell_byte, contents_at.
      by replace (Z.to_nat g) with (S (Z.to_nat (g - 1))) by lia.
    + cbn [retag over]. unfold cell_byte, contents_at. cbn. by eapply Hp.
  - intros i b Hi Hb. unfold bytes_at. rewrite (proj2 (Z.ltb_lt _ _)) by apply Hi. rewrite device_at_top.
    pose proof Hs as [_ _ _ _ _ H6 _ H8]. cbn [src_size MutationView] in Hi. by rewrite device_split, Hb by lia.
Qed.

Lemma run_pwrite s buf off :
  mw_ok s -> room (mw_top s) (zlen buf) -> 0 <= off -> misaligned off (zlen buf) = false ->
  let '(r, x) := (if wl_requires_view then wl_pwrite_with_view (MutationView s) buf off
                  else on_fst (wl_pwrite buf off)) (mw_world s) in
  top_mutated s off (off + zlen buf)
    (match r with Ok _ => Some (fun i => bget buf (i - off)) | Err _ => None end) x /\
  match r with Ok n => n = zlen buf | Err f => any_errno f end.
Proof.
  intros Hs Hroom Ho Hal. destruct wl_requires_view eqn:Hv.
  - pose proof (ws_pwrite_view (mw_top s) (mw_world s).2 (MutationView s) (bytes_at s) buf off Hv
      (mutation_view_current s Hs)) as Hw.
    change (mw_top s, (mw_world s).2) with ((mw_world s).1, (mw_world s).2) in Hw. rewrite <- surjective_pairing in Hw.
    destruct (wl_pwrite_with_view _ buf off (mw_world s)) as [r [t' w']].
    destruct Hw as [Hok Hw]; [by apply Hs|done..|].
    destruct r as [n|f]; destruct Hw as [-> Hw] || destruct Hw as [He Hw]; done.
  - pose proof (ws_pwrite (mw_top s) buf off Hv (mo_top _ Hs) Hroom Ho Hal) as Hw. unfold on_fst.
    change (mw_world s).1 with (mw_top s). destruct (wl_pwrite buf off (mw_top s)) as [r t'].
    destruct Hw as [Hok Hw]. destruct r as [n|f]; destruct Hw as [? Hw]; (split; [split; [done|by apply mutated_any]|done]).
Qed.

Lemma run_discard s off len :
  mw_ok s -> discardable (mw_top s) off len -> 0 <= off -> 0 <= len -> misaligned off len = false ->
  let '(r, x) := (if wl_requires_view then wl_discard_with_view (MutationView s) off len
                  else on_fst (wl_discard off len)) (mw_world s) in
  top_mutated s off (off + len) (match r with Ok _ => Some (fun _ => 0) | Err _ => None end) x /\
  match r with Ok _ => True | Err f => any_errno f end.
Proof.
  intros Hs Hd Ho Hl Hal. destruct wl_requires_view eqn:Hv.
  - pose proof (ws_discard_view (mw_top s) (mw_world s).2 (MutationView s) (bytes_at s) off len Hv
      (mutation_view_current s Hs)) as Hw.
    change (mw_top s, (mw_world s).2) with ((mw_world s).1, (mw_world s).2) in Hw. rewrite <- surjective_pairing in Hw.
    destruct (wl_discard_with_view _ off len (mw_world s)) as [r [t' w']].
    destruct Hw as [Hok Hw]; [by apply Hs|done..|].
    destruct r as [u|f]; [by split|]. by destruct Hw.
  - pose proof (ws_discard (mw_top s) off len Hv (mo_top _ Hs) Hd Ho Hl Hal) as Hw. unfold on_fst.
    change (mw_world s).1 with (mw_top s). destruct (wl_discard off len (mw_top s)) as [r t'].
    destruct Hw as [Hok Hw]. destruct r as [u|f]; [|destruct Hw as [? Hw]];
      (split; [split; [done|by apply mutated_any]|done]).
Qed.

(** Repairing in advance leaves the device as it is. *)
Lemma repair_first s :
  mw_ok s ->
  let '(r, s') := rebuild_index s in
  mw_ok s' /\ (exists i, s' = set_index s i) /\ match r with Ok _ => True | Err f => any_errno f end.
Proof.
  intros Hs. assert (stale s) as Hst by (destruct Hs; by split). pose proof (rebuild_index_spec s Hst) as H.
  destruct (rebuild_index s) as [r s']. destruct H as (H1 & (i & -> & _) & H2). split; [done|]. split; [by exists i|done].
Qed.

(** A mutation of a device whose snapshot was replaced first. *)
Lemma mutates_from {A} s i a b g (r : res A) s' :
  mutates_device (set_index s i) a b g r s' -> mutates_device s a b g r s'.
Proof. intros (H1 & H2 & H3 & H4 & H5 & H6 & H7). done. Qed.

(** Nothing happened, or only the snapshot was dropped. *)
Lemma mutates_none {A} s i a b g f :
  mw_ok (set_index s i) -> any_errno f -> mutates_device (A := A) s a b g (Err f) (set_index s i).
Proof. intros H Hf. split; [done|]. do 4 (split; [done|]). by split. Qed.

Lemma pwrite_admitted_spec s buf off :
  mw_ok s -> room (mw_top s) (zlen buf) -> 0 <= off -> off + zlen buf <= mw_vsize s ->
  let '(r, s') := pwrite_admitted buf off s in
  mutates_device s off (off + zlen buf) (fun i => bget buf (i - off)) r s' /\
  (forall n, r = Ok n -> n = zlen buf).
Proof.
  intros Hs Hroom Ho Hv. pose proof (zlen_nonneg buf) as Hz. unfold pwrite_admitted.
  destruct (misaligned off (zlen buf)) eqn:Hal.
  { split; [|done]. replace s with (set_index s (mw_index s)) at 2 by (by destruct s).
    apply mutates_none; [by destruct s|auto with errno]. }
  set (valid := bool_decide (is_Some (mw_index s))).
  assert (let '(p, s1) := (if wl_requires_view && negb valid then rebuild_index s else (Ok tt, s)) in
    mw_ok s1 /\ (exists i, s1 = set_index s i /\ (valid = true -> i = mw_index s)) /\
    match p with Ok _ => True | Err f => any_errno f end) as Hp.
  { destruct (wl_requires_view && negb valid) eqn:Hb.
    - pose proof (repair_first s Hs) as H. destruct (rebuild_index s) as [p s1]. destruct H as (H1 & (i & ->) & H2).
      split; [done|]. split; [|done]. exists i. split; [done|]. intros Hvd. rewrite Hvd in Hb. by destruct wl_requires_view.
    - split; [done|]. split; [|done]. exists (mw_index s). split; [by destruct s|done]. }
  destruct (if wl_requires_view && negb valid then rebuild_index s else (Ok tt, s)) as [p s1].
  destruct Hp as (Hs1 & (i & -> & Hvi) & Hp).
  destruct p as [u|f]; [|split; [by apply mutates_none|done]].
  pose proof (run_pwrite (set_index s i) buf off Hs1 Hroom Ho Hal) as Hr. unfold on_world.
  change (mw_world (set_index s i)) with (mw_world s) in *.
  destruct ((if wl_requires_view then wl_pwrite_with_view (MutationView (set_index s i)) buf off
             else on_fst (wl_pwrite buf off)) (mw_world s)) as [r x].
  destruct Hr as [Hm Hr]. set (s2 := set_world (set_index s i) x).
  assert (stale s2) as Hst by by eapply mutated_stale.
  assert (let '(rb, s3) := match r with
      | Ok n => if valid && unrevised (wl_revision (mw_top s)) (wl_revision (mw_top s2)) then (Ok tt, s2)
                else if n =? zlen buf then rebuild_range off (zlen buf) s2 else rebuild_index s2
      | Err _ => rebuild_index s2 end in
    mw_ok s3 /\ (exists j, s3 = set_index s2 j /\ (is_ok rb = true -> is_Some j)) /\
    match rb with Ok _ => True | Err f => any_errno f end) as Hfin.
  { destruct r as [n|f]; [|by apply rebuild_index_spec].
    destruct (valid && unrevised _ _) eqn:Hun.
    - apply andb_true_iff in Hun as [Hvd Hun]. specialize (Hvi Hvd). subst i.
      destruct Hm as (Hok & Hvs & Hrev & _). specialize (Hrev Hun).
      split; [|split; [exists (mw_index s); split; [by destruct s|intros _; by apply bool_decide_eq_true in Hvd]|done]].
      destruct Hs1 as [H1 H2 H3 H4 H5 H6 H7 H8]. split; try done.
      change (mw_top s2) with x.1. rewrite Hrev. exact H5.
    - subst n. rewrite Z.eqb_refl.
      apply (rebuild_range_spec s2 (wl_segments (mw_top s))); [done|apply Hs1|done|lia|done|done|].
      intros Hloc y Hy. destruct Hm as (_ & _ & _ & _ & Hin). destruct (Hin _ eq_refl) as [_ Hl].
      by apply Hl. }
  destruct (match r with Ok n => if valid && _ then _ else _ | Err _ => rebuild_index s2 end) as [rb s3].
  split; [eapply mutates_from, mutation_repaired; try done; by destruct r|].
  intros n Hn. destruct r as [n'|]; [|done]. destruct rb; [|done]. by injection Hn as <-.
Qed.

Lemma discard_admitted_spec s off len :
  mw_ok s -> discardable (mw_top s) off len -> 0 <= off -> 0 <= len -> off + len <= mw_vsize s ->
  let '(r, s') := discard_admitted off len s in
  mutates_device s off (off + len) (fun _ => 0) r s'.
Proof.
  intros Hs Hd Ho Hl Hv. unfold discard_admitted. destruct (misaligned off len) eqn:Hal.
  { replace s with (set_index s (mw_index s)) at 2 by (by destruct s).
    apply mutates_none; [by destruct s|auto with errno]. }
  assert (let '(p, s1) := (if wl_requires_view then rebuild_index s else (Ok tt, s)) in
    mw_ok s1 /\ (exists i, s1 = set_index s i) /\ match p with Ok _ => True | Err f => any_errno f end) as Hp.
  { destruct wl_requires_view; [by apply repair_first|]. split; [done|]. split; [|done]. exists (mw_index s). by destruct s. }
  destruct (if wl_requires_view then rebuild_index s else (Ok tt, s)) as [p s1].
  destruct Hp as (Hs1 & (i & ->) & Hp). destruct p as [u|f]; [|by apply mutates_none].
  pose proof (run_discard (set_index s i) off len Hs1 Hd Ho Hl Hal) as Hr. unfold on_world.
  change (mw_world (set_index s i)) with (mw_world s) in *.
  destruct ((if wl_requires_view then wl_discard_with_view (MutationView (set_index s i)) off len
             else on_fst (wl_discard off len)) (mw_world s)) as [r x].
  destruct Hr as [Hm Hr]. set (s2 := set_world (set_index s i) x).
  assert (stale s2) as Hst by by eapply mutated_stale.
  assert (let '(rb, s3) := match r with Ok _ => rebuild_range off len s2 | Err _ => rebuild_index s2 end in
    mw_ok s3 /\ (exists j, s3 = set_index s2 j /\ (is_ok rb = true -> is_Some j)) /\
    match rb with Ok _ => True | Err f => any_errno f end) as Hfin.
  { destruct r as [u'|f]; [|by apply rebuild_index_spec].
    apply (rebuild_range_spec s2 (wl_segments (mw_top s))); [done|apply Hs1|done|lia|done|done|].
    intros Hloc y Hy. destruct Hm as (_ & _ & _ & _ & Hin). destruct (Hin _ eq_refl) as [_ Hlc]. by apply Hlc. }
  destruct (match r with Ok _ => rebuild_range off len s2 | Err _ => rebuild_index s2 end) as [rb s3].
  eapply mutates_from, mutation_repaired; try done.
Qed.

(** *** The operations *)

Definition counted (s : MergedWritable T W) : Prop := 0 <= mw_active_ops s < 2 ^ 32.

Lemma gate_roundtrip s :
  counted s -> u32 (u32 (mw_active_ops s + 1) - 1) = mw_active_ops s.
Proof.
  unfold counted, u32, wrap. intros H. rewrite Zminus_mod_idemp_l. rewrite Z.add_simpl_r. by apply Z.mod_small.
Qed.

(** The invariant does not involve the gates. *)
Lemma mw_ok_gate s n g : mw_ok s -> mw_ok (set_gate s n g).
Proof. intros [H1 H2 H3 H4 H5 H6 H7 H8]. by split. Qed.

(** An operation between admission and release. *)
Lemma admitted_mutation {A} s a b g (r : res A) s' :
  counted s -> mutates_device (set_gate s (u32 (mw_active_ops s + 1)) (mw_grow_active s)) a b g r s' ->
  mutates_device s a b g r (end_data_op s').
Proof.
  intros Hc (H1 & H2 & H3 & H4 & H5 & H6 & H7). split; [by apply mw_ok_gate|]. split; [done|]. split; [done|].
  split; [cbn [end_data_op mw_active_ops set_gate]; rewrite H4; by apply gate_roundtrip|].
  split; [done|]. split; [exact H6|exact H7].
Qed.

Lemma begin_data_op_spec (s : MergedWritable T W) off len :
  mw_vsize s < 2 ^ 64 -> 0 <= off -> 0 <= len ->
  match begin_data_op off len s with
  | (Err f, s') => any_errno f /\ s' = s
  | (Ok _, s') => s' = set_gate s (u32 (mw_active_ops s + 1)) (mw_grow_active s) /\ off + len <= mw_vsize s
  end.
Proof.
  intros Hv Ho Hl. unfold begin_data_op. destruct (mw_grow_active s); [split; [auto with errno|done]|].
  destruct (Z.ltb_spec (mw_vsize s) off); [split; [auto with errno|done]|].
  destruct (Z.ltb_spec (mw_vsize s - off) len); [split; [auto with errno|done]|]. split; [done|lia].
Qed.

Lemma mutates_refused {A} s a b g f : mw_ok s -> any_errno f -> mutates_device (A := A) s a b g (Err f) s.
Proof. intros H Hf. split; [done|]. do 4 (split; [done|]). by split. Qed.

Lemma capacity_64 s : mw_ok s -> mw_vsize s < 2 ^ 64.
Proof. intros [_ _ _ _ _ _ _ H]. unfold kMaxOffset, kAlignment in H. lia. Qed.

Lemma mw_pwrite_spec s buf off :
  mw_ok s -> counted s -> room (mw_top s) (zlen buf) -> 0 <= off ->
  let '(r, s') := mw_pwrite buf off s in
  mutates_device s off (off + zlen buf) (fun i => bget buf (i - off)) r s' /\
  (forall n, r = Ok n -> n = zlen buf).
Proof.
  intros Hs Hc Hr Ho. unfold mw_pwrite. pose proof (zlen_nonneg buf).
  pose proof (begin_data_op_spec s off (zlen buf) (capacity_64 s Hs) Ho ltac:(lia)) as Hb.
  destruct (begin_data_op off (zlen buf) s) as [[u|f] s1]; [|destruct Hb as [? ->]; split; [by apply mutates_refused|done]].
  destruct Hb as [-> Hv].
  pose proof (pwrite_admitted_spec (set_gate s (u32 (mw_active_ops s + 1)) (mw_grow_active s)) buf off
    (mw_ok_gate _ _ _ Hs) Hr Ho Hv) as Hw.
  destruct (pwrite_admitted buf off _) as [r s2]. destruct Hw as [Hw Hn]. split; [by apply admitted_mutation|done].
Qed.

Lemma mw_discard_spec s off len :
  mw_ok s -> counted s -> discardable (mw_top s) off len -> 0 <= off -> 0 <= len ->
  let '(r, s') := mw_discard off len s in
  mutates_device s off (off + len) (fun _ => 0) r s'.
Proof.
  intros Hs Hc Hd Ho Hl. unfold mw_discard.
  pose proof (begin_data_op_spec s off len (capacity_64 s Hs) Ho Hl) as Hb.
  destruct (begin_data_op off len s) as [[u|f] s1]; [|destruct Hb as [? ->]; by apply mutates_refused].
  destruct Hb as [-> Hv].
  pose proof (discard_admitted_spec (set_gate s (u32 (mw_active_ops s + 1)) (mw_grow_active s)) off len
    (mw_ok_gate _ _ _ Hs) Hd Ho Hl Hv) as Hw.
  destruct (discard_admitted off len _) as [r s2]. by apply admitted_mutation.
Qed.

(** The read between admission and release, or without a gate. *)
Lemma mw_pread_spec s count off :
  mw_ok s -> counted s -> 0 <= off -> 0 <= count ->
  let '(r, s') := mw_pread count off s in
  reads_device s count off r s' /\
  (mw_index s = None -> misaligned off count = false -> off < mw_vsize s -> 0 < count -> is_ok r = false).
Proof.
  intros Hs Hc Ho Hn. assert (same_device s s) as Hrefl by (exists (mw_world s); split; [by destruct s|apply ws_refl]).
  unfold mw_pread. destruct (misaligned off count) eqn:Hal; [split; [split; [done|auto with errno]|done]|].
  destruct (wl_serialize || wl_requires_view).
  - unfold begin_flush_op. destruct (mw_grow_active s) eqn:Hg; [split; [split; [done|auto with errno]|done]|].
    set (s1 := set_gate s _ _).
    pose proof (read_snapshot_spec s1 count off (mw_ok_gate s _ _ Hs) Ho Hn Hal) as Hr.
    destruct (read_snapshot count off s1) as [r s2]. destruct Hr as [[(x & -> & Hx) Hr] He].
    split; [|intros H1 _ H2 H3; by rewrite (He H1 H2 H3)]. split; [|done]. exists x. split; [|done].
    unfold end_data_op, set_gate, set_world. cbn. rewrite gate_roundtrip by done. by rewrite Hg.
  - pose proof (read_snapshot_spec s count off Hs Ho Hn Hal) as Hr.
    destruct (read_snapshot count off s) as [r s2]. destruct Hr as [Hr He].
    split; [done|]. intros H1 _ H2 H3. by rewrite (He H1 H2 H3).
Qed.

(** An operation of the top that does not change what it answers. *)
Lemma rebuild_changed_spec s x before :
  mw_ok s -> ok x.1 ->
  (wl_generation x.1 = before -> wl_segments x.1 = wl_segments (mw_top s)) ->
  let '(r, s') := rebuild_changed before (set_world s x) in
  mw_ok s' /\ (exists i, s' = set_index (set_world s x) i) /\
  match r with Ok _ => True | Err f => any_errno f end.
Proof.
  intros Hs Hok Hg. pose proof Hs as [H1 H2 H3 H4 H5 H6 H7 H8]. unfold rebuild_changed.
  change (mw_top (set_world s x)) with x.1.
  destruct (Z.eqb_spec (wl_generation x.1) before) as [E|]; cbn [negb].
  - split; [|split; [by exists (mw_index s)|done]]. split; try done.
    change (mw_top (set_world s x)) with x.1. by rewrite (Hg E).
  - assert (stale (set_world s x)) as Hst by (split; done).
    pose proof (rebuild_index_spec _ Hst) as H. destruct (rebuild_index _) as [r s'].
    destruct H as (? & (i & -> & _) & ?). split; [done|]. split; [by exists i|done].
Qed.

Lemma device_same s x i :
  mw_ok s -> (forall i, top_byte payload x.1 i = top_byte payload (mw_top s) i) -> 0 <= i < mw_vsize s ->
  device (set_world s x) i = device s i.
Proof.
  intros [_ _ _ _ _ _ _ H8] Ht Hi. rewrite !device_split by lia. change (mw_top (set_world s x)) with x.1.
  by rewrite Ht.
Qed.

(** The device after an operation that does not change its bytes. *)
Definition keeps_device (s s' : MergedWritable T W) : Prop :=
  mw_ok s' /\ mw_layers s' = mw_layers s /\ mw_active_ops s' = mw_active_ops s /\
  mw_grow_active s' = mw_grow_active s /\ mw_vsize s <= mw_vsize s' /\
  forall i, 0 <= i < mw_vsize s -> device s' i = device s i.

Lemma mw_flush_spec s :
  mw_ok s -> counted s ->
  let '(r, s') := mw_flush s in
  keeps_device s s' /\ mw_vsize s' = mw_vsize s /\ match r with Ok _ => True | Err f => any_errno f end.
Proof.
  intros Hs Hc. unfold mw_flush, begin_flush_op.
  destruct (mw_grow_active s) eqn:Hg; [split; [done|]; split; [done|auto with errno]|].
  pose proof (mw_ok_gate _ (u32 (mw_active_ops s + 1)) false Hs) as Hs1. set (s1 := set_gate s _ _) in *.
  pose proof (ws_flush (mw_top s) (mo_top _ Hs)) as Hf. unfold on_world, on_fst. cbn [mw_world set_gate s1].
  change (mw_world s).1 with (mw_top s). destruct (wl_flush (mw_top s)) as [r t'].
  destruct Hf as (F1 & F2 & F3 & F4 & F5).
  pose proof (rebuild_changed_spec s1 (t', (mw_world s).2) (wl_generation (mw_top s)) Hs1 F1) as Hb.
  specialize (Hb F3). fold s1.
  change (mw_top s1) with (mw_top s).
  destruct (rebuild_changed _ _) as [rb s3]. destruct Hb as (B1 & (i & ->) & B2).
  split; [|split; [done|destruct r; [by destruct rb|done]]].
  split; [by apply mw_ok_gate|]. split; [done|]. split; [by apply gate_roundtrip|].
  split; [by rewrite Hg|]. split; [done|]. intros j Hj.
  apply (device_same s (t', (mw_world s).2) j Hs); done.
Qed.

Lemma mw_grow_spec s vs :
  mw_ok s -> growable (mw_top s) ->
  let '(r, s') := mw_grow vs s in
  keeps_device s s' /\
  match r with
  | Ok _ => mw_vsize s' = vs
  | Err f => any_errno f /\ mw_vsize s' = mw_vsize s
  end.
Proof.
  intros Hs Hg. assert (keeps_device s s) as Hk by by split. unfold mw_grow.
  destruct ((vs =? 0) || negb (vs mod kAlignment =? 0)) eqn:Hal; [split; [done|split; [auto with errno|done]]|].
  bool_hyps. unfold begin_grow_op.
  destruct (mw_grow_active s || negb (mw_active_ops s =? 0)) eqn:Hb; [split; [done|split; [auto with errno|done]]|].
  bool_hyps. pose proof (mw_ok_gate _ (mw_active_ops s) true Hs) as Hs1. set (s1 := set_gate s _ _) in *.
  assert (forall s2, keeps_device s1 s2 -> keeps_device s (end_grow_op s2)) as Hend.
  { intros s2 (K1 & K2 & K3 & K4 & K5 & K6). split; [by apply mw_ok_gate|]. split; [done|]. split; [done|].
    split; [done|]. split; [done|exact K6]. }
  change (mw_vsize s1) with (mw_vsize s). change (mw_top s1) with (mw_top s).
  assert (keeps_device s1 s1) as Hk1 by by split.
  destruct (Z.ltb_spec vs (mw_vsize s)); [split; [by apply Hend|split; [auto with errno|done]]|].
  destruct (Z.eqb_spec vs (mw_vsize s)) as [->|Hne]; [split; [by apply Hend|done]|].
  pose proof (mo_vsize _ Hs) as Hv0.
  (* widening once the top has room *)
  assert (forall s2, keeps_device s1 s2 -> mw_vsize s2 = mw_vsize s -> vs <= kMaxOffset * kAlignment ->
    keeps_device s (end_grow_op (set_vsize s2 vs)) /\ mw_vsize (end_grow_op (set_vsize s2 vs)) = vs) as Hwide.
  { intros s2 (K1 & K2 & K3 & K4 & K5 & K6) Ev Hvs. split; [|done]. apply Hend.
    split; [destruct K1 as [H1' H2' H3' H4' H5' H6' H7' H8']; split; try done; cbn [set_vsize mw_vsize]; lia|].
    split; [done|]. split; [done|]. split; [done|]. split; [cbn; lia|exact K6]. }
  destruct (Z.ltb_spec (wl_virtual_size (mw_top s)) vs).
  2: { apply Hwide; [done|done|]. pose proof (ws_vsize _ (mo_top _ Hs)). lia. }
  pose proof (ws_grow (mw_top s) vs (mo_top _ Hs) Hg) as Hw. unfold on_world, on_fst. cbn [mw_world set_gate s1].
  change (mw_world s).1 with (mw_top s). destruct (wl_grow vs (mw_top s)) as [r t']. fold s1.
  destruct Hw as (W1 & W2 & W3 & W4). set (x := (t', (mw_world s).2)).
  pose proof (rebuild_changed_spec s1 x (wl_generation (mw_top s)) Hs1 W1 W2) as Hbb.
  destruct (rebuild_changed _ _) as [rb s3]. destruct Hbb as (B1 & (i & ->) & B2).
  assert (keeps_device s1 (set_index (set_world s1 x) i)) as Hk3.
  { split; [done|]. split; [done|]. split; [done|]. split; [done|]. split; [done|]. intros j Hj.
    by apply (device_same s1 x j Hs1). }
  destruct r as [u|f]; cbn [repaired]; [|split; [by apply Hend|done]].
  destruct rb as [u'|f]; [|split; [by apply Hend|done]].
  apply Hwide; [done|done|]. pose proof (ws_vsize _ W1). lia.
Qed.

(** *** Opening *)

Lemma foldl_max_bound (f : LsmtLayer W -> Z) (P : Z -> Prop) layers v :
  P v -> Forall (fun l => P (f l)) layers -> (forall a b, P a -> P b -> P (Z.max a b)) ->
  P (foldl (fun v l => Z.max v (f l)) v layers).
Proof.
  intros Hv Hl Hmax. revert v Hv. induction Hl as [|l layers Hl _ IH]; intros v Hv; [done|]. cbn. auto.
Qed.

Definition capacity_ok (v : Z) : Prop := 0 <= v <= kMaxOffset * kAlignment /\ v mod kAlignment = 0.

Lemma mw_open_spec layers top w :
  ok top -> wl_virtual_size top mod kAlignment = 0 ->
  Forall (fun l => index_ok 0 (l_segments l) /\ capacity_ok (virtual_size l)) layers ->
  zlen layers + 1 <= 256 -> Forall2 (fun l c => SourceSpec any_errno (l_src l) c) (reverse layers) cs ->
  match mw_open layers (Some top) w with
  | Ok s => mw_ok s /\ counted s /\ mw_grow_active s = false /\ is_Some (mw_index s) /\
            mw_layers s = reverse layers /\ mw_top s = top
  | Err f => any_errno f
  end.
Proof.
  intros Hok Hal Hl Hn Hsrc. unfold mw_open. set (v := foldl _ _ _). set (s := MW _ _ _ _ _ _).
  assert (capacity_ok v) as [Hv1 Hv2].
  { apply (foldl_max_bound virtual_size capacity_ok).
    - split; [by apply ws_vsize|done].
    - apply Forall_reverse. eapply Forall_impl; [exact Hl|]. by intros l [_ ?].
    - intros a b [? ?] [? ?]. destruct (Z.max_spec a b) as [[_ ->]|[_ ->]]; done. }
  assert (stale s) as Hs.
  { assert (zlen (reverse layers) + 1 <= 256) by (unfold zlen in *; by rewrite length_reverse).
    split; try done; [|apply Hv1|apply Hv1]. apply Forall_reverse. eapply Forall_impl; [exact Hl|]. by intros l [? _]. }
  pose proof (rebuild_index_spec s Hs) as Hr. destruct (rebuild_index s) as [[u|f] s'].
  - destruct Hr as (H1 & (i & -> & Hi) & _). split; [done|]. split; [split; cbn; lia|]. split; [done|].
    split; [by apply Hi|done].
  - by destruct Hr as (_ & _ & ?).
Qed.
End Contract.
