(* ===== verification/MergedLsmtRw.v ===== *)
(** * The writable device over an LSMT layer

    [LsmtRwLayer] as the top of a [MergedWritable]: the layer's theorems discharge
    the contract of [WritableLayer], and the device's theorems are stated for any
    top that meets it. *)
From S2P Require Import Prelude Bytes LsmtFormat Source File Segments Merge Trim Lsmt Journal FilePair PairGrow LsmtRw LsmtRwGrow MergedWritable.

Open Scope Z_scope.

(** The overrides of [lsmt_rw.hpp]; the rest are the defaults of the interface. *)
#[export] Instance lsmt_rw_writable {W} : WritableLayer LsmtRwLayer W := {
  wl_pwrite := LsmtRw.pwrite;
  wl_discard := LsmtRw.discard;
  wl_flush := LsmtRw.flush;
  wl_grow := LsmtRwGrow.grow;
  wl_virtual_size := rw_vsize;
  wl_segments := rw_segments;
  wl_snapshot_ok := fun _ => true;
  wl_generation := fun _ => 0;
  wl_revision := fun w => if rw_segments_revision w =? kUnknownRevision then None else Some (rw_segments_revision w);
  wl_data_pread := view_pread;
  wl_local := true;
  wl_serialize := false;
  wl_requires_view := false;
  wl_pwrite_with_view := fun _ buf offset => on_fst (LsmtRw.pwrite buf offset);
  wl_discard_with_view := fun _ offset len => on_fst (LsmtRw.discard offset len);
}.

(** ** The contract *)

Definition top_ok (w : LsmtRwLayer) : Prop :=
  rw_wf w /\ (rw_journal_failed w = false -> exists log, rw_ok w log) /\
  0 <= rw_vsize w <= kMaxOffset * kAlignment.
Definition top_room (w : LsmtRwLayer) (n : Z) : Prop := rw_data_end_sector w + n / kSector < kMaxMoffset.
Definition top_discardable (w : LsmtRwLayer) (off len : Z) : Prop := True.
Definition top_growable (w : LsmtRwLayer) : Prop := rw_journal_failed w = false /\ can_grow w.

(** What the view of the payload file delivers. *)
Definition payload (w : LsmtRwLayer) (i : Z) : Z :=
  if i <? Z.min (rw_data_bytes w) (f_size (rw_data w)) then f_byte (rw_data w) i else 0.

Lemma rw_ok_capacity w log : rw_ok w log -> 0 <= rw_vsize w <= kMaxOffset * kAlignment.
Proof.
  intros Hok. pose proof (rw_sectors_bytes _ _ Hok) as E. destruct (view_of_replay _ _ Hok) as [Hs _].
  unfold kSector, kAlignment in *. lia.
Qed.

Lemma rw_ok_top w log : rw_ok w log -> top_ok w.
Proof. intros H. split; [apply H|]. split; [by exists log|by eapply rw_ok_capacity]. Qed.

Lemma payload_mapped w x t p r :
  rw_wf w -> resolve (rw_segments w) x = Data t p -> 0 <= r < kSector ->
  payload w (p * kAlignment + r) = f_byte (rw_data w) (p * kSector + r).
Proof.
  intros [H1 _ H3 _] Hx Hr. specialize (H3 x t p Hx). destruct (live_payload _ _ _ H1 x t p Hx) as [_ Hp].
  change kDataStartSector with 8 in Hp. pose proof (data_sectors_bytes (rw_data w) p ltac:(lia)).
  unfold payload. rewrite (proj2 (Z.ltb_lt _ _)); [done|]. unfold kAlignment, kSector in *. lia.
Qed.

Lemma rw_top_byte {W} w i :
  rw_wf w ->
  top_byte (W := W) payload w i =
    match resolve (rw_segments w) (i / kSector) with Hole => None | _ => Some (rw_view w i) end.
Proof.
  intros Hw. unfold top_byte, rw_view, index_view, LsmtRw.cell_byte. cbn [wl_segments lsmt_rw_writable].
  change kAlignment with kSector. destruct (resolve (rw_segments w) (i / kSector)) as [| |t p] eqn:Hr; [done|done|].
  f_equal. apply (payload_mapped w _ t p (i mod kSector) Hw Hr). unfold kSector. apply Z.mod_pos_bound. lia.
Qed.

Lemma view_pread_delivers w :
  SourceInv (only_io w) any_errno (Src (rw_vsize w) view_pread) (payload w).
Proof.
  split. intros count off Hc Ho w1 [s ->]. cbn [src_pread]. unfold view_pread. cbn [rw_data_bytes set_pair].
  set (w1 := set_pair w (set_script (rw_pair w) s)).
  destruct (Z.leb_spec (rw_data_bytes w) off).
  { split; [by exists s|]. split; [done|]. rewrite zlen_nil. split; [lia|]. intros _ i Hi. unfold payload.
    by rewrite (proj2 (Z.ltb_ge _ _)) by lia. }
  set (n := if _ <? count then _ else _).
  assert (n = Z.min count (rw_data_bytes w - off)) as En by (unfold n; case_if; lia). clearbody n.
  destruct (Z.eqb_spec n 0).
  { split; [by exists s|]. split; [done|]. rewrite zlen_nil. split; [lia|]. lia. }
  unfold on_pair, pair_step, mbind, io_bind, io_run. cbn [w1 rw_pair set_pair p_script set_script].
  destruct (next_outcome s) as [[|k e] s2]; cbn -[file_read].
  2: { split; [by exists s2|auto with errno]. }
  split; [by exists s2|]. change (p_data (rw_pair w)) with (rw_data w). unfold file_read, avail, delivers.
  rewrite zlen_slice, (Z.max_r 0 (Z.min _ _)) by lia.
  split; [|split; [lia|]].
  - apply slice_ext. intros i Hi. unfold payload. by rewrite (proj2 (Z.ltb_lt _ _)) by lia.
  - intros Hm i Hi. unfold payload. by rewrite (proj2 (Z.ltb_ge _ _)) by lia.
Qed.

(** A mutation of the layer, as its contract states it. *)
Section Mutation.
Context {W : Type} (w w' : LsmtRwLayer) (a n : Z) (g : Z -> Z) (r : res unit).
Context (Hok : top_ok w) (Ha : a mod kSector = 0) (Hn : n mod kSector = 0).

Lemma sector_aligned i : ~ a <= i < a + n -> ~ a <= i / kSector * kSector < a + n.
Proof.
  apply mod_sector in Ha as Ea. apply mod_sector in Hn as En. unfold kSector in *.
  pose proof (Z.div_mod i 512 ltac:(lia)). pose proof (Z.mod_pos_bound i 512 ltac:(lia)). lia.
Qed.
Lemma sector_inside i : a <= i < a + n -> a <= i / kSector * kSector < a + n.
Proof.
  apply mod_sector in Ha as Ea. apply mod_sector in Hn as En. unfold kSector in *.
  pose proof (Z.div_mod i 512 ltac:(lia)). pose proof (Z.mod_pos_bound i 512 ltac:(lia)). lia.
Qed.

Lemma mutates_contract :
  mutates w a (a + n) g r w' ->
  top_ok w' /\
  match r with
  | Ok _ => mutated (W := W) payload None a (a + n) (Some g) w w'
  | Err f => any_errno f /\ mutated (W := W) payload None a (a + n) None w w'
  end.
Proof.
  intros ((D1 & _) & (Wf' & [_ Rev] & Loc) & Hm). pose proof Hok as (Wf & _ & Hc).
  assert (forall i, ~ a <= i < a + n -> rw_view w' i = rw_view w i) as Hview.
  { intros i Hi. destruct r as [u|f].
    - destruct Hm as (_ & -> & _). destruct (Z.leb_spec a i), (Z.ltb_spec i (a + n)); done || lia.
    - destruct Hm as (_ & log' & _ & Hv). apply Hv. lia. }
  assert (forall gg, (forall v, gg = Some v -> (forall i, a <= i < a + n -> top_byte (W := W) payload w' i = Some (v i)) /\
    (true = true -> forall x, ~ a <= x * kAlignment < a + n -> resolve (rw_segments w') x = resolve (rw_segments w) x)) ->
    mutated (W := W) payload None a (a + n) gg w w') as Hmut.
  { intros gg Hgg. split; [done|]. split; [|split; [|exact Hgg]].
    - cbn. destruct (Z.eqb_spec (rw_segments_revision w) kUnknownRevision); [done|].
      destruct (Z.eqb_spec (rw_segments_revision w') kUnknownRevision); [done|]. intros E. apply Z.eqb_eq in E.
      destruct (Rev ltac:(lia)); [lia|done].
    - intros i Hi. left. rewrite !rw_top_byte, Hview by done. rewrite Loc; [done|].
      pose proof (sector_aligned i Hi). lia. }
  destruct r as [u|f].
  - destruct Hm as ([log' Hok'] & Hin & Hmap). split; [by eapply rw_ok_top|]. apply Hmut. intros v [= <-]. split.
    + intros i Hi. rewrite rw_top_byte by done. pose proof (Hmap _ (sector_inside i Hi)) as Hx.
      rewrite Hin, (proj2 (Z.leb_le a i)), (proj2 (Z.ltb_lt i _)) by lia. cbn [andb].
      by destruct (resolve (rw_segments w') (i / kSector)).
    + intros _ x Hx. apply Loc. unfold kAlignment, kSector in *. lia.
  - destruct Hm as (He & log' & [_ Hs] & _). split; [|split; [done|by apply Hmut]].
    split; [done|]. split; [|by rewrite D1]. intros Hj. exists log'. by apply Hs.
Qed.

(** An operation refused without touching the layer. *)
Lemma refused_contract f :
  any_errno f -> top_ok w /\ any_errno f /\ mutated (W := W) payload None a (a + n) None w w.
Proof. intros Hf. split; [done|]. split; [done|]. split; [done|]. split; [done|]. split; [by left|done]. Qed.
End Mutation.

Lemma fenced_mutation w : rw_journal_failed w = true -> prepare_mutation w = (Err (Errno EIO), w).
Proof. unfold prepare_mutation. by intros ->. Qed.

Lemma top_pwrite {W} w buf off :
  top_ok w -> top_room w (zlen buf) -> 0 <= off -> misaligned off (zlen buf) = false ->
  let '(r, w') := LsmtRw.pwrite buf off w in
  top_ok w' /\
  match r with
  | Ok n => n = zlen buf /\ mutated (W := W) payload None off (off + zlen buf) (Some (fun i => bget buf (i - off))) w w'
  | Err f => any_errno f /\ mutated (W := W) payload None off (off + zlen buf) None w w'
  end.
Proof.
  intros Hok Hroom Ho Hal. unfold misaligned in Hal. bool_hyps. pose proof (zlen_nonneg buf).
  assert (forall f, any_errno f -> top_ok w /\ any_errno f /\ mutated (W := W) payload None off (off + zlen buf) None w w)
    as Href by (intros f; by apply refused_contract).
  destruct (rw_sealed w || rw_checkpointed w) eqn:Hs; [unfold LsmtRw.pwrite; rewrite Hs; apply Href; auto with errno|].
  destruct (Z.eqb_spec (zlen buf) 0) as [E0|E0].
  { unfold LsmtRw.pwrite. rewrite Hs, E0, orb_true_r. rewrite <- E0. apply Href. auto with errno. }
  destruct (rw_journal_failed w) eqn:Hj.
  { unfold LsmtRw.pwrite, mbind, io_bind. rewrite Hs. do 2 (case_if; [apply Href; auto with errno|]).
    rewrite (fenced_mutation w Hj). apply Href. auto with errno. }
  pose proof Hok as (_ & Hlog & Hcap). destruct (Hlog Hj) as [log Hrw].
  destruct (decide (off + zlen buf <= rw_vsize w)) as [Hle|Hle].
  - pose proof (pwrite_spec w log buf off Hrw Hs Ho) as Hw. unfold kSector, kAlignment, kMaxOffset in *.
    specialize (Hw ltac:(done) ltac:(done) ltac:(lia) Hle ltac:(lia) Hroom).
    destruct (LsmtRw.pwrite buf off w) as [r w']. destruct Hw as [Hn Hm].
    pose proof (mutates_contract (W := W) w w' off (zlen buf) _ _ Hok ltac:(done) ltac:(done) Hm) as [Hk1 Hk2].
    split; [done|]. destruct r as [n|f]; [|done]. split; [by apply Hn|done].
  - unfold LsmtRw.pwrite. rewrite Hs. unfold kSector, kAlignment, kMaxOffset in *.
    rewrite H, H0, (proj2 (Z.eqb_neq (zlen buf) 0)) by done. cbn [negb orb Z.eqb].
    destruct (Z.ltb_spec (rw_vsize w) off); [apply Href; auto with errno|].
    rewrite u64_small, (proj2 (Z.ltb_lt _ _)) by lia. apply Href. auto with errno.
Qed.

Lemma top_discard {W} w off len :
  top_ok w -> 0 <= off -> 0 <= len -> misaligned off len = false ->
  let '(r, w') := LsmtRw.discard off len w in
  top_ok w' /\
  match r with
  | Ok _ => mutated (W := W) payload None off (off + len) (Some (fun _ => 0)) w w'
  | Err f => any_errno f /\ mutated (W := W) payload None off (off + len) None w w'
  end.
Proof.
  intros Hok Ho Hl Hal. unfold misaligned in Hal. bool_hyps.
  assert (forall f, any_errno f -> top_ok w /\ any_errno f /\ mutated (W := W) payload None off (off + len) None w w)
    as Href by (intros f; by apply refused_contract).
  destruct (rw_sealed w || rw_checkpointed w) eqn:Hs; [unfold LsmtRw.discard; rewrite Hs; apply Href; auto with errno|].
  destruct (Z.eqb_spec len 0) as [E0|E0].
  { unfold LsmtRw.discard. rewrite Hs, E0, orb_true_r. rewrite <- E0. apply Href. auto with errno. }
  destruct (rw_journal_failed w) eqn:Hj.
  { unfold LsmtRw.discard, mbind, io_bind. rewrite Hs. do 2 (case_if; [apply Href; auto with errno|]).
    rewrite (fenced_mutation w Hj). apply Href. auto with errno. }
  pose proof Hok as (_ & Hlog & Hcap). destruct (Hlog Hj) as [log Hrw].
  destruct (decide (off + len <= rw_vsize w)) as [Hle|Hle].
  - pose proof (discard_spec w log off len Hrw Hs Ho) as Hw. unfold kSector, kAlignment, kMaxOffset in *.
    specialize (Hw ltac:(done) ltac:(done) ltac:(lia) Hle ltac:(lia)).
    destruct (LsmtRw.discard off len w) as [r w']. destruct Hw as [Hm _].
    by apply (mutates_contract (W := W) w w' off len _ _ Hok).
  - unfold LsmtRw.discard. rewrite Hs. unfold kSector, kAlignment, kMaxOffset in *.
    rewrite H, H0, (proj2 (Z.eqb_neq len 0)) by done. cbn [negb orb Z.eqb].
    destruct (Z.ltb_spec (rw_vsize w) off); [apply Href; auto with errno|].
    rewrite u64_small, (proj2 (Z.ltb_lt _ _)) by lia. apply Href. auto with errno.
Qed.

(** Only the script advanced. *)
Lemma only_io_ok w w' : top_ok w -> only_io w w' -> top_ok w'.
Proof.
  intros ([H1 H2 H3 H4] & Hlog & Hc) [s ->]. split; [by split|]. split; [|done]. intros Hj.
  destruct (Hlog Hj) as [log [P1 P2 P3 P4 P5 P6 P7]]. exists log. split; try done. by apply pair_ok_script.
Qed.

Lemma top_flush w :
  top_ok w ->
  let '(r, w') := LsmtRw.flush w in only_io w w' /\ match r with Ok _ => True | Err f => any_errno f end.
Proof.
  intros (_ & Hlog & _). unfold LsmtRw.flush.
  destruct (rw_journal_failed w) eqn:Hj.
  { split; [exists (p_script (rw_pair w)); by destruct w as [[]]|auto with errno]. }
  destruct (Hlog eq_refl) as [log Hok]. destruct (rw_sealed w); cbn [negb]; unfold on_pair.
  - pose proof (attempt_result p_script _ (rw_pair w) (fun _ p' => exists s, p' = set_script (rw_pair w) s)
      (fun p' => exists s, p' = set_script (rw_pair w) s)
      (pair_sync_attempt _ _ _ (fun s => ex_intro _ s eq_refl) (fun s => ex_intro _ s eq_refl))) as H.
    destruct (pair_sync (rw_pair w)) as [[u|f] p']; [destruct H as [s ->]|destruct H as [? [s ->]]]; (split; [by exists s|done]).
  - pose proof (attempt_result _ _ _ _ _ (pair_flush_attempt _ _ (ro_pair _ _ Hok))) as H.
    destruct (pair_flush (rw_pair w)) as [[u|f] p']; [destruct H as [s ->]|destruct H as [? [s ->]]]; (split; [by exists s|done]).
Qed.

Lemma top_same w w' : only_io w w' -> rw_segments w' = rw_segments w /\ rw_vsize w' = rw_vsize w /\ forall i, payload w' i = payload w i.
Proof. by intros [s ->]. Qed.

Lemma top_byte_same {W} w w' i : only_io w w' -> top_byte (W := W) payload w' i = top_byte (W := W) payload w i.
Proof. by intros [s ->]. Qed.

Lemma top_grow {W} w vs :
  top_ok w -> top_growable w ->
  let '(r, w') := LsmtRwGrow.grow vs w in
  top_ok w' /\ rw_segments w' = rw_segments w /\
  (forall i, top_byte (W := W) payload w' i = top_byte (W := W) payload w i) /\
  match r with Ok _ => rw_vsize w' = vs | Err f => any_errno f end.
Proof.
  intros (Hwf & Hlog & Hcap) [Hj Hcan]. destruct (Hlog Hj) as [log Hok].
  destruct (valid_capacity w vs) eqn:Hv.
  - pose proof (attempt_result _ _ _ _ _ (grow_attempt w log vs Hok Hcan Hv)) as Hg.
    destruct (LsmtRwGrow.grow vs w) as [r w'].
    assert (same_bytes w w' /\ top_ok w' /\ match r with Ok _ => rw_vsize w' = vs | Err f => any_errno f end) as (Hb & Ht & Hr).
    { destruct r as [u|f].
      - destruct Hg as (H1 & H2 & H3). split; [done|]. split; [by eapply rw_ok_top|done].
      - destruct Hg as (He & Hb & [[H1 _]|Hg]); (split; [done|]); (split; [|done]); [by eapply rw_ok_top|].
        destruct Hg as (F1 & F2 & _ & _ & Hp). split; [eapply same_bytes_wf; [done|done|by eapply pending_sectors]|].
        rewrite F1, F2. done. }
    split; [done|]. pose proof Hb as (Es & _). split; [done|]. split; [|done]. intros i.
    rewrite !rw_top_byte by (done || apply Ht). by rewrite (same_bytes_view w w' Hwf Hb), Es.
  - pose proof Hcan as (G1 & G2 & _).
    rewrite grow_runs, (pair_grow_refuses w log vs Hok Hv) by (done || by rewrite Hj).
    rewrite (same_layer w log Hok) by (by apply orb_false_iff in G1 as [_ ?]).
    split; [done|]. split; [done|]. split; [done|]. destruct (Z.eqb_spec vs (rw_vsize w)); [done|auto with errno].
Qed.

#[export] Instance lsmt_rw_spec {W} :
  WritableSpec (T := LsmtRwLayer) (W := W) top_ok only_io payload top_room top_discardable top_growable.
Proof.
  split.
  - intros w (Hw & _). apply (live_index _ _ _ (wf_live _ Hw)).
  - by intros w (_ & _ & H).
  - intros w. exists (p_script (rw_pair w)). by destruct w as [[]].
  - intros w w' Hok Hs. split; [by eapply only_io_ok|]. by apply top_same.
  - intros w _. apply view_pread_delivers.
  - intros w buf off _. by apply top_pwrite.
  - intros w off len _ Hok _. by apply top_discard.
  - done.
  - done.
  - intros w Hok. pose proof (top_flush w Hok) as H. cbn [wl_flush lsmt_rw_writable].
    destruct (LsmtRw.flush w) as [r w']. destruct H as [Hs Hr]. destruct (top_same _ _ Hs) as (E1 & E2 & _).
    split; [by eapply only_io_ok|]. split; [done|]. split; [done|]. split; [|done]. intros i. by apply top_byte_same.
  - intros w vs Hok Hg. pose proof (top_grow (W := W) w vs Hok Hg) as H. cbn [wl_grow lsmt_rw_writable].
    destruct (LsmtRwGrow.grow vs w) as [r w']. destruct H as (H1 & H2 & H3 & H4). split; [done|]. by split.
Qed.

(** ** The properties of the device *)

Section Claims.
Context {T W : Type} `{WL : WritableLayer T W}.
Context (ok : T -> Prop) (same : T -> T -> Prop) (payload : T -> Z -> Z) (room : T -> Z -> Prop) (discardable : T -> Z -> Z -> Prop) (growable : T -> Prop).
Context `{WS : !WritableSpec ok same payload room discardable growable}.
Context (cs : list (Z -> Z)) (s : MergedWritable T W).
Context (Hs : mw_ok ok cs s) (Hc : counted s).

(** C17. Writing to the device.  Over any top that meets the contract of
    [WritableLayer], with or without a current view, a write that returns has
    written all of its buffer, the range reads back as the buffer and every other
    byte of the device is unchanged; a failed write changes nothing outside its
    range.  In every case the merged snapshot agrees with the layers or has been
    dropped, and the admission count is released. *)
Theorem device_write_correct buf off :
  room (mw_top s) (zlen buf) -> 0 <= off ->
  let '(r, s') := mw_pwrite buf off s in
  mw_ok ok cs s' /\ mw_active_ops s' = mw_active_ops s /\ mw_vsize s' = mw_vsize s /\
  (forall i, 0 <= i < mw_vsize s -> ~ off <= i < off + zlen buf ->
     device payload cs s' i = device payload cs s i) /\
  match r with
  | Ok n => n = zlen buf /\ is_Some (mw_index s') /\
            (forall i, off <= i < off + zlen buf -> device payload cs s' i = bget buf (i - off))
  | Err f => any_errno f
  end.
Proof.
  intros Hr Ho. pose proof (mw_pwrite_spec ok same payload room discardable growable cs s buf off Hs Hc Hr Ho) as H.
  destruct (mw_pwrite buf off s) as [r s']. destruct H as [(H1 & _ & H3 & H4 & _ & H6 & H7) Hn].
  split; [done|]. split; [done|]. split; [done|]. split; [done|]. destruct r as [n|f]; [|done].
  split; [by apply Hn|done].
Qed.

(** C18. Reading the device.  A read returns exactly the bytes of the topmost
    layer covering each sector, zeroes where none does, up to the end of the
    device, or reports an error; once the snapshot has been dropped reads fail
    rather than show a stale mapping.  The device does not change. *)
Theorem device_read_correct count off :
  0 <= off -> 0 <= count ->
  let '(r, s') := mw_pread count off s in
  mw_ok ok cs s' /\ (forall i, device payload cs s' i = device payload cs s i) /\
  match r with
  | Ok bs => bs = slice (device payload cs s) off (avail (mw_vsize s) count off) /\
             (is_Some (mw_index s) \/ avail (mw_vsize s) count off <= 0)
  | Err f => any_errno f
  end.
Proof.
  intros Ho Hn. pose proof (mw_pread_spec ok same payload room discardable growable cs s count off Hs Hc Ho Hn) as H.
  destruct (mw_pread count off s) as [r s'] eqn:E. destruct H as [[Hd Hr] Hx].
  destruct (same_device_ok ok same payload room discardable growable cs s s' Hs Hd) as [H1 H2].
  split; [done|]. split; [done|]. destruct r as [bs|f]; [|done]. split; [done|].
  destruct (mw_index s) as [index|] eqn:Hi; [by left|]. right.
  destruct (misaligned off count) eqn:Hal; [by unfold mw_pread in E; rewrite Hal in E|].
  unfold avail. destruct (decide (off < mw_vsize s)); [|lia]. destruct (decide (0 < count)); [|lia].
  by specialize (Hx eq_refl eq_refl ltac:(lia) ltac:(lia)).
Qed.

(** Discarding.  A discard that returns makes its range read as zeroes, also
    where a lower layer has data, and changes nothing else; a failed one changes
    nothing outside its range. *)
Theorem device_discard_correct off len :
  discardable (mw_top s) off len -> 0 <= off -> 0 <= len ->
  let '(r, s') := mw_discard off len s in
  mw_ok ok cs s' /\ mw_active_ops s' = mw_active_ops s /\
  (forall i, 0 <= i < mw_vsize s -> ~ off <= i < off + len ->
     device payload cs s' i = device payload cs s i) /\
  match r with
  | Ok _ => is_Some (mw_index s') /\ forall i, off <= i < off + len -> device payload cs s' i = 0
  | Err f => any_errno f
  end.
Proof.
  intros Hd Ho Hl. pose proof (mw_discard_spec ok same payload room discardable growable cs s off len Hs Hc Hd Ho Hl) as H.
  destruct (mw_discard off len s) as [r s']. by destruct H as (H1 & _ & H3 & H4 & _ & H6 & H7).
Qed.

(** C19. Flushing and growing keep every byte of the device, whatever they return,
    and a growth that returns zero has the requested capacity. *)
Theorem device_flush_grow_correct vs :
  growable (mw_top s) ->
  (let '(r, s') := mw_flush s in
   keeps_device ok payload cs s s' /\ mw_vsize s' = mw_vsize s /\
   match r with Ok _ => True | Err f => any_errno f end) /\
  (let '(r, s') := mw_grow vs s in
   keeps_device ok payload cs s s' /\
   match r with Ok _ => mw_vsize s' = vs | Err f => any_errno f /\ mw_vsize s' = mw_vsize s end).
Proof.
  intros Hg. split; [by apply (mw_flush_spec ok same payload room discardable growable cs)|].
  by apply (mw_grow_spec ok same payload room discardable growable cs).
Qed.
End Claims.

(** The incremental repair.  After a mutation that is local to a range, the
    index spliced from the old snapshot and the top's new entries maps every
    sector as the full merge of all layers does, is well-formed and within the
    size limit. *)
Theorem splice_equals_merge old_top new_top lower old lo hi next :
  Forall (index_ok 0) (old_top :: lower) -> index_ok 0 new_top -> zlen lower + 1 <= 256 ->
  0 <= lo < hi -> hi <= kMaxOffset ->
  (forall x, ~ lo <= x < hi -> resolve new_top x = resolve old_top x) ->
  merge_indexes (old_top :: lower) [] = Ok old ->
  splice old new_top lo hi = Some next ->
  index_ok 0 next /\ zlen next <= kMaxRoIndexSize /\
  forall full, merge_indexes (new_top :: lower) [] = Ok full -> next ≡ₛ full.
Proof.
  intros Hw Hn Hz Hlo Hhi Hloc Hold Hsp. apply Forall_cons in Hw as [Ho Hl].
  destruct (merge_indexes_spec (old_top :: lower) old) as (M1 & _ & M3);
    [by constructor|rewrite zlen_cons; lia|done|].
  destruct (splice_spec old new_top lo hi next M1 Hn Hlo Hhi Hsp) as (S1 & S2 & S3 & S4).
  split; [done|]. split; [done|]. intros full Hf.
  destruct (merge_indexes_spec (new_top :: lower) full) as (_ & _ & F3); [by constructor|rewrite zlen_cons; lia|done|].
  intros x. rewrite S4, F3, M3. cbn [stack_resolve]. destruct (decide (lo <= x < hi)) as [Hx|Hx].
  - rewrite (proj2 (Z.leb_le lo x)), (proj2 (Z.ltb_lt x hi)), !within_true by lia. cbn [andb].
    specialize (S3 x Hx). by destruct (resolve new_top x).
  - rewrite (Hloc x Hx). replace ((lo <=? x) && (x <? hi)) with false; [done|].
    destruct (Z.leb_spec lo x), (Z.ltb_spec x hi); cbn; done || lia.
Qed.

(** ** Witnesses *)

(** A new layer over one sealed layer of a constant blob. *)
Definition example_device : MergedWritable LsmtRwLayer unit :=
  MW [example_layer 1048576 [Seg 0 4 8 false 0]] (fresh_layer FilePair.example_header [], tt)
    (Some [Seg 0 4 8 false 1]) 1048576 0 false.

Lemma example_segment_ok t : 0 <= t < 256 -> index_ok 0 [Seg 0 4 8 false t].
Proof.
  intros Ht. apply index_ok_cons. split; [|split; [done|apply index_ok_nil]].
  repeat split; cbn; unfold kMaxOffset, kMaxLength; lia.
Qed.

Lemma example_device_ok : mw_ok top_ok [fun _ => 7] example_device.
Proof.
  split; try done.
  - eapply rw_ok_top, fresh_layer_ok, example_header_ok.
  - apply Forall_singleton. by apply example_segment_ok.
  - apply Forall2_cons_2; [|apply Forall2_nil_2]. apply fn_source_spec; [lia|by split].
  - split; [by apply example_segment_ok|]. intros x. unfold stack_cell. cbn. unfold within, covers, fin. cbn.
    change (0 + 4) with 4. destruct (Z.leb_spec 0 x), (Z.ltb_spec x 4), (Z.ltb_spec x kMaxOffset); cbn; try done.
    unfold kMaxOffset in *. lia.
Qed.

Lemma example_device_counted : counted example_device.
Proof. by split. Qed.

Lemma device_write_correct_witness :
  let s := example_device in
  let buf := replicate 1024 9 in
  let '(r, s') := mw_pwrite buf 1536 s in
  mw_ok top_ok [fun _ => 7] s' /\ mw_active_ops s' = mw_active_ops s /\ mw_vsize s' = mw_vsize s /\
  (forall i, 0 <= i < mw_vsize s -> ~ 1536 <= i < 1536 + zlen buf ->
     device payload [fun _ => 7] s' i = device payload [fun _ => 7] s i) /\
  match r with
  | Ok n => n = zlen buf /\ is_Some (mw_index s') /\
            (forall i, 1536 <= i < 1536 + zlen buf -> device payload [fun _ => 7] s' i = bget buf (i - 1536))
  | Err f => any_errno f
  end.
Proof.
  apply (device_write_correct top_ok only_io payload top_room top_discardable top_growable [fun _ => 7] example_device
    example_device_ok example_device_counted); done.
Defined.

Lemma device_read_correct_witness :
  let s := example_device in
  let '(r, s') := mw_pread 4096 0 s in
  mw_ok top_ok [fun _ => 7] s' /\ (forall i, device payload [fun _ => 7] s' i = device payload [fun _ => 7] s i) /\
  match r with
  | Ok bs => bs = slice (device payload [fun _ => 7] s) 0 (avail (mw_vsize s) 4096 0) /\
             (is_Some (mw_index s) \/ avail (mw_vsize s) 4096 0 <= 0)
  | Err f => any_errno f
  end.
Proof.
  apply (device_read_correct top_ok only_io payload top_room top_discardable top_growable [fun _ => 7] example_device
    example_device_ok example_device_counted); done.
Defined.

Lemma device_discard_correct_witness :
  let s := example_device in
  let '(r, s') := mw_discard 512 1024 s in
  mw_ok top_ok [fun _ => 7] s' /\ mw_active_ops s' = mw_active_ops s /\
  (forall i, 0 <= i < mw_vsize s -> ~ 512 <= i < 512 + 1024 ->
     device payload [fun _ => 7] s' i = device payload [fun _ => 7] s i) /\
  match r with
  | Ok _ => is_Some (mw_index s') /\ forall i, 512 <= i < 512 + 1024 -> device payload [fun _ => 7] s' i = 0
  | Err f => any_errno f
  end.
Proof.
  apply (device_discard_correct top_ok only_io payload top_room top_discardable top_growable [fun _ => 7] example_device
    example_device_ok example_device_counted); done.
Defined.

Lemma device_flush_grow_correct_witness :
  let s := example_device in
  (let '(r, s') := mw_flush s in
   keeps_device top_ok payload [fun _ => 7] s s' /\ mw_vsize s' = mw_vsize s /\
   match r with Ok _ => True | Err f => any_errno f end) /\
  (let '(r, s') := mw_grow 2097152 s in
   keeps_device top_ok payload [fun _ => 7] s s' /\
   match r with Ok _ => mw_vsize s' = 2097152 | Err f => any_errno f /\ mw_vsize s' = mw_vsize s end).
Proof.
  apply (device_flush_grow_correct top_ok only_io payload top_room top_discardable top_growable [fun _ => 7] example_device
    example_device_ok example_device_counted).
  split; [done|]. do 2 (split; [done|]). split; [apply fresh_canonical, example_header_ok|done].
Defined.

Lemma splice_equals_merge_witness :
  let old := [Seg 0 4 8 false 1] in
  let next := [Seg 0 2 8 false 1; Seg 2 1 8 false 0; Seg 3 1 11 false 1] in
  splice old [Seg 2 1 8 false 0] 2 3 = Some next /\
  index_ok 0 next /\ zlen next <= kMaxRoIndexSize /\
  forall full, merge_indexes [[Seg 2 1 8 false 0]; [Seg 0 4 8 false 0]] [] = Ok full -> next ≡ₛ full.
Proof.
  split; [reflexivity|].
  apply (splice_equals_merge [] [Seg 2 1 8 false 0] [[Seg 0 4 8 false 0]] [Seg 0 4 8 false 1] 2 3); try done.
  - repeat constructor; cbn; unfold kMaxOffset, kMaxLength; lia.
  - repeat constructor; cbn; unfold kMaxOffset, kMaxLength; lia.
  - intros x Hx. cbn. by rewrite (proj2 (covers_false _ x)) by (unfold fin; cbn; lia).
Defined.

(** Too many layers.  Opening a writable device does not bound its stack.
    With 256 layers below the top the tag of the bottom layer wraps to that of
    the top: its sector, which the bottom layer alone maps, is looked up in the
    writable layer's payload file. *)
Theorem deep_stack_wraps {T W : Type} `{WL : WritableLayer T W} top w (bottom empty : LsmtLayer W) :
  wl_segments top = [] -> wl_snapshot_ok top = true -> l_segments empty = [] ->
  l_segments bottom = [Seg 0 1 8 false 0] ->
  exists s, mw_open (bottom :: replicate 255 empty) (Some top) w = Ok s /\
    resolve (default [] (mw_index s)) 0 = Data 0 8 /\
    stack_cell (wl_segments (mw_top s)) (mw_layers s) 0 = Data 256 8.
Proof.
  intros Ht Hsn He Hb. unfold mw_open.
  set (v := foldl _ _ _). set (layers := reverse (bottom :: replicate 255 empty)).
  assert (l_segments <$> layers = replicate 255 [] ++ [[Seg 0 1 8 false 0]]) as Hl.
  { unfold layers. rewrite reverse_cons, reverse_replicate, fmap_app, fmap_replicate. cbn. by rewrite He, Hb. }
  unfold rebuild_index. cbn [mw_top mw_world fst mw_layers]. rewrite Hsn, Ht, Hl. cbn [negb].
  assert (merge_indexes ([] :: replicate 255 [] ++ [[Seg 0 1 8 false 0]]) [] = Ok [Seg 0 1 8 false 0]) as ->
    by (vm_compute; reflexivity).
  eexists. split; [reflexivity|]. split; [reflexivity|]. unfold stack_cell. cbn [mw_top set_index mw_world fst mw_layers].
  rewrite Ht, Hl. vm_compute. reflexivity.
Qed.

Lemma deep_stack_wraps_witness :
  let bottom := example_layer 4096 [Seg 0 1 8 false 0] in
  let empty := example_layer 4096 [] in
  exists s, mw_open (bottom :: replicate 255 empty) (Some (fresh_layer FilePair.example_header [])) tt = Ok s /\
    resolve (default [] (mw_index s)) 0 = Data 0 8 /\
    stack_cell (wl_segments (W := unit) (mw_top s)) (mw_layers s) 0 = Data 256 8.
Proof.
  intros bottom empty.
  by apply (deep_stack_wraps (W := unit) (fresh_layer FilePair.example_header []) tt bottom empty).
Defined.
