(* ===== verification/DeviceGate.v ===== *)
(** * Admission to the device under interleaving ([format/merged_writable.cpp])

    Reads, writes, discards, flushes and growths of one device run as
    coroutines and on a blocking pool.  Each admission and release is one step
    under [state_gate_mu_]; between them an operation awaits, so any order of
    steps can happen.  The state pairs the device with the operations that have
    been admitted and not released. *)
From stdpp Require Import relations.
From S2P Require Import Prelude Bytes LsmtFormat Source Segments Merge Lsmt MergedWritable.

Open Scope Z_scope.

Section Gate.
Context {T W : Type}.

Record gate_state := Gate {
  g_dev : MergedWritable T W;
  g_ops : list (Z * Z);  (* offset and length of each admitted operation *)
  g_growing : bool;
}.

(** Fewer operations are in flight than the counter can count: each holds a
    request tag of the queue. *)
Definition can_count (g : gate_state) : Prop := zlen (g_ops g) + 1 < 2 ^ 32.

(** Releases. *)
Inductive release : gate_state -> gate_state -> Prop :=
  | release_data d pre o post growing :
      release (Gate d (pre ++ o :: post) growing) (Gate (end_data_op d) (pre ++ post) growing)
  | release_grow d ops : release (Gate d ops true) (Gate (end_grow_op d) ops false).

Inductive gate_step : gate_state -> gate_state -> Prop :=
  | step_data g off len d' :
      0 <= off -> 0 <= len -> can_count g -> begin_data_op off len (g_dev g) = (Ok tt, d') ->
      gate_step g (Gate d' ((off, len) :: g_ops g) (g_growing g))
  | step_flush g d' :
      can_count g -> begin_flush_op (g_dev g) = (Ok tt, d') ->
      gate_step g (Gate d' ((0, 0) :: g_ops g) (g_growing g))
  | step_grow g d' :
      begin_grow_op (g_dev g) = (Ok tt, d') -> gate_step g (Gate d' (g_ops g) true)
  | step_widen d ops vs :
      mw_vsize d <= vs -> gate_step (Gate d ops true) (Gate (set_vsize d vs) ops true)
  | step_release g g' : release g g' -> gate_step g g'.

Definition idle (g : gate_state) : Prop :=
  g_ops g = [] /\ g_growing g = false /\ mw_active_ops (g_dev g) = 0 /\
  mw_grow_active (g_dev g) = false /\ 0 <= mw_vsize (g_dev g).

(** A growth runs alone, and an admitted operation stays inside the device. *)
Record gate_ok (g : gate_state) : Prop := {
  go_count : mw_active_ops (g_dev g) = zlen (g_ops g) /\ zlen (g_ops g) < 2 ^ 32;
  go_grow : mw_grow_active (g_dev g) = g_growing g;
  go_alone : g_growing g = true -> g_ops g = [];
  go_inside : Forall (fun o => o.1 + o.2 <= mw_vsize (g_dev g)) (g_ops g);
  go_vsize : 0 <= mw_vsize (g_dev g);
}.

Lemma admit_ok g d' o :
  gate_ok g -> can_count g -> mw_grow_active (g_dev g) = false -> o.1 + o.2 <= mw_vsize (g_dev g) ->
  d' = set_gate (g_dev g) (u32 (mw_active_ops (g_dev g) + 1)) (mw_grow_active (g_dev g)) ->
  gate_ok (Gate d' (o :: g_ops g) (g_growing g)).
Proof.
  intros [[H1 H2] H3 H4 H5 H6] Hc Hg Ho ->. unfold can_count in Hc. pose proof (zlen_nonneg (g_ops g)).
  split; cbn [g_dev g_ops g_growing set_gate mw_active_ops mw_grow_active mw_vsize]; rewrite ?zlen_cons.
  - rewrite H1, u32_small by lia. lia.
  - done.
  - rewrite <- H3, Hg. done.
  - by constructor.
  - done.
Qed.

Lemma release_ok g g' : gate_ok g -> release g g' -> gate_ok g'.
Proof.
  intros [[H1 H2] H3 H4 H5 H6] Hr. destruct Hr as [d pre o post growing|d ops]; cbn in *.
  - assert (zlen (pre ++ o :: post) = zlen (pre ++ post) + 1) as Hz.
    { unfold zlen. rewrite !length_app. cbn. lia. }
    pose proof (zlen_nonneg (pre ++ post)). split; cbn.
    + rewrite H1, Hz, u32_small by lia. lia.
    + done.
    + intros Hg. specialize (H4 Hg). by destruct pre.
    + apply Forall_app in H5 as [? H5]. apply Forall_cons in H5 as [_ ?]. by apply Forall_app.
    + done.
  - specialize (H4 eq_refl). subst ops. by split.
Qed.

Lemma step_ok g g' : gate_ok g -> gate_step g g' -> gate_ok g'.
Proof.
  intros Hg Hs. pose proof Hg as [[H1 H2] H3 H4 H5 H6].
  destruct Hs as [g off len d' Ho Hl Hc Hb|g d' Hc Hb|g d' Hb|d ops vs Hv|g g' Hr].
  - unfold begin_data_op in Hb. destruct (mw_grow_active (g_dev g)) eqn:Ha; [done|].
    case_if_in Hb; [done|]. injection Hb as <-. apply admit_ok; try done; cbn; [lia|by rewrite Ha].
  - unfold begin_flush_op in Hb. destruct (mw_grow_active (g_dev g)) eqn:Ha; [done|].
    injection Hb as <-. apply admit_ok; try done. by rewrite Ha.
  - unfold begin_grow_op in Hb. case_if_in Hb; [done|]. injection Hb as <-. split; try done. intros _. cbn.
    rewrite H1 in *. unfold zlen in *. by destruct (g_ops g).
  - specialize (H4 eq_refl). cbn in H4. subst ops. split; cbn in *; try done. lia.
  - by eapply release_ok.
Qed.

Lemma idle_ok g : idle g -> gate_ok g.
Proof. intros (H1 & H2 & H3 & H4 & H5). split; rewrite ?H1, ?H2, ?H3, ?H4; done. Qed.

Lemma reachable_ok g g' : gate_ok g -> rtc gate_step g g' -> gate_ok g'.
Proof. intros Hg Hr. induction Hr as [g|g g1 g2 Hs _ IH]; [done|]. apply IH. by eapply step_ok. Qed.

(** C20. Admission.  However admissions and releases interleave, a growth never
    runs together with an admitted read, write, discard or flush, every admitted
    operation's range stays inside the device, and the counter is the number of
    operations in flight. *)
Theorem gate_exclusion g0 g : idle g0 -> rtc gate_step g0 g -> gate_ok g.
Proof. intros Hi Hr. by eapply reachable_ok; [apply idle_ok|]. Qed.

(** Releasing everything that is in flight. *)
Lemma drain g :
  gate_ok g -> exists g', rtc release g g' /\ g_ops g' = [] /\ g_growing g' = false /\ gate_ok g'.
Proof.
  intros Hg. remember (g_ops g) as ops eqn:E. revert g E Hg. induction ops as [|o ops IH]; intros g E Hg.
  - destruct g as [d ops' growing]. cbn in E. subst ops'. destruct growing; [|by exists (Gate d [] false)].
    exists (Gate (end_grow_op d) [] false). split; [apply rtc_once; constructor|]. split; [done|]. split; [done|].
    eapply release_ok; [exact Hg|constructor].
  - destruct g as [d ops' growing]. cbn in E. subst ops'.
    assert (release (Gate d (o :: ops) growing) (Gate (end_data_op d) ops growing)) as Hr
      by apply (release_data d [] o ops growing).
    destruct (IH (Gate (end_data_op d) ops growing)) as (g' & H1 & H2); [done|by eapply release_ok|].
    exists g'. split; [by eapply rtc_l|done].
Qed.

(** No operation is shut out for good.  From every reachable state the
    operations in flight can all finish, and then a growth is admitted, and so is
    any data operation whose range is inside the device. *)
Theorem gate_progress g0 g :
  idle g0 -> rtc gate_step g0 g ->
  exists g', rtc release g g' /\
    (exists d', begin_grow_op (g_dev g') = (Ok tt, d')) /\
    forall off len, 0 <= off -> 0 <= len -> off + len <= mw_vsize (g_dev g') ->
      exists d', begin_data_op off len (g_dev g') = (Ok tt, d').
Proof.
  intros Hi Hr. destruct (drain g ltac:(by eapply reachable_ok; [apply idle_ok|])) as (g' & H1 & H2 & H3 & [[C1 _] C2 _ _ C3]). exists g'. split; [done|].
  rewrite H2 in C1. rewrite H3 in C2. unfold begin_grow_op, begin_data_op. rewrite C1, C2. cbn. split; [by eexists|].
  intros off len Ho Hl Hv. rewrite (proj2 (Z.ltb_ge _ _)), (proj2 (Z.ltb_ge _ _)) by lia. by eexists.
Qed.
End Gate.
Arguments gate_state : clear implicits.

Definition example_gate : gate_state unit unit := Gate (MW [] (tt, tt) None 4096 0 false) [] false.
Definition example_busy : gate_state unit unit := Gate (MW [] (tt, tt) None 4096 1 false) [(512, 1024)] false.

Lemma example_admitted : rtc gate_step example_gate example_busy.
Proof. apply rtc_once. by apply (step_data example_gate 512 1024 _). Qed.

Lemma gate_exclusion_witness : gate_ok example_busy.
Proof. by apply (gate_exclusion example_gate); [|apply example_admitted]. Defined.

Lemma gate_progress_witness :
  exists g', rtc release example_busy g' /\
    (exists d', begin_grow_op (g_dev g') = (Ok tt, d')) /\
    forall off len, 0 <= off -> 0 <= len -> off + len <= mw_vsize (g_dev g') ->
      exists d', begin_data_op off len (g_dev g') = (Ok tt, d').
Proof. by apply (gate_progress example_gate); [|apply example_admitted]. Defined.
