(* ===== verification/SparseIndex.v ===== *)
(** * The extent index of the sparse layer ([sparse_rw.cpp])

    The vector operations of the sparse writable layer: coalescing, ordered
    insertion, appending, cutting a range out, and the two scans that classify a
    range.  Each is specified by what the resulting index says of every sector. *)
From stdpp Require Import sorting.
From S2P Require Import Prelude Bytes LsmtFormat Segments Merge Trim.

Open Scope Z_scope.

Definition can_coalesce (a b : segment_mapping) : bool :=
  if negb (eqb (s_zeroed a) (s_zeroed b)) || (seg_end a <? s_offset b) then false else
  let merged_end := Z.max (seg_end a) (seg_end b) in
  let merged_len := u64 (merged_end - s_offset a) in
  if kMaxLength <? merged_len then false else
  if s_zeroed a then true else
  u64 (s_moffset a + (s_offset b - s_offset a)) =? s_moffset b.

(** The longer length, without the second entry. *)
Definition coalesced (a b : segment_mapping) : segment_mapping :=
  with_length a (u32 (Z.max (seg_end a) (seg_end b) - s_offset a)).

(** The entry [it] of the vector and what follows it. *)
Fixpoint coalesce_with_next (it : segment_mapping) (rest : list segment_mapping) : list segment_mapping :=
  match rest with
  | next :: rest' => if can_coalesce it next then coalesce_with_next (coalesced it next) rest' else it :: rest
  | [] => [it]
  end.

Fixpoint sparse_insert_sorted (v : list segment_mapping) (m : segment_mapping) : list segment_mapping :=
  match v with
  | prev :: v' =>
      if s_offset prev <? s_offset m then
        match v' with
        | s :: _ =>
            if s_offset s <? s_offset m then prev :: sparse_insert_sorted v' m
            else if can_coalesce prev m then coalesce_with_next (coalesced prev m) v'
            else prev :: coalesce_with_next m v'
        | [] => if can_coalesce prev m then coalesce_with_next (coalesced prev m) v'
                else prev :: coalesce_with_next m v'
        end
      else coalesce_with_next m v
  | [] => coalesce_with_next m v
  end.

Definition push_coalesced (v : list segment_mapping) (m : segment_mapping) : list segment_mapping :=
  if s_length m =? 0 then v else
  match last v with
  | Some back => if can_coalesce back m then removelast v ++ [coalesced back m] else v ++ [m]
  | None => v ++ [m]
  end.

Definition zero_mapping (cur n : Z) : segment_mapping := Seg cur (u32 n) 0 true 0.
Definition live_mapping (cur n : Z) : segment_mapping := Seg cur (u32 n) cur false 0.

Fixpoint push_zero_loop (fuel : nat) (v : list segment_mapping) (cur hi : Z) : list segment_mapping :=
  match fuel with
  | O => v
  | S fuel =>
      if cur <? hi then
        let n := Z.min (hi - cur) kMaxLength in
        push_zero_loop fuel (push_coalesced v (zero_mapping cur n)) (cur + n) hi
      else v
  end.
Definition push_zero_range (v : list segment_mapping) (lo hi : Z) : list segment_mapping :=
  push_zero_loop (Z.to_nat (hi - lo)) v lo hi.

Fixpoint live_loop (fuel : nat) (v : list segment_mapping) (cur hi : Z) : list segment_mapping :=
  match fuel with
  | O => v
  | S fuel =>
      if cur <? hi then
        let n := Z.min (hi - cur) kMaxLength in
        live_loop fuel (sparse_insert_sorted v (live_mapping cur n)) (cur + n) hi
      else v
  end.
Definition insert_live_extent_into (v : list segment_mapping) (off len : Z) : list segment_mapping :=
  live_loop (Z.to_nat len) v off (off + len).

Definition erase_range_from (v : list segment_mapping) (lo hi : Z) : list segment_mapping :=
  if hi <=? lo then v else cut lo hi v.

Fixpoint data_scan (it : list segment_mapping) (covered hi : Z) : bool :=
  match it with
  | s :: it =>
      if covered <? hi then
        if s_zeroed s || (covered <? s_offset s) || (seg_end s <=? covered) then false
        else data_scan it (seg_end s) hi
      else true
  | [] => hi <=? covered
  end.
Definition range_is_data (segments : list segment_mapping) (lo hi : Z) : bool :=
  data_scan (drop (pred (upper_bound (fun s => lo <? s_offset s) segments)) segments) lo hi.

(** The scan of [write_extents] for a block it owns. *)
Fixpoint owned_scan (it : list segment_mapping) (cursor hi : Z) : bool :=
  match it with
  | s :: it =>
      if seg_end s <=? cursor then owned_scan it cursor hi
      else if cursor <? s_offset s then false
      else if hi <=? seg_end s then true
      else owned_scan it (seg_end s) hi
  | [] => false
  end.

(** ** Coalescing *)

Lemma can_coalesce_ok a b :
  seg_ok a -> seg_ok b -> untagged a -> untagged b -> fin a <= s_offset b -> can_coalesce a b = true ->
  seg_ok (coalesced a b) /\ untagged (coalesced a b) /\ s_offset (coalesced a b) = s_offset a /\
  fin (coalesced a b) = fin b /\ forall x, resolve [coalesced a b] x = resolve [a; b] x.
Proof.
  intros Ha Hb Ta Tb Hf. unfold can_coalesce, coalesced. rewrite !seg_ok_end by done.
  pose proof Ha as (A1 & A2 & A3 & A4 & A5). pose proof Hb as (B1 & B2 & B3 & B4 & B5).
  destruct (eqb _ _) eqn:Ez; [|done]. apply eqb_prop in Ez. cbn [negb orb].
  destruct (Z.ltb_spec (fin a) (s_offset b)); [done|]. cbv zeta.
  rewrite (Z.max_r (fin a)) by (unfold fin in *; lia).
  assert (fin b - s_offset a = s_length a + s_length b) as En by (unfold fin in *; lia). rewrite En.
  unfold kMaxLength in *. rewrite (u64_small (s_length a + _)), u32_small by lia.
  destruct (Z.ltb_spec (2 ^ 14 - 1) (s_length a + s_length b)); [done|]. intros Hm.
  destruct (fuse_ok a b) as (F1 & F2 & F3); try done; unfold untagged, kMaxLength in *; try lia; try congruence.
  intros Hz. rewrite Ez, Hz in Hm. apply Z.eqb_eq in Hm.
  replace (s_offset b - s_offset a) with (s_length a) in Hm by (unfold fin in *; lia).
  rewrite Ez in A5. specialize (A5 Hz). rewrite u64_small in Hm by lia. done.
Qed.

Lemma coalesce_with_next_ok z it rest :
  index_ok z (it :: rest) -> Forall untagged (it :: rest) ->
  let v := coalesce_with_next it rest in index_ok z v /\ Forall untagged v /\ v ≡ₛ it :: rest.
Proof.
  revert it. induction rest as [|next rest IH]; intros it Hok Ht; cbn [coalesce_with_next]; [done|].
  cbv zeta. destruct (can_coalesce it next) eqn:Hc; [|done].
  apply index_ok_cons in Hok as (Hit & Hz & Hok). apply index_ok_cons in Hok as (Hn & Hf & Hok).
  apply Forall_cons in Ht as [Tit Ht]. apply Forall_cons in Ht as [Tn Ht].
  destruct (can_coalesce_ok it next) as (C1 & C2 & C3 & C4 & C5); try done.
  destruct (IH (coalesced it next)) as (G1 & G2 & G3).
  { apply index_ok_cons. rewrite C3, C4. done. }
  { by apply Forall_cons. }
  split; [done|]. split; [done|]. rewrite G3. change (coalesced it next :: rest) with ([coalesced it next] ++ rest).
  change (it :: next :: rest) with ([it; next] ++ rest). assert ([coalesced it next] ≡ₛ [it; next]) as -> by exact C5. done.
Qed.

Lemma cons_equiv s l k : l ≡ₛ k -> s :: l ≡ₛ s :: k.
Proof. intros H x. cbn [resolve]. by rewrite (H x). Qed.

Lemma sparse_insert_ok : inserts sparse_insert_sorted.
Proof.
  intros z L m R Hok Ht. cbv zeta. revert z Hok Ht. induction L as [|prev L IH]; intros z Hok Ht.
  - cbn [app] in *. pose proof (coalesce_with_next_ok z m R Hok Ht) as Hc. destruct R as [|r R]; [done|].
    apply index_ok_cons in Hok as ((_ & ? & _) & _ & Hr). apply index_ok_cons in Hr as (_ & Hr & _).
    cbn [sparse_insert_sorted]. by rewrite (proj2 (Z.ltb_ge _ _)) by (unfold fin in *; lia).
  - cbn [app] in *. pose proof Hok as Hok'. apply index_ok_cons in Hok as (Hp & Hz & Hok).
    pose proof Ht as Ht'. apply Forall_cons in Ht as [Tp Ht]. pose proof Hp as (_ & ? & _).
    assert (s_offset prev < s_offset m) as Hlt.
    { apply index_ok_app in Hok as [HL Hm]. apply index_ok_end_ge in HL. apply index_ok_cons in Hm as (_ & ? & _).
      unfold fin in *. lia. }
    cbn [sparse_insert_sorted]. rewrite (proj2 (Z.ltb_lt _ _)) by done. destruct L as [|s L].
    + cbn [app] in *. pose proof Hok as Hm'. apply index_ok_cons in Hok as (Hm & Hf & HR).
      apply Forall_cons in Ht as [Tm TR].
      assert (let v := if can_coalesce prev m then coalesce_with_next (coalesced prev m) R
                       else prev :: coalesce_with_next m R in
              index_ok z v /\ Forall untagged v /\ v ≡ₛ prev :: m :: R) as Hv.
      { cbv zeta. destruct (can_coalesce prev m) eqn:Hc.
        - pose proof (coalesce_with_next_ok z prev (m :: R) Hok' Ht') as G. cbn [coalesce_with_next] in G.
          by rewrite Hc in G.
        - destruct (coalesce_with_next_ok (fin prev) m R Hm') as (G1 & G2 & G3); [by apply Forall_cons|].
          split; [by apply index_ok_cons|]. split; [by apply Forall_cons|].
          by apply cons_equiv. }
      destruct R as [|r R]; [exact Hv|]. apply index_ok_cons in HR as (_ & Hr & _). destruct Hm as (_ & ? & _).
      rewrite (proj2 (Z.ltb_ge _ _)) by (unfold fin in *; lia). exact Hv.
    + cbn [app] in *. pose proof Hok as Hs. apply index_ok_cons in Hs as ((_ & Hsl & _) & _ & HL).
      apply index_ok_app in HL as [HL Hm]. apply index_ok_end_ge in HL. apply index_ok_cons in Hm as (_ & ? & _).
      rewrite (proj2 (Z.ltb_lt _ _)) by (unfold fin in *; lia).
      destruct (IH _ Hok Ht) as (G1 & G2 & G3). split; [by apply index_ok_cons|]. split; [by apply Forall_cons|].
      by apply cons_equiv.
Qed.

(** ** Inserting live extents *)

(** The index [v] with the cells of [lo, hi) replaced by [c]. *)
Definition remapped (v v' : list segment_mapping) (lo hi : Z) (c : Z -> cell) : Prop :=
  forall x, resolve v' x = if (lo <=? x) && (x <? hi) then c x else resolve v x.

Lemma live_mapping_ok cur n :
  0 <= cur -> 0 < n <= kMaxLength -> cur + n <= kMaxOffset ->
  seg_ok (live_mapping cur n) /\ fin (live_mapping cur n) = cur + n /\
  forall x, cur <= x < cur + n -> resolve [live_mapping cur n] x = Data 0 x.
Proof.
  intros Hc Hn Hm. unfold live_mapping, kMaxLength, kMaxOffset in *. rewrite u32_small by lia.
  split; [|split; [done|]].
  - unfold seg_ok, kMaxOffset, kMaxLength. cbn. repeat split; try lia.
  - intros x Hx. unfold resolve. rewrite (proj2 (covers_true _ x)) by (unfold fin; cbn; lia).
    unfold seg_cell. cbn. f_equal. lia.
Qed.

Lemma live_loop_ok fuel z v cur hi :
  index_ok z v -> Forall untagged v -> z <= cur -> 0 <= cur <= hi -> hi <= kMaxOffset -> (Z.to_nat (hi - cur) <= fuel)%nat ->
  (forall x, cur <= x < hi -> resolve v x = Hole) ->
  let v' := live_loop fuel v cur hi in
  index_ok z v' /\ Forall untagged v' /\ remapped v v' cur hi (Data 0).
Proof.
  revert v cur. induction fuel as [|fuel IH]; intros v cur Hv Ht Hz Hc Hm Hf Hx; cbv zeta; cbn [live_loop].
  { split; [done|]. split; [done|]. intros x. replace ((cur <=? x) && (x <? hi)) with false; [done|].
    destruct (Z.leb_spec cur x), (Z.ltb_spec x hi); done || lia. }
  destruct (Z.ltb_spec cur hi) as [Hlt|].
  2: { split; [done|]. split; [done|]. intros x. replace ((cur <=? x) && (x <? hi)) with false; [done|].
    destruct (Z.leb_spec cur x), (Z.ltb_spec x hi); done || lia. }
  set (n := Z.min (hi - cur) kMaxLength). assert (0 < n <= kMaxLength /\ cur + n <= hi) as [Hn1 Hn2] by (unfold n, kMaxLength; lia).
  destruct (live_mapping_ok cur n) as (M1 & M2 & M3); [lia|done|lia|].
  destruct (insert_free_with sparse_insert_sorted z v (live_mapping cur n) sparse_insert_ok) as (G1 & G2 & G3); try done.
  { intros x Hxr. apply Hx. rewrite M2 in Hxr. change (s_offset (live_mapping cur n)) with cur in Hxr. lia. }
  assert (forall x, resolve (sparse_insert_sorted v (live_mapping cur n)) x =
    if (cur <=? x) && (x <? cur + n) then Data 0 x else resolve v x) as G.
  { intros x. rewrite G3. destruct ((cur <=? x) && (x <? cur + n)) eqn:Hb; bool_hyps; [by rewrite M3|].
    cbn [resolve]. rewrite (proj2 (covers_false _ x)); [done|]. rewrite M2. change (s_offset (live_mapping cur n)) with cur.
    destruct (Z.leb_spec cur x), (Z.ltb_spec x (cur + n)); done || lia. }
  destruct (IH _ (cur + n) G1 G2) as (K1 & K2 & K3); [lia..| |].
  { intros x Hxr. rewrite G. rewrite (proj2 (Z.ltb_ge _ _)), andb_false_r by lia. apply Hx. lia. }
  split; [done|]. split; [done|]. intros x. rewrite K3, G.
  destruct (Z.leb_spec (cur + n) x), (Z.ltb_spec x hi), (Z.leb_spec cur x), (Z.ltb_spec x (cur + n)); cbn; done || lia.
Qed.

(** Cutting the range out and inserting it as live. *)
Lemma live_write_ok z v lo hi :
  index_ok z v -> Forall untagged v -> z <= lo -> 0 <= lo < hi -> hi <= kMaxOffset ->
  let v' := insert_live_extent_into (erase_range_from v lo hi) lo (hi - lo) in
  index_ok z v' /\ Forall untagged v' /\ remapped v v' lo hi (Data 0).
Proof.
  intros Hv Ht Hz Hl Hm. cbv zeta. unfold insert_live_extent_into, erase_range_from.
  rewrite (proj2 (Z.leb_gt _ _)) by lia. replace (lo + (hi - lo)) with hi by lia.
  destruct (live_loop_ok (Z.to_nat (hi - lo)) z (cut lo hi v) lo hi) as (G1 & G2 & G3); try done; try lia.
  - apply cut_index; done || lia.
  - by apply cut_Forall.
  - intros x Hx. rewrite (cut_resolve z) by (done || lia).
    by rewrite (proj2 (Z.leb_le _ _)), (proj2 (Z.ltb_lt _ _)) by lia.
  - split; [done|]. split; [done|]. intros x. rewrite G3. rewrite (cut_resolve z) by (done || lia). by case_if.
Qed.

(** ** Sorting *)

Definition by_offset (a b : segment_mapping) : Prop := s_offset a <= s_offset b.

Lemma insert_by_offset_perm m v : Permutation (insert_by_offset m v) (m :: v).
Proof.
  induction v as [|s v IH]; cbn; [done|]. case_if; [done|]. rewrite IH. apply Permutation_swap.
Qed.
Lemma sort_by_offset_perm v : Permutation (sort_by_offset v) v.
Proof. induction v as [|s v IH]; cbn; [done|]. by rewrite insert_by_offset_perm, IH. Qed.
Lemma sort_by_offset_sorted v : StronglySorted by_offset (sort_by_offset v).
Proof.
  induction v as [|s v IH]; cbn; [constructor|]. fold (sort_by_offset v). generalize dependent (sort_by_offset v).
  clear v. intros v Hv. induction Hv as [|a v Hv IH Ha]; cbn; [by repeat constructor|].
  destruct (Z.leb_spec (s_offset s) (s_offset a)) as [Hle|Hgt].
  - constructor; [by constructor|]. constructor; [done|]. eapply Forall_impl; [exact Ha|].
    unfold by_offset. intros. lia.
  - constructor; [done|]. rewrite Forall_forall in *. intros x Hx. rewrite insert_by_offset_perm in Hx.
    apply elem_of_cons in Hx as [-> |Hx]; [unfold by_offset; lia|auto].
Qed.

Lemma index_sorted z v : index_ok z v -> Forall (fun s => z <= s_offset s) v /\ StronglySorted by_offset v.
Proof.
  revert z. induction v as [|s v IH]; intros z; [intros _; split; constructor|].
  rewrite index_ok_cons. intros ((_ & ? & _) & Hz & Hv). destruct (IH _ Hv) as [H1 H2].
  split; (constructor; [done|]); eapply Forall_impl; try exact H1; unfold by_offset, fin in *; cbn; intros; lia.
Qed.

Lemma index_offset_inj z v a b : index_ok z v -> a ∈ v -> b ∈ v -> s_offset a = s_offset b -> a = b.
Proof.
  revert z. induction v as [|s v IH]; intros z; [by intros _ ?%not_elem_of_nil|].
  rewrite index_ok_cons. intros ((_ & ? & _) & Hz & Hv). destruct (index_sorted _ _ Hv) as [H1 _].
  rewrite Forall_forall in H1. unfold fin in *.
  intros [-> |Ha]%elem_of_cons [-> |Hb]%elem_of_cons E; [done| | |eauto];
    [specialize (H1 _ Hb)|specialize (H1 _ Ha)]; lia.
Qed.

(** Offsets of an index differ, so its sorted order is unique. *)
Lemma sort_by_offset_index z v k : index_ok z v -> Permutation k v -> sort_by_offset k = v.
Proof.
  intros Hv Hk. apply (StronglySorted_unique_strong by_offset).
  - intros a b Ha Hb H1 H2. rewrite sort_by_offset_perm, Hk in Ha. eapply index_offset_inj; [exact Hv|done|done|].
    unfold by_offset in *. lia.
  - apply sort_by_offset_sorted.
  - by apply (index_sorted z).
  - by rewrite sort_by_offset_perm.
Qed.

(** ** Appending a zeroed range *)

(** Above [c] the index does not end in zeroed sectors. *)
Definition no_zero_tail (v : list segment_mapping) (c : Z) : Prop :=
  forall x, c <= x -> resolve v x = Zero -> exists y t p, x < y /\ resolve v y = Data t p.

Lemma zero_mapping_ok cur n :
  0 <= cur -> 0 < n <= kMaxLength -> cur + n <= kMaxOffset ->
  seg_ok (zero_mapping cur n) /\ fin (zero_mapping cur n) = cur + n /\
  forall x, cur <= x < cur + n -> resolve [zero_mapping cur n] x = Zero.
Proof.
  intros Hc Hn Hm. unfold zero_mapping, kMaxLength, kMaxOffset in *. rewrite u32_small by lia.
  split; [|split; [done|]].
  - unfold seg_ok, kMaxOffset, kMaxLength. cbn. by repeat split; try lia.
  - intros x Hx. unfold resolve. by rewrite (proj2 (covers_true _ x)) by (unfold fin; cbn; lia).
Qed.

Lemma push_zero_once v lo hi :
  lo < hi -> hi - lo <= kMaxLength -> push_zero_range v lo hi = push_coalesced v (zero_mapping lo (hi - lo)).
Proof.
  intros Hl Hn. unfold push_zero_range. replace (Z.to_nat (hi - lo)) with (S (Z.to_nat (hi - lo - 1))) by lia.
  cbn [push_zero_loop]. rewrite (proj2 (Z.ltb_lt lo hi)) by done. cbv zeta. rewrite Z.min_l by done.
  replace (lo + (hi - lo)) with hi by lia. destruct (Z.to_nat (hi - lo - 1)); cbn [push_zero_loop]; [done|].
  by rewrite Z.ltb_irrefl.
Qed.

Lemma no_zero_tail_last z v c s :
  index_ok z (v ++ [s]) -> no_zero_tail (v ++ [s]) c -> c < fin s -> s_zeroed s = false.
Proof.
  intros Hv Hn Hc. destruct (s_zeroed s) eqn:Hz; [|done]. exfalso.
  assert (s ∈ v ++ [s]) as Hin by (apply elem_of_app; right; apply list_elem_of_here).
  assert (seg_ok s) as (_ & ? & _) by (destruct Hv as [Hv _]; rewrite Forall_forall in Hv; auto).
  destruct (Hn (fin s - 1)) as (y & t & p & Hy & Hr); [lia| |].
  - rewrite (resolve_elem _ s _ _ Hv Hin) by (unfold fin in *; lia). unfold seg_cell. by rewrite Hz.
  - rewrite (resolve_above _ _ _ Hv) in Hr; [done|]. rewrite end_from_snoc. lia.
Qed.

(** The zeroed range is appended to the vector, which is then sorted. *)
Lemma zero_append_ok z v lo hi :
  index_ok z v -> Forall untagged v -> z <= lo -> 0 <= lo < hi -> hi <= kMaxOffset -> hi - lo <= kMaxLength ->
  (forall x, lo <= x < hi -> resolve v x = Hole) -> no_zero_tail v hi ->
  let v' := sort_by_offset (push_zero_range v lo hi) in
  index_ok z v' /\ Forall untagged v' /\ remapped v v' lo hi (fun _ => Zero).
Proof.
  intros Hv Ht Hz Hl Hm Hn Hx Htail. cbv zeta. rewrite push_zero_once by lia.
  destruct (zero_mapping_ok lo (hi - lo)) as (M1 & M2 & M3); [lia|lia|lia|].
  replace (lo + (hi - lo)) with hi in M2, M3 by lia.
  set (m := zero_mapping lo (hi - lo)) in *. assert (s_offset m = lo) as M0 by done. assert (untagged m) as Mt by done.
  destruct (gap_split z v lo hi) as (L & R & -> & HL & He & HR); [done|lia|done|].
  rewrite Z.max_r in He by done. apply Forall_app in Ht as [TL TR].
  assert (index_ok z (L ++ m :: R)) as Hok.
  { apply index_ok_app. split; [done|]. apply index_ok_cons. rewrite M0, M2. done. }
  assert (Forall untagged (L ++ m :: R)) as Ht' by (apply Forall_app; split; [done|by apply Forall_cons]).
  assert (forall v', index_ok z v' -> Forall untagged v' -> v' ≡ₛ L ++ m :: R ->
    index_ok z v' /\ Forall untagged v' /\ remapped (L ++ R) v' lo hi (fun _ => Zero)) as Hfin.
  { intros v' H1 H2 H3. split; [done|]. split; [done|]. intros x. rewrite H3.
    change (m :: R) with ([m] ++ R). rewrite !resolve_app.
    destruct ((lo <=? x) && (x <? hi)) eqn:Hb; bool_hyps.
    - rewrite (resolve_above _ L x HL), M3 by lia. done.
    - cbn [resolve]. rewrite (proj2 (covers_false m x)); [done|]. rewrite M0, M2.
      destruct (Z.leb_spec lo x), (Z.ltb_spec x hi); done || lia. }
  unfold push_coalesced. rewrite (proj2 (Z.eqb_neq (s_length m) 0)) by (unfold fin in M2; lia).
  assert (forall a, Permutation a (L ++ m :: R) ->
    index_ok z (sort_by_offset a) /\ Forall untagged (sort_by_offset a) /\
    remapped (L ++ R) (sort_by_offset a) lo hi (fun _ => Zero)) as Hplain.
  { intros a Ha. rewrite (sort_by_offset_index z (L ++ m :: R)) by done. by apply Hfin. }
  assert (Permutation ((L ++ R) ++ [m]) (L ++ m :: R)) as Hperm.
  { rewrite <- app_assoc. apply Permutation_app_head. symmetry. apply Permutation_cons_append. }
  destruct R as [|r R _] using rev_ind.
  - rewrite app_nil_r in *. destruct (last L) as [p|] eqn:Hlast; [|by apply Hplain].
    destruct (can_coalesce p m) eqn:Hc; [|by apply Hplain].
    apply last_Some in Hlast as [L' ->]. rewrite removelast_last.
    rewrite <- app_assoc in Hok. cbn [app] in Hok. pose proof Hok as Hpm. apply index_ok_app in Hpm as [HL' Hpm].
    apply index_ok_cons in Hpm as (Hp & Hep & _). apply Forall_app in TL as [TL' Tp]. apply Forall_cons in Tp as [Tp _].
    rewrite end_from_snoc in He.
    destruct (can_coalesce_ok p m) as (C1 & C2 & C3 & C4 & C5); try done.
    assert (index_ok z (L' ++ [coalesced p m])) as Hj.
    { apply index_ok_app. split; [done|]. apply index_ok_cons. rewrite C3. split; [done|]. split; [done|apply index_ok_nil]. }
    rewrite (sort_by_offset_index z (L' ++ [coalesced p m])) by done. apply Hfin; [done| |].
    + apply Forall_app. split; [done|]. by apply Forall_singleton.
    + rewrite <- app_assoc. cbn [app]. assert ([coalesced p m] ≡ₛ [p; m]) as -> by exact C5. done.
  - rewrite !app_assoc in *. rewrite last_snoc.
    assert (s_zeroed r = false) as Hr.
    { eapply no_zero_tail_last; [exact Hv|exact Htail|]. apply index_ok_app in HR as [HR Hr'].
      apply index_ok_end_ge in HR. apply index_ok_cons in Hr' as ((_ & ? & _) & ? & _). unfold fin in *. lia. }
    unfold can_coalesce. rewrite Hr. cbn [zero_mapping m s_zeroed eqb negb orb]. by apply Hplain.
Qed.

(** The same when the range is cut out first. *)
Lemma zero_write_ok z v lo hi :
  index_ok z v -> Forall untagged v -> z <= lo -> 0 <= lo < hi -> hi <= kMaxOffset -> hi - lo <= kMaxLength ->
  no_zero_tail v hi ->
  let v' := sort_by_offset (push_zero_range (erase_range_from v lo hi) lo hi) in
  index_ok z v' /\ Forall untagged v' /\ remapped v v' lo hi (fun _ => Zero).
Proof.
  intros Hv Ht Hz Hl Hm Hn Htail. cbv zeta. unfold erase_range_from. rewrite (proj2 (Z.leb_gt _ _)) by lia.
  assert (forall x, resolve (cut lo hi v) x = if (lo <=? x) && (x <? hi) then Hole else resolve v x) as Hcut
    by (intros x; apply (cut_resolve z); done || lia).
  destruct (zero_append_ok z (cut lo hi v) lo hi) as (G1 & G2 & G3); try done.
  - apply cut_index; done || lia.
  - by apply cut_Forall.
  - intros x Hx. rewrite Hcut. by rewrite (proj2 (Z.leb_le _ _)), (proj2 (Z.ltb_lt _ _)) by lia.
  - intros x Hx Hr. rewrite Hcut, (proj2 (Z.ltb_ge x hi)), andb_false_r in Hr by lia.
    destruct (Htail x Hx Hr) as (y & t & p & Hy & Hd). exists y, t, p. split; [done|].
    by rewrite Hcut, (proj2 (Z.ltb_ge y hi)), andb_false_r by lia.
  - split; [done|]. split; [done|]. intros x. rewrite G3, Hcut. by case_if.
Qed.

(** Sorting an index changes nothing. *)
Lemma sort_index z v : index_ok z v -> sort_by_offset v = v.
Proof. intros Hv. by eapply sort_by_offset_index. Qed.

(** ** The scans *)

Lemma data_scan_true it covered hi x :
  Forall seg_ok it -> data_scan it covered hi = true -> covered <= x < hi ->
  exists s, s ∈ it /\ s_zeroed s = false /\ s_offset s <= x < fin s.
Proof.
  revert covered. induction it as [|s it IH]; intros covered Hok Hd Hx; cbn [data_scan] in Hd; [bool_hyps; lia|].
  rewrite (proj2 (Z.ltb_lt covered hi)) in Hd by lia. apply Forall_cons in Hok as [Hs Hok].
  destruct (s_zeroed s) eqn:Hz; [done|]. rewrite seg_ok_end in Hd by done. cbn [orb] in Hd.
  destruct (Z.ltb_spec covered (s_offset s)); [done|]. destruct (Z.leb_spec (fin s) covered); [done|]. cbn [orb] in Hd.
  destruct (decide (x < fin s)).
  - exists s. split; [apply list_elem_of_here|]. split; [done|lia].
  - destruct (IH (fin s) Hok Hd) as (s' & Hin & ?); [lia|]. exists s'. split; [by apply list_elem_of_further|done].
Qed.

Lemma range_is_data_ok z v lo hi x :
  index_ok z v -> range_is_data v lo hi = true -> lo <= x < hi -> exists t p, resolve v x = Data t p.
Proof.
  intros Hv Hd Hx. unfold range_is_data in Hd. apply data_scan_true with (x := x) in Hd as (s & Hin & Hz & Hs); [| |done].
  - rewrite (resolve_elem _ s _ _ Hv); [|by eapply subseteq_drop|done]. unfold seg_cell. rewrite Hz. eauto.
  - apply Forall_drop, Hv.
Qed.

(** The block is owned exactly when every sector of it is mapped. *)
Lemma owned_scan_ok z v cursor hi :
  index_ok z v -> cursor < hi ->
  if owned_scan v cursor hi then forall x, cursor <= x < hi -> resolve v x <> Hole
  else exists x, cursor <= x < hi /\ resolve v x = Hole.
Proof.
  revert z cursor. induction v as [|s v IH]; intros z cursor Hv Hc; cbn [owned_scan]; [exists cursor; split; [lia|done]|].
  apply index_ok_cons in Hv as (Hs & Hz & Hv). pose proof Hs as (_ & ? & _). rewrite seg_ok_end by done.
  destruct (Z.leb_spec (fin s) cursor).
  { specialize (IH (fin s) cursor Hv Hc). destruct (owned_scan v cursor hi).
    - intros x Hx. cbn [resolve]. rewrite (proj2 (covers_false s x)) by lia. by apply IH.
    - destruct IH as (x & Hx & Hr). exists x. split; [done|]. cbn [resolve]. by rewrite (proj2 (covers_false s x)) by lia. }
  destruct (Z.ltb_spec cursor (s_offset s)).
  { exists cursor. split; [lia|]. cbn [resolve]. rewrite (proj2 (covers_false s _)) by lia.
    apply (resolve_below (fin s)); [done|lia]. }
  destruct (Z.leb_spec hi (fin s)).
  { intros x Hx. apply resolve_covered, covers_true. lia. }
  specialize (IH (fin s) (fin s) Hv ltac:(lia)). destruct (owned_scan v (fin s) hi).
  - intros x Hx. destruct (decide (x < fin s)); [apply resolve_covered, covers_true; lia|].
    cbn [resolve]. rewrite (proj2 (covers_false s x)) by lia. apply IH. lia.
  - destruct IH as (x & Hx & Hr). exists x. split; [lia|]. cbn [resolve]. by rewrite (proj2 (covers_false s x)) by lia.
Qed.
