(* ===== verification/SparseScan.v ===== *)
(** * The extents of a sparse file ([sparse_extent_scan.cpp])

    The file system's allocation of a sparse file, block by block, and the scan
    that rebuilds the layer's index from it.  The FIEMAP request is a parameter
    with its documented behaviour: extents in order, with their flags, up to a
    batch, the last one of the file marked. *)
From S2P Require Import Prelude Bytes LsmtFormat Source File Segments Merge Trim SparseIndex.

Open Scope Z_scope.

Definition ENOTTY : Z := 25.
Definition ENOSYS : Z := 38.

(** ** The backing file *)

Definition kSparseSector : Z := 512.
Definition kExtentBlock : Z := 4096.

(** What the file system has for a 4 KiB block: nothing, an allocation that
    reads as zeroes, or data. *)
Inductive allocation := EHole | EUnwritten | EWritten.

#[export] Instance allocation_eq_dec : EqDecision allocation.
Proof. solve_decision. Defined.

(** The outcomes of the calls to come, the file, its blocks, and the geometry
    the scanner asks for. *)
Record backing := Backing {
  b_script : script;
  b_file : file;
  b_alloc : Z -> allocation;
  b_bsize : Z;
  b_page : Z;
  b_extsize : Z;
  b_realtime : bool;
}.

Definition set_bscript (b : backing) (s : script) : backing :=
  Backing s (b_file b) (b_alloc b) (b_bsize b) (b_page b) (b_extsize b) (b_realtime b).

Definition backing_step : io backing outcome := fun b =>
  let '(o, s) := next_outcome (b_script b) in (Ok o, set_bscript b s).
(** A call with no effect on the file. *)
Definition backing_call : io backing unit :=
  o ← backing_step; match o with Done => mret tt | Failed _ e => io_fail (Errno e) end.

(** ** The scan *)

Record fiemap_extent := FE { fe_logical : Z; fe_length : Z; fe_flags : Z }.
Definition FIEMAP_EXTENT_LAST : Z := 1.
Definition FIEMAP_EXTENT_DELALLOC : Z := 4.
Definition FIEMAP_EXTENT_UNWRITTEN : Z := 2048.
Definition has_flags (e : fiemap_extent) (f : Z) : bool := Z.land (fe_flags e) f =? f.
Definition kBatch : Z := 128.

Fixpoint append_loop (fuel : nat) (out : list segment_mapping) (lo hi : Z) (zero : bool)
    : list segment_mapping :=
  match fuel with
  | O => out
  | S fuel =>
      if lo <? hi then
        let push := fun _ : unit =>
          let n := Z.min (hi - lo) kMaxLength in
          append_loop fuel (out ++ [Seg lo (u32 n) (if zero then 0 else lo) zero 0]) (lo + n) hi zero in
        match last out with
        | Some back =>
            if (seg_end back =? lo) && eqb (s_zeroed back) zero && (s_length back <? kMaxLength) then
              let n := Z.min (hi - lo) (kMaxLength - s_length back) in
              append_loop fuel (removelast out ++ [with_length back (u32 (s_length back + n))]) (lo + n) hi zero
            else push tt
        | None => push tt
        end
      else out
  end.
Definition append_extent (out : list segment_mapping) (lo hi : Z) (zero : bool) : res (list segment_mapping) :=
  if negb (lo mod kSparseSector =? 0) || negb (hi mod kSparseSector =? 0) || (hi <? lo) then Err (Errno EIO) else
  Ok (append_loop (Z.to_nat (hi / kSparseSector - lo / kSparseSector)) out (lo / kSparseSector) (hi / kSparseSector) zero).

(** The loop over one batch: the cursor, the mappings, and the last-extent flag. *)
Fixpoint scan_batch (es : list fiemap_extent) (first : bool) (size cursor : Z) (out : list segment_mapping)
    (last : bool) : res (Z * list segment_mapping * bool) :=
  match es with
  | [] => Ok (cursor, out, last)
  | e :: es =>
      if (fe_length e =? 0) || (2 ^ 64 - 1 - fe_length e <? fe_logical e) then Err (Errno EIO) else
      let end_ := fe_logical e + fe_length e in
      if (end_ <=? cursor) || (negb first && (fe_logical e <? cursor)) then Err (Errno EIO) else
      let lo := Z.max cursor (fe_logical e) in
      let hi := Z.min size end_ in
      out ← (if lo <? hi then
               if has_flags e (Z.lor FIEMAP_EXTENT_UNWRITTEN FIEMAP_EXTENT_DELALLOC) then Err (Errno EIO)
               else append_extent out lo hi (has_flags e FIEMAP_EXTENT_UNWRITTEN)
             else Ok out);
      scan_batch es false size end_ out (has_flags e FIEMAP_EXTENT_LAST)
  end.

Definition validate_sparse_extent_backing : io backing unit :=
  _ ← backing_call;                                             (* fstatfs *)
  _ ← io_run (fun b => if negb (b_bsize b =? 4096) || negb (b_page b =? 4096)
                       then (Err (Errno EOPNOTSUPP), b) else (Ok tt, b));
  r ← io_try backing_call;                                      (* FS_IOC_FSGETXATTR *)
  match r with
  | inr e => if negb (e =? EOPNOTSUPP) && negb (e =? ENOTTY) then io_fail (Errno e) else mret tt
  | inl _ => io_run (fun b => if (4096 <? b_extsize b) || b_realtime b
                              then (Err (Errno EOPNOTSUPP), b) else (Ok tt, b))
  end.

Section Scan.
(** The answer of [FS_IOC_FIEMAP] for the blocks of a file, from [fm_start] for
    [fm_length] bytes. *)
Context (fiemap : (Z -> allocation) -> Z -> Z -> list fiemap_extent).

Fixpoint scan_loop (fuel : nat) (size cursor : Z) (out : list segment_mapping) : io backing (list segment_mapping) :=
  if cursor <? size then
    match fuel with
    | O => io_fail Fuel
    | S fuel =>
        _ ← backing_call;                                       (* FS_IOC_FIEMAP *)
        es ← io_run (fun b => (Ok (fiemap (b_alloc b) cursor (size - cursor)), b));
        if kBatch <? zlen es then io_fail (Errno EIO) else
        match es with
        | [] => mret out
        | _ :: _ =>
            r ← io_lift (scan_batch es true size cursor out false);
            let '(cursor, out, last) := r in
            if (last : bool) then mret out else scan_loop fuel size cursor out
        end
    end
  else mret out.

Definition scan_sparse_extents (size : Z) : io backing (list segment_mapping) :=
  _ ← validate_sparse_extent_backing;
  if (size =? 0) || negb (size mod 4096 =? 0) || (kInvalidOffset <=? size / kSparseSector) || (2 ^ 63 - 1 <? size)
  then io_fail (Errno EINVAL) else
  _ ← backing_call;                                             (* fstat *)
  _ ← io_run (fun b => if negb (f_size (b_file b) =? size) then (Err (Errno EINVAL), b) else (Ok tt, b));
  scan_loop (S (Z.to_nat (size / kExtentBlock))) size 0 [].
End Scan.

(** ** What FIEMAP documents *)

Definition fe_end (e : fiemap_extent) : Z := fe_logical e + fe_length e.

Definition holes (alloc : Z -> allocation) (a b : Z) : Prop :=
  forall k, a <= k * kExtentBlock < b -> alloc k = EHole.

(** An extent covers whole blocks, all allocated and as its flags say. *)
Record extent_ok (alloc : Z -> allocation) (e : fiemap_extent) : Prop := {
  eo_logical : 0 <= fe_logical e;
  eo_length : 0 < fe_length e;
  eo_aligned : fe_logical e mod kExtentBlock = 0 /\ fe_length e mod kExtentBlock = 0;
  eo_end : fe_end e < 2 ^ 63;
  eo_blocks : forall k, fe_logical e <= k * kExtentBlock < fe_end e ->
    alloc k = if has_flags e FIEMAP_EXTENT_UNWRITTEN then EUnwritten else EWritten;
  eo_flags : has_flags e (Z.lor FIEMAP_EXTENT_UNWRITTEN FIEMAP_EXTENT_DELALLOC) = false;
}.

(** Extents from [c] on, in order, with nothing allocated between them. *)
Fixpoint extents_follow (alloc : Z -> allocation) (c : Z) (es : list fiemap_extent) : Prop :=
  match es with
  | [] => True
  | e :: es => extent_ok alloc e /\ c <= fe_logical e /\ holes alloc c (fe_logical e) /\
               extents_follow alloc (fe_end e) es
  end.

(** The first extent may start before the request.  If there is none, or the last
    one is marked as the last of the file, nothing else is allocated. *)
Definition fiemap_answer (alloc : Z -> allocation) (start len : Z) (es : list fiemap_extent) : Prop :=
  zlen es <= kBatch /\
  match es with
  | [] => holes alloc start (start + len)
  | e :: rest =>
      extent_ok alloc e /\ start < fe_end e /\ holes alloc start (fe_logical e) /\
      extents_follow alloc (fe_end e) rest /\
      forall l, last es = Some l -> has_flags l FIEMAP_EXTENT_LAST = true -> holes alloc (fe_end l) (start + len)
  end.

Definition fiemap_documented (fiemap : (Z -> allocation) -> Z -> Z -> list fiemap_extent) : Prop :=
  forall alloc start len, 0 <= start -> start mod kExtentBlock = 0 -> 0 < len -> start + len < 2 ^ 62 ->
    fiemap_answer alloc start len (fiemap alloc start len).

(** ** Appending a classified range *)

(** A live mapping is at its own place in the file. *)
Definition in_place (s : segment_mapping) : Prop := s_zeroed s = false -> s_moffset s = s_offset s.
Record extent_index (v : list segment_mapping) : Prop := {
  ei_index : index_ok 0 v;
  ei_untagged : Forall untagged v;
  ei_in_place : Forall in_place v;
}.

Definition owner (zero : bool) (x : Z) : cell := if zero then Zero else Data 0 x.

Lemma owner_mapping_ok lo n (zero : bool) :
  0 <= lo -> 0 < n <= kMaxLength -> lo + n <= kMaxOffset ->
  let m := Seg lo (u32 n) (if zero then 0 else lo) zero 0 in
  seg_ok m /\ fin m = lo + n /\ untagged m /\ in_place m /\
  forall x, lo <= x < lo + n -> resolve [m] x = owner zero x.
Proof.
  intros Hl Hn Hm. destruct zero; cbv zeta.
  - destruct (zero_mapping_ok lo n Hl Hn Hm) as (? & ? & ?). done.
  - destruct (live_mapping_ok lo n Hl Hn Hm) as (? & ? & ?). done.
Qed.

(** One turn: the new entry, or the last one made longer. *)
Lemma append_entry_ok out lo n (zero : bool) :
  extent_index out -> end_from 0 out <= lo -> 0 <= lo -> 0 < n <= kMaxLength -> lo + n <= kMaxOffset ->
  let m := Seg lo (u32 n) (if zero then 0 else lo) zero 0 in
  extent_index (out ++ [m]) /\ end_from 0 (out ++ [m]) = lo + n /\ remapped out (out ++ [m]) lo (lo + n) (owner zero).
Proof.
  intros [H1 H2 H3] He Hl Hn Hm. destruct (owner_mapping_ok lo n zero Hl Hn Hm) as (M1 & M2 & M3 & M4 & M5).
  cbv zeta. set (m := Seg _ _ _ _ _) in *. rewrite end_from_snoc. split; [split|split; [done|]].
  - apply index_ok_app. split; [done|]. apply index_ok_cons. split; [done|]. split; [done|apply index_ok_nil].
  - apply Forall_app. split; [done|]. by apply Forall_singleton.
  - apply Forall_app. split; [done|]. by apply Forall_singleton.
  - intros x. rewrite resolve_app. destruct ((lo <=? x) && (x <? lo + n)) eqn:Hb; bool_hyps.
    + by rewrite (resolve_above _ out x H1), M5 by lia.
    + cbn [resolve]. rewrite (proj2 (covers_false m x)); [apply over_hole_r|]. rewrite M2. change (s_offset m) with lo.
      destruct (Z.leb_spec lo x), (Z.ltb_spec x (lo + n)); done || lia.
Qed.

Lemma append_extend_ok out back lo n (zero : bool) :
  extent_index (out ++ [back]) -> fin back = lo -> s_zeroed back = zero -> 0 < n -> s_length back + n <= kMaxLength ->
  lo + n <= kMaxOffset ->
  let v := out ++ [with_length back (u32 (s_length back + n))] in
  extent_index v /\ end_from 0 v = lo + n /\ remapped (out ++ [back]) v lo (lo + n) (owner zero).
Proof.
  intros Hx Hf Hz Hn Hl Hm. pose proof Hx as [H1 H2 H3]. apply index_ok_app in H1 as [Ho Hb].
  apply index_ok_cons in Hb as (Hb & Hb0 & _). pose proof Hb as (B1 & B2 & _).
  apply Forall_app in H2 as [U1 U2]. apply Forall_app in H3 as [I1 I2]. rewrite Forall_singleton in U2, I2.
  assert (0 <= lo) by (unfold fin in Hf; lia).
  destruct (owner_mapping_ok lo n zero) as (M1 & M2 & M3 & M4 & M5); [done|lia|done|].
  destruct (append_entry_ok (out ++ [back]) lo n zero) as (_ & _ & A3); [done|rewrite end_from_snoc; lia|lia|lia|done|].
  set (m := Seg lo (u32 n) _ _ _) in *.
  assert (s_length m = n) as Lm by (cbn; apply u32_small; unfold kMaxLength in *; lia).
  destruct (fuse_ok back m) as (F1 & F2 & F3); [done|done|done|exact U2|done| |lia|].
  { intros E. cbn in E. cbn. rewrite E. unfold in_place in I2. rewrite I2 by congruence. unfold fin in Hf. lia. }
  rewrite Lm in *. cbv zeta. rewrite u32_small by (unfold kMaxLength in *; lia).
  split; [split|split].
  - apply index_ok_app. split; [done|]. apply index_ok_cons. split; [done|]. split; [done|apply index_ok_nil].
  - apply Forall_app. split; [done|]. apply Forall_singleton. exact U2.
  - apply Forall_app. split; [done|]. apply Forall_singleton. exact I2.
  - rewrite end_from_snoc, F2. done.
  - intros x. rewrite <- A3, <- app_assoc, (resolve_app out), F3. by rewrite (resolve_app out).
Qed.

Lemma remapped_trans u v w lo mid hi c :
  lo <= mid <= hi -> remapped u v lo mid c -> remapped v w mid hi c -> remapped u w lo hi c.
Proof.
  intros Hm H1 H2 x. rewrite H2, H1.
  destruct (Z.leb_spec mid x), (Z.ltb_spec x hi), (Z.leb_spec lo x), (Z.ltb_spec x mid); cbn; done || lia.
Qed.
Lemma remapped_empty u lo hi c : hi <= lo -> remapped u u lo hi c.
Proof. intros Hh x. destruct (Z.leb_spec lo x), (Z.ltb_spec x hi); cbn; done || lia. Qed.

Lemma append_loop_ok fuel out lo hi (zero : bool) :
  extent_index out -> end_from 0 out <= lo -> 0 <= lo <= hi -> hi <= kMaxOffset -> (Z.to_nat (hi - lo) <= fuel)%nat ->
  let v := append_loop fuel out lo hi zero in
  extent_index v /\ end_from 0 v <= hi /\ remapped out v lo hi (owner zero).
Proof.
  revert out lo. induction fuel as [|fuel IH]; intros out lo Hx He Hl Hm Hf; cbv zeta; cbn [append_loop].
  { split; [done|]. split; [lia|]. apply remapped_empty. lia. }
  destruct (Z.ltb_spec lo hi); [|split; [done|]; split; [lia|]; apply remapped_empty; lia].
  assert (forall v n, extent_index v -> end_from 0 v = lo + n -> remapped out v lo (lo + n) (owner zero) ->
    0 < n <= hi - lo -> let w := append_loop fuel v (lo + n) hi zero in
    extent_index w /\ end_from 0 w <= hi /\ remapped out w lo hi (owner zero)) as Hnext.
  { intros v n V1 V2 V3 Hn. destruct (IH v (lo + n)) as (W1 & W2 & W3); [done|lia..|].
    split; [done|]. split; [done|]. eapply remapped_trans; [|exact V3|exact W3]. lia. }
  assert (let w := append_loop fuel (out ++ [Seg lo (u32 (Z.min (hi - lo) kMaxLength)) (if zero then 0 else lo) zero 0])
                     (lo + Z.min (hi - lo) kMaxLength) hi zero in
    extent_index w /\ end_from 0 w <= hi /\ remapped out w lo hi (owner zero)) as Hpush.
  { destruct (append_entry_ok out lo (Z.min (hi - lo) kMaxLength) zero) as (A1 & A2 & A3);
      [done..|lia|unfold kMaxLength; lia|lia|]. apply Hnext; try done. unfold kMaxLength. lia. }
  destruct (last out) as [back|] eqn:Hlast; [|exact Hpush].
  destruct (_ && _) eqn:Hb; [|exact Hpush]. bool_hyps.
  apply last_Some in Hlast as [out' ->]. rewrite removelast_last.
  assert (seg_ok back) as Hback.
  { destruct Hx as [[Hx _] _ _]. rewrite Forall_app, Forall_singleton in Hx. apply Hx. }
  rewrite seg_ok_end in * by done.
  match goal with H : eqb _ _ = true |- _ => apply eqb_prop in H end.
  set (n := Z.min (hi - lo) (kMaxLength - s_length back)).
  destruct (append_extend_ok out' back lo n zero) as (A1 & A2 & A3); try done; try (unfold n; lia).
  apply Hnext; try done. unfold n. lia.
Qed.

Lemma append_extent_ok out lo hi (zero : bool) :
  extent_index out -> end_from 0 out <= lo / kSparseSector -> 0 <= lo <= hi -> hi <= kMaxOffset * kSparseSector ->
  lo mod kSparseSector = 0 -> hi mod kSparseSector = 0 ->
  exists v, append_extent out lo hi zero = Ok v /\ extent_index v /\ end_from 0 v <= hi / kSparseSector /\
    remapped out v (lo / kSparseSector) (hi / kSparseSector) (owner zero).
Proof.
  intros Hx He Hl Hm Al Ah. unfold append_extent. rewrite Al, Ah. cbn [Z.eqb negb orb]. rewrite (proj2 (Z.ltb_ge hi lo)) by lia.
  eexists. split; [done|]. unfold kSparseSector in *. apply append_loop_ok; try done; try lia.
  - split; [apply Z.div_pos; lia|apply Z.div_le_mono; lia].
  - apply Z.div_le_upper_bound; lia.
Qed.

(** ** What the scan has classified *)

Definition alloc_cell (alloc : Z -> allocation) (x : Z) : cell :=
  match alloc (x / 8) with EHole => Hole | EUnwritten => Zero | EWritten => Data 0 x end.

Section Classified.
Context (alloc : Z -> allocation) (size : Z).
Context (Hsize : 0 < size) (Hal : size mod kExtentBlock = 0) (Hmax : size <= kMaxOffset * kSparseSector).

(** The bytes below [c] of the file. *)
Record classified (c : Z) (out : list segment_mapping) : Prop := {
  sc_index : extent_index out;
  sc_end : end_from 0 out <= Z.min c size / kSparseSector;
  sc_cells : forall x, resolve out x = if (0 <=? x) && (x <? Z.min c size / kSparseSector) then alloc_cell alloc x else Hole;
}.

Lemma block_sectors c : c mod kExtentBlock = 0 -> c = c / kSparseSector * kSparseSector /\ c / kSparseSector mod 8 = 0.
Proof. unfold kExtentBlock, kSparseSector. intros. split; Z.to_euclidean_division_equations; lia. Qed.

Lemma scanned_holes c c' out :
  0 <= c <= c' -> c mod kExtentBlock = 0 -> c' mod kExtentBlock = 0 -> holes alloc c c' -> classified c out -> classified c' out.
Proof.
  intros Hc A A' Hh [S1 S2 S3]. apply block_sectors in A as [E1 E2], A' as [E1' _].
  pose proof (block_sectors size Hal) as [Es _].
  assert (Z.min c size / kSparseSector <= Z.min c' size / kSparseSector) as Hle
    by (apply Z.div_le_mono; unfold kSparseSector; lia).
  split; [done|lia|]. intros x. rewrite S3. destruct (Z.leb_spec 0 x); [|done]. cbn [andb].
  destruct (Z.ltb_spec x (Z.min c size / kSparseSector)), (Z.ltb_spec x (Z.min c' size / kSparseSector)); try done; [lia|].
  unfold alloc_cell. rewrite Hh; [done|]. unfold kExtentBlock, kSparseSector in *.
  Z.to_euclidean_division_equations. lia.
Qed.

Lemma scanned_extent c e out :
  0 <= c -> c mod kExtentBlock = 0 -> extent_ok alloc e -> c < fe_end e -> holes alloc c (fe_logical e) -> classified c out ->
  let lo := Z.max c (fe_logical e) in let hi := Z.min size (fe_end e) in
  exists out', (if lo <? hi then
       if has_flags e (Z.lor FIEMAP_EXTENT_UNWRITTEN FIEMAP_EXTENT_DELALLOC) then Err (Errno EIO)
       else append_extent out lo hi (has_flags e FIEMAP_EXTENT_UNWRITTEN)
     else Ok out) = Ok out' /\ classified (fe_end e) out'.
Proof.
  intros Hc A [E1 E2 [A1 A2] E4 E5 E6] Hce Hh Hs lo hi.
  assert (fe_end e mod kExtentBlock = 0) as A3 by (unfold fe_end; rewrite Z.add_mod, A1, A2 by (unfold kExtentBlock; lia); done).
  assert (lo mod kExtentBlock = 0) as A4 by (unfold lo; destruct (Z.max_spec c (fe_logical e)) as [[_ ->]|[_ ->]]; done).
  assert (hi mod kExtentBlock = 0) as A5 by (unfold hi; destruct (Z.min_spec size (fe_end e)) as [[_ ->]|[_ ->]]; done).
  assert (classified lo out) as [S1 S2 S3].
  { apply (scanned_holes c); try done; [lia|]. intros k Hk. apply Hh. unfold lo in Hk. lia. }
  destruct (block_sectors lo A4) as [L1 L2], (block_sectors hi A5) as [L3 L4]. rewrite E6.
  unfold fe_end in *. destruct (Z.ltb_spec lo hi) as [Hlt|Hge].
  - assert (Z.min lo size = lo) as Em by lia. rewrite Em in *.
    assert (Z.min (fe_logical e + fe_length e) size = hi) as Em' by lia.
    destruct (append_extent_ok out lo hi (has_flags e FIEMAP_EXTENT_UNWRITTEN)) as (v & -> & V1 & V2 & V3); try done;
      try (unfold kSparseSector in *; lia).
    { rewrite L1. apply Z.mod_mul. done. }
    { rewrite L3. apply Z.mod_mul. done. }
    exists v. split; [done|]. split; [done|by rewrite Em'|]. intros x. rewrite V3, S3, Em'.
    destruct (Z.leb_spec (lo / kSparseSector) x), (Z.ltb_spec x (hi / kSparseSector)), (Z.leb_spec 0 x),
      (Z.ltb_spec x (lo / kSparseSector)); cbn [andb]; unfold kSparseSector in *; try done; try lia.
    unfold alloc_cell. rewrite E5; [by destruct (has_flags e _)|]. unfold kExtentBlock in *.
    Z.to_euclidean_division_equations. lia.
  - exists out. split; [done|]. assert (Z.min lo size = size /\ Z.min (fe_logical e + fe_length e) size = size) as [Em Em'] by lia.
    rewrite Em in *. split; rewrite ?Em'; done.
Qed.

(** One extent of a batch. *)
Lemma scan_one c e es (first : bool) out l :
  0 <= c -> c mod kExtentBlock = 0 -> extent_ok alloc e -> c < fe_end e -> (first = false -> c <= fe_logical e) ->
  holes alloc c (fe_logical e) -> classified c out ->
  exists out', scan_batch (e :: es) first size c out l =
    scan_batch es false size (fe_end e) out' (has_flags e FIEMAP_EXTENT_LAST) /\ classified (fe_end e) out'.
Proof.
  intros Hc A He Hce Hf Hh Hs. destruct (scanned_extent c e out Hc A He Hce Hh Hs) as (out' & Ho & Hs').
  exists out'. split; [|done]. destruct He as [E1 E2 _ E4 _ _]. unfold fe_end in *. cbn [scan_batch].
  rewrite (proj2 (Z.eqb_neq _ _)), (proj2 (Z.ltb_ge (2 ^ 64 - 1 - fe_length e) _)) by lia. cbn [orb].
  rewrite (proj2 (Z.leb_gt (fe_logical e + fe_length e) c)) by lia. cbn [orb].
  replace (negb first && (fe_logical e <? c)) with false.
  2: { destruct first; [done|]. specialize (Hf eq_refl). cbn. symmetry. apply Z.ltb_ge. lia. }
  cbv zeta in Ho |- *. by rewrite Ho.
Qed.

Lemma scan_rest es c out (l : bool) :
  0 <= c -> c mod kExtentBlock = 0 -> extents_follow alloc c es -> classified c out ->
  exists c' out' l', scan_batch es false size c out l = Ok (c', out', l') /\ classified c' out' /\
    c <= c' /\ c' mod kExtentBlock = 0 /\
    match last es with Some e => c' = fe_end e /\ l' = has_flags e FIEMAP_EXTENT_LAST | None => c' = c /\ l' = l end.
Proof.
  revert c out l. induction es as [|e es IH]; intros c out l Hc A Hes Hs; [by exists c, out, l|].
  destruct Hes as (He & Hle & Hh & Hes). pose proof He as [E1 E2 [A1 A2] _ _ _].
  destruct (scan_one c e es false out l) as (out' & -> & Hs'); try done; [unfold fe_end; lia|].
  destruct (IH (fe_end e) out' (has_flags e FIEMAP_EXTENT_LAST)) as (c' & out2 & l' & -> & G1 & G2 & G3 & G4); try done.
  { unfold fe_end. lia. }
  { unfold fe_end. rewrite Z.add_mod, A1, A2 by (unfold kExtentBlock; lia). done. }
  exists c', out2, l'. split; [done|]. split; [done|]. split; [unfold fe_end in *; lia|]. split; [done|].
  rewrite last_cons. destruct (last es) as [e'|]; [done|]. destruct G4 as [-> ->]. done.
Qed.

(** A batch: nothing is left, or the cursor has moved on. *)
Lemma scan_batch_ok es c out :
  0 <= c < size -> c mod kExtentBlock = 0 -> fiemap_answer alloc c (size - c) es -> classified c out -> es <> [] ->
  exists c' out' l, scan_batch es true size c out false = Ok (c', out', l) /\ classified c' out' /\
    c + kExtentBlock <= c' /\ c' mod kExtentBlock = 0 /\ (l = true -> classified size out').
Proof.
  intros Hc A [_ Ha] Hs Hne. destruct es as [|e es]; [done|]. destruct Ha as (He & Hce & Hh & Hes & Hlast).
  pose proof He as [E1 E2 [A1 A2] _ _ _].
  assert (fe_end e mod kExtentBlock = 0) as A3 by (unfold fe_end; rewrite Z.add_mod, A1, A2 by (unfold kExtentBlock; lia); done).
  destruct (scan_one c e es true out false) as (out' & -> & Hs'); try done; [lia|].
  destruct (scan_rest es (fe_end e) out' (has_flags e FIEMAP_EXTENT_LAST)) as (c' & out2 & l & -> & G1 & G2 & G3 & G4);
    try done; [lia|].
  exists c', out2, l. split; [done|]. split; [done|]. split.
  { unfold kExtentBlock in *. Z.to_euclidean_division_equations. lia. }
  split; [done|]. intros ->. rewrite last_cons in Hlast.
  assert (holes alloc c' size) as Hh'.
  { destruct (last es) as [e'|]; destruct G4 as [-> El]; specialize (Hlast _ eq_refl (eq_sym El));
      by replace (c + (size - c)) with size in Hlast by lia. }
  destruct (Z.le_gt_cases c' size).
  - apply (scanned_holes c'); try done. lia.
  - destruct G1 as [S1 S2 S3]. rewrite Z.min_r in S2, S3 by lia. split; [done|by rewrite Z.min_id|by rewrite Z.min_id].
Qed.
End Classified.

(** ** The scan rebuilds the index of the allocation *)

Definition only_script (b b' : backing) : Prop := exists s, b' = set_bscript b s.

Lemma only_script_refl b : only_script b b.
Proof. exists (b_script b). by destruct b. Qed.
Lemma only_script_trans b b1 b2 : only_script b b1 -> only_script b1 b2 -> only_script b b2.
Proof. intros [s ->] [t ->]. by exists t. Qed.
#[export] Hint Resolve only_script_refl : core.

Lemma backing_call_attempt b :
  attempt b_script backing_call b (fun _ => only_script b) (only_script b).
Proof.
  unfold attempt, backing_call, backing_step, mbind, io_bind. pose proof (next_outcome_spec (b_script b)) as H.
  destruct (next_outcome (b_script b)) as [[|n e] s]; destruct H as [H1 H2]; cbn.
  - split; [done|]. by exists s.
  - split; [by eapply H2|]. by exists s.
Qed.

Record geometry (b : backing) : Prop := {
  ge_bsize : b_bsize b = 4096;
  ge_page : b_page b = 4096;
  ge_extsize : b_extsize b <= 4096;
  ge_realtime : b_realtime b = false;
}.

(** Sizes a sparse layer can have. *)
Definition size_ok (size : Z) : Prop := 0 < size /\ size mod kExtentBlock = 0 /\ size < kMaxOffset * kSparseSector.

Lemma validate_attempt b :
  geometry b -> attempt b_script validate_sparse_extent_backing b (fun _ => only_script b) (only_script b).
Proof.
  intros [G1 G2 G3 G4]. unfold validate_sparse_extent_backing.
  eapply (attempt_bind _ _ _ _ (fun _ => only_script b)); [apply backing_call_attempt|].
  intros _ b1 [s1 ->].
  eapply (attempt_bind _ _ _ _ (fun _ b' => b' = set_bscript b s1)).
  { eapply attempt_run; [cbn; by rewrite G1, G2|done|done]. }
  intros _ ? ->. unfold attempt, mbind, io_bind, io_try, backing_call, backing_step. cbn [b_script set_bscript].
  unfold mbind, io_bind. pose proof (next_outcome_spec s1) as H. cbn [b_script set_bscript].
  destruct (next_outcome s1) as [[|n e] s]; destruct H as [H1 H2]; cbn.
  - unfold io_run. cbn. rewrite G4, (proj2 (Z.ltb_ge _ _)) by done. cbn. split; [done|]. by exists s.
  - destruct (negb _ && _); cbn; [split; [by eapply H2|by exists s]|]. split; [done|by exists s].
Qed.

Lemma scanned_start alloc size : 0 <= size -> classified alloc size 0 [].
Proof.
  intros Hs.
  split; [split; [apply index_ok_nil|constructor|constructor]| |].
  { cbn. apply Z.div_pos; unfold kSparseSector; lia. }
  intros x.
  assert (Z.min 0 size / kSparseSector <= 0) by (unfold kSparseSector; apply Z.div_le_upper_bound; lia).
  destruct (Z.leb_spec 0 x), (Z.ltb_spec x (Z.min 0 size / kSparseSector)); cbn; done || lia.
Qed.

Section ScanOk.
Context (fiemap : (Z -> allocation) -> Z -> Z -> list fiemap_extent) (Hfm : fiemap_documented fiemap).
Context (b : backing) (size : Z) (Hsize : size_ok size).

Lemma scan_loop_attempt fuel b1 c out :
  only_script b b1 -> classified (b_alloc b) size c out -> 0 <= c -> c mod kExtentBlock = 0 ->
  (Z.to_nat ((size - c) / kExtentBlock) < fuel)%nat ->
  attempt b_script (scan_loop fiemap fuel size c out) b1
    (fun l b' => only_script b b' /\ classified (b_alloc b) size size l) (only_script b).
Proof.
  destruct Hsize as (Hs1 & Hs2 & Hs3).
  revert b1 c out. induction fuel as [|fuel IH]; intros b1 c out Hb Hsc Hc A Hf; [lia|]. cbn [scan_loop].
  destruct (Z.ltb_spec c size).
  2: { apply attempt_ret. split; [done|]. destruct Hsc as [S1 S2 S3]. rewrite Z.min_r in S2, S3 by lia.
       split; [done|by rewrite Z.min_id|by rewrite Z.min_id]. }
  eapply (attempt_bind _ _ _ _ (fun _ => only_script b)).
  { eapply attempt_mono; [apply backing_call_attempt|intros ? ? G|intros ? G]; by eapply only_script_trans. }
  intros _ b2 [s2 ->]. eapply (attempt_bind _ _ _ _ (fun es b' => b' = set_bscript b s2 /\ es = fiemap (b_alloc b) c (size - c))).
  { eapply attempt_run; [done|done|done]. }
  intros es ? [-> ->]. pose proof (Hfm (b_alloc b) c (size - c) Hc A ltac:(lia) ltac:(unfold kMaxOffset, kSparseSector in *; lia)) as Ha.
  pose proof Ha as [Hl Hm]. rewrite (proj2 (Z.ltb_ge _ _)) by done.
  destruct (fiemap (b_alloc b) c (size - c)) as [|e es] eqn:Ees.
  { apply attempt_ret. split; [by exists s2|]. replace (c + (size - c)) with size in Hm by lia.
    eapply (scanned_holes _ _ Hs1 Hs2 c); try done. lia. }
  destruct (scan_batch_ok (b_alloc b) size ltac:(lia) Hs2 ltac:(lia) (e :: es) c out) as (c' & out' & l & -> & G1 & G2 & G3 & G4);
    try done.
  eapply attempt_lift_bind; [done|]. cbn beta iota. destruct l.
  { apply attempt_ret. split; [by exists s2|by apply G4]. }
  apply IH; try done; [by exists s2|unfold kExtentBlock in *; lia|].
  assert ((size - c') / kExtentBlock < (size - c) / kExtentBlock); [|unfold kExtentBlock in *; Z.to_euclidean_division_equations; lia].
  apply Z.div_lt_upper_bound; [done|]. unfold kExtentBlock in *. Z.to_euclidean_division_equations. lia.
Qed.

Lemma scan_attempt :
  geometry b -> f_size (b_file b) = size ->
  attempt b_script (scan_sparse_extents fiemap size) b
    (fun l b' => only_script b b' /\ classified (b_alloc b) size size l) (only_script b).
Proof.
  intros Hg Hf. destruct Hsize as (Hs1 & Hs2 & Hs3). unfold scan_sparse_extents.
  eapply (attempt_bind _ _ _ _ (fun _ => only_script b)); [by apply validate_attempt|]. intros _ b1 [s1 ->].
  unfold kExtentBlock in Hs2. rewrite Hs2, (proj2 (Z.eqb_neq size 0)) by lia. cbn [Z.eqb negb orb].
  unfold kInvalidOffset, kMaxOffset, kSparseSector in *.
  rewrite (proj2 (Z.leb_gt _ _)), (proj2 (Z.ltb_ge _ _)); [|lia|apply Z.div_lt_upper_bound; lia]. cbn [orb].
  eapply (attempt_bind _ _ _ _ (fun _ => only_script b)).
  { eapply attempt_mono; [apply backing_call_attempt|intros ? ? G|intros ? G]; (eapply only_script_trans; [|exact G]; by exists s1). }
  intros _ b2 [s2 ->]. eapply (attempt_bind _ _ _ _ (fun _ b' => b' = set_bscript b s2)).
  { eapply attempt_run; [cbn; by rewrite Hf, Z.eqb_refl|done|done]. }
  intros _ ? ->. apply scan_loop_attempt; [by exists s2|apply scanned_start; lia|lia|done|].
  replace (size - 0) with size by lia. lia.
Qed.
End ScanOk.

(** ** A FIEMAP that reports block by block *)

Fixpoint allocated_blocks (alloc : Z -> allocation) (n : nat) (k : Z) : list Z :=
  match n with
  | O => []
  | S n => if bool_decide (alloc k = EHole) then allocated_blocks alloc n (k + 1)
           else k :: allocated_blocks alloc n (k + 1)
  end.
Definition block_extent (alloc : Z -> allocation) (final : bool) (k : Z) : fiemap_extent :=
  FE (k * kExtentBlock) kExtentBlock
    ((if bool_decide (alloc k = EUnwritten) then FIEMAP_EXTENT_UNWRITTEN else 0) + if final then FIEMAP_EXTENT_LAST else 0).
Definition block_fiemap (alloc : Z -> allocation) (start len : Z) : list fiemap_extent :=
  match allocated_blocks alloc (Z.to_nat ((len + kExtentBlock - 1) / kExtentBlock)) (start / kExtentBlock) with
  | [] => []
  | [k] => [block_extent alloc true k]
  | k :: _ => [block_extent alloc false k]
  end.

Lemma allocated_blocks_ok alloc n k0 :
  match allocated_blocks alloc n k0 with
  | [] => forall k, k0 <= k < k0 + Z.of_nat n -> alloc k = EHole
  | k :: rest => k0 <= k < k0 + Z.of_nat n /\ alloc k <> EHole /\ (forall j, k0 <= j < k -> alloc j = EHole) /\
                 rest = allocated_blocks alloc (Z.to_nat (k0 + Z.of_nat n - k - 1)) (k + 1)
  end.
Proof.
  revert k0. induction n as [|n IH]; intros k0; cbn [allocated_blocks]; [lia|].
  destruct (bool_decide_reflect (alloc k0 = EHole)) as [Hh|Hh].
  - specialize (IH (k0 + 1)). destruct (allocated_blocks alloc n (k0 + 1)) as [|k rest].
    + intros k Hk. destruct (decide (k = k0)) as [->|]; [done|]. apply IH. lia.
    + destruct IH as (H1 & H2 & H3 & H4). split; [lia|]. split; [done|]. split.
      * intros j Hj. destruct (decide (j = k0)) as [->|]; [done|]. apply H3. lia.
      * rewrite H4. f_equal. lia.
  - split; [lia|]. split; [done|]. split; [lia|]. f_equal. lia.
Qed.

Lemma block_extent_ok alloc final k :
  0 <= k -> (k + 1) * kExtentBlock < 2 ^ 63 -> alloc k <> EHole -> extent_ok alloc (block_extent alloc final k).
Proof.
  intros Hk Hm Ha. unfold block_extent, fe_end in *. split; cbn [fe_logical fe_length fe_flags].
  - unfold kExtentBlock. lia.
  - done.
  - split; [apply Z.mod_mul; done|done].
  - unfold kExtentBlock, fe_end in *. cbn. lia.
  - intros j Hj. unfold fe_end in Hj. cbn [fe_logical fe_length] in Hj.
    replace j with k by (unfold kExtentBlock in *; lia). unfold has_flags. cbn [fe_flags].
    destruct (bool_decide_reflect (alloc k = EUnwritten)) as [->|]; [by destruct final|].
    destruct (alloc k); try done. by destruct final.
  - unfold has_flags. cbn [fe_flags]. destruct (bool_decide _), final; done.
Qed.

Lemma block_fiemap_documented : fiemap_documented block_fiemap.
Proof.
  intros alloc start len Hs A Hl Hm. unfold block_fiemap.
  set (n := Z.to_nat ((len + kExtentBlock - 1) / kExtentBlock)). pose proof (allocated_blocks_ok alloc n (start / kExtentBlock)) as H.
  assert (start = start / kExtentBlock * kExtentBlock) as Es by (unfold kExtentBlock in *; Z.to_euclidean_division_equations; lia).
  assert (len <= Z.of_nat n * kExtentBlock < len + kExtentBlock) as En
    by (unfold n, kExtentBlock in *; Z.to_euclidean_division_equations; lia).
  destruct (allocated_blocks alloc n (start / kExtentBlock)) as [|k rest].
  { split; [done|]. intros k Hk. apply H. unfold kExtentBlock in *. lia. }
  destruct H as (H1 & H2 & H3 & H4).
  assert (forall final, extent_ok alloc (block_extent alloc final k)) as Hx
    by (intros final; apply block_extent_ok; [unfold kExtentBlock in *; lia|unfold kExtentBlock in *; lia|done]).
  assert (forall final, fiemap_answer alloc start len [block_extent alloc final k] \/ final = true) as Hfalse.
  { intros [|]; [by right|]. left. split; [done|]. split; [done|]. unfold fe_end. cbn [block_extent fe_logical fe_length].
    split; [unfold kExtentBlock in *; lia|]. split; [intros j Hj; apply H3; unfold kExtentBlock in *; lia|]. split; [done|].
    intros l [= <-]. unfold has_flags. cbn. by destruct (bool_decide _). }
  destruct rest as [|k2 rest]; [|by destruct (Hfalse false)].
  split; [done|]. split; [done|]. unfold fe_end. cbn [block_extent fe_logical fe_length].
  split; [unfold kExtentBlock in *; lia|]. split; [intros j Hj; apply H3; unfold kExtentBlock in *; lia|]. split; [done|].
  intros l [= <-] _ j Hj. cbn in Hj.
  pose proof (allocated_blocks_ok alloc (Z.to_nat (start / kExtentBlock + Z.of_nat n - k - 1)) (k + 1)) as G. rewrite <- H4 in G.
  apply G. unfold kExtentBlock in *. lia.
Qed.
