(* ===== verification/SparseLayer.v ===== *)
(** * The sparse writable layer ([SparseRwLayer], [sparse_rw.cpp])

    The extent-owned form, the only one outside test builds: the file system's
    allocation says which 4 KiB blocks the layer owns, the index mirrors it, and
    a write inside a block the layer does not own copies the rest of it from the
    current view first.  The kernel is represented by its outcomes and by what a
    write, a zeroed range and a truncation do to bytes and allocation; a write
    within one aligned block is never cut short, as the code assumes once it has
    ruled out the file-size limit. *)
From S2P Require Import Prelude Bytes LsmtFormat Source File Segments Merge Trim Lsmt MergedWritable SparseIndex SparseScan.

Open Scope Z_scope.

(** ** Calls that change the backing file *)

Definition set_file (b : backing) (f : file) (a : Z -> allocation) : backing :=
  Backing (b_script b) f a (b_bsize b) (b_page b) (b_extsize b) (b_realtime b).

(** Blocks that overlap [off, off + n). *)
Definition touches (off n k : Z) : bool := (0 <? n) && (off <? (k + 1) * kExtentBlock) && (k * kExtentBlock <? off + n).
Definition allocate (a : Z -> allocation) (off n : Z) (s : allocation) (k : Z) : allocation :=
  if touches off n k then s else a k.

(** What is transferred when the call stops after [n] bytes. *)
Definition whole_blocks (off n count : Z) : Z :=
  if count <=? n then count else Z.max 0 ((off + n) / kExtentBlock * kExtentBlock - off).

Definition write_bytes (b : backing) (bs : bytes) (off : Z) : backing :=
  set_file b (file_write (b_file b) off bs) (allocate (b_alloc b) off (zlen bs) EWritten).
Definition zero_bytes (b : backing) (off n : Z) : backing :=
  set_file b (file_write (b_file b) off (zeros n)) (allocate (b_alloc b) off n EUnwritten).

(** [pwrite_exactly]. *)
Definition backing_pwrite (bs : bytes) (off : Z) : io backing unit :=
  o ← backing_step;
  io_run (fun b => match o with
    | Done => (Ok tt, write_bytes b bs off)
    | Failed n e => (Err (Errno e), write_bytes b (ztake (whole_blocks off n (zlen bs)) bs) off)
    end).
(** [FALLOC_FL_ZERO_RANGE | FALLOC_FL_KEEP_SIZE] of one block. *)
Definition backing_zero_range (off : Z) : io backing unit :=
  o ← backing_step;
  io_run (fun b => match o with
    | Done => (Ok tt, zero_bytes b off kExtentBlock)
    | Failed n e => (Err (Errno e), if kExtentBlock <=? n then zero_bytes b off kExtentBlock else b)
    end).
(** [pread_exactly]: up to the end of the file. *)
Definition backing_pread (count off : Z) : io backing bytes :=
  _ ← backing_call; io_run (fun b => (Ok (file_read (b_file b) off count), b)).
Definition backing_truncate (size : Z) : io backing unit :=
  _ ← backing_call; io_run (fun b => (Ok tt, set_file b (file_truncate (b_file b) size) (b_alloc b))).

(** ** The layer *)

Inductive Lifecycle := kOpen | kGrowing | kCheckpointing | kCheckpointed.

Record SparseRwLayer := Sparse {
  sp_backing : backing;
  sp_vsize : Z;
  sp_segments : list segment_mapping;
  sp_extent_view_valid : bool;
  sp_segments_generation : Z;
  sp_lifecycle : Lifecycle;
  sp_active_ops : Z;
  sp_rlimit : option Z;    (* RLIMIT_FSIZE, none for infinity *)
}.

Definition set_backing (t : SparseRwLayer) (b : backing) : SparseRwLayer :=
  Sparse b (sp_vsize t) (sp_segments t) (sp_extent_view_valid t) (sp_segments_generation t) (sp_lifecycle t)
    (sp_active_ops t) (sp_rlimit t).
Definition set_view (t : SparseRwLayer) (v : list segment_mapping) (valid : bool) (g : Z) : SparseRwLayer :=
  Sparse (sp_backing t) (sp_vsize t) v valid g (sp_lifecycle t) (sp_active_ops t) (sp_rlimit t).
Definition set_sparse_gate (t : SparseRwLayer) (l : Lifecycle) (n : Z) : SparseRwLayer :=
  Sparse (sp_backing t) (sp_vsize t) (sp_segments t) (sp_extent_view_valid t) (sp_segments_generation t) l n (sp_rlimit t).
Definition set_sparse_vsize (t : SparseRwLayer) (v : Z) : SparseRwLayer :=
  Sparse (sp_backing t) v (sp_segments t) (sp_extent_view_valid t) (sp_segments_generation t) (sp_lifecycle t)
    (sp_active_ops t) (sp_rlimit t).

Definition on_backing {A} (m : io backing A) : io SparseRwLayer A := fun t =>
  let '(r, b) := m (sp_backing t) in (r, set_backing t b).

Definition segments_revision (t : SparseRwLayer) : option Z :=
  if negb (sp_extent_view_valid t) || (sp_segments_generation t =? 2 ^ 64 - 1) then None
  else Some (sp_segments_generation t).
Definition advance_extent_generation (g : Z) : Z := if g =? 2 ^ 64 - 1 then g else g + 1.

(** *** Gates *)

Definition closed_errno (l : Lifecycle) : Z := match l with kCheckpointed => EROFS | _ => EBUSY end.

Definition sparse_begin_data_op (offset len : Z) : io SparseRwLayer unit := fun t =>
  match sp_lifecycle t with
  | kOpen => if (sp_vsize t <? offset) || (sp_vsize t - offset <? len) then (Err (Errno EINVAL), t)
             else (Ok tt, set_sparse_gate t kOpen (u32 (sp_active_ops t + 1)))
  | l => (Err (Errno (closed_errno l)), t)
  end.
(** [true] when the layer is checkpointed already. *)
Definition sparse_begin_flush_op : io SparseRwLayer bool := fun t =>
  match sp_lifecycle t with
  | kCheckpointed => (Ok true, t)
  | kOpen => (Ok false, set_sparse_gate t kOpen (u32 (sp_active_ops t + 1)))
  | _ => (Err (Errno EBUSY), t)
  end.
Definition begin_exclusive_op (next : Lifecycle) : io SparseRwLayer unit := fun t =>
  match sp_lifecycle t with
  | kOpen => if negb (sp_active_ops t =? 0) then (Err (Errno EBUSY), t)
             else (Ok tt, set_sparse_gate t next (sp_active_ops t))
  | l => (Err (Errno (closed_errno l)), t)
  end.
Definition sparse_end_data_op (t : SparseRwLayer) : SparseRwLayer :=
  set_sparse_gate t (sp_lifecycle t) (u32 (sp_active_ops t - 1)).
Definition end_exclusive_op (next : Lifecycle) (t : SparseRwLayer) : SparseRwLayer :=
  set_sparse_gate t next (sp_active_ops t).

(** *** Reads *)

Definition sparse_view_pread (count offset : Z) : io SparseRwLayer bytes := fun t =>
  let bound := sp_vsize t in
  if bound <=? offset then (Ok [], t) else
  let count := if bound - offset <? count then bound - offset else count in
  on_backing (backing_pread count offset) t.

Section Layer.
Context (fiemap : (Z -> allocation) -> Z -> Z -> list fiemap_extent).

(** *** The extent view *)

Definition refresh_extents : io SparseRwLayer unit := fun t =>
  match on_backing (scan_sparse_extents fiemap (sp_vsize t)) t with
  | (Ok next, t) => (Ok tt, set_view t next true (advance_extent_generation (sp_segments_generation t)))
  | (Err f, t) => (Err f, set_view t (sp_segments t) false (sp_segments_generation t))
  end.

(** *** Writes *)

(** The index change prepared before the payload changes. *)
Definition next_segments (v : list segment_mapping) (lo hi : Z) (zero_whole : bool) : list segment_mapping :=
  let next := erase_range_from v lo hi in
  sort_by_offset (if zero_whole then push_zero_range next lo hi else insert_live_extent_into next lo (hi - lo)).

(** The payload change of a block: a zeroed range if the file system has it. *)
Definition materialize (block : bytes) (write_offset base : Z) (zero_whole : bool) : io backing unit :=
  r ← (if zero_whole then io_try (backing_zero_range base) else mret (inr EOPNOTSUPP));
  match r with
  | inl _ => mret tt
  | inr e => if negb (e =? EOPNOTSUPP) && negb (e =? ENOSYS) then io_fail (Errno e)
             else backing_pwrite block write_offset
  end.

Section Mutation.
Context {W : Type} (view : BlobSource (SparseRwLayer * W)) (zero : bool).

(** The bytes to store: with a copy-up, the block of the view around the data. *)
Definition prepare_block (copyup : bool) (base within : Z) (data : bytes) : io (SparseRwLayer * W) bytes :=
  if copyup then
    block ← src_pread view kExtentBlock base;
    if zlen block =? kExtentBlock then mret (put block within data) else io_fail (Errno EIO)
  else mret data.

(** Payload first, with the view marked invalid; then the prepared index, or a
    rescan if the payload change failed. *)
Definition store_block (block : bytes) (write_offset base : Z) (zero_whole : bool) (next : list segment_mapping)
    : io SparseRwLayer unit := fun t =>
  let t := set_view t (sp_segments t) false (sp_segments_generation t) in
  match on_backing (materialize block write_offset base zero_whole) t with
  | (Err f, t) => let '(_, t) := refresh_extents t in (Err f, t)
  | (Ok _, t) => (Ok tt, set_view t next true (advance_extent_generation (sp_segments_generation t)))
  end.

Definition write_block (data : bytes) (position n : Z) : io (SparseRwLayer * W) unit := fun x =>
  let base := position / kExtentBlock * kExtentBlock in
  let within := position - base in
  let whole := (within =? 0) && (n =? kExtentBlock) in
  let v := sp_segments x.1 in
  let owned := owned_scan v (base / kSparseSector) ((base + kExtentBlock) / kSparseSector) in
  let copyup := negb whole && negb owned in
  let write_offset := if copyup then base else position in
  let write_count := if copyup then kExtentBlock else n in
  match prepare_block copyup base within data x with
  | (Err f, x) => (Err f, x)
  | (Ok block, x) =>
      let next := next_segments v (write_offset / kSparseSector) ((write_offset + write_count) / kSparseSector) (zero && whole) in
      on_fst (store_block block write_offset base (zero && whole) next) x
  end.

Fixpoint write_loop (fuel : nat) (buffer : bytes) (count offset done : Z) : io (SparseRwLayer * W) Z :=
  if done <? count then
    match fuel with
    | O => io_fail Fuel
    | S fuel =>
        let position := offset + done in
        let within := position - position / kExtentBlock * kExtentBlock in
        let n := Z.min (count - done) (kExtentBlock - within) in
        _ ← write_block (if zero then zeros n else sub done n buffer) position n;
        write_loop fuel buffer count offset (done + n)
    end
  else mret count.

(** Once the operation is admitted. *)
Definition write_admitted (buffer : bytes) (count offset : Z) : io (SparseRwLayer * W) Z :=
  if (count =? 0) || (2 ^ 63 - 1 <? count) || negb (offset mod kSparseSector =? 0) || negb (count mod kSparseSector =? 0)
  then io_fail (Errno EINVAL) else
  _ ← on_fst (on_backing backing_call);                                 (* getrlimit *)
  let materialized_end := u64 (offset + count + 4095) / 4096 * 4096 in
  _ ← on_fst (fun t => match sp_rlimit t with
                       | Some limit => if limit <? materialized_end then (Err (Errno EFBIG), t) else (Ok tt, t)
                       | None => (Ok tt, t)
                       end);
  _ ← on_fst (fun t => if sp_extent_view_valid t then (Ok tt, t) else refresh_extents t);
  unchanged_data ← on_fst (fun t => (Ok (negb zero && range_is_data (sp_segments t) (offset / kSparseSector)
                                                        ((offset + count) / kSparseSector)), t));
  if (unchanged_data : bool) then
    _ ← on_fst (on_backing (backing_pwrite buffer offset));
    mret count
  else write_loop (Z.to_nat (count / kSparseSector)) buffer count offset 0.

Definition write_extents (buffer : bytes) (count offset : Z) : io (SparseRwLayer * W) Z := fun x =>
  match sparse_begin_data_op offset count x.1 with
  | (Err f, t) => (Err f, (t, x.2))
  | (Ok _, t) => let '(r, x) := write_admitted buffer count offset (t, x.2) in (r, (sparse_end_data_op x.1, x.2))
  end.
End Mutation.

Definition pwrite_with_view {W} (view : BlobSource (SparseRwLayer * W)) (buf : bytes) (offset : Z)
    : io (SparseRwLayer * W) Z :=
  write_extents view false buf (zlen buf) offset.
Definition discard_with_view {W} (view : BlobSource (SparseRwLayer * W)) (offset len : Z)
    : io (SparseRwLayer * W) unit :=
  if 2 ^ 63 - 1 <? len then io_fail (Errno EINVAL) else
  _ ← write_extents view true [] len offset; mret tt.

(** The layer's own view, for the operations that are given none. *)
Definition own_view (t : SparseRwLayer) : BlobSource (SparseRwLayer * unit) :=
  Src (sp_vsize t) (fun count offset => on_fst (sparse_view_pread count offset)).
Definition without_world {A} (m : io (SparseRwLayer * unit) A) : io SparseRwLayer A := fun t =>
  let '(r, x) := m (t, tt) in (r, x.1).
Definition sparse_pwrite (buf : bytes) (offset : Z) : io SparseRwLayer Z := fun t =>
  without_world (pwrite_with_view (own_view t) buf offset) t.
Definition sparse_discard (offset len : Z) : io SparseRwLayer unit := fun t =>
  without_world (discard_with_view (own_view t) offset len) t.

(** *** Flush, checkpoint and growth *)

Definition flush_locked : io SparseRwLayer unit :=
  _ ← on_backing backing_call;                                          (* sync_file *)
  on_backing backing_call.                                              (* fsync_parent_dir *)
Definition sparse_flush : io SparseRwLayer unit := fun t =>
  match sparse_begin_flush_op t with
  | (Err f, t) => (Err f, t)
  | (Ok true, t) => (Ok tt, t)
  | (Ok false, t) => let '(r, t) := flush_locked t in (r, sparse_end_data_op t)
  end.
Definition sparse_checkpoint : io SparseRwLayer unit := fun t =>
  match begin_exclusive_op kCheckpointing t with
  | (Err f, t) => (Err f, t)
  | (Ok _, t) => let '(r, t) := flush_locked t in
                 (r, end_exclusive_op (if is_ok r then kCheckpointed else kOpen) t)
  end.

Definition grow_extents (vsize : Z) : io SparseRwLayer unit := fun t =>
  let cur := sp_vsize t in
  if (vsize =? 0) || negb (vsize mod 4096 =? 0) || (vsize <? cur) then (Err (Errno EINVAL), t) else
  if kInvalidOffset * kSparseSector <? vsize then (Err (Errno EFBIG), t) else
  if vsize =? cur then (Ok tt, t) else
  match on_backing (backing_truncate vsize) t with
  | (Err f, t) => (Err f, t)
  | (Ok _, t) => (Ok tt, set_sparse_vsize t vsize)
  end.
Definition sparse_grow (vsize : Z) : io SparseRwLayer unit := fun t =>
  match begin_exclusive_op kGrowing t with
  | (Err f, t) => (Err f, t)
  | (Ok _, t) => let '(r, t) := grow_extents vsize t in (r, end_exclusive_op kOpen t)
  end.

(** *** Opening *)

(** The extent branch of [open_sync] on a file it could open and lock; [legacy]
    says whether a side file of the old format is there. *)
Definition open_extents (legacy : bool) (vsize : Z) (existing_only : bool) (rlimit : option Z)
    : io backing SparseRwLayer :=
  if negb existing_only && ((vsize =? 0) || negb (vsize mod 4096 =? 0)) then io_fail (Errno EINVAL) else
  if kInvalidOffset * kSparseSector <? vsize then io_fail (Errno EFBIG) else
  _ ← backing_call;                                                     (* open *)
  _ ← backing_call;                                                     (* flock *)
  _ ← backing_call;                                                     (* fstat *)
  original_data_size ← io_run (fun b => (Ok (f_size (b_file b)), b));
  if negb (original_data_size mod kSparseSector =? 0) then io_fail (Errno EINVAL) else
  if existing_only && (original_data_size =? 0) then io_fail (Errno EINVAL) else
  let vsize := if existing_only then original_data_size else vsize in
  _ ← backing_call;                                                     (* lstat of the side files *)
  if (legacy : bool) then io_fail (Errno EOPNOTSUPP) else
  _ ← validate_sparse_extent_backing;
  let full_size := Z.max vsize original_data_size in
  if (full_size =? 0) || negb (full_size mod 4096 =? 0) then io_fail (Errno EINVAL) else
  _ ← (if original_data_size =? full_size then mret tt else backing_truncate full_size);
  segments ← scan_sparse_extents fiemap full_size;
  io_run (fun b => (Ok (Sparse b full_size segments true 0 kOpen 0 rlimit), b)).
End Layer.
