(* ===== verification/SparseWrite.v ===== *)
(** * Mutations of the sparse layer

    The invariant that ties the index to the blocks of the file, and the effect
    of a write and a discard on what the layer answers for every byte, completed
    or stopped by any failure. *)
From S2P Require Import Prelude Bytes LsmtFormat Source File Segments Merge Trim Lsmt MergedWritable SparseIndex SparseScan SparseLayer.

Open Scope Z_scope.

(** ** The invariant *)

Record disk_ok (b : backing) : Prop := {
  bk_geometry : geometry b;
  bk_size : size_ok (f_size (b_file b));
  bk_zero : forall i, b_alloc b (i / kExtentBlock) <> EWritten -> f_byte (b_file b) i = 0;
  bk_beyond : forall k, f_size (b_file b) <= k * kExtentBlock -> b_alloc b k = EHole;
}.

(** What the index says of a sector is what the file system has. *)
Definition agrees (b : backing) (x : Z) (c : cell) : Prop :=
  match c with
  | Hole => b_alloc b (x / 8) = EHole
  | Zero => b_alloc b (x / 8) <> EHole /\
            forall i, x * kSparseSector <= i < (x + 1) * kSparseSector -> f_byte (b_file b) i = 0
  | Data _ _ => b_alloc b (x / 8) = EWritten
  end.

Record sparse_ok (t : SparseRwLayer) : Prop := {
  so_backing : disk_ok (sp_backing t);
  so_size : f_size (b_file (sp_backing t)) = sp_vsize t;
  so_index : extent_index (sp_segments t);
  so_beyond : forall x, sp_vsize t / kSparseSector <= x -> resolve (sp_segments t) x = Hole;
  so_view : sp_extent_view_valid t = true -> forall x, 0 <= x -> agrees (sp_backing t) x (resolve (sp_segments t) x);
  so_generation : 0 <= sp_segments_generation t < 2 ^ 64;
}.

(** The byte the file delivers, the byte the index answers with, and the byte the
    file system's extents stand for. *)
Definition sparse_payload (t : SparseRwLayer) (i : Z) : Z :=
  if i <? sp_vsize t then f_byte (b_file (sp_backing t)) i else 0.
Definition index_byte (t : SparseRwLayer) (i : Z) : option Z :=
  match resolve (sp_segments t) (i / kSparseSector) with
  | Hole => None
  | Zero => Some 0
  | Data _ _ => Some (sparse_payload t i)
  end.
Definition disk_byte (b : backing) (i : Z) : option Z :=
  match b_alloc b (i / kExtentBlock) with
  | EHole => None
  | EUnwritten => Some 0
  | EWritten => Some (f_byte (b_file b) i)
  end.

Lemma in_place_cell v x t p : extent_index v -> resolve v x = Data t p -> t = 0 /\ p = x.
Proof.
  intros [_ Hu Hi]. induction v as [|s v IH]; [done|]. apply Forall_cons in Hu as [Hs Hu], Hi as [Is Hi].
  cbn [resolve]. destruct (covers s x); [|by apply IH]. unfold seg_cell, in_place, untagged in *.
  destruct (s_zeroed s); [done|]. intros [= <- <-]. rewrite Is by done. lia.
Qed.

Lemma sector_block i : i / kExtentBlock = i / kSparseSector / 8.
Proof. unfold kExtentBlock, kSparseSector. rewrite Z.div_div by lia. done. Qed.

Lemma sector_of i : i / kSparseSector * kSparseSector <= i < (i / kSparseSector + 1) * kSparseSector.
Proof. unfold kSparseSector. Z.to_euclidean_division_equations. lia. Qed.

Lemma sector_sum a b : a mod kSparseSector = 0 -> b mod kSparseSector = 0 -> (a + b) mod kSparseSector = 0.
Proof. unfold kSparseSector. intros H1 H2. by rewrite Z.add_mod, H1, H2 by lia. Qed.
Lemma aligned_base x : x mod kExtentBlock = 0 -> x / kExtentBlock * kExtentBlock = x.
Proof. unfold kExtentBlock. intros [k ->]%Z.mod_divide; [|done]. by rewrite Z.div_mul. Qed.
Lemma base_below x : 0 <= x -> 0 <= x / kExtentBlock * kExtentBlock <= x /\ x < x / kExtentBlock * kExtentBlock + kExtentBlock.
Proof. unfold kExtentBlock. intros. Z.to_euclidean_division_equations. lia. Qed.

(** With a valid view, the index and the extents say the same. *)
Lemma index_disk t i :
  sparse_ok t -> sp_extent_view_valid t = true -> 0 <= i -> index_byte t i = disk_byte (sp_backing t) i.
Proof.
  intros Hok Hv Hi. pose proof (so_view t Hok Hv (i / kSparseSector) ltac:(apply Z.div_pos; unfold kSparseSector; lia)) as Ha.
  unfold index_byte, disk_byte, sparse_payload. rewrite sector_block.
  destruct (resolve (sp_segments t) (i / kSparseSector)) as [| |g p] eqn:Hr; cbn in Ha.
  - by rewrite Ha.
  - destruct Ha as [Ha Hz]. destruct (b_alloc _ _); try done. rewrite Hz; [done|]. apply sector_of.
  - rewrite Ha. destruct (Z.ltb_spec i (sp_vsize t)); [done|]. rewrite (so_beyond t Hok) in Hr; [done|].
    apply Z.div_le_mono; unfold kSparseSector; lia.
Qed.

(** ** Calls on the backing file *)

Lemma touches_spec off n k : touches off n k = true <-> 0 < n /\ off < (k + 1) * kExtentBlock /\ k * kExtentBlock < off + n.
Proof. unfold touches. rewrite !andb_true_iff, !Z.ltb_lt. tauto. Qed.

Lemma touches_inside off n i : off <= i < off + n -> touches off n (i / kExtentBlock) = true.
Proof. intros. apply touches_spec. unfold kExtentBlock. Z.to_euclidean_division_equations. lia. Qed.

Lemma write_bytes_ok b bs off :
  disk_ok b -> 0 <= off -> off + zlen bs <= f_size (b_file b) ->
  disk_ok (write_bytes b bs off) /\ f_size (b_file (write_bytes b bs off)) = f_size (b_file b).
Proof.
  intros [[G1 G2 G3 G4] H2 H3 H4] Ho Hl. pose proof (zlen_nonneg bs).
  assert (f_size (b_file (write_bytes b bs off)) = f_size (b_file b)) as Es by (cbn; case_if; lia).
  split; [|done]. split; [done|by rewrite Es| |].
  - intros i. cbn [write_bytes set_file b_alloc b_file]. unfold allocate. destruct (touches _ _ _) eqn:Ht; [done|].
    intros Hi. rewrite f_byte_write_out; [by apply H3|].
    destruct (decide (off <= i < off + zlen bs)) as [Hin|]; [|lia]. by rewrite touches_inside in Ht.
  - intros k Hk. rewrite Es in Hk. cbn. unfold allocate. destruct (touches _ _ _) eqn:Ht; [|by apply H4].
    apply touches_spec in Ht. lia.
Qed.

Lemma zero_bytes_ok b off n :
  disk_ok b -> 0 <= off -> 0 <= n -> off mod kExtentBlock = 0 -> n mod kExtentBlock = 0 -> off + n <= f_size (b_file b) ->
  disk_ok (zero_bytes b off n) /\ f_size (b_file (zero_bytes b off n)) = f_size (b_file b).
Proof.
  intros [[G1 G2 G3 G4] H2 H3 H4] Ho Hn Ao An Hl.
  assert (f_size (b_file (zero_bytes b off n)) = f_size (b_file b)) as Es by (cbn; rewrite zlen_zeros; case_if; lia).
  split; [|done]. split; [done|by rewrite Es| |].
  - intros i. cbn [zero_bytes set_file b_alloc b_file]. unfold allocate. destruct (touches _ _ _) eqn:Ht.
    + intros _. apply touches_spec in Ht. rewrite f_byte_write_in; [apply bget_zeros|]. rewrite zlen_zeros.
      unfold kExtentBlock in *. Z.to_euclidean_division_equations. lia.
    + intros Hi. rewrite f_byte_write_out; [by apply H3|]. rewrite zlen_zeros.
      destruct (decide (off <= i < off + n)) as [Hin|]; [|lia]. by rewrite touches_inside in Ht.
  - intros k Hk. rewrite Es in Hk. cbn. unfold allocate. destruct (touches _ _ _) eqn:Ht; [|by apply H4].
    apply touches_spec in Ht. lia.
Qed.

(** ** Repairing the view *)

(** Nothing but the view and the outcomes to come. *)
Definition same_disk (t t' : SparseRwLayer) : Prop :=
  only_script (sp_backing t) (sp_backing t') /\ sp_vsize t' = sp_vsize t /\ sp_lifecycle t' = sp_lifecycle t /\
  sp_active_ops t' = sp_active_ops t /\ sp_rlimit t' = sp_rlimit t.

Lemma same_disk_refl t : same_disk t t.
Proof. by split. Qed.
Lemma same_disk_trans t t1 t2 : same_disk t t1 -> same_disk t1 t2 -> same_disk t t2.
Proof.
  intros (A1 & A2 & A3 & A4 & A5) (B1 & B2 & B3 & B4 & B5). split; [by eapply only_script_trans|].
  repeat split; congruence.
Qed.

Lemma only_script_disk b b' : only_script b b' ->
  b_file b' = b_file b /\ b_alloc b' = b_alloc b /\ (forall i, disk_byte b' i = disk_byte b i) /\
  (disk_ok b -> disk_ok b') /\ forall x c, agrees b x c -> agrees b' x c.
Proof. intros [s ->]. split; [done|]. split; [done|]. split; [done|]. split; [|done]. by intros [[] ? ? ?]. Qed.

Lemma scanned_agrees b l :
  disk_ok b -> classified (b_alloc b) (f_size (b_file b)) (f_size (b_file b)) l ->
  extent_index l /\ (forall x, f_size (b_file b) / kSparseSector <= x -> resolve l x = Hole) /\
  forall x, 0 <= x -> agrees b x (resolve l x).
Proof.
  intros Hb [S1 S2 S3]. rewrite Z.min_id in *. split; [done|]. split.
  - intros x Hx. rewrite S3, (proj2 (Z.ltb_ge _ _)), andb_false_r by done. done.
  - intros x Hx. rewrite S3, (proj2 (Z.leb_le 0 x)) by done. cbn [andb].
    destruct (Z.ltb_spec x (f_size (b_file b) / kSparseSector)) as [Hlt|Hge].
    + unfold alloc_cell. destruct (b_alloc b (x / 8)) eqn:E; cbn; [done| |done]. split; [by rewrite E|].
      intros i Hi. apply (bk_zero b Hb). replace (i / kExtentBlock) with (x / 8); [by rewrite E|].
      rewrite sector_block. f_equal. unfold kSparseSector in *. Z.to_euclidean_division_equations. lia.
    + cbn. apply (bk_beyond b Hb). destruct (bk_size b Hb) as (Hs & A & _).
      unfold kExtentBlock, kSparseSector in *. Z.to_euclidean_division_equations. lia.
Qed.

Lemma advance_range g : 0 <= g < 2 ^ 64 -> 0 <= advance_extent_generation g < 2 ^ 64.
Proof. intros. unfold advance_extent_generation. case_if; lia. Qed.

(** ** The payload of one block *)

Lemma disk_allocated b i :
  disk_ok b -> disk_byte b i = if decide (b_alloc b (i / kExtentBlock) = EHole) then None else Some (f_byte (b_file b) i).
Proof.
  intros Hb. unfold disk_byte. destruct (b_alloc b (i / kExtentBlock)) eqn:E; cbn; [done| |done].
  by rewrite (bk_zero b Hb i) by (by rewrite E).
Qed.

(** [b'] is [b] with [block] at [off], in blocks that are allocated now, as data
    if it is [live]. *)
Record stored (live : bool) (b b' : backing) (off : Z) (block : bytes) : Prop := {
  st_ok : disk_ok b';
  st_size : f_size (b_file b') = f_size (b_file b);
  st_in : forall i, off <= i < off + zlen block -> f_byte (b_file b') i = bget block (i - off);
  st_out : forall i, ~ off <= i < off + zlen block -> f_byte (b_file b') i = f_byte (b_file b) i;
  st_touched : forall k, touches off (zlen block) k = true ->
    b_alloc b' k <> EHole /\ (live = true -> b_alloc b' k = EWritten);
  st_others : forall k, touches off (zlen block) k = false -> b_alloc b' k = b_alloc b k;
}.

Lemma stored_write live b bs off :
  disk_ok b -> 0 <= off -> off + zlen bs <= f_size (b_file b) -> stored live b (write_bytes b bs off) off bs.
Proof.
  intros Hb Ho Hl. destruct (write_bytes_ok b bs off Hb Ho Hl) as [W1 W2]. split; try done.
  - intros i Hi. by apply f_byte_write_in.
  - intros i Hi. apply f_byte_write_out. lia.
  - intros k Hk. cbn. unfold allocate. by rewrite Hk.
  - intros k Hk. cbn. unfold allocate. by rewrite Hk.
Qed.
Lemma stored_zero b off :
  disk_ok b -> 0 <= off -> off mod kExtentBlock = 0 -> off + kExtentBlock <= f_size (b_file b) ->
  stored false b (zero_bytes b off kExtentBlock) off (zeros kExtentBlock).
Proof.
  intros Hb Ho Ao Hl. destruct (zero_bytes_ok b off kExtentBlock Hb Ho) as [W1 W2]; try done.
  split; rewrite ?zlen_zeros; try done.
  - intros i Hi. by apply f_byte_write_in.
  - intros i Hi. apply f_byte_write_out. rewrite zlen_zeros. lia.
  - intros k Hk. cbn. unfold allocate. change (Z.max 0 kExtentBlock) with kExtentBlock in Hk. by rewrite Hk.
  - intros k Hk. cbn. unfold allocate. change (Z.max 0 kExtentBlock) with kExtentBlock in Hk. by rewrite Hk.
Qed.

Lemma stored_script live b b1 b' off block :
  only_script b b1 -> stored live b1 b' off block -> stored live b b' off block.
Proof. intros [s ->] [S1 S2 S3 S4 S5 S6]. by split. Qed.
Lemma stored_twice b b1 b' off block :
  stored false b b1 off block -> stored false b1 b' off block -> stored false b b' off block.
Proof.
  intros [S1 S2 S3 S4 S5 S6] [R1 R2 R3 R4 R5 R6]. split; try done.
  - congruence.
  - intros i Hi. by rewrite R4, S4.
  - intros k Hk. by rewrite R6, S6.
Qed.

(** Within one block a failed write has stored everything or nothing. *)
Lemma backing_pwrite_block live b bs off base :
  disk_ok b -> 0 <= off -> off + zlen bs <= f_size (b_file b) ->
  base mod kExtentBlock = 0 -> base <= off -> off + zlen bs <= base + kExtentBlock ->
  let '(r, b') := backing_pwrite bs off b in
  match r with
  | Ok _ => stored live b b' off bs
  | Err f => any_errno f /\ (stored live b b' off [] \/ stored live b b' off bs)
  end.
Proof.
  intros Hb Ho Hl Ab Hbo Hob. unfold backing_pwrite, backing_step, mbind, io_bind, io_run.
  destruct (next_outcome (b_script b)) as [[|n e] s]; cbn beta iota.
  { apply (stored_script _ _ (set_bscript b s)); [by exists s|]. apply stored_write; [|done|done].
    by apply (only_script_disk b _ (ex_intro _ s eq_refl)). }
  split; [auto with errno|]. unfold whole_blocks. destruct (Z.leb_spec (zlen bs) n).
  - right. rewrite ztake_all by lia. apply (stored_script _ _ (set_bscript b s)); [by exists s|].
    apply stored_write; [|done|done]. by apply (only_script_disk b _ (ex_intro _ s eq_refl)).
  - left. replace (Z.max 0 _) with 0.
    2: { unfold kExtentBlock in *. Z.to_euclidean_division_equations. lia. }
    apply (stored_script _ _ (set_bscript b s)); [by exists s|].
    change (ztake 0 bs) with (@nil Z). apply stored_write; [by apply (only_script_disk b _ (ex_intro _ s eq_refl))|done|].
    rewrite zlen_nil. cbn. pose proof (zlen_nonneg bs). lia.
Qed.

Lemma stored_nothing live b b' off : disk_ok b -> only_script b b' -> stored live b b' off [].
Proof.
  intros Hb Hs. destruct (only_script_disk _ _ Hs) as (E1 & E2 & _ & E4 & _). split; rewrite ?E1, ?E2; try done; [by apply E4|].
  intros i. rewrite zlen_nil. lia.
Qed.
Lemma stored_after_nothing live b b1 b' off off' block :
  stored live b b1 off [] -> stored live b1 b' off' block -> stored live b b' off' block.
Proof.
  intros [S1 S2 S3 S4 S5 S6] [R1 R2 R3 R4 R5 R6].
  assert (forall k, touches off (zlen (@nil Z)) k = false) as Hn by done.
  split; try done.
  - congruence.
  - intros i Hi. rewrite R4, S4; [done| |done]. rewrite zlen_nil. lia.
  - intros k Hk. by rewrite R6, S6.
Qed.
Lemma stored_again b b1 b2 off block :
  stored false b b1 off block -> stored false b1 b2 off [] -> stored false b b2 off block.
Proof.
  intros [S1 S2 S3 S4 S5 S6] [R1 R2 R3 R4 R5 R6].
  assert (forall i, f_byte (b_file b2) i = f_byte (b_file b1) i) as Eb by (intros i; apply R4; rewrite zlen_nil; lia).
  assert (forall k, b_alloc b2 k = b_alloc b1 k) as Ea by (intros k; by apply R6).
  split; try done.
  - congruence.
  - intros i Hi. by rewrite Eb, S3.
  - intros i Hi. by rewrite Eb, S4.
  - intros k Hk. rewrite Ea. by apply S5.
  - intros k Hk. by rewrite Ea, S6.
Qed.

Lemma zero_range_ok b off :
  disk_ok b -> 0 <= off -> off mod kExtentBlock = 0 -> off + kExtentBlock <= f_size (b_file b) ->
  let '(r, b') := backing_zero_range off b in
  match r with
  | Ok _ => stored false b b' off (zeros kExtentBlock)
  | Err f => any_errno f /\ (stored false b b' off [] \/ stored false b b' off (zeros kExtentBlock))
  end.
Proof.
  intros Hb Ho Ao Hl. unfold backing_zero_range, backing_step, mbind, io_bind, io_run.
  destruct (next_outcome (b_script b)) as [o s].
  assert (only_script b (set_bscript b s)) as Hs by (by exists s).
  assert (disk_ok (set_bscript b s)) as Hb' by (by apply (only_script_disk _ _ Hs)).
  assert (stored false b (zero_bytes (set_bscript b s) off kExtentBlock) off (zeros kExtentBlock)) as Hz
    by (eapply stored_script; [exact Hs|]; by apply stored_zero).
  destruct o as [|n e]; cbn beta iota; [done|]. split; [auto with errno|].
  case_if; [by right|]. left. by apply stored_nothing.
Qed.

(** The change of a block: stored, or failed with the block as it was or stored. *)
Lemma materialize_ok b block off base (zw : bool) :
  disk_ok b -> 0 <= base <= off -> off + zlen block <= base + kExtentBlock -> base mod kExtentBlock = 0 ->
  base + kExtentBlock <= f_size (b_file b) -> (zw = true -> off = base /\ block = zeros kExtentBlock) ->
  let '(r, b') := materialize block off base zw b in
  match r with
  | Ok _ => stored (negb zw) b b' off block
  | Err f => any_errno f /\ (stored (negb zw) b b' off [] \/ stored (negb zw) b b' off block)
  end.
Proof.
  intros Hb Hbo Hl Ab Hf Hz. unfold materialize, mbind, io_bind, io_try. destruct zw; cbn [negb].
  2: { pose proof (backing_pwrite_block true b block off base Hb ltac:(lia) ltac:(lia) Ab ltac:(lia) Hl) as H.
       cbn. destruct (backing_pwrite block off b) as [[]]; done. }
  destruct (Hz eq_refl) as [-> ->].
  pose proof (zero_range_ok b base Hb ltac:(lia) Ab Hf) as H.
  destruct (backing_zero_range base b) as [[[]|f] b1]; [done|]. destruct H as [[e ->] H]. cbn.
  destruct (negb _ && _); cbn; [split; [auto with errno|done]|].
  assert (disk_ok b1 /\ f_size (b_file b1) = f_size (b_file b)) as [Hb1 Es] by (destruct H as [[]|[]]; done).
  pose proof (backing_pwrite_block false b1 (zeros kExtentBlock) base base Hb1 ltac:(lia) ltac:(lia) Ab ltac:(lia) Hl) as H1.
  assert (forall b2, stored false b1 b2 base (zeros kExtentBlock) -> stored false b b2 base (zeros kExtentBlock)) as Hall.
  { intros b2 H2. destruct H; [by eapply stored_after_nothing|by eapply stored_twice]. }
  destruct (backing_pwrite (zeros kExtentBlock) base b1) as [[[]|f] b2]; [by apply Hall|].
  destruct H1 as [Hf' H1]. split; [done|]. destruct H1 as [H1|H1]; [|right; by apply Hall].
  destruct H as [H|H]; [left; by eapply stored_after_nothing|right; by eapply stored_again].
Qed.

(** ** The layer as a writable top *)

Definition sparse_writable (fiemap : (Z -> allocation) -> Z -> Z -> list fiemap_extent) {W}
    : WritableLayer SparseRwLayer W := {|
  wl_pwrite := sparse_pwrite fiemap;
  wl_discard := sparse_discard fiemap;
  wl_flush := sparse_flush;
  wl_grow := sparse_grow;
  wl_virtual_size := sp_vsize;
  wl_segments := sp_segments;
  wl_snapshot_ok := sp_extent_view_valid;
  wl_generation := sp_segments_generation;
  wl_revision := segments_revision;
  wl_data_pread := sparse_view_pread;
  wl_local := false;
  wl_serialize := false;
  wl_requires_view := true;
  wl_pwrite_with_view := pwrite_with_view fiemap;
  wl_discard_with_view := discard_with_view fiemap;
|}.

(** Only outcomes were used up. *)
Definition same_script (t t' : SparseRwLayer) : Prop := exists s, t' = set_backing t (set_bscript (sp_backing t) s).

Lemma same_script_refl t : same_script t t.
Proof. exists (b_script (sp_backing t)). by destruct t as [[]]. Qed.
Lemma same_script_trans t t1 t2 : same_script t t1 -> same_script t1 t2 -> same_script t t2.
Proof. intros [s ->] [s' ->]. by exists s'. Qed.
Lemma same_script_ok t t' : sparse_ok t -> same_script t t' -> sparse_ok t'.
Proof. intros [O1 O2 O3 O4 O5 O6] [s ->]. split; try done. by apply (only_script_disk _ _ (ex_intro _ s eq_refl)). Qed.

Section Mutation.
Context (fiemap : (Z -> allocation) -> Z -> Z -> list fiemap_extent) (Hfm : fiemap_documented fiemap).

(** The scan gives a valid view of the same blocks, or leaves the view invalid. *)
Lemma refresh_ok t :
  sparse_ok t ->
  let '(r, t') := refresh_extents fiemap t in
  sparse_ok t' /\ same_disk t t' /\ sp_extent_view_valid t' = is_ok r /\
  match r with
  | Ok _ => sp_segments_generation t' = advance_extent_generation (sp_segments_generation t)
  | Err f => any_errno f /\ sp_segments t' = sp_segments t /\ sp_segments_generation t' = sp_segments_generation t
  end.
Proof.
  intros [O1 O2 O3 O4 O5 O6]. unfold refresh_extents, on_backing. rewrite <- O2.
  pose proof (attempt_result _ _ _ _ _ (scan_attempt fiemap Hfm (sp_backing t) _ (bk_size _ O1) (bk_geometry _ O1) eq_refl)) as H.
  destruct (scan_sparse_extents fiemap (f_size (b_file (sp_backing t))) (sp_backing t)) as [[l|f] b'].
  - destruct H as [Hb Hs]. destruct (scanned_agrees _ _ O1 Hs) as (S1 & S2 & S3).
    destruct (only_script_disk _ _ Hb) as (E1 & E2 & _ & Hk & Ha).
    split; [|split; [by split|done]]. split; cbn; auto using advance_range.
    + by rewrite E1.
    + by rewrite <- O2.
  - destruct H as [Hf Hb]. destruct (only_script_disk _ _ Hb) as (E1 & E2 & _ & Hk & Ha).
    split; [|split; [by split|done]]. split; cbn; auto; [by rewrite E1|done].
Qed.

(** ** One block of a mutation *)

(** The revision tells when the mappings may have changed. *)
Definition view_revised (t t' : SparseRwLayer) : Prop :=
  sp_segments_generation t <= sp_segments_generation t' /\
  (sp_segments_generation t' = sp_segments_generation t ->
   sp_segments t' = sp_segments t \/ sp_segments_generation t' = 2 ^ 64 - 1).

Lemma view_revised_refl t : view_revised t t.
Proof. split; [lia|by left]. Qed.
Lemma view_revised_trans t t1 t2 : view_revised t t1 -> view_revised t1 t2 -> view_revised t t2.
Proof.
  intros [A1 A2] [B1 B2]. split; [lia|]. intros E. destruct (B2 ltac:(lia)) as [->|]; [|by right].
  destruct (A2 ltac:(lia)) as [->|]; [by left|right; lia].
Qed.
Lemma revised_advance t t' :
  sp_segments_generation t < 2 ^ 64 ->
  sp_segments_generation t' = advance_extent_generation (sp_segments_generation t) -> view_revised t t'.
Proof. unfold view_revised, advance_extent_generation. intros Hg ->. case_if; split; try lia; intros; right; lia. Qed.
Lemma revised_unrevised t t' :
  view_revised t t' -> unrevised (segments_revision t) (segments_revision t') = true -> sp_segments t' = sp_segments t.
Proof.
  intros [H1 H2]. unfold segments_revision, unrevised.
  destruct (negb (sp_extent_view_valid t) || _); [done|].
  destruct (negb (sp_extent_view_valid t') || _) eqn:E; [done|]. intros Eg. bool_hyps. destruct (H2 ltac:(lia)); [done|lia].
Qed.

Lemma cells_in_place v :
  index_ok 0 v -> (forall x t p, resolve v x = Data t p -> p = x) -> Forall in_place v.
Proof.
  intros Hv Hc. apply Forall_forall. intros s Hs Hz.
  assert (seg_ok s) as (_ & ? & _) by (destruct Hv as [Hv _]; rewrite Forall_forall in Hv; auto).
  pose proof (resolve_elem _ s v (s_offset s) Hv Hs ltac:(unfold fin; lia)) as Hr. unfold seg_cell in Hr. rewrite Hz in Hr.
  apply Hc in Hr. lia.
Qed.

Lemma agrees_same b b' x c :
  b_alloc b' (x / 8) = b_alloc b (x / 8) ->
  (forall i, x * kSparseSector <= i < (x + 1) * kSparseSector -> f_byte (b_file b') i = f_byte (b_file b) i) ->
  agrees b' x c <-> agrees b x c.
Proof.
  intros Ea Eb. destruct c; cbn; rewrite Ea; [done| |done]. split; (intros [H1 H2]; split; [done|]; intros i Hi); specialize (H2 i Hi);
    by rewrite Eb in *.
Qed.

(** Everything but the file, the view and its generation. *)
Definition same_shape (t t' : SparseRwLayer) : Prop :=
  sp_vsize t' = sp_vsize t /\ sp_lifecycle t' = sp_lifecycle t /\ sp_active_ops t' = sp_active_ops t /\
  sp_rlimit t' = sp_rlimit t.

Lemma same_script_bytes t t' i : same_script t t' -> index_byte t' i = index_byte t i.
Proof. by intros [s ->]. Qed.
Lemma same_script_shape t t' : same_script t t' -> same_shape t t'.
Proof. by intros [s ->]. Qed.
Lemma index_byte_neg t i : sparse_ok t -> i < 0 -> index_byte t i = None.
Proof.
  intros Ht Hi. unfold index_byte. rewrite (resolve_below 0); [done|apply Ht|].
  unfold kSparseSector. Z.to_euclidean_division_equations. lia.
Qed.
Lemma same_script_revised t t' : same_script t t' -> view_revised t t'.
Proof. intros [s ->]. split; [cbn; lia|by left]. Qed.

Section Block.
Context (t : SparseRwLayer) (Hok : sparse_ok t) (Hvalid : sp_extent_view_valid t = true).
Context (position n : Z) (zero : bool) (data : bytes).
Let base := position / kExtentBlock * kExtentBlock.
Context (Hp : 0 <= position) (Ap : position mod kSparseSector = 0) (Hn : 0 < n) (An : n mod kSparseSector = 0).
Context (Hblock : position + n <= base + kExtentBlock) (Hend : base + kExtentBlock <= sp_vsize t).
Context (Hdata : zlen data = n) (Hzero : zero = true -> data = zeros n).
Context (Htail : zero = true -> no_zero_tail (sp_segments t) (position / kSparseSector)).

Let b := sp_backing t.
Let v := sp_segments t.
Let whole := (position - base =? 0) && (n =? kExtentBlock).
Let owned := owned_scan v (base / kSparseSector) ((base + kExtentBlock) / kSparseSector).
Let copyup := negb whole && negb owned.
Let write_offset := if copyup then base else position.
Let write_count := if copyup then kExtentBlock else n.
Let lo := write_offset / kSparseSector.
Let hi := (write_offset + write_count) / kSparseSector.

Lemma base_ok : 0 <= base <= position /\ base mod kExtentBlock = 0 /\ position < base + kExtentBlock /\ base / kExtentBlock = position / kExtentBlock.
Proof. unfold base, kExtentBlock. repeat split; try (Z.to_euclidean_division_equations; lia). Qed.

(** The whole block is owned or none of it is. *)
Lemma owned_alloc : owned = true <-> b_alloc b (base / kExtentBlock) <> EHole.
Proof.
  destruct base_ok as (B1 & B2 & _). pose proof (so_view t Hok Hvalid) as Ha.
  pose proof (owned_scan_ok 0 v (base / kSparseSector) ((base + kExtentBlock) / kSparseSector) (ei_index _ (so_index t Hok))) as H.
  fold owned in H. unfold kExtentBlock, kSparseSector in *.
  specialize (H ltac:(Z.to_euclidean_division_equations; lia)).
  assert (forall x, base / 512 <= x < (base + 4096) / 512 -> 0 <= x /\ x / 8 = base / 4096) as Hx
    by (intros x Hx; Z.to_euclidean_division_equations; lia).
  destruct owned; (split; try done).
  - intros _. specialize (Hx (base / 512) ltac:(Z.to_euclidean_division_equations; lia)) as [Hx0 Hx8].
    specialize (H (base / 512) ltac:(Z.to_euclidean_division_equations; lia)). specialize (Ha _ Hx0). fold v in Ha.
    unfold agrees in Ha. rewrite Hx8 in Ha. fold b in Ha. destruct (resolve v (base / 512)); [done|tauto|by rewrite Ha].
  - intros Hne. destruct H as (x & Hxr & Hr). destruct (Hx x Hxr) as [Hx0 Hx8]. specialize (Ha x Hx0).
    fold v in Ha. rewrite Hr in Ha. cbn in Ha. by rewrite Hx8 in Ha.
Qed.

Lemma write_range :
  base <= write_offset <= position /\ position + n <= write_offset + write_count /\
  write_offset + write_count <= base + kExtentBlock /\ 0 < write_count /\
  write_offset mod kSparseSector = 0 /\ write_count mod kSparseSector = 0.
Proof.
  destruct base_ok as (B1 & B2 & B3 & _). unfold write_offset, write_count. destruct copyup.
  - repeat split; try lia. unfold kExtentBlock, kSparseSector in *. Z.to_euclidean_division_equations. lia.
  - repeat split; try lia; done.
Qed.

(** A byte of the block outside the written range is in a block already owned. *)
Lemma outside_owned i :
  i / kExtentBlock = base / kExtentBlock -> ~ write_offset <= i < write_offset + write_count ->
  copyup = false /\ b_alloc b (i / kExtentBlock) <> EHole.
Proof.
  intros Hi Ho. destruct base_ok as (B1 & B2 & B3 & _). pose proof owned_alloc as HA.
  assert (base <= i < base + kExtentBlock) as Hb by (unfold kExtentBlock in *; Z.to_euclidean_division_equations; lia).
  destruct copyup eqn:Hc; [unfold write_offset, write_count in Ho; lia|]. split; [done|]. rewrite Hi.
  apply HA. unfold copyup in Hc. destruct whole eqn:Hw; cbn in Hc; [|by destruct owned].
  exfalso. unfold whole in Hw. bool_hyps. unfold write_offset, write_count in Ho. lia.
Qed.

Lemma block_touched k : touches write_offset write_count k = true <-> k = base / kExtentBlock.
Proof.
  destruct base_ok as (B1 & B2 & B3 & _), write_range as (W1 & W2 & W3 & W4 & _). rewrite touches_spec.
  unfold kExtentBlock in *. Z.to_euclidean_division_equations. lia.
Qed.

Let next := next_segments v lo hi (zero && whole).

Lemma write_sectors : 0 <= lo < hi /\ lo * kSparseSector = write_offset /\ hi * kSparseSector = write_offset + write_count /\
  hi <= sp_vsize t / kSparseSector /\ hi <= kMaxOffset /\ hi - lo <= 8 /\ hi <= (base + kExtentBlock) / kSparseSector.
Proof.
  destruct base_ok as (B1 & B2 & B3 & _), write_range as (W1 & W2 & W3 & W4 & A1 & A2).
  destruct (bk_size _ (so_backing t Hok)) as (_ & _ & Hm). rewrite (so_size t Hok) in Hm.
  unfold lo, hi, kExtentBlock, kSparseSector, kMaxOffset in *. repeat split; Z.to_euclidean_division_equations; lia.
Qed.

(** The index prepared for the block. *)
Lemma next_ok :
  extent_index next /\ remapped v next lo hi (owner (zero && whole)).
Proof.
  destruct write_sectors as (S1 & S2 & S3 & S4 & S5 & S6 & S7). pose proof (so_index t Hok) as Hix.
  pose proof Hix as [I1 I2 I3]. fold v in Hix, I1, I2, I3.
  assert (index_ok 0 next /\ Forall untagged next /\ remapped v next lo hi (owner (zero && whole))) as (N1 & N2 & N3).
  { unfold next, next_segments. destruct (zero && whole) eqn:Hzw.
    - apply (zero_write_ok 0 v lo hi I1 I2); try lia; [unfold kMaxLength; lia|]. bool_hyps.
      intros x Hx. apply Htail; [done|]. destruct write_range as (W1 & W2 & W3 & _).
      unfold kSparseSector in *. Z.to_euclidean_division_equations. lia.
    - destruct (live_write_ok 0 v lo hi I1 I2) as (G1 & G2 & G3); try lia.
      rewrite (sort_index 0) by done. by split. }
  split; [|done]. split; [done|done|]. apply cells_in_place; [done|]. intros x g p Hr. rewrite N3 in Hr.
  destruct ((lo <=? x) && (x <? hi)); [|exact (proj2 (in_place_cell v x g p Hix Hr))]. by destruct (zero && whole); cbn in Hr; [|injection Hr as _ <-].
Qed.

Lemma next_tail : zero = true -> no_zero_tail next ((base + kExtentBlock) / kSparseSector).
Proof.
  intros Hz x Hx Hr. destruct next_ok as [_ N], write_sectors as (S1 & S2 & S3 & S4 & S5 & S6 & S7).
  rewrite N, (proj2 (Z.ltb_ge x hi)), andb_false_r in Hr by lia.
  destruct (Htail Hz x) as (y & g & p & Hy & Hd); [|done|].
  - destruct base_ok as (B1 & B2 & B3 & _). unfold kExtentBlock, kSparseSector in *. Z.to_euclidean_division_equations. lia.
  - exists y, g, p. split; [done|]. by rewrite N, (proj2 (Z.ltb_ge y hi)), andb_false_r by lia.
Qed.

(** *** The block that is stored *)

Context (size : Z) (d : Z -> Z) (bs : bytes).
Context (Hbs : copyup = true -> zlen bs = kExtentBlock /\ base + kExtentBlock <= size /\
  forall j, 0 <= j < kExtentBlock -> bget bs j = d (base + j)).
Let block := if copyup then put bs (position - base) data else data.

Lemma block_len : zlen block = write_count.
Proof.
  destruct base_ok as (B1 & B2 & B3 & _). unfold block, write_count. destruct copyup; [|done].
  destruct (Hbs eq_refl) as [E _]. rewrite zlen_put; lia.
Qed.
Lemma block_in i : position <= i < position + n -> bget block (i - write_offset) = bget data (i - position).
Proof.
  intros Hi. destruct base_ok as (B1 & B2 & B3 & _). unfold block, write_offset. destruct copyup; [|done].
  destruct (Hbs eq_refl) as [E _]. rewrite bget_put, decide_True by lia. f_equal. lia.
Qed.
Lemma block_out i :
  ~ position <= i < position + n -> write_offset <= i < write_offset + write_count ->
  copyup = true /\ base <= i < size /\ bget block (i - write_offset) = d i.
Proof.
  intros Hi Hw. destruct base_ok as (B1 & B2 & B3 & _). unfold block, write_offset, write_count in *.
  destruct copyup; [|lia]. split; [done|]. destruct (Hbs eq_refl) as (E & Hs & Hd). split; [lia|].
  rewrite bget_put, decide_False, Hd by lia. f_equal. lia.
Qed.

Section Stored.
Context (b' : backing) (m : bytes) (live : bool) (Hm : m = [] \/ m = block).
Context (Hst : stored live b b' write_offset m).

Lemma stored_same i : ~ write_offset <= i < write_offset + write_count -> f_byte (b_file b') i = f_byte (b_file b) i.
Proof.
  intros Hi. apply (st_out _ _ _ _ _ Hst). destruct Hm as [-> | ->]; [rewrite zlen_nil; lia|by rewrite block_len].
Qed.

(** Outside its range the mutation leaves what was there or puts the view's bytes. *)
Lemma disk_after i :
  ~ position <= i < position + n ->
  disk_byte b' i = disk_byte b i \/ (base <= i < size /\ disk_byte b' i = Some (d i)).
Proof.
  intros Hi. pose proof stored_same as Hsame. rewrite !disk_allocated by (apply Hst || apply Hok).
  destruct Hm as [-> | ->].
  { left. by rewrite (st_others _ _ _ _ _ Hst), (st_out _ _ _ _ _ Hst) by (done || rewrite zlen_nil; lia). }
  destruct (decide (write_offset <= i < write_offset + write_count)) as [Hw|Hw].
  - right. destruct (block_out i Hi Hw) as (_ & Hs & Hd). split; [done|].
    rewrite (st_in _ _ _ _ _ Hst), Hd by (by rewrite block_len). rewrite decide_False; [done|].
    apply (st_touched _ _ _ _ _ Hst). rewrite block_len. by apply touches_inside.
  - left. rewrite Hsame by done. destruct (touches write_offset write_count (i / kExtentBlock)) eqn:Ht.
    + pose proof Ht as Hk. apply block_touched in Hk. destruct (outside_owned i Hk Hw) as [_ Ho].
      rewrite !decide_False; [done|done|]. apply (st_touched _ _ _ _ _ Hst). by rewrite block_len.
    + rewrite (st_others _ _ _ _ _ Hst); [done|]. by rewrite block_len.
Qed.

(** The old index over the new bytes. *)
Lemma stale_index t' i :
  sp_segments t' = v -> sp_vsize t' = sp_vsize t -> sp_backing t' = b' ->
  ~ position <= i < position + n -> index_byte t' i = index_byte t i.
Proof.
  intros E1 E2 E3 Hi. unfold index_byte, sparse_payload. rewrite E1, E2, E3. fold v b.
  destruct (resolve v (i / kSparseSector)) as [| |g p] eqn:Hr; [done|done|]. case_if; [|done].
  destruct (decide (write_offset <= i < write_offset + write_count)) as [Hw|Hw]; [|by rewrite stored_same].
  exfalso. destruct (block_out i Hi Hw) as (Hc & _). destruct write_sectors as (S1 & S2 & S3 & _).
  assert (0 <= i / kSparseSector) as H0 by (unfold kSparseSector in *; Z.to_euclidean_division_equations; lia).
  pose proof (so_view t Hok Hvalid _ H0) as Ha. fold v b in Ha. rewrite Hr in Ha. cbn in Ha. rewrite <- sector_block in Ha.
  assert (i / kExtentBlock = base / kExtentBlock) as Ek by (apply block_touched, touches_inside; lia). rewrite Ek in Ha.
  pose proof owned_alloc as HA. rewrite Ha in HA. apply andb_true_iff in Hc as [_ Hc].
  rewrite (proj2 HA) in Hc by done. done.
Qed.
End Stored.

Section StoredBlock.
Context (b' : backing) (Hst : stored (negb (zero && whole)) b b' write_offset block).

Lemma disk_in i : position <= i < position + n -> disk_byte b' i = Some (bget data (i - position)).
Proof.
  intros Hi. destruct write_range as (W1 & W2 & _). rewrite disk_allocated by apply Hst.
  rewrite decide_False.
  - rewrite (st_in _ _ _ _ _ Hst), block_in by (rewrite ?block_len; lia). done.
  - apply (st_touched _ _ _ _ _ Hst). rewrite block_len. apply touches_inside. lia.
Qed.

Lemma next_agrees x : 0 <= x -> agrees b' x (resolve next x).
Proof.
  intros Hx. destruct next_ok as [_ N]. rewrite N. destruct write_sectors as (S1 & S2 & S3 & _).
  assert (forall y, touches write_offset write_count y = true ->
    b_alloc b' y <> EHole /\ (negb (zero && whole) = true -> b_alloc b' y = EWritten)) as Htouch
    by (intros y Hy; apply (st_touched _ _ _ _ _ Hst); by rewrite block_len).
  assert (forall y, touches write_offset write_count y = false -> b_alloc b' y = b_alloc b y) as Hother
    by (intros y Hy; apply (st_others _ _ _ _ _ Hst); by rewrite block_len).
  assert (x / 8 = x * kSparseSector / kExtentBlock) as Ex
    by (unfold kSparseSector, kExtentBlock; Z.to_euclidean_division_equations; lia).
  destruct ((lo <=? x) && (x <? hi)) eqn:Hin; bool_hyps.
  - assert (touches write_offset write_count (x / 8) = true) as Ht.
    { rewrite Ex. apply touches_inside. unfold kSparseSector in *. lia. }
    destruct (Htouch _ Ht) as [T1 T2]. unfold owner. destruct (zero && whole) eqn:Hzw; cbn; [|by apply T2].
    split; [done|]. intros i Hi. rewrite (st_in _ _ _ _ _ Hst) by (rewrite block_len; unfold kSparseSector in *; lia).
    apply andb_true_iff in Hzw as [Hz Hw]. unfold block. replace copyup with false; [|unfold copyup; by rewrite Hw].
    rewrite Hzero by done. apply bget_zeros.
  - assert (forall i, x * kSparseSector <= i < (x + 1) * kSparseSector -> ~ write_offset <= i < write_offset + write_count) as Hout.
    { intros i Hi. unfold kSparseSector in *. destruct (Z.leb_spec lo x), (Z.ltb_spec x hi); done || lia. }
    pose proof (so_view t Hok Hvalid x Hx) as Ha. fold v b in Ha.
    destruct (touches write_offset write_count (x / 8)) eqn:Ht.
    + destruct (Htouch _ Ht) as [T1 T2]. apply block_touched in Ht. rewrite Ex in Ht.
      destruct (outside_owned _ Ht (Hout (x * kSparseSector) ltac:(unfold kSparseSector; lia))) as [Hc Ho].
      rewrite <- Ex in Ho. assert (negb (zero && whole) = true) as Hlive.
      { destruct (zero && whole) eqn:Hzw; [|done]. exfalso. bool_hyps. destruct base_ok as (B1 & B2 & B3 & _).
        apply (Hout (x * kSparseSector)); [unfold kSparseSector; lia|]. unfold write_offset, write_count. rewrite Hc.
        unfold whole in *. bool_hyps. unfold kExtentBlock, kSparseSector in *. Z.to_euclidean_division_equations. lia. }
      destruct (resolve v x) as [| |g p]; cbn in Ha |- *; [done| |by apply T2]. split; [done|].
      intros i Hi. rewrite (stored_same _ block _ (or_intror eq_refl) Hst) by auto. by apply Ha.
    + rewrite (agrees_same b); [done|by apply Hother|].
      intros i Hi. by rewrite (stored_same _ block _ (or_intror eq_refl) Hst) by auto.
Qed.
End StoredBlock.

(** *** Storing it *)

Lemma whole_zero : zero && whole = true -> write_offset = base /\ block = zeros kExtentBlock.
Proof.
  intros Hzw. apply andb_true_iff in Hzw as [Hz Hw]. unfold block, write_offset.
  replace copyup with false by (unfold copyup; by rewrite Hw). unfold whole in Hw. bool_hyps. split; [lia|].
  rewrite Hzero by done. f_equal. lia.
Qed.

(** The layer with the prepared index and the stored block. *)
Lemma stored_state_ok b' t' :
  stored (negb (zero && whole)) b b' write_offset block ->
  t' = set_view (set_backing (set_view t v false (sp_segments_generation t)) b') next true
         (advance_extent_generation (sp_segments_generation t)) -> sparse_ok t'.
Proof.
  intros Hst ->. pose proof Hok as [O1 O2 O3 O4 O5 O6]. destruct next_ok as [N1 N2], write_sectors as (S1 & _ & _ & S4 & _).
  split; cbn; try done.
  - apply Hst.
  - by rewrite (st_size _ _ _ _ _ Hst).
  - intros x Hx. rewrite N2, (proj2 (Z.ltb_ge _ _)), andb_false_r by lia. by apply O4.
  - intros _ x Hx. by apply next_agrees.
  - by apply advance_range.
Qed.

Lemma store_block_ok :
  let '(r, t') := store_block fiemap block write_offset base (zero && whole) next t in
  sparse_ok t' /\ same_shape t t' /\ view_revised t t' /\
  (forall i, ~ position <= i < position + n ->
     index_byte t' i = index_byte t i \/ (base <= i < size /\ index_byte t' i = Some (d i))) /\
  match r with
  | Ok _ => sp_extent_view_valid t' = true /\
            (forall i, position <= i < position + n -> index_byte t' i = Some (bget data (i - position))) /\
            (forall i, base + kExtentBlock <= i -> resolve (sp_segments t') (i / kSparseSector) = resolve v (i / kSparseSector) /\
               sparse_payload t' i = sparse_payload t i) /\
            (zero = true -> no_zero_tail (sp_segments t') ((base + kExtentBlock) / kSparseSector))
  | Err f => any_errno f
  end.
Proof.
  destruct base_ok as (B1 & B2 & B3 & _), write_range as (W1 & W2 & W3 & W4 & _).
  pose proof (materialize_ok b block write_offset base (zero && whole) (so_backing t Hok)) as Hm.
  rewrite block_len in Hm. unfold b in Hm at 1. rewrite (so_size t Hok) in Hm.
  specialize (Hm ltac:(lia) W3 B2 Hend whole_zero). unfold store_block, on_backing. cbn [sp_backing set_view].
  change (sp_backing t) with b.
  destruct (materialize block write_offset base (zero && whole) b) as [[u|f] b'].
  - set (t' := set_view _ next true _).
    assert (sparse_ok t') as Hok' by (by eapply stored_state_ok).
    split; [done|]. split; [done|]. split; [apply revised_advance; [apply Hok|done]|]. split; [|split; [done|split; [|split]]].
    + intros i Hi. destruct (Z.lt_ge_cases i 0); [left; by rewrite !index_byte_neg|].
      rewrite !index_disk by done. exact (disk_after b' block _ (or_intror eq_refl) Hm i Hi).
    + intros i Hi. rewrite index_disk by (done || lia). by apply disk_in.
    + intros i Hi. destruct next_ok as [_ N], write_sectors as (S1 & S2 & S3 & _ & _ & _ & S7). split.
      * cbn [t' sp_segments set_view]. rewrite N, (proj2 (Z.ltb_ge _ hi)), andb_false_r; [done|].
        unfold kExtentBlock, kSparseSector in *. Z.to_euclidean_division_equations. lia.
      * unfold sparse_payload. cbn [t' sp_vsize set_view set_backing sp_backing]. case_if; [|done].
        apply (stored_same b' block _ (or_intror eq_refl) Hm). lia.
    + intros Hz. by apply next_tail.
  - destruct Hm as [Hf Hm]. set (t2 := set_backing _ b').
    assert (exists m live, (m = [] \/ m = block) /\ stored live b b' write_offset m) as (m & live & Hmm & Hst)
      by (destruct Hm as [Hm|Hm]; eauto 6).
    assert (sparse_ok t2) as Hok2.
    { pose proof Hok as [O1 O2 O3 O4 O5 O6]. destruct Hst as [St1 St2 _ _ _ _].
      split; try done. cbn. by rewrite St2. }
    pose proof (refresh_ok t2 Hok2) as H. destruct (refresh_extents fiemap t2) as [r t3].
    destruct H as (Hok3 & (Hs & E1 & E2 & E3 & E4) & Hv3 & Hr).
    split; [done|]. split; [done|]. split.
    { destruct r; [by apply revised_advance; [apply Hok|]|]. destruct Hr as (_ & Es & Eg). split; rewrite Eg; [cbn; lia|].
      intros _. by left. }
    split; [|done]. intros i Hi. destruct r as [u|e].
    + destruct (Z.lt_ge_cases i 0); [left; by rewrite !index_byte_neg|]. rewrite !index_disk by done.
      destruct (only_script_disk _ _ Hs) as (_ & _ & Ed & _). rewrite Ed. exact (disk_after b' m live Hmm Hst i Hi).
    + left. destruct Hr as (_ & Es & _). destruct Hs as [sc Hs].
      assert (index_byte t3 i = index_byte t2 i) as ->.
      { unfold index_byte, sparse_payload. by rewrite Es, E1, Hs. }
      by apply (stale_index b' m live Hmm Hst t2).
Qed.
End Block.

(** *** The block written through the view *)

Section Through.
Context {W : Type} (V : BlobSource (SparseRwLayer * W)) (D : SparseRwLayer -> Z -> Z) (t0 : SparseRwLayer).
Context (Hcv : current_view (H := sparse_writable fiemap) sparse_ok same_script sparse_payload t0 V D).

(** Where the layer has gone without an effect on the view of later blocks. *)
Definition untouched_from (base : Z) (t : SparseRwLayer) : Prop :=
  forall i, base <= i -> resolve (sp_segments t) (i / kSparseSector) = resolve (sp_segments t0) (i / kSparseSector) /\
    sparse_payload t i = sparse_payload t0 i.

(** What a mutation of [a .. b) may do to the rest of the layer: bytes of the view,
    from [c] on. *)
Definition only_view (c a b : Z) (t t' : SparseRwLayer) : Prop :=
  forall i, ~ a <= i < b -> index_byte t' i = index_byte t i \/ (c <= i < src_size V /\ index_byte t' i = Some (D t0 i)).

Lemma view_bytes t i :
  sparse_ok t0 -> untouched_from i t -> D t i = D t0 i.
Proof.
  intros H0 Hu. apply (cv_local _ _ _ _ _ _ Hcv). cbn [wl_segments sparse_writable]. intros g p Hr.
  destruct (in_place_cell _ _ _ _ (so_index t0 H0) Hr) as [_ ->].
  replace (i / kAlignment * kAlignment + i mod kAlignment) with i.
  - apply Hu. lia.
  - unfold kAlignment. Z.to_euclidean_division_equations. lia.
Qed.

(** The bytes prepared for a block, copied up or as they are. *)
Lemma prepare_block_ok t w base within data (copyup : bool) :
  sparse_ok t0 -> sparse_ok t -> 0 <= base -> untouched_from base t ->
  let '(r, x') := prepare_block V copyup base within data (t, w) in
  same_script t x'.1 /\
  match r with
  | Ok block => exists bs, block = (if copyup then put bs within data else data) /\
      (copyup = true -> zlen bs = kExtentBlock /\ base + kExtentBlock <= src_size V /\
         forall j, 0 <= j < kExtentBlock -> bget bs j = D t0 (base + j))
  | Err f => any_errno f
  end.
Proof.
  intros H0 Ht Hb Hu. unfold prepare_block. destruct copyup; [|split; [apply same_script_refl|by exists []]].
  destruct (cv_read _ _ _ _ _ _ Hcv t Ht) as [Hr].
  specialize (Hr kExtentBlock base ltac:(done) Hb (t, w) (same_script_refl t)). unfold mbind, io_bind.
  destruct (src_pread V kExtentBlock base (t, w)) as [[bs|f] x'] eqn:E; [|done]. destruct Hr as [Hs (Hd & _)].
  destruct (Z.eqb_spec (zlen bs) kExtentBlock) as [El|]; [|by split; [|auto with errno]]. split; [done|].
  exists bs. split; [done|]. intros _. split; [done|]. split.
  - destruct (cv_bound _ _ _ _ _ _ Hcv t kExtentBlock base (t, w) bs x' Ht (same_script_refl t) ltac:(done) Hb E) as [-> |]; [done|lia].
  - intros j Hj. rewrite Hd, bget_slice by lia. apply view_bytes; [done|]. intros i Hi. apply Hu. lia.
Qed.

(** A block of the mutation: done, or given up with the view repaired or invalid. *)
Lemma write_block_ok t w position n (zero : bool) data :
  let base := position / kExtentBlock * kExtentBlock in
  sparse_ok t0 -> sparse_ok t -> sp_extent_view_valid t = true ->
  0 <= position -> position mod kSparseSector = 0 -> 0 < n -> n mod kSparseSector = 0 ->
  position + n <= base + kExtentBlock -> base + kExtentBlock <= sp_vsize t -> zlen data = n -> (zero = true -> data = zeros n) ->
  (zero = true -> no_zero_tail (sp_segments t) (position / kSparseSector)) -> untouched_from base t ->
  let '(r, (t', _)) := write_block fiemap V zero data position n (t, w) in
  sparse_ok t' /\ same_shape t t' /\ view_revised t t' /\ only_view base position (position + n) t t' /\
  match r with
  | Ok _ => sp_extent_view_valid t' = true /\
            (forall i, position <= i < position + n -> index_byte t' i = Some (bget data (i - position))) /\
            untouched_from (base + kExtentBlock) t' /\
            (zero = true -> no_zero_tail (sp_segments t') ((base + kExtentBlock) / kSparseSector))
  | Err f => any_errno f
  end.
Proof.
  intros base H0 Ht Hvalid Hp Ap Hn An Hbl Hend Hd Hz Htail Hu. unfold write_block. cbn [fst].
  fold base. set (whole := (position - base =? 0) && (n =? kExtentBlock)).
  set (owned := owned_scan (sp_segments t) _ _). set (copyup := negb whole && negb owned).
  set (wo := if copyup then base else position). set (wc := if copyup then kExtentBlock else n).
  assert (0 <= base) as Hb0 by (unfold base, kExtentBlock; Z.to_euclidean_division_equations; lia).
  pose proof (prepare_block_ok t w base (position - base) data copyup H0 Ht Hb0 Hu) as Hrd.
  destruct (prepare_block V copyup base (position - base) data (t, w)) as [[block|f] [t1 w1]];
    cbn [fst] in Hrd; destruct Hrd as [Hs1 Hrd].
  2: { split; [by eapply same_script_ok|]. split; [by apply same_script_shape|]. split; [by apply same_script_revised|].
       split; [|done]. intros i _. left. by apply same_script_bytes. }
  destruct Hrd as (bs & -> & Hbs). pose proof (same_script_ok _ _ Ht Hs1) as Ht1.
  pose proof (same_script_revised _ _ Hs1) as Hr1.
  assert (forall i, index_byte t1 i = index_byte t i) as Hi1 by (intros i; by apply same_script_bytes).
  destruct Hs1 as [s ->].
  pose proof (store_block_ok _ Ht1 Hvalid position n zero data Hp Ap Hn An Hbl Hend Hd Hz Htail (src_size V) (D t0) bs Hbs) as H.
  cbn [sp_segments set_backing] in H. fold base whole owned copyup wo wc in H. unfold on_fst. cbn [fst snd].
  destruct (store_block _ _ _ _ _ _ _) as [r t'].
  destruct H as (G1 & G2 & G3 & G4 & G5). split; [done|]. split; [done|]. split; [exact (view_revised_trans _ _ _ Hr1 G3)|].
  split; [intros i Hi; rewrite <- Hi1; by apply G4|]. destruct r as [u|f]; [|done].
  destruct G5 as (G5 & G6 & G7 & G8). split; [done|]. split; [done|]. split; [|done].
  intros i Hi. destruct (G7 i Hi) as [-> ->]. apply Hu. unfold kExtentBlock in *. lia.
Qed.

Lemma same_shape_trans t t1 t2 : same_shape t t1 -> same_shape t1 t2 -> same_shape t t2.
Proof. intros (A1 & A2 & A3 & A4) (B1 & B2 & B3 & B4). repeat split; congruence. Qed.

(** *** All blocks of a range *)

Section Range.
Context (zero : bool) (buffer : bytes) (count offset : Z).
Context (Hzc : zero = false -> zlen buffer = count) (Ho : 0 <= offset) (Ao : offset mod kSparseSector = 0).
Context (Ac : count mod kSparseSector = 0) (Hend : offset + count <= sp_vsize t0) (H0 : sparse_ok t0).

Definition new_byte (i : Z) : Z := if zero then 0 else bget buffer (i - offset).

(** Ready to go on at [position]. *)
Record loop_ready (position : Z) (t : SparseRwLayer) : Prop := {
  rd_ok : sparse_ok t;
  rd_valid : sp_extent_view_valid t = true;
  rd_vsize : sp_vsize t = sp_vsize t0;
  rd_view : untouched_from (position / kExtentBlock * kExtentBlock) t;
  rd_tail : zero = true -> no_zero_tail (sp_segments t) (position / kSparseSector);
}.

Lemma block_end position : 0 <= position < sp_vsize t0 -> position / kExtentBlock * kExtentBlock + kExtentBlock <= sp_vsize t0.
Proof.
  intros Hp. destruct (bk_size _ (so_backing _ H0)) as (_ & A & _). rewrite (so_size _ H0) in A.
  unfold kExtentBlock in *. Z.to_euclidean_division_equations. lia.
Qed.

Lemma sectors_left done : 0 <= done < count -> done mod kSparseSector = 0 -> 0 < (count - done) / kSparseSector.
Proof.
  unfold kSparseSector in *. intros Hd Ad. apply Z.mod_divide in Ad as [k ->], Ac as [c Ec]; [|lia..].
  apply Z.div_str_pos. lia.
Qed.
Lemma sectors_step done n fuel :
  0 <= done -> 0 < n -> done + n <= count -> n mod kSparseSector = 0 -> done mod kSparseSector = 0 ->
  (Z.to_nat ((count - done) / kSparseSector) <= S fuel)%nat -> (Z.to_nat ((count - (done + n)) / kSparseSector) <= fuel)%nat.
Proof.
  unfold kSparseSector in *. intros Hd Hn Hl An Ad. apply Z.mod_divide in Ad as [k ->], Ac as [c Ec], An as [m ->]; [|lia..].
  rewrite Ec. replace (c * 512 - k * 512) with ((c - k) * 512) by lia. replace (c * 512 - (k * 512 + m * 512)) with ((c - k - m) * 512) by lia.
  rewrite !Z.div_mul by lia. lia.
Qed.

(** The piece of the range in the current block. *)
Lemma turn_size position done :
  position = offset + done -> 0 <= done < count -> done mod kSparseSector = 0 ->
  let n := Z.min (count - done) (kExtentBlock - (position - position / kExtentBlock * kExtentBlock)) in
  position mod kSparseSector = 0 /\ 0 < n /\ n mod kSparseSector = 0.
Proof.
  intros -> Hd Ad n. pose proof (sector_sum _ _ Ao Ad) as Ap. split; [done|].
  destruct (base_below (offset + done) ltac:(lia)) as [B1 B2]. split; [unfold n; lia|].
  assert ((count - done) mod kSparseSector = 0) as A1 by (unfold kSparseSector in *; by rewrite Zminus_mod, Ac, Ad).
  assert ((kExtentBlock - (offset + done - (offset + done) / kExtentBlock * kExtentBlock)) mod kSparseSector = 0) as A2.
  { replace (kExtentBlock - _) with ((1 + (offset + done) / kExtentBlock) * 8 * kSparseSector - (offset + done)) by (unfold kExtentBlock, kSparseSector; lia).
    unfold kSparseSector in *. rewrite Zminus_mod, Z.mod_mul, Ap by lia. done. }
  unfold n. destruct (Z.min_spec (count - done) (kExtentBlock - (offset + done - (offset + done) / kExtentBlock * kExtentBlock))) as [[_ ->]|[_ ->]]; done.
Qed.

(** One turn of the loop. *)
Lemma write_turn t w done :
  let position := offset + done in
  let n := Z.min (count - done) (kExtentBlock - (position - position / kExtentBlock * kExtentBlock)) in
  loop_ready position t -> 0 <= done < count -> done mod kSparseSector = 0 ->
  0 < n /\ n mod kSparseSector = 0 /\ (done + n < count -> (position + n) mod kExtentBlock = 0) /\
  let '(r, (t', _)) := write_block fiemap V zero (if zero then zeros n else sub done n buffer) position n (t, w) in
  sparse_ok t' /\ same_shape t t' /\ view_revised t t' /\
  only_view (position / kExtentBlock * kExtentBlock) position (position + n) t t' /\
  match r with
  | Ok _ => sp_extent_view_valid t' = true /\ (forall i, position <= i < position + n -> index_byte t' i = Some (new_byte i)) /\
            (done + n < count -> loop_ready (position + n) t')
  | Err f => any_errno f
  end.
Proof.
  intros position n [R1 R2 R3 R4 R5] Hd Ad.
  destruct (turn_size position done eq_refl Hd Ad) as (Ap & Hn & An). fold n in Hn, An.
  assert (position + n <= position / kExtentBlock * kExtentBlock + kExtentBlock /\ position + n <= offset + count) as [Hb Hc] by (unfold n; lia).
  assert (done + n < count -> position + n = position / kExtentBlock * kExtentBlock + kExtentBlock) as Hfull by (unfold n; lia).
  split; [done|]. split; [done|]. split.
  { intros Hl. rewrite Hfull by done. unfold kExtentBlock. rewrite Z.add_mod, Z.mod_mul by done. done. }
  pose proof (block_end position ltac:(unfold position in *; lia)) as Hbe. rewrite <- R3 in Hbe.
  pose proof (write_block_ok t w position n zero (if zero then zeros n else sub done n buffer) H0 R1 R2
    ltac:(unfold position; lia) Ap Hn An Hb Hbe) as H. cbn zeta in H.
  specialize (H ltac:(destruct zero; [rewrite zlen_zeros; lia|rewrite zlen_sub, Hzc by done; unfold position in *; lia])
    ltac:(by intros ->) R5 R4).
  destruct (write_block _ _ _ _ _ _ _) as [r [t' w']]. destruct H as (G1 & G2 & G3 & G4 & G5).
  split; [done|]. split; [done|]. split; [done|]. split; [done|]. destruct r as [u|f]; [|done].
  destruct G5 as (G5 & G6 & G7 & G8). split; [done|]. split.
  - intros i Hi. rewrite G6 by done. f_equal. unfold new_byte. destruct zero; [apply bget_zeros|].
    rewrite bget_sub by lia. f_equal. unfold position. lia.
  - intros Hl. specialize (Hfull Hl). assert ((position + n) / kExtentBlock * kExtentBlock = position + n) as Eb.
    { apply aligned_base. rewrite Hfull. unfold kExtentBlock. rewrite Z.add_mod, Z.mod_mul by done. done. }
    split; try done; [destruct G2 as [-> _]; done|by rewrite Eb, Hfull|by rewrite Hfull].
Qed.

Lemma write_loop_end fuel x : write_loop fiemap V zero fuel buffer count offset count x = (Ok count, x).
Proof. destruct fuel; cbn [write_loop]; by rewrite Z.ltb_irrefl. Qed.

Lemma write_loop_ok fuel t w done :
  let position := offset + done in
  loop_ready position t -> 0 <= done < count -> done mod kSparseSector = 0 -> (Z.to_nat ((count - done) / kSparseSector) <= fuel)%nat ->
  let '(r, (t', _)) := write_loop fiemap V zero fuel buffer count offset done (t, w) in
  sparse_ok t' /\ same_shape t t' /\ view_revised t t' /\
  only_view (position / kExtentBlock * kExtentBlock) position (offset + count) t t' /\
  match r with
  | Ok m => m = count /\ sp_extent_view_valid t' = true /\
            forall i, position <= i < offset + count -> index_byte t' i = Some (new_byte i)
  | Err f => any_errno f
  end.
Proof.
  revert t w done. induction fuel as [|fuel IH]; intros t w done position Hr Hd Ad Hf.
  { exfalso. pose proof (sectors_left done Hd Ad). lia. }
  cbn [write_loop]. rewrite (proj2 (Z.ltb_lt done count)) by lia.
  pose proof (write_turn t w done Hr Hd Ad) as H. cbn zeta in H |- *. fold position in H |- *.
  set (n := Z.min (count - done) _) in *. destruct H as (Hn & An & Hfull & H). unfold mbind, io_bind.
  assert (done + n <= count) as Hle by (unfold n; lia).
  destruct (write_block _ _ _ _ _ _ _) as [[u|f] [t1 w1]]; destruct H as (G1 & G2 & G3 & G4 & G5).
  2: { split; [done|]. split; [done|]. split; [done|]. split; [|done]. intros i Hi. apply G4. unfold position in *. lia. }
  destruct G5 as (G5 & G6 & G7). destruct (Z.eq_dec (done + n) count) as [E|E].
  { rewrite E, write_loop_end. replace (position + n) with (offset + count) in G4, G6 by (unfold position; lia).
    split; [done|]. split; [done|]. split; [done|]. by split. }
  specialize (Hfull ltac:(lia)). specialize (IH t1 w1 (done + n)). cbn zeta in IH.
  replace (offset + (done + n)) with (position + n) in IH by (unfold position; lia).
  destruct (write_loop _ _ _ _ _ _ _ _ _) as [r [t' w']].
  destruct IH as (I1 & I2 & I3 & I4 & I5); [apply G7; lia|lia|by apply sector_sum|by apply (sectors_step done n); lia|].
  rewrite (aligned_base (position + n)) in I4 by done.
  split; [done|]. split; [by eapply same_shape_trans|]. split; [by eapply view_revised_trans|]. split.
  - intros i Hi. pose proof (base_below position ltac:(unfold position; lia)).
    destruct (I4 i) as [->|[? ?]]; [unfold position in *; lia| |right; split; [lia|done]].
    apply G4. unfold position in *. lia.
  - destruct r as [m|f]; [|done]. destruct I5 as (-> & I5 & I6). split; [done|]. split; [done|]. intros i Hi.
    destruct (Z.lt_ge_cases i (position + n)) as [Hlt|Hge]; [|apply I6; lia].
    rewrite <- (G6 i ltac:(lia)). destruct (I4 i ltac:(lia)) as [->|[? _]]; [done|lia].
Qed.
End Range.

(** *** Overwriting owned data in place *)

Lemma backing_pwrite_prefix b bs off :
  disk_ok b -> 0 <= off -> off + zlen bs <= f_size (b_file b) ->
  let '(r, b') := backing_pwrite bs off b in
  exists k, stored true b b' off (ztake k bs) /\
  match r with Ok _ => ztake k bs = bs | Err f => any_errno f end.
Proof.
  intros Hb Ho Hl. unfold backing_pwrite, backing_step, mbind, io_bind, io_run.
  destruct (next_outcome (b_script b)) as [o s].
  assert (only_script b (set_bscript b s)) as Hs by (by exists s).
  assert (disk_ok (set_bscript b s)) as Hb' by (by apply (only_script_disk _ _ Hs)).
  destruct o as [|n e]; cbn beta iota.
  - exists (zlen bs). rewrite ztake_all by lia. split; [|done]. eapply stored_script; [exact Hs|]. by apply stored_write.
  - exists (whole_blocks off n (zlen bs)). split; [|auto with errno]. eapply stored_script; [exact Hs|].
    apply stored_write; [done|done|]. cbn. rewrite zlen_ztake. lia.
Qed.

Lemma overwrite_ok t b' off m hi :
  sparse_ok t -> sp_extent_view_valid t = true -> 0 <= off -> off mod kSparseSector = 0 -> off + zlen m <= hi * kSparseSector ->
  range_is_data (sp_segments t) (off / kSparseSector) hi = true -> stored true (sp_backing t) b' off m ->
  sparse_ok (set_backing t b') /\
  forall i, index_byte (set_backing t b') i = if decide (off <= i < off + zlen m) then Some (bget m (i - off)) else index_byte t i.
Proof.
  intros Hok Hv Ho Ao Hm Hd Hst. pose proof Hok as [O1 O2 O3 O4 O5 O6].
  assert (forall i, off <= i < off + zlen m -> exists g p, resolve (sp_segments t) (i / kSparseSector) = Data g p) as Hdata.
  { intros i Hi. apply (range_is_data_ok 0 _ (off / kSparseSector) hi); [apply O3|done|].
    unfold kSparseSector in *. Z.to_euclidean_division_equations. lia. }
  assert (forall k, b_alloc b' k = b_alloc (sp_backing t) k) as Ea.
  { intros k. destruct (touches off (zlen m) k) eqn:Ht; [|by apply Hst]. rewrite (proj2 (st_touched _ _ _ _ _ Hst k Ht)) by done.
    apply touches_spec in Ht. destruct (Hdata (Z.max off (k * kExtentBlock))) as (g & p & Hr); [unfold kExtentBlock in *; lia|].
    pose proof (O5 Hv (Z.max off (k * kExtentBlock) / kSparseSector)) as Ha. rewrite Hr in Ha. cbn in Ha. rewrite <- sector_block in Ha.
    replace (Z.max off (k * kExtentBlock) / kExtentBlock) with k in Ha.
    - symmetry. apply Ha. apply Z.div_pos; unfold kSparseSector; lia.
    - unfold kExtentBlock in *. Z.to_euclidean_division_equations. lia. }
  assert (forall i, index_byte (set_backing t b') i =
    if decide (off <= i < off + zlen m) then Some (bget m (i - off)) else index_byte t i) as Hib.
  { intros i. unfold index_byte, sparse_payload. cbn [sp_segments set_backing sp_vsize sp_backing].
    destruct (decide (off <= i < off + zlen m)) as [Hi|Hi].
    - destruct (Hdata i Hi) as (g & p & Hr). rewrite Hr, (st_in _ _ _ _ _ Hst) by done.
      rewrite (proj2 (Z.ltb_lt _ _)); [done|]. destruct (Z.lt_ge_cases i (sp_vsize t)); [done|].
      rewrite O4 in Hr; [done|]. apply Z.div_le_mono; unfold kSparseSector; lia.
    - by rewrite (st_out _ _ _ _ _ Hst). }
  split; [|done]. split; cbn; try done; [apply Hst|by rewrite (st_size _ _ _ _ _ Hst)|].
  intros _ x Hx. specialize (O5 Hv x Hx). destruct (resolve (sp_segments t) x) as [| |g p] eqn:Hr; cbn in O5 |- *; rewrite Ea; [done| |done].
  destruct O5 as [O5 Hz]. split; [done|]. intros i Hi. rewrite (st_out _ _ _ _ _ Hst); [by apply Hz|].
  intros Hin. destruct (Hdata i Hin) as (g & p & Hr'). replace (i / kSparseSector) with x in Hr'; [by rewrite Hr in Hr'|].
  unfold kSparseSector in *. Z.to_euclidean_division_equations. lia.
Qed.

(** *** The admitted operation *)

Lemma ready_start t zero offset :
  sparse_ok t0 -> sp_extent_view_valid t0 = true -> same_script t0 t ->
  (zero = true -> no_zero_tail (sp_segments t0) (offset / kSparseSector)) -> loop_ready zero offset t.
Proof. intros H0 Hv Hs Ht. pose proof (same_script_ok _ _ H0 Hs). by destruct Hs as [s ->]. Qed.

Lemma layer_call t :
  let '(r, t') := on_backing backing_call t in
  same_script t t' /\ match r with Ok _ => True | Err f => any_errno f end.
Proof.
  unfold on_backing, backing_call, backing_step, mbind, io_bind. destruct (next_outcome _) as [[|n e] s]; cbn.
  - split; [by exists s|done].
  - split; [by exists s|auto with errno].
Qed.

Lemma write_admitted_ok w zero buffer count offset :
  (zero = false -> zlen buffer = count) -> 0 <= offset -> 0 <= count -> offset + count <= sp_vsize t0 ->
  sparse_ok t0 -> sp_extent_view_valid t0 = true ->
  (zero = true -> no_zero_tail (sp_segments t0) (offset / kSparseSector)) ->
  let '(r, (t', _)) := write_admitted fiemap V zero buffer count offset (t0, w) in
  sparse_ok t' /\ same_shape t0 t' /\ view_revised t0 t' /\ only_view 0 offset (offset + count) t0 t' /\
  match r with
  | Ok m => m = count /\ forall i, offset <= i < offset + count -> index_byte t' i = Some (new_byte zero buffer offset i)
  | Err f => any_errno f
  end.
Proof.
  intros Hb Ho Hc Hend H0 Hv Ht. unfold write_admitted.
  assert (forall t' f, same_script t0 t' -> any_errno f ->
    sparse_ok t' /\ same_shape t0 t' /\ view_revised t0 t' /\ only_view 0 offset (offset + count) t0 t' /\ any_errno f) as Href.
  { intros t' f Hs Hf. split; [by eapply same_script_ok|]. split; [by apply same_script_shape|].
    split; [by apply same_script_revised|]. split; [|done]. intros i _. left. by apply same_script_bytes. }
  destruct (_ || _) eqn:Hal; [apply Href; [apply same_script_refl|auto with errno]|]. bool_hyps.
  unfold mbind, io_bind, on_fst at 1. cbn [fst snd]. pose proof (layer_call t0) as Hcall.
  destruct (on_backing backing_call t0) as [[u|f] t1]; destruct Hcall as [Hs1 Hf]; [|by apply Href].
  set (limited := on_fst _ (t1, w)).
  assert (limited = (Ok tt, (t1, w)) \/ limited = (Err (Errno EFBIG), (t1, w))) as [-> | ->].
  { unfold limited, on_fst. cbn. destruct (sp_rlimit t1); [case_if|]; auto. }
  2: { apply Href; auto with errno. }
  pose proof (ready_start t1 zero offset H0 Hv Hs1 Ht) as Hr. pose proof Hr as [R1 R2 R3 R4 R5].
  unfold on_fst at 1. cbn [fst snd]. rewrite R2. unfold on_fst at 1. cbn [fst snd].
  destruct (negb zero && _) eqn:Hfast.
  - apply andb_true_iff in Hfast as [Hz Hd]. apply negb_true_iff in Hz. subst zero. rewrite <- R3 in Hend.
    unfold on_fst, on_backing. cbn [fst snd].
    pose proof (backing_pwrite_prefix (sp_backing t1) buffer offset (so_backing _ R1) Ho) as Hw.
    rewrite (so_size _ R1), Hb in Hw by done. specialize (Hw Hend).
    destruct (backing_pwrite buffer offset (sp_backing t1)) as [r b']. destruct Hw as (k & Hst & Hr').
    assert (zlen (ztake k buffer) <= count) as Hk by (rewrite zlen_ztake, Hb by done; lia).
    destruct (overwrite_ok t1 b' offset (ztake k buffer) ((offset + count) / kSparseSector)) as [W1 W2]; try done.
    { unfold kSparseSector in *. Z.to_euclidean_division_equations. lia. }
    assert (same_shape t0 (set_backing t1 b') /\ view_revised t0 (set_backing t1 b') /\
      only_view 0 offset (offset + count) t0 (set_backing t1 b')) as (K1 & K2 & K3).
    { destruct Hs1 as [s ->]. split; [done|]. split; [split; [cbn; lia|by left]|]. intros i Hi. left.
      rewrite W2, decide_False by lia. done. }
    destruct r as [u'|f]; cbn; [|done]. split; [done|]. split; [done|]. split; [done|]. split; [done|]. split; [done|].
    intros i Hi. rewrite W2, Hr', Hb, decide_True by done. done.
  - pose proof (write_loop_ok zero buffer count offset Hb Ho ltac:(done) ltac:(done) Hend H0
      (Z.to_nat (count / kSparseSector)) t1 w 0) as HL. cbn zeta in HL. rewrite Z.add_0_r, Z.sub_0_r in HL.
    specialize (HL Hr ltac:(lia) eq_refl ltac:(lia)).
    destruct (write_loop _ _ _ _ _ _ _ _ _) as [r [t' w']]. destruct HL as (G1 & G2 & G3 & G4 & G5).
    split; [done|]. split; [eapply same_shape_trans; [by apply same_script_shape|done]|].
    split; [eapply view_revised_trans; [by apply same_script_revised|done]|]. split.
    + intros i Hi. rewrite <- (same_script_bytes _ _ i Hs1). pose proof (base_below offset Ho).
      destruct (G4 i Hi) as [?|[? ?]]; [by left|right; split; [lia|done]].
    + destruct r; [|done]. destruct G5 as (-> & _ & G5). done.
Qed.
End Through.
End Mutation.
