(* ===== verification/SparseDevice.v ===== *)
(** * The writable device over a sparse layer

    The sparse layer meets the contract of a writable top as long as its extent
    view is valid, so the merged device over it reads and writes as it should.
    Discarding also needs the layer's index not to end in a zeroed mapping past
    the start of the range; what happens otherwise is shown on a device whose
    second discard brings the lower layer's bytes back.  Reopening the file gives
    the layer back. *)
From S2P Require Import Prelude Bytes LsmtFormat Source File Segments Merge Trim Lsmt MergedWritable SparseIndex SparseScan SparseLayer SparseWrite.

Open Scope Z_scope.

Definition sparse_room (t : SparseRwLayer) (n : Z) : Prop := sp_extent_view_valid t = true.
Definition sparse_discardable (t : SparseRwLayer) (off len : Z) : Prop :=
  sp_extent_view_valid t = true /\ no_zero_tail (sp_segments t) (off / kSparseSector).
Definition sparse_growable (t : SparseRwLayer) : Prop := True.

Lemma sparse_gate_ok t l n : sparse_ok t -> sparse_ok (set_sparse_gate t l n).
Proof. by intros []. Qed.

Section Contract.
Context (fiemap : (Z -> allocation) -> Z -> Z -> list fiemap_extent) (Hfm : fiemap_documented fiemap).
Context {W : Type}.
#[local] Instance sparse_top : WritableLayer SparseRwLayer W := sparse_writable fiemap.

Lemma sparse_top_byte t i : sparse_ok t -> top_byte (W := W) sparse_payload t i = index_byte t i.
Proof.
  intros Ht. unfold top_byte, index_byte. cbn [wl_segments sparse_top sparse_writable]. change kSparseSector with kAlignment.
  destruct (resolve (sp_segments t) (i / kAlignment)) as [| |g p] eqn:Hr; [done|done|].
  destruct (in_place_cell _ _ _ _ (so_index t Ht) Hr) as [_ ->]. do 2 f_equal.
  unfold kAlignment. Z.to_euclidean_division_equations. lia.
Qed.

(** ** Reading *)

Lemma sparse_read_ok t :
  sparse_ok t -> SourceInv (same_script t) any_errno (Src (sp_vsize t) sparse_view_pread) (sparse_payload t).
Proof.
  intros Ht. split. intros count off Hc Ho t1 [s ->]. cbn [src_pread]. unfold sparse_view_pread. cbn [sp_vsize set_backing].
  destruct (Z.leb_spec (sp_vsize t) off).
  { split; [by exists s|]. split; [done|]. rewrite zlen_nil. split; [lia|]. intros _ i Hi. unfold sparse_payload.
    by rewrite (proj2 (Z.ltb_ge _ _)) by lia. }
  set (n := if _ <? count then _ else _). assert (n = Z.min count (sp_vsize t - off)) as En by (unfold n; case_if; lia).
  clearbody n. unfold on_backing, backing_pread, backing_call, backing_step, mbind, io_bind, io_run.
  cbn [sp_backing set_backing b_script set_bscript].
  destruct (next_outcome s) as [[|k e] s2]; cbn -[file_read].
  2: { split; [by exists s2|auto with errno]. }
  split; [by exists s2|]. unfold file_read, avail, delivers. rewrite (so_size t Ht), zlen_slice, (Z.max_r 0 (Z.min _ _)) by lia.
  split; [|split; [lia|]].
  - apply slice_ext. intros i Hi. unfold sparse_payload. by rewrite (proj2 (Z.ltb_lt _ _)) by lia.
  - intros Hm i Hi. unfold sparse_payload. by rewrite (proj2 (Z.ltb_ge _ _)) by lia.
Qed.

(** ** Mutations *)

(** The view of the layer once the operation is admitted. *)
Lemma current_view_gate t V D l n :
  sparse_ok t -> current_view sparse_ok same_script sparse_payload t V D ->
  current_view sparse_ok same_script sparse_payload (set_sparse_gate t l n) V D /\
  forall i, D (set_sparse_gate t l n) i = D t i.
Proof.
  intros Ht [C1 C2 C3 C4]. assert (forall i, D (set_sparse_gate t l n) i = D t i) as HD by (intros i; by apply C3).
  split; [|done]. split; [done|done| |].
  - intros t' i Hp. rewrite HD. apply C3. done.
  - intros i b Hi Hb. rewrite HD. apply C4; [done|]. rewrite <- Hb.
    by rewrite !sparse_top_byte by (done || by apply sparse_gate_ok).
Qed.

Lemma sparse_refused t D a b f :
  sparse_ok t -> any_errno f -> sparse_ok t /\ any_errno f /\ mutated (W := W) sparse_payload D a b None t t.
Proof. intros Ht Hf. split; [done|]. split; [done|]. split; [done|]. split; [done|]. split; [by left|done]. Qed.

Lemma write_extents_ok t w V D zero buffer count off :
  current_view sparse_ok same_script sparse_payload t V D ->
  (zero = false -> zlen buffer = count) -> 0 <= off -> 0 <= count ->
  sparse_ok t -> sp_extent_view_valid t = true ->
  (zero = true -> no_zero_tail (sp_segments t) (off / kSparseSector)) ->
  let '(r, (t', _)) := write_extents fiemap V zero buffer count off (t, w) in
  sparse_ok t' /\
  match r with
  | Ok m => m = count /\ mutated (W := W) sparse_payload (Some (src_size V, D t)) off (off + count)
                                 (Some (new_byte zero buffer off)) t t'
  | Err f => any_errno f /\ mutated (W := W) sparse_payload (Some (src_size V, D t)) off (off + count) None t t'
  end.
Proof.
  intros Hcv Hb Ho Hc Ht Hv Hz. unfold write_extents, sparse_begin_data_op. cbn [fst snd].
  destruct (sp_lifecycle t) eqn:Hl; try (apply sparse_refused; [done|auto with errno]).
  destruct (_ || _) eqn:Hr; [apply sparse_refused; [done|auto with errno]|]. bool_hyps.
  destruct (current_view_gate t V D kOpen (u32 (sp_active_ops t + 1)) Ht Hcv) as [Hcv' HD].
  set (t1 := set_sparse_gate t kOpen _) in *.
  pose proof (write_admitted_ok fiemap Hfm V D t1 Hcv' w zero buffer count off Hb Ho Hc
    ltac:(cbn; lia) ltac:(by apply sparse_gate_ok) Hv Hz) as H'.
  destruct (write_admitted fiemap V zero buffer count off (t1, w)) as [r [t' w']]. cbn [fst snd].
  destruct H' as (G1 & G2 & G3 & G4 & G5).
  assert (forall g, (forall v, g = Some v -> forall i, off <= i < off + count -> index_byte t' i = Some (v i)) ->
    mutated (W := W) sparse_payload (Some (src_size V, D t)) off (off + count) g t (sparse_end_data_op t')) as Hmut.
  { intros g Hg. split; [apply G2|]. split; [|split].
    - intros Hu. apply (revised_unrevised t t'); [exact G3|exact Hu].
    - intros i Hi. rewrite !sparse_top_byte by (done || by apply sparse_gate_ok).
      destruct (G4 i Hi) as [E|[Hs E]]; [left; exact E|right]. exists (src_size V), (D t). split; [done|]. split; [done|].
      rewrite <- HD. exact E.
    - intros v Hgv. split; [|done]. intros i Hi. rewrite sparse_top_byte by (by apply sparse_gate_ok). by apply (Hg v). }
  split; [by apply sparse_gate_ok|]. destruct r as [m|f].
  - destruct G5 as [-> G5]. split; [done|]. apply Hmut. by intros v [= <-].
  - split; [done|]. by apply Hmut.
Qed.

(** ** Flush and growth *)

Lemma flush_locked_ok t :
  let '(r, t') := flush_locked t in same_script t t' /\ match r with Ok _ => True | Err f => any_errno f end.
Proof.
  unfold flush_locked, mbind, io_bind. pose proof (layer_call t) as H.
  destruct (on_backing backing_call t) as [[u|f] t1]; [|done]. destruct H as [H1 _].
  pose proof (layer_call t1) as H. destruct (on_backing backing_call t1) as [r t2]. destruct H as [H2 H3].
  split; [by eapply same_script_trans|done].
Qed.

(** Only the gate and the outcomes to come. *)
Definition same_answers (t t' : SparseRwLayer) : Prop :=
  sp_segments t' = sp_segments t /\ sp_vsize t' = sp_vsize t /\ sp_segments_generation t' = sp_segments_generation t /\
  sp_extent_view_valid t' = sp_extent_view_valid t /\ forall i, index_byte t' i = index_byte t i.

Lemma sparse_flush_ok t :
  sparse_ok t -> let '(r, t') := sparse_flush t in
  sparse_ok t' /\ same_answers t t' /\ match r with Ok _ => True | Err f => any_errno f end.
Proof.
  intros Ht. unfold sparse_flush, sparse_begin_flush_op. destruct (sp_lifecycle t);
    try (split; [done|]; split; [done|auto with errno]).
  set (t1 := set_sparse_gate t kOpen _). pose proof (flush_locked_ok t1) as H.
  destruct (flush_locked t1) as [r t2]. destruct H as [H1 H2].
  split; [apply sparse_gate_ok; eapply same_script_ok; [by apply sparse_gate_ok|done]|]. split; [|done]. by destruct H1 as [s ->].
Qed.

Lemma truncate_ok b size :
  disk_ok b -> size_ok size -> f_size (b_file b) <= size ->
  disk_ok (set_file b (file_truncate (b_file b) size) (b_alloc b)).
Proof.
  intros [[] B2 B3 B4] Hs Hle. split; [done|done| |].
  - intros i Hi. cbn. case_if; [by apply B3|done].
  - intros k Hk. cbn in *. apply B4. lia.
Qed.

(** A truncation to a larger size keeps what the layer answers. *)
Lemma sparse_grown_ok t vs s :
  sparse_ok t -> size_ok vs -> sp_vsize t <= vs ->
  let t' := set_sparse_vsize (set_backing t (set_file (set_bscript (sp_backing t) s)
              (file_truncate (b_file (sp_backing t)) vs) (b_alloc (sp_backing t)))) vs in
  sparse_ok t' /\ forall i, index_byte t' i = index_byte t i.
Proof.
  intros Ht Hvs Hle. pose proof Ht as [O1 O2 O3 O4 O5 O6]. cbv zeta.
  assert (forall i, resolve (sp_segments t) (i / kSparseSector) <> Hole -> i < sp_vsize t) as Hin.
  { intros i Hr. destruct (Z.lt_ge_cases i (sp_vsize t)); [done|]. exfalso. apply Hr, O4.
    apply Z.div_le_mono; unfold kSparseSector; lia. }
  split; [split; cbn; try done|].
  - apply (truncate_ok (set_bscript (sp_backing t) s)); [by apply (only_script_disk _ _ (ex_intro _ s eq_refl))|done|].
    cbn. lia.
  - intros x Hx. apply O4. etrans; [|exact Hx]. apply Z.div_le_mono; unfold kSparseSector; lia.
  - intros Hv x Hx. specialize (O5 Hv x Hx). destruct (resolve (sp_segments t) x) as [| |g p] eqn:Hr; cbn in O5 |- *; [done| |done].
    destruct O5 as [O5 Hz]. split; [done|]. intros i Hi. case_if; [by apply Hz|done].
  - intros i. unfold index_byte, sparse_payload. cbn [sp_segments set_sparse_vsize set_backing sp_vsize sp_backing set_file b_file file_truncate f_byte].
    destruct (resolve (sp_segments t) (i / kSparseSector)) as [| |g p] eqn:Hr; [done|done|].
    specialize (Hin i). rewrite Hr in Hin. specialize (Hin ltac:(done)).
    by rewrite O2, !(proj2 (Z.ltb_lt i _)) by lia.
Qed.

Lemma sparse_grow_ok t vs :
  sparse_ok t -> let '(r, t') := sparse_grow vs t in
  sparse_ok t' /\ sp_segments t' = sp_segments t /\ (forall i, index_byte t' i = index_byte t i) /\
  match r with Ok _ => sp_vsize t' = vs | Err f => any_errno f end.
Proof.
  intros Ht. unfold sparse_grow, begin_exclusive_op.
  destruct (sp_lifecycle t); try (split; [done|]; split; [done|]; split; [done|auto with errno]).
  case_if; [split; [done|]; split; [done|]; split; [done|auto with errno]|].
  set (t1 := set_sparse_gate t kGrowing _). assert (sparse_ok t1) as Ht1 by (by apply sparse_gate_ok).
  unfold grow_extents. change (sp_vsize t1) with (sp_vsize t).
  destruct (_ || _) eqn:Hal; [split; [by apply sparse_gate_ok|]; split; [done|]; split; [done|auto with errno]|].
  case_if; [split; [by apply sparse_gate_ok|]; split; [done|]; split; [done|auto with errno]|].
  destruct (Z.eqb_spec vs (sp_vsize t)) as [->|Hne]; [split; [by apply sparse_gate_ok|by split]|].
  unfold on_backing, backing_truncate, backing_call, backing_step, mbind, io_bind, io_run.
  destruct (next_outcome _) as [[|k e] s]; cbn beta iota.
  2: { assert (same_script t1 (set_backing t1 (set_bscript (sp_backing t1) s))) as Hs by (by exists s).
       split; [apply sparse_gate_ok; by eapply same_script_ok|]. split; [done|]. split; [done|auto with errno]. }
  bool_hyps. assert (size_ok vs) as Hvs.
  { destruct (bk_size _ (so_backing _ Ht)) as (Hs1 & _). rewrite (so_size _ Ht) in Hs1. unfold size_ok, kExtentBlock.
    split; [lia|]. split; [done|]. unfold kInvalidOffset, kMaxOffset, kSparseSector in *.
    Z.to_euclidean_division_equations. lia. }
  destruct (sparse_grown_ok t1 vs s Ht1 Hvs) as [G1 G2]; [cbn; lia|].
  split; [apply sparse_gate_ok; exact G1|]. split; [done|]. split; [exact G2|done].
Qed.

#[export] Instance sparse_spec :
  WritableSpec (T := SparseRwLayer) (W := W) sparse_ok same_script sparse_payload sparse_room sparse_discardable sparse_growable.
Proof.
  split; cbn [wl_segments wl_virtual_size wl_data_pread wl_requires_view wl_flush wl_grow wl_generation wl_pwrite_with_view
    wl_discard_with_view sparse_top sparse_writable].
  - intros t Ht. apply (ei_index _ (so_index t Ht)).
  - intros t Ht. destruct (bk_size _ (so_backing t Ht)) as (H1 & _ & H2). rewrite (so_size t Ht) in *.
    change kAlignment with kSparseSector. lia.
  - apply same_script_refl.
  - intros t t' Ht Hs. split; [by eapply same_script_ok|]. by destruct Hs as [s ->].
  - apply sparse_read_ok.
  - done.
  - done.
  - intros t w V D buf off _ Hcv Ht Hv Ho _.
    pose proof (write_extents_ok t w V D false buf (zlen buf) off Hcv ltac:(done) Ho ltac:(apply zlen_nonneg) Ht Hv ltac:(done)) as H.
    unfold pwrite_with_view. by destruct (write_extents fiemap V false buf (zlen buf) off (t, w)) as [r [t' w']].
  - intros t w V D off len _ Hcv Ht [Hv Hz] Ho Hl _. unfold discard_with_view, mbind, io_bind.
    case_if; [apply sparse_refused; [done|auto with errno]|].
    pose proof (write_extents_ok t w V D true [] len off Hcv ltac:(done) Ho Hl Ht Hv ltac:(done)) as H'.
    destruct (write_extents fiemap V true [] len off (t, w)) as [[m|f] [t' w']]; [|done].
    destruct H' as (G1 & -> & G2). done.
  - intros t Ht. pose proof (sparse_flush_ok t Ht) as H. destruct (sparse_flush t) as [r t'].
    destruct H as (G1 & (E1 & E2 & E3 & E4 & E5) & G2). split; [done|]. split; [done|]. split; [done|]. split; [|done].
    intros i. by rewrite !sparse_top_byte.
  - intros t vs Ht _. pose proof (sparse_grow_ok t vs Ht) as H. destruct (sparse_grow vs t) as [r t'].
    destruct H as (G1 & G2 & G3 & G4). split; [done|]. split; [done|]. split; [|done].
    intros i. by rewrite !sparse_top_byte.
Qed.
End Contract.

(** ** Reopening *)

Lemma call_from b b1 :
  only_script b b1 -> attempt b_script backing_call b1 (fun _ => only_script b) (only_script b).
Proof.
  intros Hb. eapply attempt_mono; [apply backing_call_attempt|intros ? ? H|intros ? H]; by eapply only_script_trans.
Qed.

(** The same blocks in a file at least as large. *)
Definition same_blocks (b b' : backing) : Prop :=
  f_size (b_file b) <= f_size (b_file b') /\ forall i, disk_byte b' i = disk_byte b i.

Lemma only_script_blocks b b' : only_script b b' -> same_blocks b b'.
Proof. intros H. destruct (only_script_disk _ _ H) as (E & _ & H3 & _). split; [by rewrite E|done]. Qed.

Lemma truncated_blocks b size :
  disk_ok b -> f_size (b_file b) <= size -> same_blocks b (set_file b (file_truncate (b_file b) size) (b_alloc b)).
Proof.
  intros Hb Hs. split; [done|]. intros i. unfold disk_byte. cbn [set_file b_alloc b_file file_truncate f_byte].
  destruct (b_alloc b (i / kExtentBlock)) eqn:E; [done|done|]. case_if; [done|]. exfalso.
  rewrite (bk_beyond b Hb) in E; [done|]. destruct (bk_size b Hb) as (_ & A & _). unfold kExtentBlock in *. bool_hyps.
  Z.to_euclidean_division_equations. lia.
Qed.

Section Reopen.
Context (fiemap : (Z -> allocation) -> Z -> Z -> list fiemap_extent) (Hfm : fiemap_documented fiemap).
Context (b : backing) (Hb : disk_ok b).

(** Sizing the file and scanning it. *)
Lemma size_and_scan_attempt b1 full rlimit :
  only_script b b1 -> size_ok full -> f_size (b_file b) <= full ->
  attempt b_script
    (_ ← (if f_size (b_file b) =? full then mret tt else backing_truncate full);
     segments ← scan_sparse_extents fiemap full;
     io_run (fun b => (Ok (Sparse b full segments true 0 kOpen 0 rlimit), b))) b1
    (fun t' _ => sparse_ok t' /\ sp_extent_view_valid t' = true /\ sp_vsize t' = full /\ same_blocks b (sp_backing t'))
    (same_blocks b).
Proof.
  intros Hs1 Hfull Hle. destruct (only_script_disk _ _ Hs1) as (E1 & E2 & E3 & E4 & _).
  eapply (attempt_bind _ _ _ _ (fun _ b' => disk_ok b' /\ f_size (b_file b') = full /\ same_blocks b b')).
  - destruct (Z.eqb_spec (f_size (b_file b)) full) as [<-|].
    { apply attempt_ret. split; [by apply E4|]. rewrite E1. split; [done|by apply only_script_blocks]. }
    eapply (attempt_bind _ _ _ _ (fun _ => only_script b)).
    { eapply attempt_mono; [by apply call_from|done|by apply only_script_blocks]. }
    intros _ b2 Hs2. destruct (only_script_disk _ _ Hs2) as (F1 & _ & F3 & F4 & _). specialize (F4 Hb).
    eapply attempt_run; [done|done|]. split; [apply truncate_ok; [done|done|by rewrite F1]|]. split; [done|].
    destruct (truncated_blocks b2 full F4 ltac:(by rewrite F1)) as [G1 G2]. split; [by rewrite <- F1|]. intros i. by rewrite G2.
  - intros _ b2 (Hb2 & Es & Hsame).
    eapply (attempt_bind _ _ _ _ (fun l b' => only_script b2 b' /\ classified (b_alloc b2) full full l)).
    { eapply attempt_mono; [by apply scan_attempt; [|done|apply Hb2|]|done|].
      intros b3 Hs3. destruct (only_script_blocks _ _ Hs3) as [G1 G2], Hsame as [K1 K2]. split; [lia|]. intros i. by rewrite G2. }
    intros l b3 [Hs3 Hl]. eapply attempt_run; [done|done|]. rewrite <- Es in Hl.
    destruct (scanned_agrees b2 l Hb2 Hl) as (S1 & S2 & S3). destruct (only_script_disk _ _ Hs3) as (F1 & F2 & F3 & F4 & F5).
    split; [split; cbn; auto; [by rewrite F1|by rewrite <- Es|lia]|]. split; [done|]. split; [done|]. cbn.
    destruct Hsame as [K1 K2]. split; [by rewrite F1|]. intros i. by rewrite F3.
Qed.

Lemma open_attempt vsize (existing_only : bool) rlimit :
  (if existing_only then vsize = 0 else size_ok vsize) ->
  attempt b_script (open_extents fiemap false vsize existing_only rlimit) b
    (fun t' _ => sparse_ok t' /\ sp_extent_view_valid t' = true /\
       sp_vsize t' = Z.max vsize (f_size (b_file b)) /\ same_blocks b (sp_backing t'))
    (same_blocks b).
Proof.
  intros Hvs. destruct (bk_size b Hb) as (Z1 & Z2 & Z3).
  assert (forall b', only_script b b' -> same_blocks b b') as Hso by apply only_script_blocks.
  assert (size_ok (Z.max vsize (f_size (b_file b)))) as Hfull.
  { destruct existing_only; [subst; by rewrite Z.max_r by lia|].
    destruct (Z.max_spec vsize (f_size (b_file b))) as [[_ ->]|[_ ->]]; done. }
  assert (forall b', only_script b b' -> attempt b_script backing_call b' (fun _ => only_script b) (same_blocks b)) as Hcall
    by (intros b' Hb'; eapply attempt_mono; [by apply call_from|done|exact Hso]).
  unfold open_extents. replace (negb existing_only && ((vsize =? 0) || negb (vsize mod 4096 =? 0))) with false.
  2: { destruct existing_only; [done|]. destruct Hvs as (V1 & V2 & _). unfold kExtentBlock in V2. rewrite V2.
       by rewrite (proj2 (Z.eqb_neq vsize 0)) by lia. }
  rewrite (proj2 (Z.ltb_ge _ _)).
  2: { unfold kInvalidOffset, kMaxOffset, kSparseSector in *.
       destruct existing_only; [lia|]. destruct Hvs as (_ & _ & V3). unfold kMaxOffset, kSparseSector in V3. lia. }
  eapply (attempt_bind _ _ _ _ (fun _ => only_script b)); [by apply Hcall|intros _ b1 Hs1].
  eapply (attempt_bind _ _ _ _ (fun _ => only_script b)); [by apply Hcall|intros _ b2 Hs2].
  eapply (attempt_bind _ _ _ _ (fun _ => only_script b)); [by apply Hcall|intros _ b3 Hs3].
  eapply (attempt_bind _ _ _ _ (fun n b' => n = f_size (b_file b) /\ only_script b b')).
  { eapply attempt_run; [done|done|]. split; [|done]. by destruct (only_script_disk b b3 Hs3) as (-> & _). }
  intros ? b4 [-> Hs4]. replace (f_size (b_file b) mod kSparseSector) with 0.
  2: { unfold kExtentBlock, kSparseSector in *. Z.to_euclidean_division_equations. lia. }
  cbn [Z.eqb negb]. rewrite (proj2 (Z.eqb_neq (f_size (b_file b)) 0)), andb_false_r by lia.
  eapply (attempt_bind _ _ _ _ (fun _ => only_script b)); [by apply Hcall|intros _ b5 Hs5].
  eapply (attempt_bind _ _ _ _ (fun _ => only_script b)).
  { eapply attempt_mono; [apply validate_attempt|intros ? ? G; by eapply only_script_trans|].
    - by destruct (only_script_disk _ _ Hs5) as (_ & _ & _ & [] & _).
    - intros ? G. apply Hso. by eapply only_script_trans. }
  intros _ b6 Hs6. replace (Z.max (if existing_only then f_size (b_file b) else vsize) (f_size (b_file b)))
    with (Z.max vsize (f_size (b_file b))) by (destruct existing_only; lia).
  destruct Hfull as (U1 & U2 & U3) eqn:EU. unfold kExtentBlock in U2. rewrite U2, (proj2 (Z.eqb_neq _ 0)) by lia. cbn [Z.eqb negb orb].
  apply size_and_scan_attempt; [done|by split|lia].
Qed.
End Reopen.

(** ** Properties *)

(** C34. The device over a sparse layer.  With a FIEMAP that answers as documented
    and a layer whose extent view is valid, a write that returns reads back as its
    buffer and a discard as zeroes, also where the block had to be copied up from
    the lower layers or the file system cannot zero a range; everything else of
    the device is unchanged, and a failure leaves it so outside the range.  A
    discard needs an index that does not end in zeroed sectors past its start.
    Reads return the device or an error. *)
Theorem sparse_device_correct {W} fiemap cs (s : MergedWritable SparseRwLayer W) :
  fiemap_documented fiemap ->
  mw_ok (WL := sparse_writable fiemap) sparse_ok cs s -> counted s -> sp_extent_view_valid (mw_top s) = true ->
  (forall buf off, 0 <= off ->
     let '(r, s') := mw_pwrite (WL := sparse_writable fiemap) buf off s in
     mutates_device (WL := sparse_writable fiemap) sparse_ok sparse_payload cs s off (off + zlen buf)
       (fun i => bget buf (i - off)) r s' /\ (forall n, r = Ok n -> n = zlen buf)) /\
  (forall off len, 0 <= off -> 0 <= len -> no_zero_tail (sp_segments (mw_top s)) (off / kSparseSector) ->
     let '(r, s') := mw_discard (WL := sparse_writable fiemap) off len s in
     mutates_device (WL := sparse_writable fiemap) sparse_ok sparse_payload cs s off (off + len) (fun _ => 0) r s') /\
  (forall count off, 0 <= off -> 0 <= count ->
     let '(r, s') := mw_pread (WL := sparse_writable fiemap) count off s in
     match r with
     | Ok bs => bs = slice (device (WL := sparse_writable fiemap) sparse_payload cs s) off (avail (mw_vsize s) count off)
     | Err f => any_errno f
     end).
Proof.
  intros Hfm Hs Hc Hv. pose proof (sparse_spec fiemap Hfm (W := W)) as Hspec. split; [|split].
  - intros buf off Ho.
    by apply (mw_pwrite_spec sparse_ok same_script sparse_payload sparse_room sparse_discardable sparse_growable cs s buf off).
  - intros off len Ho Hl Hz.
    by apply (mw_discard_spec sparse_ok same_script sparse_payload sparse_room sparse_discardable sparse_growable cs s off len).
  - intros count off Ho Hn.
    pose proof (mw_pread_spec sparse_ok same_script sparse_payload sparse_room sparse_discardable sparse_growable cs s
      count off Hs Hc Ho Hn) as H.
    destruct (mw_pread count off s) as [r s']. destruct H as [[_ Hr] _]. by destruct r.
Qed.

(** C35. Reopening a sparse layer.  In every state of the layer, also with a view
    that a failed mutation left invalid, opening its file gives a layer with a
    valid view of every block the file system has, of at least the requested size;
    it answers every byte as the layer did if its view was valid.  Opening fails
    only by a failing call, and keeps the blocks. *)
Theorem sparse_reopen_correct fiemap t vsize (existing_only : bool) rlimit :
  fiemap_documented fiemap -> sparse_ok t -> (if existing_only then vsize = 0 else size_ok vsize) ->
  attempt b_script (open_extents fiemap false vsize existing_only rlimit) (sp_backing t)
    (fun t' _ => sparse_ok t' /\ sp_extent_view_valid t' = true /\ sp_vsize t' = Z.max vsize (sp_vsize t) /\
       (forall i, 0 <= i -> index_byte t' i = disk_byte (sp_backing t) i) /\
       (sp_extent_view_valid t = true -> forall i, index_byte t' i = index_byte t i))
    (fun b' => forall i, disk_byte b' i = disk_byte (sp_backing t) i).
Proof.
  intros Hfm Ht Hvs. eapply attempt_mono; [by apply (open_attempt fiemap Hfm (sp_backing t) (so_backing t Ht))| |by intros ? []].
  intros t' _ (G1 & G2 & G3 & [_ G4]). rewrite (so_size t Ht) in G3.
  assert (forall i, 0 <= i -> index_byte t' i = disk_byte (sp_backing t) i) as Hd by (intros i Hi; by rewrite index_disk, G4).
  split; [done|]. split; [done|]. split; [done|]. split; [done|]. intros Hv i.
  destruct (Z.lt_ge_cases i 0); [by rewrite !index_byte_neg|]. by rewrite Hd, index_disk.
Qed.

(** A new sparse layer of two blocks over one sealed layer of a constant blob. *)
Definition fresh_backing : backing := Backing [] (File 8192 (fun _ => 0)) (fun _ => EHole) 4096 4096 0 false.
Definition fresh_sparse : SparseRwLayer := Sparse fresh_backing 8192 [] true 0 kOpen 0 None.
Definition sparse_example : MergedWritable SparseRwLayer unit :=
  MW [example_layer 8192 [Seg 0 4 8 false 0]] (fresh_sparse, tt) (Some [Seg 0 4 8 false 1]) 8192 0 false.


(** ** Witnesses *)

Lemma fresh_sparse_ok : sparse_ok fresh_sparse.
Proof.
  assert (disk_ok fresh_backing) as Hb.
  { split; [done| |done|done]. split; [done|]. split; [done|]. vm_compute. done. }
  assert (extent_index []) as Hx by (split; [apply index_ok_nil|constructor|constructor]).
  by split.
Qed.

Lemma sparse_example_ok : mw_ok (WL := sparse_writable block_fiemap) sparse_ok [fun _ => 7] sparse_example.
Proof.
  assert (forall g, 0 <= g < 256 -> index_ok 0 [Seg 0 4 8 false g]) as Hseg.
  { intros g Hg. apply index_ok_cons. split; [|split; [done|apply index_ok_nil]].
    repeat split; cbn; unfold kMaxOffset, kMaxLength; lia. }
  split; [exact fresh_sparse_ok| |done| | |done|done|done].
  - apply Forall_singleton. by apply Hseg.
  - apply Forall2_cons_2; [|apply Forall2_nil_2]. apply fn_source_spec; [lia|by split].
  - split; [by apply Hseg|]. intros x. unfold stack_cell. cbn. unfold within, covers, fin. cbn.
    change (0 + 4) with 4. destruct (Z.leb_spec 0 x), (Z.ltb_spec x 4), (Z.ltb_spec x kMaxOffset); cbn; try done.
    unfold kMaxOffset in *. lia.
Qed.

Lemma sparse_device_correct_witness :
  let WL := sparse_writable (W := unit) block_fiemap in
  let '(r, s') := mw_pwrite (WL := WL) (replicate 512 9) 512 sparse_example in
  mutates_device (WL := WL) sparse_ok sparse_payload [fun _ => 7] sparse_example 512 (512 + zlen (replicate 512 9))
    (fun i => bget (replicate 512 9) (i - 512)) r s' /\ (forall n, r = Ok n -> n = zlen (replicate 512 9)).
Proof.
  apply (sparse_device_correct block_fiemap [fun _ => 7] sparse_example block_fiemap_documented sparse_example_ok);
    [by split|done|lia].
Defined.

Lemma sparse_reopen_correct_witness :
  attempt b_script (open_extents block_fiemap false 16384 false None) fresh_backing
    (fun t' _ => sparse_ok t' /\ sp_extent_view_valid t' = true /\ sp_vsize t' = Z.max 16384 8192 /\
       (forall i, 0 <= i -> index_byte t' i = disk_byte fresh_backing i) /\
       (true = true -> forall i, index_byte t' i = index_byte fresh_sparse i))
    (fun b' => forall i, disk_byte b' i = disk_byte fresh_backing i).
Proof.
  apply (sparse_reopen_correct block_fiemap fresh_sparse 16384 false None block_fiemap_documented fresh_sparse_ok).
  split; [done|]. split; [done|]. vm_compute. done.
Defined.
