(* ===== verification/ZFileFormat.v ===== *)
(** * The ZFile header, trailer and jump table ([format/zfile_format.{hpp,cpp}])

    The 96-byte record at the front of a 512-byte region with its digest, the
    compression options inside it, and the in-memory index of block offsets:
    group base offsets and 16-bit prefix sums inside each group.  The record
    codec is proved a round trip; the jump table is proved to answer the sum of
    the compressed sizes before a block. *)
From S2P Require Import Prelude Bytes Crc32c.

Open Scope Z_scope.

Definition kSpace : Z := 512.
Definition kHeaderSize : Z := 96.
Definition kMaxIndexSize : Z := 1000000000.

Definition kMagic0 : bytes := [0x5A; 0x46; 0x69; 0x6C; 0x65; 0x00; 0x01; 0x00].
Definition kMagic1 : bytes :=
  [0x74; 0x75; 0x6A; 0x69; 0x2E; 0x79; 0x79; 0x66;
   0x40; 0x41; 0x6C; 0x69; 0x62; 0x61; 0x62; 0x61].

Definition kFlagShiftHeader : Z := 0.
Definition kFlagShiftType : Z := 1.
Definition kFlagShiftSealed : Z := 2.
Definition kFlagShiftHeaderOverwrite : Z := 3.
Definition kFlagShiftCalcDigest : Z := 4.

Definition kAlgoMiniLzo : Z := 0.
Definition kAlgoLz4 : Z := 1.
Definition kAlgoZstd : Z := 2.

Record CompressOptions := Opt {
  o_block_size : Z;
  o_algo : Z;
  o_level : Z;
  o_use_dict : Z;
  o_reserved : Z;
  o_dict_size : Z;
  o_verify : Z;
}.

#[export] Instance CompressOptions_eq_dec : EqDecision CompressOptions.
Proof. solve_decision. Defined.

(** [CompressOptions::parse] and [serialize] at position [p] of a region. *)
Definition parse_opt (b : bytes) (p : Z) : CompressOptions :=
  {| o_block_size := load_u32_le b p;
     o_algo := bget b (p + 4);
     o_level := bget b (p + 5);
     o_use_dict := bget b (p + 6);
     o_reserved := load_u32_le b (p + 8);
     o_dict_size := load_u32_le b (p + 12);
     o_verify := bget b (p + 16) |}.

Definition serialize_opt (o : CompressOptions) (b : bytes) (p : Z) : bytes :=
  let b := store_u32_le b p (o_block_size o) in
  let b := put b (p + 4) [o_algo o] in
  let b := put b (p + 5) [o_level o] in
  let b := put b (p + 6) [o_use_dict o] in
  let b := put b (p + 7) [0] in
  let b := store_u32_le b (p + 8) (o_reserved o) in
  let b := store_u32_le b (p + 12) (o_dict_size o) in
  let b := put b (p + 16) [o_verify o] in
  put b (p + 17) (zeros 7).

Record HeaderTrailer := ZHT {
  z_size : Z;
  z_digest : Z;
  z_flags : Z;
  z_index_offset : Z;
  z_index_size : Z;
  z_original_file_size : Z;
  z_index_crc : Z;
  z_reserved_0 : Z;
  z_opt : CompressOptions;
}.

#[export] Instance HeaderTrailer_eq_dec : EqDecision HeaderTrailer.
Proof. solve_decision. Defined.

Definition get_flag_bit (ht : HeaderTrailer) (shift : Z) : bool :=
  negb (Z.land (Z.shiftr (z_flags ht) shift) 1 =? 0).
Definition with_flags (ht : HeaderTrailer) (f : Z) : HeaderTrailer :=
  ZHT (z_size ht) (z_digest ht) f (z_index_offset ht) (z_index_size ht)
    (z_original_file_size ht) (z_index_crc ht) (z_reserved_0 ht) (z_opt ht).
Definition with_digest (ht : HeaderTrailer) (d : Z) : HeaderTrailer :=
  ZHT (z_size ht) d (z_flags ht) (z_index_offset ht) (z_index_size ht)
    (z_original_file_size ht) (z_index_crc ht) (z_reserved_0 ht) (z_opt ht).
Definition set_flag_bit (ht : HeaderTrailer) (shift : Z) : HeaderTrailer :=
  with_flags ht (Z.lor (z_flags ht) (u64 (Z.shiftl 1 shift))).
Definition clr_flag_bit (ht : HeaderTrailer) (shift : Z) : HeaderTrailer :=
  with_flags ht (Z.land (z_flags ht) (Z.lxor (Z.ones 64) (u64 (Z.shiftl 1 shift)))).
Definition is_header (ht : HeaderTrailer) : bool := get_flag_bit ht kFlagShiftHeader.
Definition is_trailer (ht : HeaderTrailer) : bool := negb (is_header ht).
Definition is_data_file (ht : HeaderTrailer) : bool := get_flag_bit ht kFlagShiftType.
Definition is_sealed (ht : HeaderTrailer) : bool := get_flag_bit ht kFlagShiftSealed.
Definition is_header_overwrite (ht : HeaderTrailer) : bool :=
  get_flag_bit ht kFlagShiftHeaderOverwrite.
Definition is_digest_enabled (ht : HeaderTrailer) : bool := get_flag_bit ht kFlagShiftCalcDigest.

Definition parse (b : bytes) : res HeaderTrailer :=
  if negb (bool_decide (sub 0 8 b = kMagic0)) || negb (bool_decide (sub 8 16 b = kMagic1))
  then format_error
  else
    let size := load_u32_le b 24 in
    if negb (size =? kHeaderSize) then format_error
    else Ok {| z_size := size;
               z_digest := load_u32_le b 28;
               z_flags := load_u64_le b 32;
               z_index_offset := load_u64_le b 40;
               z_index_size := load_u64_le b 48;
               z_original_file_size := load_u64_le b 56;
               z_index_crc := load_u32_le b 64;
               z_reserved_0 := load_u32_le b 68;
               z_opt := parse_opt b 72 |}.

Definition serialize (ht : HeaderTrailer) : bytes :=
  let b := zeros kSpace in
  let b := put b 0 kMagic0 in
  let b := put b 8 kMagic1 in
  let b := store_u32_le b 24 kHeaderSize in
  let b := store_u32_le b 28 (z_digest ht) in
  let b := store_u64_le b 32 (z_flags ht) in
  let b := store_u64_le b 40 (z_index_offset ht) in
  let b := store_u64_le b 48 (z_index_size ht) in
  let b := store_u64_le b 56 (z_original_file_size ht) in
  let b := store_u32_le b 64 (z_index_crc ht) in
  let b := store_u32_le b 68 (z_reserved_0 ht) in
  serialize_opt (z_opt ht) b 72.

Definition region_digest_ok (ht : HeaderTrailer) (region : bytes) : bool :=
  if negb (is_digest_enabled ht) then true
  else crc32c false 0 (store_u32_le region 28 0) =? z_digest ht.

(** Stores the digest into the region and the struct. *)
Definition set_region_digest (ht : HeaderTrailer) (region : bytes) : HeaderTrailer * bytes :=
  let b := store_u32_le region 28 0 in
  let digest := crc32c false 0 b in
  (with_digest ht digest, store_u32_le b 28 digest).

(** ** The jump table *)

Record JumpTable := Jump {
  j_group_size : Z;
  j_partial_offset : list Z;
  j_deltas : list Z;
}.

Definition kUinttypeMax : Z := 65535.

(** The loop of [build] from block [i] on. *)
Fixpoint build_loop (group_size min_blksize : Z) (ibuf : list Z) (i raw_offset : Z)
    (partial_offset deltas : list Z) : res JumpTable :=
  match ibuf with
  | [] => Ok (Jump group_size partial_offset deltas)
  | entry :: ibuf =>
      if entry <=? min_blksize then Err (Errno EIO)
      else
        let raw_offset := u64 (raw_offset + entry) in
        if i mod group_size =? 0 then
          build_loop group_size min_blksize ibuf (i + 1) raw_offset
            (partial_offset ++ [raw_offset]) (deltas ++ [0])
        else if kUinttypeMax <=? bget deltas (i - 1) + entry then Err (Errno ERANGE)
        else build_loop group_size min_blksize ibuf (i + 1) raw_offset
               partial_offset (deltas ++ [u16 (bget deltas (i - 1) + entry)])
  end.

Definition build (ibuf : list Z) (offset_begin block_size : Z) (enable_crc : bool)
  : res JumpTable :=
  if (block_size =? 0) || (65536 <? block_size) ||
     negb (Z.land block_size (block_size - 1) =? 0)
  then format_error
  else build_loop ((kUinttypeMax + 1) / block_size) (if enable_crc then 4 else 0) ibuf 1
         offset_begin [offset_begin] [0].

(** [jump_[idx]]; a subscript past the end of a vector is undefined. *)
Definition jump_at (j : JumpTable) (idx : Z) : res Z :=
  let part_idx := idx / j_group_size j in
  let inner_idx := Z.land idx (j_group_size j - 1) in
  match j_partial_offset j !! Z.to_nat part_idx with
  | None => Err Undefined
  | Some part =>
      if negb (inner_idx =? 0) then
        match j_deltas j !! Z.to_nat idx with
        | None => Err Undefined
        | Some d => Ok (u64 (part + d))
        end
      else Ok part
  end.

(** ** The record codec *)

Definition opt_ok (o : CompressOptions) : Prop :=
  0 <= o_block_size o < 2 ^ 32 /\ is_byte (o_algo o) /\ is_byte (o_level o) /\
  is_byte (o_use_dict o) /\ 0 <= o_reserved o < 2 ^ 32 /\ 0 <= o_dict_size o < 2 ^ 32 /\
  is_byte (o_verify o).

Definition zht_ok (ht : HeaderTrailer) : Prop :=
  z_size ht = kHeaderSize /\ 0 <= z_digest ht < 2 ^ 32 /\ 0 <= z_flags ht < 2 ^ 64 /\
  0 <= z_index_offset ht < 2 ^ 64 /\ 0 <= z_index_size ht < 2 ^ 64 /\
  0 <= z_original_file_size ht < 2 ^ 64 /\ 0 <= z_index_crc ht < 2 ^ 32 /\
  0 <= z_reserved_0 ht < 2 ^ 32 /\ opt_ok (z_opt ht).

(** The fields after the digest, and all of them. *)
Definition zht_tail (ht : HeaderTrailer) : list (Z * bytes) :=
  [(32, le_bytes 8 (z_flags ht));
   (40, le_bytes 8 (z_index_offset ht)); (48, le_bytes 8 (z_index_size ht));
   (56, le_bytes 8 (z_original_file_size ht)); (64, le_bytes 4 (z_index_crc ht));
   (68, le_bytes 4 (z_reserved_0 ht)); (72, le_bytes 4 (o_block_size (z_opt ht)));
   (76, [o_algo (z_opt ht)]); (77, [o_level (z_opt ht)]); (78, [o_use_dict (z_opt ht)]);
   (79, [0]); (80, le_bytes 4 (o_reserved (z_opt ht))); (84, le_bytes 4 (o_dict_size (z_opt ht)));
   (88, [o_verify (z_opt ht)]); (89, zeros 7)].

Definition zht_fields (ht : HeaderTrailer) : list (Z * bytes) :=
  (0, kMagic0) :: (8, kMagic1) :: (24, le_bytes 4 kHeaderSize) ::
  (28, le_bytes 4 (z_digest ht)) :: zht_tail ht.

Lemma zht_fields_layout ht : layout_ok 0 (zlen (zeros kSpace)) (zht_fields ht).
Proof.
  unfold zht_fields, zht_tail. cbn [layout_ok]. change (zlen kMagic0) with 8. change (zlen kMagic1) with 16.
  change (zlen (zeros kSpace)) with 512. rewrite !zlen_le_bytes.
  autorewrite with zlen. lia.
Qed.

Lemma zht_fields_byte ht : zht_ok ht -> Forall (fun f => Forall is_byte f.2) (zht_fields ht).
Proof.
  intros (_&_&_&_&_&_&_&_&?&?&?&?&?&?&?). unfold zht_fields, zht_tail.
  forall_fields ltac:(fun _ =>
    first [apply le_bytes_byte | apply zeros_byte | by apply Forall_singleton
          | by repeat constructor]).
Qed.

Lemma zserialize_puts ht : serialize ht = puts (zeros kSpace) (zht_fields ht).
Proof.
  unfold serialize, serialize_opt, zht_fields, zht_tail. generalize (zeros kSpace) as b. intros b.
  cbv zeta. rewrite !store_u32_val, !store_u64_val. cbn [puts].
  change (72 + 4) with 76. change (72 + 5) with 77. change (72 + 6) with 78. change (72 + 7) with 79.
  change (72 + 8) with 80. change (72 + 12) with 84. change (72 + 16) with 88.
  change (72 + 17) with 89. reflexivity.
Qed.

Lemma zlen_serialize ht : zlen (serialize ht) = kSpace.
Proof.
  rewrite zserialize_puts. by destruct (puts_below _ _ 0 ltac:(lia) (zht_fields_layout ht)) as [-> _].
Qed.

Lemma serialize_byte ht : zht_ok ht -> Forall is_byte (serialize ht).
Proof.
  intros. rewrite zserialize_puts. apply puts_byte; [apply zeros_byte|by apply zht_fields_byte].
Qed.

Lemma zparse_serialize ht : zht_ok ht -> parse (serialize ht) = Ok ht.
Proof.
  intros Hok. pose proof (serialize_byte ht Hok) as Hb. pose proof (zlen_serialize ht) as Hz.
  rewrite zserialize_puts in *.
  assert (forall p bs n, (p, bs) ∈ zht_fields ht -> zlen bs = n ->
    sub p n (puts (zeros kSpace) (zht_fields ht)) = bs) as Hf
    by eauto using puts_field, zht_fields_layout, Z.le_refl.
  set (b := puts _ _) in *. clearbody b. unfold kSpace in Hz.
  destruct ht as [size dg flags ioff isz osz crc rsv [bs al lv ud orsv ds vf]].
  destruct Hok as (?&?&?&?&?&?&?&?&?&?&?&?&?&?&?). simpl in *. subst size.
  assert (forall x n, 0 <= x < 2 ^ n -> x mod 2 ^ n = x) as Hmod by (intros; by apply Z.mod_small).
  unfold parse, parse_opt, kHeaderSize in *.
  rewrite (Hf 0 kMagic0), (Hf 8 kMagic1) by (done || in_fields).
  rewrite !bool_decide_true by done. cbn [negb orb].
  change (72 + 4) with 76. change (72 + 5) with 77. change (72 + 6) with 78.
  change (72 + 8) with 80. change (72 + 12) with 84. change (72 + 16) with 88.
  rewrite (load_field_u32 b 24 Hb ltac:(lia) 96) by (lia || by apply Hf; in_fields).
  rewrite (load_field_u32 b 28 Hb ltac:(lia) dg) by (lia || by apply Hf; in_fields).
  rewrite (load_field_u64 b 32 Hb ltac:(lia) flags) by (lia || by apply Hf; in_fields).
  rewrite (load_field_u64 b 40 Hb ltac:(lia) ioff) by (lia || by apply Hf; in_fields).
  rewrite (load_field_u64 b 48 Hb ltac:(lia) isz) by (lia || by apply Hf; in_fields).
  rewrite (load_field_u64 b 56 Hb ltac:(lia) osz) by (lia || by apply Hf; in_fields).
  rewrite (load_field_u32 b 64 Hb ltac:(lia) crc) by (lia || by apply Hf; in_fields).
  rewrite (load_field_u32 b 68 Hb ltac:(lia) rsv) by (lia || by apply Hf; in_fields).
  rewrite (load_field_u32 b 72 Hb ltac:(lia) bs) by (lia || by apply Hf; in_fields).
  rewrite (load_field_u32 b 80 Hb ltac:(lia) orsv) by (lia || by apply Hf; in_fields).
  rewrite (load_field_u32 b 84 Hb ltac:(lia) ds) by (lia || by apply Hf; in_fields).
  rewrite (load_field_u8 b 76 ltac:(lia) al), (load_field_u8 b 77 ltac:(lia) lv),
    (load_field_u8 b 78 ltac:(lia) ud), (load_field_u8 b 88 ltac:(lia) vf)
    by (lia || by apply Hf; in_fields).
  rewrite !Hmod by done. done.
Qed.

Lemma zparse_errno b : res_errno (parse b).
Proof. unfold parse. cbv zeta. res_errno. Qed.

(** ** Flags *)

Lemma zget_flag_testbit ht shift :
  0 <= shift -> get_flag_bit ht shift = Z.testbit (z_flags ht) shift.
Proof.
  intros. unfold get_flag_bit. rewrite Z.testbit_odd, land_one, Zmod_odd.
  by destruct (Z.odd _).
Qed.

(** ** The digest *)

(** A later store overrides an earlier one and commutes with disjoint ones. *)
Lemma put_put_same b p x y :
  zlen x = zlen y -> 0 <= p -> p + zlen x <= zlen b -> put (put b p x) p y = put b p y.
Proof.
  intros Hxy Hp Hl. assert (zlen (put b p x) = zlen b) as Hz by (apply zlen_put; lia).
  apply list_eq_bget; [rewrite !zlen_put; lia|]. rewrite zlen_put by lia. intros i Hi.
  rewrite !bget_put by lia. rewrite Hxy. by case_decide.
Qed.

Lemma put_comm b p x q y :
  0 <= p -> p + zlen x <= q -> q + zlen y <= zlen b ->
  put (put b p x) q y = put (put b q y) p x.
Proof.
  intros. pose proof (zlen_nonneg x). pose proof (zlen_nonneg y).
  assert (zlen (put b p x) = zlen b) as Hz by (apply zlen_put; lia).
  assert (zlen (put b q y) = zlen b) as Hz' by (apply zlen_put; lia).
  apply list_eq_bget; [rewrite !zlen_put; lia|]. rewrite zlen_put by lia. intros i Hi.
  rewrite !bget_put by lia. repeat case_decide; lia || done.
Qed.

Lemma puts_put fs b p x lo :
  0 <= p -> p + zlen x <= lo -> layout_ok lo (zlen b) fs ->
  puts (put b p x) fs = put (puts b fs) p x.
Proof.
  revert b lo. induction fs as [|[q y] fs IH]; intros b lo Hp Hx; simpl; [done|].
  intros [Hq Hl]. pose proof (layout_ok_le _ _ _ Hl). pose proof (zlen_nonneg x).
  rewrite put_comm by lia. apply (IH _ (q + zlen y)); [lia|pose proof (zlen_nonneg y); lia|].
  rewrite zlen_put by lia. done.
Qed.

Lemma puts_update b p x y fs :
  0 <= p -> zlen x = zlen y -> layout_ok (p + zlen x) (zlen b) fs ->
  puts (put b p y) fs = put (puts (put b p x) fs) p y.
Proof.
  intros Hp Hxy Hf. pose proof (zlen_nonneg x). pose proof (layout_ok_le _ _ _ Hf).
  destruct (puts_below fs b (p + zlen x) ltac:(lia) Hf) as [Hz _].
  rewrite !(puts_put fs b p _ (p + zlen x)) by (lia || done).
  rewrite put_put_same by lia. done.
Qed.

Definition zht_head (b : bytes) : bytes :=
  put (put (put b 0 kMagic0) 8 kMagic1) 24 (le_bytes 4 kHeaderSize).
Lemma puts_4 b p x q y r z s t fs :
  puts b ((p, x) :: (q, y) :: (r, z) :: (s, t) :: fs)
  = puts (put (put (put (put b p x) q y) r z) s t) fs.
Proof. done. Qed.
Lemma puts_fields b ht :
  puts b (zht_fields ht) = puts (put (zht_head b) 28 (le_bytes 4 (z_digest ht))) (zht_tail ht).
Proof.
  unfold zht_fields. rewrite puts_4. unfold zht_head. reflexivity.
Qed.
Lemma zlen_head b : zlen b = 512 -> zlen (zht_head b) = 512.
Proof.
  intros Hz. unfold zht_head, put. autorewrite with zlen.
  change (zlen kMagic0) with 8. change (zlen kMagic1) with 16. lia.
Qed.
Lemma tail_layout ht : layout_ok (28 + 4) 512 (zht_tail ht).
Proof. exact (proj2 (proj2 (proj2 (proj2 (zht_fields_layout ht))))). Qed.
Lemma tail_with_digest ht d : zht_tail (with_digest ht d) = zht_tail ht.
Proof. done. Qed.

(** The region with its digest field rewritten. *)
Lemma serialize_with_digest ht d :
  serialize (with_digest ht d) = store_u32_le (serialize ht) 28 d.
Proof.
  rewrite store_u32_val, !zserialize_puts.
  rewrite !puts_fields, tail_with_digest.
  apply puts_update; [lia|by rewrite !zlen_le_bytes|].
  rewrite zlen_head, zlen_le_bytes by done. apply tail_layout.
Qed.

(** A region written with its digest parses back and passes its check. *)
Lemma set_region_digest_spec ht :
  zht_ok ht ->
  exists d, 0 <= d < 2 ^ 32 /\
    set_region_digest ht (serialize ht) = (with_digest ht d, serialize (with_digest ht d)) /\
    parse (serialize (with_digest ht d)) = Ok (with_digest ht d) /\
    region_digest_ok (with_digest ht d) (serialize (with_digest ht d)) = true.
Proof.
  intros Hok. set (d := crc32c false 0 (store_u32_le (serialize ht) 28 0)).
  assert (0 <= d < 2 ^ 32) as Hd by apply crc32c_bound. exists d. split; [done|].
  pose proof (zlen_serialize ht) as Hz. unfold kSpace in Hz.
  assert (store_u32_le (store_u32_le (serialize ht) 28 0) 28 d
    = store_u32_le (serialize ht) 28 d) as Hs
    by (rewrite !store_u32_val; apply put_put_same; rewrite ?zlen_le_bytes; lia || done).
  assert (zht_ok (with_digest ht d)) as Hok' by (unfold zht_ok in *; simpl; tauto).
  split; [|split; [by apply zparse_serialize|]].
  - unfold set_region_digest. fold d. by rewrite Hs, serialize_with_digest.
  - unfold region_digest_ok. case_if; [done|]. simpl z_digest. apply Z.eqb_eq.
    rewrite serialize_with_digest. unfold d at 2. apply (f_equal (crc32c false 0)).
    rewrite !store_u32_val. apply put_put_same; rewrite ?zlen_le_bytes; lia || done.
Qed.

(** ** The jump table *)

Fixpoint zsum (l : list Z) : Z := match l with [] => 0 | x :: l => x + zsum l end.

Lemma zsum_app l k : zsum (l ++ k) = zsum l + zsum k.
Proof. induction l as [|x l IH]; simpl; lia. Qed.
Lemma zsum_nonneg l : Forall (fun x => 0 <= x) l -> 0 <= zsum l.
Proof. induction 1; simpl; lia. Qed.

(** Where block [i] starts: the sum of the compressed sizes before it. *)
Definition block_pos (begin : Z) (ibuf : list Z) (i : Z) : Z := begin + zsum (ztake i ibuf).


(** The bytes before block [i] in its group of [g] blocks. *)
Definition in_group (g : Z) (ibuf : list Z) (i : Z) : Z :=
  zsum (ztake i ibuf) - zsum (ztake (i - i mod g) ibuf).

Lemma pow2_of_mask n : 0 < n -> Z.land n (n - 1) = 0 -> exists k, 0 <= k /\ n = 2 ^ k.
Proof.
  intros Hn Hl. exists (Z.log2 n). split; [apply Z.log2_nonneg|].
  destruct (Z.log2_spec n Hn) as [H1 H2].
  destruct (decide (n = 2 ^ Z.log2 n)) as [|Hne]; [done|]. exfalso.
  assert (Z.log2 (n - 1) = Z.log2 n) as Hlog by (apply Z.log2_unique; [apply Z.log2_nonneg|lia]).
  assert (Z.testbit (Z.land n (n - 1)) (Z.log2 n) = true) as Hb.
  { rewrite Z.land_spec, Z.bit_log2 by done. rewrite <- Hlog at 1. apply Z.bit_log2.
    pose proof (Z.pow_pos_nonneg 2 (Z.log2 n) ltac:(lia) (Z.log2_nonneg n)). lia. }
  by rewrite Hl, Z.bits_0 in Hb.
Qed.

Lemma div_succ n g :
  0 < g -> (n + 1) / g = n / g + (if decide ((n + 1) mod g = 0) then 1 else 0).
Proof.
  intros Hg. pose proof (Z.div_mod n g ltac:(lia)). pose proof (Z.mod_pos_bound n g Hg).
  pose proof (Z.div_mod (n + 1) g ltac:(lia)). pose proof (Z.mod_pos_bound (n + 1) g Hg).
  case_decide; nia.
Qed.

Lemma ztake_app_le {A} n (l k : list A) : n <= zlen l -> ztake n (l ++ k) = ztake n l.
Proof. intros. unfold ztake, zlen in *. apply take_app_le. lia. Qed.

Lemma slice_snoc {A} (f : Z -> A) n : 0 <= n -> slice f 0 (n + 1) = slice f 0 n ++ [f n].
Proof. intros. rewrite slice_app by lia. done. Qed.

Lemma lookup_slice {A} (f : Z -> A) n i : 0 <= i < n -> slice f 0 n !! Z.to_nat i = Some (f i).
Proof.
  intros. unfold slice. rewrite list_lookup_fmap, lookup_seqZ_lt by lia. simpl. do 2 f_equal. lia.
Qed.
Lemma lookup_slice_none {A} (f : Z -> A) n i :
  0 <= n <= i -> slice f 0 n !! Z.to_nat i = None.
Proof.
  intros. unfold slice. rewrite list_lookup_fmap, lookup_seqZ_ge by lia. done.
Qed.

Section jump.
Context (g begin min_blksize : Z) (Hg : 0 < g) (Hb : 0 <= begin) (Hmin : 0 <= min_blksize).

(** The vectors after the entries [pre]. *)
Definition partials (pre : list Z) : list Z :=
  slice (fun k => block_pos begin pre (k * g)) 0 (zlen pre / g + 1).
Definition prefix_sums (pre : list Z) : list Z := slice (in_group g pre) 0 (zlen pre + 1).

Lemma sum_snoc pre x i : i <= zlen pre -> zsum (ztake i (pre ++ [x])) = zsum (ztake i pre).
Proof. intros. by rewrite ztake_app_le. Qed.

Lemma partials_snoc pre x :
  partials (pre ++ [x]) = partials pre ++
    (if decide ((zlen pre + 1) mod g = 0) then [begin + zsum (pre ++ [x])] else []).
Proof.
  unfold partials. rewrite zlen_app. change (zlen [x]) with 1. pose proof (zlen_nonneg pre) as Hl.
  pose proof (Z.div_pos (zlen pre) g Hl Hg).
  pose proof (Z.mul_div_le (zlen pre) g Hg) as Hle.
  rewrite div_succ by done. case_decide as Hm.
  - replace (zlen pre / g + 1 + 1) with ((zlen pre / g + 1) + 1) by lia.
    rewrite slice_snoc by lia. f_equal.
    + apply slice_ext. intros k Hk. unfold block_pos. rewrite sum_snoc; [done|]. nia.
    + unfold block_pos. rewrite ztake_all; [done|]. rewrite zlen_app. change (zlen [x]) with 1.
      pose proof (div_succ (zlen pre) g Hg) as Hd. rewrite decide_True in Hd by done.
      pose proof (Z.div_mod (zlen pre + 1) g ltac:(lia)). nia.
  - rewrite app_nil_r, Z.add_0_r. apply slice_ext. intros k Hk. unfold block_pos.
    rewrite sum_snoc; [done|]. nia.
Qed.

Lemma in_group_step pre x :
  in_group g (pre ++ [x]) (zlen pre + 1) =
    if decide ((zlen pre + 1) mod g = 0) then 0 else in_group g pre (zlen pre) + x.
Proof.
  unfold in_group. pose proof (zlen_nonneg pre).
  rewrite (ztake_all (zlen pre + 1)) by (rewrite zlen_app; change (zlen [x]) with 1; lia).
  case_decide as Hm.
  - rewrite Hm, Z.sub_0_r, ztake_all; [lia|]. rewrite zlen_app. change (zlen [x]) with 1. lia.
  - pose proof (div_succ (zlen pre) g Hg) as Hd. rewrite decide_False in Hd by done.
    pose proof (Z.div_mod (zlen pre + 1) g ltac:(lia)).
    pose proof (Z.div_mod (zlen pre) g ltac:(lia)).
    pose proof (Z.mod_pos_bound (zlen pre) g Hg).
    replace (zlen pre + 1 - (zlen pre + 1) mod g) with (zlen pre - zlen pre mod g) by nia.
    rewrite sum_snoc, zsum_app, (ztake_all (zlen pre)) by lia. simpl. lia.
Qed.

Lemma prefix_sums_snoc pre x :
  prefix_sums (pre ++ [x]) = prefix_sums pre ++ [in_group g (pre ++ [x]) (zlen pre + 1)].
Proof.
  unfold prefix_sums. rewrite zlen_app. change (zlen [x]) with 1. pose proof (zlen_nonneg pre).
  rewrite slice_snoc by lia. f_equal. apply slice_ext. intros k Hk. unfold in_group.
  pose proof (Z.mod_pos_bound k g Hg). by rewrite !sum_snoc by lia.
Qed.

Lemma prefix_sums_last pre : bget (prefix_sums pre) (zlen pre) = in_group g pre (zlen pre).
Proof. unfold prefix_sums. pose proof (zlen_nonneg pre). by rewrite bget_slice by lia. Qed.

Lemma in_group_nonneg pre i : Forall (fun x => 0 <= x) pre -> 0 <= i -> 0 <= in_group g pre i.
Proof.
  intros Hp Hi. unfold in_group. pose proof (Z.mod_pos_bound i g Hg).
  pose proof (Z.mod_le i g Hi Hg).
  replace (ztake i pre) with (ztake (i - i mod g) pre ++ sub (i - i mod g) (i mod g) pre).
  - rewrite zsum_app. assert (0 <= zsum (sub (i - i mod g) (i mod g) pre)); [|lia].
    apply zsum_nonneg. unfold sub, ztake, zdrop. by apply Forall_take, Forall_drop.
  - unfold sub, ztake, zdrop. rewrite <- (take_drop (Z.to_nat (i - i mod g)) (take (Z.to_nat i) pre)).
    f_equal; [rewrite take_take; f_equal; lia|].
    rewrite take_drop_commute. do 2 f_equal. lia.
Qed.

Definition jump_of (ibuf : list Z) : JumpTable := Jump g (partials ibuf) (prefix_sums ibuf).

(** What makes an index acceptable. *)
Definition entries_ok (ibuf : list Z) : Prop := Forall (fun e => min_blksize < e) ibuf.
Definition groups_ok (ibuf : list Z) : Prop :=
  forall i, 1 <= i <= zlen ibuf -> i mod g <> 0 -> in_group g ibuf i < kUinttypeMax.

Lemma groups_ok_app pre l : groups_ok (pre ++ l) -> groups_ok pre.
Proof.
  intros H i Hi Hm. specialize (H i). unfold in_group in *. pose proof (zlen_nonneg l).
  rewrite zlen_app in H. pose proof (Z.mod_pos_bound i g Hg).
  rewrite !ztake_app_le in H by lia. apply H; lia.
Qed.

Lemma groups_ok_snoc pre x :
  groups_ok pre -> ((zlen pre + 1) mod g <> 0 -> in_group g (pre ++ [x]) (zlen pre + 1) < kUinttypeMax) ->
  groups_ok (pre ++ [x]).
Proof.
  intros H Hx i Hi Hm. rewrite zlen_app in Hi. change (zlen [x]) with 1 in Hi.
  destruct (decide (i = zlen pre + 1)) as [->|]; [auto|].
  unfold in_group. pose proof (Z.mod_pos_bound i g Hg). rewrite !sum_snoc by lia. apply H; lia.
Qed.

Lemma build_loop_ok l pre :
  entries_ok pre -> groups_ok pre -> begin + zsum (pre ++ l) < 2 ^ 64 ->
  Forall (fun e => 0 <= e) l ->
  match build_loop g min_blksize l (zlen pre + 1) (begin + zsum pre) (partials pre) (prefix_sums pre) with
  | Ok j => entries_ok (pre ++ l) /\ groups_ok (pre ++ l) /\ j = jump_of (pre ++ l)
  | Err f => f = Errno EIO /\ ~ entries_ok (pre ++ l) \/
             f = Errno ERANGE /\ ~ groups_ok (pre ++ l)
  end.
Proof.
  revert pre. induction l as [|x l IH]; intros pre He Hgr Hs Hl; simpl.
  { by rewrite app_nil_r. }
  apply Forall_cons in Hl as [Hx Hl].
  assert (Forall (fun e => 0 <= e) pre) as Hpre by (eapply Forall_impl; [exact He|]; simpl; lia).
  pose proof (zsum_nonneg _ Hpre). pose proof (zsum_nonneg _ Hl).
  rewrite zsum_app in Hs. simpl in Hs.
  replace (pre ++ x :: l) with ((pre ++ [x]) ++ l) by by rewrite <- app_assoc.
  case_if.
  { left. split; [done|]. unfold entries_ok. rewrite !Forall_app, Forall_singleton. lia. }
  assert (entries_ok (pre ++ [x])) as He' by (apply Forall_app; split; [done|by apply Forall_singleton]).
  assert (begin + zsum ((pre ++ [x]) ++ l) < 2 ^ 64) as Hs'
    by (rewrite !zsum_app; simpl; lia).
  assert (begin + zsum pre + x = begin + zsum (pre ++ [x])) as Hraw by (rewrite zsum_app; simpl; lia).
  rewrite u64_small by lia. rewrite Hraw. clear Hraw.
  replace (zlen pre + 1 + 1) with (zlen (pre ++ [x]) + 1) by (rewrite zlen_app; done).
  replace (zlen pre + 1 - 1) with (zlen pre) by lia. rewrite prefix_sums_last.
  pose proof (in_group_step pre x) as Hst. pose proof (partials_snoc pre x) as Hps.
  pose proof (prefix_sums_snoc pre x) as Hpx.
  case_if.
  - rewrite decide_True in Hst by done. rewrite decide_True in Hps by done. rewrite Hst in Hpx. rewrite <- Hps, <- Hpx.
    apply IH; try done. by apply groups_ok_snoc.
  - rewrite decide_False in Hst by done. rewrite decide_False in Hps by done. rewrite Hst in Hpx. rewrite app_nil_r in Hps.
    case_if.
    + right. split; [done|]. intros Hc%groups_ok_app. specialize (Hc (zlen pre + 1)).
      rewrite zlen_app in Hc. change (zlen [x]) with 1 in Hc. pose proof (zlen_nonneg pre).
      specialize (Hc ltac:(lia) ltac:(done)). lia.
    + pose proof (in_group_nonneg pre (zlen pre) Hpre (zlen_nonneg pre)).
      unfold kUinttypeMax in *. rewrite u16_small by lia. rewrite <- Hps, <- Hpx.
      apply IH; try done. apply groups_ok_snoc; [done|]. unfold kUinttypeMax. lia.
Qed.

(** Subscripts up to the number of blocks are in bounds and answer the offset
    of the block, later ones leave the vectors. *)
Lemma jump_at_of ibuf k i :
  g = 2 ^ k -> 0 <= k -> 0 <= i -> Forall (fun e => 0 <= e) ibuf ->
  begin + zsum ibuf < 2 ^ 64 ->
  jump_at (jump_of ibuf) i = if i <=? zlen ibuf then Ok (block_pos begin ibuf i) else Err Undefined.
Proof.
  intros Hk Hk0 Hi He Hs. unfold jump_at. simpl.
  replace (g - 1) with (Z.ones k) by (rewrite Z.ones_equiv; lia).
  rewrite Z.land_ones, <- Hk by done.
  pose proof (zlen_nonneg ibuf). pose proof (Z.div_pos i g Hi Hg).
  pose proof (Z.div_mod i g ltac:(lia)). pose proof (Z.mod_pos_bound i g Hg).
  pose proof (Z.div_pos (zlen ibuf) g ltac:(lia) Hg).
  destruct (Z.leb_spec i (zlen ibuf)) as [Hle|Hgt].
  - pose proof (Z.div_le_mono i (zlen ibuf) g Hg Hle).
    unfold partials, prefix_sums. rewrite lookup_slice by lia. case_if.
    + rewrite lookup_slice by lia. f_equal. unfold block_pos, in_group.
      replace (i / g * g) with (i - i mod g) by nia.
      replace (begin + _ + _) with (begin + zsum (ztake i ibuf)) by lia.
      apply u64_small.
      rewrite <- (take_drop (Z.to_nat i) ibuf), zsum_app in Hs. fold (ztake i ibuf) in Hs.
      pose proof (zsum_nonneg (ztake i ibuf) (Forall_take _ _ _ He)).
      pose proof (zsum_nonneg _ (Forall_drop _ (Z.to_nat i) _ He)). lia.
    + f_equal. f_equal. nia.
  - unfold partials, prefix_sums. case_if.
    + rewrite (lookup_slice_none _ (zlen ibuf + 1)) by lia. by case_match.
    + rewrite lookup_slice_none; [done|].
      pose proof (Z.div_mod (zlen ibuf) g ltac:(lia)). pose proof (Z.mod_pos_bound (zlen ibuf) g Hg).
      nia.
Qed.
End jump.

(** ** [build] *)

Definition pow2_size (bs : Z) : Prop := exists k, 0 <= k <= 16 /\ bs = 2 ^ k.

Lemma pow2_size_test bs :
  0 <= bs ->
  (bs =? 0) || (65536 <? bs) || negb (Z.land bs (bs - 1) =? 0) = false <-> pow2_size bs.
Proof.
  intros H0. split.
  - intros H. bool_hyps. destruct (pow2_of_mask bs) as (k & Hk & ->); [lia..|].
    exists k. split; [|done]. destruct (decide (k <= 16)); [lia|].
    pose proof (Z.pow_lt_mono_r 2 16 k). lia.
  - intros (k & Hk & ->). pose proof (Z.pow_pos_nonneg 2 k ltac:(lia) ltac:(lia)).
    pose proof (Z.pow_le_mono_r 2 k 16 ltac:(lia) ltac:(lia)).
    rewrite (proj2 (Z.eqb_neq _ _)), (proj2 (Z.ltb_ge _ _)) by lia. simpl.
    replace (2 ^ k - 1) with (Z.ones k) by (rewrite Z.ones_equiv; lia).
    by rewrite Z.land_ones, Z.mod_same by lia.
Qed.

(** Blocks per group. *)
Definition group_of (bs : Z) : Z := (kUinttypeMax + 1) / bs.

Lemma group_pow2 bs : pow2_size bs -> exists k, 0 <= k <= 16 /\ group_of bs = 2 ^ k.
Proof.
  intros (k & Hk & ->). exists (16 - k). split; [lia|]. unfold group_of, kUinttypeMax.
  change (65535 + 1) with (2 ^ 16). symmetry. apply Z.pow_sub_r; lia.
Qed.
Lemma group_pos bs : pow2_size bs -> 0 < group_of bs.
Proof. intros (k & Hk & ->)%group_pow2. apply Z.pow_pos_nonneg; lia. Qed.

Definition min_entry (enable_crc : bool) : Z := if enable_crc then 4 else 0.

Lemma build_spec ibuf begin bs crc :
  0 <= bs -> 0 <= begin -> Forall (fun e => 0 <= e) ibuf -> begin + zsum ibuf < 2 ^ 64 ->
  match build ibuf begin bs crc with
  | Ok j => pow2_size bs /\ entries_ok (min_entry crc) ibuf /\ groups_ok (group_of bs) ibuf /\
            j = jump_of (group_of bs) begin ibuf
  | Err f => f = Errno EINVAL /\ ~ pow2_size bs \/
             f = Errno EIO /\ ~ entries_ok (min_entry crc) ibuf \/
             f = Errno ERANGE /\ ~ groups_ok (group_of bs) ibuf
  end.
Proof.
  intros H0 Hb He Hs. unfold build. pose proof (pow2_size_test bs H0) as Ht. case_if.
  { left. split; [done|]. intros Hp%Ht. congruence. }
  assert (pow2_size bs) as Hp by by apply Ht. pose proof (group_pos bs Hp) as Hg.
  fold (group_of bs). fold (min_entry crc).
  assert (0 <= min_entry crc) as Hm by (unfold min_entry; by case_match).
  pose proof (build_loop_ok (group_of bs) begin (min_entry crc) Hg Hb Hm ibuf []) as HB.
  assert (partials (group_of bs) begin [] = [begin]) as HP.
  { unfold partials, slice. rewrite Z.div_0_l by lia. simpl. unfold block_pos. f_equal. simpl.
    by rewrite Z.add_0_r. }
  rewrite HP, Z.add_0_r in HB. simpl in HB.
  specialize (HB (Forall_nil_2 _) ltac:(intros i Hi; rewrite zlen_nil in Hi; lia) Hs He).
  unfold min_entry in *.
  destruct (build_loop _ _ _ _ _ _ _) as [j|f]; [|tauto]. tauto.
Qed.

(** C24. The jump table: [build] accepts an index exactly when the block size is
    a power of two up to 65536, no entry is too small and no 16-bit prefix sum
    of a group overflows, and says which failed otherwise.  In an accepted table
    every subscript up to the number of blocks stays inside the two vectors and
    answers the exact sum of the compressed sizes before the block; one past it
    leaves them. *)
Theorem jump_table_correct ibuf begin bs crc :
  0 <= bs -> 0 <= begin -> Forall (fun e => 0 <= e) ibuf -> begin + zsum ibuf < 2 ^ 64 ->
  match build ibuf begin bs crc with
  | Ok j => pow2_size bs /\ entries_ok (min_entry crc) ibuf /\ groups_ok (group_of bs) ibuf /\
            forall i, 0 <= i -> jump_at j i =
              if i <=? zlen ibuf then Ok (begin + zsum (ztake i ibuf)) else Err Undefined
  | Err f => f = Errno EINVAL /\ ~ pow2_size bs \/
             f = Errno EIO /\ ~ entries_ok (min_entry crc) ibuf \/
             f = Errno ERANGE /\ ~ groups_ok (group_of bs) ibuf
  end.
Proof.
  intros H0 Hb He Hs. pose proof (build_spec ibuf begin bs crc H0 Hb He Hs) as H.
  destruct (build _ _ _ _) as [j|f]; [|done]. destruct H as (Hp & Hm & Hg & ->).
  split_and!; [done..|]. intros i Hi. destruct (group_pow2 bs Hp) as (k & Hk & Hgk).
  apply (jump_at_of _ _ (group_pos bs Hp) Hb ibuf k i); done || lia.
Qed.

Lemma jump_table_correct_witness :
  let ibuf := [100; 200; 40000; 7] in
  exists j, build ibuf 512 32768 true = Ok j /\ groups_ok (group_of 32768) ibuf /\
    forall i, 0 <= i ->
      jump_at j i = if i <=? zlen ibuf then Ok (512 + zsum (ztake i ibuf)) else Err Undefined.
Proof.
  intros ibuf. assert (Forall (fun e => 0 <= e) ibuf) as He by (repeat constructor; lia).
  assert (512 + zsum ibuf < 2 ^ 64) as Hs by (vm_compute; reflexivity).
  pose proof (jump_table_correct ibuf 512 32768 true ltac:(lia) ltac:(lia) He Hs) as H.
  assert (exists j, build ibuf 512 32768 true = Ok j) as [j Hj] by (eexists; vm_compute; reflexivity).
  rewrite Hj in H. exists j. split; [exact Hj|exact (proj2 (proj2 H))].
Defined.
