(* ===== verification/ZFile.v ===== *)
(** * The block codecs and the ZFile decompression view
    ([format/block_codec.cpp], [format/zfile.{hpp,cpp}])

    LZ4 and ZSTD are libraries: the functions the code calls are fields of
    [codec_lib], with their documented behaviour as the hypotheses of
    [codec_spec].  [pread] is the whole read path: batching of blocks into a
    window, checksums, direct and scratch decoding, and the shared cache of
    decoded blocks.  An opened file reads as the concatenation of its decoded
    blocks whatever the cache holds. *)
From S2P Require Import Prelude Bytes Crc32c Source ZFileFormat.

Open Scope Z_scope.

(** ** Codecs *)

(** The library calls; [None] is an error return.  The [int] arguments are
    passed as the caller's cast leaves them. *)
Record codec_lib := CodecLib {
  lz4_decompress_safe : bytes -> Z -> Z -> option bytes;   (* src, src_len, dst_capacity *)
  lz4_compress_default : bytes -> Z -> Z -> option bytes;  (* src, src_len, dst_capacity *)
  lz4_compressBound : Z -> Z;
  zstd_decompress : bytes -> Z -> option bytes;            (* src, dst_capacity *)
  zstd_compress : bytes -> Z -> Z -> option bytes;         (* src, dst_capacity, level *)
  zstd_compressBound : Z -> Z;
  have_zstd : bool;                                        (* OBD_HAVE_ZSTD *)
}.

Definition i32 (x : Z) : Z := (x + 2 ^ 31) mod 2 ^ 32 - 2 ^ 31.

Definition E2BIG : Z := 7.
Definition LZ4_MAX_INPUT_SIZE : Z := 0x7E000000.

Inductive BlockCodec := Lz4Codec | ZstdCodec (level : Z).

Section codec.
Context (lib : codec_lib).

Definition lz4_decompress (src : bytes) (dst_capacity expected : Z) : res bytes :=
  if dst_capacity <? expected then Err (Errno EOVERFLOW)
  else match lz4_decompress_safe lib src (i32 (zlen src)) (i32 dst_capacity) with
       | None => Err (Errno EIO)
       | Some d => if negb (zlen d =? expected) then Err (Errno EINVAL) else Ok d
       end.

Definition lz4_compress_bound (src_len : Z) : Z := u64 (lz4_compressBound lib (i32 src_len)).

Definition lz4_compress (src : bytes) (dst_capacity : Z) : res bytes :=
  if LZ4_MAX_INPUT_SIZE <? zlen src then Err (Errno E2BIG)
  else if dst_capacity <? lz4_compress_bound (zlen src) then Err (Errno EOVERFLOW)
  else match lz4_compress_default lib src (i32 (zlen src)) (i32 dst_capacity) with
       | None => Err (Errno EIO)
       | Some c => if zlen c <=? 0 then Err (Errno EIO) else Ok c
       end.

Definition zstd_decompress_block (src : bytes) (dst_capacity expected : Z) : res bytes :=
  if dst_capacity <? expected then Err (Errno EOVERFLOW)
  else match zstd_decompress lib src expected with
       | None => Err (Errno EIO)
       | Some d => if negb (zlen d =? expected) then Err (Errno EINVAL) else Ok d
       end.

Definition zstd_compress_block (level : Z) (src : bytes) (dst_capacity : Z) : res bytes :=
  if dst_capacity <? zstd_compressBound lib (zlen src) then Err (Errno EOVERFLOW)
  else match zstd_compress lib src dst_capacity level with
       | None => Err (Errno EIO)
       | Some c => Ok c
       end.

Definition decompress (c : BlockCodec) : bytes -> Z -> Z -> res bytes :=
  match c with Lz4Codec => lz4_decompress | ZstdCodec _ => zstd_decompress_block end.
Definition compress (c : BlockCodec) : bytes -> Z -> res bytes :=
  match c with Lz4Codec => lz4_compress | ZstdCodec level => zstd_compress_block level end.
Definition compress_bound (c : BlockCodec) : Z -> Z :=
  match c with Lz4Codec => lz4_compress_bound | ZstdCodec _ => zstd_compressBound lib end.

Definition create_block_codec (algo level : Z) : option BlockCodec :=
  if algo =? kAlgoLz4 then Some Lz4Codec
  else if (algo =? kAlgoZstd) && have_zstd lib then
    Some (ZstdCodec (if negb (level =? 0) then level else 3))
  else None.

Definition block_codec_available (algo : Z) : bool :=
  if algo =? kAlgoLz4 then true
  else if (algo =? kAlgoZstd) && have_zstd lib then true else false.
End codec.

(** ** Probing *)

Definition is_zfile {W} (src : BlobSource W) : io W bool :=
  if src_size src <? kSpace * 2 then mret false
  else
    r ← io_try (src_pread src kSpace 0);
    match r with
    | inr _ => mret false
    | inl region =>
        if negb (zlen region =? kSpace) then mret false
        else if negb (bool_decide (sub 0 8 region = kMagic0)) ||
                negb (bool_decide (sub 8 16 region = kMagic1)) then mret false
        else match parse region with
             | Ok ht => mret (region_digest_ok ht region)
             | Err _ => mret false
             end
    end.

(** ** The view and its decoded-block cache *)

(** A slot keeps the block number and a shared buffer, null at first. *)
Record decoded_cache := DC {
  dc_decoded : list (Z * option bytes);
  dc_replacement : Z;
  dc_seen : list Z;
  dc_seen_count : Z;
  dc_seen_next : Z;
}.

Definition cache_empty : decoded_cache := DC (replicate 8 (0, None)) 0 (replicate 16 0) 0 0.

Record ZFileSource (W : Type) := ZFile {
  zf_src : BlobSource W;
  zf_ht : HeaderTrailer;
  zf_jump : JumpTable;
  zf_codec : BlockCodec;
  zf_verify : bool;
  zf_block_size : Z;
}.
Arguments ZFile {W}.
Arguments zf_src {W}.
Arguments zf_ht {W}.
Arguments zf_jump {W}.
Arguments zf_codec {W}.
Arguments zf_verify {W}.
Arguments zf_block_size {W}.

(** The [u32] entries of the index region. *)
Definition load_index (raw_index : bytes) (n : Z) : list Z :=
  (fun i => load_u32_le raw_index (i * 4)) <$> seqZ 0 n.

Section open.
Context {W : Type} (lib : codec_lib).

Definition zfile_open (src : BlobSource W) (verify : bool) : io W (ZFileSource W) :=
  let file_size := src_size src in
  if file_size <? kSpace * 2 then io_fail (Errno EINVAL)
  else
    region ← read_exact src kSpace 0;
    ht ← io_lift (parse region);
    if negb (is_header ht) then io_fail (Errno EINVAL)
    else if negb (region_digest_ok ht region) then io_fail (Errno EINVAL)
    else
      et ← (if negb (is_header_overwrite ht) then
              if negb (is_data_file ht) then io_fail (Errno EINVAL)
              else
                let trailer_offset := file_size - kSpace in
                tregion ← read_exact src kSpace trailer_offset;
                tht ← io_lift (parse tregion);
                if negb (is_trailer tht) || negb (is_data_file tht) || negb (is_sealed tht)
                then io_fail (Errno EINVAL)
                else mret (tht, trailer_offset)
            else mret (ht, 0));
      let '(effective, trailer_offset) := et : HeaderTrailer * Z in
      if kMaxIndexSize <? z_index_size effective then io_fail (Errno EINVAL)
      else
        let index_bytes := u64 (z_index_size effective * 4) in
        if negb (is_header_overwrite ht) &&
           (u64 (trailer_offset - z_index_offset effective) <? index_bytes)
        then io_fail (Errno EINVAL)
        else if negb (o_use_dict (z_opt effective) =? 0) || negb (o_dict_size (z_opt effective) =? 0)
        then io_fail (Errno EINVAL)
        else if negb (block_codec_available lib (o_algo (z_opt effective)))
        then io_fail (Errno EINVAL)
        else
          raw_index ← (if 0 <? index_bytes
                       then read_exact src index_bytes (z_index_offset effective)
                       else mret []);
          if is_digest_enabled effective &&
             negb (crc32c false 0 raw_index =? z_index_crc effective)
          then io_fail (Errno EINVAL)
          else
            let ibuf := load_index raw_index (z_index_size effective) in
            jump ← io_lift (build ibuf (kSpace + o_dict_size (z_opt effective))
                              (o_block_size (z_opt effective))
                              (negb (o_verify (z_opt effective) =? 0)));
            match create_block_codec lib (o_algo (z_opt effective)) (o_level (z_opt effective)) with
            | None => io_fail Undefined
            | Some codec =>
                mret (ZFile src effective jump codec
                        (negb (o_verify (z_opt effective) =? 0) && verify)
                        (o_block_size (z_opt effective)))
            end.
End open.

(** ** Reads *)

Definition decoded_find (dc : decoded_cache) (index : Z) : option bytes :=
  head (omap (fun e => if fst e =? index then snd e else None) (dc_decoded dc)).

(** [decoded_get]: the buffer, and the new value of [admit]. *)
Definition decoded_get (dc : decoded_cache) (index : Z) : option bytes * bool * decoded_cache :=
  match decoded_find dc index with
  | Some bs => (Some bs, false, dc)
  | None =>
      if existsb (fun k => k =? index) (ztake (dc_seen_count dc) (dc_seen dc))
      then (None, true, dc)
      else (None, false,
            DC (dc_decoded dc) (dc_replacement dc)
               (<[Z.to_nat (dc_seen_next dc) := index]> (dc_seen dc))
               (Z.min (dc_seen_count dc + 1) (zlen (dc_seen dc)))
               ((dc_seen_next dc + 1) mod zlen (dc_seen dc)))
  end.

Definition decoded_put (dc : decoded_cache) (index : Z) (data : option bytes) : decoded_cache :=
  match decoded_find dc index with
  | Some _ => dc
  | None =>
      DC (<[Z.to_nat (dc_replacement dc) := (index, data)]> (dc_decoded dc))
         ((dc_replacement dc + 1) mod zlen (dc_decoded dc))
         (dc_seen dc) (dc_seen_count dc) (dc_seen_next dc)
  end.

(** [memcpy] out of a buffer. *)
Definition mem_read (buf : bytes) (pos n : Z) : res bytes :=
  if (0 <=? pos) && (0 <=? n) && (pos + n <=? zlen buf) then Ok (sub pos n buf)
  else Err Undefined.

(** The scratch buffer of a request: none yet, private, or the one shared with
    the cache, which nobody may write once it is published. *)
Inductive scratch := NoScratch | Local | Retained (published : bool).

Record request := Req {
  rq_out : bytes;
  rq_done : Z;
  rq_scratch : scratch;
}.

Section read.
Context {W : Type} (lib : codec_lib) (z : ZFileSource W).
Let bs := zf_block_size z.
Let fsize := z_original_file_size (zf_ht z).

(** Checksum and decompression of one block out of the window. *)
Definition decode_block (window : bytes) (off_in_win blk_len dcapacity blk_uncomp : Z) : res bytes :=
  comp_len ← (if zf_verify z then
                let comp_len := u64 (blk_len - 4) in
                crc ← mem_read window (off_in_win + comp_len) 4;
                data ← mem_read window off_in_win comp_len;
                if negb (crc32c_salt false 0 data =? load_u32_le crc 0)
                then Err (Errno EIO) else Ok comp_len
              else Ok blk_len);
  data ← mem_read window off_in_win comp_len;
  decompress lib (zf_codec z) data dcapacity blk_uncomp.

(** One iteration of the loop over the blocks of a window. *)
Definition block_step (offset count pos : Z) (window : bytes) (begin_idx : Z) (admitted : bool)
    (i : Z) (rq : request) : io (decoded_cache * W) request :=
  j_begin ← io_lift (jump_at (zf_jump z) begin_idx);
  j_i ← io_lift (jump_at (zf_jump z) i);
  j_next ← io_lift (jump_at (zf_jump z) (i + 1));
  let off_in_win := u64 (j_i - j_begin) in
  let blk_len := u64 (j_next - j_i) in
  let blk_start := u64 (i * bs) in
  let blk_uncomp := Z.min bs (u64 (fsize - blk_start)) in
  let abs_from := Z.max pos blk_start in
  let abs_to := Z.min (offset + count) (blk_start + blk_uncomp) in
  let in_start := u64 (abs_from - blk_start) in
  let in_len := u64 (abs_to - abs_from) in
  let direct := (in_start =? 0) && (in_len =? blk_uncomp) in
  let scr := if negb direct then
               match rq_scratch rq with
               | NoScratch => if admitted then Retained false else Local
               | s => s
               end
             else rq_scratch rq in
  let dcapacity := if direct then in_len else bs in
  data ← io_lift (decode_block window off_in_win blk_len dcapacity blk_uncomp);
  if negb direct && match scr with Retained true => true | _ => false end
  then io_fail Undefined  (* decoding over a published buffer *)
  else
    _ ← io_run (fun '(dc, w) =>
          if admitted then
            (Ok tt, (decoded_put dc i match scr with
                                      | Retained _ => Some data
                                      | _ => None
                                      end, w))
          else (Ok tt, (dc, w)));
    let scr := if admitted then match scr with Retained _ => Retained true | s => s end else scr in
    piece ← io_lift (if negb direct then mem_read data in_start in_len else Ok data);
    out ← io_lift (mem_write (rq_out rq) (rq_done rq) piece);
    mret (Req out (rq_done rq + in_len) scr).

Fixpoint blocks_loop (offset count pos : Z) (window : bytes) (begin_idx : Z) (admitted : bool)
    (n : nat) (i : Z) (rq : request) : io (decoded_cache * W) request :=
  match n with
  | O => mret rq
  | S n => rq ← block_step offset count pos window begin_idx admitted i rq;
           blocks_loop offset count pos window begin_idx admitted n (i + 1) rq
  end.

Definition kReadWindow : Z := 512 * 1024.

(** [while (end_idx <= last_idx && jump_[end_idx] - jump_[begin_idx] <= kReadWindow)] *)
Fixpoint batch_end (fuel : nat) (begin_idx last_idx end_idx : Z) : res Z :=
  match fuel with
  | O => Err Fuel
  | S fuel =>
      if last_idx <? end_idx then Ok end_idx
      else
        j_end ← jump_at (zf_jump z) end_idx;
        j_begin ← jump_at (zf_jump z) begin_idx;
        if u64 (j_end - j_begin) <=? kReadWindow
        then batch_end fuel begin_idx last_idx (end_idx + 1)
        else Ok end_idx
  end.

(** The read of the underlying source, on its part of the world. *)
Definition on_source {A} (m : io W A) : io (decoded_cache * W) A :=
  fun '(dc, w) => let '(r, w') := m w in (r, (dc, w')).

(** [while (done < count)] *)
Fixpoint pread_loop (fuel : nat) (offset count : Z) (admitted : bool) (rq : request)
  : io (decoded_cache * W) bytes :=
  match fuel with
  | O => io_fail Fuel
  | S fuel =>
      if rq_done rq <? count then
        let pos := offset + rq_done rq in
        let begin_idx := pos / bs in
        let last_idx := (offset + count - 1) / bs in
        end_idx ← io_lift (batch_end (S (Z.to_nat (last_idx - begin_idx + 1)))
                             begin_idx last_idx (begin_idx + 1));
        j_begin ← io_lift (jump_at (zf_jump z) begin_idx);
        j_end ← io_lift (jump_at (zf_jump z) end_idx);
        let comp_total := u64 (j_end - j_begin) in
        window ← on_source (src_pread (zf_src z) comp_total j_begin);
        if negb (zlen window =? comp_total) then io_fail (Errno EIO)
        else
          rq ← blocks_loop offset count pos window begin_idx admitted
                 (Z.to_nat (end_idx - begin_idx)) begin_idx rq;
          pread_loop fuel offset count admitted rq
      else mret (rq_out rq)
  end.

(** A successful read is the bytes it placed at the front of the buffer. *)
Definition zfile_pread (count offset : Z) : io (decoded_cache * W) bytes :=
  if fsize <=? offset then mret []
  else
    let count := if fsize - offset <? count then fsize - offset else count in
    if count =? 0 then mret []
    else
      let cache_index := offset / bs in
      let cache_offset := offset mod bs in
      let decoded_size := Z.min bs (u64 (fsize - u64 (cache_index * bs))) in
      let cacheable := (count <? decoded_size) && (count <=? decoded_size - cache_offset) in
      hit ← (if cacheable then io_run (fun '(dc, w) =>
               let '(hit, admitted, dc) := decoded_get dc cache_index in (Ok (hit, admitted), (dc, w)))
             else mret (None, false));
      match hit : option bytes * bool with
      | (Some bytes, _) => io_lift (mem_read bytes cache_offset count)
      | (None, admitted) =>
          pread_loop (S (Z.to_nat count)) offset count admitted (Req (uninit count) 0 NoScratch)
      end.

(** The view as a source whose world includes the cache. *)
Definition zfile_source : BlobSource (decoded_cache * W) := Src fsize zfile_pread.
End read.

(** ** The codec contract *)

(** What the decoder is documented to promise: a larger destination does not
    change the outcome of a decoding that fits. *)
Class codec_spec (lib : codec_lib) : Prop := {
  lz4_room : forall src n cap cap' d, 0 <= cap <= cap' ->
    lz4_decompress_safe lib src n cap = Some d -> lz4_decompress_safe lib src n cap' = Some d;
}.

Lemma i32_small x : 0 <= x < 2 ^ 31 -> i32 x = x.
Proof. intros. unfold i32. rewrite Z.mod_small by lia. lia. Qed.

Section codec_facts.
Context (lib : codec_lib).

Lemma decompress_size c src cap u d : decompress lib c src cap u = Ok d -> zlen d = u.
Proof.
  destruct c; simpl; unfold lz4_decompress, zstd_decompress_block; repeat case_match;
    intros; bool_hyps; simplify_eq; done.
Qed.

Lemma decompress_errno c src cap u : res_errno (decompress lib c src cap u).
Proof.
  destruct c; simpl; unfold lz4_decompress, zstd_decompress_block; repeat case_match; auto with errno.
Qed.

Lemma decompress_room `{!codec_spec lib} c src cap u d :
  0 <= u <= cap -> cap <= 65536 ->
  decompress lib c src u u = Ok d -> decompress lib c src cap u = Ok d.
Proof.
  intros Hu Hc. destruct c; simpl; unfold lz4_decompress, zstd_decompress_block;
    rewrite (proj2 (Z.ltb_ge cap u)), Z.ltb_irrefl by lia; [|done].
  rewrite (i32_small u), (i32_small cap) by lia. destruct (lz4_decompress_safe _ _ _ u) eqn:E; [|done].
  by rewrite (lz4_room _ _ u cap _ ltac:(lia) E).
Qed.

Lemma codec_available algo level :
  block_codec_available lib algo = true -> exists c, create_block_codec lib algo level = Some c.
Proof.
  unfold block_codec_available, create_block_codec. intros H. repeat case_match; eauto; done.
Qed.
End codec_facts.

(** ** Blocks *)

Lemma mem_read_ok buf pos n : 0 <= pos -> 0 <= n -> pos + n <= zlen buf -> mem_read buf pos n = Ok (sub pos n buf).
Proof.
  intros. unfold mem_read. by rewrite !(proj2 (Z.leb_le _ _)) by lia.
Qed.

Lemma sub_sub {A} p n q m (l : list A) :
  0 <= p -> 0 <= q -> 0 <= m -> q + m <= n -> sub q m (sub p n l) = sub (p + q) m l.
Proof.
  intros. unfold sub, ztake, zdrop. rewrite skipn_firstn_comm, take_take, drop_drop.
  replace (Nat.min (Z.to_nat m) (Z.to_nat n - Z.to_nat q)) with (Z.to_nat m) by lia.
  do 2 f_equal. lia.
Qed.

Section blocks.
Context {W : Type} (lib : codec_lib) (z : ZFileSource W).

(** The compressed bytes of a block, its checksum verified and removed. *)
Definition block_data (raw : bytes) : res bytes :=
  if zf_verify z then
    let data := ztake (zlen raw - 4) raw in
    if negb (crc32c_salt false 0 data =? load_u32_le (zdrop (zlen raw - 4) raw) 0)
    then Err (Errno EIO) else Ok data
  else Ok raw.

Lemma block_data_errno raw : res_errno (block_data raw).
Proof. unfold block_data. repeat case_match; auto with errno. Qed.

Definition decode (cap u : Z) (raw : bytes) : res bytes :=
  data ← block_data raw; decompress lib (zf_codec z) data cap u.

Lemma decode_errno cap u raw : res_errno (decode cap u raw).
Proof. apply res_errno_bind; [apply block_data_errno|intros; apply decompress_errno]. Qed.
Lemma decode_size cap u raw d : decode cap u raw = Ok d -> zlen d = u.
Proof. intros (x & _ & H)%res_bind_ok. by eapply decompress_size. Qed.
Lemma decode_room `{!codec_spec lib} cap u raw d :
  0 <= u <= cap -> cap <= 65536 -> decode u u raw = Ok d -> decode cap u raw = Ok d.
Proof.
  intros ?? (x & Hx & H)%res_bind_ok. unfold decode. rewrite Hx. by eapply decompress_room.
Qed.

Lemma decode_block_window window off len cap u :
  0 <= off -> (if zf_verify z then 4 else 0) <= len < 2 ^ 64 -> off + len <= zlen window ->
  decode_block lib z window off len cap u = decode cap u (sub off len window).
Proof.
  intros Ho Hl Hw. unfold decode_block, decode, block_data.
  assert (zlen (sub off len window) = len) as Hz by (len; case_match; lia).
  destruct (zf_verify z); simpl.
  - rewrite u64_small by lia. rewrite Hz, !mem_read_ok by lia. simpl.
    replace (ztake (len - 4) (sub off len window)) with (sub off (len - 4) window)
      by (rewrite <- (Z.add_0_r off) at 1; rewrite <- (sub_sub off len 0) by lia; done).
    replace (zdrop (len - 4) (sub off len window)) with (sub (off + (len - 4)) 4 window)
      by (rewrite <- (sub_sub off len (len - 4)) by lia; unfold sub; apply ztake_all; len).
    case_if; [done|]. simpl. by rewrite mem_read_ok by lia.
  - rewrite mem_read_ok by lia. done.
Qed.
End blocks.

Lemma sub_of_slice {A} (f : Z -> A) a m off n :
  0 <= off -> 0 <= n -> off + n <= m -> sub off n (slice f a m) = slice f (a + off) n.
Proof.
  intros. replace m with (off + (n + (m - off - n))) by lia.
  rewrite !slice_app by lia. unfold sub. rewrite zdrop_app_exact by len.
  apply ztake_app_exact. len.
Qed.

(** ** The content of an opened file *)

Section content.
Context {W : Type} (lib : codec_lib) (z : ZFileSource W) (sc : Z -> Z) (ibuf : list Z).
Abbreviation bs := (zf_block_size z).
Abbreviation fsize := (z_original_file_size (zf_ht z)).

(** Where block [i] lies in the file, and its uncompressed size. *)
Definition blk_pos (i : Z) : Z := block_pos kSpace ibuf i.
Definition blk_size (i : Z) : Z := Z.min bs (fsize - i * bs).
Definition blk_raw (i : Z) : bytes := slice sc (blk_pos i) (blk_pos (i + 1) - blk_pos i).
(** Block [i] decoded into a buffer of [cap] bytes. *)
Definition blk_decode (cap i : Z) : res bytes := decode lib z cap (blk_size i) (blk_raw i).
Definition zcontent (k : Z) : Z :=
  match blk_decode bs (k / bs) with Ok d => bget d (k mod bs) | Err _ => 0 end.

(** What [open] establishes, and that the index covers the declared size. *)
Record zfile_ok : Prop := {
  zf_pow2 : pow2_size bs;
  zf_entries : Forall (fun e => (if zf_verify z then 4 else 0) < e) ibuf;
  zf_fits : kSpace + zsum ibuf < 2 ^ 63;
  zf_jump_ok : forall i, 0 <= i ->
    jump_at (zf_jump z) i = if i <=? zlen ibuf then Ok (blk_pos i) else Err Undefined;
  zf_fsize : 0 <= fsize < 2 ^ 63;
  zf_covered : fsize <= zlen ibuf * bs;
}.

Context (Hok : zfile_ok).

Lemma bs_pos : 0 < bs <= 65536.
Proof.
  destruct (zf_pow2 Hok) as (k & Hk & ->). pose proof (Z.pow_pos_nonneg 2 k ltac:(lia) ltac:(lia)).
  pose proof (Z.pow_le_mono_r 2 k 16 ltac:(lia) ltac:(lia)). lia.
Qed.

Lemma blk_pos_next i :
  0 <= i < zlen ibuf -> blk_pos i + (if zf_verify z then 4 else 0) < blk_pos (i + 1).
Proof.
  intros Hi. unfold blk_pos, block_pos.
  destruct (lookup_lt_is_Some_2 ibuf (Z.to_nat i)) as [e He]; [unfold zlen in Hi; lia|].
  unfold ztake. replace (Z.to_nat (i + 1)) with (S (Z.to_nat i)) by lia.
  rewrite (take_S_r _ _ e) by done. rewrite zsum_app. simpl.
  pose proof (zf_entries Hok) as Hf. rewrite Forall_lookup in Hf. specialize (Hf _ _ He). simpl in Hf.
  lia.
Qed.

Lemma blk_pos_mono i j : 0 <= i <= j -> j <= zlen ibuf -> blk_pos i <= blk_pos j.
Proof.
  intros [Hi Hij] Hj. unfold blk_pos, block_pos.
  replace (ztake j ibuf) with (ztake i ibuf ++ sub i (j - i) ibuf).
  - rewrite zsum_app. assert (0 <= zsum (sub i (j - i) ibuf)); [|lia]. apply zsum_nonneg.
    unfold sub, ztake, zdrop. apply Forall_take, Forall_drop.
    eapply Forall_impl; [apply (zf_entries Hok)|]. simpl. intros x. case_match; lia.
  - unfold sub, ztake, zdrop. rewrite take_drop_commute.
    replace (Z.to_nat i + Z.to_nat (j - i))%nat with (Z.to_nat j) by lia.
    rewrite <- (take_drop (Z.to_nat i) (take (Z.to_nat j) ibuf)) at 2. f_equal.
    rewrite take_take. f_equal. lia.
Qed.

Lemma blk_pos_range i : 0 <= i <= zlen ibuf -> kSpace <= blk_pos i < 2 ^ 63.
Proof.
  intros Hi. pose proof (blk_pos_mono 0 i ltac:(lia) ltac:(lia)).
  pose proof (blk_pos_mono i (zlen ibuf) ltac:(lia) ltac:(lia)). pose proof (zf_fits Hok).
  unfold blk_pos, block_pos in *. rewrite (ztake_all (zlen ibuf)) in * by lia.
  change (ztake 0 ibuf) with (@nil Z) in *. simpl in *. lia.
Qed.

(** A block inside the declared size has an index entry. *)
Lemma blk_covered i : 0 <= i -> i * bs < fsize -> i < zlen ibuf.
Proof. intros Hi Hb. pose proof (zf_covered Hok). pose proof bs_pos. nia. Qed.

Lemma blk_size_range i : 0 <= i -> i * bs < fsize -> 0 < blk_size i <= bs.
Proof. intros. unfold blk_size. pose proof bs_pos. lia. Qed.

Lemma zcontent_block i d a n :
  blk_decode bs i = Ok d -> 0 <= i -> 0 <= a -> 0 <= n -> a + n <= blk_size i ->
  slice zcontent (i * bs + a) n = sub a n d.
Proof.
  intros Hd Hi Ha Hn Hl. pose proof bs_pos. pose proof (decode_size lib z _ _ _ _ Hd) as Hz.
  rewrite sub_slice by lia. apply list_eq_bget; [len|].
  intros k Hk. rewrite zlen_slice in Hk. rewrite !bget_slice by lia. unfold zcontent.
  assert (blk_size i <= bs) by (unfold blk_size; lia).
  replace (i * bs + a + k) with ((a + k) + i * bs) by lia.
  rewrite Z.div_add, Z.mod_add, Z.div_small, Z.mod_small, Z.add_0_l, Hd by lia. done.
Qed.
End content.

(** ** The cache *)

Section cache.
Context (P : Z -> bytes -> Prop).

(** Every published buffer holds its block. *)
Definition cache_holds (dc : decoded_cache) : Prop :=
  Forall (fun e => match snd e with Some b => P (fst e) b | None => True end) (dc_decoded dc).

Lemma cache_find_ok dc i b : cache_holds dc -> decoded_find dc i = Some b -> P i b.
Proof.
  unfold cache_holds, decoded_find. induction 1 as [|[k ob] l Hk Hl IH]; simpl; [done|].
  simpl in Hk. destruct (Z.eqb_spec k i) as [->|]; [|exact IH].
  destruct ob as [d|]; [|exact IH]. simpl. by intros [= ->].
Qed.

Lemma cache_get_ok dc i b a dc' :
  cache_holds dc -> decoded_get dc i = (b, a, dc') ->
  cache_holds dc' /\ (forall d, b = Some d -> P i d).
Proof.
  intros H. unfold decoded_get. destruct (decoded_find dc i) eqn:E; [|repeat case_match];
    intros [= <- <- <-]; split; try done; intros d [= <-]. by eapply cache_find_ok.
Qed.

Lemma cache_put_ok dc i b : cache_holds dc -> P i b -> cache_holds (decoded_put dc i (Some b)).
Proof.
  intros H HP. unfold decoded_put. destruct (decoded_find dc i); [done|].
  unfold cache_holds. simpl. apply Forall_insert; done.
Qed.

Lemma cache_empty_ok : cache_holds cache_empty.
Proof. by repeat constructor. Qed.
End cache.

(** The two rings never leave their arrays. *)
Definition cache_wf (dc : decoded_cache) : Prop :=
  zlen (dc_decoded dc) = 8 /\ 0 <= dc_replacement dc < 8 /\
  zlen (dc_seen dc) = 16 /\ 0 <= dc_seen_next dc < 16 /\ 0 <= dc_seen_count dc <= 16.

Lemma zlen_insert {A} i (x : A) l : zlen (<[i:=x]> l) = zlen l.
Proof. unfold zlen. by rewrite length_insert. Qed.

Lemma cache_get_wf dc i b a dc' : cache_wf dc -> decoded_get dc i = (b, a, dc') -> cache_wf dc'.
Proof.
  intros (H1 & H2 & H3 & H4 & H5). unfold decoded_get. repeat case_match; intros [= <- <- <-];
    unfold cache_wf; simpl; rewrite ?zlen_insert, ?H3; split_and!; try lia;
    apply Z.mod_pos_bound; lia.
Qed.

Lemma cache_put_wf dc i b : cache_wf dc -> cache_wf (decoded_put dc i b).
Proof.
  intros (H1 & H2 & H3 & H4 & H5). unfold decoded_put. case_match; unfold cache_wf; simpl;
    rewrite ?zlen_insert, ?H1; split_and!; try lia; apply Z.mod_pos_bound; lia.
Qed.

(** ** The read path *)

Section read_proof.
Context {W : Type} (E : fail -> Prop) (lib : codec_lib) `{!codec_spec lib}.
Context (z : ZFileSource W) (sc : Z -> Z) (ibuf : list Z).
Context (Hsrc : SourceSpec E (zf_src z) sc) (Hok : zfile_ok z ibuf).
Abbreviation bs := (zf_block_size z).
Abbreviation fsize := (z_original_file_size (zf_ht z)).
Abbreviation bpos := (blk_pos ibuf).
Abbreviation usize := (blk_size z).
Abbreviation dec := (blk_decode lib z sc ibuf).
Abbreviation content := (zcontent lib z sc ibuf).

Definition cache_ok (x : decoded_cache * W) : Prop :=
  cache_wf (fst x) /\ cache_holds (fun i b => 0 <= i /\ dec bs i = Ok b) (fst x).

(** A failure of the source, of a block of the request that does not decode
    into a buffer of its size, or of a block that lies past the end of the file. *)
Definition read_fail (offset count : Z) (f : fail) : Prop :=
  E f \/ any_errno f /\
    (exists i, offset / bs <= i <= (offset + count - 1) / bs /\ forall d, dec (usize i) i <> Ok d) \/
  f = Errno EIO /\ src_size (zf_src z) < bpos ((offset + count - 1) / bs + 1).

Lemma jump_ok i : 0 <= i <= zlen ibuf -> jump_at (zf_jump z) i = Ok (bpos i).
Proof.
  intros Hi. rewrite (zf_jump_ok _ _ Hok) by lia. by rewrite (proj2 (Z.leb_le _ _)) by lia.
Qed.

(** Continues a binding with a computation that is known to succeed. *)
Lemma inv_lift_bind {A B} I F (r : res A) a (k : A -> io (decoded_cache * W) B) Q :
  r = Ok a -> io_inv I F (k a) Q -> io_inv I F (io_lift r ≫= k) Q.
Proof. by intros ->. Qed.

Section request.
Context (offset count : Z).
Context (Ho : 0 <= offset) (Hc : 0 < count) (Hend : offset + count <= fsize).
Abbreviation last_idx := ((offset + count - 1) / bs).
Abbreviation fails := (read_fail offset count).

Lemma touched_block i : offset / bs <= i <= last_idx -> 0 <= i /\ i * bs < offset + count.
Proof.
  intros Hi. pose proof (bs_pos z ibuf Hok). pose proof (Z.div_pos offset bs Ho ltac:(lia)).
  pose proof (Z.mul_div_le (offset + count - 1) bs ltac:(lia)). nia.
Qed.

(** The scratch buffer before a block is decoded. *)
Definition scratch_ok (admitted : bool) (s : scratch) : Prop :=
  match s with NoScratch => True | Local => admitted = false | Retained _ => False end.

(** The request before block [i], of a batch that starts at [pos]. *)
Definition at_block (pos i : Z) (rq : request) : Prop :=
  rq_out rq = filled content offset (rq_done rq) count /\
  offset + rq_done rq = Z.max pos (i * bs) /\ 0 <= rq_done rq < count.

Lemma decode_touched i cap :
  offset / bs <= i <= last_idx -> cap = bs \/ cap = usize i ->
  match dec cap i with
  | Ok d => dec bs i = Ok d /\ zlen d = usize i
  | Err f => fails f
  end.
Proof.
  intros Hi Hcap. destruct (touched_block i Hi) as [H0 Hlt].
  pose proof (bs_pos z ibuf Hok) as Hbs. pose proof (blk_size_range z ibuf Hok i H0 ltac:(lia)) as Hu.
  assert (forall d, dec (usize i) i = Ok d -> dec bs i = Ok d) as Hroom
    by (intros d; apply (decode_room lib z bs); lia).
  pose proof (decode_errno lib z cap (usize i) (blk_raw sc ibuf i)) as He.
  fold (dec cap i) in He. destruct (dec cap i) as [d|f] eqn:Ed; simpl in He.
  - destruct Hcap as [->| ->]; (split; [by auto|by eapply decode_size]).
  - right; left. split; [done|]. exists i. split; [done|]. intros d Hd.
    destruct Hcap as [->| ->]; [apply Hroom in Hd|]; congruence.
Qed.

(** The window holds block [i]. *)
Lemma window_block b e i :
  0 <= b <= i -> i < e -> e <= zlen ibuf ->
  bpos b <= bpos i /\ bpos i <= bpos (i + 1) /\ bpos (i + 1) <= bpos e /\
  sub (bpos i - bpos b) (bpos (i + 1) - bpos i) (slice sc (bpos b) (bpos e - bpos b)) = blk_raw sc ibuf i.
Proof.
  intros Hb Hi He. pose proof (blk_pos_mono z ibuf Hok b i ltac:(lia) ltac:(lia)).
  pose proof (blk_pos_mono z ibuf Hok i (i + 1) ltac:(lia) ltac:(lia)).
  pose proof (blk_pos_mono z ibuf Hok (i + 1) e ltac:(lia) ltac:(lia)).
  split_and!; [done..|]. rewrite sub_of_slice by lia. unfold blk_raw. f_equal. lia.
Qed.

(** The part of block [i] a batch from [pos] still needs. *)
Lemma block_range pos b i done :
  pos = Z.max offset (b * bs) -> offset / bs <= b <= i -> i <= last_idx ->
  offset + done = Z.max pos (i * bs) -> 0 <= done < count ->
  let to := Z.min (offset + count) (i * bs + usize i) in
  to = Z.min (offset + count) ((i + 1) * bs) /\ i * bs <= offset + done < to /\
  to - i * bs <= usize i.
Proof.
  intros Hpos Hb Hi Hd Hdone. pose proof (bs_pos z ibuf Hok) as Hbs.
  destruct (touched_block i ltac:(lia)) as [H0 Hlt]. unfold blk_size. cbv zeta.
  pose proof (Z.div_mod offset bs ltac:(lia)). pose proof (Z.mod_pos_bound offset bs ltac:(lia)).
  split; [lia|]. split; [|lia]. split; [lia|]. nia.
Qed.

(** The decoding of block [i] out of its window. *)
Lemma block_decode b e i cap :
  offset / bs <= b <= i -> i < e -> e <= last_idx + 1 ->
  jump_at (zf_jump z) b = Ok (bpos b) /\ jump_at (zf_jump z) i = Ok (bpos i) /\
  jump_at (zf_jump z) (i + 1) = Ok (bpos (i + 1)) /\
  decode_block lib z (slice sc (bpos b) (bpos e - bpos b)) (u64 (bpos i - bpos b))
    (u64 (bpos (i + 1) - bpos i)) cap (Z.min bs (u64 (fsize - u64 (i * bs)))) = dec cap i.
Proof.
  intros Hb Hi He. destruct (touched_block i ltac:(lia)) as [H0 Hlt].
  destruct (touched_block b ltac:(lia)) as [Hb0 _].
  assert (e <= zlen ibuf) as Hel.
  { destruct (touched_block (e - 1) ltac:(lia)) as [He0 Hel].
    pose proof (blk_covered z ibuf Hok (e - 1) He0 ltac:(lia)). lia. }
  destruct (window_block b e i ltac:(lia) Hi Hel) as (Hw1 & Hw2 & Hw3 & Hw).
  pose proof (bs_pos z ibuf Hok) as Hbs.
  pose proof (blk_pos_range z ibuf Hok b ltac:(lia)) as Hr1. unfold kSpace in Hr1.
  pose proof (blk_pos_range z ibuf Hok e ltac:(lia)) as Hr2.
  pose proof (blk_pos_next z ibuf Hok i ltac:(lia)) as Hnx.
  pose proof (zf_fsize z ibuf Hok) as Hfs.
  split_and!; [apply jump_ok; lia..|].
  rewrite !u64_small by (rewrite ?u64_small by lia; lia). fold (usize i).
  rewrite decode_block_window; [by rewrite Hw|lia|lia|rewrite zlen_slice; lia].
Qed.

Lemma block_step_ok pos b e admitted i rq :
  pos = Z.max offset (b * bs) -> offset / bs <= b <= i -> i < e -> e <= last_idx + 1 ->
  at_block pos i rq -> scratch_ok admitted (rq_scratch rq) -> (admitted = true -> count < usize i) ->
  io_inv cache_ok fails
    (block_step lib z offset count pos (slice sc (bpos b) (bpos e - bpos b)) b admitted i rq)
    (fun rq' => rq_out rq' = filled content offset (rq_done rq') count /\
       offset + rq_done rq' = Z.min (offset + count) ((i + 1) * bs) /\
       0 < rq_done rq' <= count /\ (admitted = false -> scratch_ok admitted (rq_scratch rq'))).
Proof.
  intros Hpos Hb Hi He (Hout & Hat & Hdone) Hscr Hadm.
  destruct (touched_block i ltac:(lia)) as [H0 Hlt].
  pose proof (bs_pos z ibuf Hok) as Hbs. pose proof (zf_fsize z ibuf Hok) as Hfs.
  destruct (block_range pos b i (rq_done rq)) as (Hto & Hfrom & Hin); [done|lia..|].
  unfold block_step.
  destruct (block_decode b e i 0 Hb Hi He) as (Hj1 & Hj2 & Hj3 & _).
  apply (inv_lift_bind _ _ _ _ _ _ Hj1), (inv_lift_bind _ _ _ _ _ _ Hj2), (inv_lift_bind _ _ _ _ _ _ Hj3).
  clear Hj1 Hj2 Hj3. cbv zeta.
  pose proof (fun cap => proj2 (proj2 (proj2 (block_decode b e i cap Hb Hi He)))) as Hdec.
  assert (Z.min bs (u64 (fsize - u64 (i * bs))) = usize i) as Hu
    by (rewrite !u64_small by (rewrite ?u64_small by lia; lia); done).
  rewrite Hu in *. rewrite (u64_small (i * bs)) in * by lia. rewrite <- Hat.
  set (to := Z.min (offset + count) (i * bs + usize i)) in *.
  rewrite (u64_small (offset + rq_done rq - i * bs)), (u64_small (to - (offset + rq_done rq))) by lia.
  set (st := offset + rq_done rq - i * bs) in *. set (n := to - (offset + rq_done rq)) in *.
  set (direct := (st =? 0) && (n =? usize i)).
  set (scr := if negb direct then _ else _).
  eapply io_inv_bind with (P := fun d => dec bs i = Ok d /\ zlen d = usize i).
  { rewrite Hdec. pose proof (decode_touched i (if direct then n else bs) ltac:(lia)) as Ht.
    assert ((if direct then n else bs) = bs \/ (if direct then n else bs) = usize i) as Hcap.
    { unfold direct. destruct (st =? 0); simpl; [|by left]. destruct (Z.eqb_spec n (usize i)); auto. }
    specialize (Ht Hcap). destruct (dec (if direct then n else bs) i) as [d|f];
      intros w Hw; split; done. }
  intros d [Hd Hz].
  assert (match scr with Retained true => true | _ => false end = false) as Hpub.
  { unfold scr. destruct direct, (rq_scratch rq), admitted; simpl in *; done. }
  rewrite Hpub, andb_false_r.
  assert (admitted = true -> exists p, scr = Retained p) as Hret.
  { intros Ha. specialize (Hadm Ha). unfold scr. replace direct with false; simpl.
    - destruct (rq_scratch rq); simpl in Hscr; [|congruence|done]. rewrite Ha. eauto.
    - symmetry. apply andb_false_intro2, Z.eqb_neq. lia. }
  eapply io_inv_bind with (P := fun _ => True).
  { intros [dc w] [Hwf Hhold]. unfold io_run. destruct admitted; [|by split].
    destruct (Hret eq_refl) as [p ->]. split; [|done]. split; [by apply cache_put_wf|].
    by apply cache_put_ok. }
  intros _ _.
  assert (sub st n d = slice content (offset + rq_done rq) n) as Hsub.
  { rewrite <- (zcontent_block lib z sc ibuf Hok i d st n) by (done || lia). f_equal. lia. }
  apply (inv_lift_bind _ _ _ (sub st n d)).
  { destruct direct eqn:Ed; simpl; [|apply mem_read_ok; lia].
    unfold direct in Ed. bool_hyps. f_equal. unfold sub. rewrite ztake_all; [|len].
    by replace st with 0 by lia. }
  apply (inv_lift_bind _ _ _ (filled content offset (rq_done rq + n) count)).
  { rewrite Hout. apply write_filled; [lia..|exact Hsub]. }
  apply io_inv_ret. simpl. split_and!; [done|lia..|].
  intros ->. unfold scr. destruct direct, (rq_scratch rq); simpl in *; done.
Qed.

(** A request the cache admits lies inside one block. *)
Definition admits (admitted : bool) (s : scratch) : Prop :=
  scratch_ok admitted s /\ (admitted = true -> last_idx = offset / bs /\ count < usize (offset / bs)).

Lemma blocks_loop_ok pos b e admitted n : forall i rq,
  pos = Z.max offset (b * bs) -> offset / bs <= b <= i -> i + Z.of_nat n = e -> i < e ->
  e <= last_idx + 1 -> at_block pos i rq -> admits admitted (rq_scratch rq) ->
  io_inv cache_ok fails
    (blocks_loop lib z offset count pos (slice sc (bpos b) (bpos e - bpos b)) b admitted n i rq)
    (fun rq' => rq_out rq' = filled content offset (rq_done rq') count /\
       offset + rq_done rq' = Z.min (offset + count) (e * bs) /\
       0 < rq_done rq' <= count /\ (admitted = false -> scratch_ok admitted (rq_scratch rq'))).
Proof.
  induction n as [|n IH]; intros i rq Hpos Hb Hn Hi He Hat [Hscr Hadm]; [lia|]. simpl.
  eapply io_inv_bind.
  { apply block_step_ok; try done. intros Ha. specialize (Hadm Ha) as [Hl Hcount].
    replace i with (offset / bs) by lia. done. }
  intros rq' (Hout & Hdone & Hpr & Hscr'). cbv beta in *.
  destruct (decide (n = O)) as [->|Hn0].
  { apply io_inv_ret. by replace e with (i + 1) by lia. }
  assert (admitted = false) as Ha by (destruct admitted; [|done]; specialize (Hadm eq_refl); lia).
  pose proof (bs_pos z ibuf Hok) as Hbs. destruct (touched_block (i + 1) ltac:(lia)) as [_ Hlt].
  pose proof (Z.div_mod offset bs ltac:(lia)). pose proof (Z.mod_pos_bound offset bs ltac:(lia)).
  apply IH; [done|lia..| |].
  - split; [done|]. split; [nia|lia].
  - split; [by auto|by rewrite Ha].
Qed.

Lemma batch_end_ok fuel b e :
  0 <= b < e -> e <= last_idx + 1 -> last_idx < zlen ibuf -> last_idx + 1 - e < Z.of_nat fuel ->
  exists e', batch_end z fuel b last_idx e = Ok e' /\ e <= e' <= last_idx + 1.
Proof.
  revert e. induction fuel as [|fuel IH]; intros e Hb He Hl Hf; [lia|]. simpl.
  case_if; [exists e; split; [done|lia]|].
  rewrite !jump_ok by lia. simpl. case_if; [|exists e; split; [done|lia]].
  destruct (IH (e + 1)) as (e' & -> & ?); [lia..|]. exists e'. split; [done|lia].
Qed.

Lemma on_source_inv {A} (m : io W A) Q :
  io_spec E m Q -> io_inv cache_ok fails (on_source m) Q.
Proof.
  intros Hm [dc w] Hw. unfold on_source. specialize (Hm w).
  destruct (m w) as [[a|f] w']; (split; [done|]); [done|by left].
Qed.

(** The head of the outer loop: the next byte starts the request or a block. *)
Definition at_batch (admitted : bool) (rq : request) : Prop :=
  rq_out rq = filled content offset (rq_done rq) count /\ 0 <= rq_done rq <= count /\
  (rq_done rq < count ->
     offset + rq_done rq = Z.max offset ((offset + rq_done rq) / bs * bs) /\
     admits admitted (rq_scratch rq)).

Lemma next_batch admitted e rq :
  offset / bs < e -> e <= last_idx + 1 ->
  (admitted = true -> last_idx = offset / bs) ->
  rq_out rq = filled content offset (rq_done rq) count ->
  offset + rq_done rq = Z.min (offset + count) (e * bs) ->
  0 < rq_done rq <= count -> (admitted = false -> scratch_ok admitted (rq_scratch rq)) ->
  at_batch admitted rq.
Proof.
  intros Hb He Hadm Hout Hdone Hr Hscr. pose proof (bs_pos z ibuf Hok) as Hbs.
  split; [done|]. split; [lia|]. intros Hlt.
  assert (offset + rq_done rq = e * bs) as Heq by lia.
  rewrite Heq, Z.div_mul by lia. split; [lia|].
  destruct admitted; [|by split; [auto|]]. exfalso. specialize (Hadm eq_refl).
  pose proof (Z.div_mod (offset + count - 1) bs ltac:(lia)).
  pose proof (Z.mod_pos_bound (offset + count - 1) bs ltac:(lia)). nia.
Qed.

Lemma zpread_loop_ok fuel admitted rq :
  count - rq_done rq < Z.of_nat fuel -> at_batch admitted rq ->
  (admitted = true -> last_idx = offset / bs) ->
  io_inv cache_ok fails (pread_loop lib z fuel offset count admitted rq)
    (fun out => out = slice content offset count).
Proof.
  revert rq. induction fuel as [|fuel IH]; intros rq Hf (Hout & Hr & Hat) Hadm; [lia|]. simpl.
  destruct (Z.ltb_spec (rq_done rq) count) as [Hlt|].
  2:{ apply io_inv_ret. rewrite Hout. replace (rq_done rq) with count by lia. apply filled_all. }
  destruct (Hat Hlt) as [Hpos Hscr]. clear Hat. pose proof (bs_pos z ibuf Hok) as Hbs.
  set (pos := offset + rq_done rq) in *. set (b := pos / bs) in *.
  assert (offset / bs <= b <= last_idx) as Hb by (split; apply Z.div_le_mono; lia).
  destruct (touched_block last_idx ltac:(lia)) as [Hl0 Hl].
  destruct (touched_block b ltac:(lia)) as [Hb0 _].
  pose proof (blk_covered z ibuf Hok _ Hl0 ltac:(lia)) as Hcov.
  destruct (batch_end_ok (S (Z.to_nat (last_idx - b + 1))) b (b + 1)) as (e & He & Her); [lia..|].
  apply (inv_lift_bind _ _ _ _ _ _ He).
  apply (inv_lift_bind _ _ _ (bpos b)); [apply jump_ok; lia|].
  apply (inv_lift_bind _ _ _ (bpos e)); [apply jump_ok; lia|]. cbv zeta.
  pose proof (blk_pos_range z ibuf Hok b ltac:(lia)) as Hr1. unfold kSpace in Hr1.
  pose proof (blk_pos_range z ibuf Hok e ltac:(lia)) as Hr2.
  pose proof (blk_pos_mono z ibuf Hok b e ltac:(lia) ltac:(lia)) as Hmono.
  rewrite u64_small by lia.
  eapply io_inv_bind; [apply on_source_inv, src_pread_ok; lia|]. cbv beta. intros window Hwin.
  destruct (Z.eqb_spec (zlen window) (bpos e - bpos b)) as [Hlen|]; simpl.
  2:{ apply io_inv_fail. right; right. split; [done|]. subst window.
      rewrite zlen_slice in *. unfold avail in *.
      pose proof (blk_pos_mono z ibuf Hok e (last_idx + 1) ltac:(lia) ltac:(lia)). lia. }
  replace window with (slice sc (bpos b) (bpos e - bpos b))
    by (rewrite Hwin in Hlen |- *; rewrite zlen_slice in Hlen; f_equal; unfold avail in *; lia).
  eapply io_inv_bind.
  { apply (blocks_loop_ok pos b e admitted); try done; try lia.
    split; [done|]. split; [|lia]. fold pos. lia. }
  cbv beta. intros rq' (Hout' & Hdone' & Hr' & Hscr').
  apply IH; [|by apply (next_batch admitted e); [lia..|done|done|done|done|done]|done].
  destruct (block_range pos b b (rq_done rq)) as (Ht & Hfrom & _); [done|lia..|].
  assert ((b + 1) * bs <= e * bs) by nia. lia.
Qed.
End request.

Lemma zfile_pread_ok count offset :
  0 <= count -> 0 <= offset ->
  let n := avail fsize count offset in
  io_inv cache_ok (read_fail offset n) (zfile_pread lib z count offset)
    (fun out => out = slice content offset n).
Proof.
  intros Hc Ho n. unfold zfile_pread. pose proof (bs_pos z ibuf Hok) as Hbs.
  pose proof (zf_fsize z ibuf Hok) as Hfs.
  case_if. { apply io_inv_ret. by rewrite slice_nil by (unfold n, avail; lia). }
  replace (if fsize - offset <? count then fsize - offset else count) with n
    by (unfold n, avail; case_if; lia).
  case_if. { apply io_inv_ret. by rewrite slice_nil by lia. }
  assert (0 < n /\ offset + n <= fsize) as [Hn Hend] by (unfold n, avail in *; lia).
  clearbody n. clear Hc count. set (i := offset / bs).
  pose proof (Z.div_mod offset bs ltac:(lia)) as Hdm. fold i in Hdm.
  pose proof (Z.mod_pos_bound offset bs ltac:(lia)) as Hmb.
  pose proof (Z.div_pos offset bs Ho ltac:(lia)) as Hi0. fold i in Hi0.
  assert (Z.min bs (u64 (fsize - u64 (i * bs))) = usize i) as Hu
    by (rewrite !u64_small by (rewrite ?u64_small by lia; lia); done).
  rewrite Hu. set (cacheable := (n <? usize i) && (n <=? usize i - offset mod bs)).
  eapply io_inv_bind with (P := fun h =>
    (forall b, fst h = Some b -> cacheable = true /\ dec bs i = Ok b) /\
    (snd h = true -> cacheable = true)).
  { destruct cacheable eqn:Hca; [|by apply io_inv_ret]. intros [dc w] [Hwf Hh]. unfold io_run.
    destruct (decoded_get dc i) as [[hit admitted] dc'] eqn:Hg. simpl.
    destruct (cache_get_ok _ _ _ _ _ _ Hh Hg) as [Hh' Hhit].
    split; [by split; [eapply cache_get_wf|]|]. split; [|done].
    intros b Hb. by destruct (Hhit b Hb). }
  intros [[b|] admitted] [Hhit Hadm]; cbn [fst snd] in *.
  - destruct (Hhit b eq_refl) as [Hca Hd]. unfold cacheable in Hca. bool_hyps.
    pose proof (decode_size lib z _ _ _ _ Hd) as Hz.
    eapply io_inv_lift_ok; [apply mem_read_ok; lia|].
    rewrite <- (zcontent_block lib z sc ibuf Hok i b) by (done || lia). f_equal. lia.
  - assert (admitted = true -> (offset + n - 1) / bs = i /\ n < usize i) as Ha.
    { intros Ha. specialize (Hadm Ha). unfold cacheable in Hadm. bool_hyps. split; [|lia].
      symmetry. apply (Z.div_unique _ _ _ (offset mod bs + n - 1)); unfold blk_size in *; lia. }
    apply zpread_loop_ok; try done; [| |by intros Hx; destruct (Ha Hx)].
    + simpl. lia.
    + split; [simpl; by rewrite filled_0|]. simpl. split; [lia|]. intros _. rewrite Z.add_0_r.
      fold i. split; [lia|]. split; [done|]. done.
Qed.
End read_proof.

(** ** Opening *)

Lemma load_u32_range b p :
  Forall is_byte b -> 0 <= p -> p + 4 <= zlen b -> 0 <= load_u32_le b p < 2 ^ 32.
Proof.
  intros Hb Hp Hl. rewrite load_u32_val by done.
  assert (Forall is_byte (sub p 4 b)) as Hs by (unfold sub, ztake, zdrop; by apply Forall_take, Forall_drop).
  pose proof (le_val_bound _ Hs) as H. replace (zlen (sub p 4 b)) with 4 in H by len. done.
Qed.

Lemma zparse_bounds b ht :
  parse b = Ok ht -> Forall is_byte b -> zlen b = kSpace ->
  0 <= o_block_size (z_opt ht) < 2 ^ 32 /\ 0 <= z_index_offset ht < 2 ^ 64 /\
  0 <= z_index_size ht < 2 ^ 64 /\ 0 <= z_original_file_size ht < 2 ^ 64.
Proof.
  unfold parse, kSpace. cbv zeta. intros Hp Hb Hl. case_if_in Hp; [done|]. case_if_in Hp; [done|].
  injection Hp as <-. simpl. split; [apply load_u32_range; done || lia|].
  split_and!; apply load_u64_bound; done || lia.
Qed.

Lemma zsum_bound l m : Forall (fun e => 0 <= e < m) l -> 0 <= zsum l <= zlen l * m.
Proof.
  induction 1 as [|x l Hx Hl IH]; cbn [zsum]; [change (zlen []) with 0; lia|]. rewrite zlen_cons. lia.
Qed.

Lemma zlen_load_index raw n : 0 <= n -> zlen (load_index raw n) = n.
Proof. intros. unfold load_index. rewrite zlen_fmap. unfold zlen. rewrite length_seqZ. lia. Qed.

Lemma load_index_range raw n :
  Forall is_byte raw -> zlen raw = n * 4 -> Forall (fun e => 0 <= e < 2 ^ 32) (load_index raw n).
Proof.
  intros Hb Hl. unfold load_index. apply Forall_fmap, Forall_forall. intros i Hi.
  apply elem_of_seqZ in Hi. simpl. apply load_u32_range; [done|lia..].
Qed.

Lemma io_spec_lift_errno {W A} (r : res A) (Q : A -> Prop) :
  res_errno r -> (forall a, r = Ok a -> Q a) -> io_spec any_errno (io_lift r : io W A) Q.
Proof. apply io_spec_lift_res. done. Qed.

Lemma build_errno ibuf bs crc :
  0 <= bs -> Forall (fun e => 0 <= e < 2 ^ 32) ibuf -> zlen ibuf <= 1000000000 ->
  res_errno (build ibuf kSpace bs crc).
Proof.
  intros Hbs He Hn. pose proof (zsum_bound _ _ He) as Hsum.
  assert (Forall (fun e => 0 <= e) ibuf) as He0 by (eapply Forall_impl; [exact He|]; simpl; lia).
  pose proof (build_spec ibuf kSpace bs crc Hbs ltac:(unfold kSpace; lia) He0
    ltac:(unfold kSpace; lia)) as H.
  destruct (build _ _ _ _); [done|]. destruct H as [[-> _]|[[-> _]|[-> _]]]; apply any_errno_intro.
Qed.

Section open_proof.
Context {W : Type} (E : fail -> Prop) (lib : codec_lib) (src : BlobSource W) (sc : Z -> Z).
Context (Hsrc : SourceSpec E src sc) (HE : forall f, E f -> any_errno f).

Lemma read_region count off :
  0 <= count -> 0 <= off ->
  io_spec any_errno (read_exact src count off) (fun b => zlen b = count /\ Forall is_byte b).
Proof.
  intros Hc Ho. eapply (io_spec_E_mono (fun f => f = Errno EIO)); [|intros f ->; apply any_errno_intro].
  eapply io_spec_mono; [by eapply read_exact_spec|]. simpl. intros b [-> _].
  split; [len|apply slice_bytes, src_content_byte].
Qed.

(** What a successful [open] knows of the view. *)
Definition opened (z : ZFileSource W) (ibuf : list Z) : Prop :=
  zf_src z = src /\ zlen ibuf = z_index_size (zf_ht z) /\ zlen ibuf <= kMaxIndexSize /\
  0 <= z_original_file_size (zf_ht z) < 2 ^ 64 /\
  (z_original_file_size (zf_ht z) <= zlen ibuf * zf_block_size z -> zfile_ok z ibuf).

Lemma opened_view ht ibuf jump codec v :
  zlen ibuf = z_index_size ht -> zlen ibuf <= kMaxIndexSize -> 0 <= z_original_file_size ht < 2 ^ 64 ->
  0 <= o_block_size (z_opt ht) -> Forall (fun e => 0 <= e < 2 ^ 32) ibuf ->
  (v = true -> o_verify (z_opt ht) <> 0) ->
  build ibuf kSpace (o_block_size (z_opt ht)) (negb (o_verify (z_opt ht) =? 0)) = Ok jump ->
  opened (ZFile src ht jump codec v (o_block_size (z_opt ht))) ibuf.
Proof.
  intros Hn Hmax Hfs Hbs He Hv Hj. split_and!; simpl; [done..|lia|lia|]. intros Hcov.
  pose proof (zsum_bound _ _ He) as Hsum. unfold kMaxIndexSize in *.
  assert (Forall (fun e => 0 <= e) ibuf) as He0 by (eapply Forall_impl; [exact He|]; simpl; lia).
  assert (kSpace + zsum ibuf < 2 ^ 63) as Hfit by (unfold kSpace; lia).
  pose proof (build_spec ibuf kSpace (o_block_size (z_opt ht)) (negb (o_verify (z_opt ht) =? 0))
    Hbs ltac:(unfold kSpace; lia) He0 ltac:(lia)) as Hb. rewrite Hj in Hb.
  destruct Hb as (Hp & Hent & Hgr & ->). destruct (group_pow2 _ Hp) as (k & Hk & Hgk).
  split; simpl; try done.
  - eapply Forall_impl; [exact Hent|]. cbv beta. intros x. unfold min_entry.
    destruct v; [specialize (Hv eq_refl)|]; case_if; lia.
  - intros i Hi. by apply (jump_at_of _ kSpace (group_pos _ Hp) ltac:(done) _ k); try lia.
  - destruct Hp as (m & Hm & Hbm). pose proof (Z.pow_le_mono_r 2 m 16 ltac:(lia) ltac:(lia)). nia.
Qed.

Lemma zfile_open_ok verify :
  io_spec any_errno (zfile_open lib src verify) (fun z => exists ibuf, opened z ibuf).
Proof.
  unfold zfile_open. cbv zeta.
  assert (forall A e (Q : A -> Prop), io_spec any_errno (io_fail (Errno e) : io W A) Q) as Hfail
    by (intros; apply io_spec_fail, any_errno_intro).
  case_if; [done|].
  eapply io_spec_bind; [apply (read_region kSpace 0); done|]. intros region [Hz Hb].
  eapply io_spec_bind; [apply io_spec_lift_errno with (Q := fun ht => parse region = Ok ht);
    [apply zparse_errno|done]|]. intros ht Hht.
  case_if; [done|]. case_if; [done|].
  eapply io_spec_bind with (P := fun et : HeaderTrailer * Z =>
    0 <= o_block_size (z_opt (fst et)) < 2 ^ 32 /\ 0 <= z_index_offset (fst et) < 2 ^ 64 /\
    0 <= z_index_size (fst et) < 2 ^ 64 /\ 0 <= z_original_file_size (fst et) < 2 ^ 64).
  { case_if; [|apply io_spec_ret; exact (zparse_bounds _ _ Hht Hb Hz)]. case_if; [done|].
    eapply io_spec_bind; [apply read_region; [done|unfold kSpace in *; lia]|].
    intros tregion [Hz' Hb'].
    eapply io_spec_bind; [apply io_spec_lift_errno with (Q := fun ht => parse tregion = Ok ht);
      [apply zparse_errno|done]|]. intros tht Htht.
    case_if; [done|]. apply io_spec_ret. exact (zparse_bounds _ _ Htht Hb' Hz'). }
  intros [eff toff] (Hbs & Hio & His & Hfs); simpl in Hbs, Hio, His, Hfs.
  case_if; [done|]. unfold kMaxIndexSize in *. rewrite (u64_small (z_index_size eff * 4)) by lia.
  case_if; [done|]. case_if; [done|]. case_if; [done|].
  eapply io_spec_bind with (P := fun raw => zlen raw = z_index_size eff * 4 /\ Forall is_byte raw).
  { case_if; [apply read_region; lia|]. apply io_spec_ret. split; [rewrite zlen_nil; lia|constructor]. }
  intros raw [Hzr Hbr]. case_if; [done|].
  set (ibuf := load_index raw (z_index_size eff)).
  assert (Forall (fun e => 0 <= e < 2 ^ 32) ibuf) as He by (apply load_index_range; [done|lia]).
  assert (zlen ibuf = z_index_size eff) as Hn by (apply zlen_load_index; lia).
  bool_hyps. replace (o_dict_size (z_opt eff)) with 0 by lia. rewrite Z.add_0_r.
  eapply io_spec_bind.
  { apply io_spec_lift_errno with (Q := fun j =>
      build ibuf kSpace (o_block_size (z_opt eff)) (negb (o_verify (z_opt eff) =? 0)) = Ok j); [|done].
    apply build_errno; [lia|done|lia]. }
  intros jump Hj. destruct (codec_available lib (o_algo (z_opt eff)) (o_level (z_opt eff))) as [c ->];
    [done|]. apply io_spec_ret. exists ibuf. apply opened_view; unfold kMaxIndexSize; try done; try lia.
Qed.
End open_proof.

(** The reads of an opened view, and the view as a source over the cache. *)
#[export] Instance zfile_source_inv {W} E lib (z : ZFileSource W) sc ibuf :
  codec_spec lib -> SourceSpec E (zf_src z) sc -> zfile_ok z ibuf -> (forall f, E f -> any_errno f) ->
  SourceInv (cache_ok lib z sc ibuf) any_errno (zfile_source lib z)
    (extent (zfile_source lib z) (zcontent lib z sc ibuf)).
Proof.
  intros Hc Hs Hok HE. split. intros count off Hcnt Hoff [dc w] Hx.
  pose proof (zfile_pread_ok E lib z sc ibuf Hs Hok count off Hcnt Hoff (dc, w) Hx) as H.
  simpl. destruct (zfile_pread lib z count off (dc, w)) as [[bs|f] x']; destruct H as [Hx' H];
    (split; [done|]); [|destruct H as [?|[[? _]|[-> _]]]; auto with errno].
  unfold delivers. subst bs. rewrite zlen_slice, Z.max_r by (unfold avail; lia). split; [|split].
  - apply slice_ext. unfold extent, avail. intros i Hi. simpl. by rewrite (proj2 (Z.ltb_lt _ _)) by lia.
  - unfold avail. lia.
  - unfold extent, avail. intros Hs' i Hi. simpl. by rewrite (proj2 (Z.ltb_ge _ _)) by lia.
Qed.

(** C22. A ZFile over any source of bytes: [open] reports an errno or yields a
    view, and if its index covers the declared size every read from every
    reachable cache delivers exactly the bytes the file's blocks decode to, at
    any offset and count, and keeps the cache consistent; it fails only when the
    source fails, a touched block does not decode, or the blocks lie past the
    end of the file.  Never does it leave a buffer, run the loop for ever or
    decode over a buffer it has published. *)
Theorem zfile_read_correct {W} E lib (src : BlobSource W) sc verify w :
  codec_spec lib -> SourceSpec E src sc -> (forall f, E f -> any_errno f) ->
  match zfile_open lib src verify w with
  | (Err f, _) => any_errno f
  | (Ok z, _) => exists ibuf, zlen ibuf = z_index_size (zf_ht z) /\
      let fsize := z_original_file_size (zf_ht z) in
      (fsize <= zlen ibuf * zf_block_size z ->
        (forall w, cache_ok lib z sc ibuf (cache_empty, w)) /\
        forall count off, 0 <= count -> 0 <= off ->
          io_inv (cache_ok lib z sc ibuf) (read_fail E lib z sc ibuf off (avail fsize count off))
            (zfile_pread lib z count off)
            (fun out => out = slice (zcontent lib z sc ibuf) off (avail fsize count off)))
  end.
Proof.
  intros Hc Hs HE. pose proof (zfile_open_ok E lib src sc Hs HE verify w) as H.
  destruct (zfile_open lib src verify w) as [[z|f] w']; [|done].
  destruct H as (ibuf & Hsrc & Hn & _ & _ & Hok). exists ibuf. split; [done|].
  intros fsize Hcov. specialize (Hok Hcov). rewrite <- Hsrc in Hs. split.
  - intros w0. split; [by vm_compute|apply cache_empty_ok].
  - intros count off Hcnt Hoff. by apply zfile_pread_ok.
Qed.

(** A codec that stores blocks as they are, and a file of six bytes in two
    blocks of four. *)
Definition stored_lib : codec_lib :=
  CodecLib (fun src n cap => if zlen src <=? cap then Some src else None)
    (fun src n cap => Some src) (fun n => n + n / 255 + 16)
    (fun src cap => if zlen src <=? cap then Some src else None) (fun src cap level => Some src)
    (fun n => n + n / 256 + (if n <? 131072 then (131072 - n) / 2048 else 0)) false.

#[export] Instance stored_lib_spec : codec_spec stored_lib.
Proof. split. intros src n cap cap' d Hc. simpl. repeat case_if; intros; simplify_eq; done || lia. Qed.

Definition all_bytes (l : bytes) : bool := forallb (fun b => (0 <=? b) && (b <? 256)) l.
Lemma all_bytes_true l : all_bytes l = true -> Forall is_byte l.
Proof.
  induction l as [|b l IH]; simpl; intros H; [constructor|]. bool_hyps.
  constructor; [unfold is_byte; lia|auto].
Qed.

Definition example_header (size : Z) (shift : Z) : bytes :=
  serialize (ZHT 96 0 (6 + shift) 518 2 size 0 0 (Opt 4 1 0 0 0 0 0)).
Definition example_zfile (size : Z) : bytes :=
  example_header size 1 ++ [10; 11; 12; 13; 14; 15] ++ [4; 0; 0; 0; 2; 0; 0; 0] ++ example_header size 0.

(** Opening the example and reading from it; the bytes indexed and declared. *)
Definition open_read (size count off : Z) : res bytes :=
  match zfile_open stored_lib (mem_source (example_zfile size)) true tt with
  | (Ok z, _) => fst (zfile_pread stored_lib z count off (cache_empty, tt))
  | (Err f, _) => Err f
  end.
Definition open_size (size : Z) : res (Z * Z) :=
  match zfile_open stored_lib (mem_source (example_zfile size)) true tt with
  | (Ok z, _) => Ok (z_index_size (zf_ht z) * zf_block_size z, z_original_file_size (zf_ht z))
  | (Err f, _) => Err f
  end.

Lemma zfile_read_correct_witness :
  exists z w', zfile_open stored_lib (mem_source (example_zfile 6)) true tt = (Ok z, w') /\
  (exists ibuf, zlen ibuf = z_index_size (zf_ht z) /\
     (z_original_file_size (zf_ht z) <= zlen ibuf * zf_block_size z ->
       forall count off, 0 <= count -> 0 <= off ->
         io_inv (cache_ok stored_lib z (bget (example_zfile 6)) ibuf)
           (read_fail (fun _ => False) stored_lib z (bget (example_zfile 6)) ibuf off
              (avail (z_original_file_size (zf_ht z)) count off))
           (zfile_pread stored_lib z count off)
           (fun out => out = slice (zcontent stored_lib z (bget (example_zfile 6)) ibuf) off
              (avail (z_original_file_size (zf_ht z)) count off)))) /\
  fst (zfile_pread stored_lib z 3 2 (cache_empty, tt)) = Ok [12; 13; 14].
Proof.
  assert (SourceSpec (fun _ => False) (@mem_source unit (example_zfile 6)) (bget (example_zfile 6))) as Hs
    by (apply mem_source_spec; [apply all_bytes_true|]; by vm_compute).
  pose proof (zfile_read_correct (fun _ => False) stored_lib (mem_source (example_zfile 6)) _ true tt
    stored_lib_spec Hs ltac:(done)) as H.
  assert (open_read 6 3 2 = Ok [12; 13; 14]) as Hr by (vm_compute; reflexivity).
  unfold open_read in Hr. destruct (zfile_open _ _ _ _) as [[z|f] w']; [|discriminate].
  exists z, w'. split; [reflexivity|]. split; [|exact Hr].
  destruct H as (ibuf & Hn & H). exists ibuf. split; [exact Hn|]. intros Hc. exact (proj2 (H Hc)).
Defined.

(** [open] does not compare the declared size with the number of index
    entries: a file of two blocks that declares a hundred bytes is opened, and a
    read past the second block subscripts the jump table outside its vectors. *)
Theorem short_index_reads_outside :
  exists z w', zfile_open stored_lib (mem_source (example_zfile 100)) true tt = (Ok z, w') /\
    z_index_size (zf_ht z) * zf_block_size z < z_original_file_size (zf_ht z) /\
    fst (zfile_pread stored_lib z 1 8 (cache_empty, tt)) = Err Undefined.
Proof.
  assert (open_read 100 1 8 = Err Undefined) as Hr by (vm_compute; reflexivity).
  assert (open_size 100 = Ok (2 * 4, 100)) as Hs by (vm_compute; reflexivity).
  unfold open_read, open_size in *. destruct (zfile_open _ _ _ _) as [[z|f] w']; [|discriminate].
  exists z, w'. simplify_eq. split; [reflexivity|]. split; [lia|exact Hr].
Qed.
