(* ===== verification/Writer.v ===== *)
(** * Input and output of the format writers ([format/writer.cpp])

    The synchronous writers read one descriptor and create one file.  Each
    transfer takes the next outcome of the script; a transfer that stops after
    some bytes leaves them in the output.  The created file is shown to hold the
    concatenation of what was written in sequence. *)
From S2P Require Import Prelude Bytes Source File.

Open Scope Z_scope.

Record wstate := WState {
  ws_in : file;
  ws_out : file;
  ws_script : script;
}.

Definition ws_next (w : wstate) : outcome * wstate :=
  let '(o, s) := next_outcome (ws_script w) in (o, WState (ws_in w) (ws_out w) s).
Definition ws_with_out (w : wstate) (f : file) : wstate := WState (ws_in w) f (ws_script w).

(** [create_out]: [O_CREAT | O_TRUNC]. *)
Definition create_out : io wstate unit := fun w =>
  match ws_next w with
  | (Done, w) => (Ok tt, ws_with_out w empty_file)
  | (Failed _ e, w) => (Err (Errno e), w)
  end.

Definition full_pwrite (bs : bytes) (offset : Z) : io wstate unit := fun w =>
  match ws_next w with
  | (Done, w) => (Ok tt, ws_with_out w (file_write (ws_out w) offset bs))
  | (Failed n e, w) =>
      (Err (Errno e), ws_with_out w (file_write (ws_out w) offset (partial n bs)))
  end.

(** The end of the input is an error. *)
Definition full_pread (count offset : Z) : io wstate bytes := fun w =>
  match ws_next w with
  | (Done, w) =>
      let r := file_read (ws_in w) offset count in
      if negb (zlen r =? count) then (Err (Errno EIO), w) else (Ok r, w)
  | (Failed _ e, w) => (Err (Errno e), w)
  end.

Definition out_ftruncate (n : Z) : io wstate unit := fun w =>
  match ws_next w with
  | (Done, w) => (Ok tt, ws_with_out w (file_truncate (ws_out w) n))
  | (Failed _ e, w) => (Err (Errno e), w)
  end.

(** The finished file as a source. *)
Definition file_source {W} (f : file) : BlobSource W := fn_source (f_size f) (f_byte f).

(** ** Contents *)

(** The file holds [bs] at [off]. *)
Definition holds (f : file) (off : Z) (bs : bytes) : Prop :=
  slice (f_byte f) off (zlen bs) = bs /\ off + zlen bs <= f_size f.

Lemma holds_write f off bs :
  0 <= off -> holds (file_write f off bs) off bs \/ zlen bs = 0.
Proof.
  intros Ho. destruct (decide (zlen bs = 0)); [by right|left]. pose proof (zlen_nonneg bs). split.
  - apply list_eq_bget; [len|]. intros i Hi. rewrite zlen_slice in Hi.
    rewrite bget_slice, f_byte_write_in by lia. f_equal. lia.
  - rewrite f_size_write_end by lia. lia.
Qed.

Lemma holds_write_other f off bs p x :
  holds f p x -> p + zlen x <= off \/ off + zlen bs <= p -> holds (file_write f off bs) p x.
Proof.
  intros [H1 H2] Hd. split; [|pose proof (f_size_write f off bs); lia].
  rewrite <- H1 at 2. apply slice_ext. intros i Hi. apply f_byte_write_out. lia.
Qed.

Lemma holds_app f off x y :
  holds f off x -> holds f (off + zlen x) y -> holds f off (x ++ y).
Proof.
  intros [H1 H2] [H3 H4]. unfold holds. rewrite zlen_app. split; [|lia].
  rewrite slice_app by apply zlen_nonneg. by rewrite H1, H3.
Qed.

Lemma holds_app_inv f off x y :
  holds f off (x ++ y) -> holds f off x /\ holds f (off + zlen x) y.
Proof.
  intros [H1 H2]. rewrite zlen_app, slice_app in * by apply zlen_nonneg.
  pose proof (zlen_nonneg x). pose proof (zlen_nonneg y).
  apply app_inj_1 in H1 as [H3 H4]; [|unfold slice; rewrite length_fmap, length_seqZ; unfold zlen; lia].
  split; split; done || lia.
Qed.

Lemma holds_nil f off : off <= f_size f -> holds f off [].
Proof. intros. split; [done|]. rewrite zlen_nil. lia. Qed.

Lemma holds_truncate f off bs n :
  holds f off bs -> off + zlen bs <= n -> holds (file_truncate f n) off bs.
Proof.
  intros [H1 H2] Hn. split; [|done]. rewrite <- H1 at 2. apply slice_ext. intros i Hi. simpl.
  by rewrite (proj2 (Z.ltb_lt _ _)) by lia.
Qed.

(** ** Sequential writes without faults *)

(** From [w] without faults [m] succeeds and ends with an output satisfying [Q]
    of the same input. *)
Definition runs {A} (m : io wstate A) (w : wstate) (Q : A -> file -> Prop) : Prop :=
  ws_script w = [] ->
  exists a f, m w = (Ok a, WState (ws_in w) f []) /\ Q a f.

Lemma runs_ret {A} (a : A) w (Q : A -> file -> Prop) : Q a (ws_out w) -> runs (mret a) w Q.
Proof. intros H Hs. exists a, (ws_out w). destruct w; simpl in *; by subst. Qed.

Lemma runs_lift {A} (r : res A) a w (Q : A -> file -> Prop) :
  r = Ok a -> Q a (ws_out w) -> runs (io_lift r) w Q.
Proof. intros -> H Hs. exists a, (ws_out w). destruct w; simpl in *; by subst. Qed.

Lemma runs_bind {A B} (m : io wstate A) (k : A -> io wstate B) w P Q :
  runs m w P -> (forall a f, P a f -> runs (k a) (WState (ws_in w) f []) Q) -> runs (m ≫= k) w Q.
Proof.
  intros Hm Hk Hs. destruct (Hm Hs) as (a & f & Hrun & HP).
  destruct (Hk a f HP eq_refl) as (b & f' & Hrun' & HQ). exists b, f'. split; [|done].
  unfold mbind, io_bind. rewrite Hrun. done.
Qed.

Lemma runs_mono {A} (m : io wstate A) w (P Q : A -> file -> Prop) :
  runs m w P -> (forall a f, P a f -> Q a f) -> runs m w Q.
Proof. intros H HPQ Hs. destruct (H Hs) as (a & f & ? & ?). eauto. Qed.

Lemma runs_create w (Q : unit -> file -> Prop) : Q tt empty_file -> runs create_out w Q.
Proof.
  intros H Hs. exists tt, empty_file. unfold create_out, ws_next. rewrite Hs. by destruct w.
Qed.
Lemma runs_pwrite bs off w (Q : unit -> file -> Prop) :
  Q tt (file_write (ws_out w) off bs) -> runs (full_pwrite bs off) w Q.
Proof. intros H Hs. eexists tt, _. unfold full_pwrite, ws_next. rewrite Hs. done. Qed.
Lemma runs_pread n off w (Q : bytes -> file -> Prop) :
  0 <= off -> 0 <= n -> off + n <= f_size (ws_in w) ->
  Q (slice (f_byte (ws_in w)) off n) (ws_out w) -> runs (full_pread n off) w Q.
Proof.
  intros Ho Hn Hl H Hs. eexists _, _. unfold full_pread, ws_next. rewrite Hs. simpl.
  rewrite file_read_full by done. rewrite zlen_slice, Z.max_r, Z.eqb_refl by lia. simpl. done.
Qed.
Lemma runs_ftruncate n w (Q : unit -> file -> Prop) :
  Q tt (file_truncate (ws_out w) n) -> runs (out_ftruncate n) w Q.
Proof. intros H Hs. eexists tt, _. unfold out_ftruncate, ws_next. rewrite Hs. done. Qed.
Lemma runs_pwrite_eq bs off w :
  runs (full_pwrite bs off) w (fun _ f => f = file_write (ws_out w) off bs).
Proof. by apply runs_pwrite. Qed.

(** ** Bytes everywhere, appending, and reading back *)

Definition file_bytes (f : file) : Prop := forall i, is_byte (f_byte f i).

Lemma file_bytes_write f off bs : file_bytes f -> Forall is_byte bs -> file_bytes (file_write f off bs).
Proof. intros H Hb i. simpl. case_if; [by apply Forall_byte_bget|apply H]. Qed.
Lemma file_bytes_truncate f n : file_bytes f -> file_bytes (file_truncate f n).
Proof. intros H i. simpl. case_if; [apply H|unfold is_byte; lia]. Qed.
Lemma file_bytes_empty : file_bytes empty_file.
Proof. intros i. simpl. unfold is_byte. lia. Qed.

Lemma holds_append f x y off :
  0 <= off -> holds f off x -> f_size f = off + zlen x ->
  holds (file_write f (off + zlen x) y) off (x ++ y) /\
  f_size (file_write f (off + zlen x) y) = off + zlen (x ++ y).
Proof.
  intros Ho Hh Hs. pose proof (zlen_nonneg x). pose proof (zlen_nonneg y). rewrite zlen_app.
  assert (f_size (file_write f (off + zlen x) y) = off + (zlen x + zlen y)) as Hsz
    by (simpl; case_if; lia).
  split; [|done]. apply holds_app; [apply holds_write_other; [done|lia]|].
  destruct (holds_write f (off + zlen x) y ltac:(lia)) as [|Hz]; [done|].
  replace y with (@nil Z) in * by (symmetry; apply length_zero_iff_nil; unfold zlen in Hz; lia).
  apply holds_nil. rewrite Hsz, zlen_nil. lia.
Qed.

Lemma read_held {W} f off x (w : W) :
  0 <= off -> holds f off x -> read_exact (file_source f) (zlen x) off w = (Ok x, w).
Proof.
  intros Ho [Hx Hs]. unfold read_exact, io_try, mbind, io_bind. simpl.
  pose proof (zlen_nonneg x). replace (avail (f_size f) (zlen x) off) with (zlen x) by (unfold avail; lia).
  by rewrite Hx, Z.eqb_refl.
Qed.

Lemma io_step {W A B} (m : io W A) (k : A -> io W B) w a w' :
  m w = (Ok a, w') -> (m ≫= k) w = k a w'.
Proof. intros H. unfold mbind, io_bind. by rewrite H. Qed.
Lemma io_step_lift {W A} (r : res A) a (w : W) : r = Ok a -> io_lift r w = (Ok a, w).
Proof. by intros ->. Qed.

(** [f'] keeps what [f] held before [p]. *)
Definition keeps_below (p : Z) (f f' : file) : Prop :=
  forall q x, q + zlen x <= p -> holds f q x -> holds f' q x.

Lemma keeps_below_refl p f : keeps_below p f f.
Proof. by intros q x _ H. Qed.
Lemma keeps_below_trans p p' f g h :
  p <= p' -> keeps_below p f g -> keeps_below p' g h -> keeps_below p f h.
Proof. intros Hp H1 H2 q x Hq H. apply H2; [lia|]. by apply H1. Qed.
Lemma keeps_below_write p f off bs : p <= off -> keeps_below p f (file_write f off bs).
Proof. intros Hp q x Hq H. apply holds_write_other; [done|lia]. Qed.
