(* ===== verification/ZFileWriter.v ===== *)
(** * The ZFile writer ([write_zfile] of [format/writer.cpp])

    Compresses a file block by block, each with its checksum, and closes it with
    the index and the trailer.  Written and opened again the file reads as the
    input, whatever the read; the one exception, block sizes whose 16-bit
    offset sums overflow, is characterised exactly. *)
From S2P Require Import Prelude Bytes Crc32c Source File ZFileFormat ZFile Writer.

Open Scope Z_scope.

Record ZFileWriteOptions := ZOpts {
  zo_block_size : Z;
  zo_algo : Z;
  zo_level : Z;
  zo_verify : bool;
  zo_calc_digest : bool;
}.

Section writer.
Context (lib : codec_lib) (opts : ZFileWriteOptions).

(** [for (done = 0; done < in_size;)]: the output position and the index. *)
Fixpoint write_blocks (fuel : nat) (codec : BlockCodec) (bs cap in_size done out_pos : Z)
    (index : list Z) : io wstate (Z * list Z) :=
  match fuel with
  | O => io_fail Fuel
  | S fuel =>
      if done <? in_size then
        let chunk := Z.min bs (in_size - done) in
        in_buf ← full_pread chunk done;
        comp ← io_lift (match compress lib codec in_buf cap with
                        | Ok c => if zlen c <=? 0 then Err (Errno EIO) else Ok c
                        | Err (Errno _) => Err (Errno EIO)
                        | Err f => Err f
                        end);
        _ ← full_pwrite comp out_pos;
        let entry := zlen comp in
        let out_pos := out_pos + entry in
        eo ← (if zo_verify opts then
                _ ← full_pwrite (store_u32_le (zeros 4) 0 (crc32c_salt false 0 comp)) out_pos;
                mret (entry + 4, out_pos + 4)
              else mret (entry, out_pos));
        let '(entry, out_pos) := eo : Z * Z in
        write_blocks fuel codec bs cap in_size (done + chunk) out_pos (index ++ [u32 entry])
      else mret (out_pos, index)
  end.

(** [store_u32_le(raw_index.data() + i * 4, index[i])] for every entry. *)
Fixpoint store_index (raw : bytes) (i : Z) (index : list Z) : bytes :=
  match index with
  | [] => raw
  | e :: index => store_index (store_u32_le raw (i * 4) e) (i + 1) index
  end.

Definition new_header (index_offset in_size : Z) (index : list Z) (raw_index : bytes) : HeaderTrailer :=
  let ht := ZHT kHeaderSize 0 0 index_offset (zlen index) in_size (crc32c false 0 raw_index) 0
              (Opt (zo_block_size opts) (zo_algo opts) (zo_level opts) 0 0 0
                 (if zo_verify opts then 1 else 0)) in
  let ht := set_flag_bit ht kFlagShiftType in
  let ht := set_flag_bit ht kFlagShiftSealed in
  if zo_calc_digest opts then set_flag_bit ht kFlagShiftCalcDigest else ht.

(** [serialize], and [set_region_digest] when asked for. *)
Definition region_of (ht : HeaderTrailer) : HeaderTrailer * bytes :=
  let region := serialize ht in
  if zo_calc_digest opts then set_region_digest ht region else (ht, region).

Definition write_zfile (in_size : Z) : io wstate unit :=
  let bs := zo_block_size opts in
  if (bs =? 0) || (65536 <? bs) || negb (Z.land bs (bs - 1) =? 0) then io_fail (Errno EINVAL)
  else match create_block_codec lib (zo_algo opts) (zo_level opts) with
  | None => io_fail (Errno EINVAL)
  | Some codec =>
      _ ← create_out;
      _ ← full_pwrite (zeros kSpace) 0;
      let cap := compress_bound lib codec bs + 8 in
      r ← write_blocks (S (Z.to_nat in_size)) codec bs cap in_size 0 kSpace [];
      let '(index_offset, index) := r : Z * list Z in
      let index_bytes := zlen index * 4 in
      let raw_index := store_index (zeros index_bytes) 0 index in
      _ ← (if 0 <? index_bytes then full_pwrite raw_index index_offset else mret tt);
      let ht := new_header index_offset in_size index raw_index in
      let ht := set_flag_bit ht kFlagShiftHeader in
      let '(ht, region) := region_of ht in
      _ ← full_pwrite region 0;
      let ht := with_digest (clr_flag_bit ht kFlagShiftHeader) 0 in
      let '(ht, region) := region_of ht in
      let trailer_offset := index_offset + index_bytes in
      _ ← full_pwrite region trailer_offset;
      out_ftruncate (trailer_offset + kSpace)
  end.
End writer.

(** ** The codec contract of the writer *)

(** What the two libraries document: the bound macros, that a destination of at
    least the bound never fails, and that decompression restores the input. *)
Class codec_roundtrip (lib : codec_lib) : Prop := {
  lz4_bound : forall n, 0 <= n <= LZ4_MAX_INPUT_SIZE ->
    lz4_compressBound lib n = n + n / 255 + 16;
  lz4_restores : forall src cap, Forall is_byte src -> 0 < zlen src <= LZ4_MAX_INPUT_SIZE ->
    lz4_compressBound lib (zlen src) <= cap < 2 ^ 31 ->
    exists c, lz4_compress_default lib src (zlen src) cap = Some c /\ Forall is_byte c /\
      0 < zlen c <= cap /\ lz4_decompress_safe lib c (zlen c) (zlen src) = Some src;
  zstd_bound : forall n, 0 <= n ->
    zstd_compressBound lib n = n + n / 256 + (if n <? 131072 then (131072 - n) / 2048 else 0);
  zstd_restores : forall src cap level, Forall is_byte src -> 0 < zlen src ->
    zstd_compressBound lib (zlen src) <= cap ->
    exists c, zstd_compress lib src cap level = Some c /\ Forall is_byte c /\
      0 < zlen c <= cap /\ zstd_decompress lib c (zlen src) = Some src;
}.

Section codec_rt.
Context (lib : codec_lib) `{!codec_roundtrip lib}.

Lemma lz4_bound_value n : 0 <= n <= 65536 -> lz4_compress_bound lib n = n + n / 255 + 16.
Proof.
  intros Hn. unfold lz4_compress_bound. rewrite i32_small by lia.
  rewrite lz4_bound by (unfold LZ4_MAX_INPUT_SIZE; lia). apply u64_small.
  pose proof (Z.div_pos n 255 ltac:(lia) ltac:(lia)). pose proof (Z.div_le_upper_bound n 255 65536 ltac:(lia)).
  lia.
Qed.

Lemma compress_bound_mono c n m :
  0 <= n <= m -> m <= 65536 -> compress_bound lib c n <= compress_bound lib c m < 2 ^ 20.
Proof.
  intros Hn Hm. destruct c; simpl.
  - rewrite !lz4_bound_value by lia. pose proof (Z.div_le_mono n m 255 ltac:(lia) ltac:(lia)).
    pose proof (Z.div_le_upper_bound m 255 65536 ltac:(lia)). lia.
  - rewrite !zstd_bound, !(proj2 (Z.ltb_lt _ _)) by lia.
    pose proof (Z.div_le_mono n m 256 ltac:(lia) ltac:(lia)).
    pose proof (Z.div_le_upper_bound m 256 65536 ltac:(lia)).
    assert ((131072 - n) / 2048 <= (131072 - m) / 2048 + (m - n)).
    { rewrite <- Z.div_add by lia. apply Z.div_le_mono; lia. }
    pose proof (Z.div_le_upper_bound (131072 - m) 2048 65536 ltac:(lia)). lia.
Qed.

Lemma compress_restores c src bs :
  Forall is_byte src -> 0 < zlen src <= bs -> bs <= 65536 ->
  let cap := compress_bound lib c bs + 8 in
  exists d, compress lib c src cap = Ok d /\ Forall is_byte d /\ 0 < zlen d < 2 ^ 21 /\
    decompress lib c d (zlen src) (zlen src) = Ok src.
Proof.
  intros Hb Hl Hbs cap. pose proof (compress_bound_mono c (zlen src) bs ltac:(lia) ltac:(lia)) as Hm.
  assert (compress_bound lib c (zlen src) <= cap < 2 ^ 21) as Hc by (unfold cap; lia).
  clearbody cap. destruct c as [|level]; simpl in *.
  - rewrite lz4_bound_value in Hc by lia.
    destruct (lz4_restores src cap Hb ltac:(unfold LZ4_MAX_INPUT_SIZE; lia)) as (d & Hd & Hbd & Hzd & Hx).
    { rewrite lz4_bound by (unfold LZ4_MAX_INPUT_SIZE; lia). lia. }
    exists d. unfold lz4_compress, lz4_decompress.
    rewrite (proj2 (Z.ltb_ge _ _)) by (unfold LZ4_MAX_INPUT_SIZE; lia).
    rewrite lz4_bound_value, (proj2 (Z.ltb_ge cap _)) by lia.
    rewrite !(i32_small (zlen src)), (i32_small cap), (i32_small (zlen d)), Hd by lia.
    rewrite (proj2 (Z.leb_gt (zlen d) 0)), Z.ltb_irrefl, Hx, Z.eqb_refl by lia.
    split_and!; done || lia.
  - destruct (zstd_restores src cap level Hb (proj1 Hl) (proj1 Hc)) as (d & Hd & Hbd & Hzd & Hx).
    exists d. unfold zstd_compress_block, zstd_decompress_block.
    rewrite (proj2 (Z.ltb_ge cap _)), Hd, Z.ltb_irrefl, Hx, Z.eqb_refl by lia.
    split_and!; done || lia.
Qed.
End codec_rt.

(** ** The file a run without faults leaves *)

Lemma zlen_concat (ls : list bytes) : zlen (concat ls) = zsum (zlen <$> ls).
Proof. induction ls as [|l ls IH]; simpl; [done|]. rewrite zlen_app, IH. done. Qed.

Section run.
Context (lib : codec_lib) `{!codec_roundtrip lib} (opts : ZFileWriteOptions) (codec : BlockCodec).
Context (fin : file) (in_size : Z).
Abbreviation bs := (zo_block_size opts).
Context (Hbs : pow2_size bs) (Hin : 0 <= in_size <= f_size fin) (Hfb : file_bytes fin).
Abbreviation cap := (compress_bound lib codec bs + 8).

Definition chunk_of (i : Z) : bytes := slice (f_byte fin) (i * bs) (Z.min bs (in_size - i * bs)).
Definition comp_of (i : Z) : bytes :=
  match compress lib codec (chunk_of i) cap with Ok c => c | Err _ => [] end.
(** What is written for block [i], and its index entries. *)
Definition enc_of (i : Z) : bytes :=
  comp_of i ++ (if zo_verify opts then store_u32_le (zeros 4) 0 (crc32c_salt false 0 (comp_of i)) else []).
Definition encs (k : Z) : list bytes := enc_of <$> seqZ 0 k.
Definition lens (k : Z) : list Z := zlen <$> encs k.
Definition nblocks : Z := (in_size + bs - 1) / bs.

Lemma wbs_pos : 0 < bs <= 65536.
Proof.
  destruct Hbs as (k & Hk & ->). pose proof (Z.pow_pos_nonneg 2 k ltac:(lia) ltac:(lia)).
  pose proof (Z.pow_le_mono_r 2 k 16 ltac:(lia) ltac:(lia)). lia.
Qed.

Lemma nblocks_spec i : 0 <= i -> i < nblocks <-> i * bs < in_size.
Proof.
  intros Hi. pose proof wbs_pos. unfold nblocks.
  pose proof (Z.div_mod (in_size + bs - 1) bs ltac:(lia)).
  pose proof (Z.mod_pos_bound (in_size + bs - 1) bs ltac:(lia)). nia.
Qed.
Lemma nblocks_nonneg : 0 <= nblocks.
Proof. pose proof wbs_pos. unfold nblocks. apply Z.div_pos; lia. Qed.

Lemma chunk_facts i :
  0 <= i < nblocks ->
  Forall is_byte (chunk_of i) /\ zlen (chunk_of i) = Z.min bs (in_size - i * bs) /\
  0 < zlen (chunk_of i) <= bs.
Proof.
  intros Hi. pose proof wbs_pos. pose proof (proj1 (nblocks_spec i ltac:(lia)) ltac:(lia)).
  split; [apply slice_bytes, Hfb|]. unfold chunk_of. rewrite zlen_slice. lia.
Qed.

Lemma comp_facts i :
  0 <= i < nblocks ->
  compress lib codec (chunk_of i) cap = Ok (comp_of i) /\ Forall is_byte (comp_of i) /\
  0 < zlen (comp_of i) < 2 ^ 21 /\
  decompress lib codec (comp_of i) (zlen (chunk_of i)) (zlen (chunk_of i)) = Ok (chunk_of i).
Proof.
  intros Hi. destruct (chunk_facts i Hi) as (Hb & _ & Hl). pose proof wbs_pos.
  destruct (compress_restores lib codec (chunk_of i) bs Hb Hl ltac:(lia)) as (d & Hd & H1 & H2 & H3).
  unfold comp_of. rewrite Hd. done.
Qed.

Lemma crc_bytes v : zlen (store_u32_le (zeros 4) 0 v) = 4 /\ Forall is_byte (store_u32_le (zeros 4) 0 v).
Proof.
  rewrite store_u32_val. split; [by rewrite zlen_put|]. apply put_byte; [apply zeros_byte|apply le_bytes_byte].
Qed.

Lemma enc_facts i :
  0 <= i < nblocks ->
  Forall is_byte (enc_of i) /\
  zlen (enc_of i) = zlen (comp_of i) + (if zo_verify opts then 4 else 0) /\
  (if zo_verify opts then 4 else 0) < zlen (enc_of i) < 2 ^ 22.
Proof.
  intros Hi. destruct (comp_facts i Hi) as (_ & Hb & Hl & _). unfold enc_of.
  destruct (crc_bytes (crc32c_salt false 0 (comp_of i))) as [H4 Hcb]. rewrite zlen_app.
  destruct (zo_verify opts); [rewrite H4|change (zlen []) with 0];
    (split; [apply Forall_app; split; [done|first [exact Hcb|constructor]]|lia]).
Qed.

Lemma encs_snoc k : 0 <= k -> encs (k + 1) = encs k ++ [enc_of k].
Proof. intros Hk. exact (slice_snoc enc_of k Hk). Qed.
Lemma lens_snoc k : 0 <= k -> lens (k + 1) = lens k ++ [zlen (enc_of k)].
Proof. intros Hk. unfold lens. rewrite encs_snoc by done. by rewrite fmap_app. Qed.
Lemma zlen_lens k : 0 <= k -> zlen (lens k) = k.
Proof. intros Hk. unfold lens, encs. rewrite !zlen_fmap. unfold zlen. rewrite length_seqZ. lia. Qed.
Lemma concat_snoc k : 0 <= k -> concat (encs (k + 1)) = concat (encs k) ++ enc_of k.
Proof. intros Hk. rewrite encs_snoc, concat_app by done. simpl. by rewrite app_nil_r. Qed.

(** The output after [k] blocks. *)
Definition out_at (k : Z) (f : file) : Prop :=
  holds f kSpace (concat (encs k)) /\ f_size f = kSpace + zlen (concat (encs k)) /\ file_bytes f.

Lemma out_at_next k f :
  0 <= k < nblocks -> out_at k f ->
  let p := kSpace + zlen (concat (encs k)) in
  let f1 := file_write f p (comp_of k) in
  let f2 := file_write f1 (p + zlen (comp_of k)) (store_u32_le (zeros 4) 0 (crc32c_salt false 0 (comp_of k))) in
  out_at (k + 1) (if zo_verify opts then f2 else f1).
Proof.
  intros Hk (Hh & Hs & Hb) p f1 f2. destruct (comp_facts k Hk) as (_ & Hcb & Hcl & _).
  destruct (crc_bytes (crc32c_salt false 0 (comp_of k))) as [H4 Hb4].
  destruct (holds_append f _ (comp_of k) kSpace ltac:(done) Hh Hs) as [Hh1 Hs1]. fold p f1 in Hh1, Hs1.
  assert (file_bytes f1) as Hb1 by by apply file_bytes_write.
  unfold out_at. rewrite concat_snoc by lia. unfold enc_of. destruct (zo_verify opts).
  - destruct (holds_append f1 _ (store_u32_le (zeros 4) 0 (crc32c_salt false 0 (comp_of k))) kSpace
      ltac:(done) Hh1 Hs1) as [Hh2 Hs2].
    assert (kSpace + zlen (concat (encs k) ++ comp_of k) = p + zlen (comp_of k)) as Hp
      by (rewrite zlen_app; unfold p; lia).
    rewrite Hp in Hh2, Hs2. rewrite app_assoc. split_and!; [done|done|by apply file_bytes_write].
  - rewrite app_nil_r. done.
Qed.

Lemma write_blocks_runs fuel k w :
  0 <= k <= nblocks -> in_size - Z.min (k * bs) in_size < Z.of_nat fuel -> ws_in w = fin -> out_at k (ws_out w) ->
  runs (write_blocks lib opts fuel codec bs cap in_size (Z.min (k * bs) in_size)
          (kSpace + zlen (concat (encs k))) (lens k)) w
    (fun r f => r = (kSpace + zlen (concat (encs nblocks)), lens nblocks) /\ out_at nblocks f).
Proof.
  revert k w. induction fuel as [|fuel IH]; intros k w Hk Hf Hw Ho.
  { lia. }
  pose proof wbs_pos as Hp. pose proof (nblocks_spec k ltac:(lia)) as Hn. simpl.
  destruct (Z.ltb_spec (Z.min (k * bs) in_size) in_size) as [Hlt|Hge].
  2:{ apply runs_ret. replace nblocks with k; [done|]. lia. }
  assert (0 <= k < nblocks) as Hkn by lia. replace (Z.min (k * bs) in_size) with (k * bs) by lia.
  destruct (chunk_facts k Hkn) as (_ & Hcl & _). destruct (comp_facts k Hkn) as (Hc & _ & Hz & _).
  eapply runs_bind.
  { apply runs_pread with (Q := fun b f => b = chunk_of k /\ f = ws_out w); rewrite ?Hw; [lia..|done]. }
  intros b f [-> ->].
  eapply runs_bind.
  { apply runs_lift with (a := comp_of k) (Q := fun c f => c = comp_of k /\ f = ws_out w); [|done].
    rewrite Hc. by rewrite (proj2 (Z.leb_gt _ _)) by lia. }
  simpl. intros c f [-> ->].
  eapply runs_bind; [by apply runs_pwrite with (Q := fun _ f =>
    f = file_write (ws_out w) (kSpace + zlen (concat (encs k))) (comp_of k))|].
  simpl. intros _ f ->.
  pose proof (out_at_next k (ws_out w) Hkn Ho) as Hnext. cbv zeta in Hnext.
  destruct (enc_facts k Hkn) as (_ & Hel & Her).
  eapply runs_bind with (P := fun eo f => eo = (zlen (enc_of k), kSpace + zlen (concat (encs (k + 1)))) /\
    out_at (k + 1) f).
  { rewrite concat_snoc, zlen_app, Hel by lia. destruct (zo_verify opts).
    - eapply runs_bind; [apply runs_pwrite with (Q := fun _ f => out_at (k + 1) f); exact Hnext|].
      intros [] f Hf'. apply runs_ret. split; [f_equal; lia|exact Hf'].
    - apply runs_ret. split; [f_equal; lia|exact Hnext]. }
  simpl. intros eo f [-> Hof].
  rewrite u32_small by (destruct (zo_verify opts); lia). rewrite <- lens_snoc by lia.
  replace (k * bs + Z.min bs (in_size - k * bs)) with (Z.min ((k + 1) * bs) in_size) by lia.
  apply IH; try done; lia.
Qed.
End run.

(** ** The index region *)

Lemma store_index_app index : forall pre i,
  zlen pre = i * 4 ->
  store_index (pre ++ zeros (zlen index * 4)) i index = pre ++ concat (le_bytes 4 <$> index).
Proof.
  induction index as [|e index IH]; intros pre i Hi; [done|].
  rewrite fmap_cons, concat_cons. cbn [store_index].
  replace (store_u32_le (pre ++ zeros (zlen (e :: index) * 4)) (i * 4) e)
    with ((pre ++ le_bytes 4 e) ++ zeros (zlen index * 4)).
  - rewrite IH by (rewrite zlen_app, zlen_le_bytes; lia). by rewrite <- app_assoc.
  - pose proof (zlen_nonneg index). rewrite store_u32_val. unfold put. rewrite ztake_app_exact by done.
    rewrite <- app_assoc. f_equal. f_equal. rewrite zlen_le_bytes, zlen_cons.
    rewrite <- (zdrop_zdrop (Z.of_nat 4)), (zdrop_app_exact (i * 4)) by (pose proof (zlen_nonneg pre); lia).
    unfold zdrop, zeros. rewrite drop_replicate. f_equal. lia.
Qed.

Lemma store_index_val index :
  store_index (zeros (zlen index * 4)) 0 index = concat (le_bytes 4 <$> index).
Proof. exact (store_index_app index [] 0 eq_refl). Qed.

Lemma zlen_raw_index index : zlen (concat (le_bytes 4 <$> index)) = zlen index * 4.
Proof.
  induction index as [|e index IH]; [done|]. rewrite fmap_cons, concat_cons.
  rewrite zlen_app, zlen_le_bytes, zlen_cons, IH. lia.
Qed.

Lemma raw_index_bytes index : Forall is_byte (concat (le_bytes 4 <$> index)).
Proof.
  induction index as [|e index IH]; [constructor|]. rewrite fmap_cons, concat_cons. apply Forall_app. split; [apply le_bytes_byte|done].
Qed.

Lemma load_index_concat index :
  Forall (fun e => 0 <= e < 2 ^ 32) index ->
  load_index (concat (le_bytes 4 <$> index)) (zlen index) = index.
Proof.
  intros He. apply list_eq_bget; [by rewrite zlen_load_index by apply zlen_nonneg|].
  rewrite zlen_load_index by apply zlen_nonneg. intros i Hi. unfold load_index.
  fold (slice (fun i => load_u32_le (concat (le_bytes 4 <$> index)) (i * 4)) 0 (zlen index)).
  rewrite bget_slice by done. rewrite Z.add_0_l.
  destruct (lookup_lt_is_Some_2 index (Z.to_nat i)) as [e Hie]; [unfold zlen in Hi; lia|].
  pose proof (take_drop_middle index _ _ Hie) as Hsp.
  assert (sub (i * 4) 4 (concat (le_bytes 4 <$> index)) = le_bytes 4 e) as Hsub.
  { rewrite <- Hsp at 1. rewrite fmap_app, concat_app, fmap_cons, concat_cons. unfold sub.
    rewrite zdrop_app_exact; [apply ztake_app_exact; by rewrite zlen_le_bytes|].
    rewrite zlen_raw_index. fold (ztake i index). rewrite zlen_ztake. zlen_nonneg. lia. }
  rewrite (load_field_u32 _ (i * 4) (raw_index_bytes index) ltac:(lia) e) by (rewrite ?zlen_raw_index; lia || done).
  rewrite Forall_lookup in He. specialize (He _ _ Hie). simpl in He. rewrite Z.mod_small by lia.
  unfold bget. symmetry. apply nth_lookup_Some with (d := 0) in Hie. done.
Qed.

(** ** Header and trailer *)

Lemma region_of_spec opts ht :
  zht_ok ht -> is_digest_enabled ht = zo_calc_digest opts ->
  exists d, 0 <= d < 2 ^ 32 /\ region_of opts ht = (with_digest ht d, serialize (with_digest ht d)) /\
    region_digest_ok (with_digest ht d) (serialize (with_digest ht d)) = true.
Proof.
  intros Hok Hd. unfold region_of. destruct (zo_calc_digest opts) eqn:Ho.
  - destruct (set_region_digest_spec ht Hok) as (d & ? & ? & _ & ?). eauto.
  - exists (z_digest ht). assert (with_digest ht (z_digest ht) = ht) as -> by by destruct ht.
    split; [by destruct Hok as (_ & ? & _)|]. split; [done|]. unfold region_digest_ok. by rewrite Hd.
Qed.

Lemma with_digest_ok ht d : zht_ok ht -> 0 <= d < 2 ^ 32 -> zht_ok (with_digest ht d).
Proof. unfold zht_ok. simpl. tauto. Qed.

Section finish.
Context (lib : codec_lib) `{!codec_roundtrip lib} (opts : ZFileWriteOptions) (codec : BlockCodec).
Context (fin : file) (in_size : Z).
Abbreviation bs := (zo_block_size opts).
Context (Hbs : pow2_size bs) (Hin : 0 <= in_size <= f_size fin) (Hfb : file_bytes fin).
Context (Halgo : is_byte (zo_algo opts)) (Hlevel : is_byte (zo_level opts)).
Context (Hmax : in_size <= kMaxIndexSize * bs).
Abbreviation n := (nblocks opts in_size).
Abbreviation index := (lens lib opts codec fin in_size n).
Abbreviation data := (concat (encs lib opts codec fin in_size n)).
Abbreviation raw := (concat (le_bytes 4 <$> index)).
Definition ioff : Z := kSpace + zlen data.

(** The two records, but for the digest. *)
Definition base_header (flags : Z) : HeaderTrailer :=
  ZHT kHeaderSize 0 flags ioff n in_size (crc32c false 0 raw) 0
    (Opt bs (zo_algo opts) (zo_level opts) 0 0 0 (if zo_verify opts then 1 else 0)).
Definition base_flags : Z := if zo_calc_digest opts then 22 else 6.

Lemma n_range : 0 <= n <= kMaxIndexSize.
Proof.
  split; [by eapply nblocks_nonneg|]. pose proof (wbs_pos opts Hbs). unfold nblocks.
  apply Z.lt_succ_r, Z.div_lt_upper_bound; lia.
Qed.

Lemma index_range :
  Forall (fun e => (if zo_verify opts then 4 else 0) < e < 2 ^ 22) index.
Proof.
  unfold lens, encs. rewrite <- list_fmap_compose. apply Forall_fmap, Forall_forall.
  intros i Hi%elem_of_seqZ. simpl. pose proof n_range.
  destruct (enc_facts lib opts codec fin in_size Hbs Hfb i ltac:(lia)) as (_ & _ & Hx). exact Hx.
Qed.

Lemma zlen_index : zlen index = n.
Proof. apply zlen_lens. by apply n_range. Qed.
Lemma ioff_sum : ioff = kSpace + zsum index.
Proof. unfold ioff. by rewrite zlen_concat. Qed.

Lemma ioff_range : kSpace <= ioff < 2 ^ 62.
Proof.
  pose proof n_range. assert (Forall (fun e => 0 <= e < 2 ^ 22) index) as He
    by (eapply Forall_impl; [exact index_range|]; cbv beta; intros x; case_match; lia).
  pose proof (zsum_bound _ _ He) as Hs. rewrite zlen_index in Hs. rewrite ioff_sum.
  unfold kSpace, kMaxIndexSize in *. lia.
Qed.

Lemma base_header_ok flags : 0 <= flags < 2 ^ 64 -> zht_ok (base_header flags).
Proof.
  intros Hf. pose proof n_range. pose proof ioff_range. pose proof (crc32c_bound raw) as Hcrc.
  destruct (wbs_pos opts Hbs). unfold kSpace, kMaxIndexSize, base_header in *. revert Hcrc.
  generalize (crc32c false 0 raw) as c. intros c Hcrc.
  unfold zht_ok, opt_ok, is_byte in *.
  cbn [z_size z_digest z_flags z_index_offset z_index_size z_original_file_size z_index_crc z_reserved_0
    z_opt o_block_size o_algo o_level o_use_dict o_reserved o_dict_size o_verify].
  destruct (zo_verify opts); split_and!; done || lia.
Qed.

Lemma new_header_flags :
  set_flag_bit (new_header opts ioff in_size index raw) kFlagShiftHeader = base_header (base_flags + 1).
Proof.
  unfold new_header, base_header, base_flags. rewrite zlen_index. by destruct (zo_calc_digest opts).
Qed.

Lemma trailer_flags d :
  with_digest (clr_flag_bit (with_digest (base_header (base_flags + 1)) d) kFlagShiftHeader) 0
  = base_header base_flags.
Proof. unfold base_header, base_flags. by destruct (zo_calc_digest opts). Qed.

(** What the finished file holds. *)
Definition written (f : file) : Prop :=
  file_bytes f /\ f_size f = ioff + n * 4 + kSpace /\
  holds f kSpace data /\ holds f ioff raw /\
  exists d d', 0 <= d < 2 ^ 32 /\ 0 <= d' < 2 ^ 32 /\
    let hht := with_digest (base_header (base_flags + 1)) d in
    let tht := with_digest (base_header base_flags) d' in
    holds f 0 (serialize hht) /\ region_digest_ok hht (serialize hht) = true /\
    holds f (ioff + n * 4) (serialize tht).

Lemma flags_range k : 0 <= k <= 1 -> 0 <= base_flags + k < 2 ^ 64.
Proof. unfold base_flags. destruct (zo_calc_digest opts); lia. Qed.

(** Data and index are in place. *)
Definition body (f : file) : Prop :=
  file_bytes f /\ f_size f = ioff + n * 4 /\ holds f kSpace data /\ holds f ioff raw.

Lemma index_written f w :
  out_at lib opts codec fin in_size n f -> ws_out w = f ->
  runs (if 0 <? n * 4 then full_pwrite raw ioff else mret tt) w (fun _ f => body f).
Proof.
  intros (Hh & Hs & Hb) Hw. pose proof (zlen_raw_index index) as Hzr. rewrite zlen_index in Hzr.
  pose proof n_range. unfold body. case_if.
  - apply runs_pwrite. rewrite Hw.
    destruct (holds_append f data raw kSpace ltac:(done) Hh Hs) as [Hh1 Hs1].
    fold ioff in Hh1, Hs1. rewrite zlen_app in Hs1. apply holds_app_inv in Hh1 as [Hd Hr].
    split; [apply file_bytes_write; [done|apply raw_index_bytes]|]. split; [unfold ioff in *; lia|done].
  - apply runs_ret. rewrite Hw. split; [done|]. split; [unfold ioff; lia|]. split; [done|].
    replace raw with (@nil Z) by (symmetry; apply length_zero_iff_nil; unfold zlen in Hzr; lia).
    apply holds_nil. unfold ioff. lia.
Qed.

Lemma written_of f d d' :
  0 <= d < 2 ^ 32 -> 0 <= d' < 2 ^ 32 -> body f ->
  let hht := with_digest (base_header (base_flags + 1)) d in
  let tht := with_digest (base_header base_flags) d' in
  region_digest_ok hht (serialize hht) = true ->
  written (file_truncate (file_write (file_write f 0 (serialize hht)) (ioff + n * 4) (serialize tht))
             (ioff + n * 4 + kSpace)).
Proof.
  intros Hd Hd' (Hb & Hs & Hdt & Hr) hht tht Hdg. pose proof n_range. pose proof ioff_range.
  assert (zht_ok hht) as Hh by (apply with_digest_ok; [apply base_header_ok, flags_range; lia|done]).
  assert (zht_ok tht) as Ht by (apply with_digest_ok; [|done];
    rewrite <- (Z.add_0_r base_flags); apply base_header_ok, flags_range; lia).
  pose proof (zlen_serialize hht) as Hzh. pose proof (zlen_serialize tht) as Hzt.
  pose proof (zlen_raw_index index) as Hzr. rewrite zlen_index in Hzr.
  assert (zlen data = ioff - kSpace) as Hzd by (unfold ioff; lia).
  set (f1 := file_write f 0 (serialize hht)). set (f2 := file_write f1 _ _).
  assert (f_size f1 = ioff + n * 4) as Hs1.
  { unfold f1. rewrite f_size_write_end by (unfold kSpace in *; lia). unfold kSpace in *. lia. }
  assert (f_size f2 = ioff + n * 4 + kSpace) as Hs2.
  { unfold f2. rewrite f_size_write_end by (unfold kSpace in *; lia). unfold kSpace in *. lia. }
  assert (forall p x, kSpace <= p -> p + zlen x <= ioff + n * 4 -> holds f p x ->
    holds (file_truncate f2 (ioff + n * 4 + kSpace)) p x) as Hkeep.
  { intros p x Hp Hx Hhold. apply holds_truncate; [|unfold kSpace in *; lia].
    apply holds_write_other; [|lia]. apply holds_write_other; [done|lia]. }
  split; [by repeat first [apply file_bytes_truncate|apply file_bytes_write]; auto using serialize_byte|].
  split; [done|]. split; [apply Hkeep; [lia|lia|done]|].
  split; [apply Hkeep; [lia|lia|done]|]. exists d, d'.
  split; [done|]. split; [done|]. cbv zeta. fold hht tht. split; [|split; [done|]].
  - apply holds_truncate; [|unfold kSpace in *; lia]. apply holds_write_other; [|lia].
    destruct (holds_write f 0 (serialize hht) ltac:(lia)); [done|unfold kSpace in *; lia].
  - apply holds_truncate; [|lia].
    destruct (holds_write f1 (ioff + n * 4) (serialize tht) ltac:(unfold kSpace in *; lia));
      [done|unfold kSpace in *; lia].
Qed.

Lemma write_zfile_runs w :
  ws_in w = fin -> create_block_codec lib (zo_algo opts) (zo_level opts) = Some codec ->
  runs (write_zfile lib opts in_size) w (fun _ f => written f).
Proof.
  intros Hw Hc. unfold write_zfile. cbv zeta.
  rewrite (proj2 (pow2_size_test bs ltac:(destruct (wbs_pos opts Hbs); lia)) Hbs). rewrite Hc.
  eapply runs_bind; [apply runs_create with (Q := fun _ f => f = empty_file); done|]. intros [] f ->.
  eapply runs_bind; [apply runs_pwrite with (Q := fun _ f => out_at lib opts codec fin in_size 0 f)|].
  { unfold out_at. change (encs lib opts codec fin in_size 0) with (@nil bytes). split_and!; [|done|].
    - apply holds_nil. change (512 <= 512). lia.
    - apply file_bytes_write; [apply file_bytes_empty|apply zeros_byte]. }
  intros [] f Hf.
  eapply runs_bind.
  { pose proof (write_blocks_runs lib opts codec fin in_size Hbs Hin Hfb (S (Z.to_nat in_size)) 0
      (WState (ws_in w) f [])) as Hrun. pose proof n_range.
    simpl in Hrun. rewrite Z.min_l in Hrun by lia. apply Hrun; try done; lia. }
  intros r f1 [-> Hf1]. rewrite store_index_val, zlen_index. fold ioff.
  eapply runs_bind; [apply (index_written f1 (WState (ws_in w) f1 []) Hf1 eq_refl)|].
  intros [] f2 Hf2. rewrite new_header_flags.
  destruct (region_of_spec opts (base_header (base_flags + 1))) as (d & Hd & -> & Hdok);
    [by apply base_header_ok, flags_range|by unfold base_flags; destruct (zo_calc_digest opts)|].
  eapply runs_bind; [apply runs_pwrite_eq|].
  intros [] f3 ->. rewrite trailer_flags.
  destruct (region_of_spec opts (base_header base_flags)) as (d' & Hd' & -> & _);
    [apply base_header_ok; pose proof (flags_range 0 ltac:(lia)); lia|by unfold base_flags; destruct (zo_calc_digest opts)|].
  eapply runs_bind; [apply runs_pwrite_eq|].
  intros [] f4 ->. apply runs_ftruncate. simpl ws_out. apply written_of; try done.
Qed.

(** ** Opening what was written *)

Lemma codec_is_available algo level c :
  create_block_codec lib algo level = Some c -> block_codec_available lib algo = true.
Proof. unfold create_block_codec, block_codec_available. repeat case_match; done. Qed.

Lemma index_read {W} (src : BlobSource W) p (w : W) :
  read_exact src (n * 4) p w = (Ok raw, w) -> 0 <= n ->
  (if 0 <? n * 4 then read_exact src (n * 4) p else mret []) w = (Ok raw, w).
Proof.
  intros H Hn. case_if; [done|]. pose proof (zlen_raw_index index) as Hz. rewrite zlen_index in Hz.
  replace raw with (@nil Z); [done|]. symmetry. apply length_zero_iff_nil. unfold zlen in Hz. lia.
Qed.

Lemma load_written : load_index raw n = index.
Proof.
  pose proof (load_index_concat index) as HL. rewrite zlen_index in HL. apply HL.
  eapply Forall_impl; [exact index_range|]. cbv beta. intros x. case_match; lia.
Qed.

Definition written_view {W} (f : file) (verify : bool) (d' : Z) : ZFileSource W :=
  ZFile (file_source f) (with_digest (base_header base_flags) d')
    (jump_of (group_of bs) kSpace index) codec (zo_verify opts && verify) bs.

Lemma build_written :
  build index kSpace bs (zo_verify opts) = Ok (jump_of (group_of bs) kSpace index)
    /\ groups_ok (group_of bs) index \/
  build index kSpace bs (zo_verify opts) = Err (Errno ERANGE) /\ ~ groups_ok (group_of bs) index.
Proof.
  pose proof index_range as He. pose proof ioff_range. pose proof ioff_sum.
  assert (Forall (fun e => 0 <= e) index) as He0
    by (eapply Forall_impl; [exact He|]; cbv beta; intros x; case_match; lia).
  pose proof (build_spec index kSpace bs (zo_verify opts) ltac:(destruct (wbs_pos opts Hbs); lia)
    ltac:(done) He0 ltac:(lia)) as Hb.
  assert (entries_ok (min_entry (zo_verify opts)) index) as Hent
    by (eapply Forall_impl; [exact He|]; unfold min_entry; cbv beta; intros x; case_match; lia).
  destruct (build _ _ _ _) as [j|e]; [left|right].
  - by destruct Hb as (_ & _ & Hg & ->).
  - destruct Hb as [[_ []]|[[_ []]|[-> Hg]]]; done.
Qed.

Lemma open_written {W} f verify (w : W) :
  create_block_codec lib (zo_algo opts) (zo_level opts) = Some codec -> written f ->
  exists d', 0 <= d' < 2 ^ 32 /\ zfile_open lib (file_source f) verify w =
    (match build index kSpace bs (zo_verify opts) with
     | Ok _ => Ok (written_view f verify d')
     | Err e => Err e
     end, w).
Proof.
  intros Hc (Hb & Hs & Hdt & Hr & d & d' & Hd & Hd' & Hh & Hdg & Ht). exists d'. split; [done|].
  pose proof n_range as Hn. pose proof ioff_range as Hio.
  set (hht := with_digest (base_header (base_flags + 1)) d) in *.
  set (tht := with_digest (base_header base_flags) d') in *.
  assert (zht_ok hht) as Hhok by (apply with_digest_ok; [apply base_header_ok, flags_range; lia|done]).
  assert (zht_ok tht) as Htok by (apply with_digest_ok; [|done];
    rewrite <- (Z.add_0_r base_flags); apply base_header_ok, flags_range; lia).
  pose proof (read_held f 0 _ w ltac:(lia) Hh) as R1.
  pose proof (read_held f (ioff + n * 4) _ w ltac:(unfold kSpace in *; lia) Ht) as R2.
  pose proof (read_held f ioff _ w ltac:(unfold kSpace in *; lia) Hr) as R3.
  rewrite zlen_serialize in R1, R2. rewrite zlen_raw_index, zlen_index in R3.
  assert (is_header hht = true /\ is_header_overwrite hht = false /\ is_data_file hht = true /\
    is_trailer tht = true /\ is_data_file tht = true /\ is_sealed tht = true) as (F1&F2&F3&F4&F5&F6)
    by (unfold hht, tht, base_flags; by destruct (zo_calc_digest opts)).
  unfold zfile_open. cbv zeta. change (src_size (@file_source W f)) with (f_size f). rewrite Hs.
  rewrite (proj2 (Z.ltb_ge _ _)) by (unfold kSpace in *; lia).
  erewrite io_step by exact R1. erewrite io_step by (apply io_step_lift, zparse_serialize; done).
  rewrite F1, Hdg, F2, F3. cbn [negb].
  replace (ioff + n * 4 + kSpace - kSpace) with (ioff + n * 4) by lia.
  erewrite io_step.
  2:{ erewrite io_step by exact R2. erewrite io_step by (apply io_step_lift, zparse_serialize; done).
      rewrite F4, F5, F6. reflexivity. }
  cbv beta iota. change (z_index_size tht) with n. change (z_index_offset tht) with ioff.
  change (z_opt tht) with (Opt bs (zo_algo opts) (zo_level opts) 0 0 0 (if zo_verify opts then 1 else 0)).
  cbn [o_block_size o_algo o_level o_use_dict o_dict_size o_verify].
  rewrite (proj2 (Z.ltb_ge _ _)) by lia. unfold kMaxIndexSize in Hn.
  rewrite (u64_small (n * 4)), (u64_small (ioff + n * 4 - ioff)), (proj2 (Z.ltb_ge _ (n * 4))) by lia.
  rewrite andb_false_r. change (negb (0 =? 0) || negb (0 =? 0)) with false. cbv iota.
  replace (block_codec_available lib (zo_algo opts)) with true
    by (symmetry; by eapply codec_is_available). cbn [negb].
  erewrite io_step.
  2:{ apply (index_read _ _ w R3). lia. }
  change (z_index_crc tht) with (crc32c false 0 raw). rewrite Z.eqb_refl, andb_false_r.
  rewrite load_written.
  replace (negb ((if zo_verify opts then 1 else 0) =? 0)) with (zo_verify opts)
    by by destruct (zo_verify opts).
  rewrite Z.add_0_r, Hc. unfold mbind, io_bind, io_lift.
  destruct (build index kSpace bs (zo_verify opts)) as [j|e] eqn:Hj; [|done].
  destruct build_written as [[Hj' _]|[Hj' _]]; [|congruence]. rewrite Hj in Hj'. injection Hj' as ->.
  reflexivity.
Qed.
(** ** Reading it back *)

Lemma lens_prefix i : 0 <= i <= n -> ztake i index = lens lib opts codec fin in_size i.
Proof.
  intros Hi. unfold lens, encs. rewrite <- !list_fmap_compose.
  apply (ztake_slice (zlen ∘ enc_of lib opts codec fin in_size)). lia.
Qed.

Lemma blk_pos_written i :
  0 <= i <= n -> blk_pos index i = kSpace + zlen (concat (encs lib opts codec fin in_size i)).
Proof. intros Hi. unfold blk_pos, block_pos. by rewrite lens_prefix, zlen_concat. Qed.

Lemma raw_written f i :
  holds f kSpace data -> 0 <= i < n ->
  blk_raw (f_byte f) index i = enc_of lib opts codec fin in_size i.
Proof.
  intros Hh Hi. unfold blk_raw. rewrite !blk_pos_written by lia.
  rewrite concat_snoc, zlen_app by lia.
  assert (exists rest, data = (concat (encs lib opts codec fin in_size i) ++
    enc_of lib opts codec fin in_size i) ++ rest) as [rest Hd].
  { unfold encs. replace n with (i + (1 + (n - i - 1))) by lia.
    rewrite seqZ_app, seqZ_app, !fmap_app, !concat_app by lia. rewrite Z.add_0_l. simpl.
    rewrite app_nil_r. eexists. by rewrite app_assoc. }
  rewrite Hd in Hh. apply holds_app_inv in Hh as [Hh _]. apply holds_app_inv in Hh as [_ [Hx _]].
  rewrite <- Hx at 2. f_equal. lia.
Qed.

(** A read of nothing does not fail. *)
Lemma zero_read_ok {W} (z : ZFileSource W) count off x r x' :
  0 <= count -> avail (z_original_file_size (zf_ht z)) count off <= 0 ->
  zfile_pread lib z count off x = (r, x') -> r = Ok [].
Proof.
  unfold avail. intros Hc Ha. unfold zfile_pread. case_if; [by intros [= <- _]|].
  rewrite (proj2 (Z.eqb_eq _ 0)) by (case_if; lia). by intros [= <- _].
Qed.

Section read_back.
Context {W : Type} (f : file) (verify : bool) (d' : Z).
Context (Hw : written f) (Hg : groups_ok (group_of bs) index) (Hv : zo_verify opts = true -> verify = true).
Abbreviation z := (@written_view W f verify d').

Lemma written_ok : zfile_ok z index.
Proof.
  pose proof ioff_range. pose proof ioff_sum. pose proof n_range as Hn. pose proof (wbs_pos opts Hbs) as Hp.
  split; simpl.
  - done.
  - eapply Forall_impl; [exact index_range|]. cbv beta. intros x.
    destruct (zo_verify opts), verify; simpl; lia.
  - lia.
  - intros i Hi. destruct (group_pow2 bs Hbs) as (k & Hk & Hgk).
    apply (jump_at_of _ kSpace (group_pos _ Hbs) ltac:(done) _ k); try lia.
    eapply Forall_impl; [exact index_range|]. cbv beta. intros x. case_match; lia.
  - unfold kMaxIndexSize in *. lia.
  - rewrite zlen_index. pose proof (nblocks_spec opts in_size Hbs n ltac:(lia)). lia.
Qed.

Lemma written_source : SourceSpec (fun _ => False) (@file_source W f) (f_byte f).
Proof.
  destruct Hw as (Hb & Hs & _). pose proof ioff_range. pose proof n_range.
  apply fn_source_spec; [|exact Hb]. rewrite Hs. unfold kSpace, kMaxIndexSize in *. lia.
Qed.

Lemma crc_written c :
  Forall is_byte c ->
  load_u32_le (store_u32_le (zeros 4) 0 (crc32c_salt false 0 c)) 0 = crc32c_salt false 0 c.
Proof.
  intros Hb. rewrite store_u32_val, load_put_u32; [|apply zeros_byte|lia|done].
  apply Z.mod_small. unfold crc32c_salt, crc32c_extend. case_if; [lia|]. apply crc32c_sw_bound. lia.
Qed.

Lemma block_data_written i :
  0 <= i < n -> block_data z (enc_of lib opts codec fin in_size i) = Ok (comp_of lib opts codec fin in_size i).
Proof.
  intros Hi. destruct (comp_facts lib opts codec fin in_size Hbs Hfb i Hi) as (_ & Hcb & Hz & _).
  destruct (enc_facts lib opts codec fin in_size Hbs Hfb i Hi) as (_ & Hel & _).
  unfold block_data. simpl zf_verify. unfold enc_of in *. destruct (zo_verify opts) eqn:Ev; simpl.
  - rewrite (Hv eq_refl), Hel. simpl.
    replace (_ + 4 - 4) with (zlen (comp_of lib opts codec fin in_size i)) by lia.
    rewrite ztake_app_exact, zdrop_app_exact by done. by rewrite crc_written, Z.eqb_refl by done.
  - by rewrite app_nil_r.
Qed.

Lemma written_decodes i :
  0 <= i < n ->
  blk_decode lib z (f_byte f) index (blk_size z i) i = Ok (chunk_of opts fin in_size i).
Proof.
  intros Hi. destruct Hw as (_ & _ & Hdt & _).
  destruct (chunk_facts opts fin in_size Hbs Hfb i Hi) as (_ & Hcl & _).
  destruct (comp_facts lib opts codec fin in_size Hbs Hfb i Hi) as (_ & _ & _ & Hx).
  unfold blk_decode, decode. rewrite raw_written, block_data_written by done.
  assert (blk_size z i = zlen (chunk_of opts fin in_size i)) as -> by by rewrite Hcl.
  exact Hx.
Qed.

Lemma written_content `{!codec_spec lib} k :
  0 <= k < in_size -> zcontent lib z (f_byte f) index k = f_byte fin k.
Proof.
  intros Hk. pose proof (wbs_pos opts Hbs) as Hp. unfold zcontent. simpl zf_block_size.
  pose proof (Z.div_mod k bs ltac:(lia)). pose proof (Z.mod_pos_bound k bs ltac:(lia)).
  pose proof (Z.div_pos k bs ltac:(lia) ltac:(lia)).
  assert (0 <= k / bs < n) as Hi by (split; [lia|]; apply nblocks_spec; done || lia).
  pose proof (written_decodes (k / bs) Hi) as Hd.
  assert (0 <= blk_size z (k / bs) <= bs) by (unfold blk_size; simpl; lia).
  apply (decode_room lib z bs) in Hd; [|lia..]. fold (blk_decode lib z (f_byte f) index bs (k / bs)) in Hd.
  rewrite Hd. unfold chunk_of. rewrite bget_slice by lia. f_equal. lia.
Qed.

Lemma read_back_ok `{!codec_spec lib} count off :
  0 <= count -> 0 <= off ->
  io_inv (cache_ok lib z (f_byte f) index) (fun _ => False) (zfile_pread lib z count off)
    (fun out => out = slice (f_byte fin) off (avail in_size count off)).
Proof.
  intros Hc Ho [dc w] Hx.
  pose proof (zfile_pread_ok (fun _ => False) lib z (f_byte f) index written_source written_ok
    count off Hc Ho (dc, w) Hx) as H.
  pose proof (wbs_pos opts Hbs) as Hp. pose proof n_range as Hn.
  assert (forall i, off / bs <= i -> i <= (off + avail in_size count off - 1) / bs ->
    0 < avail in_size count off -> 0 <= i < n) as Hrange.
  { intros i H1 H2 Hav. pose proof (Z.div_pos off bs Ho ltac:(lia)). split; [lia|].
    apply nblocks_spec; [done..|lia|].
    pose proof (Z.mul_div_le (off + avail in_size count off - 1) bs ltac:(lia)).
    assert (off + avail in_size count off <= in_size) by (unfold avail in *; lia). nia. }
  destruct (zfile_pread lib z count off (dc, w)) as [[out|e] x'] eqn:Hrun; destruct H as [Hx' H];
    (split; [done|]).
  - subst out. apply slice_ext. intros k Hk. apply written_content. unfold avail in Hk. simpl in Hk. lia.
  - destruct (decide (0 < avail in_size count off)) as [Hav|Hav].
    + destruct H as [[]|[[_ (i & Hi & Hd)]|[_ Hs]]].
      * apply (Hd (chunk_of opts fin in_size i)). apply written_decodes, Hrange; simpl in Hi; lia.
      * pose proof ioff_range. destruct Hw as (_ & Hfs & _). simpl in Hs.
        pose proof (Hrange _ (Z.div_le_mono off (off + avail in_size count off - 1) bs ltac:(lia) ltac:(lia))
          ltac:(lia) Hav) as Hl. rewrite Hfs in Hs.
        pose proof (blk_pos_mono z index written_ok ((off + avail in_size count off - 1) / bs + 1) n
          ltac:(lia) ltac:(rewrite zlen_index; lia)) as Hm.
        rewrite (blk_pos_written n) in Hm by lia. fold ioff in Hm. unfold kSpace in *. lia.
    + exfalso. apply zero_read_ok in Hrun; [done|done|]. simpl. lia.
Qed.
End read_back.
End finish.

Lemma created_algo_byte lib algo level c : create_block_codec lib algo level = Some c -> is_byte algo.
Proof.
  unfold create_block_codec, kAlgoLz4, kAlgoZstd, is_byte. intros H.
  repeat case_match; try done; bool_hyps; lia.
Qed.


#[export] Instance stored_lib_roundtrip : codec_roundtrip stored_lib.
Proof.
  split; simpl.
  - done.
  - intros src cap Hb Hl Hc. exists src. rewrite Z.leb_refl.
    pose proof (Z.div_pos (zlen src) 255 ltac:(lia) ltac:(lia)). split_and!; done || lia.
  - done.
  - intros src cap level Hb Hl Hc. exists src. rewrite Z.leb_refl.
    pose proof (Z.div_pos (zlen src) 256 ltac:(lia) ltac:(lia)).
    assert (zlen src <= cap); [|split_and!; done || lia].
    case_if_in Hc; [|lia]. pose proof (Z.div_pos (131072 - zlen src) 2048 ltac:(lia) ltac:(lia)). lia.
Qed.

Definition example_input : file := File 10 (fun i => i mod 7).
Definition example_opts : ZFileWriteOptions := ZOpts 4 1 0 true true.


(** ** Small blocks *)

Lemma zsum_lower l m : Forall (fun e => m <= e) l -> zlen l * m <= zsum l.
Proof.
  induction 1 as [|x l Hx Hl IH]; cbn [zsum]; [change (zlen []) with 0; lia|]. rewrite zlen_cons. lia.
Qed.

(** Blocks of 512 bytes or less that do not compress overflow the sums of their
    group. *)
Lemma expanding_overflow lib opts codec fin in_size k :
  zo_block_size opts = 2 ^ k -> 0 <= k <= 9 -> zo_verify opts = true -> 65536 <= in_size ->
  (forall i, 0 <= i < group_of (zo_block_size opts) ->
     zo_block_size opts < zlen (comp_of lib opts codec fin in_size i)) ->
  ~ groups_ok (group_of (zo_block_size opts))
      (lens lib opts codec fin in_size (nblocks opts in_size)).
Proof.
  intros Hbs Hk Hv Hin Hexp Hg.
  assert (pow2_size (zo_block_size opts)) as Hp by (exists k; lia).
  assert (group_of (zo_block_size opts) = 2 ^ (16 - k)) as Hgr.
  { rewrite Hbs. unfold group_of, kUinttypeMax. change (65535 + 1) with (2 ^ 16).
    symmetry. apply Z.pow_sub_r; lia. }
  assert (2 ^ (16 - k) * 2 ^ k = 65536) as Hmul
    by (rewrite <- Z.pow_add_r by lia; by replace (16 - k + k) with 16 by lia).
  pose proof (Z.pow_le_mono_r 2 k 9 ltac:(lia) ltac:(lia)) as Hk9.
  pose proof (Z.pow_pos_nonneg 2 k ltac:(lia) ltac:(lia)) as Hk0.
  set (g := 2 ^ (16 - k)) in *. set (b := 2 ^ k) in *. change (2 ^ 9) with 512 in Hk9.
  assert (128 <= g) as Hg128 by nia.
  assert (g <= nblocks opts in_size) as Hn.
  { pose proof (proj2 (nblocks_spec opts in_size Hp (g - 1) ltac:(lia)) ltac:(nia)). lia. }
  specialize (Hg (g - 1)). rewrite Hgr, zlen_lens, Z.mod_small in Hg by lia.
  specialize (Hg ltac:(lia) ltac:(lia)). unfold in_group in Hg.
  rewrite Z.mod_small, Z.sub_diag in Hg by lia. change (ztake 0 _) with (@nil Z) in Hg. simpl in Hg.
  assert (ztake (g - 1) (lens lib opts codec fin in_size (nblocks opts in_size))
    = lens lib opts codec fin in_size (g - 1)) as Hpre.
  { unfold lens, encs. rewrite <- !list_fmap_compose.
    apply (ztake_slice (zlen ∘ enc_of lib opts codec fin in_size)). lia. }
  rewrite Hpre in Hg.
  assert (Forall (fun e => b + 5 <= e) (lens lib opts codec fin in_size (g - 1))) as Hall.
  { unfold lens, encs. rewrite <- list_fmap_compose. apply Forall_fmap, Forall_forall.
    intros i Hi%elem_of_seqZ. simpl. unfold enc_of. rewrite Hv, zlen_app.
    destruct (crc_bytes (crc32c_salt false 0 (comp_of lib opts codec fin in_size i))) as [-> _].
    specialize (Hexp i ltac:(lia)). lia. }
  pose proof (zsum_lower _ _ Hall) as Hsum. rewrite zlen_lens in Hsum by lia.
  unfold kUinttypeMax in Hg. assert (65535 <= (g - 1) * (b + 5)) by nia. lia.
Qed.

(** The writer accepts block sizes whose files it cannot open: with
    checksums and blocks of at most 512 bytes, 64 KiB of data that does not
    compress are written without an error and every open answers ERANGE. *)
Theorem small_blocks_not_reopened {W} lib opts codec in_size w verify (w0 : W) k :
  codec_roundtrip lib -> zo_block_size opts = 2 ^ k -> 0 <= k <= 9 -> zo_verify opts = true ->
  create_block_codec lib (zo_algo opts) (zo_level opts) = Some codec -> is_byte (zo_level opts) ->
  65536 <= in_size <= f_size (ws_in w) -> file_bytes (ws_in w) ->
  in_size <= kMaxIndexSize * zo_block_size opts -> ws_script w = [] ->
  (forall i, 0 <= i < group_of (zo_block_size opts) ->
     zo_block_size opts < zlen (comp_of lib opts codec (ws_in w) in_size i)) ->
  exists f, write_zfile lib opts in_size w = (Ok tt, WState (ws_in w) f []) /\
    zfile_open lib (file_source f) verify w0 = (Err (Errno ERANGE), w0).
Proof.
  intros Hcr Hk Hk9 Hv Hc Hlv Hin Hfb Hmax Hs Hexp.
  assert (pow2_size (zo_block_size opts)) as Hbs by (exists k; lia).
  assert (0 <= in_size <= f_size (ws_in w)) as Hin' by lia.
  pose proof (created_algo_byte _ _ _ _ Hc) as Hal.
  destruct (write_zfile_runs lib opts codec (ws_in w) in_size Hbs Hin' Hfb Hal Hlv Hmax w eq_refl Hc Hs)
    as ([] & f & Hrun & Hw). exists f. split; [done|].
  destruct (open_written lib opts codec (ws_in w) in_size Hbs Hin' Hfb Hal Hlv Hmax f verify w0 Hc Hw)
    as (d' & Hd' & ->).
  destruct (build_written lib opts codec (ws_in w) in_size Hbs Hin' Hfb Hmax) as [[_ Hg]|[-> _]]; [|done].
  exfalso. eapply (expanding_overflow lib opts codec (ws_in w) in_size k); done || lia.
Qed.

(** A codec with one byte of framing, as the real ones have on data they cannot
    compress. *)
Definition framed_lib : codec_lib :=
  CodecLib (fun src n cap => if zlen src - 1 <=? cap then Some (zdrop 1 src) else None)
    (fun src n cap => Some (0 :: src)) (fun n => n + n / 255 + 16)
    (fun src cap => if zlen src - 1 <=? cap then Some (zdrop 1 src) else None)
    (fun src cap level => Some (0 :: src))
    (fun n => n + n / 256 + (if n <? 131072 then (131072 - n) / 2048 else 0)) false.

Lemma framed_lib_roundtrip : codec_roundtrip framed_lib.
Proof.
  split; simpl.
  - done.
  - intros src cap Hb Hl Hc. exists (0 :: src). rewrite zlen_cons.
    pose proof (Z.div_pos (zlen src) 255 ltac:(lia) ltac:(lia)).
    rewrite (proj2 (Z.leb_le _ _)) by lia.
    split_and!; [done|constructor; [unfold is_byte; lia|done]|lia|lia|done].
  - done.
  - intros src cap level Hb Hl Hc. exists (0 :: src). rewrite zlen_cons.
    rewrite (proj2 (Z.leb_le (1 + zlen src - 1) _)) by lia.
    split_and!; [done|constructor; [unfold is_byte; lia|done]|lia| |done].
    pose proof (Z.div_mod (zlen src) 256 ltac:(lia)). pose proof (Z.mod_pos_bound (zlen src) 256 ltac:(lia)).
    pose proof (Z.div_mod (131072 - zlen src) 2048 ltac:(lia)).
    pose proof (Z.mod_pos_bound (131072 - zlen src) 2048 ltac:(lia)). case_if_in Hc; lia.
Qed.

Definition constant_input (n : Z) : file := File n (fun _ => 7).

Lemma small_blocks_not_reopened_witness :
  exists f, write_zfile framed_lib (ZOpts 512 1 0 true true) 65536
      (WState (constant_input 65536) empty_file []) = (Ok tt, WState (constant_input 65536) f []) /\
    zfile_open framed_lib (file_source f) true tt = (Err (Errno ERANGE), tt).
Proof.
  apply (small_blocks_not_reopened framed_lib (ZOpts 512 1 0 true true) Lz4Codec 65536
    (WState (constant_input 65536) empty_file []) true tt 9); try done.
  - apply framed_lib_roundtrip.
  - intros i Hi. change (group_of _) with 128 in Hi. unfold comp_of.
    assert (zlen (chunk_of (ZOpts 512 1 0 true true) (constant_input 65536) 65536 i) = 512) as Hz
      by (unfold chunk_of; rewrite zlen_slice; cbn [zo_block_size]; lia).
    cbn [compress]. unfold lz4_compress. cbn [ws_in]. rewrite Hz. cbn [zo_block_size compress_bound].
    change (lz4_compress_bound framed_lib 512) with 530.
    change (LZ4_MAX_INPUT_SIZE <? 512) with false. change (530 + 8 <? 530) with false. cbv iota.
    cbn [framed_lib lz4_compress_default]. rewrite (proj2 (Z.leb_gt _ _)); rewrite zlen_cons, Hz; lia.
Defined.
