(* ===== verification/LayerFile.v ===== *)
(** * A sealed layer file

    The layout every producer of plain sealed layers writes (the single-layer
    writer, the seal of a writable layer, the empty layer, the sparse export):
    header, data, index, padding, trailer in the last 4096 bytes.  A file with
    this layout opens, and its merged view reads as its index says. *)
From S2P Require Import Prelude Bytes LsmtFormat Source File Segments Merge Lsmt Journal FilePair LsmtRw Writer.

Open Scope Z_scope.

(** [store_segment_le] of every extent. *)
Fixpoint store_segments (raw : bytes) (i : Z) (segs : list segment_mapping) : bytes :=
  match segs with
  | [] => raw
  | s :: segs => store_segments (store_segment_le raw (i * kEncodedSize) s) (i + 1) segs
  end.

(** ** The index region *)

Lemma zdrop_zeros m k : 0 <= m -> zdrop m (zeros k) = zeros (k - m).
Proof. intros Hm. unfold zdrop, zeros. rewrite drop_replicate. f_equal. lia. Qed.

Lemma put_pair (pre : bytes) p q x y n :
  zlen pre = p -> q = p + zlen x -> zlen x + zlen y <= n ->
  put (put (pre ++ zeros n) p x) q y = (pre ++ x ++ y) ++ zeros (n - zlen x - zlen y).
Proof.
  intros Hp -> Hn. pose proof (zlen_nonneg pre). pose proof (zlen_nonneg x). pose proof (zlen_nonneg y).
  unfold put at 2. rewrite ztake_app_exact by done.
  rewrite <- (zdrop_zdrop (zlen x) p), (zdrop_app_exact p), zdrop_zeros by (done || lia).
  unfold put. rewrite (app_assoc pre x), ztake_app_exact by (rewrite zlen_app; lia).
  rewrite <- (zdrop_zdrop (zlen y) (p + zlen x)), (zdrop_app_exact (p + zlen x)), zdrop_zeros
    by (rewrite ?zlen_app; lia).
  by rewrite <- !app_assoc.
Qed.

Lemma store_segment_app pre i s n :
  seg_encodable s -> zlen pre = i * 16 -> 16 <= n ->
  store_segment_le (pre ++ zeros n) (i * 16) s = (pre ++ encode_record s) ++ zeros (n - 16).
Proof.
  intros Hs Hi Hn. unfold encode_record. rewrite !store_segment_val by done.
  pose proof (put_pair [] 0 8 (le_bytes 8 (seg_w0 s)) (le_bytes 8 (seg_w1 s)) 16) as H1.
  rewrite !zlen_le_bytes in H1. specialize (H1 eq_refl eq_refl ltac:(lia)).
  rewrite (put_pair pre) by (rewrite ?zlen_le_bytes; lia).
  rewrite !zlen_le_bytes. replace (n - Z.of_nat 8 - Z.of_nat 8) with (n - 16) by lia.
  change (zeros kEncodedSize) with ([] ++ zeros 16). change (0 + 8) with 8. rewrite H1.
  change (zeros (16 - Z.of_nat 8 - Z.of_nat 8)) with (@nil Z). by rewrite !app_nil_r, app_nil_l.
Qed.

Lemma store_segments_app segs n : forall pre i,
  Forall seg_encodable segs -> zlen pre = i * 16 -> 0 <= n ->
  store_segments (pre ++ zeros (zlen segs * 16 + n)) i segs = (pre ++ encode_log segs) ++ zeros n.
Proof.
  induction segs as [|s segs IH]; intros pre i He Hi Hn; [by rewrite app_nil_r|].
  apply Forall_cons in He as [Hs He]. cbn [store_segments]. rewrite encode_log_cons.
  pose proof (zlen_nonneg segs). rewrite zlen_cons. unfold kEncodedSize.
  rewrite store_segment_app by (done || lia).
  replace ((1 + zlen segs) * 16 + n - 16) with (zlen segs * 16 + n) by lia.
  rewrite IH; [by rewrite <- (app_assoc pre)|done| |done]. rewrite zlen_app, zlen_encode_record by done. lia.
Qed.

Lemma store_segments_padded segs n :
  Forall seg_encodable segs -> zlen segs * kEncodedSize <= n ->
  store_segments (zeros n) 0 segs = encode_log segs ++ zeros (n - zlen segs * kEncodedSize).
Proof.
  intros He Hn. pose proof (store_segments_app segs (n - zlen segs * 16) [] 0 He eq_refl) as H.
  unfold kEncodedSize in *. cbn [app] in H. replace (zlen segs * 16 + (n - zlen segs * 16)) with n in H by lia.
  apply H. lia.
Qed.
Lemma store_segments_val segs :
  Forall seg_encodable segs -> store_segments (zeros (zlen segs * kEncodedSize)) 0 segs = encode_log segs.
Proof.
  intros He. rewrite store_segments_padded by (done || lia). rewrite Z.sub_diag. apply app_nil_r.
Qed.

Lemma encode_log_byte segs : Forall seg_encodable segs -> Forall is_byte (encode_log segs).
Proof.
  induction 1 as [|s segs Hs _ IH]; [constructor|]. rewrite encode_log_cons. apply Forall_app.
  split; [|done]. unfold encode_record. rewrite store_segment_val by done.
  apply put_byte; [apply put_byte; [apply zeros_byte|]|]; apply le_bytes_byte.
Qed.

(** An extent of a plain layer, as written. *)
Definition plain_seg (moffset_end : Z) (s : segment_mapping) : Prop :=
  seg_encodable s /\ s_offset s <> kInvalidOffset /\ s_tag s = 0 /\
  mapping_in_range false moffset_end s = true.

Lemma load_plain e segs :
  Forall (plain_seg e) segs -> load_index false (encode_log segs) (zlen segs) = segs.
Proof.
  intros Hs. assert (Forall seg_encodable segs) as He by (eapply Forall_impl; [exact Hs|]; by intros ? []).
  pose proof (load_encode_log segs He) as Hl. unfold load_records in Hl.
  rewrite zlen_encode_log in Hl by done. unfold kEncodedSize in *.
  replace (16 * zlen segs / 16) with (zlen segs) in Hl by (rewrite Z.mul_comm, Z.div_mul; lia).
  unfold load_index, kEncodedSize. cbv zeta.
  assert (forall (f : Z -> segment_mapping) l, Forall (plain_seg e) (f <$> l) ->
    omap (fun i => if s_offset (f i) =? kInvalidOffset then None else Some (with_tag (f i) 0)) l
    = f <$> l) as Hm.
  { intros f l. induction l as [|i l IH]; [done|]. csimpl. intros [(H1 & H2 & H3 & _) Hr]%Forall_cons.
    rewrite (proj2 (Z.eqb_neq _ _)) by done. rewrite IH by done. f_equal.
    unfold with_tag. rewrite <- H3. by destruct (f i). }
  rewrite (Hm (fun i => load_segment_le (encode_log segs) (i * 16))); by rewrite Hl.
Qed.

(** ** A file with this layout opens *)

Lemma check_plain e segs tht :
  Forall (plain_seg e) segs -> e = ht_index_offset tht / kAlignment ->
  check_mappings (check_mapping false None 0 255 tht) segs = Ok segs.
Proof.
  intros Hs ->. induction Hs as [|s segs (_ & _ & _ & Hr) _ IH]; [done|]. cbn [check_mappings].
  assert (check_mapping false None 0 255 tht s = Ok s) as -> by (unfold check_mapping; cbv zeta; by rewrite Hr).
  cbn [mbind res_bind]. by rewrite IH.
Qed.

Record sealed_file (f : file) (hht tht : HeaderTrailer) (segs : list segment_mapping) : Prop := {
  sf_hht : ht_ok hht;
  sf_tht : ht_ok tht;
  sf_header : exists r, serialize hht = Ok r /\ holds f 0 r;
  sf_trailer : exists r, serialize tht = Ok r /\ holds f (f_size f - kSpace) r;
  sf_hflags : is_header hht = true /\ is_data_file hht = true /\ get_flag_bit hht kFlagShiftHybridRw = false;
  sf_tflags : is_trailer tht = true /\ is_data_file tht = true /\ is_sealed tht = true /\
    get_flag_bit tht kFlagShiftHybridRw = false;
  sf_count : ht_index_size tht = zlen segs /\ zlen segs <= kMaxRoIndexSize;
  sf_size : ht_index_offset tht + zlen segs * kEncodedSize + kSpace <= f_size f < 2 ^ 64;
  sf_offset : kSpace <= ht_index_offset tht;
  sf_index : holds f (ht_index_offset tht) (encode_log segs);
  sf_segs : Forall (plain_seg (ht_index_offset tht / kAlignment)) segs;
  sf_ordered : ordered segs = true;
}.

Definition sealed_layer {W} (f : file) (tht : HeaderTrailer) (segs : list segment_mapping) : LsmtLayer W :=
  Layer (file_source f) (with_index_size tht (zlen segs)) segs.

Lemma check_headers_plain f hht tht segs :
  sealed_file f hht tht segs -> check_headers false (f_size f) hht tht = Ok false.
Proof.
  intros [_ _ _ _ (H1 & H2 & H3) (T1 & T2 & T3 & T4) [Hn Hmax] Hs Ho _ _ _]. unfold check_headers.
  rewrite T1, T2, T3, H3, T4. cbn [negb orb eqb andb]. unfold kSpace, kMaxRoIndexSize, kEncodedSize in *.
  pose proof (zlen_nonneg segs).
  rewrite (proj2 (Z.ltb_ge _ _)) by lia. rewrite Hn, (u64_small (zlen segs * 16)) by lia.
  rewrite (u64_small (f_size f - 4096 - ht_index_offset tht)) by lia.
  rewrite !(proj2 (Z.ltb_ge _ _)) by lia. done.
Qed.

Lemma sealed_opens {W} f hht tht segs (w : W) :
  sealed_file f hht tht segs ->
  open (Some (file_source f)) w = (Ok (sealed_layer f tht segs), w).
Proof.
  intros Hf. pose proof (check_headers_plain f hht tht segs Hf) as Hch.
  destruct Hf as [Hh Ht (rh & Hrh & Hh0) (rt & Hrt & Ht0) (H1 & H2 & H3) (T1 & T2 & T3 & T4) [Hn Hmax]
    Hs Ho Hi Hsegs Hord].
  destruct (parse_serialize hht Hh) as (b & Hb & Hbz & _ & Hbp). rewrite Hrh in Hb. injection Hb as <-.
  destruct (parse_serialize tht Ht) as (b & Hb & Htz & _ & Htp). rewrite Hrt in Hb. injection Hb as <-.
  pose proof (zlen_nonneg segs) as Hnn.
  assert (Forall seg_encodable segs) as He by (eapply Forall_impl; [exact Hsegs|]; by intros ? []).
  pose proof (zlen_encode_log segs He) as Hze.
  assert (0 <= ht_index_offset tht) by (unfold kSpace in *; lia).
  pose proof (read_held f 0 rh w ltac:(lia) Hh0) as R1. rewrite Hbz in R1.
  pose proof (read_held f (f_size f - kSpace) rt w ltac:(unfold kSpace, kEncodedSize in *; lia) Ht0) as R2.
  rewrite Htz in R2. pose proof (read_held f (ht_index_offset tht) _ w ltac:(lia) Hi) as R3.
  unfold open, open_impl. cbv zeta. change (src_size (@file_source W f)) with (f_size f).
  rewrite (proj2 (Z.ltb_ge _ _)) by (unfold kSpace, kEncodedSize in *; lia).
  erewrite io_step by exact R1. erewrite io_step by (apply io_step_lift; exact Hbp).
  rewrite H1, H2. cbn [negb].
  erewrite io_step by exact R2. erewrite io_step by (apply io_step_lift; exact Htp).
  erewrite io_step by (apply io_step_lift; exact Hch).
  rewrite Hn, u64_small by (unfold kMaxRoIndexSize, kEncodedSize in *; lia).
  erewrite io_step with (a := encode_log segs).
  2:{ rewrite Hze, (Z.mul_comm 16) in R3. unfold kEncodedSize. case_if; [exact R3|].
      replace (encode_log segs) with (@nil Z); [done|]. symmetry.
      apply length_zero_iff_nil. unfold zlen in *. lia. }
  unfold io_lift, build_layer. rewrite Hn, (load_plain _ _ Hsegs), Hord. cbn [negb mbind res_bind].
  cbn [fmap option_fmap option_map]. by rewrite (check_plain _ _ _ Hsegs eq_refl).
Qed.

(** ** And reads as its index says *)

Lemma resolve_data l x t p :
  resolve l x = Data t p ->
  exists s, s ∈ l /\ s_zeroed s = false /\ t = s_tag s /\ s_offset s <= x < fin s /\
    p = s_moffset s + (x - s_offset s).
Proof.
  induction l as [|s l IH]; simpl; [done|]. destruct (covers s x) eqn:Hc.
  - apply covers_true in Hc. unfold seg_cell. destruct (s_zeroed s) eqn:Hz; [done|]. intros [= <- <-].
    exists s. split; [apply list_elem_of_here|]. done.
  - intros H. destruct (IH H) as (s' & Hin & Hs'). exists s'. split; [by right|done].
Qed.

Section reads.
Context {W : Type} (f : file) (hht tht : HeaderTrailer) (segs : list segment_mapping).
Context (Hsf : sealed_file f hht tht segs) (Hfb : file_bytes f) (Hne : Forall non_empty segs).
Abbreviation layer := (@sealed_layer W f tht segs).

Lemma sealed_source : SourceSpec (fun _ => False) (@file_source W f) (f_byte f).
Proof.
  apply fn_source_spec; [|exact Hfb]. destruct Hsf as [_ _ _ _ _ _ _ Hs Ho _ _ _].
  pose proof (zlen_nonneg segs). unfold kEncodedSize, kSpace in *. lia.
Qed.

Lemma sealed_layer_ok : layer_ok layer.
Proof.
  pose proof (src_size_ok (SourceSpec := sealed_source)) as Hsrc.
  destruct Hsf as [_ Ht _ _ _ _ _ Hs Ho _ Hsegs Hord]. split; [exact Hsrc| | |exact Hord].
  - destruct Ht as (_ & _ & _ & _ & Hv & _). exact Hv.
  - apply Forall_forall. intros s Hin. rewrite Forall_forall in Hsegs.
    destruct (Hsegs s Hin) as ((E1 & E2 & E3 & E4) & E5 & E6 & E7). pose proof (zlen_nonneg segs).
    unfold mapping_ok, kInvalidOffset, kMaxOffset, kMaxMoffset in *.
    split_and!; try done; try lia. intros Hz.
    pose proof (mapping_in_range_data _ _ _ E7 Hz E2 E3) as He. simpl.
    pose proof (Z.mul_div_le (ht_index_offset tht) kAlignment ltac:(done)).
    unfold kAlignment, kEncodedSize, kSpace in *. lia.
Qed.

Lemma sealed_byte i :
  0 <= i < kMaxOffset * 512 ->
  index_content (layer_extents [layer] [f_byte f]) (fun x => within 0 kMaxOffset x (stack_resolve 0 [segs] x)) i
  = index_view f segs i.
Proof.
  intros Hi. unfold index_content, index_view. change kSector with kAlignment.
  pose proof (Z.div_mod i 512 ltac:(lia)) as Hd. pose proof (Z.mod_pos_bound i 512 ltac:(lia)) as Hm.
  unfold kAlignment. unfold within.
  rewrite (proj2 (Z.leb_le _ _)), (proj2 (Z.ltb_lt _ _)) by lia. cbn [andb stack_resolve over].
  destruct (resolve segs (i / 512)) as [| |t p] eqn:Hr; try done. cbn [retag over].
  destruct (resolve_data _ _ _ _ Hr) as (s & Hin & Hz & _ & Hx & ->).
  destruct sealed_layer_ok as [_ _ Hmap _]. rewrite Forall_forall in Hmap.
  destruct (Hmap s Hin) as (_ & _ & _ & _ & Hb). specialize (Hb Hz). simpl in Hb.
  simpl. unfold extent. simpl. unfold fin, kAlignment in *. rewrite (proj2 (Z.ltb_lt _ _)) by lia. done.
Qed.

Lemma sealed_reads m :
  ht_virtual_size tht mod 512 = 0 -> ht_virtual_size tht / 512 <= kMaxOffset -> merged_open [layer] = Ok m ->
  forall count off, 0 <= count -> 0 <= off -> count mod 512 = 0 -> off mod 512 = 0 ->
    io_spec (fun _ => False) (merged_pread m count off)
      (fun out => out = slice (index_view f segs) off (avail (ht_virtual_size tht) count off)).
Proof.
  intros Hal Hvs Hm count off Hc Ho Hcm Hom.
  assert (m_vsize m = ht_virtual_size tht) as Hv.
  { revert Hm. unfold merged_open. simpl. repeat case_if; try done. destruct (merge_indexes _ _); [|done].
    simpl. intros [= <-]. by case_if. }
  destruct (merged_view_spec (fun _ => False) [layer] m [f_byte f] Hm) as [_ _ Hread].
  - apply Forall_singleton, sealed_layer_ok.
  - by apply Forall_singleton.
  - apply Forall2_cons_2; [apply sealed_source|constructor].
  - by rewrite Hv.
  - eapply io_spec_mono; [apply Hread; done|]. cbv beta. intros out ->. simpl. rewrite Hv.
    apply slice_ext. intros i Hi. apply sealed_byte. unfold avail in Hi.
    pose proof (Z.div_mod (ht_virtual_size tht) 512 ltac:(lia)). lia.
Qed.
End reads.
