(* ===== verification/LsmtWriter.v ===== *)
(** * The LSMT writers ([write_lsmt_single_layer], [write_lsmt_warp_layer] and
    [generate_uuid] of [format/writer.cpp])

    The single-layer writer splits an image into extents of at most 16383
    sectors, packs the ranges its caller classified behind the ordinary ones and
    closes the file with index and trailer; opened again the layer reads as the
    image.  The warp writer validates a list of mappings and copies only the
    local data; nothing is touched unless every check has passed. *)
From S2P Require Import Prelude Bytes LsmtFormat Source File Segments Merge Lsmt Journal FilePair LsmtRw Writer LayerFile.

Open Scope Z_scope.

(** ** UUIDs *)

Definition hex_digit (v : Z) : Z :=
  bget [48; 49; 50; 51; 52; 53; 54; 55; 56; 57; 97; 98; 99; 100; 101; 102] v.

(** The two digits of byte [i], after a dash where the format has one. *)
Definition uuid_byte (b : bytes) (i : Z) : bytes :=
  (if (i =? 4) || (i =? 6) || (i =? 8) || (i =? 10) then [45] else []) ++
  [hex_digit (Z.shiftr (bget b i) 4); hex_digit (Z.land (bget b i) 0xf)].

(** [rd] holds the 16 bytes drawn from the random device. *)
Definition generate_uuid (rd : bytes) : bytes :=
  let b := put rd 6 [u8 (Z.lor (Z.land (bget rd 6) 0x0f) 0x40)] in
  let b := put b 8 [u8 (Z.lor (Z.land (bget b 8) 0x3f) 0x80)] in
  concat (uuid_byte b <$> seqZ 0 16).

(** ** The single-layer writer *)

Record LsmtPayloadRange := Range { r_offset : Z; r_length : Z }.

Record LsmtWriteOptions := LOpts {
  lo_uuid : bytes;
  lo_parent_uuid : bytes;
  lo_user_tag : bytes;
  lo_tail_ranges : list LsmtPayloadRange;
}.

Definition r_end (r : LsmtPayloadRange) : Z := r_offset r + r_length r.

(** The validation of the tail ranges; adjacent ones are joined. *)
Fixpoint normalize_tail (n_sectors : Z) (ranges tail : list LsmtPayloadRange) (tail_sectors : Z)
  : res (list LsmtPayloadRange * Z) :=
  match ranges with
  | [] => Ok (tail, tail_sectors)
  | range :: ranges =>
      if (r_length range =? 0) || (n_sectors <=? r_offset range) ||
         (n_sectors - r_offset range <? r_length range) ||
         match last tail with Some back => r_offset range <? r_end back | None => false end
      then Err (Errno EINVAL)
      else
        let tail_sectors := tail_sectors + r_length range in
        match last tail with
        | Some back =>
            if r_offset range =? r_end back then
              normalize_tail n_sectors ranges
                (removelast tail ++ [Range (r_offset back) (r_length back + r_length range)]) tail_sectors
            else normalize_tail n_sectors ranges (tail ++ [range]) tail_sectors
        | None => normalize_tail n_sectors ranges (tail ++ [range]) tail_sectors
        end
  end.

(** The lambda [append]: the extents of [length] sectors from [first] on, laid
    at [physical]. *)
Fixpoint append_segs (fuel : nat) (segs : list segment_mapping) (first length physical : Z)
  : res (list segment_mapping * Z) :=
  if negb (length =? 0) then
    match fuel with
    | O => Err Fuel
    | S fuel =>
        if zlen segs =? kMaxRoIndexSize then Err (Errno EFBIG)
        else
          let count := Z.min kMaxLength length in
          append_segs fuel (segs ++ [Seg first count physical false 0]) (first + count)
            (length - count) (physical + count)
    end
  else Ok (segs, physical).

Definition append (segs : list segment_mapping) (first length physical : Z)
  : res (list segment_mapping * Z) :=
  append_segs (S (Z.to_nat length)) segs first length physical.

(** Extents in logical order: ordinary sectors up to each range, then the range
    itself in the tail. *)
Fixpoint place (n_sectors : Z) (tail : list LsmtPayloadRange) (segs : list segment_mapping)
    (logical data_physical tail_physical : Z) : res (list segment_mapping) :=
  match tail with
  | [] => '(segs, _) ← append segs logical (n_sectors - logical) data_physical; Ok segs
  | range :: tail =>
      '(segs, data_physical) ← append segs logical (r_offset range - logical) data_physical;
      '(segs, tail_physical) ← append segs (r_offset range) (r_length range) tail_physical;
      place n_sectors tail segs (r_end range) data_physical tail_physical
  end.

(** [for (done = 0; done < length;)] over the copy buffer. *)
Fixpoint copy_loop (fuel : nat) (from to length done : Z) : io wstate unit :=
  match fuel with
  | O => io_fail Fuel
  | S fuel =>
      if done <? length then
        let chunk := Z.min (1024 * 1024) (length - done) in
        buf ← full_pread chunk (from + done);
        _ ← full_pwrite buf (to + done);
        copy_loop fuel from to length (done + chunk)
      else mret tt
  end.

Definition copy_segment (s : segment_mapping) : io wstate unit :=
  let length := s_length s * kAlignment in
  copy_loop (S (Z.to_nat length)) (s_offset s * kAlignment) (s_moffset s * kAlignment) length 0.

(** One of the two passes over the extents. *)
Fixpoint copy_pass (tail_start : Z) (at_tail : bool) (segs : list segment_mapping) : io wstate unit :=
  match segs with
  | [] => mret tt
  | s :: segs =>
      _ ← (if negb (eqb (tail_start <=? s_moffset s) at_tail) then mret tt else copy_segment s);
      copy_pass tail_start at_tail segs
  end.

Definition layer_header (flags index_offset index_size vsize : Z) (uuid : bytes) (opts : LsmtWriteOptions)
  : HeaderTrailer :=
  HT kHeaderSize flags index_offset index_size vsize uuid (lo_parent_uuid opts) 0 1 1 (lo_user_tag opts).

Definition data_flags : Z :=
  Z.lor (Z.shiftl 1 kFlagShiftType) (Z.shiftl 1 kFlagShiftSealed).

Definition uuid_or (opts : LsmtWriteOptions) (rd : bytes) : bytes :=
  if zlen (lo_uuid opts) =? 0 then generate_uuid rd else lo_uuid opts.

Definition write_lsmt_single_layer (rd : bytes) (in_size : Z) (opts : LsmtWriteOptions) : io wstate unit :=
  if (in_size =? 0) || negb (in_size mod kAlignment =? 0) then io_fail (Errno EINVAL)
  else
    let n_sectors := in_size / kAlignment in
    if kMaxOffset <? n_sectors then io_fail (Errno EFBIG)
    else if kMaxRoIndexSize <? zlen (lo_tail_ranges opts) then io_fail (Errno EFBIG)
    else
      '(tail, tail_sectors) ← io_lift (normalize_tail n_sectors (lo_tail_ranges opts) [] 0);
      let tail_start := kDataStartSector + n_sectors - tail_sectors in
      segs ← io_lift (place n_sectors tail [] 0 kDataStartSector tail_start);
      let index_offset := kSpace + in_size in
      let index_bytes := zlen segs * kEncodedSize in
      let total := index_offset + index_bytes + kSpace in
      let ht := layer_header data_flags index_offset (zlen segs) in_size (uuid_or opts rd) opts in
      _ ← create_out;
      _ ← full_pwrite (zeros kSpace) 0;
      _ ← copy_pass tail_start false segs;
      _ ← copy_pass tail_start true segs;
      let index := store_segments (zeros index_bytes) 0 segs in
      _ ← full_pwrite index index_offset;
      let ht := set_flag_bit ht kFlagShiftHeader in
      region ← io_lift (serialize ht);
      _ ← full_pwrite region 0;
      let ht := clr_flag_bit ht kFlagShiftHeader in
      region ← io_lift (serialize ht);
      _ ← full_pwrite region (total - kSpace);
      out_ftruncate total.

(** ** The warp writer *)

Definition max_file : Z := 2 ^ 63 - 1.

Record warp_scan := Scan {
  sc_end : Z;
  sc_data_end : Z;
  sc_local : bool;
  sc_remote : bool;
}.

(** One turn of the validation loop: the mapping as it will be written. *)
Definition scan_mapping (virtual_size input_sectors : Z) (sc : warp_scan) (m : segment_mapping)
  : res (warp_scan * segment_mapping) :=
  if (1 <? s_tag m) || (s_length m =? 0) || (kMaxLength <? s_length m) ||
     (kInvalidOffset <=? s_offset m) || (s_offset m <? sc_end sc) ||
     (virtual_size / kAlignment <? s_offset m) ||
     (virtual_size / kAlignment - s_offset m <? s_length m) ||
     (kMaxMoffset <? s_moffset m) ||
     (negb (s_zeroed m) && (kMaxMoffset - s_moffset m <? s_length m))
  then format_error
  else
    let local := sc_local sc || (s_tag m =? 0) in
    let remote := sc_remote sc || (s_tag m =? 1) in
    if s_tag m =? 0 then
      if negb (s_zeroed m) && ((input_sectors <? s_moffset m) || (input_sectors - s_moffset m <? s_length m))
      then format_error
      else
        let m' := Seg (s_offset m) (s_length m) (sc_data_end sc / kAlignment) (s_zeroed m) (s_tag m) in
        if negb (s_zeroed m) then
          let n := s_length m * kAlignment in
          if max_file - sc_data_end sc <? n then format_error
          else Ok (Scan (seg_end m) (sc_data_end sc + n) local remote, m')
        else Ok (Scan (seg_end m) (sc_data_end sc) local remote, m')
    else Ok (Scan (seg_end m) (sc_data_end sc) local remote, m).

Fixpoint scan_mappings (virtual_size input_sectors : Z) (sc : warp_scan) (ms : list segment_mapping)
  : res (warp_scan * list segment_mapping) :=
  match ms with
  | [] => Ok (sc, [])
  | m :: ms =>
      '(sc, m) ← scan_mapping virtual_size input_sectors sc m;
      '(sc, ms) ← scan_mappings virtual_size input_sectors sc ms;
      Ok (sc, m :: ms)
  end.

(** The data of the local extents, from the place [mappings] names to the place
    the output gives them. *)
Fixpoint copy_local (mappings segs : list segment_mapping) : io wstate unit :=
  match mappings, segs with
  | old :: mappings, m :: segs =>
      _ ← (if negb (s_tag m =? 0) || s_zeroed m then mret tt
           else
             let n := s_length m * kAlignment in
             copy_loop (S (Z.to_nat n)) (s_moffset old * kAlignment) (s_moffset m * kAlignment) n 0);
      copy_local mappings segs
  | _, _ => mret tt
  end.

(** Opening without truncation, then cutting the file to nothing. *)
Definition open_out : io wstate unit := fun w =>
  match ws_next w with
  | (Done, w) => (Ok tt, w)
  | (Failed _ e, w) => (Err (Errno e), w)
  end.

(** [unreadable]: the input descriptor is write-only; [aliases]: the output is
    the input's inode. *)
Definition write_lsmt_warp_layer (rd : bytes) (unreadable aliases : bool) (virtual_size : Z)
    (mappings : list segment_mapping) (opts : LsmtWriteOptions) : io wstate unit :=
  if (virtual_size =? 0) || negb (virtual_size mod kAlignment =? 0) ||
     (kMaxOffset <? virtual_size / kAlignment) || (kMaxRoIndexSize <? zlen mappings)
  then io_lift format_error
  else
    input_size ← io_run (fun w => (Ok (f_size (ws_in w)), w));
    if unreadable then io_lift format_error
    else
      let input_sectors := input_size / kAlignment in
      '(sc, segs) ← io_lift (scan_mappings virtual_size input_sectors (Scan 0 kSpace false false) mappings);
      if sc_remote sc && negb (sc_local sc) then io_lift format_error
      else
        let data_end := sc_data_end sc in
        let index_bytes := zlen segs * kEncodedSize in
        if max_file - data_end <? index_bytes + kSpace then io_lift format_error
        else
          let total := data_end + index_bytes + kSpace in
          let ht := layer_header data_flags data_end (zlen segs) virtual_size (uuid_or opts rd) opts in
          trailer ← io_lift (serialize ht);
          header ← io_lift (serialize (set_flag_bit ht kFlagShiftHeader));
          let index := store_segments (zeros index_bytes) 0 segs in
          _ ← open_out;
          if aliases then io_lift format_error
          else
            _ ← out_ftruncate 0;
            _ ← full_pwrite header 0;
            _ ← copy_local mappings segs;
            _ ← full_pwrite index data_end;
            _ ← full_pwrite trailer (total - kSpace);
            out_ftruncate total.

(** ** Placement *)

(** Extents that continue one another logically from [lo] to [hi]. *)
Fixpoint chain (lo : Z) (l : list segment_mapping) (hi : Z) : Prop :=
  match l with
  | [] => lo = hi
  | s :: l => s_offset s = lo /\ 0 < s_length s <= kMaxLength /\ s_zeroed s = false /\ s_tag s = 0 /\
              chain (lo + s_length s) l hi
  end.
(** And physically. *)
Fixpoint packed (lo : Z) (l : list segment_mapping) (hi : Z) : Prop :=
  match l with
  | [] => lo = hi
  | s :: l => s_moffset s = lo /\ packed (lo + s_length s) l hi
  end.

Lemma chain_app lo l k mid hi : chain lo l mid -> chain mid k hi -> chain lo (l ++ k) hi.
Proof. revert lo. induction l as [|s l IH]; intros lo; simpl; [by intros ->|].
  intros (? & ? & ? & ? & ?) ?. split_and!; eauto; lia. Qed.
Lemma packed_app lo l k mid hi : packed lo l mid -> packed mid k hi -> packed lo (l ++ k) hi.
Proof. revert lo. induction l as [|s l IH]; intros lo; simpl; [by intros ->|].
  intros [? ?] ?. eauto. Qed.
Lemma chain_le lo l hi : chain lo l hi -> lo <= hi.
Proof. revert lo. induction l as [|s l IH]; intros lo; simpl; [lia|]. intros (_ & ? & _ & _ & ?%IH). lia. Qed.

Lemma packed_range lo l hi s :
  packed lo l hi -> Forall (fun s => 0 < s_length s) l -> s ∈ l ->
  lo <= s_moffset s /\ s_moffset s + s_length s <= hi.
Proof.
  intros Hp Hl. revert lo Hp. induction Hl as [|s' l Hs' Hl IH]; intros lo Hp Hin;
    [by apply not_elem_of_nil in Hin|]. destruct Hp as [Hm Hp].
  assert (forall lo, packed lo l hi -> lo <= hi) as Hle.
  { clear -Hl. induction Hl as [|a l Ha _ IH]; intros lo; simpl; [lia|]. intros [_ H%IH]. lia. }
  apply elem_of_cons in Hin as [->|Hin]; [specialize (Hle _ Hp); lia|].
  specialize (IH _ Hp Hin). lia.
Qed.

Lemma chain_in lo l hi s :
  chain lo l hi -> s ∈ l ->
  lo <= s_offset s /\ s_offset s + s_length s <= hi /\ 0 < s_length s <= kMaxLength /\
  s_zeroed s = false /\ s_tag s = 0.
Proof.
  revert lo. induction l as [|s' l IH]; intros lo Hc Hin; [by apply not_elem_of_nil in Hin|].
  destruct Hc as (Ho & Hl & Hz & Ht & Hc). pose proof (chain_le _ _ _ Hc).
  apply elem_of_cons in Hin as [->|Hin]; [split_and!; done || lia|].
  destruct (IH _ Hc Hin) as (? & ? & ? & ? & ?). split_and!; done || lia.
Qed.

(** What [append] adds. *)
Lemma append_segs_ok fuel segs first length physical :
  0 <= length < Z.of_nat fuel -> zlen segs <= kMaxRoIndexSize ->
  match append_segs fuel segs first length physical with
  | Ok (segs', p) => exists new, segs' = segs ++ new /\ p = physical + length /\
      chain first new (first + length) /\ packed physical new p /\ zlen segs' <= kMaxRoIndexSize
  | Err f => f = Errno EFBIG
  end.
Proof.
  revert segs first length physical. induction fuel as [|fuel IH]; intros segs first length physical Hf Hz; [lia|].
  cbn [append_segs]. destruct (Z.eqb_spec length 0) as [->|Hl]; simpl.
  { exists []. rewrite app_nil_r. simpl. split_and!; done || lia. }
  case_if; [done|]. unfold kMaxLength in *.
  set (count := Z.min (2 ^ 14 - 1) length) in *.
  assert (0 < count <= 2 ^ 14 - 1) as Hc by (unfold count; lia).
  specialize (IH (segs ++ [Seg first count physical false 0]) (first + count) (length - count) (physical + count)).
  specialize (IH ltac:(unfold count; lia) ltac:(rewrite zlen_app; change (zlen [_]) with 1; lia)).
  destruct (append_segs _ _ _ _ _) as [[segs' p]|]; [|done].
  destruct IH as (new & -> & -> & Hch & Hpk & Hn).
  exists (Seg first count physical false 0 :: new). rewrite <- app_assoc. simpl.
  split_and!; try done; try lia; [unfold kMaxLength; lia..| |].
  - by replace (first + length) with (first + count + (length - count)) by lia.
  - by rewrite <- app_assoc in Hn.
Qed.

Section placement.
Context (n_sectors tail_start : Z).

Definition sel (at_tail : bool) (s : segment_mapping) : bool := eqb (tail_start <=? s_moffset s) at_tail.

(** The extents placed so far. *)
Definition placed (segs : list segment_mapping) (logical dp tp : Z) : Prop :=
  chain 0 segs logical /\ packed kDataStartSector (List.filter (sel false) segs) dp /\
  packed tail_start (List.filter (sel true) segs) tp /\ zlen segs <= kMaxRoIndexSize.

Lemma filter_all {A} (f : A -> bool) l : (forall x, x ∈ l -> f x = true) -> List.filter f l = l.
Proof.
  induction l as [|x l IH]; intros H; simpl; [done|]. rewrite (H x) by apply list_elem_of_here.
  f_equal. apply IH. intros y Hy. apply H. by right.
Qed.
Lemma filter_none {A} (f : A -> bool) l : (forall x, x ∈ l -> f x = false) -> List.filter f l = [].
Proof.
  induction l as [|x l IH]; intros H; simpl; [done|]. rewrite (H x) by apply list_elem_of_here.
  apply IH. intros y Hy. apply H. by right.
Qed.

(** A run that lies wholly on one side of [tail_start]. *)
Lemma run_side lo new hi p q (b : bool) :
  chain lo new hi -> packed p new q ->
  (if b then tail_start <= p else q <= tail_start) ->
  List.filter (sel b) new = new /\ List.filter (sel (negb b)) new = [].
Proof.
  intros Hc Hp Hb. assert (Forall (fun s => 0 < s_length s) new) as Hl.
  { apply Forall_forall. intros s Hs. by destruct (chain_in _ _ _ _ Hc Hs) as (_ & _ & [? _] & _). }
  assert (forall s, s ∈ new -> (tail_start <=? s_moffset s) = b) as Hs.
  { intros s Hs. destruct (packed_range _ _ _ _ Hp Hl Hs). rewrite Forall_forall in Hl. specialize (Hl s Hs).
    destruct b; [apply Z.leb_le|apply Z.leb_gt]; simpl in *; lia. }
  split; [apply filter_all|apply filter_none]; intros s Hin; unfold sel; rewrite (Hs s Hin); by destruct b.
Qed.

Lemma placed_step segs logical dp tp len (b : bool) :
  placed segs logical dp tp -> 0 <= len ->
  (if b then tail_start <= tp else dp + len <= tail_start) ->
  match append segs logical len (if b then tp else dp) with
  | Ok (segs', p) => p = (if b then tp else dp) + len /\
      placed segs' (logical + len) (if b then dp else dp + len) (if b then tp + len else tp)
  | Err f => f = Errno EFBIG
  end.
Proof.
  intros (Hc & Ho & Ht & Hz) Hlen Hb.
  pose proof (append_segs_ok (S (Z.to_nat len)) segs logical len (if b then tp else dp) ltac:(lia) Hz) as H.
  unfold append. destruct (append_segs _ _ _ _ _) as [[segs' p]|]; [|done].
  destruct H as (new & -> & -> & Hch & Hpk & Hn). split; [done|].
  destruct (run_side logical new (logical + len) (if b then tp else dp) ((if b then tp else dp) + len) b) as [F1 F2];
    [done|done|by destruct b|].
  unfold placed. rewrite !List.filter_app. split_and!; [by eapply chain_app| | |done];
    destruct b; simpl in F1, F2; rewrite ?F1, ?F2, ?app_nil_r; done || by eapply packed_app.
Qed.

(** Sorted, disjoint, non-empty ranges between [lo] and [hi]. *)
Fixpoint ranges_ok (lo : Z) (l : list LsmtPayloadRange) (hi : Z) : Prop :=
  match l with
  | [] => lo <= hi
  | r :: l => lo <= r_offset r /\ 0 < r_length r /\ ranges_ok (r_end r) l hi
  end.
Definition ranges_sum (l : list LsmtPayloadRange) : Z := foldr (fun r z => r_length r + z) 0 l.

Lemma ranges_sum_app l k : ranges_sum (l ++ k) = ranges_sum l + ranges_sum k.
Proof. unfold ranges_sum. induction l as [|r l IH]; simpl; lia. Qed.

Lemma ranges_ok_snoc lo l r hi :
  ranges_ok lo (l ++ [r]) hi <-> ranges_ok lo l (r_offset r) /\ 0 < r_length r /\ r_end r <= hi.
Proof.
  revert lo. induction l as [|r' l IH]; intros lo; simpl; [tauto|]. rewrite IH. tauto.
Qed.

Lemma ranges_ok_sum lo l hi : ranges_ok lo l hi -> 0 <= ranges_sum l <= hi - lo.
Proof.
  revert lo. induction l as [|r l IH]; intros lo; simpl; [lia|]. intros (Hlo & Hl & H%IH).
  unfold r_end in *. change (ranges_sum (r :: l)) with (r_length r + ranges_sum l). lia.
Qed.

Lemma removelast_snoc {A} (l : list A) x : removelast (l ++ [x]) = l.
Proof. rewrite removelast_app by done. simpl. apply app_nil_r. Qed.

Lemma normalize_tail_ok n ranges : forall tail ts,
  Forall (fun r => 0 <= r_offset r /\ 0 <= r_length r) ranges ->
  ranges_ok 0 tail n -> ranges_sum tail = ts ->
  match normalize_tail n ranges tail ts with
  | Ok (tail', ts') => ranges_ok 0 tail' n /\ ranges_sum tail' = ts'
  | Err f => f = Errno EINVAL
  end.
Proof.
  induction ranges as [|r ranges IH]; intros tail ts Hr Hok Hsum; [done|].
  apply Forall_cons in Hr as [[Ho Hl] Hr]. cbn [normalize_tail].
  destruct (last tail) as [back|] eqn:Hlast.
  - apply last_Some in Hlast as [pre ->]. case_if; [done|].
    apply ranges_ok_snoc in Hok as (Hpre & Hbl & Hbe). rewrite ranges_sum_app in Hsum. simpl in Hsum.
    case_if; (apply IH; [done| |]); rewrite ?removelast_snoc.
    + apply ranges_ok_snoc. unfold r_end in *. simpl. split; [done|lia].
    + rewrite ranges_sum_app. simpl. lia.
    + apply ranges_ok_snoc. split; [apply ranges_ok_snoc; split; [done|lia]|]. unfold r_end in *. lia.
    + rewrite !ranges_sum_app. simpl. lia.
  - apply last_None in Hlast as ->. case_if; [done|]. apply IH; [done| |simpl in *; lia].
    simpl. unfold r_end in *. lia.
Qed.

Lemma place_ok tail : forall segs logical dp tp,
  placed segs logical dp tp -> ranges_ok logical tail n_sectors -> tail_start <= tp ->
  dp + (n_sectors - logical - ranges_sum tail) = tail_start ->
  match place n_sectors tail segs logical dp tp with
  | Ok segs' => placed segs' n_sectors tail_start (tp + ranges_sum tail)
  | Err f => f = Errno EFBIG
  end.
Proof.
  induction tail as [|r tail IH]; intros segs logical dp tp Hp Hr Ht Hd; cbn [place].
  - simpl in Hr, Hd. pose proof (placed_step segs logical dp tp (n_sectors - logical) false Hp ltac:(lia) ltac:(cbv iota; lia)) as H.
    cbv iota in H. destruct (append _ _ _ _) as [[segs' p]|]; [|done]. destruct H as [-> H]. simpl.
    rewrite Z.add_0_r. replace (dp + (n_sectors - logical)) with tail_start in H by lia.
    by replace (logical + (n_sectors - logical)) with n_sectors in H by lia.
  - destruct Hr as (Hlo & Hl & Hr). pose proof (ranges_ok_sum _ _ _ Hr) as Hsum.
    change (ranges_sum (r :: tail)) with (r_length r + ranges_sum tail) in *. unfold r_end in *.
    pose proof (placed_step segs logical dp tp (r_offset r - logical) false Hp ltac:(lia) ltac:(cbv iota; lia)) as H.
    cbv iota in H. destruct (append segs _ _ _) as [[segs1 p1]|]; [|done]. destruct H as [-> H1].
    cbn [mbind res_bind]. replace (logical + (r_offset r - logical)) with (r_offset r) in H1 by lia.
    pose proof (placed_step _ _ _ _ (r_length r) true H1 ltac:(lia) Ht) as H.
    cbv iota in H. destruct (append segs1 _ _ _) as [[segs2 p2]|]; [|done]. destruct H as [-> H2].
    cbn [mbind res_bind]. specialize (IH _ _ _ _ H2 Hr ltac:(lia) ltac:(lia)).
    destruct (place _ _ _ _ _ _) as [segs'|]; [|done].
    by replace (tp + (r_length r + ranges_sum tail)) with (tp + r_length r + ranges_sum tail) by lia.
Qed.
End placement.

(** ** Copying *)

Section copying.
Context (fi : file) (Hfi : file_bytes fi).

Lemma copy_loop_runs fuel from to length done w :
  length - done < Z.of_nat fuel -> 0 <= done <= length -> 0 <= from -> 0 <= to ->
  from + length <= f_size fi -> ws_in w = fi -> file_bytes (ws_out w) ->
  f_size (ws_out w) = to + done -> holds (ws_out w) to (slice (f_byte fi) from done) ->
  runs (copy_loop fuel from to length done) w (fun _ f =>
    holds f to (slice (f_byte fi) from length) /\ f_size f = to + length /\ file_bytes f /\
    keeps_below to (ws_out w) f).
Proof.
  revert done w. induction fuel as [|fuel IH]; intros done w Hf Hd Hfr Hto Hsz Hw Hb Hs Hh; [lia|].
  cbn [copy_loop]. destruct (Z.ltb_spec done length) as [Hlt|].
  2:{ apply runs_ret. replace length with done by lia. split_and!; try done. apply keeps_below_refl. }
  set (chunk := Z.min (1024 * 1024) (length - done)). assert (0 < chunk <= length - done) as Hc by lia.
  clearbody chunk.
  eapply runs_bind.
  { apply runs_pread with (Q := fun b f => b = slice (f_byte fi) (from + done) chunk /\ f = ws_out w);
      rewrite ?Hw; [lia..|done]. }
  intros b f [-> ->]. eapply runs_bind; [apply runs_pwrite_eq|]. simpl. intros [] f ->.
  assert (zlen (slice (f_byte fi) from done) = done) as Hz by len.
  destruct (holds_append (ws_out w) (slice (f_byte fi) from done) (slice (f_byte fi) (from + done) chunk) to)
    as [Hh' Hs']; [lia|done|lia|]. rewrite Hz in Hh', Hs'. rewrite <- slice_app in Hh', Hs' by lia.
  rewrite zlen_slice, Z.max_r in Hs' by lia.
  eapply runs_mono; [apply (IH (done + chunk)); simpl; try done; try lia|].
  { apply file_bytes_write; [done|by apply slice_bytes]. }
  simpl. intros _ f (H1 & H2 & H3 & H4). split_and!; try done.
  refine (keeps_below_trans to to _ _ _ _ _ H4); [lia|]. apply keeps_below_write. lia.
Qed.

Definition seg_data (s : segment_mapping) : bytes :=
  slice (f_byte fi) (s_offset s * kAlignment) (s_length s * kAlignment).
Definition copied (f : file) (s : segment_mapping) : Prop := holds f (s_moffset s * kAlignment) (seg_data s).

Lemma copy_pass_runs ts b segs : forall lo hi w,
  packed lo (List.filter (sel ts b) segs) hi -> 0 <= lo ->
  Forall (fun s => 0 <= s_offset s /\ 0 < s_length s /\
    (s_offset s + s_length s) * kAlignment <= f_size fi) segs ->
  ws_in w = fi -> file_bytes (ws_out w) -> f_size (ws_out w) = lo * kAlignment ->
  runs (copy_pass ts b segs) w (fun _ f =>
    f_size f = hi * kAlignment /\ file_bytes f /\ keeps_below (lo * kAlignment) (ws_out w) f /\
    Forall (copied f) (List.filter (sel ts b) segs)).
Proof.
  unfold kAlignment. induction segs as [|s segs IH]; intros lo hi w Hp Hlo Hall Hw Hb Hs.
  { simpl in Hp. subst hi. apply runs_ret. split_and!; [done|done|apply keeps_below_refl|constructor]. }
  apply Forall_cons in Hall as [(Ho & Hl & Hsz) Hall]. cbn [copy_pass List.filter] in *.
  change (eqb (ts <=? s_moffset s) b) with (sel ts b s). destruct (sel ts b s); simpl negb; cbv iota in *.
  - destruct Hp as [Hm Hp]. eapply runs_bind.
    { apply (copy_loop_runs _ _ _ _ 0 w); unfold kAlignment; rewrite ?Hm; try done; try lia.
      split; [done|]. rewrite zlen_slice. lia. }
    cbv beta. intros [] f (H1 & H2 & H3 & H4). unfold kAlignment in *. rewrite Hm in *.
    eapply runs_mono; [apply (IH (lo + s_length s) hi (WState (ws_in w) f [])); simpl; try done; lia|].
    simpl. intros _ g (G1 & G2 & G3 & G4). split_and!; try done.
    + eapply keeps_below_trans; [|exact H4|exact G3]. lia.
    + constructor; [|done]. unfold copied, seg_data, kAlignment. rewrite Hm. apply G3; [|done].
      rewrite zlen_slice. lia.
  - eapply runs_mono; [|intros a f H; exact H].
    exact (IH lo hi w Hp Hlo Hall Hw Hb Hs).
Qed.
End copying.

(** ** The generated identifier *)

Lemma hex_digit_range v : 0 <= v < 16 -> 0 < hex_digit v < 256.
Proof.
  intros Hv.
  assert (forallb (fun v => (0 <? hex_digit v) && (hex_digit v <? 256)) (seqZ 0 16) = true) as H by done.
  rewrite forallb_forall in H. specialize (H v ltac:(apply list_elem_of_In, elem_of_seqZ; lia)).
  bool_hyps. lia.
Qed.

Lemma uuid_byte_ok b i : is_byte (bget b i) -> Forall (fun c => 0 < c < 256) (uuid_byte b i).
Proof.
  unfold is_byte. intros Hb. unfold uuid_byte.
  assert (0 <= Z.shiftr (bget b i) 4 < 16) as H1
    by (rewrite Z.shiftr_div_pow2 by lia; split; [apply Z.div_pos; lia|apply Z.div_lt_upper_bound; lia]).
  assert (0 <= Z.land (bget b i) 0xf < 16) as H2
    by (change 0xf with (Z.ones 4); rewrite Z.land_ones by lia; apply Z.mod_pos_bound; lia).
  pose proof (hex_digit_range _ H1). pose proof (hex_digit_range _ H2).
  case_match; repeat constructor; lia.
Qed.

Lemma uuid_length b : zlen (concat (uuid_byte b <$> seqZ 0 16)) = 36.
Proof. done. Qed.

(** A generated identifier is 36 characters and fits the header field. *)
Lemma generate_uuid_ok rd :
  Forall is_byte rd -> zlen (generate_uuid rd) = 36 /\ cstr_ok 37 (generate_uuid rd).
Proof.
  intros Hb. unfold cstr_ok, generate_uuid. cbv zeta. rewrite uuid_length.
  split; [done|]. split; [|lia]. apply Forall_concat, Forall_fmap, Forall_true. intros i.
  apply uuid_byte_ok, Forall_byte_bget. repeat apply put_byte; try done;
    (apply Forall_singleton; apply (wrap_range 8); lia).
Qed.

(** ** The finished layer file *)

(** A data file closed with its index, its header and its trailer. *)
Definition closed (f : file) (ioff : Z) (index header trailer : bytes) : file :=
  let end_ := ioff + zlen index in
  file_truncate (file_write (file_write (file_write f ioff index) 0 header) end_ trailer) (end_ + kSpace).

Lemma closed_file f ioff index header trailer :
  f_size f = ioff -> kSpace <= ioff -> file_bytes f -> Forall is_byte index ->
  zlen header = kSpace -> Forall is_byte header -> zlen trailer = kSpace -> Forall is_byte trailer ->
  let f' := closed f ioff index header trailer in
  file_bytes f' /\ f_size f' = ioff + zlen index + kSpace /\
  holds f' 0 header /\ holds f' ioff index /\ holds f' (ioff + zlen index) trailer /\
  forall q x, kSpace <= q -> q + zlen x <= ioff -> holds f q x -> holds f' q x.
Proof.
  intros Hs Hio Hb Hib Hzh Hhb Hzt Htb f'. unfold kSpace in Hio, Hzh, Hzt. change kSpace with 4096.
  pose proof (zlen_nonneg index).
  set (f1 := file_write f ioff index). set (f2 := file_write f1 0 header).
  set (f3 := file_write f2 (ioff + zlen index) trailer).
  assert (f_size f1 = ioff + zlen index) as Hs1 by (unfold f1; simpl; case_if; lia).
  assert (f_size f2 = ioff + zlen index) as Hs2 by (unfold f2; rewrite f_size_write_end; lia).
  assert (f_size f3 = ioff + zlen index + 4096) as Hs3 by (unfold f3; rewrite f_size_write_end; lia).
  assert (forall q x, 4096 <= q -> q + zlen x <= ioff + zlen index -> holds f1 q x -> holds f' q x) as Hk.
  { intros q x Hq Hx Hh. apply holds_truncate; [|unfold kSpace; lia]. apply holds_write_other; [|lia].
    apply holds_write_other; [done|lia]. }
  split; [apply file_bytes_truncate, file_bytes_write; [apply file_bytes_write; [by apply file_bytes_write|done]|done]|].
  split; [done|]. split; [|split; [|split]].
  - apply holds_truncate; [|unfold kSpace; lia]. apply holds_write_other; [|lia].
    destruct (holds_write f1 0 header ltac:(lia)); [done|lia].
  - apply Hk; [lia|lia|]. destruct (holds_write f ioff index ltac:(lia)) as [|Hz]; [done|].
    replace index with (@nil Z) in * by (symmetry; apply length_zero_iff_nil; unfold zlen in Hz; lia).
    apply holds_nil. lia.
  - apply holds_truncate; [|unfold kSpace; lia].
    destruct (holds_write f2 (ioff + zlen index) trailer ltac:(lia)); [done|lia].
  - intros q x Hq Hx Hh. apply Hk; [lia|lia|]. apply holds_write_other; [done|lia].
Qed.

Section single.
Context (rd : bytes) (opts : LsmtWriteOptions) (fi : file) (in_size : Z).
Context (segs : list segment_mapping) (ts tp : Z).
Abbreviation n := (in_size / kAlignment).
Context (Hfi : file_bytes fi) (Hin : 0 < in_size <= f_size fi) (Hal : in_size mod kAlignment = 0).
Context (Hn : n <= kMaxOffset) (Hp : placed ts segs n ts (kDataStartSector + n)).
Context (Huuid : cstr_ok 37 (uuid_or opts rd)) (Hpuuid : cstr_ok 37 (lo_parent_uuid opts))
  (Htag : cstr_ok 256 (lo_user_tag opts)).
Context (Hts : kDataStartSector <= ts <= kDataStartSector + n).

Definition layer_ht (flags : Z) : HeaderTrailer :=
  layer_header flags (kSpace + in_size) (zlen segs) in_size (uuid_or opts rd) opts.

Lemma in_sectors : in_size = n * 512 /\ 0 < n.
Proof.
  unfold kAlignment in *. pose proof (Z.div_mod in_size 512 ltac:(lia)). lia.
Qed.

Lemma layer_ht_ok flags : 0 <= flags < 2 ^ 32 -> ht_ok (layer_ht flags).
Proof.
  intros Hf. destruct in_sectors. destruct Hp as (_ & _ & _ & Hz). pose proof (zlen_nonneg segs).
  unfold ht_ok, layer_ht, layer_header, is_byte, kMaxOffset, kSpace, kMaxRoIndexSize, kAlignment in *.
  cbn [ht_size ht_flags ht_index_offset ht_index_size ht_virtual_size ht_uuid ht_parent_uuid ht_reserved
    ht_version ht_sub_version ht_user_tag]. split_and!; done || lia.
Qed.

Lemma side_lengths b : Forall (fun s => 0 < s_length s) (List.filter (sel ts b) segs).
Proof.
  destruct Hp as (Hc & _). apply Forall_forall. intros x Hx.
  apply list_elem_of_In, filter_In in Hx as [Hx _]. apply list_elem_of_In in Hx.
  by destruct (chain_in _ _ _ _ Hc Hx) as (_ & _ & [? _] & _).
Qed.

Lemma in_side s : s ∈ segs -> s ∈ List.filter (sel ts (ts <=? s_moffset s)) segs.
Proof.
  intros Hs. apply list_elem_of_In, filter_In. split; [by apply list_elem_of_In|]. unfold sel.
  by destruct (ts <=? s_moffset s).
Qed.

(** An ordinary extent ends before the tail. *)
Lemma ord_below s : s ∈ segs -> s_moffset s < ts -> s_moffset s + s_length s <= ts.
Proof.
  intros Hs Hm. destruct Hp as (_ & Ho & _). pose proof (in_side s Hs) as Hf.
  rewrite (proj2 (Z.leb_gt _ _)) in Hf by lia. by apply (packed_range _ _ _ _ Ho (side_lengths false) Hf).
Qed.

Lemma seg_facts s :
  s ∈ segs ->
  0 <= s_offset s /\ s_offset s + s_length s <= n /\ 0 < s_length s <= kMaxLength /\
  s_zeroed s = false /\ s_tag s = 0 /\
  kDataStartSector <= s_moffset s /\ s_moffset s + s_length s <= kDataStartSector + n.
Proof.
  intros Hs. destruct Hp as (Hc & Ho & Ht & _).
  destruct (chain_in _ _ _ _ Hc Hs) as (H1 & H2 & H3 & H4 & H5).
  assert (kDataStartSector <= s_moffset s /\ s_moffset s + s_length s <= kDataStartSector + n) as [? ?].
  { pose proof (in_side s Hs) as Hf. destruct (ts <=? s_moffset s).
    - destruct (packed_range _ _ _ _ Ht (side_lengths true) Hf). lia.
    - destruct (packed_range _ _ _ _ Ho (side_lengths false) Hf). lia. }
  split_and!; done || lia.
Qed.

Lemma index_end : (kSpace + in_size) / kAlignment = kDataStartSector + n.
Proof.
  destruct in_sectors as [H _]. rewrite H at 1. unfold kSpace, kAlignment, kDataStartSector.
  rewrite Z.div_add by lia. done.
Qed.

Lemma segs_plain : Forall (plain_seg ((kSpace + in_size) / kAlignment)) segs.
Proof.
  apply Forall_forall. intros s Hs. destruct (seg_facts s Hs) as (H1 & H2 & H3 & H4 & H5 & H6 & H7).
  rewrite index_end. unfold plain_seg, seg_encodable, mapping_in_range, seg_mend. rewrite H4.
  change kDataStartSector with 8 in *.
  unfold kInvalidOffset, kMaxOffset, kMaxLength, kMaxMoffset, kSpace, kAlignment in *.
  rewrite u64_small by lia. split_and!; try lia.
Qed.

Lemma chain_ordered lo l hi :
  0 <= lo -> hi < 2 ^ 63 -> chain lo l hi -> ordered l = true.
Proof.
  revert lo. induction l as [|s l IH]; intros lo Hlo Hhi Hc; [done|]. destruct Hc as (Ho & Hl & _ & _ & Hc).
  pose proof (chain_le _ _ _ Hc). specialize (IH (lo + s_length s) ltac:(lia) Hhi Hc). destruct l as [|s' l]; [done|].
  change (ordered (s :: s' :: l)) with ((seg_end s <=? s_offset s') && ordered (s' :: l)).
  rewrite IH, andb_true_r. apply Z.leb_le. destruct Hc as (Ho' & _).
  unfold seg_end, kMaxLength in *. rewrite u64_small by lia. lia.
Qed.

(** The bytes of the image are in place. *)
Definition data_written (f : file) : Prop :=
  f_size f = kSpace + in_size /\ file_bytes f /\ Forall (copied fi f) segs.

Lemma data_runs w :
  ws_in w = fi ->
  runs (_ ← create_out; _ ← full_pwrite (zeros kSpace) 0;
        _ ← copy_pass ts false segs; copy_pass ts true segs) w (fun _ f => data_written f).
Proof.
  intros Hw. destruct in_sectors as [Hsz Hpos]. pose proof Hp as (Hc & Ho & Ht & _).
  assert (Forall (fun s => 0 <= s_offset s /\ 0 < s_length s /\
    (s_offset s + s_length s) * kAlignment <= f_size fi) segs) as Hall.
  { apply Forall_forall. intros s Hs. destruct (seg_facts s Hs) as (H1 & H2 & H3 & _). unfold kAlignment in *. lia. }
  eapply runs_bind; [apply runs_create with (Q := fun _ f => f = empty_file); done|]. intros [] f ->.
  eapply runs_bind; [apply runs_pwrite_eq|]. intros [] f ->.
  set (f0 := file_write _ 0 (zeros kSpace)). assert (f_size f0 = 4096) as Hs0 by done.
  assert (file_bytes f0) as Hb0 by (apply file_bytes_write; [apply file_bytes_empty|apply zeros_byte]).
  clearbody f0.
  eapply runs_bind; [apply (copy_pass_runs fi Hfi ts false segs kDataStartSector ts); simpl; try done|].
  cbv beta. simpl. intros [] f1 (F1 & F2 & F3 & F4).
  eapply runs_mono; [apply (copy_pass_runs fi Hfi ts true segs ts (kDataStartSector + n)); simpl; try done|].
  { change kDataStartSector with 8 in *. lia. }
  simpl. intros _ f2 (G1 & G2 & G3 & G4). split; [|split; [done|]].
  - rewrite G1. change kDataStartSector with 8. unfold kSpace, kAlignment in *. lia.
  - apply Forall_forall. intros s Hs. destruct (sel ts true s) eqn:Hsel.
    + rewrite Forall_forall in G4. apply G4. apply list_elem_of_In, filter_In. split; [by apply list_elem_of_In|done].
    + rewrite Forall_forall in F4. unfold copied. apply G3.
      * destruct (seg_facts s Hs) as (_ & _ & H3 & _). unfold sel in Hsel.
        pose proof (ord_below s Hs). rewrite eqb_false_iff in Hsel. unfold seg_data. rewrite zlen_slice.
        unfold kAlignment in *. destruct (Z.leb_spec ts (s_moffset s)); [done|lia].
      * apply F4. apply list_elem_of_In, filter_In. split; [by apply list_elem_of_In|]. unfold sel in *.
        by destruct (ts <=? s_moffset s).
Qed.

(** The finished file, closed with index, header and trailer. *)
Lemma close_runs w f :
  data_written f -> ws_in w = fi -> ws_out w = f ->
  runs (let index_offset := kSpace + in_size in
        let index_bytes := zlen segs * kEncodedSize in
        let total := index_offset + index_bytes + kSpace in
        let ht := layer_header data_flags index_offset (zlen segs) in_size (uuid_or opts rd) opts in
        _ ← full_pwrite (store_segments (zeros index_bytes) 0 segs) index_offset;
        let ht := set_flag_bit ht kFlagShiftHeader in
        region ← io_lift (serialize ht);
        _ ← full_pwrite region 0;
        let ht := clr_flag_bit ht kFlagShiftHeader in
        region ← io_lift (serialize ht);
        _ ← full_pwrite region (total - kSpace);
        out_ftruncate total) w
    (fun _ f => sealed_file f (layer_ht 7) (layer_ht 6) segs /\ Forall (copied fi f) segs /\ file_bytes f).
Proof.
  intros (Hs & Hb & Hc) Hw Ho. cbv zeta.
  assert (Forall seg_encodable segs) as He by (eapply Forall_impl; [exact segs_plain|]; by intros ? []).
  pose proof (zlen_encode_log segs He) as Hzi.
  assert (zlen segs * kEncodedSize = zlen (encode_log segs)) as Hzi' by (unfold kEncodedSize; lia).
  rewrite store_segments_val by done.
  change (set_flag_bit _ kFlagShiftHeader) with (layer_ht 7).
  change (clr_flag_bit _ kFlagShiftHeader) with (layer_ht 6).
  destruct (parse_serialize (layer_ht 7)) as (rh & Hrh & Hzh & Hbh & _); [apply layer_ht_ok; lia|].
  destruct (parse_serialize (layer_ht 6)) as (rt & Hrt & Hzt & Hbt & _); [apply layer_ht_ok; lia|].
  eapply runs_bind; [apply runs_pwrite_eq|]. rewrite Ho. intros [] f1 Hf1.
  eapply runs_bind; [by eapply runs_lift with (Q := fun r f => r = rh /\ f = f1); [exact Hrh|done]|].
  intros r f2 [-> ->]. eapply runs_bind; [apply runs_pwrite_eq|]. intros [] f2 Hf2. simpl in Hf2.
  eapply runs_bind; [by eapply runs_lift with (Q := fun r f => r = rt /\ f = f2); [exact Hrt|done]|].
  intros r f3 [-> ->]. eapply runs_bind; [apply runs_pwrite_eq|]. intros [] f3 Hf3. simpl in Hf3.
  apply runs_ftruncate. simpl ws_out. rewrite Hzi' in *.
  replace (kSpace + in_size + zlen (encode_log segs) + kSpace - kSpace)
    with (kSpace + in_size + zlen (encode_log segs)) in Hf3 by lia.
  assert (file_truncate f3 (kSpace + in_size + zlen (encode_log segs) + kSpace)
    = closed f (kSpace + in_size) (encode_log segs) rh rt) as -> by by subst.
  destruct (closed_file f (kSpace + in_size) (encode_log segs) rh rt) as (C1 & C2 & C3 & C4 & C5 & C6);
    try done; [unfold kSpace in *; lia|by apply encode_log_byte|].
  assert (0 < in_size < 2 ^ 62) as Hsm by (destruct in_sectors; unfold kMaxOffset in *; lia).
  split; [|split; [|done]].
  - split; try done; try (apply layer_ht_ok; lia).
    + eauto.
    + exists rt. rewrite C2. split; [done|].
      by replace (kSpace + in_size + zlen (encode_log segs) + kSpace - kSpace)
        with (kSpace + in_size + zlen (encode_log segs)) by lia.
    + split; [done|]. by destruct Hp as (_ & _ & _ & ?).
    + rewrite C2, Hzi'. destruct Hp as (_ & _ & _ & Hz). simpl. unfold kSpace, kMaxRoIndexSize in *. lia.
    + simpl. unfold kSpace. lia.
    + apply segs_plain.
    + destruct Hp as (Hch & _). eapply (chain_ordered 0); [lia| |exact Hch]. unfold kMaxOffset in *. lia.
  - apply Forall_forall. intros s Hin'. rewrite Forall_forall in Hc. specialize (Hc s Hin').
    destruct (seg_facts s Hin') as (_ & H2 & H3 & _ & _ & H6 & H7). destruct in_sectors.
    apply C6; [| |exact Hc]; unfold seg_data; rewrite ?zlen_slice; change kDataStartSector with 8 in *;
      unfold kSpace, kAlignment in *; lia.
Qed.

(** ** Reading the layer back *)

Lemma chain_resolve lo l hi x :
  chain lo l hi -> lo <= x < hi ->
  exists s, s ∈ l /\ s_offset s <= x < s_offset s + s_length s /\
    resolve l x = Data 0 (s_moffset s + (x - s_offset s)).
Proof.
  revert lo. induction l as [|s l IH]; intros lo Hc Hx; simpl in Hc; [lia|].
  destruct Hc as (Ho & Hl & Hz & Ht & Hc). simpl. destruct (covers s x) eqn:Hcov.
  - apply covers_true in Hcov. unfold fin in Hcov. exists s. split; [apply list_elem_of_here|].
    split; [lia|]. unfold seg_cell. by rewrite Hz, Ht.
  - apply covers_false in Hcov. unfold fin in Hcov.
    destruct (IH _ Hc ltac:(lia)) as (s' & Hin' & Hr & ->). exists s'. split; [by right|done].
Qed.

Section back.
Context {W : Type} (f : file).
Context (Hsf : sealed_file f (layer_ht 7) (layer_ht 6) segs) (Hcp : Forall (copied fi f) segs) (Hfb : file_bytes f).
Abbreviation layer := (@sealed_layer W f (layer_ht 6) segs).

Lemma layer_byte i : 0 <= i < in_size -> index_view f segs i = f_byte fi i.
Proof.
  intros Hi. destruct in_sectors as [Hsz Hpos]. destruct Hp as (Hc & _).
  pose proof (Z.div_mod i 512 ltac:(lia)) as Hd. pose proof (Z.mod_pos_bound i 512 ltac:(lia)) as Hm.
  assert (0 <= i / 512 < n) as Hx by (unfold kAlignment in *; lia).
  destruct (chain_resolve _ _ _ (i / 512) Hc Hx) as (s & Hs & Hr & Hres).
  unfold index_view, kSector. rewrite Hres. simpl. unfold kSector.
  rewrite Forall_forall in Hcp. destruct (Hcp s Hs) as [Hd1 Hd2]. unfold seg_data in *.
  rewrite zlen_slice in *. unfold kAlignment in *.
  apply (f_equal (fun l => bget l (i - s_offset s * 512))) in Hd1.
  rewrite !bget_slice in Hd1 by lia.
  replace (s_offset s * 512 + (i - s_offset s * 512)) with i in Hd1 by lia.
  rewrite <- Hd1. f_equal. lia.
Qed.

Lemma layer_reads_back m :
  merged_open [layer] = Ok m ->
  forall count off, 0 <= count -> 0 <= off -> count mod 512 = 0 -> off mod 512 = 0 ->
    io_spec (fun _ => False) (merged_pread m count off)
      (fun out => out = slice (f_byte fi) off (avail in_size count off)).
Proof.
  intros Hm count off Hc Ho Hcm Hom.
  assert (Forall non_empty segs) as Hne.
  { apply Forall_forall. intros s Hs. destruct (seg_facts s Hs) as (_ & _ & H3 & _). unfold non_empty. lia. }
  eapply io_spec_mono; [apply (sealed_reads f _ _ segs Hsf Hfb Hne m Hal Hn Hm); done|].
  cbv beta. intros out ->. apply slice_ext. intros i Hi. apply layer_byte. unfold avail in Hi. simpl in Hi. lia.
Qed.
End back.
End single.

(** The strings the header can hold. *)
Definition opts_ok (rd : bytes) (opts : LsmtWriteOptions) : Prop :=
  Forall is_byte rd /\ (zlen (lo_uuid opts) = 0 \/ cstr_ok 37 (lo_uuid opts)) /\
  cstr_ok 37 (lo_parent_uuid opts) /\ cstr_ok 256 (lo_user_tag opts) /\
  Forall (fun r => 0 <= r_offset r /\ 0 <= r_length r) (lo_tail_ranges opts).

Lemma uuid_or_ok rd opts : opts_ok rd opts -> cstr_ok 37 (uuid_or opts rd).
Proof.
  intros (Hrd & Hu & _). unfold uuid_or. case_if; [by apply generate_uuid_ok|].
  by destruct Hu.
Qed.

Lemma single_layer_runs rd opts in_size w tail tail_sectors segs :
  opts_ok rd opts -> file_bytes (ws_in w) -> 0 < in_size <= f_size (ws_in w) ->
  in_size mod kAlignment = 0 -> in_size / kAlignment <= kMaxOffset ->
  zlen (lo_tail_ranges opts) <= kMaxRoIndexSize ->
  normalize_tail (in_size / kAlignment) (lo_tail_ranges opts) [] 0 = Ok (tail, tail_sectors) ->
  let ts := kDataStartSector + in_size / kAlignment - tail_sectors in
  place (in_size / kAlignment) tail [] 0 kDataStartSector ts = Ok segs ->
  placed ts segs (in_size / kAlignment) ts (kDataStartSector + in_size / kAlignment) /\
  kDataStartSector <= ts <= kDataStartSector + in_size / kAlignment /\
  runs (write_lsmt_single_layer rd in_size opts) w (fun _ f =>
    sealed_file f (layer_ht rd opts in_size segs 7) (layer_ht rd opts in_size segs 6) segs /\
    Forall (copied (ws_in w) f) segs /\ file_bytes f).
Proof.
  intros Hopts Hfb Hin Hal Hn Hr Hnt ts Hpl. pose proof Hopts as (_ & _ & Hpu & Hut & Hrg).
  pose proof (normalize_tail_ok (in_size / kAlignment) (lo_tail_ranges opts) [] 0 Hrg) as Hnt'.
  rewrite Hnt in Hnt'. destruct Hnt' as [Hrok Hsum]; [simpl; apply Z.div_pos; unfold kAlignment; lia|done|].
  pose proof (ranges_ok_sum _ _ _ Hrok) as Hle.
  assert (placed ts [] 0 kDataStartSector ts) as Hp0 by (split_and!; done).
  pose proof (place_ok (in_size / kAlignment) ts tail [] 0 kDataStartSector ts Hp0 Hrok
    ltac:(lia) ltac:(unfold ts; lia)) as Hp. rewrite Hpl in Hp.
  replace (ts + ranges_sum tail) with (kDataStartSector + in_size / kAlignment) in Hp by (unfold ts; lia).
  assert (kDataStartSector <= ts <= kDataStartSector + in_size / kAlignment) as Hts by (unfold ts; lia).
  split; [done|]. split; [done|]. unfold write_lsmt_single_layer.
  rewrite (proj2 (Z.eqb_neq in_size 0)), (proj2 (Z.eqb_eq _ _) Hal) by lia. cbn [negb orb]. cbv zeta.
  rewrite !(proj2 (Z.ltb_ge _ _)) by lia.
  eapply runs_bind; [by eapply runs_lift with (Q := fun r f => r = (tail, tail_sectors) /\ f = ws_out w); [exact Hnt|done]|].
  intros r f0 [-> ->]. fold ts.
  eapply runs_bind; [by eapply runs_lift with (Q := fun r f => r = segs /\ f = ws_out w); [exact Hpl|done]|].
  intros r f0 [-> ->].
  intros Hscr. destruct (data_runs (ws_in w) in_size segs ts Hfb Hin Hal Hp Hts
    (WState (ws_in w) (ws_out w) []) eq_refl eq_refl) as ([] & f & Hrun & Hd).
  destruct (close_runs rd opts (ws_in w) in_size segs ts Hfb Hin Hal Hn Hp (uuid_or_ok rd opts Hopts) Hpu Hut
    Hts (WState (ws_in w) f []) f Hd eq_refl eq_refl eq_refl) as ([] & f' & Hrun' & Hf').
  exists tt, f'. split; [|exact Hf'].
  revert Hrun Hrun'. unfold mbind, io_bind. simpl ws_in.
  destruct (create_out _) as [[[]|] w1]; [|done]. destruct (full_pwrite (zeros kSpace) 0 w1) as [[[]|] w2]; [|done].
  destruct (copy_pass ts false segs w2) as [[[]|] w3]; [|done]. intros -> Hrun'. exact Hrun'.
Qed.

(** C21. An image written as a single layer opens as a layer of the image's size
    whose merged view returns the image, byte for byte, for every aligned read
    and whatever ranges the caller asked to pack at the tail.  Bad ranges or an
    index that would exceed its limit are refused before the output is
    created. *)
Theorem lsmt_layer_roundtrip {W} rd opts in_size w (w0 : W) :
  opts_ok rd opts -> file_bytes (ws_in w) -> 0 < in_size <= f_size (ws_in w) ->
  in_size mod kAlignment = 0 -> in_size / kAlignment <= kMaxOffset ->
  zlen (lo_tail_ranges opts) <= kMaxRoIndexSize -> ws_script w = [] ->
  let n := in_size / kAlignment in
  match normalize_tail n (lo_tail_ranges opts) [] 0 with
  | Err e => e = Errno EINVAL /\ write_lsmt_single_layer rd in_size opts w = (Err e, w)
  | Ok (tail, tail_sectors) =>
      match place n tail [] 0 kDataStartSector (kDataStartSector + n - tail_sectors) with
      | Err e => e = Errno EFBIG /\ write_lsmt_single_layer rd in_size opts w = (Err e, w)
      | Ok segs => exists f layer,
          write_lsmt_single_layer rd in_size opts w = (Ok tt, WState (ws_in w) f []) /\
          open (Some (file_source f)) w0 = (Ok layer, w0) /\
          l_segments layer = segs /\ virtual_size layer = in_size /\
          forall m, merged_open [layer] = Ok m ->
          forall count off, 0 <= count -> 0 <= off -> count mod 512 = 0 -> off mod 512 = 0 ->
            io_spec (fun _ => False) (merged_pread m count off)
              (fun out => out = slice (f_byte (ws_in w)) off (avail in_size count off))
      end
  end.
Proof.
  intros Hopts Hfb Hin Hal Hn Hr Hs n. pose proof Hopts as (_ & _ & _ & _ & Hrg).
  assert (0 <= n) as Hn0 by (apply Z.div_pos; unfold kAlignment; lia).
  pose proof (normalize_tail_ok n (lo_tail_ranges opts) [] 0 Hrg Hn0 eq_refl) as Hnt.
  assert (forall e, (normalize_tail n (lo_tail_ranges opts) [] 0 = Err e ->
    write_lsmt_single_layer rd in_size opts w = (Err e, w)) /\
    (forall tail k, normalize_tail n (lo_tail_ranges opts) [] 0 = Ok (tail, k) ->
      place n tail [] 0 kDataStartSector (kDataStartSector + n - k) = Err e ->
      write_lsmt_single_layer rd in_size opts w = (Err e, w))) as Herr.
  { intros e. unfold write_lsmt_single_layer, mbind, io_bind, io_lift, n in *.
    rewrite (proj2 (Z.eqb_neq in_size 0)), (proj2 (Z.eqb_eq _ _) Hal) by lia. cbn [negb orb]. cbv zeta.
    rewrite !(proj2 (Z.ltb_ge _ _)) by lia. split; [by intros ->|]. intros tail k -> H. by rewrite H. }
  destruct (normalize_tail n _ [] 0) as [[tail k]|e] eqn:Hnt'; [|split; [done|by apply (Herr e)]].
  destruct (place n tail [] 0 kDataStartSector (kDataStartSector + n - k)) as [segs|e] eqn:Hpl.
  - destruct (single_layer_runs rd opts in_size w tail k segs Hopts Hfb Hin Hal Hn Hr Hnt' Hpl)
      as (Hp & Hts & Hruns). destruct (Hruns Hs) as ([] & f & Hrun & Hsf & Hcp & Hb).
    exists f, (sealed_layer f (layer_ht rd opts in_size segs 6) segs). split; [done|].
    split; [by eapply sealed_opens|]. split; [done|]. split; [done|]. intros m Hm.
    by eapply layer_reads_back.
  - split; [|by apply (Herr e) with tail k].
    destruct Hnt as [Hrok Hsum].
    pose proof (place_ok n (kDataStartSector + n - k) tail [] 0 kDataStartSector (kDataStartSector + n - k)) as H.
    rewrite Hpl in H. apply H; [split_and!; done|done|lia|lia].
Qed.

Definition example_image : file := File 2048 (fun i => i mod 251).
Definition example_write_opts : LsmtWriteOptions := LOpts [97] [] [] [Range 1 1; Range 2 1].

Lemma lsmt_layer_roundtrip_witness :
  exists f layer,
    write_lsmt_single_layer [] 2048 example_write_opts (WState example_image empty_file [])
      = (Ok tt, WState example_image f []) /\
    open (Some (file_source f)) tt = (Ok layer, tt) /\
    l_segments layer = [Seg 0 1 8 false 0; Seg 1 2 10 false 0; Seg 3 1 9 false 0] /\
    virtual_size layer = 2048 /\
    forall m, merged_open [layer] = Ok m ->
    forall count off, 0 <= count -> 0 <= off -> count mod 512 = 0 -> off mod 512 = 0 ->
      io_spec (fun _ => False) (merged_pread m count off)
        (fun out => out = slice (fun i => i mod 251) off (avail 2048 count off)).
Proof.
  assert (opts_ok [] example_write_opts) as Ho.
  { unfold opts_ok, cstr_ok. simpl. split_and!; try done; try constructor; repeat constructor; simpl; lia. }
  assert (file_bytes example_image) as Hb.
  { intros i. unfold is_byte. simpl. pose proof (Z.mod_pos_bound i 251 ltac:(lia)). lia. }
  pose proof (lsmt_layer_roundtrip [] example_write_opts 2048 (WState example_image empty_file []) tt Ho Hb
    ltac:(simpl; lia) eq_refl ltac:(by vm_compute) ltac:(by vm_compute) eq_refl) as H.
  exact H.
Defined.

(** ** The warp writer *)

(** The fields of a mapping are unsigned. *)
Definition seg_unsigned (m : segment_mapping) : Prop :=
  0 <= s_offset m /\ 0 <= s_length m /\ 0 <= s_moffset m /\ 0 <= s_tag m.

(** What the validation knows of a mapping and its output form. *)
Definition scanned (vs isec : Z) (old m : segment_mapping) : Prop :=
  seg_encodable m /\ s_offset m = s_offset old /\ s_length m = s_length old /\
  s_zeroed m = s_zeroed old /\ s_tag m = s_tag old /\ 0 < s_length m /\
  s_offset m + s_length m <= vs / kAlignment /\
  (s_tag m = 1 -> m = old) /\
  (s_tag m = 0 -> s_zeroed m = false -> s_moffset old + s_length old <= isec).

Lemma scan_mapping_ok vs isec sc m sc' m' :
  seg_unsigned m -> vs / kAlignment <= kMaxOffset ->
  sc_data_end sc mod kAlignment = 0 -> kSpace <= sc_data_end sc <= max_file ->
  scan_mapping vs isec sc m = Ok (sc', m') ->
  scanned vs isec m m' /\
  sc_data_end sc' mod kAlignment = 0 /\ kSpace <= sc_data_end sc' <= max_file /\
  if (s_tag m' =? 0) && negb (s_zeroed m') then
    s_moffset m' * kAlignment = sc_data_end sc /\
    sc_data_end sc' = sc_data_end sc + s_length m' * kAlignment
  else sc_data_end sc' = sc_data_end sc.
Proof.
  unfold seg_unsigned, scan_mapping, kInvalidOffset. intros (U1 & U2 & U3 & U4) Hvs Hmod Hde H.
  case_if_in H; [done|]. unfold scanned, seg_encodable.
  pose proof (Z.div_mod (sc_data_end sc) kAlignment ltac:(done)) as Hdm. rewrite Hmod in Hdm.
  assert (0 <= sc_data_end sc / kAlignment <= kMaxMoffset) as Hq.
  { unfold kAlignment, kMaxMoffset, max_file, kSpace in *. lia. }
  destruct (Z.eqb_spec (s_tag m) 0) as [Ht|Ht].
  - case_if_in H; [done|]. destruct (s_zeroed m) eqn:Hz; cbn [negb andb] in *.
    + injection H as <- <-. simpl. rewrite Ht. simpl.
      split; [split_and!; done || lia|]. done.
    + case_if_in H; [done|]. injection H as <- <-. simpl. rewrite Ht. simpl.
      split; [split_and!; try done; try lia; intros; lia|].
      split; [unfold kAlignment in *; by rewrite Z.mod_add|]. unfold kAlignment in *. split_and!; lia.
  - injection H as <- <-. simpl. rewrite (proj2 (Z.eqb_neq (s_tag m) 0)) by done. simpl.
    split; [|done]. split_and!; try done; try lia.
Qed.

Section warp_copy.
Context (fi : file) (Hfi : file_bytes fi) (vs : Z) (Hvs : vs / kAlignment <= kMaxOffset).
Abbreviation isec := (f_size fi / kAlignment).

(** The data of a local extent is where the output mapping says. *)
Definition moved (f : file) (old m : segment_mapping) : Prop :=
  s_tag m = 0 -> s_zeroed m = false ->
  holds f (s_moffset m * kAlignment)
    (slice (f_byte fi) (s_moffset old * kAlignment) (s_length m * kAlignment)).

Lemma scan_copy ms : forall sc sc' segs w,
  Forall seg_unsigned ms -> sc_data_end sc mod kAlignment = 0 -> kSpace <= sc_data_end sc <= max_file ->
  scan_mappings vs isec sc ms = Ok (sc', segs) ->
  ws_in w = fi -> file_bytes (ws_out w) -> f_size (ws_out w) = sc_data_end sc ->
  Forall2 (scanned vs isec) ms segs /\ kSpace <= sc_data_end sc' <= max_file /\
  runs (copy_local ms segs) w (fun _ f =>
    f_size f = sc_data_end sc' /\ file_bytes f /\ keeps_below (sc_data_end sc) (ws_out w) f /\
    Forall2 (moved f) ms segs).
Proof.
  induction ms as [|m ms IH]; intros sc sc' segs w Hu Hmod Hde H Hw Hb Hs.
  { simpl in H. injection H as <- <-. split; [constructor|]. split; [done|]. apply runs_ret.
    split_and!; [done|done|apply keeps_below_refl|constructor]. }
  apply Forall_cons in Hu as [Hm Hu]. simpl in H.
  destruct (scan_mapping vs isec sc m) as [[sc1 m1]|] eqn:H1; [|done]. simpl in H.
  destruct (scan_mappings vs isec sc1 ms) as [[sc2 segs1]|] eqn:H2; [|done]. simpl in H.
  injection H as <- <-.
  destruct (scan_mapping_ok vs isec sc m sc1 m1 Hm Hvs Hmod Hde H1) as (Hsc & Hmod1 & Hde1 & Hstep).
  pose proof Hsc as (Henc & _ & Hlen & _ & _ & Hpos & _ & _ & Hloc).
  assert (forall f, f_size f = sc_data_end sc1 -> file_bytes f ->
    Forall2 (scanned vs isec) ms segs1 /\ kSpace <= sc_data_end sc2 <= max_file /\
    runs (copy_local ms segs1) (WState (ws_in w) f []) (fun _ g =>
      f_size g = sc_data_end sc2 /\ file_bytes g /\ keeps_below (sc_data_end sc1) f g /\
      Forall2 (moved g) ms segs1)) as IH'.
  { intros f Hfs Hfb. apply (IH sc1 sc2 segs1 (WState (ws_in w) f [])); done. }
  destruct (IH' (File (sc_data_end sc1) (fun _ => 0)) eq_refl ltac:(intros i; unfold is_byte; simpl; lia))
    as (HF & HE & _).
  split; [by constructor|]. split; [done|]. cbn [copy_local].
  destruct (negb (s_tag m1 =? 0) || s_zeroed m1) eqn:Hskip.
  - assert (sc_data_end sc1 = sc_data_end sc) as Heq.
    { destruct (s_tag m1 =? 0), (s_zeroed m1); done. }
    intros Hscr. destruct (IH' (ws_out w) ltac:(lia) Hb) as (_ & _ & Hrun).
    destruct (Hrun eq_refl) as ([] & g & Hg & G1 & G2 & G3 & G4).
    exists tt, g. split.
    { destruct w; simpl in *. subst. exact Hg. }
    rewrite Heq in G3. split_and!; try done. constructor; [|done].
    intros Ht Hz. rewrite Ht, Hz in Hskip. done.
  - bool_hyps. replace (s_tag m1) with 0 in * by lia. cbn [Z.eqb andb negb] in Hstep.
    match goal with H : s_zeroed m1 = false |- _ => rewrite H in Hstep; rename H into Hz end.
    cbn [negb] in Hstep. destruct Hstep as [Hmo Hde']. specialize (Hloc eq_refl Hz).
    pose proof (Z.mul_div_le (f_size fi) kAlignment ltac:(done)) as Hdiv. destruct Hm as (_ & _ & Hmn & _).
    eapply runs_bind.
    { apply (copy_loop_runs fi Hfi _ _ _ _ 0 w); unfold kAlignment, kSpace in *; try done; try lia.
      split; [done|]. rewrite zlen_slice. lia. }
    cbv beta. intros [] f (F1 & F2 & F3 & F4).
    destruct (IH' f ltac:(unfold kAlignment in *; lia) F3) as (_ & _ & Hrun).
    eapply runs_mono; [exact Hrun|]. simpl. intros _ g (G1 & G2 & G3 & G4).
    split_and!; try done.
    + rewrite Hmo in F4. refine (keeps_below_trans _ _ _ _ _ _ F4 G3). unfold kAlignment in *. lia.
    + constructor; [|done]. intros _ _. apply G3; [|exact F1]. rewrite zlen_slice. unfold kAlignment in *. lia.
Qed.
End warp_copy.

Lemma scan_mapping_err vs isec sc m e : scan_mapping vs isec sc m = Err e -> e = Errno EINVAL.
Proof. unfold scan_mapping, format_error. intros H. repeat case_if_in H; by simplify_eq. Qed.

Lemma scan_mappings_err vs isec ms : forall sc e,
  scan_mappings vs isec sc ms = Err e -> e = Errno EINVAL.
Proof.
  induction ms as [|m ms IH]; intros sc e H; simpl in H; [done|].
  destruct (scan_mapping vs isec sc m) as [[sc1 m1]|] eqn:H1; simpl in H.
  - destruct (scan_mappings vs isec sc1 ms) as [[]|] eqn:H2; simplify_eq/=. by eapply IH.
  - simplify_eq. by eapply scan_mapping_err.
Qed.

(** The file the warp writer leaves: a layer's layout, with the data of the
    local extents moved to where the output index says. *)
Definition warp_file (fi f : file) (ht : HeaderTrailer) (ms segs : list segment_mapping) : Prop :=
  let data_end := ht_index_offset ht in
  let isec := f_size fi / kAlignment in
  Forall2 (scanned (ht_virtual_size ht) isec) ms segs /\ Forall2 (moved fi f) ms segs /\
  f_size f = data_end + zlen segs * kEncodedSize + kSpace /\
  holds f data_end (encode_log segs) /\
  exists header trailer,
    serialize (set_flag_bit ht kFlagShiftHeader) = Ok header /\ holds f 0 header /\
    serialize ht = Ok trailer /\ holds f (data_end + zlen segs * kEncodedSize) trailer.

(** Appending the index and the trailer to the data. *)
Lemma warp_close fi f ht ms segs header trailer :
  Forall2 (scanned (ht_virtual_size ht) (f_size fi / kAlignment)) ms segs ->
  Forall2 (moved fi f) ms segs -> f_size f = ht_index_offset ht -> kSpace <= f_size f ->
  serialize (set_flag_bit ht kFlagShiftHeader) = Ok header -> holds f 0 header ->
  serialize ht = Ok trailer -> zlen trailer = kSpace ->
  let data_end := ht_index_offset ht in
  let total := data_end + zlen segs * kEncodedSize + kSpace in
  warp_file fi
    (file_truncate (file_write (file_write f data_end (encode_log segs)) (total - kSpace) trailer) total)
    ht ms segs.
Proof.
  intros Hsc Hmv Hs Hsp Hh Hh0 Ht Hzt data_end total.
  assert (Forall seg_encodable segs) as He.
  { clear -Hsc. induction Hsc as [|? ? ? ? [? _]]; by constructor. }
  pose proof (zlen_encode_log segs He) as Hzi. pose proof (zlen_nonneg segs).
  assert (zlen (encode_log segs) = zlen segs * kEncodedSize) as Hzi' by (unfold kEncodedSize; lia).
  set (f1 := file_write f data_end (encode_log segs)).
  replace (total - kSpace) with (data_end + zlen (encode_log segs)) by (unfold total; lia).
  set (f2 := file_write f1 _ trailer). unfold kSpace in *.
  destruct (holds_append f [] (encode_log segs) data_end) as [I1 I2];
    [lia|apply holds_nil; lia|rewrite zlen_nil; lia|].
  rewrite zlen_nil, Z.add_0_r in I1, I2. cbn [app] in I1, I2. fold f1 in I1, I2.
  destruct (holds_append f1 (encode_log segs) trailer data_end ltac:(lia) I1 I2) as [J1 J2].
  fold f2 in J1, J2. rewrite zlen_app in J2. apply holds_app_inv in J1 as [J1 J3].
  assert (forall p x, p + zlen x <= f_size f -> holds f p x -> holds (file_truncate f2 total) p x) as Hkeep.
  { intros p x Hp Hx. apply holds_truncate; [|unfold total; lia].
    do 2 (apply holds_write_other; [|left; pose proof (zlen_nonneg (encode_log segs)); lia]). exact Hx. }
  unfold warp_file. fold data_end. split; [done|]. split.
  { eapply Forall2_impl; [exact Hmv|]. intros old m Hm Ht0 Hz0. specialize (Hm Ht0 Hz0).
    apply Hkeep; [by destruct Hm|done]. }
  split; [done|].
  split; [apply holds_truncate; [done|unfold total; lia]|].
  exists header, trailer. split_and!; try done.
  - apply Hkeep; [by destruct Hh0|done].
  - rewrite <- Hzi'. apply holds_truncate; [done|unfold total; lia].
Qed.

Lemma warp_header_ok rd opts data_end n vs :
  opts_ok rd opts -> kSpace <= data_end <= max_file -> 0 <= n <= kMaxRoIndexSize ->
  0 < vs -> vs / kAlignment <= kMaxOffset -> vs mod kAlignment = 0 ->
  forall flags, 0 <= flags < 2 ^ 32 ->
  ht_ok (layer_header flags data_end n vs (uuid_or opts rd) opts).
Proof.
  intros Ho Hd Hn Hv Hvs Hm flags Hf. pose proof (uuid_or_ok rd opts Ho). destruct Ho as (_ & _ & ? & ? & _).
  pose proof (Z.div_mod vs kAlignment ltac:(done)).
  unfold ht_ok, layer_header, is_byte, kMaxOffset, kSpace, kMaxRoIndexSize, kAlignment, max_file in *.
  cbn [ht_size ht_flags ht_index_offset ht_index_size ht_virtual_size ht_uuid ht_parent_uuid ht_reserved
    ht_version ht_sub_version ht_user_tag]. split_and!; done || lia.
Qed.

Lemma runs_open_out w (Q : unit -> file -> Prop) : Q tt (ws_out w) -> runs open_out w Q.
Proof. intros H Hs. exists tt, (ws_out w). unfold open_out, ws_next. rewrite Hs. destruct w; simpl in *; by subst. Qed.

(** Everything after the validation. *)
Lemma warp_body_runs fi vs ms segs sc ht header trailer w :
  file_bytes fi -> vs / kAlignment <= kMaxOffset -> Forall seg_unsigned ms ->
  scan_mappings vs (f_size fi / kAlignment) (Scan 0 kSpace false false) ms = Ok (sc, segs) ->
  ht_index_offset ht = sc_data_end sc -> ht_virtual_size ht = vs ->
  serialize (set_flag_bit ht kFlagShiftHeader) = Ok header -> zlen header = kSpace ->
  Forall is_byte header -> serialize ht = Ok trailer -> zlen trailer = kSpace ->
  ws_in w = fi -> file_bytes (ws_out w) ->
  let data_end := sc_data_end sc in
  let total := data_end + zlen segs * kEncodedSize + kSpace in
  runs (_ ← open_out;
        _ ← out_ftruncate 0;
        _ ← full_pwrite header 0;
        _ ← copy_local ms segs;
        _ ← full_pwrite (store_segments (zeros (zlen segs * kEncodedSize)) 0 segs) data_end;
        _ ← full_pwrite trailer (total - kSpace);
        out_ftruncate total) w
    (fun _ f => warp_file fi f ht ms segs).
Proof.
  intros Hfi Hvs Hu Hsc Hio Hv Hh Hzh Hbh Ht Hzt Hw Hwb data_end total.
  eapply runs_bind; [by apply (runs_open_out w (fun _ f => f = ws_out w))|]. intros [] f0 ->.
  eapply runs_bind; [by apply (runs_ftruncate 0 _ (fun _ f => f = file_truncate (ws_out w) 0))|].
  intros [] f0 Hf0. eapply runs_bind; [apply runs_pwrite_eq|]. simpl. intros [] f1 Hf1.
  assert (f_size f1 = kSpace) as Hs1 by (subst; simpl; unfold kSpace in *; case_if; lia).
  assert (holds f1 0 header) as Hh1.
  { subst f1. destruct (holds_write f0 0 header ltac:(lia)) as [?|Hz]; [done|unfold kSpace in *; lia]. }
  assert (file_bytes f1) as Hb1.
  { subst. apply file_bytes_write; [|done]. by apply file_bytes_truncate. }
  destruct (scan_copy fi Hfi vs Hvs ms (Scan 0 kSpace false false) sc segs (WState (ws_in w) f1 []) Hu eq_refl
    ltac:(simpl; unfold kSpace, max_file; lia) Hsc Hw Hb1 Hs1) as (HF & HE & Hrun).
  eapply runs_bind; [exact Hrun|]. simpl. intros [] f2 (F1 & F2 & F3 & F4).
  assert (Forall seg_encodable segs) as He.
  { clear -HF. induction HF as [|? ? ? ? [? _]]; by constructor. }
  rewrite store_segments_val by done.
  eapply runs_bind; [apply runs_pwrite_eq|]. simpl. intros [] f3 ->.
  eapply runs_bind; [apply runs_pwrite_eq|]. simpl. intros [] f4 ->.
  apply runs_ftruncate. simpl ws_out. subst data_end total. rewrite <- Hio in *.
  apply (warp_close fi f2 ht ms segs header trailer); try done; [by rewrite Hv|lia|].
  apply F3; [rewrite Hzh; simpl; lia|done].
Qed.

(** The warp writer refuses every structural error (sizes, alignment, index
    count, order, tags, ranges outside the metadata input, an output that is
    the input) before it changes the output.  Otherwise the output is a header,
    the data of the local extents packed in index order, the index, and a
    trailer; remote and zeroed entries keep their place and own no data. *)
Theorem warp_layer_written rd unreadable aliases vs ms opts w :
  opts_ok rd opts -> file_bytes (ws_in w) -> file_bytes (ws_out w) ->
  Forall seg_unsigned ms -> 0 <= vs -> ws_script w = [] ->
  match write_lsmt_warp_layer rd unreadable aliases vs ms opts w with
  | (Err e, w') => e = Errno EINVAL /\ w' = w
  | (Ok _, w') => ws_in w' = ws_in w /\ exists data_end segs,
      kSpace <= data_end /\
      warp_file (ws_in w) (ws_out w')
        (layer_header data_flags data_end (zlen segs) vs (uuid_or opts rd) opts) ms segs
  end.
Proof.
  intros Ho Hfb Hob Hu Hvs0 Hs. unfold write_lsmt_warp_layer. case_if; [done|]. bool_hyps.
  rewrite (io_step _ _ w (f_size (ws_in w)) w) by done.
  case_if; [done|]. destruct (scan_mappings _ _ _ _) as [[sc segs]|e] eqn:Hsc.
  2:{ apply scan_mappings_err in Hsc as ->. done. }
  rewrite (io_step _ _ w (sc, segs) w) by done. cbv beta iota zeta.
  case_if; [done|]. case_if; [done|].
  destruct (scan_copy (ws_in w) Hfb vs ltac:(lia) ms (Scan 0 kSpace false false) sc segs
    (WState (ws_in w) (File kSpace (fun _ => 0)) []) Hu eq_refl ltac:(simpl; unfold kSpace, max_file; lia)
    Hsc eq_refl ltac:(intros i; simpl; unfold is_byte; lia) eq_refl) as (HF & HE & _).
  set (ht := layer_header data_flags (sc_data_end sc) (zlen segs) vs (uuid_or opts rd) opts).
  assert (0 <= zlen segs <= kMaxRoIndexSize) as Hn.
  { unfold zlen in *. rewrite <- (Forall2_length _ _ _ HF). lia. }
  assert (ht_ok ht) as Hk1 by (apply warp_header_ok; (done || lia)).
  assert (ht_ok (set_flag_bit ht kFlagShiftHeader)) as Hk2.
  { apply (warp_header_ok rd opts (sc_data_end sc) (zlen segs) vs); try done; lia. }
  destruct (parse_serialize ht Hk1) as (rt & Hrt & Hzt & Hbt & _).
  destruct (parse_serialize _ Hk2) as (rh & Hrh & Hzh & Hbh & _).
  rewrite (io_step _ _ w rt w) by by rewrite Hrt. rewrite (io_step _ _ w rh w) by by rewrite Hrh.
  destruct aliases.
  { unfold open_out, mbind, io_bind, ws_next. rewrite Hs. simpl. by destruct w; simpl in *; subst. }
  destruct (warp_body_runs (ws_in w) vs ms segs sc ht rh rt w Hfb ltac:(lia) Hu Hsc eq_refl eq_refl Hrh Hzh Hbh
    Hrt Hzt eq_refl Hob Hs) as ([] & f & -> & Hf).
  split; [done|]. exists (sc_data_end sc), segs. split; [lia|exact Hf].
Qed.

Definition example_mappings : list segment_mapping :=
  [Seg 0 1 2 false 0; Seg 1 5 7 false 1; Seg 6 1 0 true 0; Seg 7 1 0 false 0].

Lemma warp_layer_written_witness :
  exists f data_end segs,
    write_lsmt_warp_layer [] false false 8192 example_mappings example_write_opts
      (WState example_image empty_file []) = (Ok tt, WState example_image f []) /\
    kSpace <= data_end /\
    warp_file example_image f
      (layer_header data_flags data_end (zlen segs) 8192 (uuid_or example_write_opts []) example_write_opts)
      example_mappings segs.
Proof.
  assert (opts_ok [] example_write_opts) as Ho.
  { unfold opts_ok, cstr_ok. simpl. split_and!; try done; try constructor; repeat constructor; simpl; lia. }
  assert (file_bytes example_image) as Hb.
  { intros i. unfold is_byte. simpl. pose proof (Z.mod_pos_bound i 251 ltac:(lia)). lia. }
  assert (Forall seg_unsigned example_mappings) as Hu.
  { unfold example_mappings, seg_unsigned. repeat constructor; simpl; lia. }
  pose proof (warp_layer_written [] false false 8192 example_mappings example_write_opts
    (WState example_image empty_file []) Ho Hb file_bytes_empty Hu ltac:(lia) eq_refl) as H.
  assert (match write_lsmt_warp_layer [] false false 8192 example_mappings example_write_opts
    (WState example_image empty_file []) with (Ok _, w) => ws_script w | _ => [Failed 0 0] end = []) as Hok
    by by vm_compute.
  destruct (write_lsmt_warp_layer _ _ _ _ _ _ _) as [[[]|] [wi wo ws]]; [|done]. simpl in Hok. subst ws.
  destruct H as (Hi & data_end & segs & Hd & Hf). simpl in Hi. subst wi. by exists wo, data_end, segs.
Defined.
