(* ===== verification/Seal.v ===== *)
(** * Sealing a writable layer ([LsmtRwLayer::seal], [seal_file] and
    [create_empty_lsmt_layer] of [format/lsmt_rw.cpp])

    The live extents are copied, packed, into a new file that gets an index, a
    header and a trailer whose UUID is derived from the content, and the file
    replaces the payload by rename.  The new file is a value until it is
    published: a failure before the rename unlinks it.  SHA-256 is a parameter
    (OpenSSL), as are the outcomes of the file system calls. *)
From S2P Require Import Prelude Bytes LsmtFormat Source File Segments Merge Trim Lsmt Journal FilePair LsmtRw Writer LayerFile.

Open Scope Z_scope.

Section seal.
Context (sha256_hex : bytes -> bytes).

Definition make_ht (header sealed : bool) (index_offset index_size vsize : Z) (uuid user_tag : bytes)
  : HeaderTrailer :=
  let ht := HT kHeaderSize 0 index_offset index_size vsize uuid [] 0 1 1 user_tag in
  let ht := set_flag_bit ht kFlagShiftType in
  let ht := if header then set_flag_bit ht kFlagShiftHeader else ht in
  if sealed then set_flag_bit ht kFlagShiftSealed else ht.

Definition insert_dash (u : bytes) (pos : Z) : bytes := ztake pos u ++ [45] ++ zdrop pos u.
Definition uuid_from_content_digest (digest_hex : bytes) : bytes :=
  let u := ztake 32 digest_hex in
  let u := insert_dash u 20 in
  let u := insert_dash u 16 in
  let u := insert_dash u 12 in
  insert_dash u 8.

(** [read_all] of a chunk, hashed and appended to the output. *)
Fixpoint seal_copy (fuel : nat) (remaining from to : Z) (out : file) (hash : bytes)
  : io FilePair (file * bytes) :=
  if 0 <? remaining then
    match fuel with
    | O => io_fail Fuel
    | S fuel =>
        let n := Z.min remaining (Z.shiftl 1 20) in
        bs ← pair_read from n;
        out ← temp_write out to bs;
        seal_copy fuel (remaining - n) (from + n) (to + n) out (hash ++ bs)
    end
  else mret (out, hash).

Record sealing := Sealing {
  sl_packed : list segment_mapping;
  sl_sector : Z;
  sl_out : file;
  sl_hash : bytes;
}.

Definition seal_segment (s : segment_mapping) (st : sealing) : io FilePair sealing :=
  let m := Seg (s_offset s) (s_length s) (sl_sector st) (s_zeroed s) (s_tag s) in
  if s_zeroed s then
    mret (Sealing (insert_sorted (sl_packed st) m) (sl_sector st) (sl_out st) (sl_hash st))
  else
    let remaining := s_length s * kSector in
    '(out, hash) ← seal_copy (S (Z.to_nat remaining)) remaining (s_moffset s * kSector)
                     (sl_sector st * kSector) (sl_out st) (sl_hash st);
    mret (Sealing (insert_sorted (sl_packed st) m) (sl_sector st + s_length s) out hash).

Fixpoint seal_segments (segs : list segment_mapping) (st : sealing) : io FilePair sealing :=
  match segs with
  | [] => mret st
  | s :: segs => st ← seal_segment s st; seal_segments segs st
  end.

Definition vsize_le (vsize : Z) : bytes := store_u64_le (zeros 8) 0 vsize.

(** Index, header and trailer behind the packed data; the finished file, its
    length and its UUID. *)
Definition seal_close (st : sealing) (vsize : Z) (user_tag : bytes) : io FilePair (file * Z * bytes) :=
  let index_sector := (sl_sector st + kHeaderSectors - 1) / kHeaderSectors * kHeaderSectors in
  let index_offset := index_sector * kSector in
  let index_size := zlen (sl_packed st) in
  let index_bytes := zlen (sl_packed st) * 16 in
  let index_region := (index_bytes + 4095) / 4096 * 4096 in
  let idx := store_segments (zeros index_region) 0 (sl_packed st) in
  let uuid := uuid_from_content_digest (sha256_hex (sl_hash st ++ ztake index_bytes idx)) in
  region ← io_lift (serialize (make_ht true true index_offset index_size vsize uuid user_tag));
  out ← temp_write (sl_out st) 0 region;
  out ← temp_write out index_offset idx;
  region ← io_lift (serialize (make_ht false true index_offset index_size vsize uuid user_tag));
  let trailer_offset := index_offset + index_region in
  out ← temp_write out trailer_offset region;
  mret (out, trailer_offset + kSpace, uuid).

(** The state a published seal leaves. *)
Definition seal_publish (packed : list segment_mapping) (out : file) (sealed_bytes : Z) (uuid : bytes)
  : io LsmtRwLayer unit := fun w =>
  (Ok tt, Rw (set_data (rw_pair w) out) packed (mappings_changed w) (rw_data_end_sector w) sealed_bytes
            (rw_vsize w) uuid (rw_journal_failed w) true (rw_checkpointed w) (rw_grow_op w) (rw_terminal_op w)).

Definition seal_body (segments : list segment_mapping) (seal_vsize : Z) (user_tag : bytes)
  : io LsmtRwLayer unit :=
  _ ← on_pair pair_sync;                              (* create the output *)
  st ← on_pair (seal_segments segments (Sealing [] kHeaderSectors empty_file (vsize_le seal_vsize)));
  '(out, sealed_bytes, uuid) ← on_pair (seal_close st seal_vsize user_tag);
  _ ← on_pair pair_sync;                              (* sync the output *)
  _ ← on_pair pair_sync;                              (* duplicate its descriptor *)
  _ ← on_pair pair_sync;                              (* rename *)
  _ ← seal_publish (sl_packed st) out sealed_bytes uuid;
  on_pair pair_sync.                                  (* directory *)

Definition seal (user_tag : bytes) : io LsmtRwLayer unit := fun w =>
  if rw_journal_failed w then (Err (Errno EIO), w) else
  match begin_terminal_op true w with
  | (Err f, w) => (Err f, w)
  | (Ok _, w) => let '(r, w) := seal_body (rw_segments w) (rw_vsize w) user_tag w in (r, (end_terminal_op w).2)
  end.

(** ** Reading the pair and writing a file no one else sees *)

(** [m] leaves the files of the pair alone. *)
Definition touches_none {A} (m : io FilePair A) (p : FilePair) (P : A -> Prop) : Prop :=
  attempt p_script m p (fun a p' => P a /\ same_files p p') (same_files p).

Lemma touches_ret {A} (a : A) p (P : A -> Prop) : P a -> touches_none (mret a) p P.
Proof. intros H. apply attempt_ret. split; [done|apply same_files_refl]. Qed.

Lemma touches_lift {A} (r : res A) a p (P : A -> Prop) : r = Ok a -> P a -> touches_none (io_lift r) p P.
Proof. intros Hr H. eapply attempt_lift; [exact Hr|]. split; [done|apply same_files_refl]. Qed.

Lemma touches_bind {A B} (m : io FilePair A) (k : A -> io FilePair B) p P Q :
  touches_none m p P -> (forall a p', P a -> same_files p p' -> touches_none (k a) p' Q) ->
  touches_none (m ≫= k) p Q.
Proof.
  intros Hm Hk. eapply attempt_bind; [exact Hm|]. cbv beta. intros a p' [HP Hp].
  eapply attempt_mono; [by apply Hk| |]; cbv beta.
  - intros b p'' [HQ Hp']. split; [done|]. by eapply same_files_trans.
  - intros p'' Hp'. by eapply same_files_trans.
Qed.

Lemma touches_mono {A} (m : io FilePair A) p (P Q : A -> Prop) :
  touches_none m p P -> (forall a, P a -> Q a) -> touches_none m p Q.
Proof. intros H HPQ. eapply attempt_mono; [exact H| |done]. cbv beta. intros a p' []. auto. Qed.

Lemma touches_sync p : touches_none pair_sync p (fun _ => True).
Proof. apply pair_sync_attempt; intros s; [split; [done|]|]; by exists s. Qed.

Lemma touches_write f off bs p : touches_none (temp_write f off bs) p (fun f' => f' = file_write f off bs).
Proof.
  eapply touches_bind; [apply touches_sync|]. intros [] p' _ _. by apply touches_ret.
Qed.

Lemma touches_read p off n :
  0 <= off -> 0 <= n -> off + n <= f_size (p_data p) ->
  touches_none (pair_read off n) p (fun bs => bs = slice (f_byte (p_data p)) off n).
Proof.
  intros Ho Hn Hl. unfold touches_none, attempt, pair_read, pair_step, mbind, io_bind, io_run.
  pose proof (next_outcome_spec (p_script p)) as Hs.
  destruct (next_outcome (p_script p)) as [[|k e] s]; destruct Hs as [Hsub Hf]; cbn -[file_read].
  - rewrite file_read_full by lia. rewrite (proj2 (Z.eqb_eq _ _)) by len. split; [done|]. split; [done|]. by exists s.
  - split; [by apply (Hf k)|by exists s].
Qed.

Lemma same_files_data p p' : same_files p p' -> p_data p' = p_data p.
Proof. by intros [s ->]. Qed.

(** ** Copying one extent *)

(** [out] with [bs] at [to], and all it held before. *)
Definition extended (out : file) (to : Z) (bs : bytes) (out' : file) : Prop :=
  holds out' to bs /\ f_size out' <= to + zlen bs /\ file_bytes out' /\ keeps_below to out out'.

Lemma seal_copy_ok fuel : forall remaining from to out hash p,
  remaining < Z.of_nat fuel -> 0 <= remaining -> 0 <= from -> 0 <= to ->
  from + remaining <= f_size (p_data p) -> file_bytes (p_data p) -> file_bytes out -> f_size out <= to ->
  (0 < remaining \/ f_size out = to) ->
  touches_none (seal_copy fuel remaining from to out hash) p
    (fun oh => extended out to (slice (f_byte (p_data p)) from remaining) oh.1).
Proof.
  induction fuel as [|fuel IH]; intros remaining from to out hash p Hf Hr Hfr Hto Hl Hdb Hob Hs Hend; [lia|].
  cbn [seal_copy]. destruct (Z.ltb_spec 0 remaining) as [Hpos|].
  2:{ replace remaining with 0 by lia. apply touches_ret. destruct Hend as [|Hend]; [lia|].
      split_and!; [split; [done|]; rewrite zlen_slice; simpl; lia|rewrite zlen_slice; simpl; lia|done|apply keeps_below_refl]. }
  change (Z.shiftl 1 20) with 1048576. set (n := Z.min remaining 1048576).
  assert (0 < n <= remaining) as Hn by lia. clearbody n.
  eapply touches_bind; [apply touches_read; lia|]. intros bs p1 -> H1.
  eapply touches_bind; [apply touches_write|]. intros out1 p2 -> H2.
  pose proof (same_files_data _ _ (same_files_trans _ _ _ H1 H2)) as Hd. rewrite <- Hd in *.
  set (bs := slice (f_byte (p_data p2)) from n). assert (zlen bs = n) as Hz by (unfold bs; len).
  assert (f_size (file_write out to bs) = to + n) as Hsz by (simpl; case_if; lia).
  eapply touches_mono.
  { apply IH; try lia; try done. apply file_bytes_write; [done|]. by apply slice_bytes. }
  intros [out' hash'] (E1 & E2 & E3 & E4). simpl in *. rewrite zlen_slice in E2.
  replace remaining with (n + (remaining - n)) by lia. rewrite slice_app by lia. fold bs.
  unfold extended. rewrite zlen_app, zlen_slice, Hz. split_and!; [|lia|done|].
  - apply holds_app; [|by rewrite Hz]. apply E4; [lia|].
    destruct (holds_write out to bs Hto) as [?|?]; [done|lia].
  - eapply keeps_below_trans; [|by apply keeps_below_write|exact E4]. lia.
Qed.

(** ** The packed index *)

(** The sector a cell of the packed index names holds what the cell of the live
    index does. *)
Definition same_cell (data out : file) (sector : Z) (c d : cell) : Prop :=
  match c, d with
  | Hole, Hole | Zero, Zero => True
  | Data _ p, Data t q =>
      t = 0 /\ q < sector /\ holds out (q * kSector) (slice (f_byte data) (p * kSector) kSector)
  | _, _ => False
  end.

(** A packed extent lies between the header and [sector]. *)
Definition packed_seg (sector : Z) (s : segment_mapping) : Prop :=
  seg_ok s /\ untagged s /\ kDataStartSector <= s_moffset s <= sector /\
  (s_zeroed s = false -> s_moffset s + s_length s <= sector).

Lemma packed_join sector a b :
  can_join a b = true -> packed_seg sector a -> packed_seg sector b -> packed_seg sector (join a b).
Proof.
  intros Hj (A1 & A2 & A3 & A4) (B1 & B2 & B3 & B4).
  destruct (can_join_ok a b A1 B1 A2 B2 Hj) as (J1 & J2 & J3 & J4 & J5 & J6 & _).
  split; [done|]. split; [done|]. split; [done|]. intros _.
  unfold can_join in Hj. bool_hyps. pose proof A1 as (_ & Hla & _). pose proof B1 as (_ & Hlb & _).
  rewrite seg_ok_mend in * by done. unfold fin in *. simpl in *. specialize (B4 ltac:(done)). lia.
Qed.

Lemma packed_mono a b s : a <= b -> packed_seg a s -> packed_seg b s.
Proof. intros Hab (H1 & H2 & H3 & H4). split_and!; try done; try lia. intros Hz. specialize (H4 Hz). lia. Qed.

Lemma zlen_insert_sorted v m : zlen (insert_sorted v m) <= zlen v + 1.
Proof.
  unfold insert_sorted. set (b := take_below (s_offset m) v).
  assert (zlen b + zlen (drop (length b) v) <= zlen v) as Hl.
  { pose proof (take_below_prefix (s_offset m) v) as Hp. fold b in Hp.
    apply (f_equal length) in Hp. rewrite length_take in Hp. unfold zlen. rewrite length_drop. lia. }
  set (a := drop _ v) in *. clearbody a.
  assert (forall pre it, zlen pre <= zlen b -> zlen match a with
    | [] => pre ++ [it]
    | next :: rest => if can_join it next then pre ++ join it next :: rest else pre ++ it :: a
    end <= zlen v + 1) as Hn.
  { intros pre it Hp. destruct a as [|next rest]; [|case_if]; rewrite ?zlen_app, ?zlen_cons, ?zlen_nil in *; lia. }
  destruct (last b) as [prev|] eqn:Hb; [|by apply Hn]. case_if; apply Hn; [|done].
  apply last_Some in Hb as [b' ->]. rewrite removelast_last, zlen_app, zlen_cons, zlen_nil. lia.
Qed.

(** What the loop knows after the extents [done]. *)
Record seal_inv (data : file) (done : list segment_mapping) (st : sealing) : Prop := {
  si_index : index_ok 0 (sl_packed st);
  si_packed : Forall (packed_seg (sl_sector st)) (sl_packed st);
  si_count : zlen (sl_packed st) <= zlen done;
  si_sector : kHeaderSectors <= sl_sector st <= kHeaderSectors + end_from 0 done;
  si_cells : forall x, same_cell data (sl_out st) (sl_sector st) (resolve done x) (resolve (sl_packed st) x);
  si_size : f_size (sl_out st) <= sl_sector st * kSector;
  si_bytes : file_bytes (sl_out st);
}.

Lemma same_cell_mono data out out' sector sector' c d :
  sector <= sector' -> keeps_below (sector * kSector) out out' ->
  same_cell data out sector c d -> same_cell data out' sector' c d.
Proof.
  intros Hs Hk. destruct c as [| |t p], d as [| |u q]; simpl; try done. intros (H1 & H2 & H3).
  split; [done|]. split; [lia|]. apply Hk; [rewrite zlen_slice; unfold kSector in *; lia|done].
Qed.

(** Adding one extent to the packed index. *)
Lemma pack_one data done s st out' sector' :
  seal_inv data done st -> index_ok 0 (done ++ [s]) -> untagged s -> end_from 0 (done ++ [s]) <= kMaxOffset ->
  let m := Seg (s_offset s) (s_length s) (sl_sector st) (s_zeroed s) (s_tag s) in
  sector' = (if s_zeroed s then sl_sector st else sl_sector st + s_length s) ->
  keeps_below (sl_sector st * kSector) (sl_out st) out' ->
  f_size out' <= sector' * kSector -> file_bytes out' ->
  (s_zeroed s = false -> holds out' (sl_sector st * kSector)
    (slice (f_byte data) (s_moffset s * kSector) (s_length s * kSector))) ->
  forall h, seal_inv data (done ++ [s]) (Sealing (insert_sorted (sl_packed st) m) sector' out' h).
Proof.
  intros [I1 I2 I3 I4 I5 I6 I7] Hok Ht Hend m Hsec Hk Hsz Hb Hdata h.
  pose proof Hok as Hok'. apply index_ok_app in Hok' as [Hd Hs]. apply index_ok_cons in Hs as (Hs & Hoff & _).
  pose proof (index_ok_end_ge _ _ Hd) as Hge. rewrite end_from_app in *. simpl in Hend.
  pose proof Hs as (So & Sl & Sm & _ & _).
  assert (sl_sector st <= sector' <= kHeaderSectors + fin s) as Hss.
  { unfold fin in *. subst sector'. destruct (s_zeroed s); lia. }
  assert (seg_ok m) as Hm.
  { unfold seg_ok, m, kHeaderSectors, kMaxOffset, kMaxLength, fin in *. simpl. unfold untagged in Ht. rewrite Ht.
    split_and!; try lia. }
  assert (Forall untagged (sl_packed st)) as Hut.
  { eapply Forall_impl; [exact I2|]. by intros a (_ & ? & _). }
  destruct (insert_free 0 (sl_packed st) m I1 Hut Hm Ht ltac:(simpl; lia)) as (F1 & _ & F3).
  { intros x Hx. specialize (I5 x). rewrite (resolve_above 0) in I5; [|done|simpl in Hx; lia].
    simpl in I5. by destruct (resolve (sl_packed st) x). }
  split; cbn [sl_packed sl_sector sl_out]; try done.
  - apply insert_sorted_Forall; [apply packed_join| |].
    + eapply Forall_impl; [exact I2|]. intros a. apply packed_mono. lia.
    + split; [done|]. split; [done|]. unfold m; simpl. split; [change kDataStartSector with 8; unfold kHeaderSectors in *; lia|].
      intros Hz. rewrite Hz in Hsec. lia.
  - pose proof (zlen_insert_sorted (sl_packed st) m). rewrite zlen_app, zlen_cons, zlen_nil. lia.
  - rewrite end_from_app. simpl. lia.
  - intros x. rewrite F3, resolve_app. simpl. change (covers m x) with (covers s x).
    destruct (covers s x) eqn:Hc.
    + apply covers_true in Hc. rewrite (resolve_above 0) by (done || lia). simpl.
      unfold seg_cell, m. simpl. destruct (s_zeroed s) eqn:Hz; simpl; [done|].
      split; [done|]. unfold fin in *. split; [lia|]. specialize (Hdata eq_refl).
      replace (s_length s * kSector) with ((x - s_offset s) * kSector + (kSector + (fin s - x - 1) * kSector)) in Hdata
        by (unfold fin, kSector; lia).
      rewrite !slice_app in Hdata by (unfold kSector, fin; lia).
      apply holds_app_inv in Hdata as [_ Hdata]. apply holds_app_inv in Hdata as [Hdata _].
      rewrite zlen_slice, Z.max_r in Hdata by (unfold kSector; lia).
      by rewrite <- !Z.mul_add_distr_r in Hdata.
    + replace (over (resolve done x) Hole) with (resolve done x) by by destruct (resolve done x).
      eapply same_cell_mono; [|exact Hk|apply I5]. lia.
Qed.

Lemma seal_segment_ok data done s st p :
  seal_inv data done st -> index_ok 0 (done ++ [s]) -> untagged s -> end_from 0 (done ++ [s]) <= kMaxOffset ->
  p_data p = data -> file_bytes data ->
  (s_zeroed s = false -> (s_moffset s + s_length s) * kSector <= f_size data) ->
  touches_none (seal_segment s st) p (seal_inv data (done ++ [s])).
Proof.
  intros Hi Hok Ht Hend Hp Hb Hd. pose proof Hi as [I1 I2 I3 I4 I5 I6 I7].
  unfold seal_segment. destruct (s_zeroed s) eqn:Hz.
  - apply touches_ret. pose proof (pack_one data done s st (sl_out st) (sl_sector st) Hi Hok Ht Hend) as H.
    cbv zeta in H. rewrite Hz in H. apply H; try done. apply keeps_below_refl.
  - pose proof Hok as Hok'. apply index_ok_app in Hok' as [_ Hs]. apply index_ok_cons in Hs as ((_ & Sl & Sm & _) & _).
    specialize (Hd eq_refl). eapply touches_bind.
    { apply seal_copy_ok; rewrite ?Hp; try done; unfold kSector, kHeaderSectors in *; lia. }
    intros [out hash] p' (E1 & E2 & E3 & E4) _. simpl in *. rewrite Hp in *. apply touches_ret.
    pose proof (pack_one data done s st out (sl_sector st + s_length s) Hi Hok Ht Hend) as H.
    cbv zeta in H. rewrite Hz in H. rewrite zlen_slice, Z.max_r in E2 by (unfold kSector; lia).
    apply H; try done; unfold kSector in *; lia.
Qed.

Lemma seal_segments_ok data segs : forall done st p,
  seal_inv data done st -> index_ok 0 (done ++ segs) -> Forall untagged segs ->
  end_from 0 (done ++ segs) <= kMaxOffset -> p_data p = data -> file_bytes data ->
  Forall (fun s => s_zeroed s = false -> (s_moffset s + s_length s) * kSector <= f_size data) segs ->
  touches_none (seal_segments segs st) p (seal_inv data (done ++ segs)).
Proof.
  induction segs as [|s segs IH]; intros done st p Hi Hok Ht Hend Hp Hb Hd.
  { rewrite app_nil_r in *. by apply touches_ret. }
  apply Forall_cons in Ht as [Hts Ht]. apply Forall_cons in Hd as [Hds Hd].
  replace (done ++ s :: segs) with ((done ++ [s]) ++ segs) in * by by rewrite <- app_assoc.
  pose proof Hok as Hok'. apply index_ok_app in Hok' as [Hok1 Hok2].
  pose proof (index_ok_end_ge _ _ Hok2). rewrite end_from_app in Hend.
  eapply touches_bind; [eapply seal_segment_ok; try done; lia|]. intros st1 p1 Hi1 Hp1.
  apply IH; try done; [by rewrite end_from_app|]. by rewrite (same_files_data _ _ Hp1).
Qed.

(** ** Closing the file *)

Lemma index_ordered lo l : 0 <= lo -> index_ok lo l -> ordered l = true.
Proof.
  revert lo. induction l as [|s l IH]; intros lo Hlo Hok; [done|].
  apply index_ok_cons in Hok as (Hs & Ho & Hl). pose proof Hs as (_ & Hlen & _).
  assert (ordered l = true) as IHl by (apply (IH (fin s)); [unfold fin; lia|done]).
  destruct l as [|s' l]; [done|].
  change (ordered (s :: s' :: l)) with ((seg_end s <=? s_offset s') && ordered (s' :: l)).
  rewrite IHl, andb_true_r. apply Z.leb_le. rewrite seg_ok_end by done.
  by apply index_ok_cons in Hl as (_ & ? & _).
Qed.

Lemma packed_plain sector e s :
  kDataStartSector <= sector <= e -> sector <= 2 ^ 51 -> packed_seg sector s -> s_offset s < kMaxOffset ->
  plain_seg e s.
Proof.
  intros He Hs ((P1 & P2 & P3 & P4 & P5) & Hu & Hm & Hd) Ho. change kDataStartSector with 8 in *.
  unfold plain_seg, seg_encodable, kInvalidOffset, untagged, kMaxOffset, kMaxMoffset, kMaxLength in *.
  split_and!; try lia. unfold mapping_in_range. change kDataStartSector with 8.
  destruct (s_zeroed s) eqn:Hz; [simpl; rewrite andb_true_iff, !Z.leb_le; lia|]. specialize (Hd eq_refl).
  unfold seg_mend. rewrite Hz, u64_small by lia.
  rewrite !andb_true_iff, !Z.leb_le, !Z.ltb_lt. lia.
Qed.

(** A packed extent lies where the live index maps something. *)
Lemma packed_below data done st s :
  seal_inv data done st -> index_ok 0 done -> s ∈ sl_packed st -> s_offset s < end_from 0 done.
Proof.
  intros [I1 I2 _ _ I5 _ _] Hd Hin. destruct (Z.lt_ge_cases (s_offset s) (end_from 0 done)) as [|Hge]; [done|].
  rewrite Forall_forall in I2. destruct (I2 s Hin) as ((_ & Hl & _) & _).
  specialize (I5 (s_offset s)). rewrite (resolve_above 0) in I5 by done.
  rewrite (resolve_elem 0 s) in I5 by (try done; unfold fin; lia).
  unfold seg_cell in I5. by destruct (s_zeroed s).
Qed.

Section close.
Context (Hsha : forall b, cstr_ok 65 (sha256_hex b) /\ zlen (sha256_hex b) = 64).

Lemma insert_dash_ok n u pos :
  0 <= pos -> cstr_ok n u -> cstr_ok (n + 1) (insert_dash u pos).
Proof.
  intros Hp [Hc Hl]. unfold insert_dash. split; [|len].
  apply Forall_app. split; [by apply Forall_take|]. constructor; [lia|by apply Forall_drop].
Qed.

Lemma content_uuid_ok b : cstr_ok 37 (uuid_from_content_digest (sha256_hex b)).
Proof.
  destruct (Hsha b) as [[Hc _] Hl]. unfold uuid_from_content_digest.
  apply (insert_dash_ok 36); [lia|]. apply (insert_dash_ok 35); [lia|].
  apply (insert_dash_ok 34); [lia|]. apply (insert_dash_ok 33); [lia|].
  split; [by apply Forall_take|len].
Qed.

Lemma make_ht_ok header ioff n vsize uuid tag :
  0 <= ioff < 2 ^ 64 -> 0 <= n < 2 ^ 64 -> 0 <= vsize < 2 ^ 64 -> cstr_ok 37 uuid -> cstr_ok 256 tag ->
  ht_ok (make_ht header true ioff n vsize uuid tag).
Proof.
  intros Hi Hn Hv Hu Ht. assert (cstr_ok 37 []) by (split; [constructor|done]).
  unfold ht_ok, make_ht. destruct header; simpl; unfold is_byte; split_and!; done || lia.
Qed.

(** The finished file: a sealed layer whose cells are those of the live index. *)
Definition sealed_as (data : file) (segs : list segment_mapping) (vsize : Z) (tag : bytes)
    (packed : list segment_mapping) (sector : Z) (out : file) (n : Z) (uuid : bytes) : Prop :=
  f_size out = n /\ file_bytes out /\
  (exists ioff, sealed_file out (make_ht true true ioff (zlen packed) vsize uuid tag)
     (make_ht false true ioff (zlen packed) vsize uuid tag) packed) /\
  forall x, same_cell data out sector (resolve segs x) (resolve packed x).

(** The three last writes, for an index region of any padding. *)
Lemma close_file out isec region header trailer (packed : list segment_mapping) pad :
  f_size out <= isec * 512 -> kHeaderSectors <= isec -> file_bytes out ->
  Forall seg_encodable packed -> zlen packed * 16 + pad = region -> 0 <= pad ->
  zlen header = kSpace -> Forall is_byte header -> zlen trailer = kSpace -> Forall is_byte trailer ->
  let ioff := isec * 512 in
  let out' := file_write (file_write (file_write out 0 header) ioff (encode_log packed ++ zeros pad))
                (ioff + region) trailer in
  f_size out' = ioff + region + kSpace /\ file_bytes out' /\ holds out' 0 header /\
  holds out' ioff (encode_log packed) /\ holds out' (ioff + region) trailer /\
  forall q x, kSpace <= q -> q + zlen x <= ioff -> holds out q x -> holds out' q x.
Proof.
  intros Hs Hi Hb He Hr Hpad Hzh Hbh Hzt Hbt ioff out'. unfold kHeaderSectors, kSpace in *.
  pose proof (zlen_encode_log packed He) as Hze. pose proof (zlen_nonneg packed).
  set (idx := encode_log packed ++ zeros pad) in *.
  assert (zlen idx = region) as Hzi by (unfold idx; rewrite zlen_app, Hze, zlen_zeros; lia).
  assert (f_size (file_write (file_write out 0 header) ioff idx) <= ioff + region) as Hs2.
  { simpl. rewrite Hzi. repeat case_if; lia. }
  assert (f_size out' = ioff + region + 4096) as Hs3 by (unfold out'; rewrite f_size_write_end; lia).
  split_and!; [done| | | | |].
  - unfold out'. repeat apply file_bytes_write; try done. apply Forall_app.
    split; [by apply encode_log_byte|apply zeros_byte].
  - do 2 (apply holds_write_other; [|lia]).
    destruct (holds_write out 0 header ltac:(lia)) as [?|?]; [done|lia].
  - destruct (holds_write (file_write out 0 header) ioff idx ltac:(lia)) as [Hidx|Hz].
    + apply holds_app_inv in Hidx as [Hidx _]. apply holds_write_other; [done|left; lia].
    + assert (encode_log packed = []) as -> by (apply length_zero_iff_nil; unfold zlen in *; lia).
      apply holds_nil. lia.
  - destruct (holds_write (file_write (file_write out 0 header) ioff idx) (ioff + region) trailer ltac:(lia))
      as [?|?]; [done|lia].
  - intros q x Hq Hx Hh. do 2 (apply holds_write_other; [|left; lia]). apply holds_write_other; [done|lia].
Qed.

Lemma seal_close_ok data segs st vsize tag p :
  seal_inv data segs st -> index_ok 0 segs -> end_from 0 segs <= kMaxOffset -> zlen segs <= kMaxRoIndexSize ->
  0 <= vsize < 2 ^ 64 -> cstr_ok 256 tag ->
  touches_none (seal_close st vsize tag) p (fun r =>
    sealed_as data segs vsize tag (sl_packed st) (sl_sector st) r.1.1 r.1.2 r.2).
Proof.
  intros Hi Hok Hend Hcnt Hv Htag. pose proof Hi as [I1 I2 I3 I4 I5 I6 I7]. unfold seal_close.
  pose proof (packed_below data segs st) as Hbelow.
  set (isec := (sl_sector st + kHeaderSectors - 1) / kHeaderSectors * kHeaderSectors).
  assert (sl_sector st <= isec < sl_sector st + 8) as Hisec.
  { unfold isec, kHeaderSectors in *. pose proof (Z.div_mod (sl_sector st + 8 - 1) 8 ltac:(lia)).
    pose proof (Z.mod_pos_bound (sl_sector st + 8 - 1) 8 ltac:(lia)). lia. }
  clearbody isec. set (packed := sl_packed st) in *. set (sector := sl_sector st) in *.
  pose proof (zlen_nonneg packed) as Hnn.
  set (region := (zlen packed * 16 + 4095) / 4096 * 4096).
  assert (zlen packed * 16 <= region <= zlen packed * 16 + 4095) as Hreg.
  { unfold region. pose proof (Z.div_mod (zlen packed * 16 + 4095) 4096 ltac:(lia)).
    pose proof (Z.mod_pos_bound (zlen packed * 16 + 4095) 4096 ltac:(lia)). lia. }
  clearbody region.
  assert (Forall (plain_seg isec) packed) as Hplain.
  { apply Forall_forall. intros s Hin. specialize (Hbelow s Hi Hok Hin). rewrite Forall_forall in I2.
    apply (packed_plain sector); [|unfold kHeaderSectors, kMaxOffset in *; lia|by apply I2|lia].
    change kDataStartSector with 8. unfold kHeaderSectors in *. lia. }
  assert (Forall seg_encodable packed) as He by (eapply Forall_impl; [exact Hplain|]; by intros ? []).
  cbv zeta. rewrite store_segments_padded by (unfold kEncodedSize; (done || lia)).
  set (uuid := uuid_from_content_digest _). assert (cstr_ok 37 uuid) as Hu by apply content_uuid_ok. clearbody uuid.
  set (ht b := make_ht b true (isec * kSector) (zlen packed) vsize uuid tag).
  assert (forall b, ht_ok (ht b)) as Hht.
  { intros b. apply make_ht_ok; try done; unfold kSector, kHeaderSectors, kMaxOffset, kMaxRoIndexSize in *; lia. }
  destruct (parse_serialize (ht true) (Hht true)) as (rh & Hrh & Hzh & Hbh & _).
  destruct (parse_serialize (ht false) (Hht false)) as (rt & Hrt & Hzt & Hbt & _).
  eapply touches_bind; [by apply (touches_lift _ rh _ (fun r => r = rh) Hrh)|]. intros r p1 -> _.
  eapply touches_bind; [apply touches_write|]. intros o1 p2 -> _.
  eapply touches_bind; [apply touches_write|]. intros o2 p3 -> _.
  eapply touches_bind; [by apply (touches_lift _ rt _ (fun r => r = rt) Hrt)|]. intros r p4 -> _.
  eapply touches_bind; [apply touches_write|]. intros o3 p5 -> _. apply touches_ret. cbn [fst snd].
  destruct (close_file (sl_out st) isec region rh rt packed (region - zlen packed * kEncodedSize))
    as (C1 & C2 & C3 & C4 & C5 & C6); try done; unfold kSector, kEncodedSize, kHeaderSectors in *; try lia.
  split; [done|]. split; [done|]. split.
  - exists (isec * 512). split; try done; try apply (Hht _).
    + by exists rh.
    + exists rt. split; [done|]. rewrite C1. by replace (isec * 512 + region + kSpace - kSpace)
        with (isec * 512 + region) by lia.
    + split; [done|lia].
    + rewrite C1. simpl. unfold kSpace, kMaxRoIndexSize, kEncodedSize, kMaxOffset in *. lia.
    + simpl. unfold kSpace. lia.
    + simpl. unfold kAlignment. by rewrite Z.div_mul.
    + by apply (index_ordered 0).
  - intros x. specialize (I5 x). revert I5. unfold same_cell.
    destruct (resolve segs x) as [| |t q], (resolve packed x) as [| |u q'] eqn:Hq; try done.
    intros (H1 & H2 & H3). split; [done|]. split; [done|].
    destruct (resolve_data _ _ _ _ Hq) as (s & Hin & Hz & _ & Hx & ->). rewrite Forall_forall in I2.
    destruct (I2 s Hin) as (_ & _ & Hm & _). change kDataStartSector with 8 in Hm.
    apply C6; [unfold kSpace, kSector; lia|rewrite zlen_slice; unfold kSector; lia|exact H3].
Qed.
(** ** The layer *)

Lemma only_io_refl w : only_io w w.
Proof. exists (p_script (rw_pair w)). by destruct w as [[] ? ? ? ? ? ? ? ? ? ? ?]. Qed.

Lemma on_pair_touches {A} (m : io FilePair A) w P :
  touches_none m (rw_pair w) P ->
  attempt rw_script (on_pair m) w (fun a w' => P a /\ only_io w w') (only_io w).
Proof.
  unfold touches_none, attempt, on_pair, rw_script. destruct (m (rw_pair w)) as [[a|[e| |]] p']; try done.
  - intros (Hs & HP & [s ->]). split; [done|]. split; [done|]. by exists s.
  - intros (Hf & [s ->]). split; [done|]. by exists s.
Qed.

(** What the layer is once its seal has been published. *)
Definition seal_done (w0 : LsmtRwLayer) (tag : bytes) (w : LsmtRwLayer) : Prop :=
  rw_sealed w = true /\ rw_vsize w = rw_vsize w0 /\
  rw_checkpointed w = rw_checkpointed w0 /\ rw_grow_op w = rw_grow_op w0 /\
  rw_journal_failed w = rw_journal_failed w0 /\ Forall non_empty (rw_segments w) /\
  exists sector, sealed_as (rw_data w0) (rw_segments w0) (rw_vsize w0) tag (rw_segments w) sector
    (rw_data w) (rw_data_bytes w) (rw_uuid w).

Lemma seal_done_io w0 tag w w' : only_io w w' -> seal_done w0 tag w -> seal_done w0 tag w'.
Proof. by intros [s ->]. Qed.

Lemma rw_ok_end_sectors w log : rw_ok w log -> end_from 0 (rw_segments w) <= rw_vsize w / 512.
Proof.
  intros H. pose proof (pair_ok_sectors _ _ (ro_pair _ _ H)) as Hs. rewrite (ro_vsize _ _ H).
  destruct (ro_wf _ _ H) as [[L1 _ L3 _] _ _ _]. unfold rw_sectors, pair_sectors, kAlignment in *.
  destruct (rw_segments w) as [|s l] using rev_ind; [simpl; lia|].
  rewrite end_from_app in *. apply index_ok_app in L1 as [_ Hk]. apply index_ok_cons in Hk as (Hso & Hlo & _).
  simpl. pose proof Hso as (_ & Hl & _).
  assert (resolve (l ++ [s]) (fin s - 1) <> Hole) as Hr.
  { rewrite resolve_app. simpl. rewrite (proj2 (covers_true s (fin s - 1))) by (unfold fin; lia).
    unfold seg_cell. destruct (resolve l (fin s - 1)), (s_zeroed s); done. }
  specialize (L3 _ Hr). lia.
Qed.

Lemma rw_ok_end_from w log : rw_ok w log -> end_from 0 (rw_segments w) <= kMaxOffset.
Proof.
  intros H. pose proof (rw_ok_end_sectors _ _ H). pose proof (pair_ok_sectors _ _ (ro_pair _ _ H)) as [_ Hs].
  rewrite (ro_vsize _ _ H) in *. unfold pair_sectors, kAlignment in *. lia.
Qed.

Lemma rw_ok_extents w log :
  rw_ok w log ->
  Forall (fun s => s_zeroed s = false -> (s_moffset s + s_length s) * kSector <= f_size (rw_data w)) (rw_segments w).
Proof.
  intros H. destruct (ro_wf _ _ H) as [[L1 _ _ L4] _ _ _]. apply Forall_forall. intros s Hin Hz.
  destruct L1 as [L1 Hso]. pose proof L1 as L1'. rewrite Forall_forall in L1'. destruct (L1' s Hin) as (_ & Hl & Hm & _).
  assert (resolve (rw_segments w) (fin s - 1) = seg_cell s (fin s - 1)) as Hr.
  { apply (resolve_elem 0); [by split|done|unfold fin; lia]. }
  unfold seg_cell in Hr. rewrite Hz in Hr. apply L4 in Hr as [_ Hr].
  pose proof (data_sectors_bytes (rw_data w) (s_moffset s + (fin s - 1 - s_offset s))) as Hb.
  change kDataStartSector with 8 in Hr. unfold fin in *. specialize (Hb ltac:(lia)).
  unfold kSector in *. lia.
Qed.

(** What a seal needs of the index and the payload. *)
Record seal_ready (w : LsmtRwLayer) : Prop := {
  sr_index : index_ok 0 (rw_segments w);
  sr_untagged : Forall untagged (rw_segments w);
  sr_end : end_from 0 (rw_segments w) <= kMaxOffset;
  sr_extents : Forall (fun s => s_zeroed s = false -> (s_moffset s + s_length s) * kSector <= f_size (rw_data w))
                 (rw_segments w);
  sr_bytes : file_bytes (rw_data w);
  sr_count : zlen (rw_segments w) <= kMaxRoIndexSize;
  sr_vsize : 0 <= rw_vsize w < 2 ^ 64;
}.

Lemma rw_ok_vsize w log :
  rw_ok w log -> 0 <= rw_vsize w < 2 ^ 64 /\ rw_vsize w mod 512 = 0 /\ rw_vsize w / 512 <= kMaxOffset.
Proof.
  intros Hok. rewrite (ro_vsize _ _ Hok).
  destruct (po_header _ _ (ro_pair _ _ Hok)) as (_ & _ & _ & ? & ? & ? & (_ & _ & _ & _ & ? & _)). done.
Qed.

Lemma rw_ok_ready w log :
  rw_ok w log -> file_bytes (rw_data w) -> zlen (rw_segments w) <= kMaxRoIndexSize -> seal_ready w.
Proof.
  intros Hok Hb Hn. pose proof (ro_wf _ _ Hok) as [[L1 L2 _ _] _ _ _].
  split; try done; [by eapply rw_ok_end_from|by eapply rw_ok_extents|]. by apply (rw_ok_vsize w log).
Qed.

Lemma seal_body_ok w tag :
  seal_ready w -> cstr_ok 256 tag ->
  attempt rw_script (seal_body (rw_segments w) (rw_vsize w) tag) w (fun _ w' => seal_done w tag w')
    (fun w' => only_io w w' \/ seal_done w tag w').
Proof.
  intros [L1 L2 Hend Hext Hb Hn Hv] Ht. unfold seal_body.
  assert (forall A (m : io FilePair A) w1 P (B : Type) (k : A -> io LsmtRwLayer B) Q,
    only_io w w1 -> touches_none m (rw_pair w1) P ->
    (forall a w2, P a -> only_io w w2 ->
       attempt rw_script (k a) w2 Q (fun w' => only_io w w' \/ seal_done w tag w')) ->
    attempt rw_script (on_pair m ≫= k) w1 Q (fun w' => only_io w w' \/ seal_done w tag w')) as Hstep.
  { intros A m w1 P B k Q Hw1 Hm Hk. eapply attempt_bind.
    - eapply attempt_mono; [by apply on_pair_touches| |].
      + intros a w2 H. exact H.
      + intros w2 H. left. by eapply only_io_trans.
    - cbv beta. intros a w2 [HP Hw2]. apply Hk; [done|]. by eapply only_io_trans. }
  eapply Hstep; [apply only_io_refl|apply touches_sync|]. intros _ w1 _ Hw1.
  eapply Hstep; [done|apply (seal_segments_ok (rw_data w) (rw_segments w) [])|].
  { split; cbn [sl_packed sl_sector sl_out]; try done; try apply index_ok_nil; try apply file_bytes_empty. }
  1-3: done. { by destruct Hw1 as [s ->]. } { done. } { done. }
  intros st w2 Hinv Hw2.
  eapply Hstep; [done|by apply (seal_close_ok (rw_data w) (rw_segments w))|].
  intros [[out n] uuid] w3 Has Hw3. cbn [fst snd] in Has.
  eapply Hstep; [done|apply touches_sync|]. intros _ w4 _ Hw4.
  eapply Hstep; [done|apply touches_sync|]. intros _ w5 _ Hw5.
  eapply Hstep; [done|apply touches_sync|]. intros _ w6 _ Hw6.
  set (w7 := (seal_publish (sl_packed st) out n uuid w6).2).
  assert (seal_done w tag w7) as Hd.
  { destruct Hw6 as [s ->]. split_and!; try done; [|by exists (sl_sector st)].
    eapply Forall_impl; [exact (si_packed _ _ _ Hinv)|]. intros a ((_ & Ha & _) & _). unfold non_empty. lia. }
  eapply attempt_bind with (P := fun _ w' => w' = w7); [by split|]. intros [] w8 ->.
  eapply attempt_mono; [apply on_pair_touches, touches_sync| |]; cbv beta.
  - intros _ w9 [_ H9]. by eapply seal_done_io.
  - intros w9 H9. right. by eapply seal_done_io.
Qed.

Lemma sealed_view w0 tag w : seal_done w0 tag w -> forall i, rw_view w i = rw_view w0 i.
Proof.
  intros (_ & _ & _ & _ & _ & _ & sector & _ & _ & _ & Hc) i. unfold rw_view, index_view.
  pose proof (Z.mod_pos_bound i kSector ltac:(done)) as Hm.
  specialize (Hc (i / kSector)). revert Hc. unfold same_cell, cell_byte.
  destruct (resolve (rw_segments w0) _) as [| |t p], (resolve (rw_segments w) _) as [| |u q]; try done.
  intros (_ & _ & [Hs _]). apply (f_equal (fun l => bget l (i mod kSector))) in Hs.
  by rewrite zlen_slice, !bget_slice in Hs by (unfold kSector in *; lia).
Qed.

(** Opened again, the sealed file reads as the layer did. *)
Lemma sealed_reopens {W} w0 tag w (v : W) :
  seal_done w0 tag w -> rw_vsize w0 mod 512 = 0 -> rw_vsize w0 / 512 <= kMaxOffset ->
  exists layer,
    open (Some (file_source (rw_data w))) v = (Ok layer, v) /\
    l_segments layer = rw_segments w /\ virtual_size layer = rw_vsize w0 /\
    forall m, merged_open [layer] = Ok m ->
    forall count off, 0 <= count -> 0 <= off -> count mod 512 = 0 -> off mod 512 = 0 ->
      io_spec (fun _ => False) (merged_pread m count off)
        (fun out => out = slice (rw_view w0) off (avail (rw_vsize w0) count off)).
Proof.
  intros Hd Hal Hvs. pose proof (sealed_view _ _ _ Hd) as Hview.
  destruct Hd as (_ & _ & _ & _ & _ & Hne & sector & _ & Hb & [ioff Hf] & _).
  set (tht := make_ht false true ioff (zlen (rw_segments w)) (rw_vsize w0) (rw_uuid w) tag) in *.
  exists (sealed_layer (rw_data w) tht (rw_segments w)).
  split; [by eapply sealed_opens|]. split; [done|]. split; [done|].
  intros m Hm count off Hc Ho Hcm Hom.
  eapply io_spec_mono; [by apply (sealed_reads _ _ _ _ Hf Hb Hne m Hal Hvs Hm)|].
  cbv beta. intros out ->. apply slice_ext. intros i _. apply Hview.
Qed.

Lemma rw_ok_gates w log c g t : rw_ok w log -> rw_ok (set_gates w c g t) log.
Proof. intros [H1 H2 [H3 H4 H5 H6] H7 H8 H9 H10]. by split. Qed.
Lemma rw_ok_io w w' log : only_io w w' -> rw_ok w log -> rw_ok w' log.
Proof.
  intros [s ->] [H1 H2 [H3 H4 H5 H6] H7 H8 H9 H10]. split; try done. by apply pair_ok_script.
Qed.
(** The layer after its seal: unchanged content, every mutation refused. *)
Definition sealed_for (w : LsmtRwLayer) (tag : bytes) (w' : LsmtRwLayer) : Prop :=
  (forall i, rw_view w' i = rw_view w i) /\ rw_terminal_op w' = false /\ rw_sealed w' = true /\
  (forall buf off, pwrite buf off w' = (Err (Errno EROFS), w')) /\
  (forall off len, discard off len w' = (Err (Errno EROFS), w')) /\
  checkpoint w' = (Err (Errno EROFS), w') /\ seal tag w' = (Err (Errno EROFS), w').

Lemma seal_done_final w w1 tag w2 :
  seal_done w1 tag w2 -> rw_view w1 = rw_view w -> rw_grow_op w1 = false -> rw_journal_failed w1 = false ->
  sealed_for w tag (end_terminal_op w2).2.
Proof.
  intros Hd Hvw Hg Hj. pose proof (sealed_view _ _ _ Hd) as Hv. destruct Hd as (D1 & D2 & D3 & D4 & D5 & _).
  rewrite Hg in D4. rewrite Hj in D5. rewrite Hvw in Hv. split; [exact Hv|]. split; [done|]. split; [done|].
  unfold pwrite, discard, checkpoint, seal, begin_terminal_op, end_terminal_op. cbn.
  by rewrite D1, D4, D5.
Qed.

Lemma seal_attempt w tag :
  seal_ready w -> cstr_ok 256 tag -> rw_journal_failed w = false -> rw_sealed w = false ->
  rw_terminal_op w = false -> rw_grow_op w = false ->
  attempt rw_script (seal tag) w (fun _ w' => seal_done w tag w' /\ sealed_for w tag w')
    (fun w' => only_io w w' \/ (seal_done w tag w' /\ sealed_for w tag w')).
Proof.
  intros Hr Ht Hj Hse Hg1 Hg2. set (w1 := set_gates w (rw_checkpointed w) (rw_grow_op w) true).
  assert (seal_ready w1) as Hr1 by by destruct Hr. pose proof (seal_body_ok w1 tag Hr1 Ht) as Hbody.
  assert (forall w2, seal_done w1 tag w2 ->
    seal_done w tag (end_terminal_op w2).2 /\ sealed_for w tag (end_terminal_op w2).2) as Hdone.
  { intros w2 Hd. split; [exact Hd|]. by apply (seal_done_final w w1). }
  unfold attempt in *. unfold seal, begin_terminal_op.
  replace (rw_terminal_op w || rw_grow_op w) with false by by rewrite Hg1, Hg2.
  rewrite Hj, Hse. cbn [negb andb]. fold w1. destruct (seal_body _ _ tag w1) as [[[]|[e| |]] w2]; try done.
  - destruct Hbody as [Hs Hd]. split; [exact Hs|auto].
  - destruct Hbody as [Hf [[s ->]|Hd]]; (split; [exact Hf|]); [left|right; auto]. exists s.
    destruct w; simpl in *. by subst.
Qed.
End close.

(** C9. Sealing a layer in service either publishes a file that opens as a
    read-only layer of the same size whose merged view returns, byte for byte,
    what the device held, and leaves the layer read-only with the same content;
    or it reports an errno and leaves device, files and journal as they were.
    Without I/O faults and with no other operation in flight it succeeds. *)
Theorem seal_correct {W} w log tag (v : W) :
  (forall b, cstr_ok 65 (sha256_hex b) /\ zlen (sha256_hex b) = 64) ->
  rw_ok w log -> rw_sealed w = false -> file_bytes (rw_data w) ->
  zlen (rw_segments w) <= kMaxRoIndexSize -> cstr_ok 256 tag ->
  let '(r, w') := seal tag w in
  (rw_sealed w' = false ->
     is_ok r = false /\ rw_ok w' log /\ rw_view w' = rw_view w /\ rw_terminal_op w' = rw_terminal_op w) /\
  (rw_sealed w' = true ->
     (forall i, rw_view w' i = rw_view w i) /\ rw_terminal_op w' = false /\
     (forall buf off, pwrite buf off w' = (Err (Errno EROFS), w')) /\
     (forall off len, discard off len w' = (Err (Errno EROFS), w')) /\
     checkpoint w' = (Err (Errno EROFS), w') /\ seal tag w' = (Err (Errno EROFS), w') /\
     exists layer,
       open (Some (file_source (rw_data w'))) v = (Ok layer, v) /\
       l_segments layer = rw_segments w' /\ virtual_size layer = rw_vsize w /\
       forall m, merged_open [layer] = Ok m ->
       forall count off, 0 <= count -> 0 <= off -> count mod 512 = 0 -> off mod 512 = 0 ->
         io_spec (fun _ => False) (merged_pread m count off)
           (fun out => out = slice (rw_view w) off (avail (rw_vsize w) count off))) /\
  (rw_script w = [] -> rw_terminal_op w = false -> rw_grow_op w = false -> r = Ok tt /\ rw_sealed w' = true).
Proof.
  intros Hsha Hok Hse Hb Hn Ht. destruct (rw_ok_vsize w log Hok) as (V1 & V2 & V3).
  destruct (rw_terminal_op w || rw_grow_op w) eqn:Hg.
  { unfold seal, begin_terminal_op. rewrite (ro_journal _ _ Hok), Hg. cbn [fst snd].
    split; [done|]. split; [congruence|]. intros _ H1 H2. by rewrite H1, H2 in Hg. }
  apply orb_false_iff in Hg as [Hg1 Hg2].
  pose proof (seal_attempt Hsha w tag (rw_ok_ready w log Hok Hb Hn) Ht (ro_journal _ _ Hok) Hse Hg1 Hg2) as Ha.
  pose proof (attempt_succeeds _ _ _ _ _ Ha) as Hsucc. apply attempt_result in Ha.
  destruct (seal tag w) as [r w'].
  assert ((seal_done w tag w' /\ sealed_for w tag w') \/ (is_ok r = false /\ only_io w w')) as Hcase.
  { destruct r as [[]|e]; [by left|]. destruct Ha as [_ [?|?]]; [by right|by left]. }
  split; [|split].
  - intros Hs. destruct Hcase as [[(D1 & _) _]|[Hr Hio]]; [congruence|]. pose proof (rw_ok_io _ _ _ Hio Hok).
    by destruct Hio as [s ->].
  - intros Hs. destruct Hcase as [[Hd (E1 & E2 & E3 & E4 & E5 & E6 & E7)]|[_ [s ->]]]; [|simpl in Hs; congruence].
    split_and!; try done. exact (sealed_reopens w tag w' v Hd V2 V3).
  - intros Hs _ _. destruct (Hsucc Hs) as (u & w3 & [= -> ->] & Hd & _). destruct u. split; [done|apply Hd].
Qed.

(** ** The empty layer *)

Definition take_step : io script unit := fun s =>
  match next_outcome s with
  | (Done, s) => (Ok tt, s)
  | (Failed _ e, s) => (Err (Errno e), s)
  end.

(** The bytes written once the output is open. *)
Definition empty_layer_file (vsize : Z) (user_tag : bytes) : io script file :=
  let uuid := uuid_from_content_digest (sha256_hex (vsize_le vsize)) in
  let index_offset := kHeaderSectors * kSector in
  region ← io_lift (serialize (make_ht true true index_offset 0 vsize uuid user_tag));
  _ ← take_step;
  let f := file_write empty_file 0 region in
  region ← io_lift (serialize (make_ht false true index_offset 0 vsize uuid user_tag));
  _ ← take_step;
  let f := file_write f index_offset region in
  _ ← take_step;                                       (* fdatasync *)
  mret f.

(** The file at the output path; a failure after the open unlinks it. *)
Definition create_empty_lsmt_layer (vsize : Z) (user_tag : bytes) : io (script * option file) unit :=
  fun '(s, out) =>
  if (vsize =? 0) || negb (vsize mod kSector =? 0) then (Err (Errno EINVAL), (s, out)) else
  match take_step s with
  | (Err f, s) => (Err f, (s, out))
  | (Ok _, s) =>
      match empty_layer_file vsize user_tag s with
      | (Ok f, s) => (Ok tt, (s, Some f))
      | (Err e, s) => (Err e, (s, None))
      end
  end.

Section empty.
Context (Hsha : forall b, cstr_ok 65 (sha256_hex b) /\ zlen (sha256_hex b) = 64).
Context (vsize : Z) (tag : bytes) (Hv : 0 < vsize) (Hal : vsize mod 512 = 0) (Hvs : vsize / 512 <= kMaxOffset)
  (Htag : cstr_ok 256 tag).

Definition empty_ht (header : bool) : HeaderTrailer :=
  make_ht header true 4096 0 vsize (uuid_from_content_digest (sha256_hex (vsize_le vsize))) tag.

Lemma empty_ht_ok b : ht_ok (empty_ht b).
Proof.
  pose proof (Z.div_mod vsize 512 ltac:(lia)). unfold kMaxOffset in *.
  apply make_ht_ok; try done; try lia. apply content_uuid_ok, Hsha.
Qed.

Definition empty_file_of (rh rt : bytes) : file := file_write (file_write empty_file 0 rh) 4096 rt.

Lemma empty_sealed rh rt :
  serialize (empty_ht true) = Ok rh -> serialize (empty_ht false) = Ok rt ->
  file_bytes (empty_file_of rh rt) /\ sealed_file (empty_file_of rh rt) (empty_ht true) (empty_ht false) [].
Proof.
  intros Hrh Hrt.
  destruct (parse_serialize _ (empty_ht_ok true)) as (b & Hb & Hzh & Hbh & _). rewrite Hrh in Hb. injection Hb as <-.
  destruct (parse_serialize _ (empty_ht_ok false)) as (b & Hb & Hzt & Hbt & _). rewrite Hrt in Hb. injection Hb as <-.
  unfold kSpace in *.
  assert (f_size (empty_file_of rh rt) = 8192) as Hs.
  { unfold empty_file_of. rewrite !f_size_write_end by lia. simpl. lia. }
  split; [repeat apply file_bytes_write; try done; apply file_bytes_empty|].
  split; try done; try apply empty_ht_ok.
  - exists rh. split; [done|]. apply holds_write_other; [|lia].
    destruct (holds_write empty_file 0 rh ltac:(lia)); [done|lia].
  - exists rt. split; [done|]. rewrite Hs.
    destruct (holds_write (file_write empty_file 0 rh) 4096 rt ltac:(lia)); [done|lia].
  - rewrite Hs. split; [by vm_compute|done].
  - apply holds_nil. rewrite Hs. simpl. lia.
Qed.

Lemma sync_free p : p_script p = [] -> pair_sync p = (Ok tt, p).
Proof. intros H. unfold pair_sync, pair_step, mbind, io_bind. rewrite H. simpl. by destruct p; simpl in *; subst. Qed.
Lemma write_free f off bs p : p_script p = [] -> temp_write f off bs p = (Ok (file_write f off bs), p).
Proof. intros H. unfold temp_write. by rewrite (io_step _ _ p tt p) by by apply sync_free. Qed.
Lemma on_pair_free {A} (m : io FilePair A) a w : m (rw_pair w) = (Ok a, rw_pair w) -> on_pair m w = (Ok a, w).
Proof. unfold on_pair. intros ->. by destruct w. Qed.

(** What a seal of an index without extents writes. *)
Lemma close_empty p rh rt :
  serialize (empty_ht true) = Ok rh -> serialize (empty_ht false) = Ok rt -> p_script p = [] ->
  seal_close (Sealing [] kHeaderSectors empty_file (vsize_le vsize)) vsize tag p =
  (Ok (file_write (file_write (file_write empty_file 0 rh) 4096 []) 4096 rt, 8192,
       uuid_from_content_digest (sha256_hex (vsize_le vsize))), p).
Proof.
  intros Hrh Hrt Hp. unfold seal_close. cbn [sl_sector sl_packed sl_out sl_hash]. cbv zeta.
  change (store_segments _ _ _) with (@nil Z). rewrite app_nil_r.
  change (_ * kSector) with 4096. change (zlen (@nil segment_mapping)) with 0.
  rewrite (io_step _ _ p rh p) by (apply io_step_lift; exact Hrh).
  rewrite (io_step _ _ p (file_write empty_file 0 rh) p) by by apply write_free.
  erewrite (io_step _ _ p _ p) by by apply write_free.
  rewrite (io_step _ _ p rt p) by (apply io_step_lift; exact Hrt).
  erewrite (io_step _ _ p _ p) by by apply write_free. done.
Qed.

Lemma seal_empty w rh rt :
  serialize (empty_ht true) = Ok rh -> serialize (empty_ht false) = Ok rt ->
  rw_segments w = [] -> rw_vsize w = vsize -> rw_script w = [] ->
  rw_journal_failed w = false -> rw_terminal_op w = false -> rw_grow_op w = false -> rw_sealed w = false ->
  let f := rw_data (seal tag w).2 in
  f_size f = f_size (empty_file_of rh rt) /\ forall i, f_byte f i = f_byte (empty_file_of rh rt) i.
Proof.
  intros Hrh Hrt Hs Hw Hsc Hj Ht Hg Hse. unfold rw_script in Hsc. unfold seal, begin_terminal_op.
  rewrite Hj, Ht, Hg, Hse. cbn [orb andb negb]. set (w1 := set_gates w _ _ _).
  change (rw_segments w1) with (rw_segments w). change (rw_vsize w1) with (rw_vsize w).
  assert (p_script (rw_pair w1) = []) as Hsc1 by done. rewrite Hs, Hw. unfold seal_body. cbn [seal_segments].
  rewrite (io_step _ _ w1 tt w1) by (apply on_pair_free; by apply sync_free).
  erewrite (io_step _ _ w1 _ w1) by (apply on_pair_free; reflexivity).
  erewrite (io_step _ _ w1 _ w1) by (apply on_pair_free; apply close_empty; done).
  cbv beta iota. do 3 rewrite (io_step _ _ w1 tt w1) by (apply on_pair_free; by apply sync_free).
  set (out := file_write _ _ _). set (w2 := (seal_publish [] out 8192 (uuid_from_content_digest (sha256_hex (vsize_le vsize))) w1).2).
  rewrite (io_step _ _ w1 tt w2) by done.
  rewrite (on_pair_free _ tt w2) by by apply sync_free.
  split; [done|]. intros i. simpl. case_if; [done|].
  destruct (Z.leb_spec 4096 i), (Z.ltb_spec i (4096 + zlen (@nil Z))); rewrite ?zlen_nil in *; (lia || done).
Qed.

(** The two steps whose outcome the script decides. *)
Lemma empty_file_result rh rt s :
  serialize (empty_ht true) = Ok rh -> serialize (empty_ht false) = Ok rt ->
  match empty_layer_file vsize tag s with
  | (Ok f, _) => f = empty_file_of rh rt
  | (Err e, _) => any_errno e /\ s <> []
  end.
Proof.
  intros Hrh Hrt. unfold empty_layer_file. cbv zeta. change (kHeaderSectors * kSector) with 4096.
  rewrite (io_step _ _ s rh s) by (apply io_step_lift; exact Hrh).
  unfold mbind, io_bind, io_lift, take_step.
  fold (empty_ht false). rewrite Hrt.
  destruct s as [|[|] [|[|] [|[|] s]]]; simpl; eauto with errno.
Qed.
End empty.

(** The empty layer.  Its file opens as a layer of the requested size that
    maps nothing and reads as zeroes; it is, byte for byte, what sealing a
    writable layer of the same size without extents publishes.  A failure
    leaves the path as it was or removes it, never a half-written layer. *)
Theorem empty_layer_correct {W} vsize tag s out (v : W) :
  (forall b, cstr_ok 65 (sha256_hex b) /\ zlen (sha256_hex b) = 64) ->
  0 <= vsize -> vsize / 512 <= kMaxOffset -> cstr_ok 256 tag ->
  let '(r, (_, out')) := create_empty_lsmt_layer vsize tag (s, out) in
  match r with
  | Ok _ => exists f layer,
      out' = Some f /\ open (Some (file_source f)) v = (Ok layer, v) /\
      l_segments layer = [] /\ virtual_size layer = vsize /\
      (forall m, merged_open [layer] = Ok m ->
       forall count off, 0 <= count -> 0 <= off -> count mod 512 = 0 -> off mod 512 = 0 ->
         io_spec (fun _ => False) (merged_pread m count off) (fun bs => bs = zeros (avail vsize count off))) /\
      (forall w, rw_segments w = [] -> rw_vsize w = vsize -> rw_script w = [] ->
         rw_journal_failed w = false -> rw_terminal_op w = false -> rw_grow_op w = false ->
         rw_sealed w = false ->
         let f' := rw_data (seal tag w).2 in
         f_size f' = f_size f /\ forall i, f_byte f' i = f_byte f i)
  | Err e => any_errno e /\ (out' = out \/ out' = None) /\ (s = [] -> vsize = 0 \/ vsize mod 512 <> 0)
  end.
Proof.
  intros Hsha Hv Hvs Ht. unfold create_empty_lsmt_layer. case_if.
  { split; [eauto with errno|]. split; [by left|]. intros _. bool_hyps. unfold kSector in *. lia. }
  bool_hyps. unfold kSector in *.
  destruct (parse_serialize _ (empty_ht_ok Hsha vsize tag ltac:(lia) ltac:(lia) Hvs Ht true)) as (rh & Hrh & _).
  destruct (parse_serialize _ (empty_ht_ok Hsha vsize tag ltac:(lia) ltac:(lia) Hvs Ht false)) as (rt & Hrt & _).
  destruct (take_step s) as [[[]|e] s1] eqn:Hstep.
  2:{ revert Hstep. unfold take_step. destruct s as [|[|] s]; simpl; [done..|]. intros [= <- <-]. split_and!; [eauto with errno|by left|done]. }
  pose proof (empty_file_result vsize tag rh rt s1 Hrh Hrt) as Hres.
  destruct (empty_layer_file vsize tag s1) as [[f|e] s2].
  2:{ destruct Hres as [He Hs]. split; [done|]. split; [by right|]. intros ->. simpl in Hstep.
      injection Hstep as <-. done. }
  subst f. destruct (empty_sealed Hsha vsize tag ltac:(lia) ltac:(lia) Hvs Ht rh rt Hrh Hrt) as [Hb Hf].
  exists (empty_file_of rh rt), (sealed_layer (empty_file_of rh rt) (empty_ht vsize tag false) []).
  split; [done|]. split; [by eapply sealed_opens|]. split; [done|]. split; [done|]. split.
  - intros m Hm count off Hc Ho Hcm Hom.
    eapply io_spec_mono.
    { apply (sealed_reads _ _ _ _ Hf Hb (Forall_nil_2 _) m); try done; simpl; lia. }
    cbv beta. intros bs ->. by apply slice_zero.
  - intros w H1 H2 H3 H4 H5 H6 H7. by apply (seal_empty vsize tag w rh rt).
Qed.

End seal.

(** A stand-in for the digest. *)
Definition example_sha (b : bytes) : bytes := replicate 64 (97 + zlen b mod 6).

Lemma example_sha_ok b : cstr_ok 65 (example_sha b) /\ zlen (example_sha b) = 64.
Proof.
  pose proof (Z.mod_pos_bound (zlen b) 6 ltac:(lia)).
  split; [split; [|done]|done]. apply Forall_replicate. lia.
Qed.

Lemma seal_correct_witness :
  let w := fresh_layer example_header [] in
  let '(r, w') := seal example_sha [120] w in
  r = Ok tt /\ rw_sealed w' = true /\ (forall i, rw_view w' i = rw_view w i) /\
  exists layer, open (Some (file_source (rw_data w'))) tt = (Ok layer, tt) /\ virtual_size layer = 1048576.
Proof.
  assert (file_bytes (rw_data (fresh_layer example_header []))) as Hb.
  { intros i. apply Forall_byte_bget.
    destruct (parse_serialize example_header) as (b & Hs & _ & Hbb & _);
      [by destruct example_header_ok as (_ & _ & _ & _ & _ & _ & ?)|].
    unfold raw_header. by rewrite Hs. }
  pose proof (seal_correct example_sha (fresh_layer example_header []) [] [120] tt example_sha_ok
    (fresh_layer_ok _ _ example_header_ok) eq_refl Hb ltac:(by vm_compute)
    ltac:(split; [constructor; [lia|constructor]|done])) as H.
  cbv zeta. destruct (seal example_sha [120] (fresh_layer example_header [])) as [r w'].
  destruct H as (_ & H2 & H3). destruct (H3 eq_refl eq_refl eq_refl) as [-> Hs].
  destruct (H2 Hs) as (E1 & _ & _ & _ & _ & _ & layer & E2 & _ & E3 & _).
  split; [done|]. split; [done|]. split; [done|]. exists layer. split; [exact E2|]. rewrite E3. by vm_compute.
Defined.

Lemma empty_layer_correct_witness :
  exists f layer,
    (create_empty_lsmt_layer example_sha 65536 [] ([], None)).2.2 = Some f /\
    open (Some (file_source f)) tt = (Ok layer, tt) /\ virtual_size layer = 65536.
Proof.
  pose proof (empty_layer_correct example_sha 65536 [] [] None tt example_sha_ok ltac:(lia) ltac:(by vm_compute)
    ltac:(split; [constructor|done])) as H.
  set (x := create_empty_lsmt_layer _ _ _ _) in *. clearbody x. destruct x as [[[]|e] [s out]].
  - destruct H as (f & layer & Ho & H1 & _ & H2 & _). by exists f, layer.
  - destruct H as (_ & _ & H). destruct (H eq_refl); done.
Defined.
