(* ===== verification/PairCreate.v ===== *)
(** * Creating and migrating a writable pair ([FilePair::create_sync],
    [recover_creation], [migrate_sync] and [lock_workspace] of
    [format/lsmt_rw_file.cpp]; [LsmtRwLayer::open_or_create] and [seal_file])

    The directory of a pair is a map from names to inodes.  A creation stages
    the two header files and an intent under names that carry the new UUID,
    publishes the intent by a hard link, and from then on only rolls forward.
    An open of a name that exists succeeds here: what could fail in it is the
    outcome of the lock or read that follows. *)
From stdpp Require Import gmap.
From S2P Require Import Prelude Bytes Crc32c LsmtFormat Source File Segments Merge Trim Lsmt Journal FilePair PairGrow LsmtRw Writer.

Open Scope Z_scope.

(** ** The directory *)

Inductive part := PData | PIndex.
Inductive name := Live (p : part) | Init | Grow | Stage (p : part) (uuid : bytes) | Intent (uuid : bytes).

#[export] Instance part_eq_dec : EqDecision part.
Proof. solve_decision. Defined.
#[export] Instance name_eq_dec : EqDecision name.
Proof. solve_decision. Defined.

Definition name_code (n : name) : Z * bytes :=
  match n with
  | Live PData => (0, []) | Live PIndex => (1, []) | Init => (2, []) | Grow => (3, [])
  | Stage PData u => (4, u) | Stage PIndex u => (5, u) | Intent u => (6, u)
  end.
Definition name_decode (c : Z * bytes) : name :=
  let '(k, u) := c in
  if k =? 0 then Live PData else if k =? 1 then Live PIndex else if k =? 2 then Init else
  if k =? 3 then Grow else if k =? 4 then Stage PData u else if k =? 5 then Stage PIndex u else Intent u.
#[export] Instance name_countable : Countable name.
Proof. refine (inj_countable' name_code name_decode _). by intros [[]| | |[]|]. Defined.

(** [n_ino] tells hard links of one file from another file. *)
Record node := Node { n_ino : Z; n_file : file }.

Record dir := Dir {
  d_script : script;
  d_names : gmap name node;
  d_next : Z;
}.
Definition dset_script (d : dir) (s : script) : dir := Dir s (d_names d) (d_next d).
Definition dset_names (d : dir) (m : gmap name node) : dir := Dir (d_script d) m (d_next d).

Definition dir_step : io dir outcome := fun d =>
  let '(o, s) := next_outcome (d_script d) in (Ok o, dset_script d s).

(** A lock, a sync, an open of something outside the map. *)
Definition dir_sync : io dir unit :=
  o ← dir_step; match o with Done => mret tt | Failed _ e => io_fail (Errno e) end.

Definition lookup_name (n : name) : io dir (option node) := fun d => (Ok (d_names d !! n), d).

(** [read_exact] of an open file. *)
Definition node_read (f : node) (off n : Z) : io dir bytes :=
  _ ← dir_sync;
  let bs := file_read (n_file f) off n in
  if zlen bs =? n then mret bs else io_fail (Errno EIO).

(** [O_CREAT | O_EXCL]. *)
Definition create_excl (n : name) : io dir unit :=
  _ ← dir_sync;
  io_run (fun d => match d_names d !! n with
                   | Some _ => (Err (Errno EEXIST), d)
                   | None => (Ok tt, Dir (d_script d) (<[n := Node (d_next d) empty_file]> (d_names d)) (d_next d + 1))
                   end).

Definition name_write (n : name) (bs : bytes) (off : Z) : io dir unit :=
  o ← dir_step;
  io_run (fun d =>
    let write bs := dset_names d (alter (fun x => Node (n_ino x) (file_write (n_file x) off bs)) n (d_names d)) in
    match o with
    | Done => (Ok tt, write bs)
    | Failed k e => (Err (Errno e), write (partial k bs))
    end).

(** [linkat] never replaces its target. *)
Definition link_name (from to : name) : io dir unit :=
  _ ← dir_sync;
  io_run (fun d => match d_names d !! from, d_names d !! to with
                   | None, _ => (Err (Errno ENOENT), d)
                   | Some _, Some _ => (Err (Errno EEXIST), d)
                   | Some x, None => (Ok tt, dset_names d (<[to := x]> (d_names d)))
                   end).

Definition unlink_name (n : name) : io dir unit :=
  _ ← dir_sync;
  io_run (fun d => match d_names d !! n with
                   | None => (Err (Errno ENOENT), d)
                   | Some _ => (Ok tt, dset_names d (delete n (d_names d)))
                   end).

(** An unlink in a destructor: its failure is ignored. *)
Definition drop_name (n : name) : io dir unit := fun d =>
  match unlink_name n d with (_, d) => (Ok tt, d) end.

(** ** The creation intent *)

Definition kCreateMagic : Z := 0x3154494e494d534c.
Definition kCreateBytes : Z := 8 + kSpace + 4.

Definition create_intent (dh : HeaderTrailer) : res bytes :=
  let raw := store_u64_le (zeros kCreateBytes) 0 kCreateMagic in
  h ← serialize dh;
  let raw := put raw 8 h in
  Ok (store_u32_le raw (kCreateBytes - 4) (intent_checksum (ztake (kCreateBytes - 4) raw))).

Definition read_create_intent (raw : bytes) : res HeaderTrailer :=
  if negb (load_u64_le raw 0 =? kCreateMagic) ||
     negb (load_u32_le raw (kCreateBytes - 4) =? intent_checksum (ztake (kCreateBytes - 4) raw))
  then format_error else parse (sub 8 kSpace raw).

Section workspace.
(** The parents of the two paths are one directory; the two file names are
    the same. *)
Context (colocated aliased : bool).

(** [data + ".lock"], its lock, the directory. *)
Definition lock_workspace : io dir unit := _ ← dir_sync; _ ← dir_sync; dir_sync.

Definition part_header (dh : HeaderTrailer) (p : part) : HeaderTrailer :=
  match p with PData => dh | PIndex => index_header dh end.

(** One artifact of a creation: under its name or still staged, locked, of the
    size of a header and with the expected content. *)
Definition check_artifact (dh : HeaderTrailer) (p : part) : io dir (node * bool) :=
  live ← lookup_name (Live p);
  stage ← lookup_name (Stage p (ht_uuid dh));
  match (match live with Some x => Some (x, true) | None => (fun x => (x, false)) <$> stage end) with
  | None => io_fail (Errno ENOENT)
  | Some (x, published) =>
      _ ← dir_sync;                                   (* lock *)
      if negb (f_size (n_file x) =? kSpace) then io_lift format_error else
      actual ← node_read x 0 kSpace;
      expected ← io_lift (serialize (part_header dh p));
      if bool_decide (actual = expected) then mret (x, published) else io_lift format_error
  end.

Definition publish_artifact (dh : HeaderTrailer) (p : part) (published : bool) : io dir unit :=
  if published then mret tt else link_name (Stage p (ht_uuid dh)) (Live p).

(** The staging link goes when it is a link to the published file. *)
Definition retire_stage (dh : HeaderTrailer) (p : part) (x : node) : io dir unit :=
  stage ← lookup_name (Stage p (ht_uuid dh));
  match stage with
  | Some y => if n_ino y =? n_ino x then unlink_name (Stage p (ht_uuid dh)) else mret tt
  | None => mret tt
  end.

Definition recover_creation : io dir bool :=
  intent ← lookup_name Init;
  match intent with
  | None => mret false
  | Some intent =>
      if negb colocated then io_lift format_error else
      if negb (f_size (n_file intent) =? kCreateBytes) then io_lift format_error else
      raw ← node_read intent 0 kCreateBytes;
      dh ← io_lift (read_create_intent raw);
      _ ← io_lift (validate_pair dh (index_header dh) kSpace kSpace);
      if aliased then io_lift format_error else
      '(data, data_published) ← check_artifact dh PData;
      '(index, index_published) ← check_artifact dh PIndex;
      _ ← publish_artifact dh PIndex index_published;
      _ ← publish_artifact dh PData data_published;
      _ ← dir_sync;                                   (* directory *)
      _ ← unlink_name Init;
      _ ← retire_stage dh PData data;
      _ ← retire_stage dh PIndex index;
      _ ← dir_sync;                                   (* directory *)
      mret true
  end.

(** ** Opening through the directory *)

(** The files of the directory as a pair that is not open yet. *)
Definition dir_pair (d : dir) (data index : node) : FilePair :=
  unopened (d_script d) (n_file data) (n_file index)
    ((fun g => file_read (n_file g) 0 (f_size (n_file g))) <$> (d_names d !! Grow)).

(** What an operation on the pair left in the directory. *)
Definition put_pair_files (d : dir) (p : FilePair) : dir :=
  let set f (x : node) := Node (n_ino x) f in
  let names := alter (set (p_index p)) (Live PIndex) (alter (set (p_data p)) (Live PData) (d_names d)) in
  Dir (p_script p) (match p_grow p with None => delete Grow names | Some _ => names end) (d_next d).

Definition on_files {A} (data index : node) (m : io FilePair A) : io dir A := fun d =>
  let '(r, p) := m (dir_pair d data index) in (r, put_pair_files d p).

(** The checks on the payload that come before the index is opened. *)
Definition pair_head : io FilePair unit := fun d =>
  (if f_size (p_data d) <? kSpace then io_lift format_error else
   raw ← disk_read (p_data d) 0 kSpace;
   header ← io_lift (parse raw);
   sealed ← (if is_sealed header then mret true else sealed_trailer (p_data d));
   if (sealed : bool) then io_fail (Errno EALREADY) else mret tt) d.

Definition open_files : io dir FilePair :=
  data ← lookup_name (Live PData);
  match data with
  | None => io_fail (Errno ENOENT)
  | Some data =>
      _ ← dir_sync;                                   (* lock the payload *)
      index ← lookup_name (Live PIndex);
      match index with
      | None => _ ← on_files data (Node 0 empty_file) pair_head; io_fail (Errno ENOENT)
      | Some index =>
          _ ← dir_sync;                               (* lock the index *)
          on_files data index pair_open
      end
  end.

Definition open_sync : io dir FilePair := _ ← recover_creation; open_files.

(** ** Creation *)

Definition new_header (virtual_size : Z) (uuid : bytes) : HeaderTrailer :=
  HT kHeaderSize 3 0 0 virtual_size uuid [] 0 1 1 [].

(** One staged file; [Err] leaves it created or not. *)
Definition stage_file (n : name) (content : res bytes) : io dir unit :=
  bs ← io_lift content;
  _ ← name_write n bs 0;
  dir_sync.                                           (* fdatasync *)

(** [~Staging]: the staged files that were created, unless the intent is out;
    the staged intent in any case. *)
Fixpoint drop_names (l : list name) : io dir unit :=
  match l with [] => mret tt | n :: l => _ ← drop_name n; drop_names l end.

(** The staging loop; [created] are the names made so far. *)
Fixpoint stage_all (l : list (name * res bytes)) (created : list name) : io dir (res unit * list name) :=
  match l with
  | [] => mret (Ok tt, created)
  | (n, content) :: l => fun d =>
      match create_excl n d with
      | (Err f, d) => (Ok (Err f, created), d)
      | (Ok _, d) =>
          match stage_file n content d with
          | (Err f, d) => (Ok (Err f, created ++ [n]), d)
          | (Ok _, d) => stage_all l (created ++ [n]) d
          end
      end
  end.

Definition stages (dh : HeaderTrailer) : list (name * res bytes) :=
  [(Stage PData (ht_uuid dh), serialize dh);
   (Stage PIndex (ht_uuid dh), serialize (index_header dh));
   (Intent (ht_uuid dh), create_intent dh)].

(** [~Staging] runs when the process lives on after a failure. *)
Definition cleanup (alive : bool) (l : list name) : io dir unit := if alive then drop_names l else mret tt.

(** From the publication of the intent on. *)
Definition create_publish (alive : bool) (dh : HeaderTrailer) (created : list name) : io dir FilePair := fun d =>
  match link_name (Intent (ht_uuid dh)) Init d with
  | (Err f, d) => (_ ← cleanup alive created; io_fail f) d
  | (Ok _, d) =>
      let '(r, d) := (_ ← dir_sync;                   (* directory *)
                      _ ← recover_creation;
                      open_sync) d in
      let '(_, d) := cleanup alive [Intent (ht_uuid dh)] d in (r, d)
  end.

Definition create_new (alive : bool) (dh : HeaderTrailer) : io dir FilePair :=
  sc ← stage_all (stages dh) [];
  match sc.1 with
  | Err f => _ ← cleanup alive sc.2; io_fail f
  | Ok _ => create_publish alive dh sc.2
  end.

Definition create_sync (alive : bool) (uuid : bytes) (virtual_size : Z) : io dir FilePair :=
  _ ← lock_workspace;
  if negb colocated then io_lift format_error else
  resumed ← recover_creation;
  if (resumed : bool) then
    recovered ← open_sync;
    if negb (ht_virtual_size (p_header recovered) =? virtual_size) then io_fail (Errno EINVAL)
    else mret recovered
  else
  data ← lookup_name (Live PData);
  index ← lookup_name (Live PIndex);
  if bool_decide (is_Some data) || bool_decide (is_Some index) then io_fail (Errno EEXIST) else
  let dh := new_header virtual_size uuid in
  _ ← io_lift (validate_pair dh (index_header dh) kSpace kSpace);
  if aliased then io_lift format_error else
  create_new alive dh.
End workspace.

(** ** Steps on the directory *)

Section steps.
Context {A : Type} (d : dir) (Q : A -> dir -> Prop) (F : dir -> Prop).
Context (HF : forall s, F (dset_script d s)).

Lemma dir_sync_bind (k : unit -> io dir A) :
  (forall s, attempt d_script (k tt) (dset_script d s) Q F) -> attempt d_script (dir_sync ≫= k) d Q F.
Proof.
  intros Hk. eapply (attempt_bind _ _ _ _ (fun _ d' => exists s, d' = dset_script d s)); [|by intros [] d' [s ->]].
  unfold attempt, dir_sync, dir_step, mbind, io_bind. pose proof (next_outcome_spec (d_script d)) as Ho.
  destruct (next_outcome (d_script d)) as [[|k' e] s]; destruct Ho as [Hsub Hf]; simpl.
  - eauto.
  - split; [by apply (Hf k')|done].
Qed.

Lemma lookup_bind n (k : option node -> io dir A) :
  attempt d_script (k (d_names d !! n)) d Q F -> attempt d_script (lookup_name n ≫= k) d Q F.
Proof. done. Qed.

Lemma node_read_bind x off n bs (k : bytes -> io dir A) :
  0 <= off -> 0 <= n -> off + n <= f_size (n_file x) -> slice (f_byte (n_file x)) off n = bs ->
  (forall s, attempt d_script (k bs) (dset_script d s) Q F) -> attempt d_script (node_read x off n ≫= k) d Q F.
Proof.
  intros Ho Hn Hl <- Hk. unfold node_read.
  eapply attempt_as; [|apply (dir_sync_bind (fun _ => k (slice (f_byte (n_file x)) off n))); exact Hk].
  unfold mbind, io_bind. destruct (dir_sync d) as [[[]|] d']; [|done].
  rewrite file_read_full by done. by rewrite (proj2 (Z.eqb_eq _ _)) by len.
Qed.

Lemma unlink_bind n (k : unit -> io dir A) :
  is_Some (d_names d !! n) ->
  (forall s, attempt d_script (k tt) (dset_names (dset_script d s) (delete n (d_names d))) Q F) ->
  attempt d_script (unlink_name n ≫= k) d Q F.
Proof.
  intros [x Hx] Hk. unfold unlink_name.
  eapply attempt_as; [|apply (dir_sync_bind (fun _ => (fun d' => (Ok tt, dset_names d' (delete n (d_names d')))) ≫= k))].
  - unfold mbind, io_bind, io_run. unfold dir_sync, dir_step, mbind, io_bind.
    destruct (next_outcome (d_script d)) as [[|k' e] s]; simpl; [|done]. by rewrite Hx.
  - intros s. exact (Hk s).
Qed.

Lemma link_bind from to x (k : unit -> io dir A) :
  d_names d !! from = Some x -> d_names d !! to = None ->
  (forall s, attempt d_script (k tt) (dset_names (dset_script d s) (<[to := x]> (d_names d))) Q F) ->
  attempt d_script (link_name from to ≫= k) d Q F.
Proof.
  intros Hx Ht Hk. unfold link_name.
  eapply attempt_as; [|apply (dir_sync_bind (fun _ => (fun d' => (Ok tt, dset_names d' (<[to := x]> (d_names d')))) ≫= k))].
  - unfold mbind, io_bind, io_run. unfold dir_sync, dir_step, mbind, io_bind.
    destruct (next_outcome (d_script d)) as [[|k' e] s]; simpl; [|done]. by rewrite Hx, Ht.
  - intros s. exact (Hk s).
Qed.
End steps.

(** ** The intent reads back *)

Section intent.
Context (h : HeaderTrailer) (Hh : ht_ok h).

Definition create_bytes : bytes := checked kCreateBytes [(0, le_bytes 8 kCreateMagic); (8, raw_header h)].

Lemma create_intent_ok :
  create_intent h = Ok create_bytes /\ zlen create_bytes = kCreateBytes /\
  read_create_intent create_bytes = Ok h.
Proof.
  destruct (raw_header_ok h Hh) as [Hz Hp]. split.
  { unfold create_intent. rewrite (serialize_puts h Hh). cbn [mbind res_bind].
    unfold create_bytes, checked, raw_header. rewrite (serialize_puts h Hh).
    by rewrite !store_u64_val, store_u32_val. }
  destruct (checked_spec kCreateBytes [(0, le_bytes 8 kCreateMagic); (8, raw_header h)]) as (Hzc & Hb & Hc & Hf).
  - unfold kCreateBytes, kSpace. lia.
  - cbn [layout_ok]. rewrite zlen_le_bytes, Hz. unfold kCreateBytes, kSpace. lia.
  - forall_fields ltac:(fun _ => first [apply le_bytes_byte|by apply raw_header_byte]).
  - fold create_bytes in Hzc, Hb, Hc, Hf. split; [done|]. unfold read_create_intent.
    rewrite (load_field_u64 create_bytes 0 Hb ltac:(lia) kCreateMagic).
    2: { rewrite Hzc. unfold kCreateBytes, kSpace. lia. }
    2: { apply Hf; [in_fields|by rewrite zlen_le_bytes]. }
    change (kCreateMagic mod 2 ^ 64) with kCreateMagic. rewrite Hc, !Z.eqb_refl. cbn [negb orb].
    rewrite (Hf 8 (raw_header h)) by (done || in_fields). done.
Qed.
End intent.

(** ** The states of a creation *)

Definition file_is (f : file) (bs : bytes) : Prop :=
  f_size f = zlen bs /\ slice (f_byte f) 0 (zlen bs) = bs.
Definition artifact (h : HeaderTrailer) (p : part) (x : node) : Prop :=
  file_is (n_file x) (raw_header (part_header h p)).

(** Nothing of the pair is published. *)
Definition blank (d : dir) : Prop :=
  d_names d !! Init = None /\ d_names d !! Grow = None /\ forall p, d_names d !! Live p = None.

(** The intent is out: each artifact is under its name or staged. *)
Definition creating (h : HeaderTrailer) (d : dir) : Prop :=
  (exists x, d_names d !! Init = Some x /\ file_is (n_file x) (create_bytes h)) /\
  d_names d !! Grow = None /\
  forall p, (exists x, d_names d !! Live p = Some x /\ artifact h p x) \/
            (d_names d !! Live p = None /\ exists x, d_names d !! Stage p (ht_uuid h) = Some x /\ artifact h p x).

(** The pair is there and holds no record. *)
Definition created (h : HeaderTrailer) (d : dir) : Prop :=
  d_names d !! Init = None /\ d_names d !! Grow = None /\
  exists x y, d_names d !! Live PData = Some x /\ d_names d !! Live PIndex = Some y /\
    disk_ok (n_file x) (n_file y) h [] /\ f_size (n_file x) <= kSpace.

Lemma part_header_ok h p : pair_header h -> ht_ok (part_header h p).
Proof. intros (_ & _ & _ & _ & _ & _ & H). destruct p; [done|by apply index_header_ok]. Qed.

Lemma artifact_ok h p x :
  pair_header h -> artifact h p x ->
  f_size (n_file x) = kSpace /\ slice (f_byte (n_file x)) 0 kSpace = raw_header (part_header h p) /\
  parse (slice (f_byte (n_file x)) 0 kSpace) = Ok (part_header h p) /\
  serialize (part_header h p) = Ok (raw_header (part_header h p)).
Proof.
  intros Hh [Hs Hb]. destruct (raw_header_ok _ (part_header_ok h p Hh)) as [Hz Hp].
  rewrite Hz in *. rewrite Hb. split_and!; try done. unfold raw_header.
  by destruct (parse_serialize _ (part_header_ok h p Hh)) as (b & -> & _).
Qed.

Lemma fresh_disk h x y : pair_header h -> artifact h PData x -> artifact h PIndex y ->
  disk_ok (n_file x) (n_file y) h [].
Proof.
  intros Hh Hx Hy. destruct (artifact_ok h PData x Hh Hx) as (X1 & _ & X3 & _).
  destruct (artifact_ok h PIndex y Hh Hy) as (Y1 & _ & Y3 & _). split.
  - split; try done; rewrite ?X1; try done.
    + split; [rewrite Y1; by vm_compute|done].
    + intros k. by rewrite take_nil.
  - unfold sealed_tail. by rewrite X1.
Qed.

Lemma created_stage h d p u :
  created h d -> created h (dset_names d (delete (Stage p u) (d_names d))).
Proof.
  intros (H1 & H2 & x & y & H3 & H4 & H5). unfold created, dset_names. cbn [d_names].
  rewrite !lookup_delete_ne by done. eauto 10.
Qed.

(** ** Rolling a creation forward *)

Section recover.
Context (h : HeaderTrailer) (Hh : pair_header h).

Lemma new_pair_valid : validate_pair h (index_header h) kSpace kSpace = Ok 0.
Proof. apply (validate_pair_ok h kSpace 0); done || lia. Qed.

(** What the check of an artifact found. *)
Definition found (d : dir) (p : part) (x : node) (published : bool) : Prop :=
  artifact h p x /\
  if published then d_names d !! Live p = Some x
  else d_names d !! Live p = None /\ d_names d !! Stage p (ht_uuid h) = Some x.

Lemma check_artifact_bind {A} d p (k : node * bool -> io dir A) Q F :
  creating h d -> (forall s, F (dset_script d s)) ->
  (forall s x b, found d p x b -> attempt d_script (k (x, b)) (dset_script d s) Q F) ->
  attempt d_script (check_artifact h p ≫= k) d Q F.
Proof.
  intros (_ & _ & Hp) HF Hk.
  eapply attempt_bind with (P := fun xb d' => exists s, d' = dset_script d s /\ found d p xb.1 xb.2).
  2:{ intros [x b] d' (s & -> & Hf). by apply Hk. }
  unfold check_artifact. apply lookup_bind, lookup_bind.
  assert (exists x b, (match d_names d !! Live p with
    | Some x => Some (x, true)
    | None => (fun x => (x, false)) <$> d_names d !! Stage p (ht_uuid h)
    end) = Some (x, b) /\ found d p x b) as (x & b & -> & Hf).
  { destruct (Hp p) as [(x & Hx & Ha)|(Hn & x & Hx & Ha)].
    - exists x, true. rewrite Hx. by split; [|split].
    - exists x, false. rewrite Hn, Hx. by split; [|split]. }
  destruct (artifact_ok h p x Hh (proj1 Hf)) as (X1 & X2 & _ & X4).
  apply dir_sync_bind; [done|]. intros s1. rewrite X1, Z.eqb_refl. cbn [negb].
  eapply node_read_bind; [done|lia|done|rewrite X1; done|exact X2|]. intros s2.
  eapply attempt_lift_bind; [exact X4|]. rewrite bool_decide_true by done. apply attempt_ret. by exists s2.
Qed.

(** Publishing one artifact. *)
Lemma publish_bind {A} d p x b (k : unit -> io dir A) Q F :
  found d p x b -> (forall s, F (dset_script d s)) ->
  (forall s names, names !! Live p = Some x ->
     (forall n, n <> Live p -> names !! n = d_names d !! n) ->
     attempt d_script (k tt) (dset_names (dset_script d s) names) Q F) ->
  attempt d_script (publish_artifact h p b ≫= k) d Q F.
Proof.
  intros [_ Hf] HF Hk. unfold publish_artifact. destruct b.
  - apply attempt_ret_bind. specialize (Hk (d_script d) (d_names d) Hf (fun _ _ => eq_refl)).
    by destruct d.
  - destruct Hf as [Hn Hx]. apply (link_bind d Q F HF _ _ x); [done|done|]. intros s.
    apply Hk; [apply lookup_insert_eq|]. intros n Hne. by rewrite lookup_insert_ne.
Qed.

Lemma io_bind_ret {W A} (m : io W A) w : (m ≫= mret) w = m w.
Proof. unfold mbind, io_bind, mret, io_ret. by destruct (m w) as [[]]. Qed.

Lemma retire_bind {A} d p x (k : unit -> io dir A) Q F :
  created h d -> (forall d', created h d' -> F d') ->
  (forall d', created h d' -> attempt d_script (k tt) d' Q F) ->
  attempt d_script (retire_stage h p x ≫= k) d Q F.
Proof.
  intros Hc HF Hk. eapply attempt_bind with (P := fun _ => created h); [|by intros []]. unfold retire_stage.
  apply lookup_bind. destruct (d_names d !! Stage p (ht_uuid h)) as [y|] eqn:Hy; [|by apply attempt_ret].
  case_if; [|by apply attempt_ret].
  eapply attempt_as; [symmetry; apply io_bind_ret|].
  apply unlink_bind; [intros s; by apply HF|by rewrite Hy|]. intros s. apply attempt_ret.
  by apply (created_stage h (dset_script d s)).
Qed.

Lemma recover_creation_attempt d :
  creating h d ->
  attempt d_script (recover_creation true false) d (fun b d' => b = true /\ created h d')
    (fun d' => creating h d' \/ created h d').
Proof.
  intros Hc. pose proof Hc as ((i & Hi & Hi1 & Hi2) & Hg & _).
  destruct (create_intent_ok h) as (_ & Hz & Hr); [apply Hh|]. rewrite Hz in *.
  unfold recover_creation. apply lookup_bind. rewrite Hi. cbn [negb]. rewrite Hi1, Z.eqb_refl. cbn [negb].
  eapply node_read_bind; [intros s; by left|lia|done|rewrite Hi1; done|exact Hi2|]. intros s1.
  eapply attempt_lift_bind; [exact Hr|]. eapply attempt_lift_bind; [exact new_pair_valid|].
  apply check_artifact_bind; [done|intros s; by left|]. intros s2 x bx Hx.
  apply check_artifact_bind; [done|intros s; by left|]. intros s3 y by_ Hy.
  apply (publish_bind _ _ y by_); [exact Hy|intros s; by left|]. intros s4 m1 M1 M2.
  assert (creating h (Dir s4 m1 (d_next d))) as Hc1.
  { destruct Hc as (H1 & H2 & H3). split_and!; cbn [d_names]; rewrite ?M2 by done; try done.
    intros [|]; [|by left; exists y; split; [done|]; apply Hy]. rewrite !M2 by done. apply (H3 PData). }
  apply (publish_bind _ _ x bx); [|intros s; by left|].
  { destruct Hx as [X1 X2]. split; [done|]. cbn [d_names]. rewrite !M2 by done. exact X2. }
  intros s5 m2 N1 N2. cbn [d_names dset_names dset_script] in N2.
  assert (creating h (Dir s5 m2 (d_next d))) as Hc2.
  { destruct Hc1 as (H1 & H2 & H3). split_and!; cbn [d_names] in *; rewrite ?N2 by done; try done.
    intros [|]; [by left; exists x; split; [done|]; apply Hx|]. rewrite !N2 by done. apply (H3 PIndex). }
  apply dir_sync_bind; [intros s; by left|]. intros s6.
  apply unlink_bind; [intros s; by left|destruct Hc2 as ((z & Hz' & _) & _); exists z; exact Hz'|]. intros s7.
  assert (created h (Dir s7 (delete Init m2) (d_next d))) as Hd.
  { split; cbn [d_names]; [by rewrite lookup_delete_eq|]. rewrite !lookup_delete_ne by done.
    rewrite N1, (N2 Grow), (N2 (Live PIndex)), M1, (M2 Grow) by done. split; [done|].
    exists x, y. split; [done|]. split; [done|]. split; [by apply fresh_disk; [|apply Hx|apply Hy]|].
    destruct (artifact_ok h PData x Hh (proj1 Hx)) as [-> _]. done. }
  apply retire_bind; [exact Hd|by right|]. intros d1 Hd1.
  apply retire_bind; [exact Hd1|by right|]. intros d2 Hd2.
  apply dir_sync_bind; [intros s; by right|]. intros s. by apply attempt_ret.
Qed.
End recover.

(** ** Opening what a creation left *)

(** The world an open leaves is the pair it returns. *)
Definition returns_world (m : io FilePair FilePair) : Prop := forall d p d', m d = (Ok p, d') -> d' = p.

Lemma returns_bind {A} (m : io FilePair A) k : (forall a, returns_world (k a)) -> returns_world (m ≫= k).
Proof.
  intros Hk d p d'. unfold mbind, io_bind. destruct (m d) as [[a|f] d1]; [|done]. apply Hk.
Qed.
Lemma returns_fail f : returns_world (io_fail f).
Proof. by intros d p d' [=]. Qed.

Lemma pair_align_world header l n : returns_world (pair_align header l n).
Proof.
  intros d. unfold pair_align. revert d.
  assert (forall (a b : io FilePair unit) aligned, returns_world (_ ← a; _ ← b;
    io_run (fun d =>
     let p := Pair (p_script d) (p_data d) (p_index d) n (p_poisoned d) header l
       ((fun m => (s_offset m, seg_end m)) <$> l) aligned (p_growth_pending d) (p_grow d) in
     (Ok p, p)))) as H.
  { intros a b aligned. apply returns_bind. intros []. apply returns_bind. intros [] d p d' [= <- <-]. done. }
  intros d. apply H.
Qed.

Lemma pair_open_world : returns_world pair_open.
Proof.
  intros d. unfold pair_open. cbv zeta.
  assert (forall m : io FilePair FilePair, returns_world m -> forall p d', m d = (Ok p, d') -> d' = p) as Hm by eauto.
  apply Hm. case_if; [by intros ? ? ? [=]|].
  apply returns_bind. intros raw. apply returns_bind. intros header. apply returns_bind. intros []. apply returns_bind.
  intros []; [apply returns_fail|]. case_if; [by intros ? ? ? [=]|]. apply returns_bind. intros b d1.
  unfold pair_load. cbv zeta.
  assert (forall m : io FilePair FilePair, returns_world m -> forall p d', m d1 = (Ok p, d') -> d' = p) as Hm1 by eauto.
  apply Hm1. do 6 (apply returns_bind; intros ?). apply pair_align_world.
Qed.

Lemma on_files_attempt {A} d x y (m : io FilePair A) Q F :
  attempt p_script m (dir_pair d x y) Q F ->
  attempt d_script (on_files x y m) d (fun a d' => exists p', Q a p' /\ m (dir_pair d x y) = (Ok a, p') /\ d' = put_pair_files d p')
    (fun d' => exists p', F p' /\ d' = put_pair_files d p').
Proof.
  unfold attempt, on_files. destruct (m (dir_pair d x y)) as [[a|[e| |]] p']; try done.
  - intros [Hs HQ]. split; [exact Hs|]. by exists p'.
  - intros [Hf HF]. split; [exact Hf|]. by exists p'.
Qed.

(** The directory holds the pair [x], [y] with the log [log] and no intent. *)
Record upper (h : HeaderTrailer) (log : list segment_mapping) (d : dir) (x y : node) : Prop := {
  up_init : d_names d !! Init = None;
  up_grow : d_names d !! Grow = None;
  up_data : d_names d !! Live PData = Some x;
  up_index : d_names d !! Live PIndex = Some y;
  up_disk : disk_ok (n_file x) (n_file y) h log;
}.

Lemma put_files_names d p x y :
  d_names d !! Live PData = Some x -> d_names d !! Live PIndex = Some y -> p_grow p = None ->
  let d' := put_pair_files d p in
  d_names d' !! Live PData = Some (Node (n_ino x) (p_data p)) /\
  d_names d' !! Live PIndex = Some (Node (n_ino y) (p_index p)) /\ d_names d' !! Grow = None /\
  forall n, n <> Live PData -> n <> Live PIndex -> n <> Grow -> d_names d' !! n = d_names d !! n.
Proof.
  intros Hx Hy Hg. unfold put_pair_files. cbn [d_names]. rewrite Hg. set (m := alter _ (Live PIndex) _).
  assert (m !! Live PData = Some (Node (n_ino x) (p_data p))) as Em1.
  { unfold m. by rewrite lookup_alter_ne, lookup_alter_eq, Hx by done. }
  assert (m !! Live PIndex = Some (Node (n_ino y) (p_index p))) as Em2.
  { unfold m. by rewrite lookup_alter_eq, lookup_alter_ne, Hy by done. }
  rewrite lookup_delete_eq, !(lookup_delete_ne _ Grow (Live _)) by done. split_and!; try done.
  intros n N1 N2 N3. rewrite lookup_delete_ne by done. unfold m. by rewrite !lookup_alter_ne.
Qed.

Lemma upper_put h log d x y p :
  upper h log d x y -> disk_ok (p_data p) (p_index p) h log -> p_grow p = None ->
  upper h log (put_pair_files d p) (Node (n_ino x) (p_data p)) (Node (n_ino y) (p_index p)).
Proof.
  intros [H1 H2 H3 H4 _] Hd Hg. destruct (put_files_names d p x y H3 H4 Hg) as (E1 & E2 & E3 & E4).
  split; try done. by rewrite E4.
Qed.

Lemma open_files_upper h log d x y :
  upper h log d x y -> f_size (n_file x) < 2 ^ 64 ->
  attempt d_script open_files d
    (fun p d' => opened (n_file x) h log p /\ exists d1, upper h log d1 x y /\ d' = put_pair_files d1 p)
    (fun d' => exists x' y', upper h log d' x' y' /\ n_file x' = n_file x).
Proof.
  intros Hu H64. pose proof Hu as [_ Hg Hx Hy Hd].
  assert (forall s, exists x' y', upper h log (dset_script d s) x' y' /\ n_file x' = n_file x) as HF.
  { intros s. exists x, y. split; [by destruct Hu|done]. }
  unfold open_files. apply lookup_bind. rewrite Hx. apply dir_sync_bind; [done|]. intros s1.
  apply lookup_bind. cbn [d_names dset_script]. rewrite Hy. apply dir_sync_bind; [done|]. intros s2.
  set (d1 := dset_script _ s2). assert (upper h log d1 x y) as Hu1 by by destruct Hu.
  assert (p_grow (dir_pair d1 x y) = None) as Hgr by (unfold dir_pair, unopened; cbn; by rewrite Hg).
  eapply attempt_mono.
  - apply on_files_attempt, (pair_open_attempt (dir_pair d1 x y) h log); [done|done|by split; [|split]].
  - cbv beta. intros p d' (p' & Ho & Hrun & ->). apply pair_open_world in Hrun as ->. eauto.
  - cbv beta. intros d' (p' & (R1 & (_ & _ & R2) & R3) & ->). eexists _, _.
    split; [by apply (upper_put h log d1 x y)|exact R3].
Qed.

Lemma recover_none colocated aliased d :
  d_names d !! Init = None -> recover_creation colocated aliased d = (Ok false, d).
Proof. intros Hi. unfold recover_creation, lookup_name, mbind, io_bind. by rewrite Hi. Qed.

Section reopen.
Context (h : HeaderTrailer) (Hh : pair_header h).

Lemma created_upper d : created h d <-> exists x y, upper h [] d x y /\ f_size (n_file x) <= kSpace.
Proof.
  split.
  - intros (H1 & H2 & x & y & H3 & H4 & H5 & H6). by exists x, y.
  - intros (x & y & [H1 H2 H3 H4 H5] & H6). unfold created. eauto 10.
Qed.

Lemma created_pair p x y :
  disk_ok (n_file x) (n_file y) h [] -> f_size (n_file x) <= kSpace -> opened (n_file x) h [] p ->
  pair_ok p [] /\ p_header p = h /\ disk_ok (p_data p) (p_index p) h [] /\ f_size (p_data p) <= kSpace /\ p_grow p = None.
Proof.
  intros [Hd _] Hs Ho. pose proof (do_size _ _ _ _ Hd) as Hge.
  destruct (opened_layer _ _ _ _ _ Hd Ho) as [[Hp _ _ _ _ _ _] _].
  { unfold data_sectors. replace (f_size (n_file x)) with kSpace by lia. by vm_compute. }
  destruct Ho as (_ & Eh & (_ & _ & Hg) & _ & [Hsz _] & _). change (rw_pair (from_pair p)) with p in Hp.
  assert (f_size (p_data p) <= kSpace) as Hs'.
  { rewrite Hsz. replace (f_size (n_file x)) with kSpace by lia. by vm_compute. }
  split; [done|]. split; [done|]. split; [|done]. rewrite <- Eh. split; [by apply pair_ok_disk|].
  unfold sealed_tail. rewrite (proj2 (Z.ltb_lt _ _)); [done|]. unfold kSpace in *. lia.
Qed.

Lemma open_files_attempt d :
  created h d ->
  attempt d_script open_files d (fun p d' => pair_ok p [] /\ p_header p = h /\ created h d') (created h).
Proof.
  intros (x & y & Hu & Hs)%created_upper. pose proof (up_disk _ _ _ _ _ Hu) as Hd.
  pose proof (do_size _ _ _ _ (proj1 Hd)) as Hge.
  eapply attempt_mono; [apply (open_files_upper h [] d x y Hu); unfold kSpace in *; lia|..]; cbv beta.
  - intros p d' (Ho & d1 & Hu1 & ->). destruct (created_pair p x y Hd Hs Ho) as (R1 & R2 & R3 & R4 & R5).
    split; [done|]. split; [done|]. apply created_upper. eexists _, _. split; [by apply (upper_put h [] d1 x y)|done].
  - intros d' (x' & y' & Hu' & Hs'). apply created_upper. exists x', y'. split; [done|]. by rewrite Hs'.
Qed.

(** Opening completes a creation that was under way. *)
Lemma open_sync_attempt d :
  creating h d \/ created h d ->
  attempt d_script (open_sync true false) d (fun p d' => pair_ok p [] /\ p_header p = h /\ created h d')
    (fun d' => creating h d' \/ created h d').
Proof.
  intros Hd. unfold open_sync. eapply attempt_bind with (P := fun _ => created h).
  - destruct Hd as [Hd|Hd].
    + eapply attempt_mono; [by apply recover_creation_attempt|cbv beta; by intros b d' []|done].
    + unfold attempt. rewrite recover_none by apply Hd. by split.
  - intros b d' Hc. eapply attempt_mono; [by apply open_files_attempt|done|by right].
Qed.
End reopen.

(** ** Staging *)

Definition staging (n : name) : Prop :=
  match n with Stage _ _ | Intent _ => True | _ => False end.

(** Only the names in [l] differ. *)
Definition frame (l : list name) (d d' : dir) : Prop :=
  forall n, n ∉ l -> d_names d' !! n = d_names d !! n.

Lemma frame_refl l d : frame l d d.
Proof. done. Qed.
Lemma frame_trans l k d d1 d2 : frame l d d1 -> frame k d1 d2 -> frame (l ++ k) d d2.
Proof.
  intros H1 H2 n [Hl Hk]%not_elem_of_app. by rewrite H2, H1.
Qed.
Lemma frame_mono l k d d' : l ⊆ k -> frame l d d' -> frame k d d'.
Proof. intros Hl H n Hn. apply H. intros Hin. by apply Hn, Hl. Qed.

Lemma blank_frame l d d' : Forall staging l -> frame l d d' -> blank d -> blank d'.
Proof.
  intros Hl Hf (H1 & H2 & H3). rewrite Forall_forall in Hl.
  assert (forall n, ~ staging n -> d_names d' !! n = d_names d !! n) as He.
  { intros n Hn. apply Hf. intros Hin. by apply Hn, Hl. }
  split_and!; [| |intros p]; rewrite He by (simpl; tauto); auto.
Qed.

(** Dropping a name that is neither the intent nor a staged artifact. *)
Lemma creating_frame h u d d' : frame [Intent u] d d' -> creating h d \/ created h d -> creating h d' \/ created h d'.
Proof.
  intros Hf. assert (forall n, match n with Intent _ => False | _ => True end -> d_names d' !! n = d_names d !! n) as He.
  { intros n Hn. apply Hf. intros ->%list_elem_of_singleton. done. }
  intros [(H1 & H2 & H3)|(H1 & H2 & H3)]; [left|right].
  - split_and!; [by rewrite He|by rewrite He|]. intros p. rewrite !He by done. apply H3.
  - split_and!; [by rewrite He|by rewrite He|]. by rewrite !He.
Qed.

Lemma create_excl_attempt n d :
  d_names d !! n = None ->
  attempt d_script (create_excl n) d
    (fun _ d' => frame [n] d d' /\ exists x, d_names d' !! n = Some x /\ n_file x = empty_file) (frame [n] d).
Proof.
  intros Hn. unfold attempt, create_excl, dir_sync, dir_step, mbind, io_bind, io_run.
  pose proof (next_outcome_spec (d_script d)) as Ho.
  destruct (next_outcome (d_script d)) as [[|k e] s]; destruct Ho as [Hsub Hf]; simpl.
  - rewrite Hn. split; [done|]. split.
    + intros m Hm. simpl. rewrite lookup_insert_ne; [done|]. intros ->. apply Hm, list_elem_of_here.
    + exists (Node (d_next d) empty_file). split; [apply lookup_insert_eq|done].
  - split; [by apply (Hf k)|done].
Qed.

Lemma name_write_attempt n x bs off d :
  d_names d !! n = Some x ->
  attempt d_script (name_write n bs off) d
    (fun _ d' => frame [n] d d' /\ d_names d' !! n = Some (Node (n_ino x) (file_write (n_file x) off bs))) (frame [n] d).
Proof.
  intros Hn. unfold attempt, name_write, dir_step, mbind, io_bind, io_run.
  pose proof (next_outcome_spec (d_script d)) as Ho.
  destruct (next_outcome (d_script d)) as [[|k e] s]; destruct Ho as [Hsub Hf]; cbn.
  - split; [done|]. split; [|by rewrite lookup_alter_eq, Hn]. intros m Hm. cbn.
    rewrite lookup_alter_ne; [done|]. intros ->. apply Hm, list_elem_of_here.
  - split; [by apply (Hf k)|]. intros m Hm. cbn.
    rewrite lookup_alter_ne; [done|]. intros ->. apply Hm, list_elem_of_here.
Qed.

Lemma write_empty_is f bs : f = empty_file -> file_is (file_write f 0 bs) bs.
Proof.
  intros ->. pose proof (zlen_nonneg bs). split.
  - simpl. case_if; lia.
  - apply list_eq_bget; [len|]. intros i Hi. rewrite zlen_slice in Hi.
    rewrite bget_slice, f_byte_write_in by lia. f_equal. lia.
Qed.

Lemma stage_file_attempt n x bs d :
  d_names d !! n = Some x -> n_file x = empty_file ->
  attempt d_script (stage_file n (Ok bs)) d
    (fun _ d' => frame [n] d d' /\ exists x, d_names d' !! n = Some x /\ file_is (n_file x) bs) (frame [n] d).
Proof.
  intros Hx Hf. unfold stage_file. eapply attempt_lift_bind; [done|].
  eapply attempt_bind; [by apply (name_write_attempt n x)|]. cbv beta. intros [] d1 [H1 H2].
  eapply attempt_as; [symmetry; apply io_bind_ret|]. apply dir_sync_bind; [done|]. intros s.
  apply attempt_ret. split; [done|]. eexists. split; [exact H2|]. by apply write_empty_is.
Qed.

(** The whole loop: every artifact is in place, or a fault stopped it. *)
Definition contents (l : list (name * bytes)) : list (name * res bytes) := (fun nb => (nb.1, Ok nb.2)) <$> l.

Lemma stage_all_ok l : forall made d,
  NoDup l.*1 -> (forall n, n ∈ l.*1 -> d_names d !! n = None) ->
  exists r made' d', stage_all (contents l) made d = (Ok (r, made'), d') /\
    frame l.*1 d d' /\ made' ⊆ made ++ l.*1 /\
    match r with
    | Ok _ => d_script d' ⊆ d_script d /\
              forall n bs, (n, bs) ∈ l -> exists x, d_names d' !! n = Some x /\ file_is (n_file x) bs
    | Err (Errno e) => faults (d_script d) e
    | Err _ => False
    end.
Proof.
  induction l as [|[n bs] l IH]; intros made d Hnd Hn.
  { exists (Ok tt), made, d. split; [done|]. split; [done|]. csimpl. rewrite app_nil_r.
    split; [done|]. split; [done|]. by intros ? ? ?%not_elem_of_nil. }
  csimpl in *. apply NoDup_cons in Hnd as [Hni Hnd].
  assert (forall d', frame [n] d d' -> frame (n :: l.*1) d d') as Hmono
    by (intros d'; apply frame_mono; set_solver).
  pose proof (create_excl_attempt n d (Hn n (list_elem_of_here _ _))) as Hc. unfold attempt in Hc.
  destruct (create_excl n d) as [[[]|[e| |]] d1]; try done.
  2:{ destruct Hc as [Hf Hfr]. eexists _, _, _. split; [reflexivity|]. split; [auto|]. split; [set_solver|done]. }
  destruct Hc as [S1 [Hfr1 (x & Hx & Hxe)]].
  pose proof (stage_file_attempt n x bs d1 Hx Hxe) as Hw. unfold attempt in Hw.
  destruct (stage_file n (Ok bs) d1) as [[[]|[e| |]] d2]; try done.
  2:{ destruct Hw as [[k Hf] Hfr2]. eexists _, _, _. split; [reflexivity|].
      split; [apply Hmono; apply (frame_mono ([n] ++ [n])); [set_solver|by eapply frame_trans]|].
      split; [set_solver|]. exists k. by apply S1. }
  destruct Hw as [S2 [Hfr2 (y & Hy & Hyb)]].
  assert (frame [n] d d2) as Hfr by (apply (frame_mono ([n] ++ [n])); [set_solver|by eapply frame_trans]).
  destruct (IH (made ++ [n]) d2 Hnd) as (r & made' & d3 & Hrun & Hfr3 & Hm & Hr).
  { intros m Hin. rewrite Hfr; [apply Hn; by right|]. intros ->%list_elem_of_singleton. done. }
  exists r, made', d3. split; [exact Hrun|]. split; [exact (frame_trans [n] l.*1 _ _ _ Hfr Hfr3)|].
  split; [by rewrite <- app_assoc in Hm|]. destruct r as [|[e| |]]; try done.
  - destruct Hr as [S3 Hr]. split; [by do 2 (etrans; [eassumption|])|].
    intros m cs [[= -> ->]|Hin]%elem_of_cons; [|by apply Hr]. exists y. split; [|done]. by rewrite Hfr3.
  - destruct Hr as [k Hk]. exists k. by apply S1, S2.
Qed.

Lemma drop_names_frame l d : exists d', drop_names l d = (Ok tt, d') /\ frame l d d' /\ d_script d' ⊆ d_script d.
Proof.
  revert d. induction l as [|n l IH]; intros d; [by exists d|]. cbn [drop_names].
  assert (exists d1, drop_name n d = (Ok tt, d1) /\ frame [n] d d1 /\ d_script d1 ⊆ d_script d) as (d1 & E1 & H1 & S1).
  { unfold drop_name, unlink_name, dir_sync, dir_step, mbind, io_bind, io_run.
    pose proof (next_outcome_spec (d_script d)) as Ho.
    destruct (next_outcome (d_script d)) as [[|k e] s]; destruct Ho as [Hsub _]; simpl; [|by eexists].
    destruct (d_names d !! n) eqn:Hn; simpl; [|by eexists]. eexists. split; [done|]. split; [|done].
    intros m Hm. simpl. rewrite lookup_delete_ne; [done|]. intros ->. apply Hm, list_elem_of_here. }
  destruct (IH d1) as (d2 & E2 & H2 & S2). exists d2. split; [by rewrite (io_step _ _ d tt d1)|].
  split; [exact (frame_trans [n] l _ _ _ H1 H2)|by etrans].
Qed.

Lemma cleanup_frame alive l d : exists d', cleanup alive l d = (Ok tt, d') /\ frame l d d' /\ d_script d' ⊆ d_script d.
Proof. unfold cleanup. destruct alive; [apply drop_names_frame|by exists d]. Qed.

(** ** A creation from nothing *)

Section create.
Context (h : HeaderTrailer) (Hh : pair_header h) (alive : bool).

Definition staged : list (name * bytes) :=
  [(Stage PData (ht_uuid h), raw_header h); (Stage PIndex (ht_uuid h), raw_header (index_header h));
   (Intent (ht_uuid h), create_bytes h)].

Lemma stages_contents : stages h = contents staged.
Proof.
  destruct Hh as (_ & _ & _ & _ & _ & _ & Hok). unfold stages, staged, contents. csimpl.
  destruct (create_intent_ok h Hok) as [-> _].
  destruct (parse_serialize h Hok) as (b & Hb & _).
  destruct (parse_serialize _ (index_header_ok h Hok)) as (c & Hc & _).
  unfold raw_header. by rewrite Hb, Hc.
Qed.

(** What any stop of a creation leaves. *)
Definition interrupted (d : dir) : Prop := blank d \/ creating h d \/ created h d.

Lemma create_publish_attempt made d :
  blank d -> Forall staging made ->
  (forall n bs, (n, bs) ∈ staged -> exists x, d_names d !! n = Some x /\ file_is (n_file x) bs) ->
  attempt d_script (create_publish true false alive h made) d
    (fun p d' => pair_ok p [] /\ p_header p = h /\ created h d') interrupted.
Proof.
  intros Hb Hm Hs. unfold create_publish.
  destruct (Hs (Intent (ht_uuid h)) (create_bytes h)) as (i & Hi & Hib); [unfold staged; in_fields|].
  pose proof Hb as (B1 & B2 & B3).
  pose proof (link_bind d (fun (_ : unit) d' => creating h d') (frame [] d) (fun s => frame_refl [] d)
    (Intent (ht_uuid h)) Init i mret Hi B1) as Hl.
  assert (attempt d_script (link_name (Intent (ht_uuid h)) Init) d (fun _ d' => creating h d') (frame [] d)) as Hlink.
  { eapply attempt_as; [symmetry; apply io_bind_ret|]. apply Hl. intros s. apply attempt_ret.
    split; [exists i; split; [apply lookup_insert_eq|done]|]. cbn [d_names dset_names].
    split; [by rewrite lookup_insert_ne|]. intros p. right. rewrite !lookup_insert_ne by done. split; [done|].
    destruct p; [apply (Hs _ (raw_header h))|apply (Hs _ (raw_header (index_header h)))]; unfold staged; in_fields. }
  clear Hl. unfold attempt in *. destruct (link_name _ _ d) as [[[]|[e| |]] d1]; try done.
  - destruct Hlink as [S1 Hc].
    assert (attempt d_script (_ ← dir_sync; _ ← recover_creation true false; open_sync true false) d1
      (fun p d' => pair_ok p [] /\ p_header p = h /\ created h d') (fun d' => creating h d' \/ created h d')) as Hrun.
    { apply dir_sync_bind; [intros s; by left|]. intros s.
      eapply attempt_bind; [by apply (recover_creation_attempt h Hh)|]. cbv beta. intros b d2 [_ Hd2].
      apply open_sync_attempt; [done|by right]. }
    unfold attempt in Hrun. destruct ((_ ← dir_sync; _) d1) as [r d2].
    destruct (cleanup_frame alive [Intent (ht_uuid h)] d2) as (d3 & -> & F3 & S3).
    destruct r as [p|[e| |]]; try done.
    + destruct Hrun as (S2 & R1 & R2 & R3). split; [by do 2 (etrans; [eassumption|])|].
      split; [done|]. split; [done|]. destruct R3 as (I1 & I2 & I3).
      assert (forall n, match n with Intent _ => False | _ => True end -> d_names d3 !! n = d_names d2 !! n) as He.
      { intros n Hn. apply F3. intros ->%list_elem_of_singleton. done. }
      split; [by rewrite He|]. split; [by rewrite He|]. by rewrite !He.
    + destruct Hrun as [[k Hk] Hd2]. split; [exists k; by apply S1|]. right.
      by apply (creating_frame h _ d2 d3 F3).
  - destruct Hlink as [Hf F1]. destruct (cleanup_frame alive made d1) as (d2 & E2 & F2 & S2).
    rewrite (io_step _ _ d1 tt d2) by done. simpl. split; [done|]. left.
    eapply (blank_frame made); [done| |exact Hb]. exact (frame_trans [] made _ _ _ F1 F2).
Qed.

Lemma create_new_attempt d :
  blank d -> (forall p, d_names d !! Stage p (ht_uuid h) = None) -> d_names d !! Intent (ht_uuid h) = None ->
  attempt d_script (create_new true false alive h) d
    (fun p d' => pair_ok p [] /\ p_header p = h /\ created h d') interrupted.
Proof.
  intros Hb Hsn Hin. unfold create_new. rewrite stages_contents.
  assert (Forall staging staged.*1) as Hst by (unfold staged; csimpl; repeat constructor).
  destruct (stage_all_ok staged [] d) as (r & made & d1 & Hrun & Hf & Hm & Hr).
  { unfold staged. csimpl. repeat (apply NoDup_cons; split; [set_solver|]). apply NoDup_nil_2. }
  { unfold staged. csimpl. intros n Hn. repeat (apply elem_of_cons in Hn as [->|Hn]; [auto|]).
    by apply not_elem_of_nil in Hn. }
  assert (Forall staging made) as Hmade.
  { apply Forall_forall. intros n Hn. apply Hm in Hn. simpl in Hn. rewrite Forall_forall in Hst. auto. }
  pose proof (blank_frame _ _ _ Hst Hf Hb) as Hb1.
  unfold attempt. rewrite (io_step _ _ d (r, made) d1) by done. cbn [fst snd].
  destruct r as [[]|[e| |]]; try done.
  - destruct Hr as [S1 Hr]. pose proof (create_publish_attempt made d1 Hb1 Hmade Hr) as Hp. unfold attempt in Hp.
    destruct (create_publish true false alive h made d1) as [[p|[e| |]] d2]; try done.
    + destruct Hp as [S2 Hp]. split; [by etrans|done].
    + destruct Hp as [[k Hk] Hp]. split; [exists k; by apply S1|done].
  - destruct (cleanup_frame alive made d1) as (d2 & E2 & F2 & S2).
    rewrite (io_step _ _ d1 tt d2) by done. simpl. split; [done|]. left. by eapply blank_frame.
Qed.
End create.

Lemma uuid_chars_cstr u : forall i, uuid_chars i u = true -> Forall (fun b => 0 < b < 256) u.
Proof.
  induction u as [|c u IH]; intros i H; [constructor|]. cbn [uuid_chars] in H.
  apply andb_true_iff in H as [Hc H]. constructor; [|by eapply IH].
  revert Hc. unfold is_xdigit. case_if; intros Hc; bool_hyps; lia.
Qed.

Lemma new_header_ok vs uuid :
  0 < vs -> vs mod kAlignment = 0 -> vs / kAlignment <= kMaxOffset -> valid_uuid uuid = true ->
  pair_header (new_header vs uuid).
Proof.
  intros Hv Hm Hmax Hu. pose proof Hu as Hu'. unfold valid_uuid in Hu'. apply andb_true_iff in Hu' as [Hl Hc].
  apply Z.eqb_eq in Hl. apply uuid_chars_cstr in Hc.
  assert (vs < 2 ^ 64).
  { unfold kMaxOffset, kAlignment in *. pose proof (Z.div_mod vs 512 ltac:(lia)). lia. }
  unfold pair_header, ht_ok, cstr_ok, is_byte, new_header. cbn.
  repeat split; try done; try lia; try (by left); constructor.
Qed.

Lemma lock_attempt d (F : dir -> Prop) :
  (forall s, F (dset_script d s)) ->
  attempt d_script lock_workspace d (fun _ d' => exists s, d' = dset_script d s) F.
Proof.
  intros HF. unfold lock_workspace. do 2 (apply dir_sync_bind; [done|]; intros ?).
  eapply attempt_as; [symmetry; apply io_bind_ret|]. apply dir_sync_bind; [done|]. intros s'.
  apply attempt_ret. by exists s'.
Qed.

Lemma create_blank_attempt alive uuid vs d :
  let h := new_header vs uuid in
  pair_header h -> blank d -> (forall p, d_names d !! Stage p uuid = None) -> d_names d !! Intent uuid = None ->
  attempt d_script (create_sync true false alive uuid vs) d
    (fun p d' => pair_ok p [] /\ p_header p = h /\ created h d') (interrupted h).
Proof.
  intros h Hh Hb Hst Hin. unfold create_sync. eapply attempt_bind; [by apply lock_attempt; left|].
  cbv beta. intros [] d1 [s1 ->]. cbn [negb].
  eapply attempt_bind with (P := fun b d' => b = false /\ d' = dset_script d s1).
  { unfold attempt. rewrite recover_none by apply Hb. by split. }
  pose proof Hb as (B1 & B2 & B3).
  intros b d2 [-> ->]. apply lookup_bind, lookup_bind. cbn [d_names dset_script]. rewrite !B3.
  rewrite !bool_decide_false by (by intros [? [=]]). cbn [orb].
  eapply attempt_lift_bind; [exact (new_pair_valid h Hh)|].
  by apply (create_new_attempt h Hh alive (dset_script d s1)).
Qed.

(** A creation that finds an intent finishes it. *)
Lemma create_resume_attempt alive uuid h d :
  pair_header h -> creating h d ->
  attempt d_script (create_sync true false alive uuid (ht_virtual_size h)) d
    (fun p d' => pair_ok p [] /\ p_header p = h /\ created h d') (fun d' => creating h d' \/ created h d').
Proof.
  intros Hh Hc. unfold create_sync. eapply attempt_bind; [by apply lock_attempt; left|].
  cbv beta. intros [] d1 [s1 ->]. cbn [negb].
  eapply attempt_bind; [by apply (recover_creation_attempt h Hh)|]. cbv beta. intros b d2 [-> Hd2].
  eapply attempt_bind; [apply (open_sync_attempt h Hh); by right|]. cbv beta. intros p d3 (P1 & P2 & P3).
  rewrite P2, Z.eqb_refl. by apply attempt_ret.
Qed.

(** C12. Creating a pair is a transaction.  Stopped anywhere, also by the death
    of the process, it leaves nothing published, or an intent from which every
    later open or creation completes it, or the finished pair.  What opens is
    the empty pair of the requested capacity and identity; before the intent
    is out an open finds nothing. *)
Theorem create_crash_recovery alive uuid vs d s :
  0 < vs -> vs mod kAlignment = 0 -> vs / kAlignment <= kMaxOffset -> valid_uuid uuid = true ->
  blank d -> (forall p, d_names d !! Stage p uuid = None) -> d_names d !! Intent uuid = None ->
  let h := new_header vs uuid in
  let '(r, d') := create_sync true false alive uuid vs d in
  match r with
  | Ok p => pair_ok p [] /\ p_header p = h /\ created h d'
  | Err f => any_errno f /\ interrupted h d' /\ d_script d <> []
  end /\
  (blank d' -> open_sync true false (dset_script d' s) = (Err (Errno ENOENT), dset_script d' s)) /\
  (~ blank d' ->
     attempt d_script (open_sync true false) (dset_script d' s)
       (fun p d2 => pair_ok p [] /\ p_header p = h /\ created h d2) (fun d2 => creating h d2 \/ created h d2)) /\
  (forall uuid', creating h d' ->
     attempt d_script (create_sync true false alive uuid' vs) (dset_script d' s)
       (fun p d2 => pair_ok p [] /\ p_header p = h /\ created h d2) (fun d2 => creating h d2 \/ created h d2)).
Proof.
  intros Hv Hm Hmax Hu Hb Hst Hin h. pose proof (new_header_ok vs uuid Hv Hm Hmax Hu) as Hh. fold h in Hh.
  pose proof (create_blank_attempt alive uuid vs d Hh Hb Hst Hin) as Hc. fold h in Hc.
  pose proof (attempt_succeeds _ _ _ _ _ Hc) as Hsucc. apply attempt_result in Hc.
  destruct (create_sync true false alive uuid vs d) as [r d'].
  assert (interrupted h d') as Hi by (destruct r; destruct Hc as [? Hc]; [right; right; apply Hc|apply Hc]).
  split; [|split_and!].
  - destruct r as [p|f]; [done|]. destruct Hc as [He _]. split; [done|]. split; [done|].
    intros Hs. by destruct (Hsucc Hs) as (a & w & [=] & _).
  - intros Hbl. unfold open_sync. rewrite (io_step _ _ _ false (dset_script d' s)) by by apply recover_none, Hbl.
    destruct Hbl as (_ & _ & B3). unfold open_files, lookup_name, mbind, io_bind. cbn. by rewrite B3.
  - intros Hn. apply (open_sync_attempt h Hh (dset_script d' s)). by destruct Hi as [|[|]]; [|left|right].
  - intros uuid' Hcr. by apply (create_resume_attempt alive uuid' h (dset_script d' s)).
Qed.

Definition empty_dir (s : script) : dir := Dir s ∅ 1.

Lemma empty_dir_none s n : d_names (empty_dir s) !! n = None.
Proof. apply lookup_empty. Qed.
Lemma empty_dir_blank s : blank (empty_dir s).
Proof. split; [apply empty_dir_none|]. split; [apply empty_dir_none|]. intros p. apply empty_dir_none. Qed.

Lemma create_crash_recovery_witness :
  let h := new_header 1048576 example_uuid in
  let '(r, d') := create_sync true false false example_uuid 1048576
                    (empty_dir (replicate 15 Done ++ [Failed 0 EIO])) in
  is_ok r = false /\ ~ blank d' /\
  attempt d_script (open_sync true false) (dset_script d' [])
    (fun p d2 => pair_ok p [] /\ p_header p = h /\ created h d2) (fun d2 => creating h d2 \/ created h d2).
Proof.
  pose proof (create_crash_recovery false example_uuid 1048576 (empty_dir (replicate 15 Done ++ [Failed 0 EIO])) []
    ltac:(lia) ltac:(by vm_compute) ltac:(by vm_compute) ltac:(by vm_compute)
    (empty_dir_blank _) (fun p => empty_dir_none _ _) (empty_dir_none _ _)) as H.
  assert (match create_sync true false false example_uuid 1048576 (empty_dir (replicate 15 Done ++ [Failed 0 EIO])) with
    | (r, d') => (is_ok r, bool_decide (is_Some (d_names d' !! Init)))
    end = (false, true)) as Hx by (vm_compute; reflexivity).
  cbv zeta in *. set (x := create_sync _ _ _ _ _ _) in *. clearbody x. destruct x as [r d'].
  injection Hx as Hr Hi. apply bool_decide_eq_true in Hi as [i Hi].
  assert (~ blank d') as Hn by (intros (B & _); by rewrite B in Hi).
  split; [done|]. split; [done|]. by apply H.
Defined.
