(* ===== verification/Commit.v ===== *)
(** * Opening, migrating and committing an upper layer by path
    ([FilePair::migrate_sync] of [format/lsmt_rw_file.cpp];
    [LsmtRwLayer::open_or_create] and [seal_file] of [format/lsmt_rw.cpp])

    A checkpoint written by the format without a journal has its index at the
    end of the payload file: migration writes that index as the first log of a
    new journal and leaves the payload alone.  [seal_file] opens the upper by
    whichever of the two layouts it has, re-baselines its size on request, seals
    it and hashes the result. *)
From stdpp Require Import gmap.
From S2P Require Import Prelude Bytes Crc32c LsmtFormat Source File Segments Merge Trim Lsmt Journal FilePair PairGrow LsmtRw LsmtRwGrow Writer LayerFile Seal PairCreate.

Open Scope Z_scope.

Section paths.
Context (colocated aliased : bool) (sha256_hex : bytes -> bytes).

(** ** Migration *)

(** The tests on the trailer of a legacy checkpoint. *)
Definition legacy_tail (dh tail : HeaderTrailer) (data_bytes : Z) : bool :=
  negb (negb (ht_flags tail =? 2) || negb (ht_version tail =? 1) || negb (ht_sub_version tail =? 1) ||
        negb (bool_decide (ht_uuid tail = ht_uuid dh)) ||
        negb (bool_decide (ht_parent_uuid tail = ht_parent_uuid dh)) ||
        negb (ht_virtual_size tail =? ht_virtual_size dh) || (ht_index_offset tail <? kSpace) ||
        negb (ht_index_offset tail mod kAlignment =? 0) ||
        (data_bytes - kSpace <? ht_index_offset tail) ||
        (kMaxRoIndexSize <? ht_index_size tail) ||
        (u64 (data_bytes - kSpace - ht_index_offset tail) <? u64 (ht_index_size tail * 16))).

(** The records of one chunk, in order and with placeholders in range. *)
Fixpoint legacy_records (tail : HeaderTrailer) (previous : Z) (l : list segment_mapping) : res Z :=
  match l with
  | [] => Ok previous
  | m :: l =>
      if s_offset m =? kInvalidOffset then legacy_records tail previous l else
      if (s_offset m <? previous) ||
         (s_zeroed m && ((s_moffset m <? kDataStartSector) ||
                         (ht_index_offset tail / kAlignment <? s_moffset m)))
      then format_error else legacy_records tail (seg_end m) l
  end.

Fixpoint legacy_loop (fuel : nat) (data : node) (tail : HeaderTrailer) (offset previous : Z) (r : Replay)
  : io dir Replay :=
  if offset <? ht_index_size tail * 16 then
    match fuel with
    | O => io_fail Fuel
    | S fuel =>
        let count := Z.min kSpace (ht_index_size tail * 16 - offset) in
        raw ← node_read data (ht_index_offset tail + offset) count;
        previous ← io_lift (legacy_records tail previous (load_records raw));
        r ← io_lift (replay_append r raw);
        legacy_loop fuel data tail (offset + count) previous r
    end
  else mret r.

(** A [write_exact] into a file no one else sees. *)
Definition dir_write (f : file) (off : Z) (bs : bytes) : io dir file := _ ← dir_sync; mret (file_write f off bs).

(** The records, a block of 4096 bytes at a time. *)
Fixpoint migrate_records (f : file) (off : Z) (buffered : bytes) (live : list segment_mapping) : io dir file :=
  match live with
  | [] => if zlen buffered =? 0 then mret f else dir_write f off buffered
  | m :: live =>
      let buffered := buffered ++ encode_record m in
      if zlen buffered =? kSpace
      then f ← dir_write f off buffered; migrate_records f (off + zlen buffered) [] live
      else migrate_records f off buffered live
  end.

(** [sealed_trailer] of a file that is open in the directory. *)
Definition dir_sealed_trailer (x : node) : io dir bool := on_files x (Node 0 empty_file) (sealed_trailer (n_file x)).

(** Reading and replaying the checkpoint of [data]. *)
Definition legacy_index (data : node) : io dir (HeaderTrailer * list segment_mapping) :=
  let data_bytes := f_size (n_file data) in
  if (data_bytes <? 2 * kSpace) || negb (data_bytes mod kAlignment =? 0) then io_lift format_error else
  raw ← node_read data 0 kSpace;
  dh ← io_lift (parse raw);
  sealed ← (if is_sealed dh then mret true else dir_sealed_trailer data);
  if (sealed : bool) then io_fail (Errno EALREADY) else
  raw ← node_read data (data_bytes - kSpace) kSpace;
  tail ← io_lift (parse raw);
  if negb (legacy_tail dh tail data_bytes) then io_lift format_error else
  _ ← io_lift (validate_pair dh (index_header dh) data_bytes kSpace);
  replay ← io_lift (replay_new (ht_virtual_size dh) (ht_index_offset tail));
  replay ← legacy_loop (Z.to_nat (ht_index_size tail)) data tail 0 0 replay;
  live ← io_lift (replay_finish replay);
  mret (dh, live).

(** The new index, linked in without replacing anything. *)
Definition publish_index (f : file) : io dir unit :=
  _ ← dir_sync;
  io_run (fun d => match d_names d !! Live PIndex with
                   | Some _ => (Err (Errno EEXIST), d)
                   | None => (Ok tt, Dir (d_script d) (<[Live PIndex := Node (d_next d) f]> (d_names d)) (d_next d + 1))
                   end).

Definition migrate_legacy (data : node) : io dir unit :=
  '(dh, live) ← legacy_index data;
  _ ← dir_sync;                                       (* create the temporary *)
  _ ← dir_sync;                                       (* lock it *)
  _ ← dir_sync;                                       (* sync the payload *)
  raw ← io_lift (serialize (index_header dh));
  f ← dir_write empty_file 0 raw;
  f ← migrate_records f kSpace [] live;
  _ ← dir_sync;                                       (* sync the index *)
  _ ← publish_index f;
  dir_sync.                                           (* directory *)

(** [open_sync] of a pair whose descriptors are open and locked. *)
Definition open_locked : io dir FilePair :=
  _ ← recover_creation colocated aliased;
  data ← lookup_name (Live PData);
  index ← lookup_name (Live PIndex);
  match data, index with
  | Some data, Some index => on_files data index pair_open
  | _, _ => io_fail (Errno ENOENT)
  end.

Definition migrate_sync : io dir FilePair :=
  _ ← lock_workspace;
  _ ← recover_creation colocated aliased;
  index ← lookup_name (Live PIndex);
  match index with
  | Some _ => open_sync colocated aliased
  | None =>
      data ← lookup_name (Live PData);
      match data with
      | None => io_fail (Errno ENOENT)
      | Some data =>
          _ ← dir_sync;                               (* lock *)
          _ ← migrate_legacy data;
          open_locked
      end
  end.

(** ** The layer by path *)

(** [from_pair] and what an operation of the layer left in the directory. *)
Definition put_layer (d : dir) (w : LsmtRwLayer) : dir := put_pair_files d (rw_pair w).

(** Migration first; a missing pair is created unless it must exist, and the
    creation may lose a race. *)
Definition open_layer (alive : bool) (uuid : bytes) (minimum_size : Z) (existing_only : bool)
  : io dir LsmtRwLayer := fun d =>
  match migrate_sync d with
  | (Ok p, d) => (Ok (from_pair p), d)
  | (Err f, d) =>
      if existing_only || negb (bool_decide (f = Errno ENOENT)) then (Err f, d) else
      match create_sync colocated aliased alive uuid minimum_size d with
      | (Ok p, d) => (Ok (from_pair p), d)
      | (Err f, d) =>
          if negb (bool_decide (f = Errno EEXIST)) then (Err f, d)
          else (p ← migrate_sync; mret (from_pair p)) d
      end
  end.

Definition grow_opened (minimum_size : Z) (layer : LsmtRwLayer) : io dir LsmtRwLayer := fun d =>
  match LsmtRwGrow.grow minimum_size layer with
  | (Ok _, layer) => (Ok layer, put_layer d layer)
  | (Err f, layer) => (Err f, put_layer d layer)
  end.

Definition open_or_create (alive : bool) (uuid : bytes) (minimum_size : Z) (existing_only : bool)
  : io dir LsmtRwLayer :=
  layer ← open_layer alive uuid minimum_size existing_only;
  if rw_vsize layer <? minimum_size then
    if existing_only then io_fail (Errno EINVAL) else grow_opened minimum_size layer
  else mret layer.

(** ** Committing *)

(** The end of the content, in bytes. *)
Definition content_extent (segs : list segment_mapping) : Z :=
  foldl (fun e s => Z.max e (u64 (seg_end s * kSector))) 0 segs.

Definition rebaseline (w : LsmtRwLayer) (virtual_size : Z) : res LsmtRwLayer :=
  if 0 <? virtual_size then
    if negb (virtual_size mod kSector =? 0) then Err (Errno EINVAL) else
    if virtual_size <? rw_vsize w then Err (Errno EINVAL) else
    if virtual_size <? content_extent (rw_segments w) then Err (Errno EINVAL) else
    Ok (set_vsize w virtual_size)
  else Ok w.

(** The second pass over the sealed file. *)
Fixpoint hash_loop (fuel : nat) (f : file) (off : Z) (hashed : bytes) : io dir bytes :=
  if off <? f_size f then
    match fuel with
    | O => io_fail Fuel
    | S fuel =>
        let n := Z.min (Z.shiftl 1 20) (f_size f - off) in
        bs ← node_read (Node 0 f) off n;
        hash_loop fuel f (off + n) (hashed ++ bs)
    end
  else mret hashed.

(** An operation of the layer; a sealed layer has a new payload file. *)
Definition put_sealed (d : dir) (w : LsmtRwLayer) : dir :=
  let d := put_layer d w in
  if rw_sealed w
  then Dir (d_script d) (alter (fun x => Node (d_next d) (n_file x)) (Live PData) (d_names d)) (d_next d + 1)
  else d.
Definition on_layer (m : io LsmtRwLayer unit) (w : LsmtRwLayer) : io dir LsmtRwLayer := fun d =>
  let '(r, w) := m w in (_ ← r; Ok w, put_sealed d w).

(** The digest and the size of the sealed file. *)
Definition seal_file (user_tag : bytes) (virtual_size : Z) : io dir (bytes * Z) :=
  p ← migrate_sync;
  w ← io_lift (rebaseline (from_pair p) virtual_size);
  w ← on_layer (seal sha256_hex user_tag) w;
  let f := rw_data w in
  _ ← dir_sync;                                       (* open the sealed file *)
  bs ← hash_loop (Z.to_nat (f_size f)) f 0 [];
  mret (sha256_hex bs, f_size f).

(** ** What a commit leaves *)

(** Opened as a read-only layer, [f] has [size] bytes and reads as [view]. *)
Definition layer_reads {W} (v : W) (f : file) (size : Z) (view : Z -> Z) : Prop :=
  exists layer,
    open (Some (file_source f)) v = (Ok layer, v) /\ virtual_size layer = size /\
    forall m, merged_open [layer] = Ok m ->
    forall count off, 0 <= count -> 0 <= off -> count mod 512 = 0 -> off mod 512 = 0 ->
      io_spec (fun _ => False) (merged_pread m count off)
        (fun out => out = slice view off (avail size count off)).

(** The upper is still there, with its log and its content. *)
Definition uncommitted (h : HeaderTrailer) (log : list segment_mapping) (view : Z -> Z) (d : dir) : Prop :=
  exists x y,
    d_names d !! Init = None /\ d_names d !! Grow = None /\
    d_names d !! Live PData = Some x /\ d_names d !! Live PIndex = Some y /\
    disk_log (n_file x) (n_file y) h log /\ forall i, index_view (n_file x) (log_live log) i = view i.

Definition committed {W} (v : W) (size : Z) (view : Z -> Z) (d : dir) : Prop :=
  exists z, d_names d !! Live PData = Some z /\ layer_reads v (n_file z) size view.

(** ** The parts *)

Lemma hash_loop_attempt fuel f d off hashed (F : dir -> Prop) :
  0 <= off <= f_size f -> f_size f - off <= Z.of_nat fuel -> (forall s, F (dset_script d s)) ->
  attempt d_script (hash_loop fuel f off hashed) d
    (fun bs d' => bs = hashed ++ slice (f_byte f) off (f_size f - off) /\ exists s, d' = dset_script d s) F.
Proof.
  revert d off hashed. induction fuel as [|fuel IH]; intros d off hashed Ho Hf HF.
  - assert (off = f_size f) as -> by lia. cbn [hash_loop]. rewrite Z.ltb_irrefl. apply attempt_ret.
    rewrite Z.sub_diag. split; [by rewrite app_nil_r|]. exists (d_script d). by destruct d.
  - cbn [hash_loop]. destruct (Z.ltb_spec off (f_size f)) as [Hlt|].
    + cbv zeta. change (Z.shiftl 1 20) with 1048576. set (n := Z.min _ _).
      assert (0 < n <= f_size f - off) as Hn by (unfold n; lia).
      eapply node_read_bind; [exact HF|lia|lia|simpl; lia|reflexivity|]. intros s.
      eapply attempt_mono; [apply (IH (dset_script d s)); [lia|lia|exact (fun s' => HF s')]| |done].
      cbv beta. intros bs d' [-> [s' ->]]. split; [|by exists s'].
      rewrite <- app_assoc. f_equal. cbn [n_file]. replace (f_size f - off) with (n + (f_size f - (off + n))) by lia. by rewrite slice_app by lia.
    + assert (off = f_size f) as -> by lia. apply attempt_ret. rewrite Z.sub_diag.
      split; [by rewrite app_nil_r|]. exists (d_script d). by destruct d.
Qed.

(** The upper that has its journal is opened as it is. *)
Lemma migrate_upper h log d x y :
  upper h log d x y -> f_size (n_file x) < 2 ^ 64 ->
  attempt d_script migrate_sync d
    (fun p d' => opened (n_file x) h log p /\ exists d1, upper h log d1 x y /\ d' = put_pair_files d1 p)
    (fun d' => exists x' y', upper h log d' x' y' /\ n_file x' = n_file x).
Proof.
  intros Hu H64. unfold migrate_sync.
  eapply attempt_bind; [apply lock_attempt; intros s; exists x, y; by destruct Hu|].
  cbv beta. intros [] d1 [s ->]. assert (upper h log (dset_script d s) x y) as Hu1 by by destruct Hu.
  set (d1 := dset_script d s) in *. clearbody d1. destruct Hu1 as [U1 U2 U3 U4 U5].
  assert (recover_creation colocated aliased d1 = (Ok false, d1)) as Hrec by by apply recover_none.
  eapply attempt_as; [exact (io_step _ _ _ _ _ Hrec)|]. apply lookup_bind. rewrite U4. unfold open_sync.
  eapply attempt_as; [exact (io_step _ _ _ _ _ Hrec)|]. by apply open_files_upper.
Qed.

Lemma content_extent_le segs v :
  0 <= v < 2 ^ 64 -> Forall seg_ok segs -> Forall (fun s => fin s <= v / 512) segs -> content_extent segs <= v.
Proof.
  intros Hv Hok Hends. unfold content_extent. assert (0 <= v) as H0 by lia. revert H0. generalize 0 at 1 2 as e.
  induction segs as [|s segs IH]; intros e He0; simpl; [done|].
  apply Forall_cons in Hok as [(O & L & _) Hok], Hends as [Hfin Hends]. apply IH; [done|done|].
  unfold seg_end, fin, kSector, kMaxOffset, kMaxLength in *. pose proof (Z.mul_div_le v 512 ltac:(lia)).
  rewrite (u64_small (s_offset s + _)) by lia. rewrite u64_small by lia. lia.
Qed.

Definition rebase_size (w : LsmtRwLayer) (vs : Z) : Z := if 0 <? vs then vs else rw_vsize w.
Definition rebase_refused (size vs : Z) : bool := (0 <? vs) && (negb (vs mod kSector =? 0) || (vs <? size)).

Lemma rebaseline_spec w log vs :
  rw_ok w log ->
  rebaseline w vs = if rebase_refused (rw_vsize w) vs then Err (Errno EINVAL)
                    else Ok (set_vsize w (rebase_size w vs)).
Proof.
  intros Hok. destruct (rw_ok_vsize w log Hok) as (V1 & V2 & V3). pose proof (rw_ok_end_sectors w log Hok) as He.
  destruct (ro_wf _ _ Hok) as [[L1 _ _ _] _ _ _]. pose proof (index_ok_ends 0 _ L1) as Hends.
  assert (content_extent (rw_segments w) <= rw_vsize w) as Hext.
  { apply content_extent_le; [done|apply L1|]. eapply Forall_impl; [exact Hends|]. intros s Hs. simpl in Hs. lia. }
  unfold rebaseline, rebase_refused, rebase_size. destruct (0 <? vs); cbn [andb]; [|by destruct w].
  destruct (negb (vs mod kSector =? 0)); [done|]. cbn [orb]. destruct (Z.ltb_spec vs (rw_vsize w)); [done|].
  by rewrite (proj2 (Z.ltb_ge _ _)) by lia.
Qed.

Lemma seal_ready_vsize w v : seal_ready w -> 0 <= v < 2 ^ 64 -> seal_ready (set_vsize w v).
Proof. intros [] Hv. by split. Qed.

Lemma padded_bytes f f' : padded f f' -> file_bytes f -> file_bytes f'.
Proof. intros (_ & _ & Hp) Hb i. destruct (Hp i) as [->| ->]; [done|]. unfold is_byte. lia. Qed.

Lemma on_layer_attempt m w d (Q : LsmtRwLayer -> dir -> Prop) (F : dir -> Prop) :
  d_script d = rw_script w ->
  attempt rw_script m w (fun _ w' => Q w' (put_sealed d w')) (fun w' => F (put_sealed d w')) ->
  attempt d_script (on_layer m w) d Q F.
Proof.
  intros Hs. unfold attempt, on_layer. assert (forall w', d_script (put_sealed d w') = rw_script w') as Hp.
  { intros w'. unfold put_sealed, put_layer. by destruct (rw_sealed w'). }
  destruct (m w) as [[[]|[e| |]] w']; try done; rewrite Hs; intros [H1 H2]; (split; [|exact H2]); [by rewrite Hp|done].
Qed.

Lemma put_sealed_data d w x :
  d_names d !! Live PData = Some x ->
  exists z, d_names (put_sealed d w) !! Live PData = Some z /\ n_file z = rw_data w.
Proof.
  intros Hx.
  assert (d_names (put_layer d w) !! Live PData = Some (Node (n_ino x) (rw_data w))) as Hp.
  { unfold put_layer, put_pair_files. cbn [d_names].
    destruct (p_grow (rw_pair w)); rewrite ?lookup_delete_ne by done; rewrite lookup_alter_ne by done;
      by rewrite lookup_alter_eq, Hx. }
  unfold put_sealed. destruct (rw_sealed w); [|eauto]. cbn [d_names]. rewrite lookup_alter_eq, Hp. simpl. eauto.
Qed.

Lemma uncommitted_put h log view d p x y :
  d_names d !! Init = None -> d_names d !! Live PData = Some x -> d_names d !! Live PIndex = Some y ->
  p_grow p = None -> disk_log (p_data p) (p_index p) h log ->
  (forall i, index_view (p_data p) (log_live log) i = view i) -> uncommitted h log view (put_pair_files d p).
Proof.
  intros Hi Hx Hy Hg Hd Hv. destruct (put_files_names d p x y Hx Hy Hg) as (E1 & E2 & E3 & E4).
  eexists _, _. rewrite E1, E2, E3, (E4 Init) by done. by split_and!.
Qed.

Lemma seal_done_size w0 tag w : seal_done w0 tag w -> 0 <= f_size (rw_data w).
Proof.
  intros (_ & _ & _ & _ & _ & _ & sector & _ & _ & [ioff Hf] & _). pose proof (sf_size _ _ _ _ Hf).
  pose proof (sf_offset _ _ _ _ Hf). pose proof (zlen_nonneg (rw_segments w)).
  unfold kSpace, kEncodedSize in *. lia.
Qed.

Section commit.
Context {W : Type} (v : W) (h : HeaderTrailer) (log : list segment_mapping) (x y : node) (tag : bytes) (vs : Z).
Context (Hsha : forall b, cstr_ok 65 (sha256_hex b) /\ zlen (sha256_hex b) = 64).
Context (Hroom : data_sectors (n_file x) + 1 < kMaxMoffset) (Hbytes : file_bytes (n_file x)).
Context (Hcount : zlen (log_live log) <= kMaxRoIndexSize) (Htag : cstr_ok 256 tag).
Context (Hvs : vs / 512 <= kMaxOffset).

Let view := index_view (n_file x) (log_live log).
Let size := if 0 <? vs then vs else ht_virtual_size h.

(** The layer that was opened, ready to be sealed at its new size. *)
Lemma opened_ready p :
  disk_log (n_file x) (n_file y) h log -> opened (n_file x) h log p ->
  let w := from_pair p in
  rw_ok w log /\ rw_vsize w = ht_virtual_size h /\ p_header p = h /\ p_grow p = None /\
  (forall i, rw_view w i = view i) /\ disk_log (p_data p) (p_index p) h log /\
  (rebase_refused (ht_virtual_size h) vs = false ->
   seal_ready (set_vsize w size) /\ size mod 512 = 0 /\ size / 512 <= kMaxOffset).
Proof.
  intros Hd Ho w. destruct (opened_layer _ _ _ _ _ Hd Ho Hroom) as [Hok Hview]. fold w in Hok, Hview.
  destruct (rw_ok_vsize w log Hok) as (V1 & V2 & V3).
  destruct Ho as (Em & Eh & (_ & _ & Hg) & _ & Hpad & _).
  assert (rw_vsize w = ht_virtual_size h) as Ev by (cbn; by rewrite Eh).
  split; [done|]. split; [done|]. split; [done|]. split; [done|]. split; [exact Hview|]. split.
  { rewrite <- Eh. apply (pair_ok_disk p); [apply (ro_pair _ _ Hok)|]. apply (do_inj _ _ _ _ Hd). }
  intros Hr. rewrite Ev in *.
  assert (0 <= size < 2 ^ 64 /\ size mod 512 = 0 /\ size / 512 <= kMaxOffset) as (S1 & S2 & S3).
  { unfold rebase_refused, size, kSector in *. destruct (Z.ltb_spec 0 vs); [|done]. cbn [andb] in Hr. bool_hyps.
    split; [|done]. unfold kMaxOffset in *. pose proof (Z.div_mod vs 512 ltac:(lia)). lia. }
  split; [|done]. apply seal_ready_vsize; [|done]. apply (rw_ok_ready w log); [done| |].
  - by eapply padded_bytes.
  - cbn. by rewrite Em.
Qed.

(** A seal of the opened layer, in the directory. *)
Lemma seal_opened_attempt d1 p :
  upper h log d1 x y -> opened (n_file x) h log p -> rebase_refused (ht_virtual_size h) vs = false ->
  attempt d_script (on_layer (seal sha256_hex tag) (set_vsize (from_pair p) size)) (put_pair_files d1 p)
    (fun w' d' => committed v size view d' /\ 0 <= f_size (rw_data w') /\
       exists z, d_names d' !! Live PData = Some z /\ n_file z = rw_data w')
    (fun d' => uncommitted h log view d' \/ committed v size view d').
Proof.
  intros [U1 U2 U3 U4 [U5 _]] Ho Hr. destruct (opened_ready p U5 Ho) as (Hok & Ev & Eh & Hg & Hview & Hd & Hready).
  destruct (Hready Hr) as (Hsr & S2 & S3). set (w := set_vsize (from_pair p) size) in *.
  destruct (put_files_names d1 p x y U3 U4 Hg) as (E1 & E2 & E3 & E4). set (d2 := put_pair_files d1 p) in *.
  assert (d_names d2 !! Init = None) as E5 by by rewrite E4.
  assert (forall w', seal_done w tag w' -> sealed_for sha256_hex w tag w' ->
    committed v size view (put_sealed d2 w') /\
    0 <= f_size (rw_data w') /\ exists z, d_names (put_sealed d2 w') !! Live PData = Some z /\ n_file z = rw_data w') as Hdone.
  { intros w' Hd' _. destruct (put_sealed_data d2 w' _ E1) as (z & Hz & Ez).
    split; [|split; [by eapply seal_done_size|eauto]]. exists z. split; [done|].
    destruct (sealed_reopens w tag w' v Hd' S2 S3) as (l & L1 & _ & L2 & L3). exists l. rewrite Ez.
    split; [done|]. split; [done|]. intros m Hm count off C1 C2 C3 C4.
    eapply io_spec_mono; [by apply L3|]. cbv beta. intros out ->. apply slice_ext. intros i _. apply Hview. }
  apply on_layer_attempt; [done|].
  eapply attempt_mono; [by apply seal_attempt|..]; cbv beta.
  - intros _ w' [H1 H2]. by apply Hdone.
  - intros w' [[s ->]|[H1 H2]]; [left|right; by apply Hdone].
    apply (uncommitted_put h log view d2 (set_script p s) _ _ E5 E1 E2 Hg Hd).
    intros i. rewrite <- (Hview i). symmetry. exact (rw_view_log _ _ i Hok).
Qed.

Lemma upper_uncommitted d x' y' : upper h log d x' y' -> n_file x' = n_file x -> uncommitted h log view d.
Proof. intros [U1 U2 U3 U4 [U5 _]] E. exists x', y'. rewrite E in *. by split_and!. Qed.

Lemma migrate_opened d :
  upper h log d x y ->
  attempt d_script migrate_sync d
    (fun p d' => opened (n_file x) h log p /\ exists d1, upper h log d1 x y /\ d' = put_pair_files d1 p)
    (uncommitted h log view).
Proof.
  intros Hu. eapply attempt_mono; [apply (migrate_upper h log d x y Hu)|done|].
  - pose proof Hroom as Hrm. unfold data_sectors, kAlignment, kMaxMoffset in Hrm.
    pose proof (Z.div_mod (f_size (n_file x)) 512). pose proof (Z.mod_pos_bound (f_size (n_file x)) 512). lia.
  - cbv beta. intros d' (x' & y' & Hu' & Ex). by eapply upper_uncommitted.
Qed.

Lemma seal_file_attempt d :
  upper h log d x y -> rebase_refused (ht_virtual_size h) vs = false ->
  attempt d_script (seal_file tag vs) d
    (fun r d' => committed v size view d' /\ exists z, d_names d' !! Live PData = Some z /\
       r = (sha256_hex (slice (f_byte (n_file z)) 0 (f_size (n_file z))), f_size (n_file z)))
    (fun d' => uncommitted h log view d' \/ committed v size view d').
Proof.
  intros Hu Hr. unfold seal_file.
  eapply attempt_bind; [eapply attempt_mono; [by apply migrate_opened|intros p d' Hp; exact Hp|by left]|].
  cbv beta. intros p d' (Ho & d1 & Hu1 & ->).
  destruct (opened_ready p (proj1 (up_disk _ _ _ _ _ Hu1)) Ho) as (Hok & Ev & _).
  eapply attempt_lift_bind.
  { rewrite (rebaseline_spec _ log) by done. rewrite Ev, Hr. unfold rebase_size. rewrite Ev. reflexivity. }
  eapply attempt_bind; [by apply seal_opened_attempt|]. cbv beta zeta. intros w' d2 (Hc & Hsz & z & Hz & Ez).
  assert (forall s, committed v size view (dset_script d2 s)) as Hc' by (intros s; exact Hc).
  apply dir_sync_bind; [by right|]. intros s1. rewrite <- Ez in *.
  eapply attempt_bind; [apply (hash_loop_attempt _ _ (dset_script d2 s1)); [lia|lia|by right]|].
  cbv beta. intros bs d3 [-> [s2 ->]]. apply attempt_ret. split; [done|]. exists z. split; [done|].
  by rewrite Z.sub_0_r.
Qed.

(** A re-baseline that is refused, without I/O faults. *)
Lemma seal_file_refused d :
  upper h log d x y -> rebase_refused (ht_virtual_size h) vs = true ->
  match seal_file tag vs d with
  | (Ok _, _) => False
  | (Err f, d') => any_errno f /\ uncommitted h log view d' /\ (d_script d = [] -> f = Errno EINVAL)
  end.
Proof.
  intros Hu Hr. pose proof (migrate_opened d Hu) as Hm. pose proof (attempt_succeeds _ _ _ _ _ Hm) as Hsucc.
  apply attempt_result in Hm. unfold seal_file, mbind, io_bind. destruct (migrate_sync d) as [[p|f] d'].
  - destruct Hm as (Ho & d1 & Hu1 & ->). pose proof Hu1 as [U1 U2 U3 U4 [U5 _]].
    destruct (opened_ready p U5 Ho) as (Hok & Ev & Eh & Hg & Hview & Hd & _).
    unfold io_lift. rewrite (rebaseline_spec _ log) by done. rewrite Ev, Hr.
    split; [by eexists|]. split; [|done]. apply (uncommitted_put h log view d1 p _ _ U1 U3 U4 Hg Hd).
    intros i. rewrite <- (Hview i). symmetry. exact (rw_view_log _ _ i Hok).
  - destruct Hm as [He Hun]. split; [done|]. split; [done|]. intros Hs. by destruct (Hsucc Hs) as (? & ? & ? & _).
Qed.
End commit.

End paths.

(** ** An upper in its directory *)

Definition example_dir (h : HeaderTrailer) (s : script) : dir :=
  let p := fresh_pair h s in
  Dir s {[ Live PData := Node 1 (p_data p); Live PIndex := Node 2 (p_index p) ]} 3.

Lemma example_dir_upper h s :
  pair_header h -> upper h [] (example_dir h s) (Node 1 (p_data (fresh_pair h s))) (Node 2 (p_index (fresh_pair h s))).
Proof.
  intros Hh. split; try done. split.
  - apply (pair_ok_disk (fresh_pair h s)); [by apply fresh_pair_ok|done].
  - unfold sealed_tail. by rewrite (proj2 (Z.ltb_lt _ _)).
Qed.

