(* ===== verification/OpenTotal.v ===== *)
(** * Opening an upper layer over any directory

    The operations that read an upper back ([FilePair::open_sync],
    [migrate_sync], [create_sync] of [format/lsmt_rw_file.cpp] and
    [LsmtRwLayer::open_or_create] of [format/lsmt_rw.cpp]) on files of arbitrary
    content: the loops over a journal and over a checkpoint end, and every
    rejection is an errno. *)
From stdpp Require Import gmap.
From S2P Require Import Prelude Bytes Crc32c LsmtFormat Source File Segments Merge Trim Lsmt Journal FilePair PairGrow LsmtRw LsmtRwGrow Writer LayerFile Seal PairCreate Commit.

Open Scope Z_scope.

(** ** Computations that return or report *)

Definition ends {W A} (x : res A * W) : Prop := res_errno x.1.

Lemma ends_bind {W A B} (m : io W A) (k : A -> io W B) w :
  ends (m w) -> (forall a w', ends (k a w')) -> ends ((m ≫= k) w).
Proof.
  unfold ends, mbind, io_bind. intros Hm Hk. destruct (m w) as [[a|f] w']; [apply Hk|exact Hm].
Qed.
Lemma ends_ret {W A} (a : A) (w : W) : ends ((mret a : io W A) w).
Proof. done. Qed.
Lemma ends_lift {W A} (r : res A) (w : W) : res_errno r -> ends (io_lift r w).
Proof. done. Qed.
Lemma ends_fail {W A} f (w : W) : any_errno f -> ends (A := A) (io_fail f w).
Proof. done. Qed.
Lemma ends_pair {W A} (r : res A) (w : W) : res_errno r -> ends (r, w).
Proof. done. Qed.

Create HintDb ends.
#[export] Hint Resolve ends_ret : ends.
#[export] Hint Resolve parse_errno : errno.

(** Follows the branches of a computation; the operations it calls are hints. *)
Ltac ends :=
  repeat first
    [ solve [auto with ends errno]
    | apply ends_bind; [|intros]
    | apply ends_lift; solve [res_errno]
    | apply ends_fail; solve [auto with errno]
    | apply ends_pair; solve [res_errno]
    | match goal with
      | |- ends ((if ?b then _ else _) _) => destruct b
      | |- ends (if ?b then _ else _) => destruct b
      | |- ends ((match ?x with _ => _ end) _) => destruct x
      | |- ends (match ?x with _ => _ end) => destruct x
      | |- ends (io_run _ _) => unfold io_run
      end ].

(** ** The codecs *)

Lemma write_cstr_errno b p n s : res_errno (write_cstr b p n s).
Proof. unfold write_cstr. res_errno. Qed.
#[export] Hint Resolve write_cstr_errno : errno.
Lemma serialize_errno h : res_errno (serialize h).
Proof. unfold serialize. cbv zeta. res_errno. Qed.
Lemma validate_pair_errno a b n m : res_errno (validate_pair a b n m).
Proof. unfold validate_pair. cbv zeta. res_errno. Qed.
Lemma replay_new_errno v n : res_errno (replay_new v n).
Proof. unfold replay_new. cbv zeta. res_errno. Qed.
Lemma replay_finish_errno r : res_errno (replay_finish r).
Proof. unfold replay_finish. res_errno. Qed.
Lemma replay_append_errno r raw : res_errno (replay_append r raw).
Proof.
  unfold replay_append. case_if; [auto with errno|]. generalize (load_records raw) as l.
  generalize (Rp (rp_sectors r) (rp_data_sectors r) (rp_records r + zlen raw / kEncodedSize) (rp_live r)) as s.
  intros s l. revert s. induction l as [|m l IH]; intros s; simpl; [done|].
  assert (res_errno (replay_record s m)) as Hm by (unfold replay_record; cbv zeta; res_errno).
  destruct (replay_record s m); [apply IH|exact Hm].
Qed.
#[export] Hint Resolve serialize_errno validate_pair_errno replay_new_errno replay_finish_errno replay_append_errno : errno.

Lemma legacy_records_errno tail previous l : res_errno (legacy_records tail previous l).
Proof. revert previous. induction l as [|m l IH]; intros previous; simpl; res_errno. Qed.
#[export] Hint Resolve legacy_records_errno : errno.

(** ** The pair *)

Lemma pair_step_ends p : ends (pair_step p).
Proof. unfold pair_step. by destruct (next_outcome (p_script p)). Qed.
#[export] Hint Resolve pair_step_ends : ends.
Lemma pair_sync_ends p : ends (pair_sync p).
Proof. unfold pair_sync. ends. Qed.
Lemma pair_write_data_ends bs off p : ends (pair_write_data bs off p).
Proof. unfold pair_write_data. ends. Qed.
Lemma pair_write_index_ends bs off p : ends (pair_write_index bs off p).
Proof. unfold pair_write_index. ends. Qed.
Lemma disk_read_ends f off n p : ends (disk_read f off n p).
Proof. unfold disk_read. ends. Qed.
Lemma disk_truncate_ends set n p : ends (disk_truncate set n p).
Proof. unfold disk_truncate. ends. Qed.
#[export] Hint Resolve pair_sync_ends pair_write_data_ends pair_write_index_ends disk_read_ends disk_truncate_ends : ends.

(** Every chunk but the last is 4096 bytes. *)
Lemma replay_loop_ends fuel f n off r p :
  n - off <= kSpace * Z.of_nat fuel -> ends (replay_loop fuel f n off r p).
Proof.
  revert off r p. induction fuel as [|fuel IH]; intros off r p Hf; cbn [replay_loop]; cbv zeta.
  - rewrite (proj2 (Z.ltb_ge _ _)) by lia. done.
  - destruct (off <? n); [|done]. apply ends_bind; [ends|]. intros raw p1. apply ends_bind; [ends|].
    intros r' p2. apply IH. unfold kSpace in *. lia.
Qed.

Lemma replay_ends f n r p : ends (replay_loop (replay_fuel n) f n kSpace r p).
Proof.
  apply replay_loop_ends. unfold replay_fuel, kSpace. pose proof (Z.div_mod n 4096 ltac:(lia)).
  pose proof (Z.mod_pos_bound n 4096 ltac:(lia)). lia.
Qed.
#[export] Hint Resolve replay_ends : ends.

Lemma sealed_records_ends f tail n i previous p : ends (sealed_records f tail n i previous p).
Proof. revert i previous p. induction n as [|n IH]; intros i previous p; cbn [sealed_records]; [done|]. ends. Qed.
#[export] Hint Resolve sealed_records_ends : ends.
Lemma sealed_trailer_ends f p : ends (sealed_trailer f p).
Proof. unfold sealed_trailer. cbv zeta. ends. Qed.
#[export] Hint Resolve sealed_trailer_ends : ends.

Lemma check_live_header_errno raw vs old h : res_errno (check_live_header raw vs old h).
Proof. unfold check_live_header. res_errno. Qed.
Lemma read_intent_errno raw : res_errno (read_intent raw).
Proof. unfold read_intent. cbv zeta. res_errno. Qed.
Lemma grow_intent_errno n h ih : res_errno (grow_intent n h ih).
Proof. unfold grow_intent. cbv zeta. res_errno. Qed.
#[export] Hint Resolve check_live_header_errno read_intent_errno grow_intent_errno : errno.

Lemma check_grow_ends raw p : ends (check_grow raw p).
Proof. unfold check_grow. ends. Qed.
Lemma roll_grow_ends raw h p : ends (roll_grow raw h p).
Proof. unfold roll_grow. ends. Qed.
#[export] Hint Resolve check_grow_ends roll_grow_ends : ends.
Lemma recover_grow_ends p : ends (recover_grow p).
Proof. unfold recover_grow. ends. Qed.
Lemma publish_grow_ends vs p : ends (publish_grow vs p).
Proof. unfold publish_grow. ends. Qed.
#[export] Hint Resolve recover_grow_ends publish_grow_ends : ends.
Lemma pair_grow_ends vs p : ends (pair_grow vs p).
Proof. unfold pair_grow. ends. Qed.
Lemma pair_align_ends h l n p : ends (pair_align h l n p).
Proof. unfold pair_align. cbv zeta. ends. Qed.
#[export] Hint Resolve pair_grow_ends pair_align_ends : ends.
Lemma pair_load_ends n m p : ends (pair_load n m p).
Proof. unfold pair_load. cbv zeta. ends. Qed.
#[export] Hint Resolve pair_load_ends : ends.
Lemma pair_open_ends p : ends (pair_open p).
Proof. unfold pair_open. cbv zeta. ends. Qed.
Lemma pair_head_ends p : ends (pair_head p).
Proof. unfold pair_head. cbv zeta. ends. Qed.
#[export] Hint Resolve pair_open_ends pair_head_ends : ends.

(** ** The directory *)

Lemma dir_step_ends d : ends (dir_step d).
Proof. unfold dir_step. by destruct (next_outcome (d_script d)). Qed.
#[export] Hint Resolve dir_step_ends : ends.
Lemma dir_sync_ends d : ends (dir_sync d).
Proof. unfold dir_sync. ends. Qed.
Lemma lookup_name_ends n d : ends (lookup_name n d).
Proof. done. Qed.
#[export] Hint Resolve dir_sync_ends lookup_name_ends : ends.
Lemma node_read_ends x off n d : ends (node_read x off n d).
Proof. unfold node_read. ends. Qed.
Lemma create_excl_ends n d : ends (create_excl n d).
Proof. unfold create_excl. ends. Qed.
Lemma name_write_ends n bs off d : ends (name_write n bs off d).
Proof. unfold name_write. ends. Qed.
Lemma link_name_ends a b d : ends (link_name a b d).
Proof. unfold link_name. ends. Qed.
Lemma unlink_name_ends n d : ends (unlink_name n d).
Proof. unfold unlink_name. ends. Qed.
#[export] Hint Resolve node_read_ends create_excl_ends name_write_ends link_name_ends unlink_name_ends : ends.
Lemma drop_names_ends l d : ends (drop_names l d).
Proof.
  revert d. induction l as [|n l IH]; intros d; cbn [drop_names]; [done|]. apply ends_bind; [|auto].
  unfold drop_name. by destruct (unlink_name n d).
Qed.
Lemma on_files_ends {A} x y (m : io FilePair A) d : (forall p, ends (m p)) -> ends (on_files x y m d).
Proof.
  intros Hm. unfold on_files. specialize (Hm (dir_pair d x y)). by destruct (m (dir_pair d x y)).
Qed.
#[export] Hint Resolve drop_names_ends on_files_ends : ends.

Lemma recover_creation_ends colocated aliased d : ends (recover_creation colocated aliased d).
Proof.
  unfold recover_creation, read_create_intent. ends; unfold check_artifact, publish_artifact, retire_stage; ends.
Qed.
#[export] Hint Resolve recover_creation_ends : ends.
Lemma open_files_ends d : ends (open_files d).
Proof. unfold open_files. ends. Qed.
#[export] Hint Resolve open_files_ends : ends.
Lemma open_sync_ends colocated aliased d : ends (open_sync colocated aliased d).
Proof. unfold open_sync. ends. Qed.
#[export] Hint Resolve open_sync_ends : ends.
Lemma lock_workspace_ends d : ends (lock_workspace d).
Proof. unfold lock_workspace. ends. Qed.
#[export] Hint Resolve lock_workspace_ends : ends.

(** A chunk holds at least one record. *)
Lemma legacy_loop_ends fuel x tail off previous r d :
  ht_index_size tail * 16 - off <= 16 * Z.of_nat fuel -> ends (legacy_loop fuel x tail off previous r d).
Proof.
  revert off previous r d. induction fuel as [|fuel IH]; intros off previous r d Hf; cbn [legacy_loop]; cbv zeta.
  - rewrite (proj2 (Z.ltb_ge _ _)) by lia. done.
  - destruct (off <? ht_index_size tail * 16); [|done]. do 3 (apply ends_bind; [ends|]; intros). apply IH.
    unfold kSpace in *. lia.
Qed.

Lemma legacy_index_ends x d : ends (legacy_index x d).
Proof.
  unfold legacy_index, dir_sealed_trailer. cbv zeta. ends. apply legacy_loop_ends. lia.
Qed.
#[export] Hint Resolve legacy_index_ends : ends.

Lemma dir_write_ends f off bs d : ends (dir_write f off bs d).
Proof. unfold dir_write. ends. Qed.
#[export] Hint Resolve dir_write_ends : ends.
Lemma migrate_records_ends f off bs l d : ends (migrate_records f off bs l d).
Proof. revert f off bs d. induction l as [|m l IH]; intros f off bs d; cbn [migrate_records]; cbv zeta; ends. Qed.
#[export] Hint Resolve migrate_records_ends : ends.
Lemma migrate_legacy_ends x d : ends (migrate_legacy x d).
Proof. unfold migrate_legacy, publish_index. ends. Qed.
#[export] Hint Resolve migrate_legacy_ends : ends.

Lemma migrate_sync_ends colocated aliased d : ends (migrate_sync colocated aliased d).
Proof. unfold migrate_sync, open_locked. ends. Qed.
#[export] Hint Resolve migrate_sync_ends : ends.

(** ** Creation *)

Lemma create_intent_errno h : res_errno (create_intent h).
Proof. unfold create_intent. cbv zeta. res_errno. Qed.

Definition staged_ok (x : res (res unit * list name) * dir) : Prop :=
  match x.1 with Ok (Err f, _) => any_errno f | Ok _ => True | Err f => any_errno f end.

Lemma stage_all_ends l created d : Forall (fun e => res_errno e.2) l -> staged_ok (stage_all l created d).
Proof.
  intros Hl. revert created d. induction Hl as [|[n content] l Hc Hl IH]; intros created d; cbn [stage_all]; [done|].
  pose proof (create_excl_ends n d) as H1. unfold ends in H1. destruct (create_excl n d) as [[[]|f] d1]; [|done].
  assert (ends (stage_file n content d1)) as H2 by (unfold stage_file; simpl in Hc; ends).
  unfold ends in H2. destruct (stage_file n content d1) as [[[]|f] d2]; [apply IH|done].
Qed.

Lemma create_publish_ends colocated aliased alive h created d : ends (create_publish colocated aliased alive h created d).
Proof.
  unfold create_publish. pose proof (link_name_ends (Intent (ht_uuid h)) Init d) as H1. unfold ends in H1.
  destruct (link_name _ _ d) as [[[]|f] d1].
  - set (m := _ ← dir_sync; _ ← recover_creation colocated aliased; open_sync colocated aliased).
    assert (ends (m d1)) as H2 by (unfold m; ends).
    destruct (m d1) as [r d2]. by destruct (cleanup alive _ d2).
  - unfold cleanup. ends.
Qed.
#[export] Hint Resolve create_publish_ends : ends.

Lemma create_new_ends colocated aliased alive h d : ends (create_new colocated aliased alive h d).
Proof.
  assert (Forall (fun e => res_errno e.2) (stages h)) as Hs.
  { unfold stages. repeat constructor; simpl; auto using create_intent_errno with errno. }
  pose proof (stage_all_ends (stages h) [] d Hs) as H1. unfold create_new, mbind, io_bind. unfold staged_ok in H1.
  destruct (stage_all (stages h) [] d) as [[[[[]|f] created]|f] d1]; simpl in *; [ends| |done].
  pose proof (drop_names_ends created d1) as H2. unfold cleanup. destruct alive; simpl; [|done].
  by destruct (drop_names created d1) as [[[]|] d2].
Qed.
#[export] Hint Resolve create_new_ends : ends.

Lemma create_sync_ends colocated aliased alive uuid vs d : ends (create_sync colocated aliased alive uuid vs d).
Proof. unfold create_sync. ends. Qed.

(** ** The layer *)

Lemma grow_ends vs w : ends (LsmtRwGrow.grow vs w).
Proof.
  unfold LsmtRwGrow.grow. assert (ends (begin_grow_op w)) as H1 by (unfold begin_grow_op; ends).
  destruct (begin_grow_op w) as [[[]|f] w1]; [|exact H1].
  destruct (rw_journal_failed w1 && _); [by apply ends_pair; auto with errno|].
  unfold on_pair. pose proof (pair_grow_ends vs (rw_pair w1)) as H2. by destruct (pair_grow vs (rw_pair w1)).
Qed.

Lemma open_layer_ends colocated aliased alive uuid size existing d :
  ends (open_layer colocated aliased alive uuid size existing d).
Proof.
  unfold open_layer. pose proof (migrate_sync_ends colocated aliased d) as H1. unfold ends in H1.
  destruct (migrate_sync colocated aliased d) as [[p|f] d1]; [done|]. destruct (_ || _); [exact H1|].
  pose proof (create_sync_ends colocated aliased alive uuid size d1) as H2. unfold ends in H2.
  destruct (create_sync colocated aliased alive uuid size d1) as [[p|f'] d2]; [done|]. destruct (negb _); [exact H2|ends].
Qed.
Lemma grow_opened_ends size w d : ends (grow_opened size w d).
Proof.
  unfold grow_opened. pose proof (grow_ends size w) as H. unfold ends in H.
  by destruct (LsmtRwGrow.grow size w) as [[[]|f] w'].
Qed.
#[export] Hint Resolve open_layer_ends grow_opened_ends : ends.

(** C11. Opening an upper by its paths over a directory of any content, with any
    outcome of its I/O: the scan for a sealed trailer, the replay of a journal or
    of a checkpoint, the completion of an interrupted creation or growth, the
    migration, the creation and the growth end, and what they end in is a layer
    or an errno. *)
Theorem open_or_create_terminates colocated aliased alive uuid minimum_size existing_only d :
  let '(r, _) := open_or_create colocated aliased alive uuid minimum_size existing_only d in
  (exists layer, r = Ok layer) \/ exists e, r = Err (Errno e).
Proof.
  assert (ends (open_or_create colocated aliased alive uuid minimum_size existing_only d)) as H
    by (unfold open_or_create; ends).
  unfold ends in H. destruct (open_or_create _ _ _ _ _ _ d) as [[layer|f] d']; [eauto|]. destruct H as [e ->]. eauto.
Qed.
