(* ===== verification/TagEngine.v ===== *)
(** * Reusable tag handlers of a queue ([ublk/tag_engine.cpp])

    Every tag of a queue has one handler coroutine that serves the request the
    owner admitted and gives exactly one result back.  A handler can die on a
    foreign worker at any point: its guard then leaves the result in a mailbox
    of atomics, for the owner to collect.

    The owner's functions ([admit], [collect_foreign_results], ...) and the
    stretches a handler runs on the owner's worker are one step each; the
    guard's stores are one step each, in program order, and interleave with
    everything.  Atomics are sequentially consistent. *)
From stdpp Require Import sets sorting relations.
From S2P Require Import Prelude Bytes Source.

Open Scope Z_scope.

(** ** The request *)

Record IoRequest := IoReq {
  io_tag : Z;
  io_op : Z;
  io_flags : Z;
  io_start_sector : Z;
  io_nr_sectors : Z;
}.
Definition byte_offset (r : IoRequest) : Z := u64 (io_start_sector r * 512).
Definition byte_len (r : IoRequest) : Z := u32 (io_nr_sectors r * 512).

Record OwnerResult := Res { or_tag : Z; or_generation : Z; or_result : Z }.

(** ** The mailbox *)

Definition kStateBits : Z := 2.
Definition kArmed : Z := 1.
Definition kWriting : Z := 2.
Definition kReady : Z := 3.
Definition kMaxGeneration : Z := Z.shiftr (2 ^ 64 - 1) kStateBits.

Definition mailbox_state (generation state : Z) : Z := Z.lor (u64 (Z.shiftl generation kStateBits)) state.

(** A slot, and [compare_exchange_strong] on its state. *)
Record Slot := MkSlot { sl_state : Z; sl_result : Z }.

Definition exchange (s : Slot) (expected desired : Z) : option Slot :=
  if sl_state s =? expected then Some (MkSlot desired (sl_result s)) else None.

Definition generation_ok (generation : Z) : bool := negb ((generation =? 0) || (kMaxGeneration <? generation)).

Definition arm (s : Slot) (generation : Z) : option Slot :=
  if generation_ok generation then exchange s 0 (mailbox_state generation kArmed) else None.

Definition retire (s : Slot) (generation : Z) : option Slot :=
  if generation_ok generation then exchange s (mailbox_state generation kArmed) 0 else None.

(** [publish] is three atomic accesses. *)
Definition publish_begin (s : Slot) (generation : Z) : option Slot :=
  if generation_ok generation
  then exchange s (mailbox_state generation kArmed) (mailbox_state generation kWriting) else None.
Definition publish_result (s : Slot) (result : Z) : Slot := MkSlot (sl_state s) result.
Definition publish_ready (s : Slot) (generation : Z) : Slot := MkSlot (mailbox_state generation kReady) (sl_result s).

Definition take_result (s : Slot) (tag generation : Z) : option (OwnerResult * Slot) :=
  if generation_ok generation then
    let ready := mailbox_state generation kReady in
    if negb (sl_state s =? ready) then None else
    let value := sl_result s in
    s ← exchange s ready 0;
    Some (Res tag generation value, s)
  else None.

(** ** A tag and its handler *)

(** Where the handler's frame is: not there; spawned; at [ready.wait()] or on
    its way back; in the source; back with the result; in its guard. *)
Inductive Handler :=
  | Absent
  | Starting
  | Waiting
  | Serving (request : IoRequest) (generation : Z)
  | Returning (generation result : Z)
  | MarkLoad
  | MarkBegin (generation : Z)
  | MarkResult (generation : Z)
  | MarkReady (generation : Z)
  | MarkFailed.

Record TagState := Tag {
  t_request : IoRequest;
  t_generation : Z;
  t_next_generation : Z;
  t_busy : bool;
  t_started : bool;
  t_closing : bool;
  t_active_generation : Z;
  t_handler_failed : bool;
  t_ready : bool;                  (* the event *)
  t_slot : Slot;                   (* of the mailbox *)
  t_handler : Handler;
}.

Definition empty_request : IoRequest := IoReq 0 0 0 0 0.
Definition new_tag : TagState := Tag empty_request 0 1 false false false 0 false false (MkSlot 0 0) Absent.

Definition set_slot (t : TagState) (s : Slot) : TagState :=
  Tag (t_request t) (t_generation t) (t_next_generation t) (t_busy t) (t_started t) (t_closing t)
    (t_active_generation t) (t_handler_failed t) (t_ready t) s (t_handler t).
Definition set_handler (t : TagState) (h : Handler) : TagState :=
  Tag (t_request t) (t_generation t) (t_next_generation t) (t_busy t) (t_started t) (t_closing t)
    (t_active_generation t) (t_handler_failed t) (t_ready t) (t_slot t) h.
Definition set_ready (t : TagState) (b : bool) : TagState :=
  Tag (t_request t) (t_generation t) (t_next_generation t) (t_busy t) (t_started t) (t_closing t)
    (t_active_generation t) (t_handler_failed t) b (t_slot t) (t_handler t).
Definition set_failed (t : TagState) (b : bool) : TagState :=
  Tag (t_request t) (t_generation t) (t_next_generation t) (t_busy t) (t_started t) (t_closing t)
    (t_active_generation t) b (t_ready t) (t_slot t) (t_handler t).
Definition set_closing (t : TagState) : TagState :=
  Tag (t_request t) (t_generation t) (t_next_generation t) (t_busy t) (t_started t) true
    (t_active_generation t) (t_handler_failed t) (t_ready t) (t_slot t) (t_handler t).
(** The obligation is over. *)
Definition set_idle (t : TagState) : TagState :=
  Tag (t_request t) (t_generation t) (t_next_generation t) false (t_started t) (t_closing t)
    0 (t_handler_failed t) (t_ready t) (t_slot t) (t_handler t).
(** A collected tag: its handler is gone and its event is reset. *)
Definition set_collected (t : TagState) : TagState :=
  Tag (t_request t) (t_generation t) (t_next_generation t) false false (t_closing t)
    0 false false (t_slot t) (t_handler t).
Definition set_request (t : TagState) (r : IoRequest) (generation : Z) (s : Slot) : TagState :=
  Tag r generation (t_next_generation t) true (t_started t) (t_closing t)
    generation (t_handler_failed t) (t_ready t) s (t_handler t).
Definition count_generation (t : TagState) : TagState :=
  Tag (t_request t) (t_generation t) (t_next_generation t + 1) (t_busy t) (t_started t) (t_closing t)
    (t_active_generation t) (t_handler_failed t) (t_ready t) (t_slot t) (t_handler t).
(** [handlers.spawn]. *)
Definition spawn (t : TagState) : TagState :=
  if t_started t then t else
  Tag (t_request t) (t_generation t) (t_next_generation t) (t_busy t) true (t_closing t)
    (t_active_generation t) (t_handler_failed t) (t_ready t) (t_slot t) Starting.

(** ** The engine *)

(** [e_wakes] counts the guards that have not set [foreign_pending] yet.
    [e_published] and [e_failures] are the calls of the sink. *)
Record Engine := Eng {
  e_tags : list TagState;
  e_foreign_pending : bool;
  e_closed : bool;
  e_wakes : nat;
  e_published : list OwnerResult;
  e_failures : list Z;
}.

Definition set_tags (e : Engine) (l : list TagState) : Engine :=
  Eng l (e_foreign_pending e) (e_closed e) (e_wakes e) (e_published e) (e_failures e).
Definition sink_publish (e : Engine) (r : OwnerResult) : Engine :=
  Eng (e_tags e) (e_foreign_pending e) (e_closed e) (e_wakes e) (e_published e ++ [r]) (e_failures e).
Definition sink_fail (e : Engine) (error : Z) : Engine :=
  Eng (e_tags e) (e_foreign_pending e) (e_closed e) (e_wakes e) (e_published e) (e_failures e ++ [error]).
Definition set_pending (e : Engine) (b : bool) (wakes : nat) : Engine :=
  Eng (e_tags e) b (e_closed e) wakes (e_published e) (e_failures e).

Definition new_engine (depth : nat) : Engine := Eng (replicate depth new_tag) false false 0 [] [].

(** The loop body of [collect_foreign_results]; [delivers] says whether the
    sink takes the result or throws. *)
Definition collect_tag (delivers : OwnerResult -> bool) (i : nat) (e : Engine) : Engine :=
  match e_tags e !! i with
  | None => e
  | Some t =>
      if negb (t_handler_failed t) then e else
      let taken := if negb (t_generation t =? 0) then take_result (t_slot t) (Z.of_nat i) (t_generation t) else None in
      let e := if negb (Bool.eqb (t_busy t) (bool_decide (is_Some taken))) then sink_fail e EPROTO else e in
      let t := set_collected (match taken with Some (_, s) => set_slot t s | None => t end) in
      let e := set_tags e (<[i := t]> (e_tags e)) in
      match taken with
      | Some (r, _) => if delivers r then sink_publish e r else sink_fail e EIO
      | None => e
      end
  end.

Definition collect_foreign_results (delivers : OwnerResult -> bool) (e : Engine) : Engine :=
  if negb (e_foreign_pending e) then e else
  foldl (fun e i => collect_tag delivers i e) (set_pending e false (e_wakes e)) (seq 0 (length (e_tags e))).

(** [signal] wakes the handler unless its allocation fails. *)
Definition signal (allocates : bool) (t : TagState) : TagState := if allocates then set_ready t true else t.

(** [Err] is the exception, after the sink was told. *)
Definition admit_request (delivers : OwnerResult -> bool) (allocates : bool) (r : IoRequest) : io Engine bool := fun e =>
  if e_closed e then (Err (Errno ESHUTDOWN), sink_fail e ESHUTDOWN) else
  let e := collect_foreign_results delivers e in
  match e_tags e !! Z.to_nat (io_tag r) with
  | None => (Err (Errno EIO), sink_fail e EIO)
  | Some t =>
      if t_busy t then (Err (Errno EIO), sink_fail e EIO) else
      if negb (generation_ok (t_next_generation t)) then (Err (Errno EOVERFLOW), sink_fail e EOVERFLOW) else
      let generation := t_next_generation t in
      let t := count_generation t in
      let i := Z.to_nat (io_tag r) in
      match arm (t_slot t) generation with
      | None => (Err (Errno EPROTO), sink_fail (set_tags e (<[i := t]> (e_tags e))) EPROTO)
      | Some s =>
          let t := signal allocates (spawn (set_request t r generation s)) in
          (Ok allocates, set_tags e (<[i := t]> (e_tags e)))
      end
  end.

Definition retry_signal (allocates : bool) (tag : Z) : io Engine bool := fun e =>
  match e_tags e !! Z.to_nat tag with
  | None => (Err (Errno EIO), sink_fail e EIO)
  | Some t => (Ok allocates, set_tags e (<[Z.to_nat tag := signal allocates t]> (e_tags e)))
  end.

Definition begin_close (e : Engine) : Engine :=
  if e_closed e then e else
  Eng (set_closing <$> e_tags e) (e_foreign_pending e) true (e_wakes e) (e_published e) (e_failures e).

Definition retry_close_signal (allocates : bool) (tag : Z) : io Engine bool := fun e =>
  match e_tags e !! Z.to_nat tag with
  | None => (Err (Errno EIO), sink_fail e EIO)
  | Some t =>
      if negb (t_started t) then (Ok true, e)
      else (Ok allocates, set_tags e (<[Z.to_nat tag := signal allocates t]> (e_tags e)))
  end.

(** ** The handler *)

(** The top of its loop. *)
Definition loop_head (t : TagState) : TagState :=
  if t_closing t && negb (t_busy t) then set_handler t Absent else set_handler t Waiting.

(** Back on the owner after the event was set. *)
Definition wake (t : TagState) : TagState :=
  let t := set_ready t false in
  if negb (t_busy t) then
    if t_closing t then set_handler t Absent else loop_head t
  else set_handler t (Serving (t_request t) (t_generation t)).

(** Back on the owner with the result, the sink taking it. *)
Definition finish (i : nat) (t : TagState) (generation result : Z) (e : Engine) : Engine :=
  let e := sink_publish e (Res (Z.of_nat i) generation result) in
  let retired := retire (t_slot t) generation in
  let e := match retired with Some _ => e | None => sink_fail e EPROTO end in
  let t := match retired with Some s => set_slot t s | None => t end in
  set_tags e (<[i := loop_head (set_idle t)]> (e_tags e)).

(** One access of the guard's [mark_failed]. *)
Definition mark_step (t : TagState) : TagState * list Z :=
  match t_handler t with
  | MarkLoad =>
      let generation := t_active_generation t in
      (set_handler t (if negb (generation =? 0) then MarkBegin generation else MarkFailed), [])
  | MarkBegin generation =>
      match publish_begin (t_slot t) generation with
      | Some s => (set_handler (set_slot t s) (MarkResult generation), [])
      | None => (set_handler t MarkFailed, [EPROTO])
      end
  | MarkResult generation =>
      (set_handler (set_slot t (publish_result (t_slot t) (- EIO))) (MarkReady generation), [])
  | MarkReady generation => (set_handler (set_slot t (publish_ready (t_slot t) generation)) MarkFailed, [])
  | MarkFailed => (set_handler (set_failed t true) Absent, [])
  | _ => (t, [])
  end.

(** ** Interleavings *)

Section steps.
(** [serves r z]: the source may answer [z] to the request [r].  [idle_loss]
    allows the death of handlers that serve no request. *)
Context (serves : IoRequest -> Z -> Prop) (idle_loss : bool).

Definition upd (e : Engine) (i : nat) (t : TagState) : Engine := set_tags e (<[i := t]> (e_tags e)).

(** A handler's frame that can be destroyed. *)
Definition alive (h : Handler) : bool :=
  match h with Starting | Waiting | Serving _ _ | Returning _ _ => true | _ => false end.
Definition marking (h : Handler) : bool :=
  match h with MarkLoad | MarkBegin _ | MarkResult _ | MarkReady _ | MarkFailed => true | _ => false end.

(** One access of the guard, in the engine. *)
Definition mark (i : nat) (t : TagState) (e : Engine) : Engine :=
  let '(t', fails) := mark_step t in
  let wakes := match t_handler t with MarkFailed => S (e_wakes e) | _ => e_wakes e end in
  Eng (<[i := t']> (e_tags e)) (e_foreign_pending e) (e_closed e) wakes (e_published e) (e_failures e ++ fails).

Inductive step : Engine -> Engine -> Prop :=
  | step_collect delivers e : step e (collect_foreign_results delivers e)
  | step_signal allocates tag e : step e (retry_signal allocates tag e).2
  | step_close e : step e (begin_close e)
  | step_close_signal allocates tag e : step e (retry_close_signal allocates tag e).2
  | step_start e i t : e_tags e !! i = Some t -> t_handler t = Starting -> step e (upd e i (loop_head t))
  | step_wake e i t : e_tags e !! i = Some t -> t_handler t = Waiting -> t_ready t = true -> step e (upd e i (wake t))
  | step_serve e i t r g z :
      e_tags e !! i = Some t -> t_handler t = Serving r g -> serves r z -> step e (upd e i (set_handler t (Returning g z)))
  | step_finish e i t g z : e_tags e !! i = Some t -> t_handler t = Returning g z -> step e (finish i t g z e)
  | step_die e i t :
      e_tags e !! i = Some t -> alive (t_handler t) = true -> idle_loss || t_busy t = true ->
      step e (upd e i (set_handler t MarkLoad))
  | step_mark e i t : e_tags e !! i = Some t -> marking (t_handler t) = true -> step e (mark i t e)
  | step_pending e n : e_wakes e = S n -> step e (set_pending e true n).

(** The admitted requests, with their tag and generation. *)
Abbreviation history := (list (nat * Z * IoRequest)).

Definition admitted_generation (e : Engine) (i : nat) : Z :=
  match e_tags e !! i with Some t => t_generation t | None => 0 end.

Inductive reaches (depth : nat) : history -> Engine -> Prop :=
  | reaches_new : reaches depth [] (new_engine depth)
  | reaches_admit hist e delivers allocates r e' b :
      reaches depth hist e -> 0 <= io_tag r -> admit_request delivers allocates r e = (Ok b, e') ->
      reaches depth (hist ++ [(Z.to_nat (io_tag r), admitted_generation e' (Z.to_nat (io_tag r)), r)]) e'
  | reaches_refused hist e delivers allocates r e' f :
      reaches depth hist e -> 0 <= io_tag r -> admit_request delivers allocates r e = (Err f, e') ->
      reaches depth hist e'
  | reaches_step hist e e' : reaches depth hist e -> step e e' -> reaches depth hist e'.

(** ** The invariant *)

Lemma mailbox_state_val g s : 0 <= g <= kMaxGeneration -> 0 <= s < 4 -> mailbox_state g s = 4 * g + s.
Proof.
  intros Hg Hs. unfold mailbox_state, kStateBits. change kMaxGeneration with (2 ^ 62 - 1) in Hg.
  rewrite Z.shiftl_mul_pow2 by lia. change (2 ^ 2) with 4. rewrite u64_small by lia.
  assert (Z.land (g * 4) s = 0) as Hl.
  { apply Z.bits_inj'. intros n Hn. rewrite Z.land_spec, Z.bits_0. change 4 with (2 ^ 2).
    rewrite <- Z.shiftl_mul_pow2 by lia. destruct (Z.lt_ge_cases n 2).
    - by rewrite Z.shiftl_spec_low.
    - replace s with (s mod 2 ^ 2) by (apply Z.mod_small; lia). rewrite Z.mod_pow2_bits_high by lia. apply andb_false_r. }
  pose proof (Z.add_lor_land (g * 4) s). lia.
Qed.

Lemma generation_ok_iff g : generation_ok g = true <-> g <> 0 /\ g <= kMaxGeneration.
Proof. unfold generation_ok. rewrite negb_true_iff, orb_false_iff, Z.eqb_neq, Z.ltb_ge. done. Qed.

(** No obligation; an obligation whose result is still to come; one whose
    result waits in the mailbox. *)
Definition idle_tag (t : TagState) : Prop := t_busy t = false /\ sl_state (t_slot t) = 0 /\ t_active_generation t = 0.
Definition held (t : TagState) (state : Z) : Prop :=
  t_busy t = true /\ sl_state (t_slot t) = mailbox_state (t_generation t) state /\
  t_active_generation t = t_generation t /\ 1 <= t_generation t <= kMaxGeneration.
Definition left_result (t : TagState) : Prop := held t kReady /\ sl_result (t_slot t) = - EIO.
Definition lossy : Prop := idle_loss = true.

(** What a tag looks like, by where its handler is. *)
Definition tag_shape (t : TagState) : Prop :=
  match t_handler t with
  | Absent =>
      if t_handler_failed t
      then t_started t = true /\ ((idle_tag t /\ lossy) \/ left_result t \/ (held t kArmed /\ lossy))
      else t_busy t = false /\ t_active_generation t = 0 /\ (sl_state (t_slot t) = 0 \/ lossy) /\
           (t_started t = true -> t_closing t = true)
  | h =>
      t_handler_failed t = false /\ t_started t = true /\
      match h with
      | Starting | Waiting => idle_tag t \/ held t kArmed
      | Serving r g => r = t_request t /\ g = t_generation t /\ held t kArmed
      | Returning g z => g = t_generation t /\ held t kArmed /\ serves (t_request t) z
      | MarkLoad => (idle_tag t /\ lossy) \/ held t kArmed
      | MarkBegin g => g = t_generation t /\ held t kArmed
      | MarkResult g => g = t_generation t /\ held t kWriting
      | MarkReady g => g = t_generation t /\ held t kWriting /\ sl_result (t_slot t) = - EIO
      | MarkFailed => (idle_tag t /\ lossy) \/ left_result t \/ (held t kArmed /\ lossy)
      | Absent => True
      end
  end.

(** The generations answered so far. *)
Definition owed (t : TagState) : list Z := if t_busy t then [t_generation t] else [].
Definition answered (t : TagState) (gs : list Z) (fails : list Z) : Prop :=
  1 <= t_next_generation t /\ 0 <= t_generation t < t_next_generation t /\
  StronglySorted Z.lt (gs ++ owed t) /\ Forall (fun g => 1 <= g < t_next_generation t) (gs ++ owed t) /\
  (fails = [] -> gs ++ owed t = seqZ 1 (t_next_generation t - 1)).

Record tag_ok (closed : bool) (hist : history) (fails : list Z) (i : nat) (gs : list Z) (t : TagState) : Prop := {
  to_shape : tag_shape t;
  to_closing : t_closing t = closed;
  to_answered : answered t gs fails;
  to_request : t_busy t = true -> (i, t_generation t, t_request t) ∈ hist;
}.

Definition generations (l : list OwnerResult) (i : nat) : list Z :=
  or_generation <$> filter (fun r => or_tag r = Z.of_nat i) l.

(** A result is one the source may give to the admitted request, or the
    handler was lost. *)
Definition explained (hist : history) (r : OwnerResult) : Prop :=
  exists i request, or_tag r = Z.of_nat i /\ (i, or_generation r, request) ∈ hist /\
    (serves request (or_result r) \/ or_result r = - EIO).

Record engine_ok (hist : history) (e : Engine) : Prop := {
  eo_tags : forall i t, e_tags e !! i = Some t ->
    tag_ok (e_closed e) hist (e_failures e) i (generations (e_published e) i) t;
  eo_explained : Forall (explained hist) (e_published e);
  eo_proto : idle_loss = false -> EPROTO ∉ e_failures e;
}.

Lemma generations_app l k i : generations (l ++ k) i = generations l i ++ generations k i.
Proof. unfold generations. by rewrite filter_app, fmap_app. Qed.

Lemma generations_here k i : Forall (fun r => or_tag r = Z.of_nat i) k -> generations k i = or_generation <$> k.
Proof.
  unfold generations. induction 1 as [|r k Hr Hk IH]; [done|]. rewrite filter_cons_True by done. csimpl. by rewrite IH.
Qed.
Lemma generations_other k i j : i <> j -> Forall (fun r => or_tag r = Z.of_nat i) k -> generations k j = [].
Proof.
  intros Hij. unfold generations. induction 1 as [|r k Hr Hk IH]; [done|]. by rewrite filter_cons_False by lia.
Qed.

Lemma answered_fails t gs fails fs : answered t gs fails -> answered t gs (fails ++ fs).
Proof.
  intros (H1 & H2 & H3 & H4 & H5). split_and!; try done; try apply H2. intros [-> ->]%app_nil. by apply H5.
Qed.

Lemma tag_ok_fails closed hist fails fs i gs t : tag_ok closed hist fails i gs t -> tag_ok closed hist (fails ++ fs) i gs t.
Proof. intros [H1 H2 H3 H4]. split; try done. by apply answered_fails. Qed.

(** Every step changes one tag, publishes for that tag and may report. *)
Lemma engine_ok_set hist e i t' pub fs pending wakes :
  engine_ok hist e ->
  Forall (fun r => or_tag r = Z.of_nat i) pub -> Forall (explained hist) pub ->
  (idle_loss = false -> EPROTO ∉ fs) ->
  tag_ok (e_closed e) hist (e_failures e ++ fs) i (generations (e_published e) i ++ (or_generation <$> pub)) t' ->
  engine_ok hist (Eng (<[i := t']> (e_tags e)) pending (e_closed e) wakes (e_published e ++ pub) (e_failures e ++ fs)).
Proof.
  intros [H1 H2 H3] Hi Hx Hf Ht. split; cbn [e_tags e_closed e_failures e_published].
  - intros j t Hj. rewrite generations_app. destruct (decide (i = j)) as [<-|Hne].
    + rewrite (generations_here pub) by done. rewrite list_lookup_insert_eq in Hj; [by simplify_eq|].
      apply lookup_lt_Some in Hj. by rewrite length_insert in Hj.
    + rewrite list_lookup_insert_ne in Hj by done. rewrite (generations_other pub i), app_nil_r by done.
      apply tag_ok_fails. by apply H1.
  - by apply Forall_app.
  - intros Hl. rewrite elem_of_app. intros [?|?]; [by apply H3|by apply Hf].
Qed.

Lemma engine_ok_upd hist e i t t' :
  engine_ok hist e -> e_tags e !! i = Some t ->
  (forall gs, tag_ok (e_closed e) hist (e_failures e) i gs t -> tag_ok (e_closed e) hist (e_failures e) i gs t') ->
  engine_ok hist (upd e i t').
Proof.
  intros Hok Ht Hk. pose proof (engine_ok_set hist e i t' [] [] (e_foreign_pending e) (e_wakes e) Hok) as H.
  unfold upd, set_tags. rewrite !app_nil_r in H. apply H; [constructor|constructor|by intros _ ?%elem_of_nil|].
  by apply Hk, (eo_tags _ _ Hok).
Qed.

(** Changes that keep the obligation. *)
Lemma answered_same t t' gs fails :
  t_busy t' = t_busy t -> t_generation t' = t_generation t -> t_next_generation t' = t_next_generation t ->
  answered t gs fails -> answered t' gs fails.
Proof. intros E1 E2 E3. unfold answered, owed. by rewrite E1, E2, E3. Qed.

Lemma tag_ok_shape closed hist fails i gs t t' :
  t_busy t' = t_busy t -> t_generation t' = t_generation t -> t_next_generation t' = t_next_generation t ->
  t_request t' = t_request t -> t_closing t' = t_closing t -> (tag_shape t -> tag_shape t') ->
  tag_ok closed hist fails i gs t -> tag_ok closed hist fails i gs t'.
Proof.
  intros E1 E2 E3 E4 E5 Hs [H1 H2 H3 H4]. split; [auto|congruence|by eapply answered_same|]. by rewrite E1, E2, E4.
Qed.

Lemma shape_signal b t : tag_shape t -> tag_shape (signal b t).
Proof. destruct b; [|done]. unfold tag_shape, signal. cbn. by destruct t. Qed.

Lemma shape_loop_head t :
  t_handler_failed t = false -> t_started t = true -> idle_tag t \/ held t kArmed -> tag_shape (loop_head t).
Proof.
  intros Hf Hs Hi. unfold loop_head. destruct (t_closing t && negb (t_busy t)) eqn:Hc; bool_hyps; unfold tag_shape; cbn.
  - rewrite Hf. destruct Hi as [(_ & Hi & Ha)|(Hb & _)]; [|congruence]. split; [done|]. split; [done|]. by split; [left|].
  - by split; [|split].
Qed.

Lemma engine_ok_report hist e i t' fs pending wakes :
  engine_ok hist e -> (idle_loss = false -> EPROTO ∉ fs) ->
  tag_ok (e_closed e) hist (e_failures e ++ fs) i (generations (e_published e) i) t' ->
  engine_ok hist (Eng (<[i := t']> (e_tags e)) pending (e_closed e) wakes (e_published e) (e_failures e ++ fs)).
Proof.
  intros Hok Hf Ht. rewrite <- (app_nil_r (e_published e)). apply engine_ok_set; [done|constructor|constructor|done|].
  change (or_generation <$> []) with (@nil Z). by rewrite !app_nil_r.
Qed.
Lemma engine_ok_answer hist e i t' r pending wakes :
  engine_ok hist e -> or_tag r = Z.of_nat i -> explained hist r ->
  tag_ok (e_closed e) hist (e_failures e) i (generations (e_published e) i ++ [or_generation r]) t' ->
  engine_ok hist (Eng (<[i := t']> (e_tags e)) pending (e_closed e) wakes (e_published e ++ [r]) (e_failures e)).
Proof.
  intros Hok Hi Hx Ht. rewrite <- (app_nil_r (e_failures e)). apply engine_ok_set; [done|by constructor|by constructor| |].
  - by intros _ ?%elem_of_nil.
  - by rewrite app_nil_r.
Qed.

(** ** The mailbox *)

Lemma mailbox_state_eq g s s' : 1 <= g <= kMaxGeneration -> 0 <= s < 4 -> 0 <= s' < 4 ->
  (mailbox_state g s =? mailbox_state g s') = (s =? s').
Proof.
  intros Hg Hs Hs'. rewrite !mailbox_state_val by lia. destruct (Z.eqb_spec s s'); [apply Z.eqb_eq|apply Z.eqb_neq]; lia.
Qed.
Lemma mailbox_state_pos g s : 1 <= g <= kMaxGeneration -> 0 <= s < 4 -> 0 < mailbox_state g s.
Proof. intros Hg Hs. rewrite mailbox_state_val by lia. lia. Qed.
Lemma generation_ok_pos g : 1 <= g <= kMaxGeneration -> generation_ok g = true.
Proof. intros Hg. apply generation_ok_iff. lia. Qed.

Lemma held_slot t s s' :
  held t s -> 0 <= s < 4 -> 0 <= s' < 4 -> (sl_state (t_slot t) =? mailbox_state (t_generation t) s') = (s =? s').
Proof. intros (_ & -> & _ & Hg) Hs Hs'. by apply mailbox_state_eq. Qed.

Lemma take_held t i s : held t s -> 0 <= s < 4 ->
  take_result (t_slot t) i (t_generation t) =
  if s =? kReady then Some (Res i (t_generation t) (sl_result (t_slot t)), MkSlot 0 (sl_result (t_slot t))) else None.
Proof.
  intros Hh Hs. pose proof (held_slot t s kReady Hh Hs ltac:(done)) as E. destruct Hh as (_ & _ & _ & Hg).
  unfold take_result, exchange. rewrite generation_ok_pos by done. rewrite E. by destruct (s =? kReady).
Qed.
Lemma take_idle t i : sl_state (t_slot t) = 0 -> 0 <= t_generation t -> take_result (t_slot t) i (t_generation t) = None.
Proof.
  intros E Hg. unfold take_result. destruct (generation_ok (t_generation t)) eqn:Hk; [|done].
  apply generation_ok_iff in Hk. rewrite E.
  rewrite (proj2 (Z.eqb_neq 0 _)); [done|]. pose proof (mailbox_state_pos (t_generation t) kReady ltac:(lia) ltac:(done)). lia.
Qed.

(** ** The owner's steps *)

Lemma answered_done t gs fails fs :
  fs <> [] -> answered t gs fails -> answered (set_collected t) gs (fails ++ fs).
Proof.
  intros Hfs (H1 & H2 & H3 & H4 & _). unfold answered, owed. cbn. rewrite app_nil_r.
  apply StronglySorted_app in H3 as (_ & H3 & _). apply Forall_app in H4 as [H4 _].
  split; [done|]. split; [done|]. split; [done|]. split; [done|]. by intros [_ ?]%app_nil.
Qed.

(** Publishing the obligation's result ends it. *)
Lemma answered_publish t t' gs fails :
  t_busy t = true -> t_busy t' = false -> t_generation t' = t_generation t ->
  t_next_generation t' = t_next_generation t ->
  answered t gs fails -> answered t' (gs ++ [t_generation t]) fails.
Proof. intros E1 E2 E3 E4. unfold answered, owed. by rewrite E1, E2, E3, E4, app_nil_r. Qed.

Lemma collect_shape t :
  t_handler t = Absent -> sl_state (t_slot t) = 0 \/ lossy -> tag_shape (set_collected t).
Proof. intros Hh Hs. unfold tag_shape. cbn. rewrite Hh. by split_and!. Qed.

Lemma failed_absent t : tag_shape t -> t_handler_failed t = true -> t_handler t = Absent.
Proof. unfold tag_shape. intros Hs Hf. destruct (t_handler t); rewrite ?Hf in Hs; try done; by destruct Hs. Qed.

Lemma collect_tag_ok delivers hist i e : engine_ok hist e -> engine_ok hist (collect_tag delivers i e).
Proof.
  intros Hok. unfold collect_tag. destruct (e_tags e !! i) as [t|] eqn:Ht; [|done].
  destruct (t_handler_failed t) eqn:Hf; [|done]. cbn [negb]. pose proof (eo_tags _ _ Hok _ _ Ht) as [Hs Hc Ha Hr].
  pose proof (failed_absent t Hs Hf) as Hh. pose proof Ha as (_ & [HG _] & _).
  unfold tag_shape in Hs. rewrite Hh, Hf in Hs. destruct Hs as [_ [[(Hb & Hz & _) Hl]|[[Hheld Hz]|[Hheld Hl]]]].
  - (* an idle handler was lost *)
    rewrite (take_idle t) by done. replace (if negb (t_generation t =? 0) then None else None) with (@None (OwnerResult * Slot)) by by destruct (negb _).
    rewrite Hb. cbn. eapply (engine_ok_upd _ _ _ t); [done|done|]. intros gs [_ _ Ha' _].
    split; [by apply collect_shape; [|left]|done| |done].
    eapply answered_same; [..|exact Ha']; [by rewrite Hb|done|done].
  - (* its result is in the mailbox *)
    pose proof Hheld as (Hb & _ & _ & Hg). rewrite (proj2 (Z.eqb_neq _ _)) by lia. cbn [negb].
    rewrite (take_held t _ kReady) by done. cbn [Z.eqb kReady]. rewrite Pos.eqb_refl, Hb. cbn.
    assert (tag_shape (set_collected (set_slot t (MkSlot 0 (sl_result (t_slot t)))))) as Hs' by (apply collect_shape; [done|by left]).
    destruct (delivers _).
    + refine (engine_ok_answer hist e i _ (Res _ _ _) _ _ Hok _ _ _); [done| |].
      * exists i, (t_request t). split; [done|]. split; [by apply Hr|by right].
      * split; [done|done| |done]. by apply (answered_publish t).
    + refine (engine_ok_report hist e i _ _ _ _ Hok _ _); [by intros _ ?%list_elem_of_singleton|].
      split; [done|done| |done]. by apply (answered_done (set_slot t _)).
  - (* an obligation was admitted to a handler already lost *)
    pose proof Hheld as (Hb & _ & _ & Hg). rewrite (proj2 (Z.eqb_neq _ _)) by lia. cbn [negb].
    rewrite (take_held t _ kArmed) by done. cbn. rewrite Hb. cbn.
    refine (engine_ok_report hist e i _ _ _ _ Hok _ _); [by unfold lossy in Hl; congruence|].
    split; [by apply collect_shape; [|right]|done| |done]. by apply (answered_done t).
Qed.

Lemma engine_ok_pending hist e b n : engine_ok hist e -> engine_ok hist (set_pending e b n).
Proof. by intros [H1 H2 H3]. Qed.

Lemma engine_ok_sink hist e error :
  engine_ok hist e -> (idle_loss = false -> error <> EPROTO) -> engine_ok hist (sink_fail e error).
Proof.
  intros [H1 H2 H3] He. split; cbn; [|done|].
  - intros i t Ht. apply tag_ok_fails. by apply H1.
  - intros Hl. rewrite elem_of_app, list_elem_of_singleton. intros [?|?]; [by apply H3|by apply He].
Qed.

Lemma collect_ok delivers hist e : engine_ok hist e -> engine_ok hist (collect_foreign_results delivers e).
Proof.
  intros Hok. unfold collect_foreign_results. destruct (negb _); [done|].
  generalize (seq 0 (length (e_tags e))) as l. apply engine_ok_pending with (b := false) (n := e_wakes e) in Hok.
  revert Hok. generalize (set_pending e false (e_wakes e)) as e0. intros e0 Hok l. revert e0 Hok.
  induction l as [|i l IH]; intros e0 Hok; cbn [foldl]; [done|]. by apply IH, collect_tag_ok.
Qed.

Lemma collect_tag_closed delivers i e : e_closed (collect_tag delivers i e) = e_closed e.
Proof.
  unfold collect_tag. destruct (e_tags e !! i) as [t|]; [|done]. destruct (negb _); [done|]. cbv zeta.
  destruct (negb (Bool.eqb _ _)), (if negb (t_generation t =? 0) then _ else _) as [[r s]|]; try done; by destruct (delivers r).
Qed.
Lemma collect_closed delivers e : e_closed (collect_foreign_results delivers e) = e_closed e.
Proof.
  unfold collect_foreign_results. destruct (negb _); [done|].
  change (e_closed e) with (e_closed (set_pending e false (e_wakes e))). generalize (set_pending e false (e_wakes e)) as e0.
  generalize (seq 0 (length (e_tags e))) as l. induction l as [|i l IH]; intros e0; cbn [foldl]; [done|].
  by rewrite IH, collect_tag_closed.
Qed.

(** *** Admission *)

Lemma tag_ok_hist closed hist hist' fails i gs t :
  hist ⊆ hist' -> tag_ok closed hist fails i gs t -> tag_ok closed hist' fails i gs t.
Proof. intros Hh [H1 H2 H3 H4]. split; try done. intros Hb. by apply Hh, H4. Qed.

Lemma engine_ok_hist hist hist' e : hist ⊆ hist' -> engine_ok hist e -> engine_ok hist' e.
Proof.
  intros Hh [H1 H2 H3]. split; [|eapply Forall_impl; [exact H2|]|done].
  - intros i t Ht. eapply tag_ok_hist; [done|]. by apply H1.
  - intros r (i & q & E & Hin & Hx). exists i, q. split; [done|]. split; [by apply Hh|done].
Qed.

(** A tag without an obligation that refuses to be armed was left armed. *)
Lemma idle_slot t : tag_shape t -> t_busy t = false -> sl_state (t_slot t) <> 0 -> lossy.
Proof.
  unfold tag_shape, idle_tag, left_result, held. intros Hs Hb Hz.
  destruct (t_handler t); [destruct (t_handler_failed t)|..]; intuition congruence.
Qed.

Lemma armed_shape t r g s :
  tag_shape t -> t_busy t = false -> t_closing t = false -> 1 <= g <= kMaxGeneration ->
  sl_state s = mailbox_state g kArmed -> tag_shape (spawn (set_request t r g s)).
Proof.
  intros Hs Hb Hc Hg Es. unfold spawn. cbn [t_started set_request].
  assert (forall st h f, held (Tag r g (t_next_generation t) true st (t_closing t) g f (t_ready t) s h) kArmed) as Hheld by done.
  assert (held (set_request t r g s) kArmed) as Hheld' by done.
  destruct (t_started t) eqn:Hst.
  - unfold tag_shape, idle_tag, left_result, held in Hs. unfold tag_shape. cbn.
    destruct (t_handler t); [destruct (t_handler_failed t)|..]; intuition congruence.
  - unfold tag_shape in *. cbn. rewrite Hst in Hs.
    destruct (t_handler t); [destruct (t_handler_failed t)|..]; intuition congruence.
Qed.

Lemma answered_admit t t' gs fails :
  t_busy t = false -> t_busy t' = true -> t_generation t' = t_next_generation t ->
  t_next_generation t' = t_next_generation t + 1 -> answered t gs fails -> answered t' gs fails.
Proof.
  intros E1 E2 E3 E4 (H1 & H2 & H3 & H4 & H5). unfold answered, owed in *. rewrite E1, app_nil_r in H3, H4, H5.
  rewrite E2, E3, E4. split; [lia|]. split; [lia|]. split; [|split].
  - apply StronglySorted_app_2; [|done|repeat constructor]. intros x y Hx ->%list_elem_of_singleton.
    rewrite Forall_forall in H4. apply H4 in Hx. lia.
  - apply Forall_app. split; [eapply Forall_impl; [exact H4|]; simpl; lia|]. constructor; [lia|constructor].
  - intros ->. rewrite H5 by done. replace (t_next_generation t + 1 - 1) with (t_next_generation t - 1 + 1) by lia.
    rewrite seqZ_app by lia. f_equal. replace (1 + (t_next_generation t - 1)) with (t_next_generation t) by lia. done.
Qed.

Lemma engine_admit_ok hist e delivers allocates r b e' :
  engine_ok hist e -> admit_request delivers allocates r e = (Ok b, e') ->
  let i := Z.to_nat (io_tag r) in engine_ok (hist ++ [(i, admitted_generation e' i, r)]) e'.
Proof.
  intros Hok Ha i. unfold admit_request in Ha. destruct (e_closed e) eqn:Hcl; [done|].
  apply (collect_ok delivers) in Hok. pose proof (collect_closed delivers e) as Hc. rewrite Hcl in Hc.
  set (e1 := collect_foreign_results delivers e) in *. clearbody e1. fold i in Ha.
  destruct (e_tags e1 !! i) as [t|] eqn:Ht; [|done]. pose proof (eo_tags _ _ Hok _ _ Ht) as [Hs Hcg Hans Hr].
  destruct (t_busy t) eqn:Hb; [done|]. destruct (generation_ok (t_next_generation t)) eqn:Hg; [|done]. cbn [negb] in Ha.
  unfold arm in Ha. rewrite Hg in Ha. unfold exchange in Ha. destruct (sl_state _ =? 0) eqn:Hz; [|done].
  injection Ha as <- <-. apply generation_ok_iff in Hg. pose proof Hans as (Hn & _). set (g := t_next_generation t) in *.
  set (t' := signal _ _).
  assert (t_generation t' = g /\ t_next_generation t' = g + 1 /\ t_busy t' = true /\ t_request t' = r /\ t_closing t' = t_closing t)
    as (E1 & E2 & E3 & E4 & E5).
  { unfold t', signal, spawn. by destruct allocates, (t_started _). }
  assert (admitted_generation (set_tags e1 (<[i := t']> (e_tags e1))) i = g) as ->.
  { unfold admitted_generation. cbn. rewrite list_lookup_insert_eq by (by apply lookup_lt_Some in Ht). done. }
  apply (engine_ok_upd _ _ _ t); [|done|].
  - eapply engine_ok_hist; [|done]. set_solver.
  - intros gs [_ _ Hans' _]. split.
    + apply shape_signal, armed_shape; try done; [|lia]. cbn. congruence.
    + congruence.
    + by eapply (answered_admit t).
    + intros _. rewrite E1, E4. set_solver.
Qed.

Lemma refused_ok hist e delivers allocates r f e' :
  engine_ok hist e -> admit_request delivers allocates r e = (Err f, e') -> engine_ok hist e'.
Proof.
  intros Hok Ha. unfold admit_request in Ha. destruct (e_closed e) eqn:Hcl.
  { injection Ha as <- <-. by apply engine_ok_sink. }
  apply (collect_ok delivers) in Hok. set (e1 := collect_foreign_results delivers e) in *. clearbody e1.
  set (i := Z.to_nat (io_tag r)) in *.
  destruct (e_tags e1 !! i) as [t|] eqn:Ht; [|injection Ha as <- <-; by apply engine_ok_sink].
  destruct (t_busy t) eqn:Hb; [injection Ha as <- <-; by apply engine_ok_sink|].
  destruct (generation_ok (t_next_generation t)) eqn:Hg; cbn [negb] in Ha; [|injection Ha as <- <-; by apply engine_ok_sink].
  unfold arm in Ha. rewrite Hg in Ha. unfold exchange in Ha. destruct (sl_state _ =? 0) eqn:Hz; [done|].
  injection Ha as <- <-. apply Z.eqb_neq in Hz. pose proof (eo_tags _ _ Hok _ _ Ht) as [Hs Hcg Hans Hr].
  refine (engine_ok_report hist e1 i _ _ _ _ Hok _ _).
  - pose proof (idle_slot t Hs Hb Hz). unfold lossy in *. congruence.
  - split; [done|done| |]; [|cbn; congruence]. destruct Hans as (A1 & A2 & A3 & A4 & _). unfold answered, owed in *.
    cbn. rewrite Hb, app_nil_r in *. split; [lia|]. split; [lia|]. split; [done|]. split.
    + eapply Forall_impl; [exact A4|]. simpl. lia.
    + by intros [_ ?]%app_nil.
Qed.

(** *** The handler's steps *)

Lemma wake_shape t : tag_shape t -> t_handler t = Waiting -> tag_shape (wake t).
Proof.
  intros Hs Hh. unfold tag_shape in Hs. rewrite Hh in Hs. destruct Hs as (Hf & Hst & Hi). unfold wake. cbn.
  destruct Hi as [Hi|Hi].
  - pose proof Hi as (Hb & Hz & Ha). rewrite Hb. cbn. destruct (t_closing t) eqn:Hc.
    + unfold tag_shape. cbn. rewrite Hf, Hc. split_and!; try done. by left.
    + apply shape_loop_head; [done|done|by left].
  - pose proof Hi as (Hb & _). rewrite Hb. cbn. unfold tag_shape. cbn. by split_and!.
Qed.

Lemma finish_ok hist e i t g z :
  engine_ok hist e -> e_tags e !! i = Some t -> t_handler t = Returning g z -> engine_ok hist (finish i t g z e).
Proof.
  intros Hok Ht Hh. pose proof (eo_tags _ _ Hok _ _ Ht) as [Hs Hc Ha Hr]. unfold tag_shape in Hs. rewrite Hh in Hs.
  destruct Hs as (Hf & Hst & -> & Hheld & Hz). pose proof Hheld as (Hb & _ & _ & Hg).
  unfold finish, retire, exchange. rewrite generation_ok_pos, (held_slot t kArmed kArmed) by done. cbn.
  refine (engine_ok_answer hist e i _ (Res _ _ _) _ _ Hok _ _ _); [done| |].
  - exists i, (t_request t). split; [done|]. split; [by apply Hr|by left].
  - set (t1 := set_idle _). assert (t_busy (loop_head t1) = false /\ t_generation (loop_head t1) = t_generation t /\
      t_next_generation (loop_head t1) = t_next_generation t /\ t_closing (loop_head t1) = t_closing t) as (E1 & E2 & E3 & E4).
    { unfold loop_head. by destruct (_ && _). }
    split; [|congruence|by apply (answered_publish t)|congruence]. apply shape_loop_head; [done|done|by left].
Qed.

Lemma mark_ok hist e i t :
  engine_ok hist e -> e_tags e !! i = Some t -> marking (t_handler t) = true -> engine_ok hist (mark i t e).
Proof.
  intros Hok Ht Hm. pose proof (eo_tags _ _ Hok _ _ Ht) as Htag. pose proof (to_shape _ _ _ _ _ _ Htag) as Hs.
  unfold mark. destruct (mark_step t) as [t' fails] eqn:Hms.
  assert (t_busy t' = t_busy t /\ t_generation t' = t_generation t /\ t_next_generation t' = t_next_generation t /\
    t_request t' = t_request t /\ t_closing t' = t_closing t /\ tag_shape t' /\ fails = []) as (E1 & E2 & E3 & E4 & E5 & E6 & ->).
  { unfold tag_shape in Hs. unfold mark_step in Hms. destruct (t_handler t) as [| | | | | |g|g|g|]; try done; destruct Hs as (Hf & Hst & Hs).
    - (* load *)
      injection Hms as <- <-. split_and!; try done. unfold tag_shape. cbn. destruct Hs as [[Hi Hl]|Hi].
      + pose proof Hi as (_ & _ & ->). cbn. split_and!; try done. by left.
      + pose proof Hi as (Hb & _ & Hact & Hg). rewrite Hact, (proj2 (Z.eqb_neq _ _)) by lia. cbn. by split_and!.
    - (* the compare-exchange *)
      destruct Hs as [-> Hi]. pose proof Hi as (Hb & _ & Hact & Hg). unfold publish_begin, exchange in Hms.
      rewrite generation_ok_pos, (held_slot t kArmed kArmed) in Hms by done. injection Hms as <- <-.
      split_and!; try done; unfold tag_shape; cbn; by split_and!.
    - destruct Hs as [-> Hi]. injection Hms as <- <-. split_and!; try done; unfold tag_shape; cbn; by split_and!.
    - destruct Hs as (-> & (Hb & Hz & Hact & Hg) & Hres). injection Hms as <- <-. split_and!; try done.
      unfold tag_shape. cbn. split_and!; try done. by right; left.
    - injection Hms as <- <-. split_and!; done. }
  refine (engine_ok_report hist e i _ _ _ _ Hok _ _); [by intros _ ?%elem_of_nil|]. rewrite app_nil_r.
  by eapply tag_ok_shape.
Qed.

Lemma close_ok hist e : engine_ok hist e -> engine_ok hist (begin_close e).
Proof.
  intros Hok. unfold begin_close. destruct (e_closed e) eqn:Hc; [done|]. destruct Hok as [H1 H2 H3].
  split; cbn; [|done|done].
  intros i t Hi. apply list_lookup_fmap_Some in Hi as (t0 & -> & Ht). destruct (H1 _ _ Ht) as [Hs _ Ha Hr].
  split; [|done|done|done]. unfold tag_shape in *. cbn. by destruct (t_handler t0); [destruct (t_handler_failed t0); intuition|..].
Qed.

Lemma die_shape t :
  tag_shape t -> alive (t_handler t) = true -> idle_loss || t_busy t = true -> tag_shape (set_handler t MarkLoad).
Proof.
  intros Hs Hal Hl. assert (idle_tag t -> lossy) as Hil.
  { intros (Hb & _). rewrite Hb, orb_false_r in Hl. exact Hl. }
  unfold tag_shape in *. cbn. destruct (t_handler t); try done; destruct Hs as (Hf & Hst & Hs); (split; [done|]); (split; [done|]);
    fold (idle_tag t); try (destruct Hs as [Hi|Hi]; [left; by split; [|apply Hil]|by right]); right; apply Hs.
Qed.

Lemma engine_step_ok hist e e' : engine_ok hist e -> step e e' -> engine_ok hist e'.
Proof.
  intros Hok Hst. destruct Hst as [delivers e|allocates tag e|e|allocates tag e|e i t Ht Hh|e i t Ht Hh Hr|e i t r g z Ht Hh Hz
    |e i t g z Ht Hh|e i t Ht Hal Hl|e i t Ht Hm|e n Hn].
  - by apply collect_ok.
  - unfold retry_signal. destruct (e_tags e !! _) as [t|] eqn:Ht; [|by apply engine_ok_sink].
    eapply (engine_ok_upd _ _ _ t); [done|done|]. intros gs. by apply tag_ok_shape; try apply shape_signal; destruct allocates.
  - by apply close_ok.
  - unfold retry_close_signal. destruct (e_tags e !! _) as [t|] eqn:Ht; [|by apply engine_ok_sink].
    destruct (negb (t_started t)); [done|]. eapply (engine_ok_upd _ _ _ t); [done|done|].
    intros gs. by apply tag_ok_shape; try apply shape_signal; destruct allocates.
  - eapply (engine_ok_upd _ _ _ t); [done|done|]. intros gs. apply tag_ok_shape; try (unfold loop_head; by destruct (_ && _)).
    intros Hs. unfold tag_shape in Hs. rewrite Hh in Hs. destruct Hs as (Hf & Hs & Hi). by apply shape_loop_head.
  - eapply (engine_ok_upd _ _ _ t); [done|done|]. intros gs.
    assert (forall {A} (f : TagState -> A), (forall b h, f (set_handler (set_ready t b) h) = f t) -> f (wake t) = f t) as Hsame.
    { intros A f Hf. unfold wake, loop_head. cbn. by destruct (t_busy t), (t_closing t); cbn; rewrite Hf. }
    apply tag_ok_shape; try by apply Hsame. intros Hs. by apply wake_shape.
  - eapply (engine_ok_upd _ _ _ t); [done|done|]. intros gs. apply tag_ok_shape; try done.
    intros Hs. unfold tag_shape in *. rewrite Hh in Hs. cbn. destruct Hs as (Hf & Hs & -> & -> & Hi). by split_and!.
  - by apply finish_ok.
  - eapply (engine_ok_upd _ _ _ t); [done|done|]. intros gs. apply tag_ok_shape; try done.
    intros Hs. by apply die_shape.
  - by apply mark_ok.
  - by apply engine_ok_pending.
Qed.

Lemma new_engine_ok depth : engine_ok [] (new_engine depth).
Proof.
  split; [|constructor|by intros _ ?%elem_of_nil]. intros i t Ht.
  apply lookup_replicate in Ht as [-> _]. split; [|done| |done].
  - unfold tag_shape. cbn. split_and!; try done. by left.
  - unfold answered, generations, owed. cbn. split_and!; try lia; try done; constructor.
Qed.

Lemma reaches_ok depth hist e : reaches depth hist e -> engine_ok hist e.
Proof.
  induction 1 as [|hist e delivers allocates r e' b _ IH _ Ha|hist e delivers allocates r e' f _ IH _ Ha|hist e e' _ IH Hs].
  - apply new_engine_ok.
  - by eapply engine_admit_ok.
  - by eapply refused_ok.
  - by eapply engine_step_ok.
Qed.

(** C26. In every interleaving of the owner, the handlers and the guards of
    handlers that die: the results published for a tag carry strictly increasing
    generations, each the one of an admitted request and with a value the source
    gives to that request or EIO; a tag that reports no failure has answered
    every admitted request exactly once, except the one it still serves; and
    unless a handler without a request is lost, the mailbox protocol never
    reports EPROTO. *)
Theorem tag_engine_correct depth hist e i t :
  reaches depth hist e -> e_tags e !! i = Some t ->
  let answers := generations (e_published e) i in
  StronglySorted Z.lt (answers ++ owed t) /\
  Forall (fun g => 1 <= g < t_next_generation t) (answers ++ owed t) /\
  (e_failures e = [] -> answers ++ owed t = seqZ 1 (t_next_generation t - 1)) /\
  Forall (explained hist) (e_published e) /\ (idle_loss = false -> EPROTO ∉ e_failures e).
Proof.
  intros Hr Ht answers. apply reaches_ok in Hr as [H1 H2 H3]. destruct (H1 _ _ Ht) as [_ _ (_ & _ & A1 & A2 & A3) _].
  split; [done|]. split; [done|]. split; [done|]. by split.
Qed.
(** ** Progress *)

(** A guard that has flagged its tag has woken the owner or is about to. *)
Definition wakes_ok (e : Engine) : Prop :=
  forall i t, e_tags e !! i = Some t -> t_handler_failed t = true -> e_foreign_pending e = true \/ e_wakes e <> 0%nat.

Lemma wakes_ok_set e i t t' :
  wakes_ok e -> e_tags e !! i = Some t -> t_handler_failed t' = t_handler_failed t ->
  forall closed pub fails, wakes_ok (Eng (<[i := t']> (e_tags e)) (e_foreign_pending e) closed (e_wakes e) pub fails).
Proof.
  intros Hw Ht Hf closed pub fails j t0 Hj Ht0. cbn in *. destruct (decide (i = j)) as [<-|Hne].
  - rewrite list_lookup_insert_eq in Hj by (by apply lookup_lt_Some in Ht). injection Hj as <-.
    apply (Hw i t); [done|congruence].
  - rewrite list_lookup_insert_ne in Hj by done. by eapply Hw.
Qed.

Definition unflagged (e : Engine) (i : nat) : Prop := forall t, e_tags e !! i = Some t -> t_handler_failed t = false.

(** Collecting a tag clears its flag and leaves the other tags. *)
Lemma collect_tag_tags delivers i e :
  unflagged (collect_tag delivers i e) i /\ (forall j, j <> i -> e_tags (collect_tag delivers i e) !! j = e_tags e !! j) /\
  length (e_tags (collect_tag delivers i e)) = length (e_tags e).
Proof.
  unfold collect_tag, unflagged. destruct (e_tags e !! i) as [t|] eqn:Ht.
  2: { split; [by rewrite Ht|done]. }
  destruct (negb (t_handler_failed t)) eqn:Hf.
  { split; [|done]. intros t0 Ht0. rewrite Ht in Ht0. injection Ht0 as <-. by apply negb_true_iff in Hf. }
  cbv zeta. set (taken := if negb _ then _ else _). clearbody taken. set (t' := set_collected _).
  assert (t_handler_failed t' = false) as Hf' by done. clearbody t'. set (e1 := if negb _ then sink_fail e EPROTO else e).
  assert (e_tags e1 = e_tags e) as E1 by (unfold e1; by case_if). clearbody e1.
  set (e2 := match taken with Some _ => _ | None => _ end).
  assert (e_tags e2 = <[i := t']> (e_tags e)) as E2 by (unfold e2; rewrite <- E1; destruct taken as [[r s]|]; [by destruct (delivers r)|done]).
  rewrite E2. split; [|split; [intros j Hj; by rewrite list_lookup_insert_ne|by rewrite length_insert]].
  intros t0 Ht0. rewrite list_lookup_insert_eq in Ht0 by (by apply lookup_lt_Some in Ht). by injection Ht0 as <-.
Qed.

Lemma collect_unflagged delivers e i :
  e_foreign_pending e = true -> unflagged (collect_foreign_results delivers e) i.
Proof.
  intros Hp. unfold collect_foreign_results. rewrite Hp. cbn [negb].
  change (e_tags e) with (e_tags (set_pending e false (e_wakes e))). generalize (set_pending e false (e_wakes e)) as e0. intros e0.
  assert (forall l e1, (i ∈ l \/ unflagged e1 i) -> unflagged (foldl (fun e i => collect_tag delivers i e) e1 l) i) as H.
  { induction l as [|j l IH]; intros e1 Hi; cbn [foldl]; [destruct Hi as [?%elem_of_nil|?]; done|].
    destruct (collect_tag_tags delivers j e1) as (H1 & H2 & _). apply IH. destruct (decide (j = i)) as [->|Hne]; [by right|].
    destruct Hi as [[Hi|Hi]%elem_of_cons|Hi]; [congruence|by left|]. right. unfold unflagged. by rewrite H2 by congruence. }
  destruct (decide (i < length (e_tags e0))%nat) as [Hlt|Hge].
  - apply H. left. apply elem_of_seq. lia.
  - apply H. right. intros t Ht. by apply lookup_lt_Some in Ht.
Qed.

Lemma collect_wakes delivers e : wakes_ok e -> wakes_ok (collect_foreign_results delivers e).
Proof.
  intros Hw. destruct (e_foreign_pending e) eqn:Hp.
  - intros i t Ht Hf. pose proof (collect_unflagged delivers e i Hp t Ht). congruence.
  - unfold collect_foreign_results. by rewrite Hp.
Qed.

Lemma sink_wakes e x : wakes_ok e -> wakes_ok (sink_fail e x).
Proof. done. Qed.

Lemma admit_wakes delivers allocates r e : wakes_ok e -> wakes_ok (admit_request delivers allocates r e).2.
Proof.
  intros Hw. unfold admit_request. destruct (e_closed e); [done|]. apply (collect_wakes delivers) in Hw.
  set (e1 := collect_foreign_results delivers e) in *. clearbody e1.
  destruct (e_tags e1 !! _) as [t|] eqn:Ht; [|done]. destruct (t_busy t); [done|]. destruct (negb _); [done|]. cbv zeta.
  destruct (arm _ _) as [s|]; refine (wakes_ok_set e1 _ t _ Hw Ht _ _ _ _); [|done].
  unfold signal, spawn. by destruct allocates, (t_started _).
Qed.

Lemma step_wakes e e' : wakes_ok e -> step e e' -> wakes_ok e'.
Proof.
  intros Hw Hst. destruct Hst as [delivers e|allocates tag e|e|allocates tag e|e i t Ht Hh|e i t Ht Hh Hr|e i t r g z Ht Hh Hz
    |e i t g z Ht Hh|e i t Ht Hal Hl|e i t Ht Hm|e n Hn].
  - by apply collect_wakes.
  - unfold retry_signal. destruct (e_tags e !! _) as [t|] eqn:Ht; [|done]. eapply wakes_ok_set; try done. by destruct allocates.
  - unfold begin_close. destruct (e_closed e); [done|]. intros i t Hi Hf. cbn in *.
    apply list_lookup_fmap_Some in Hi as (t0 & -> & Ht). by apply (Hw i t0).
  - unfold retry_close_signal. destruct (e_tags e !! _) as [t|] eqn:Ht; [|done]. destruct (negb _); [done|].
    eapply wakes_ok_set; try done. by destruct allocates.
  - eapply wakes_ok_set; try done. unfold loop_head. by destruct (_ && _).
  - eapply wakes_ok_set; try done. unfold wake, loop_head. cbn. by destruct (t_busy t), (t_closing t).
  - by eapply wakes_ok_set.
  - unfold finish. destruct (retire _ _); refine (wakes_ok_set e i t _ Hw Ht _ _ _ _); unfold loop_head; by destruct (_ && _).
  - by eapply wakes_ok_set.
  - unfold mark, mark_step. destruct (t_handler t) as [| | | | | |g|g|g|]; try done;
      try (refine (wakes_ok_set e i t _ Hw Ht _ _ _ _); done).
    + destruct (publish_begin _ _); refine (wakes_ok_set e i t _ Hw Ht _ _ _ _); done.
    + intros j t0 _ _. by right.
  - intros i t _ _. by left.
Qed.

Lemma reaches_wakes depth hist e : reaches depth hist e -> wakes_ok e.
Proof.
  induction 1 as [|hist e delivers allocates r e' b _ IH _ Ha|hist e delivers allocates r e' f _ IH _ Ha|hist e e' _ IH Hs].
  - intros i t Ht Hf. apply lookup_replicate in Ht as [-> _]. done.
  - replace e' with (admit_request delivers allocates r e).2 by by rewrite Ha. by apply admit_wakes.
  - replace e' with (admit_request delivers allocates r e).2 by by rewrite Ha. by apply admit_wakes.
  - by eapply step_wakes.
Qed.

Section progress.
Context (Htotal : forall r, exists z, serves r z) (Hsafe : idle_loss = false).

(** Some continuation publishes a result for generation [g] of tag [i]. *)
Definition answers (e : Engine) (i : nat) (g : Z) : Prop :=
  exists e', rtc step e e' /\ g ∈ generations (e_published e') i.

Lemma answers_step e e' i g : step e e' -> answers e' i g -> answers e i g.
Proof. intros Hs (e2 & Hr & Hg). exists e2. split; [by eapply rtc_l|done]. Qed.

Lemma upd_lookup e i t t' : e_tags e !! i = Some t -> e_tags (upd e i t') !! i = Some t'.
Proof. intros Ht. cbn. apply list_lookup_insert_eq. by apply lookup_lt_Some in Ht. Qed.

Lemma generations_snoc l i g z : g ∈ generations (l ++ [Res (Z.of_nat i) g z]) i.
Proof. rewrite generations_app, (generations_here [_]) by (by constructor). set_solver. Qed.

Lemma answers_returning e i t g z :
  e_tags e !! i = Some t -> t_handler t = Returning g z -> answers e i g.
Proof.
  intros Ht Hh. eapply answers_step; [by eapply step_finish|]. eexists. split; [apply rtc_refl|].
  unfold finish. destruct (retire _ _); cbn [e_published set_tags sink_publish sink_fail]; apply generations_snoc.
Qed.

Lemma answers_serving e i t r g : e_tags e !! i = Some t -> t_handler t = Serving r g -> answers e i g.
Proof.
  intros Ht Hh. destruct (Htotal r) as [z Hz]. eapply answers_step; [by eapply step_serve|].
  eapply answers_returning; [by eapply upd_lookup|done].
Qed.

Lemma answers_waiting e i t :
  e_tags e !! i = Some t -> t_handler t = Waiting -> t_busy t = true -> answers e i (t_generation t).
Proof.
  intros Ht Hh Hb. eapply answers_step; [apply (step_signal true (Z.of_nat i))|].
  unfold retry_signal. rewrite Nat2Z.id, Ht. cbn [snd]. change (set_tags _ _) with (upd e i (set_ready t true)).
  eapply answers_step; [eapply (step_wake _ i (set_ready t true)); [by eapply upd_lookup|done|done]|].
  unfold wake. cbn [t_busy set_ready]. rewrite Hb. cbn [negb].
  eapply (answers_serving _ _ _ (t_request t)); [eapply upd_lookup; by eapply upd_lookup|done].
Qed.

Lemma answers_starting e i t :
  e_tags e !! i = Some t -> t_handler t = Starting -> t_busy t = true -> answers e i (t_generation t).
Proof.
  intros Ht Hh Hb. eapply answers_step; [by eapply step_start|]. unfold loop_head. rewrite Hb, andb_false_r.
  by apply (answers_waiting _ i (set_handler t Waiting)); [eapply upd_lookup|..].
Qed.

(** *** A lost handler *)

Lemma collect_publishes delivers i j e : e_published e `prefix_of` e_published (collect_tag delivers j e) /\
  (forall t, i = j -> e_tags e !! j = Some t -> t_handler_failed t = true -> left_result t -> (forall r, delivers r = true) ->
   t_generation t ∈ generations (e_published (collect_tag delivers j e)) j).
Proof.
  unfold collect_tag. destruct (e_tags e !! j) as [t|] eqn:Ht; [|done]. split.
  - destruct (negb (t_handler_failed t)); [done|]. cbv zeta. set (e1 := if negb _ then sink_fail e EPROTO else e).
    assert (e_published e1 = e_published e) as <- by (unfold e1; by case_if). clearbody e1.
    destruct (if negb (t_generation t =? 0) then _ else _) as [[r s]|]; [|done].
    destruct (delivers r); [by apply prefix_app_r|done].
  - intros t0 -> [= <-] Hf [Hh _] Hd. rewrite Hf. cbn [negb]. pose proof Hh as (Hb & _ & _ & Hg).
    rewrite (proj2 (Z.eqb_neq _ _)) by lia. cbn [negb]. rewrite (take_held t _ kReady) by done. cbn [Z.eqb kReady Pos.eqb]. rewrite Hb, Hd. cbn [Bool.eqb is_Some bool_decide negb].
    rewrite bool_decide_true by (by eexists). cbn [Bool.eqb negb e_published set_tags sink_publish].
    apply generations_snoc.
Qed.

Lemma generations_prefix l k i : l `prefix_of` k -> generations l i ⊆ generations k i.
Proof. intros [m ->]. rewrite generations_app. set_solver. Qed.

Lemma answers_collected e i t :
  e_tags e !! i = Some t -> e_foreign_pending e = true -> t_handler_failed t = true -> left_result t ->
  answers e i (t_generation t).
Proof.
  intros Ht Hp Hf Hl. eapply answers_step; [apply (step_collect (fun _ => true))|]. eexists. split; [apply rtc_refl|].
  unfold collect_foreign_results. rewrite Hp. cbn [negb].
  assert (forall l e0, (e_tags e0 !! i = Some t /\ i ∈ l) \/ t_generation t ∈ generations (e_published e0) i ->
    t_generation t ∈ generations (e_published (foldl (fun e i => collect_tag (fun _ => true) i e) e0 l)) i) as H.
  { induction l as [|j l IH]; intros e0 [[H1 H2]|H]; cbn [foldl]; try done; [by apply elem_of_nil in H2|..]; apply IH;
      destruct (collect_publishes (fun _ => true) i j e0) as [Hpre Hnew].
    - destruct (decide (i = j)) as [<-|Hne]; [right; by apply Hnew|]. left. apply elem_of_cons in H2 as [->|H2]; [done|].
      split; [|done]. by rewrite (proj1 (proj2 (collect_tag_tags _ j e0))).
    - right. by apply (generations_prefix _ _ _ Hpre). }
  apply H. left. split; [done|]. apply elem_of_seq. apply lookup_lt_Some in Ht. lia.
Qed.

Lemma answers_flagged e i t :
  wakes_ok e -> e_tags e !! i = Some t -> t_handler_failed t = true -> left_result t -> answers e i (t_generation t).
Proof.
  intros Hw Ht Hf Hl. destruct (Hw i t Ht Hf) as [Hp|Hn]; [by apply answers_collected|].
  destruct (e_wakes e) as [|n] eqn:En; [done|]. eapply answers_step; [by apply step_pending|]. by apply answers_collected.
Qed.

(** Each access of the guard leads to the next. *)
Lemma mark_lookup e i t : e_tags e !! i = Some t -> e_tags (mark i t e) !! i = Some (mark_step t).1.
Proof.
  intros Ht. unfold mark. destruct (mark_step t) as [t' fails]. cbn. apply list_lookup_insert_eq. by apply lookup_lt_Some in Ht.
Qed.
Lemma marking_step e i t : e_tags e !! i = Some t -> marking (t_handler t) = true -> step e (mark i t e).
Proof. by econstructor. Qed.

Lemma mark_generation t : t_generation (mark_step t).1 = t_generation t /\ t_busy (mark_step t).1 = t_busy t.
Proof. unfold mark_step. destruct (t_handler t); try done. by destruct (publish_begin _ _). Qed.

Lemma answers_marking n hist e i t :
  engine_ok hist e -> wakes_ok e -> e_tags e !! i = Some t -> t_busy t = true ->
  match t_handler t with
  | MarkLoad => (5 <= n)%nat | MarkBegin _ => (4 <= n)%nat | MarkResult _ => (3 <= n)%nat
  | MarkReady _ => (2 <= n)%nat | MarkFailed => (1 <= n)%nat | Absent => True | _ => False
  end -> answers e i (t_generation t).
Proof.
  revert e t. induction n as [|n IH]; intros e t Hok Hw Ht Hb Hn;
    pose proof (to_shape _ _ _ _ _ _ (eo_tags _ _ Hok _ _ Ht)) as Hs; destruct (t_handler t) eqn:Hh; try lia; try done.
  1,2: unfold tag_shape in Hs; rewrite Hh in Hs; destruct (t_handler_failed t) eqn:Hf; [|destruct Hs; congruence];
    apply answers_flagged; try done; destruct Hs as [_ [[(Hb' & _) _]|[?|[_ Hl]]]]; [congruence|done|unfold lossy in Hl; congruence].
  all: assert (step e (mark i t e)) as Hst by (apply marking_step; [done|by rewrite Hh]);
    eapply answers_step; [exact Hst|]; destruct (mark_generation t) as [E1 E2]; rewrite <- E1;
    apply IH; [by eapply engine_step_ok|by eapply step_wakes|by apply mark_lookup|congruence|].
  all: unfold tag_shape in Hs; rewrite Hh in Hs; destruct Hs as (Hf & Hst' & Hs); unfold mark_step; rewrite Hh; cbn; try lia.
  - destruct Hs as [[(Hb' & _) _]|(_ & _ & Hact & Hg)]; [congruence|]. rewrite Hact, (proj2 (Z.eqb_neq _ _)) by lia. cbn. lia.
  - destruct Hs as [-> Hi]. pose proof Hi as (_ & _ & _ & Hg). unfold publish_begin, exchange.
    rewrite generation_ok_pos, (held_slot t kArmed kArmed) by done. cbn. lia.
Qed.

(** C27. From every reachable state, when handlers are lost only while they serve
    a request and the source answers, the obligation of a busy tag can be met:
    some continuation publishes the result of its generation, whether its handler
    still runs or has been lost at any point. *)
Theorem tag_engine_progress depth hist e i t :
  reaches depth hist e -> e_tags e !! i = Some t -> t_busy t = true -> answers e i (t_generation t).
Proof.
  intros Hr Ht Hb. pose proof (reaches_wakes _ _ _ Hr) as Hw. apply reaches_ok in Hr.
  pose proof (to_shape _ _ _ _ _ _ (eo_tags _ _ Hr _ _ Ht)) as Hs. unfold tag_shape in Hs.
  destruct (t_handler t) as [| | |r g|g z| |g|g|g|] eqn:Hh;
    try (eapply (answers_marking 5); [done|done|done|done|rewrite Hh; lia || done]).
  - by apply answers_starting.
  - by apply answers_waiting.
  - destruct Hs as (_ & _ & _ & -> & _). by eapply answers_serving.
  - destruct Hs as (_ & _ & -> & _). by eapply answers_returning.
Qed.
End progress.
End steps.

(** ** Two runs of a queue of depth two *)

Definition example_request : IoRequest := IoReq 1 0 0 8 1.
Definition answers_zero (r : IoRequest) (z : Z) : Prop := z = 0.

Definition run_admit (e : Engine) : Engine := (admit_request (fun _ => true) true example_request e).2.
Definition run_tag (f : TagState -> TagState) (e : Engine) : Engine :=
  match e_tags e !! 1%nat with Some t => upd e 1 (f t) | None => e end.
Definition run_finish (e : Engine) : Engine :=
  match e_tags e !! 1%nat with Some t => finish 1 t 1 0 e | None => e end.

(** The request is admitted, its handler starts. *)
Definition example_busy : Engine := run_tag loop_head (run_admit (new_engine 2)).
(** The handler serves it and publishes. *)
Definition example_done : Engine := run_finish (run_tag (fun t => set_handler t (Returning 1 0)) (run_tag wake example_busy)).

Lemma example_busy_reached : reaches answers_zero false 2 [(1%nat, 1, example_request)] example_busy.
Proof.
  eapply reaches_step; [|eapply (step_start _ _ _ 1%nat); [vm_compute; reflexivity|done]].
  exact (reaches_admit answers_zero false 2 [] (new_engine 2) (fun _ => true) true example_request
    (run_admit (new_engine 2)) true (reaches_new _ _ 2) ltac:(done) eq_refl).
Qed.

Lemma example_done_reached : reaches answers_zero false 2 [(1%nat, 1, example_request)] example_done.
Proof.
  eapply reaches_step; [|eapply (step_finish _ _ _ 1%nat); [vm_compute; reflexivity|done]].
  eapply reaches_step; [|eapply (step_serve _ _ _ 1%nat _ example_request 1 0); [vm_compute; reflexivity|done|done]].
  eapply reaches_step; [|eapply (step_wake _ _ _ 1%nat); [vm_compute; reflexivity|done|done]].
  apply example_busy_reached.
Qed.

Lemma tag_engine_correct_witness :
  e_published example_done = [Res 1 1 0] /\ e_failures example_done = [] /\
  generations (e_published example_done) 1 = seqZ 1 1 /\ EPROTO ∉ e_failures example_done.
Proof.
  split; [by vm_compute|]. split; [by vm_compute|].
  destruct (e_tags example_done !! 1%nat) as [t|] eqn:Ht; [|by vm_compute in Ht].
  destruct (tag_engine_correct answers_zero false 2 _ example_done 1 t example_done_reached Ht) as (_ & _ & H3 & _ & H5).
  assert (t_next_generation t = 2 /\ t_busy t = false) as [E1 E2] by (vm_compute in Ht; by injection Ht as <-).
  split; [|by apply H5]. specialize (H3 ltac:(by vm_compute)). unfold owed in H3. rewrite E1, E2, app_nil_r in H3. exact H3.
Defined.

Lemma tag_engine_progress_witness : answers answers_zero false example_busy 1 1.
Proof.
  destruct (e_tags example_busy !! 1%nat) as [t|] eqn:Ht; [|by vm_compute in Ht].
  assert (t_generation t = 1 /\ t_busy t = true) as [E1 E2] by (vm_compute in Ht; by injection Ht as <-).
  rewrite <- E1.
  by apply (tag_engine_progress answers_zero false (fun _ => ex_intro _ 0 eq_refl) eq_refl 2 _ _ _ t example_busy_reached Ht).
Defined.
