(* ===== verification/TagServe.v ===== *)
(** * Serving a request ([TagEngine::Impl::run_tag] of [ublk/tag_engine.cpp])

    What a handler does with an admitted request: the dispatch on the operation
    over a block source that may be writable, and the result it gives back.  The
    opcodes of the kernel interface are parameters. *)
From stdpp Require Import sets.
From S2P Require Import Prelude Bytes LsmtFormat Source File Segments Merge Trim Lsmt Journal FilePair PairGrow LsmtRw LsmtRwGrow MergedWritable MergedLsmtRw TagEngine.

Open Scope Z_scope.

(** A call of the source: the value, a negative errno, or an exception. *)
Inductive called (A : Type) := Returned (a : A) | Negative (e : Z) | Threw.
Arguments Returned {A} a.
Arguments Negative {A} e.
Arguments Threw {A}.

(** [BlobSource] and [WritableBlobSource] over a state [D]; a read-only root has
    no writable part. *)
Record WritablePart (D : Type) := MkWritable {
  wp_pwrite : bytes -> Z -> D -> called Z * D;
  wp_flush : D -> called unit * D;
  wp_discard : Z -> Z -> D -> called unit * D;
}.
Arguments MkWritable {D} wp_pwrite wp_flush wp_discard.
Arguments wp_pwrite {D} w buf off d.
Arguments wp_flush {D} w d.
Arguments wp_discard {D} w off len d.
Record Root (D : Type) := MkRoot {
  rt_pread : Z -> Z -> D -> called bytes * D;
  rt_writable : option (WritablePart D);
}.
Arguments MkRoot {D} rt_pread rt_writable.
Arguments rt_pread {D} r count off d.
Arguments rt_writable {D} r.

(** [ublk_cmd.h]. *)
Record Opcodes := MkOpcodes {
  UBLK_IO_OP_READ : Z;
  UBLK_IO_OP_WRITE : Z;
  UBLK_IO_OP_FLUSH : Z;
  UBLK_IO_OP_DISCARD : Z;
  UBLK_IO_OP_WRITE_ZEROES : Z;
  UBLK_IO_F_NOUNMAP : Z;
}.
(** The cases of one [switch] differ. *)
Definition opcodes_ok (o : Opcodes) : Prop :=
  NoDup [UBLK_IO_OP_READ o; UBLK_IO_OP_WRITE o; UBLK_IO_OP_FLUSH o; UBLK_IO_OP_DISCARD o; UBLK_IO_OP_WRITE_ZEROES o].

(** [static_cast<int32_t>]. *)
Definition to_i32 (x : Z) : Z := let x := x mod 2 ^ 32 in if x <? 2 ^ 31 then x else x - 2 ^ 32.

Section serve.
Context {D : Type} (op : Opcodes) (root : Root D).

(** Result, buffer of the tag and source afterwards.  After a failed read the
    buffer keeps what it had. *)
Definition serve_read (r : IoRequest) (buffer : bytes) (d : D) : Z * bytes * D :=
  let length := byte_len r in
  match rt_pread root length (byte_offset r) d with
  | (Returned bs, d) =>
      let buffer := put buffer 0 bs in
      let buffer := if zlen bs <? length then put buffer (zlen bs) (zeros (length - zlen bs)) else buffer in
      (to_i32 length, buffer, d)
  | (Negative e, d) => (- e, buffer, d)
  | (Threw, d) => (- EIO, buffer, d)
  end.

Definition serve_flush (buffer : bytes) (d : D) : Z * bytes * D :=
  match rt_writable root with
  | None => (0, buffer, d)
  | Some w =>
      match wp_flush w d with
      | (Returned _, d) => (0, buffer, d)
      | (Negative e, d) => (- e, buffer, d)
      | (Threw, d) => (- EIO, buffer, d)
      end
  end.

(** [pwrite] of the buffer; [success] is the result of a complete write. *)
Definition serve_pwrite (w : WritablePart D) (r : IoRequest) (success : Z) (buffer : bytes) (d : D) : Z * bytes * D :=
  match wp_pwrite w (ztake (byte_len r) buffer) (byte_offset r) d with
  | (Returned _, d) => (success, buffer, d)
  | (Negative e, d) => (- e, buffer, d)
  | (Threw, d) => (- EIO, buffer, d)
  end.

Definition serve_discard (w : WritablePart D) (r : IoRequest) (buffer : bytes) (d : D) : Z * bytes * D :=
  match wp_discard w (byte_offset r) (byte_len r) d with
  | (Returned _, d) => (0, buffer, d)
  | (Negative e, d) => (- e, buffer, d)
  | (Threw, d) => (- EIO, buffer, d)
  end.

Definition serve (r : IoRequest) (buffer : bytes) (d : D) : Z * bytes * D :=
  if io_op r =? UBLK_IO_OP_READ op then serve_read r buffer d else
  if io_op r =? UBLK_IO_OP_FLUSH op then serve_flush buffer d else
  if io_op r =? UBLK_IO_OP_WRITE op then
    match rt_writable root with
    | None => (- EROFS, buffer, d)
    | Some w => serve_pwrite w r (to_i32 (byte_len r)) buffer d
    end else
  if io_op r =? UBLK_IO_OP_DISCARD op then
    match rt_writable root with
    | None => (- EROFS, buffer, d)
    | Some w => serve_discard w r buffer d
    end else
  if io_op r =? UBLK_IO_OP_WRITE_ZEROES op then
    match rt_writable root with
    | None => (- EROFS, buffer, d)
    | Some w =>
        if negb (Z.land (io_flags r) (UBLK_IO_F_NOUNMAP op) =? 0)
        then serve_pwrite w r 0 (put buffer 0 (zeros (byte_len r))) d
        else serve_discard w r buffer d
    end
  else (- EOPNOTSUPP, buffer, d).
End serve.

(** ** The merged device as the root *)

Definition as_call {D A} (m : io D A) : D -> called A * D := fun d =>
  match m d with
  | (Ok a, d) => (Returned a, d)
  | (Err (Errno e), d) => (Negative e, d)
  | (Err _, d) => (Threw, d)
  end.

Definition device_root {T W} `{WritableLayer T W} : Root (MergedWritable T W) :=
  MkRoot (fun count off => as_call (mw_pread count off))
    (Some (MkWritable (fun buf off => as_call (mw_pwrite buf off)) (as_call mw_flush)
             (fun off len => as_call (mw_discard off len)))).

(** A short read completed with zeroes. *)
Lemma short_read_filled buf f a m n :
  0 <= m <= n -> n <= zlen buf ->
  let b := put buf 0 (slice f a m) in
  let b := if m <? n then put b m (zeros (n - m)) else b in
  sub 0 n b = slice (fun i => if i <? a + m then f i else 0) a n.
Proof.
  intros Hm Hn. cbv zeta. assert (zlen (slice f a m) = m) as E by len.
  assert (zlen (put buf 0 (slice f a m)) = zlen buf) as E1 by (apply zlen_put; lia).
  set (b := if m <? n then _ else _).
  assert (zlen b = zlen buf /\ forall i, 0 <= i < n -> bget b i = if i <? m then f (a + i) else 0) as [Eb Hb].
  { unfold b. assert (forall i, 0 <= i < m -> bget (put buf 0 (slice f a m)) i = f (a + i)) as Hlow.
    { intros i Hi. rewrite bget_put, decide_True by lia. rewrite bget_slice by lia. f_equal. lia. }
    destruct (Z.ltb_spec m n).
    - assert (zlen (zeros (n - m)) = n - m) as E2 by len. split; [rewrite zlen_put; lia|]. intros i Hi.
      rewrite bget_put by lia. case_decide; [rewrite bget_zeros; by rewrite (proj2 (Z.ltb_ge _ _)) by lia|].
      rewrite (proj2 (Z.ltb_lt _ _)) by lia. apply Hlow. lia.
    - split; [done|]. intros i Hi. rewrite (proj2 (Z.ltb_lt _ _)) by lia. apply Hlow. lia. }
  apply list_eq_bget; [len|]. intros i Hi. autorewrite with zlen in Hi. rewrite bget_sub, bget_slice by lia.
  rewrite Z.add_0_l, Hb by lia. destruct (Z.ltb_spec i m), (Z.ltb_spec (a + i) (a + m)); done || lia.
Qed.

(** A clause about another operation. *)
Ltac other_op :=
  let H := fresh "H" in
  intros H; exfalso; first [congruence|destruct H; congruence|apply H; rewrite ?list_elem_of_In; simpl; tauto].

Section device.
Context {T W : Type} `{WL : WritableLayer T W}.
Context (ok : T -> Prop) (same : T -> T -> Prop) (payload : T -> Z -> Z) (room : T -> Z -> Prop) (discardable : T -> Z -> Z -> Prop) (growable : T -> Prop).
Context `{WS : !WritableSpec ok same payload room discardable growable}.
Context (op : Opcodes) (cs : list (Z -> Z)) (s : MergedWritable T W) (r : IoRequest) (buf : bytes).
Context (Hs : mw_ok ok cs s) (Hc : counted s).
Context (Hstart : 0 <= io_start_sector r < 2 ^ 55) (Hnr : 0 < io_nr_sectors r < 2 ^ 22) (Hbuf : byte_len r <= zlen buf).

Let a := io_start_sector r * 512.
Let n := io_nr_sectors r * 512.
Let view (s : MergedWritable T W) (i : Z) : Z := if i <? mw_vsize s then device payload cs s i else 0.
(** Nothing outside the request's range changes. *)
Let local (s' : MergedWritable T W) : Prop :=
  mw_ok ok cs s' /\ mw_vsize s' = mw_vsize s /\
  forall i, 0 <= i < mw_vsize s -> ~ a <= i < a + n -> device payload cs s' i = device payload cs s i.
Let unchanged (s' : MergedWritable T W) : Prop :=
  mw_ok ok cs s' /\ mw_vsize s' = mw_vsize s /\ forall i, 0 <= i < mw_vsize s -> device payload cs s' i = device payload cs s i.

Lemma request_range : byte_offset r = a /\ byte_len r = n /\ to_i32 (byte_len r) = n /\ 0 <= a /\ 0 < n < 2 ^ 31.
Proof.
  assert (0 < n < 2 ^ 31) as Hn by (unfold n; lia). assert (byte_len r = n) as El by (apply Z.mod_small; lia).
  split; [apply u64_small; lia|]. split; [done|]. split; [|split; [unfold a; lia|done]].
  rewrite El. unfold to_i32. rewrite Z.mod_small by lia. by rewrite (proj2 (Z.ltb_lt _ _)) by lia.
Qed.

Lemma serve_read_spec :
  let '(z, buf', s') := serve_read device_root r buf s in
  unchanged s' /\ ((z = n /\ sub 0 n buf' = slice (view s) a n) \/ exists e, z = - e).
Proof.
  destruct request_range as (Ea & El & Ei & Ha & Hn). unfold serve_read, device_root, as_call. cbn [rt_pread].
  rewrite Ea, Ei, El. pose proof (mw_pread_spec ok same payload room discardable growable cs s n a Hs Hc Ha ltac:(lia)) as H.
  destruct (mw_pread n a s) as [[bs|f] s']; destruct H as [[Hd Hr] _];
    destruct (same_device_ok ok same payload room discardable growable cs s s' Hs Hd) as [Hok' Hdev];
    assert (unchanged s') as Hun by (destruct Hd as (x & -> & _); by split_and!).
  2: { destruct Hr as [e ->]. split; [done|]. right. by exists e. }
  split; [done|]. left. split; [done|]. subst bs. rewrite El in Hbuf.
  set (m := avail (mw_vsize s) n a) in *. assert (0 <= m <= n) as Hm by (unfold m, avail; lia).
  replace (zlen (slice (device payload cs s) a m)) with m by (symmetry; len). rewrite short_read_filled by done.
  apply slice_ext. intros i Hi. unfold view, m, avail.
  destruct (Z.ltb_spec i (a + Z.min n (Z.max 0 (mw_vsize s - a)))), (Z.ltb_spec i (mw_vsize s)); done || lia.
Qed.

Lemma serve_pwrite_spec success data :
  room (mw_top s) n -> byte_len r <= zlen data ->
  forall w, rt_writable (D := MergedWritable T W) device_root = Some w ->
  let '(z, _, s') := serve_pwrite w r success data s in
  local s' /\ ((z = success /\ forall i, a <= i < a + n -> device payload cs s' i = bget data (i - a)) \/ exists e, z = - e).
Proof.
  intros Hroom Hd w [= <-]. destruct request_range as (Ea & El & Ei & Ha & Hn). unfold serve_pwrite, as_call. cbn [wp_pwrite].
  rewrite Ea, El in *. assert (zlen (ztake n data) = n) as Ez by len.
  pose proof (mw_pwrite_spec ok same payload room discardable growable cs s (ztake n data) a Hs Hc) as H. rewrite Ez in H.
  specialize (H Hroom Ha). destruct (mw_pwrite (ztake n data) a s) as [[k|f] s']; destruct H as [(H1 & _ & H3 & _ & _ & H6 & H7) _].
  - split; [by split_and!|]. left. split; [done|]. intros i Hi. destruct H7 as [_ H7]. rewrite H7 by done.
    apply bget_ztake. lia.
  - destruct H7 as [e ->]. split; [by split_and!|]. right. by exists e.
Qed.

Lemma serve_discard_spec data :
  discardable (mw_top s) a n -> forall w, rt_writable (D := MergedWritable T W) device_root = Some w ->
  let '(z, _, s') := serve_discard w r data s in
  local s' /\ ((z = 0 /\ forall i, a <= i < a + n -> device payload cs s' i = 0) \/ exists e, z = - e).
Proof.
  intros Hdis w [= <-]. destruct request_range as (Ea & El & Ei & Ha & Hn). unfold serve_discard, as_call. cbn [wp_discard].
  rewrite Ea, El in *. pose proof (mw_discard_spec ok same payload room discardable growable cs s a n Hs Hc Hdis Ha ltac:(lia)) as H.
  destruct (mw_discard a n s) as [[k|f] s']; destruct H as (H1 & _ & H3 & _ & _ & H6 & H7).
  - split; [by split_and!|]. left. split; [done|]. apply H7.
  - destruct H7 as [e ->]. split; [by split_and!|]. right. by exists e.
Qed.

Lemma serve_flush_spec :
  let '(z, _, s') := serve_flush (D := MergedWritable T W) device_root buf s in
  unchanged s' /\ (z = 0 \/ exists e, z = - e).
Proof.
  unfold serve_flush, device_root, as_call. cbn [rt_writable wp_flush].
  pose proof (mw_flush_spec ok same payload room discardable growable cs s Hs Hc) as H.
  destruct (mw_flush s) as [[k|f] s']; destruct H as ((K1 & _ & _ & _ & _ & K2) & K3 & K4).
  - split; [by split_and!|by left].
  - destruct K4 as [e ->]. split; [by split_and!|]. right. by exists e.
Qed.

End device.

(** The values of [ublk_cmd.h]. *)
Definition linux_opcodes : Opcodes := MkOpcodes 0 1 2 3 5 (2 ^ 15).

