(* ===== verification/HybridFormat.v ===== *)
(** * Replay of a Hybrid mapping log ([format/hybrid_format.cpp])

    The log of the upstream Hybrid format.  Its records keep the payload a
    ZERO mapping still owns, so that a later write can reuse it; at the end of
    the replay a ZERO mapping whose payload is not its own gives it up. *)
From stdpp Require Import sets sorting.
From S2P Require Import Prelude Bytes LsmtFormat Source File Segments Merge Trim Lsmt Journal FilePair.

Open Scope Z_scope.

Definition kHybridFlag : Z := 2 ^ 5.
Definition kNoPhysicalOffset : Z := kMaxMoffset.

Definition hybrid_validate_pair (data index : HeaderTrailer) (data_bytes index_bytes : Z) : res Z :=
  if negb (ht_flags data =? Z.lor kHybridFlag 3) || negb (ht_flags index =? Z.lor kHybridFlag 1) then format_error else
  if negb (ht_version data =? 1) || negb (ht_version index =? 1) || negb (ht_sub_version data =? 1) ||
     negb (ht_sub_version index =? 1) || negb (ht_reserved data =? 0) || negb (ht_reserved index =? 0)
  then format_error else
  if negb (valid_uuid (ht_uuid data)) || negb (bool_decide (ht_uuid data = ht_uuid index)) ||
     negb (bool_decide (ht_parent_uuid data = ht_parent_uuid index)) ||
     (negb (zlen (ht_parent_uuid data) =? 0) && negb (valid_uuid (ht_parent_uuid data))) ||
     negb (ht_virtual_size data =? ht_virtual_size index)
  then format_error else
  if (ht_virtual_size data =? 0) || negb (ht_virtual_size data mod kAlignment =? 0) ||
     (kMaxOffset <? ht_virtual_size data / kAlignment)
  then format_error else
  if negb (ht_index_offset data =? 0) || negb (ht_index_size data =? 0) ||
     negb (ht_index_offset index =? kSpace) || negb (ht_index_size index =? 0)
  then format_error else
  if (data_bytes <? kSpace) || negb (data_bytes mod kAlignment =? 0) || (kNoPhysicalOffset <=? data_bytes / kAlignment) ||
     (index_bytes <? kSpace) || negb ((index_bytes - kSpace) mod kEncodedSize =? 0)
  then format_error else
  let count := (index_bytes - kSpace) / kEncodedSize in
  if kMaxLogRecords <? count then format_error else Ok count.

Definition hybrid_replay_new (virtual_size data_bytes : Z) : res Replay :=
  let sectors := virtual_size / kAlignment in
  let data_sectors := data_bytes / kAlignment in
  if (virtual_size =? 0) || negb (virtual_size mod kAlignment =? 0) || (kMaxOffset <? sectors) ||
     (data_bytes <? kSpace) || negb (data_bytes mod kAlignment =? 0) || (kNoPhysicalOffset <=? data_sectors)
  then format_error else Ok (Rp sectors data_sectors 0 []).

Definition suffix (m : segment_mapping) (start : Z) : segment_mapping :=
  let delta := start - s_offset m in
  Seg start (u32 (s_length m - u32 delta))
    (if negb (s_moffset m =? kNoPhysicalOffset) then u64 (s_moffset m + delta) else s_moffset m) (s_zeroed m) (s_tag m).

(** The parts of an overlapped mapping that stay. *)
Definition hybrid_trim (m old : segment_mapping) : list segment_mapping :=
  (if s_offset old <? s_offset m
   then [Seg (s_offset old) (u32 (s_offset m - s_offset old)) (s_moffset old) (s_zeroed old) (s_tag old)] else []) ++
  (if seg_end m <? seg_end old then [suffix old (seg_end m)] else []).

Definition hybrid_replace (live : list segment_mapping) (m : segment_mapping) : list segment_mapping :=
  let it := first_overlap live (s_offset m) in
  let overlapped := take_below (seg_end m) (drop it live) in
  let retained := concat (hybrid_trim m <$> overlapped) in
  let live := take it live ++ drop (it + length overlapped) live in
  emplace (foldl emplace live retained) m.

Definition hybrid_record (r : Replay) (m : segment_mapping) : res Replay :=
  if (s_offset m =? kInvalidOffset) && (s_length m =? 0) then
    if negb (s_moffset m =? 0) || s_zeroed m || negb (s_tag m =? 0) then format_error else Ok r
  else
  if (s_length m =? 0) || (rp_sectors r <=? s_offset m) || (rp_sectors r - s_offset m <? s_length m) then format_error else
  if (if s_zeroed m
      then negb (s_moffset m =? kNoPhysicalOffset) &&
           ((s_moffset m <? kDataStartSector) || (rp_data_sectors r <? s_moffset m))
      else (s_moffset m <? kDataStartSector) || (rp_data_sectors r <=? s_moffset m) ||
           (rp_data_sectors r - s_moffset m <? s_length m))
  then format_error else
  let live := hybrid_replace (rp_live r) (Seg (s_offset m) (s_length m) (s_moffset m) (s_zeroed m) 0) in
  if kMaxRoIndexSize <? zlen live then format_error
  else Ok (Rp (rp_sectors r) (rp_data_sectors r) (rp_records r) live).

Definition hybrid_append (r : Replay) (records : bytes) : res Replay :=
  if negb (zlen records mod kEncodedSize =? 0) || (kMaxLogRecords - rp_records r <? zlen records / kEncodedSize)
  then format_error else
  res_fold hybrid_record
    (Rp (rp_sectors r) (rp_data_sectors r) (rp_records r + zlen records / kEncodedSize) (rp_live r))
    (load_records records).

(** ** The end of the replay *)

(** [Extent]: a range of the payload and the mapping it belongs to. *)
Record Extent := Ext { x_start : Z; x_end : Z; x_index : nat }.

Definition no_backing (m : segment_mapping) : segment_mapping :=
  Seg (s_offset m) (s_length m) kNoPhysicalOffset (s_zeroed m) (s_tag m).

(** The first pass: what has no payload of its own inside the file gives it up. *)
Definition unbacked (data_sectors : Z) (m : segment_mapping) : bool :=
  s_zeroed m && ((s_moffset m =? kNoPhysicalOffset) || (data_sectors <? s_moffset m) ||
                 (data_sectors - s_moffset m <? s_length m)).
Fixpoint collect_extents (data_sectors : Z) (i : nat) (l : list segment_mapping) : list segment_mapping * list Extent :=
  match l with
  | [] => ([], [])
  | m :: l =>
      let '(result, physical) := collect_extents data_sectors (S i) l in
      if unbacked data_sectors m then (no_backing m :: result, physical)
      else (m :: result, Ext (s_moffset m) (s_moffset m + s_length m) i :: physical)
  end.

(** [std::sort] by start; the order of equal starts is the sort's choice, here
    that of the mappings. *)
Fixpoint insert_by_start (e : Extent) (l : list Extent) : list Extent :=
  match l with
  | [] => [e]
  | a :: l' => if x_start e <=? x_start a then e :: l else a :: insert_by_start e l'
  end.
Definition sort_by_start (l : list Extent) : list Extent := foldr insert_by_start [] l.

(** The second pass over the sorted extents. *)
Fixpoint settle (prior_end prior_data_end : Z) (physical : list Extent) (result : list segment_mapping)
  : res (list segment_mapping) :=
  match physical with
  | [] => Ok result
  | e :: rest =>
      match result !! x_index e with
      | None => Err Undefined
      | Some m =>
          let prior_end' := Z.max prior_end (x_end e) in
          if negb (s_zeroed m) then
            if x_start e <? prior_data_end then format_error
            else settle prior_end' (x_end e) rest result
          else
            let shared := (x_start e <? prior_end) ||
                          match rest with next :: _ => x_start next <? x_end e | [] => false end in
            settle prior_end' prior_data_end rest
              (if shared then <[x_index e := no_backing m]> result else result)
      end
  end.

Definition hybrid_finish (r : Replay) : res (list segment_mapping) :=
  let '(result, physical) := collect_extents (rp_data_sectors r) 0 (rp_live r) in
  settle 0 0 (sort_by_start physical) result.

(** ** The log means what the native log means

    Under [normal], which drops the payload a ZERO mapping owns, an update of
    the live map is the native one; so is each record both formats take. *)

Lemma u32_sub_u32 a b : u32 (a - u32 b) = u32 (a - b).
Proof. unfold u32, wrap. apply Zminus_mod_idemp_r. Qed.

Lemma take_below_normal off l : take_below off (normal <$> l) = normal <$> take_below off l.
Proof.
  induction l as [|s l IH]; [done|]. cbn [fmap list_fmap take_below].
  change (s_offset (normal s)) with (s_offset s). destruct (_ <? _); cbn [fmap list_fmap]; [|done].
  f_equal. exact IH.
Qed.
Lemma first_overlap_normal off l : first_overlap (normal <$> l) off = first_overlap l off.
Proof.
  unfold first_overlap. rewrite take_below_normal, length_fmap, <- fmap_take, fmap_last.
  by destruct (last _).
Qed.
Lemma emplace_normal l m : emplace (normal <$> l) (normal m) = normal <$> emplace l m.
Proof.
  induction l as [|s l IH]; [done|]. cbn [fmap list_fmap emplace].
  change (s_offset (normal s)) with (s_offset s). change (s_offset (normal m)) with (s_offset m).
  destruct (_ <? _); [done|]. destruct (_ =? _); [done|]. cbn [fmap list_fmap]. f_equal. exact IH.
Qed.
Lemma foldl_emplace_normal l ms :
  foldl emplace (normal <$> l) (normal <$> ms) = normal <$> foldl emplace l ms.
Proof. revert l. induction ms as [|m ms IH]; intros l; simpl; [done|]. by rewrite emplace_normal, IH. Qed.

(** A mapping with no wrap-around whose data is in the payload. *)
Definition movable (s : segment_mapping) : Prop :=
  seg_end s = fin s /\ (s_zeroed s = false -> s_moffset s <> kNoPhysicalOffset).

Lemma suffix_normal s hi : movable s -> normal (suffix s hi) = trim_tail hi (normal s).
Proof.
  intros [He Hz]. unfold normal, suffix, trim_tail. cbn [s_offset s_length s_moffset s_zeroed s_tag].
  unfold seg_end in *. cbn [s_offset s_length] in *. rewrite He, u32_sub_u32. unfold fin. f_equal.
  - f_equal. lia.
  - destruct (s_zeroed s); [done|]. by rewrite (proj2 (Z.eqb_neq _ _)) by auto.
Qed.
Lemma trim_normal m s : movable s ->
  normal <$> hybrid_trim m s = trim (s_offset m) (seg_end m) (normal s).
Proof.
  intros Hs. unfold hybrid_trim, trim. rewrite fmap_app. change (seg_end (normal s)) with (seg_end s).
  change (s_offset (normal s)) with (s_offset s). f_equal; case_if; try done.
  cbn [fmap list_fmap]. by rewrite suffix_normal.
Qed.
Lemma trims_normal m l : Forall movable l ->
  normal <$> concat (hybrid_trim m <$> l) = concat (trim (s_offset m) (seg_end m) <$> (normal <$> l)).
Proof.
  induction 1 as [|s l Hs Hl IH]; [done|]. rewrite !fmap_cons. cbn [concat].
  by rewrite fmap_app, trim_normal, IH.
Qed.
Lemma movable_below off l : Forall movable l -> Forall movable (take_below off l).
Proof. induction 1 as [|s l Hs Hl IH]; simpl; [constructor|]. case_if; by constructor. Qed.
Lemma hybrid_replace_normal l m : Forall movable l ->
  normal <$> hybrid_replace l m = live_replace (normal <$> l) (normal m).
Proof.
  intros Hl. unfold hybrid_replace, live_replace. change (s_offset (normal m)) with (s_offset m).
  change (seg_end (normal m)) with (seg_end m).
  rewrite first_overlap_normal. set (it := first_overlap l (s_offset m)).
  rewrite <- !fmap_drop, take_below_normal, length_fmap, <- fmap_take, <- fmap_app.
  rewrite <- emplace_normal, <- foldl_emplace_normal, trims_normal; [done|].
  by apply movable_below, Forall_drop.
Qed.

(** The payload a mapping names: below it there is no header, and what a ZERO
    mapping names lies at most as far past the file as the mapping is from the
    start of the device. *)
Definition backing_ok (data_sectors : Z) (s : segment_mapping) : Prop :=
  untagged s /\ kDataStartSector <= s_moffset s /\
  (s_moffset s = kNoPhysicalOffset \/ s_moffset s <= data_sectors + s_offset s).

Record hybrid_ok (sectors data_sectors : Z) (l : list segment_mapping) : Prop := {
  hybrid_live : live_ok sectors data_sectors (normal <$> l);
  hybrid_backing : Forall (backing_ok data_sectors) l;
}.

Definition normal_replay (r : Replay) : Replay :=
  Rp (rp_sectors r) (rp_data_sectors r) (rp_records r) (normal <$> rp_live r).

(** The records the Hybrid replay admits. *)
Definition hybrid_record_ok (sectors data_sectors : Z) (m : segment_mapping) : Prop :=
  m = Seg kInvalidOffset 0 0 false 0 \/
  (0 < s_length m /\ s_offset m + s_length m <= sectors /\ kDataStartSector <= s_moffset m /\
   if s_zeroed m then s_moffset m = kNoPhysicalOffset \/ s_moffset m <= data_sectors
   else s_moffset m + s_length m <= data_sectors).

Lemma emplace_forall (P : segment_mapping -> Prop) l m : P m -> Forall P l -> Forall P (emplace l m).
Proof.
  intros Hm. induction 1 as [|s l Hs Hl IH]; simpl; [by repeat constructor|].
  repeat case_if; repeat constructor; done.
Qed.
Lemma take_below_starts off l : Forall (fun s => s_offset s < off) (take_below off l).
Proof. induction l as [|s l IH]; simpl; [constructor|]. case_if; constructor; done || lia. Qed.
Lemma take_below_sub off l : take_below off l ⊆ l.
Proof.
  induction l as [|s l IH]; simpl; [done|]. destruct (_ <? _); [|by intros ? ?%not_elem_of_nil].
  intros x [->|Hx]%elem_of_cons; apply elem_of_cons; auto.
Qed.

Section HybridRecord.
Context (sectors data_sectors : Z).
Context (Hs : 0 <= sectors <= kMaxOffset) (Hd : 0 <= data_sectors < kMaxMoffset).

Lemma hybrid_ok_elem l s :
  hybrid_ok sectors data_sectors l -> s ∈ l ->
  seg_ok (normal s) /\ fin s <= sectors /\ backing_ok data_sectors s /\
  (s_zeroed s = false -> s_moffset s + s_length s <= data_sectors).
Proof.
  intros [[Hi _ Hb Hp] Hk] Hin. rewrite Forall_forall in Hk.
  assert (normal s ∈ normal <$> l) as Hn by (apply list_elem_of_fmap; eauto).
  assert (seg_ok (normal s)) as Hok.
  { destruct Hi as [Hi _]. rewrite Forall_forall in Hi. auto. }
  pose proof Hok as (H1 & H2 & _). cbn [normal s_offset s_length] in H1, H2.
  assert (resolve (normal <$> l) (fin s - 1) = seg_cell (normal s) (fin s - 1)) as Hr.
  { apply (resolve_elem 0); [done..|]. unfold fin, normal; simpl. lia. }
  split; [done|]. split; [|split; [auto|]].
  - specialize (Hb (fin s - 1)). rewrite Hr in Hb. unfold seg_cell in Hb.
    destruct (s_zeroed (normal s)); specialize (Hb ltac:(done)); lia.
  - intros Hz. unfold seg_cell, normal, fin in Hr. cbn [s_zeroed] in Hr. rewrite Hz in Hr.
    cbn [s_tag s_moffset s_offset] in Hr. apply Hp in Hr. lia.
Qed.
Lemma hybrid_ok_movable l : hybrid_ok sectors data_sectors l -> Forall movable l.
Proof.
  intros Hl. apply Forall_forall. intros s Hin. destruct (hybrid_ok_elem l s Hl Hin) as (H1 & _ & _ & H3).
  split; [exact (seg_ok_end (normal s) H1)|]. intros Hz. specialize (H3 Hz).
  destruct H1 as (_ & H1 & _). cbn [normal s_length] in H1. unfold kNoPhysicalOffset. lia.
Qed.

Lemma suffix_backing s hi :
  backing_ok data_sectors s -> 0 <= s_offset s < hi -> hi <= kMaxOffset -> backing_ok data_sectors (suffix s hi).
Proof.
  unfold backing_ok, suffix, untagged, kNoPhysicalOffset. revert Hd.
  unfold kMaxMoffset, kMaxOffset. change kDataStartSector with 8. intros Hd'.
  cbn [s_tag s_moffset s_offset]. intros (H1 & H2 & H3) H4 H5. split; [done|].
  destruct (Z.eqb_spec (s_moffset s) (2 ^ 55 - 1)); cbn [negb]; [split; [lia|by left]|].
  destruct H3 as [H3|H3]; [done|]. rewrite u64_small by lia. lia.
Qed.

Lemma hybrid_replace_backing l m :
  hybrid_ok sectors data_sectors l -> backing_ok data_sectors m -> seg_end m <= kMaxOffset ->
  Forall (backing_ok data_sectors) (hybrid_replace l m).
Proof.
  intros Hl Hm He. pose proof (hybrid_backing _ _ _ Hl) as Hk. unfold hybrid_replace.
  set (it := first_overlap l (s_offset m)). set (over := take_below (seg_end m) (drop it l)).
  apply emplace_forall; [done|].
  assert (Forall (backing_ok data_sectors) (concat (hybrid_trim m <$> over))) as Hret.
  { apply Forall_forall. intros s Hin. apply list_elem_of_In, in_concat in Hin as (k & Hk' & Hin).
    apply list_elem_of_In in Hk', Hin.
    apply list_elem_of_fmap in Hk' as (old & -> & Hold).
    pose proof (take_below_starts (seg_end m) (drop it l)) as Hst.
    rewrite Forall_forall in Hst. pose proof (Hst old Hold) as Hlt.
    apply take_below_sub, subseteq_drop in Hold.
    destruct (hybrid_ok_elem l old Hl Hold) as (H1 & _ & H2 & _). destruct H1 as (H1 & _). cbn [normal s_offset] in H1.
    unfold hybrid_trim in Hin. apply elem_of_app in Hin as [Hin|Hin]; case_if_in Hin; try by apply not_elem_of_nil in Hin.
    - apply list_elem_of_singleton in Hin as ->. exact H2.
    - apply list_elem_of_singleton in Hin as ->. apply suffix_backing; done || lia. }
  assert (Forall (backing_ok data_sectors) (take it l ++ drop (it + length over) l)) as Hrest.
  { apply Forall_app. split; [by apply Forall_take|by apply Forall_drop]. }
  revert Hrest. generalize (take it l ++ drop (it + length over) l).
  induction Hret as [|s k Hs' Hk' IH]; intros l' Hl'; simpl; [done|]. apply IH. by apply emplace_forall.
Qed.

Lemma hybrid_record_admits m :
  seg_encodable m -> hybrid_record_ok sectors data_sectors m ->
  record_ok sectors data_sectors m /\
  (s_offset m <> kInvalidOffset -> seg_end m <= kMaxOffset /\ kDataStartSector <= s_moffset m /\
   (s_moffset m = kNoPhysicalOffset \/ s_moffset m <= data_sectors + s_offset m)).
Proof.
  intros (E1 & E2 & E3 & E4) [->|(H1 & H2 & H3 & H4)]; [split; [by left|done]|].
  split; [right; split; [done|]; split; [done|]; intros Hz; rewrite Hz in H4; lia|].
  intros _. unfold seg_end. revert Hs E1 E2. unfold kMaxOffset, kMaxLength. intros.
  rewrite u64_small by lia. destruct (s_zeroed m); lia.
Qed.

(** One update of the live map, for an admitted record. *)
Lemma hybrid_replace_ok l m :
  hybrid_ok sectors data_sectors l -> seg_encodable m -> hybrid_record_ok sectors data_sectors m ->
  s_offset m <> kInvalidOffset ->
  let l' := hybrid_replace l (Seg (s_offset m) (s_length m) (s_moffset m) (s_zeroed m) 0) in
  hybrid_ok sectors data_sectors l' /\
  forall x, resolve (normal <$> l') x = log_step (resolve (normal <$> l) x) m x.
Proof.
  intros Hl He Hm Hn. destruct (hybrid_record_admits m He Hm) as [Hr Hb]. specialize (Hb Hn) as (B1 & B2 & B3).
  cbv zeta. rewrite hybrid_replace_normal by by apply hybrid_ok_movable.
  change (normal (Seg _ _ _ _ _)) with (normal m).
  destruct (live_replace_ok _ _ Hs Hd (normal <$> l) m (hybrid_live _ _ _ Hl) He Hr Hn) as [Hok Hx].
  split; [|done]. split.
  - by rewrite hybrid_replace_normal by by apply hybrid_ok_movable.
  - by apply hybrid_replace_backing.
Qed.

(** What the guards admit is [hybrid_record_ok]. *)
Definition hybrid_payload_bad (m : segment_mapping) : bool :=
  if s_zeroed m
  then negb (s_moffset m =? kNoPhysicalOffset) && ((s_moffset m <? kDataStartSector) || (data_sectors <? s_moffset m))
  else (s_moffset m <? kDataStartSector) || (data_sectors <=? s_moffset m) || (data_sectors - s_moffset m <? s_length m).
Lemma hybrid_guards m :
  seg_encodable m -> (s_offset m =? kInvalidOffset) && (s_length m =? 0) = false ->
  (s_length m =? 0) || (sectors <=? s_offset m) || (sectors - s_offset m <? s_length m) || hybrid_payload_bad m = false <->
  hybrid_record_ok sectors data_sectors m.
Proof.
  intros (E1 & E2 & E3 & E4) Hp. unfold hybrid_record_ok, hybrid_payload_bad.
  change kDataStartSector with 8. unfold kNoPhysicalOffset, kMaxMoffset in *.
  rewrite !orb_false_iff, Z.eqb_neq, Z.leb_gt, Z.ltb_ge. split.
  - intros (((H1 & H2) & H3) & H4). right. split; [lia|]. split; [lia|]. destruct (s_zeroed m).
    + apply andb_false_iff in H4 as [H4|H4]; [apply negb_false_iff in H4|apply orb_false_iff in H4]; lia.
    + apply orb_false_iff in H4 as [H4 H5]. apply orb_false_iff in H4. lia.
  - intros [->|(H1 & H2 & H3 & H4)]; [done|]. split; [lia|]. destruct (s_zeroed m).
    + apply andb_false_iff. destruct H4 as [->|H4]; [by left|right]. apply orb_false_iff. lia.
    + rewrite !orb_false_iff. lia.
Qed.

Lemma hybrid_record_spec r m :
  rp_sectors r = sectors -> rp_data_sectors r = data_sectors ->
  hybrid_ok sectors data_sectors (rp_live r) -> seg_encodable m ->
  match hybrid_record r m with
  | Ok r' =>
      hybrid_record_ok sectors data_sectors m /\ rp_sectors r' = sectors /\ rp_data_sectors r' = data_sectors /\
      hybrid_ok sectors data_sectors (rp_live r') /\
      forall x, resolve (normal <$> rp_live r') x = log_step (resolve (normal <$> rp_live r) x) m x
  | Err f => f = Errno EINVAL
  end.
Proof.
  intros Hrs Hrd Hl He. unfold hybrid_record.
  destruct ((s_offset m =? kInvalidOffset) && (s_length m =? 0)) eqn:Hp.
  { destruct (negb (s_moffset m =? 0) || s_zeroed m || negb (s_tag m =? 0)) eqn:Hpad; [done|].
    apply andb_true_iff in Hp as [H1%Z.eqb_eq H2%Z.eqb_eq].
    apply orb_false_iff in Hpad as [Hpad H5%negb_false_iff%Z.eqb_eq].
    apply orb_false_iff in Hpad as [H3%negb_false_iff%Z.eqb_eq H4].
    split; [left; destruct m; simpl in *; by subst|]. split; [done|]. split; [done|]. split; [done|].
    intros x. unfold log_step. by rewrite H1, Z.eqb_refl. }
  rewrite Hrs, Hrd. destruct (_ || _) eqn:H1; [done|]. fold (hybrid_payload_bad m).
  destruct (hybrid_payload_bad m) eqn:H2; [done|].
  assert (hybrid_record_ok sectors data_sectors m) as Hm.
  { apply hybrid_guards; [done..|]. by rewrite H1, H2. }
  assert (s_offset m <> kInvalidOffset) as Hn.
  { intros Hi. apply orb_false_iff in H1 as [H1 _]. apply orb_false_iff in H1 as [_ H1]. apply Z.leb_gt in H1.
    unfold kInvalidOffset in Hi. lia. }
  destruct (hybrid_replace_ok (rp_live r) m Hl He Hm Hn) as [Hok Hx].
  destruct (kMaxRoIndexSize <? _); [done|]. by split_and!.
Qed.
End HybridRecord.

Section HybridLog.
Context (sectors data_sectors : Z).
Context (Hs : 0 <= sectors <= kMaxOffset) (Hd : 0 <= data_sectors < kMaxMoffset).

Definition hybrid_replay_ok (r : Replay) : Prop :=
  rp_sectors r = sectors /\ rp_data_sectors r = data_sectors /\ hybrid_ok sectors data_sectors (rp_live r).

Lemma hybrid_fold_spec r log :
  hybrid_replay_ok r -> Forall seg_encodable log ->
  match res_fold hybrid_record r log with
  | Ok r' =>
      Forall (hybrid_record_ok sectors data_sectors) log /\ hybrid_replay_ok r' /\
      forall x, resolve (normal <$> rp_live r') x = log_resolve log x (resolve (normal <$> rp_live r) x)
  | Err f => f = Errno EINVAL
  end.
Proof.
  intros Hr Hlog. revert r Hr. induction Hlog as [|m log Hm Hlog IH]; intros r Hr; simpl.
  { split; [constructor|]. by split. }
  destruct Hr as (H1 & H2 & H3).
  pose proof (hybrid_record_spec sectors data_sectors Hs Hd r m H1 H2 H3 Hm) as Hrec.
  destruct (hybrid_record r m) as [r1|f]; [|done]. destruct Hrec as (G1 & G2 & G3 & G4 & G5).
  specialize (IH r1 (conj G2 (conj G3 G4))). destruct (res_fold hybrid_record r1 log) as [r'|f]; [|done].
  destruct IH as (I1 & I2 & I3). split; [by constructor|]. split; [done|]. intros x. by rewrite I3, G5.
Qed.
End HybridLog.

(** ** Which payload a finished index owns *)

(** The reference: a mapping owns the payload it names unless it is a ZERO
    mapping that names none of the file's, or shares it with another one. *)
Definition owns (data_sectors : Z) (m : segment_mapping) : option (Z * Z) :=
  if unbacked data_sectors m then None else Some (s_moffset m, s_moffset m + s_length m).
Definition meets (a b : option (Z * Z)) : bool :=
  match a, b with Some a, Some b => (a.1 <? b.2) && (b.1 <? a.2) | _, _ => false end.
(** Whether another mapping of the index that passes the test names a sector
    that mapping [i] names. *)
Definition contested (data_sectors : Z) (p : segment_mapping -> bool) (l : list segment_mapping) (i : nat)
    (m : segment_mapping) : bool :=
  existsb (fun '(j, m') => negb (j =? i)%nat && p m' && meets (owns data_sectors m) (owns data_sectors m'))
    (imap pair l).
Definition settled (data_sectors : Z) (l : list segment_mapping) (i : nat) (m : segment_mapping) : segment_mapping :=
  if s_zeroed m && (unbacked data_sectors m || contested data_sectors (fun _ => true) l i m) then no_backing m else m.
Definition is_data (m : segment_mapping) : bool := negb (s_zeroed m).
Definition aliased (data_sectors : Z) (l : list segment_mapping) : bool :=
  existsb (fun '(i, m) => is_data m && contested data_sectors is_data l i m) (imap pair l).

(** ** The sweep over the sorted extents *)

Definition ext_meets (a b : Extent) : bool := (x_start a <? x_end b) && (x_start b <? x_end a).
Definition others (p : nat -> bool) (all : list Extent) (e : Extent) : bool :=
  existsb (fun e' => negb (x_index e' =? x_index e)%nat && p (x_index e') && ext_meets e e') all.

Lemma ext_meets_comm a b : ext_meets a b = ext_meets b a.
Proof. apply andb_comm. Qed.

(** [top] is where the extents of [l] end, 0 if there is none. *)
Definition top_of (l : list Extent) (top : Z) : Prop :=
  0 <= top /\ Forall (fun e => x_end e <= top) l /\ (top = 0 \/ exists e, e ∈ l /\ x_end e = top).

Lemma existsb_elem {A} (f : A -> bool) l : existsb f l = true <-> exists x, x ∈ l /\ f x = true.
Proof. rewrite existsb_exists. by setoid_rewrite list_elem_of_In. Qed.
Lemma existsb_none {A} (f : A -> bool) l : existsb f l = false <-> forall x, x ∈ l -> f x = false.
Proof.
  rewrite <- not_true_iff_false, existsb_elem. split.
  - intros H x Hx. destruct (f x) eqn:E; [|done]. destruct H; eauto.
  - intros H (x & Hx & Hf). by rewrite H in Hf.
Qed.

Lemma top_of_snoc l top e : 0 <= x_end e -> top_of l top -> top_of (l ++ [e]) (Z.max top (x_end e)).
Proof.
  intros He (H0 & H1 & H2). split; [lia|]. split.
  - apply Forall_app. split; [|by apply Forall_singleton; lia].
    eapply Forall_impl; [exact H1|]. intros e' Hle. simpl in *. lia.
  - destruct (Z.max_spec top (x_end e)) as [[? ->]|[? ->]].
    + right. exists e. split; [|done]. apply elem_of_app. right. by apply list_elem_of_singleton.
    + destruct H2 as [H2|(e' & Hin & H2)]; [by left|right]. exists e'. split; [|done].
      apply elem_of_app. by left.
Qed.

(** An extent meets one that starts no later exactly when it starts below where
    those end. *)
Lemma meets_earlier l top e :
  top_of l top -> 0 <= x_start e < x_end e -> Forall (fun e' => x_start e' <= x_start e) l ->
  (x_start e <? top) = existsb (ext_meets e) l.
Proof.
  intros (H0 & H1 & H2) He Hl. rewrite !Forall_forall in *. symmetry. unfold ext_meets.
  destruct (Z.ltb_spec (x_start e) top).
  - destruct H2 as [?|(e' & Hin & Ht)]; [lia|]. apply existsb_elem. exists e'. split; [done|].
    specialize (Hl e' Hin). lia.
  - apply existsb_none. intros e' Hin. specialize (H1 e' Hin). simpl in *. lia.
Qed.
(** And one that starts no earlier when the next of them starts below its end. *)
Lemma meets_later e rest :
  x_start e < x_end e -> Forall (fun e' => x_start e' < x_end e') rest ->
  StronglySorted (fun a b => x_start a <= x_start b) (e :: rest) ->
  match rest with next :: _ => x_start next <? x_end e | [] => false end = existsb (ext_meets e) rest.
Proof.
  intros He Hp Hss. apply StronglySorted_inv in Hss as [Hss Hle]. destruct rest as [|n rest]; [done|].
  apply Forall_cons in Hp as [Hn Hp]. apply Forall_cons in Hle as [Hen Hle].
  apply StronglySorted_inv in Hss as [_ Hnl]. rewrite !Forall_forall in *. symmetry. unfold ext_meets.
  destruct (Z.ltb_spec (x_start n) (x_end e)).
  - apply existsb_elem. exists n. split; [set_solver|]. lia.
  - apply existsb_none. intros e' [->|Hin]%elem_of_cons; [lia|]. specialize (Hnl e' Hin). simpl in *. lia.
Qed.

Lemma others_split p before e rest :
  NoDup (x_index <$> before ++ e :: rest) ->
  others p (before ++ e :: rest) e =
    existsb (fun e' => p (x_index e') && ext_meets e e') before || existsb (fun e' => p (x_index e') && ext_meets e e') rest.
Proof.
  intros Hnd. rewrite fmap_app, fmap_cons in Hnd. apply NoDup_app in Hnd as (_ & Hb & Hnd).
  apply NoDup_cons in Hnd as [He _].
  unfold others. rewrite existsb_app. cbn [existsb]. rewrite Nat.eqb_refl. cbn [negb andb orb].
  assert (forall l, (forall e', e' ∈ l -> x_index e' <> x_index e) ->
    existsb (fun e' => negb (x_index e' =? x_index e)%nat && p (x_index e') && ext_meets e e') l =
    existsb (fun e' => p (x_index e') && ext_meets e e') l) as Heq.
  { induction l as [|a l IH]; intros Hl; [done|]. cbn [existsb].
    rewrite IH by (intros; apply Hl; set_solver).
    by rewrite (proj2 (Nat.eqb_neq _ _)) by (apply Hl; set_solver). }
  rewrite !Heq; [done| |]; intros e' Hin Hi.
  - apply He. rewrite <- Hi. apply list_elem_of_fmap; eauto.
  - apply (Hb (x_index e')); [apply list_elem_of_fmap; eauto|]. rewrite Hi. set_solver.
Qed.

Section Settle.
Context (all : list Extent) (zero : nat -> bool).
Context (Hsort : StronglySorted (fun a b => x_start a <= x_start b) all).
Context (Hpos : Forall (fun e => 0 <= x_start e < x_end e) all).
Context (Hnd : NoDup (x_index <$> all)).

Definition data_ext (i : nat) : bool := negb (zero i).
(** The mapping of every extent is there, and is a ZERO mapping when [zero] says so. *)
Definition indexed (result : list segment_mapping) : Prop :=
  (forall e, e ∈ all -> is_Some (result !! x_index e)) /\
  forall i m, result !! i = Some m -> s_zeroed m = zero i.

Definition cleared (rest : list Extent) (i : nat) : bool :=
  existsb (fun e => (x_index e =? i)%nat && zero i && others (fun _ => true) all e) rest.

Lemma indexed_clear result i m :
  indexed result -> result !! i = Some m -> indexed (<[i := no_backing m]> result).
Proof.
  intros [H1 H2] Hm. split.
  - intros e He. rewrite list_lookup_insert_is_Some. by apply H1.
  - intros j m' Hj. destruct (decide (i = j)) as [->|Hne].
    + rewrite list_lookup_insert_eq in Hj by by eapply lookup_lt_Some. injection Hj as <-. exact (H2 j m Hm).
    + rewrite list_lookup_insert_ne in Hj by done. by apply H2.
Qed.

(** One extent of the sweep: the tests on the ends seen and on the next start
    decide whether the extent meets another one. *)
Lemma settle_tests before e rest top dtop :
  all = before ++ e :: rest -> top_of before top ->
  top_of (filter (fun e => zero (x_index e) = false) before) dtop ->
  (x_start e <? top) || match rest with next :: _ => x_start next <? x_end e | [] => false end =
    others (fun _ => true) all e /\
  (x_start e <? dtop) = existsb (fun e' => data_ext (x_index e') && ext_meets e e') before.
Proof.
  intros Hall Ht Hdt. pose proof Hsort as Hs. pose proof Hpos as Hp. rewrite Hall in Hs, Hp.
  apply StronglySorted_app in Hs as (Hbr & _ & Hr). apply Forall_app in Hp as [Hpb Hp].
  apply Forall_cons in Hp as [He Hpr].
  assert (Forall (fun e' => x_start e' <= x_start e) before) as Hle.
  { apply Forall_forall. intros e' Hin. apply Hbr; [done|by left]. }
  split.
  - rewrite (meets_earlier before) by done. rewrite meets_later; [|lia| |done].
    2:{ eapply Forall_impl; [exact Hpr|]. simpl. lia. }
    rewrite Hall, others_split by by rewrite <- Hall. done.
  - rewrite (meets_earlier _ _ _ Hdt He).
    2:{ apply Forall_forall. intros e' [_ Hin]%list_elem_of_filter. rewrite Forall_forall in Hle. auto. }
    apply eq_true_iff_eq. rewrite !existsb_elem. unfold data_ext. split.
    + intros (e' & [Hz Hin]%list_elem_of_filter & Hm). exists e'. split; [done|]. by rewrite Hz, Hm.
    + intros (e' & Hin & [Hz Hm]%andb_true_iff). exists e'. split; [|done].
      apply list_elem_of_filter. split; [|done]. by apply negb_true_iff.
Qed.

Lemma cleared_cons e rest i :
  cleared (e :: rest) i = (x_index e =? i)%nat && zero i && others (fun _ => true) all e || cleared rest i.
Proof. done. Qed.
Lemma cleared_out before e rest : all = before ++ e :: rest -> cleared rest (x_index e) = false.
Proof.
  intros Hall. apply existsb_none. intros e' Hin. rewrite (proj2 (Nat.eqb_neq _ _)); [done|]. intros Hi.
  pose proof Hnd as H. rewrite Hall, fmap_app, fmap_cons in H. apply NoDup_app in H as (_ & _ & H).
  apply NoDup_cons in H as [H _]. apply H. rewrite <- Hi. apply list_elem_of_fmap; eauto.
Qed.

(** What a sweep over the rest of the extents does. *)
Definition sweep_spec (rest : list Extent) (result : list segment_mapping) (out : res (list segment_mapping)) : Prop :=
  match out with
  | Ok result' =>
      (forall e, e ∈ rest -> zero (x_index e) = false -> others data_ext all e = false) /\
      forall i, result' !! i = if cleared rest i then no_backing <$> result !! i else result !! i
  | Err f => f = Errno EINVAL /\ exists e, e ∈ all /\ zero (x_index e) = false /\ others data_ext all e = true
  end.

Lemma sweep_zero before e rest result m out :
  all = before ++ e :: rest -> result !! x_index e = Some m -> zero (x_index e) = true ->
  sweep_spec rest (if others (fun _ => true) all e then <[x_index e := no_backing m]> result else result) out ->
  sweep_spec (e :: rest) result out.
Proof.
  intros Hall Hm Hz. unfold sweep_spec. destruct out as [result'|f]; [|done]. intros [H1 H2]. split.
  { intros e' [->|Hin]%elem_of_cons Hz'; [congruence|auto]. }
  intros i. rewrite H2, cleared_cons. destruct (Nat.eqb_spec (x_index e) i) as [<-|Hne].
  - rewrite (cleared_out before e rest) by done. rewrite Hz, orb_false_r. cbn [andb].
    destruct (others _ _ _); [|done]. rewrite list_lookup_insert_eq by by eapply lookup_lt_Some. by rewrite Hm.
  - cbn [andb orb]. destruct (others _ _ _); [|done]. by rewrite list_lookup_insert_ne.
Qed.

Lemma sweep_data before e rest result out :
  all = before ++ e :: rest -> zero (x_index e) = false ->
  existsb (fun e' => data_ext (x_index e') && ext_meets e e') before = false ->
  sweep_spec rest result out -> sweep_spec (e :: rest) result out.
Proof.
  intros Hall Hz Hbf. unfold sweep_spec. destruct out as [result'|f]; [|done]. intros [H1 H2]. split.
  - intros e' [->|Hin]%elem_of_cons Hz'; [|auto].
    rewrite Hall, others_split, Hbf by by rewrite <- Hall. cbn [orb]. apply existsb_none. intros e' Hin.
    destruct (data_ext (x_index e')) eqn:Hd; [|done]. apply negb_true_iff in Hd.
    specialize (H1 e' Hin Hd). unfold others in H1. rewrite existsb_none in H1.
    specialize (H1 e). rewrite Hall in H1. specialize (H1 ltac:(apply elem_of_app; right; by left)).
    unfold data_ext in H1. rewrite Hz, ext_meets_comm in H1. cbn [negb andb] in *.
    destruct (Nat.eqb_spec (x_index e) (x_index e')) as [Hi|]; [|by rewrite andb_true_r in H1].
    exfalso. pose proof Hnd as Hn. rewrite Hall, fmap_app, fmap_cons in Hn. apply NoDup_app in Hn as (_ & _ & Hn).
    apply NoDup_cons in Hn as [Hn _]. apply Hn. rewrite Hi. apply list_elem_of_fmap; eauto.
  - intros i. rewrite H2, cleared_cons. destruct (Nat.eqb_spec (x_index e) i) as [<-|Hne]; [|done].
    by rewrite Hz.
Qed.

Lemma settle_sweep rest : forall before top dtop result,
  all = before ++ rest -> indexed result -> top_of before top ->
  top_of (filter (fun e => zero (x_index e) = false) before) dtop ->
  sweep_spec rest result (settle top dtop rest result).
Proof.
  induction rest as [|e rest IH]; intros before top dtop result Hall Hix Ht Hdt; cbn [settle].
  { split; [by intros ? ?%not_elem_of_nil|done]. }
  assert (e ∈ all) as Hin by (rewrite Hall; apply elem_of_app; right; by left).
  assert (0 <= x_start e < x_end e) as He.
  { pose proof Hpos as Hp. rewrite Forall_forall in Hp. by apply Hp. }
  destruct (settle_tests before e rest top dtop Hall Ht Hdt) as [Hsh Hda].
  destruct (proj1 Hix e Hin) as [m Hm]. rewrite Hm. cbv zeta. rewrite (proj2 Hix _ _ Hm), Hsh, Hda.
  assert (all = (before ++ [e]) ++ rest) as Hall' by by rewrite <- app_assoc.
  assert (top_of (before ++ [e]) (Z.max top (x_end e))) as Ht' by (apply top_of_snoc; [lia|done]).
  destruct (zero (x_index e)) eqn:Hz; cbn [negb].
  - apply (sweep_zero before e rest result m); [done..|]. apply (IH (before ++ [e])); [done| |done|].
    + destruct (others _ _ _); [by apply indexed_clear|done].
    + rewrite filter_app, filter_cons, decide_False by (by rewrite Hz). by rewrite filter_nil, app_nil_r.
  - destruct (existsb _ before) eqn:Hex.
    + split; [done|]. exists e. split; [done|]. split; [done|].
      by rewrite Hall, others_split, Hex by by rewrite <- Hall.
    + apply (sweep_data before e rest result); [done..|]. apply (IH (before ++ [e])); [done..|].
      rewrite filter_app, filter_cons, decide_True by done. rewrite filter_nil.
      assert (dtop <= x_end e) as Hle by (apply Z.ltb_ge in Hda; lia).
      rewrite <- (Z.max_r dtop (x_end e)) by done. apply top_of_snoc; [lia|done].
Qed.
End Settle.

Lemma insert_by_start_perm e l : Permutation (insert_by_start e l) (e :: l).
Proof. induction l as [|a l IH]; simpl; [done|]. case_if; [done|]. rewrite IH. apply perm_swap. Qed.
Lemma sort_by_start_perm l : Permutation (sort_by_start l) l.
Proof.
  induction l as [|e l IH]; [done|]. change (sort_by_start (e :: l)) with (insert_by_start e (sort_by_start l)).
  by rewrite insert_by_start_perm, IH.
Qed.
Lemma sort_by_start_sorted l : StronglySorted (fun a b => x_start a <= x_start b) (sort_by_start l).
Proof.
  induction l as [|e l IH]; [constructor|]. change (sort_by_start (e :: l)) with (insert_by_start e (sort_by_start l)).
  generalize dependent (sort_by_start l). clear l. intros l Hl. induction Hl as [|a l Hl IH Ha]; simpl.
  { by repeat constructor. }
  destruct (Z.leb_spec (x_start e) (x_start a)).
  - constructor; [by constructor|]. constructor; [done|]. eapply Forall_impl; [exact Ha|]. simpl. lia.
  - constructor; [done|]. rewrite insert_by_start_perm. constructor; [lia|done].
Qed.

Definition unback (data_sectors : Z) (m : segment_mapping) : segment_mapping :=
  if unbacked data_sectors m then no_backing m else m.

Lemma collect_extents_spec d l i :
  let '(result, physical) := collect_extents d i l in
  result = unback d <$> l /\ NoDup (x_index <$> physical) /\
  forall e, e ∈ physical <-> exists j m, l !! j = Some m /\ unbacked d m = false /\
                              e = Ext (s_moffset m) (s_moffset m + s_length m) (i + j).
Proof.
  revert i. induction l as [|m l IH]; intros i; cbn [collect_extents].
  { split; [done|]. split; [constructor|]. intros e. split; [by intros ?%not_elem_of_nil|].
    intros (j & m & H & _). by rewrite lookup_nil in H. }
  specialize (IH (S i)). destruct (collect_extents d (S i) l) as [result physical].
  destruct IH as (-> & Hnd & Hin).
  assert (forall e, e ∈ physical <-> exists j m', (m :: l) !! S j = Some m' /\ unbacked d m' = false /\
            e = Ext (s_moffset m') (s_moffset m' + s_length m') (i + S j)) as Hin'.
  { intros e. rewrite Hin. by setoid_rewrite Nat.add_succ_comm. }
  rewrite fmap_cons. assert (unback d m = if unbacked d m then no_backing m else m) as -> by done.
  destruct (unbacked d m) eqn:Hu.
  - split; [done|]. split; [done|]. intros e. rewrite Hin'. split.
    + intros (j & m' & H). by exists (S j), m'.
    + intros ([|j] & m' & H1 & H2 & H3); [|by exists j, m']. simpl in H1. congruence.
  - split; [done|]. rewrite fmap_cons. split.
    + apply NoDup_cons. split; [|done]. rewrite list_elem_of_fmap. intros (e & He & Hp).
      apply Hin' in Hp as (j & m' & _ & _ & ->). simpl in He. lia.
    + intros e. rewrite elem_of_cons, Hin'. split.
      * intros [->|(j & m' & H)]; [exists 0%nat, m; by rewrite Nat.add_0_r|by exists (S j), m'].
      * intros ([|j] & m' & H1 & H2 & H3); [left|right; by exists j, m'].
        injection H1 as <-. by rewrite Nat.add_0_r in H3.
Qed.

Section Finish.
Context (d : Z) (l : list segment_mapping).
Context (Hl : Forall (fun m => 0 < s_length m /\ 0 <= s_moffset m) l).
Context (physical : list Extent).
Context (Hphys : forall e, e ∈ physical <-> exists j m, l !! j = Some m /\ unbacked d m = false /\
           e = Ext (s_moffset m) (s_moffset m + s_length m) j).

Definition test_at (p : segment_mapping -> bool) (i : nat) : bool := default true (p <$> l !! i).

Lemma others_contested p i m :
  l !! i = Some m -> unbacked d m = false ->
  others (test_at p) physical (Ext (s_moffset m) (s_moffset m + s_length m) i) = contested d p l i m.
Proof.
  intros Hm Hu. apply eq_true_iff_eq. unfold others, contested. rewrite !existsb_elem. cbn [x_index].
  unfold test_at, ext_meets, meets, owns. rewrite Hu. cbn [x_start x_end]. split.
  - intros (e & (j & m' & Hj & Hu' & ->)%Hphys & H). cbn [x_index x_start x_end] in H.
    rewrite Hj in H. exists (j, m'). rewrite elem_of_lookup_imap. split; [by exists j, m'|]. by rewrite Hu'.
  - intros ([j m'] & (j' & m'' & [= -> ->] & Hj)%elem_of_lookup_imap & H). destruct (unbacked d m'') eqn:Hu'.
    { by rewrite andb_false_r in H. }
    exists (Ext (s_moffset m'') (s_moffset m'' + s_length m'') j'). split; [apply Hphys; by exists j', m''|].
    cbn [x_index x_start x_end]. by rewrite Hj.
Qed.

Context (all : list Extent) (Hperm : Permutation all physical).
Context (Hsort : StronglySorted (fun a b => x_start a <= x_start b) all) (Hnd : NoDup (x_index <$> physical)).

Lemma others_perm p e : others p all e = others p physical e.
Proof. apply eq_true_iff_eq. unfold others. rewrite !existsb_elem. by setoid_rewrite Hperm. Qed.

Lemma zero_at i m : l !! i = Some m -> test_at s_zeroed i = s_zeroed m.
Proof. unfold test_at. by intros ->. Qed.
Lemma data_ext_at i : is_Some (l !! i) -> data_ext (test_at s_zeroed) i = test_at is_data i.
Proof. intros [m Hm]. unfold data_ext, test_at. by rewrite Hm. Qed.

Lemma others_data e : others (data_ext (test_at s_zeroed)) physical e = others (test_at is_data) physical e.
Proof.
  apply eq_true_iff_eq. unfold others. rewrite !existsb_elem.
  split; intros (e' & Hin & H); exists e'; (split; [done|]); revert H;
    apply Hphys in Hin as (j & m & Hj & _ & ->); cbn [x_index]; rewrite data_ext_at by eauto; done.
Qed.

Lemma sweep_in (P : Extent -> Prop) :
  (forall i m, l !! i = Some m -> unbacked d m = false -> P (Ext (s_moffset m) (s_moffset m + s_length m) i)) ->
  forall e, e ∈ all -> P e.
Proof. intros H e He. rewrite Hperm in He. apply Hphys in He as (j & m & Hj & Hu & ->). by apply H. Qed.

Lemma cleared_settled i m :
  l !! i = Some m ->
  (if cleared all (test_at s_zeroed) all i then no_backing (unback d m) else unback d m) = settled d l i m.
Proof.
  intros Hm. unfold settled, unback. destruct (unbacked d m) eqn:Hu.
  { pose proof Hu as [Hz _]%andb_true_iff. rewrite Hz. cbn [andb orb]. by destruct (cleared _ _ _ _). }
  assert (cleared all (test_at s_zeroed) all i = s_zeroed m && contested d (fun _ => true) l i m) as ->; [|done].
  rewrite <- (others_contested _ i m Hm Hu), <- others_perm.
  assert (forall q, others (test_at (fun _ => true)) all q = others (fun _ => true) all q) as Htrue.
  { intros q. apply eq_true_iff_eq. unfold others. rewrite !existsb_elem.
    assert (forall j, test_at (fun _ => true) j = true) as Ht by (intros j; unfold test_at; by destruct (l !! j)).
    by setoid_rewrite Ht. }
  rewrite Htrue, <- (zero_at i m Hm). unfold cleared.
  apply eq_true_iff_eq. rewrite existsb_elem. split.
  - intros (e & He & H). revert H. revert e He. apply (sweep_in (fun e => _ -> _)). intros j m' Hj Hu' H.
    cbn [x_index] in H. apply andb_true_iff in H as [H Ho]. apply andb_true_iff in H as [->%Nat.eqb_eq Hz].
    rewrite Hm in Hj. injection Hj as <-. by rewrite Hz.
  - intros H. exists (Ext (s_moffset m) (s_moffset m + s_length m) i). split.
    + rewrite Hperm. apply Hphys. by exists i, m.
    + cbn [x_index]. by rewrite Nat.eqb_refl.
Qed.

Lemma settle_reference :
  settle 0 0 all (unback d <$> l) = if aliased d l then format_error else Ok (imap (settled d l) l).
Proof.
  assert (Forall (fun e => 0 <= x_start e < x_end e) all) as Hpos.
  { apply Forall_forall, sweep_in. intros i m Hm _. cbn [x_start x_end]. rewrite Forall_lookup in Hl.
    specialize (Hl i m Hm). lia. }
  assert (top_of [] 0) as Htop by (split; [done|split; [constructor|by left]]).
  assert (NoDup (x_index <$> all)) as Hnd' by by rewrite Hperm.
  assert (indexed all (test_at s_zeroed) (unback d <$> l)) as Hix.
  { split; [apply sweep_in; intros i m Hm _; cbn [x_index]; by rewrite list_lookup_fmap, Hm|].
    intros i m Hm. rewrite list_lookup_fmap in Hm. unfold test_at. destruct (l !! i) as [m'|]; [|done].
    injection Hm as <-. unfold unback. by destruct (unbacked d m'). }
  pose proof (settle_sweep all _ Hsort Hpos Hnd' all [] 0 0 _ eq_refl Hix Htop Htop) as Hsw.
  destruct (settle 0 0 all (unback d <$> l)) as [result'|f]; destruct Hsw as [H1 H2].
  - assert (aliased d l = false) as ->.
    { apply existsb_none. intros [i m] (i' & m' & [= -> ->] & Hm)%elem_of_lookup_imap.
      destruct (is_data m') eqn:Hda; [|done]. cbn [andb].
      assert (unbacked d m' = false) as Hu.
      { unfold unbacked, is_data in *. apply negb_true_iff in Hda. by rewrite Hda. }
      rewrite <- (others_contested _ _ _ Hm Hu), <- others_data, <- others_perm.
      apply H1; [rewrite Hperm; apply Hphys; by exists i', m'|]. cbn [x_index]. rewrite (zero_at _ _ Hm).
      by apply negb_true_iff. }
    f_equal. apply list_eq. intros i. rewrite H2, list_lookup_fmap, list_lookup_imap.
    destruct (l !! i) as [m|] eqn:Hm; cbn [fmap option_fmap option_map]; [|by destruct (cleared _ _ _ _)].
    rewrite <- (cleared_settled i m Hm). by destruct (cleared _ _ _ _).
  - subst f. assert (aliased d l = true) as ->; [|done]. destruct H2 as (e & He & Hz & Ho).
    revert Hz Ho. revert e He. apply (sweep_in (fun e => _ -> _ -> _)). intros i m Hm Hu Hz Ho.
    apply existsb_elem. exists (i, m). split; [apply elem_of_lookup_imap; by exists i, m|].
    rewrite others_perm, others_data, others_contested in Ho by done. cbn [x_index] in Hz.
    rewrite (zero_at _ _ Hm) in Hz. unfold is_data at 1. by rewrite Hz, Ho.
Qed.
End Finish.

(** The sweep computes the reference, whichever order the sort leaves equal
    starts in. *)
Lemma hybrid_finish_reference r :
  Forall (fun m => 0 < s_length m /\ 0 <= s_moffset m) (rp_live r) ->
  hybrid_finish r =
    if aliased (rp_data_sectors r) (rp_live r) then format_error
    else Ok (imap (settled (rp_data_sectors r) (rp_live r)) (rp_live r)).
Proof.
  intros Hl. unfold hybrid_finish.
  pose proof (collect_extents_spec (rp_data_sectors r) (rp_live r) 0) as H.
  destruct (collect_extents _ 0 _) as [result physical]. destruct H as (-> & Hnd & Hin).
  apply (settle_reference _ _ Hl physical Hin); [apply sort_by_start_perm|apply sort_by_start_sorted|done].
Qed.

(** ** The replay as a whole *)

(** A finished index: a well-formed index of the device, each payload sector of
    which at most one mapping owns. *)
Record hybrid_index (sectors data_sectors : Z) (l : list segment_mapping) : Prop := {
  hi_index : index_ok 0 l;
  hi_untagged : Forall untagged l;
  hi_bound : Forall (fun m => fin m <= sectors) l;
  hi_owned : Forall (fun m => s_moffset m = kNoPhysicalOffset /\ s_zeroed m = true \/
                       kDataStartSector <= s_moffset m /\ s_moffset m + s_length m <= data_sectors) l;
  hi_exclusive : forall i j m m', l !! i = Some m -> l !! j = Some m' -> i <> j ->
    s_moffset m <> kNoPhysicalOffset -> s_moffset m' <> kNoPhysicalOffset ->
    s_moffset m + s_length m <= s_moffset m' \/ s_moffset m' + s_length m' <= s_moffset m;
}.

Lemma hybrid_ok_nil sectors data_sectors : hybrid_ok sectors data_sectors [].
Proof. split; [apply live_ok_nil|constructor]. Qed.

Lemma hybrid_replay_new_ok vs db r :
  0 <= vs -> 0 <= db -> hybrid_replay_new vs db = Ok r ->
  0 <= vs / kAlignment <= kMaxOffset /\ 0 <= db / kAlignment < kMaxMoffset /\
  r = Rp (vs / kAlignment) (db / kAlignment) 0 [].
Proof.
  intros Hv Hd. unfold hybrid_replay_new. case_if; [done|]. intros [= <-]. bool_hyps.
  unfold kAlignment, kNoPhysicalOffset in *. pose proof (Z.div_pos vs 512). pose proof (Z.div_pos db 512).
  split; [lia|]. split; [lia|done].
Qed.

Section Settled.
Context (sectors d : Z) (l : list segment_mapping).
Context (Hs : 0 <= sectors <= kMaxOffset) (Hd : 0 <= d < kMaxMoffset).
Context (Hl : hybrid_ok sectors d l) (Hal : aliased d l = false).

Lemma hybrid_ok_positive : Forall (fun m => 0 < s_length m /\ 0 <= s_moffset m) l.
Proof.
  apply Forall_forall. intros m Hin. destruct (hybrid_ok_elem _ _ l m Hl Hin) as ((_ & H1 & _) & _ & (_ & H2 & _) & _).
  cbn [normal s_length] in H1. change kDataStartSector with 8 in H2. lia.
Qed.

Lemma settled_normal i m : normal (settled d l i m) = normal m.
Proof. unfold settled. destruct (s_zeroed m) eqn:Hz; [|done]. destruct (_ || _); [|done]. unfold normal, no_backing. cbn. by rewrite Hz. Qed.
Lemma settled_normal_all : normal <$> imap (settled d l) l = normal <$> l.
Proof.
  apply list_eq. intros i. rewrite !list_lookup_fmap, list_lookup_imap.
  destruct (l !! i) as [m|]; [|done]. cbn [fmap option_fmap option_map]. by rewrite settled_normal.
Qed.

Lemma settled_lookup i m' :
  imap (settled d l) l !! i = Some m' -> exists m, l !! i = Some m /\ m' = settled d l i m.
Proof. rewrite list_lookup_imap. destruct (l !! i) as [m|]; [|done]. intros [= <-]. eauto. Qed.

(** What a settled mapping is, by the payload it names. *)
Lemma settled_cases i m :
  l !! i = Some m ->
  s_moffset (settled d l i m) = kNoPhysicalOffset /\ s_zeroed m = true \/
  settled d l i m = m /\ unbacked d m = false /\
  (s_zeroed m = true -> contested d (fun _ => true) l i m = false).
Proof.
  intros Hm. unfold settled, unbacked. destruct (s_zeroed m) eqn:Hz; cbn [andb].
  - destruct (_ || contested _ _ _ _ _) eqn:E; [by left|right]. apply orb_false_iff in E. tauto.
  - right. done.
Qed.

Lemma settled_owned i m :
  l !! i = Some m ->
  s_moffset (settled d l i m) = kNoPhysicalOffset /\ s_zeroed m = true \/
  settled d l i m = m /\ kDataStartSector <= s_moffset m /\ s_moffset m + s_length m <= d.
Proof.
  intros Hm. destruct (settled_cases i m Hm) as [?|(-> & Hu & _)]; [by left|right]. split; [done|].
  assert (m ∈ l) as Hin by by eapply list_elem_of_lookup_2.
  destruct (hybrid_ok_elem _ _ l m Hl Hin) as (_ & _ & (_ & Hb & _) & Hdata). split; [done|].
  destruct (s_zeroed m) eqn:Hz; [|auto]. unfold unbacked in Hu. rewrite Hz in Hu. cbn [andb] in Hu.
  apply orb_false_iff in Hu as [_ Hu]. lia.
Qed.

Lemma meets_comm a b : meets a b = meets b a.
Proof. destruct a, b; [apply andb_comm|done..]. Qed.

Lemma contested_false p i m j m' :
  contested d p l i m = false -> l !! j = Some m' -> i <> j -> p m' = true ->
  unbacked d m = false -> unbacked d m' = false ->
  s_moffset m + s_length m <= s_moffset m' \/ s_moffset m' + s_length m' <= s_moffset m.
Proof.
  intros Hc Hj Hne Hp Hu Hu'. unfold contested in Hc. rewrite existsb_none in Hc.
  specialize (Hc (j, m') ltac:(apply elem_of_lookup_imap; eauto)). cbn beta iota in Hc.
  rewrite (proj2 (Nat.eqb_neq j i)), Hp in Hc by done. unfold owns in Hc. rewrite Hu, Hu' in Hc.
  cbn in Hc. lia.
Qed.

Lemma settled_exclusive i j m m' :
  l !! i = Some m -> l !! j = Some m' -> i <> j ->
  s_moffset (settled d l i m) <> kNoPhysicalOffset -> s_moffset (settled d l j m') <> kNoPhysicalOffset ->
  s_moffset m + s_length m <= s_moffset m' \/ s_moffset m' + s_length m' <= s_moffset m.
Proof.
  intros Hi Hj Hne H1 H2.
  destruct (settled_cases i m Hi) as [[? _]|(_ & Hu & Hc)]; [done|].
  destruct (settled_cases j m' Hj) as [[? _]|(_ & Hu' & Hc')]; [done|].
  destruct (s_zeroed m) eqn:Hz; [by apply (contested_false (fun _ => true) i m j m'); auto|].
  destruct (s_zeroed m') eqn:Hz'; [apply or_comm; by apply (contested_false (fun _ => true) j m' i m); auto|].
  apply (contested_false is_data i m j m'); try done.
  - unfold aliased in Hal. rewrite existsb_none in Hal.
    specialize (Hal (i, m) ltac:(apply elem_of_lookup_imap; eauto)). cbn beta iota in Hal.
    unfold is_data at 1 in Hal. by rewrite Hz in Hal.
  - unfold is_data. by rewrite Hz'.
Qed.

Lemma sorted_normal lo k : sorted_from lo (normal <$> k) <-> sorted_from lo k.
Proof. revert lo. induction k as [|m k IH]; intros lo; simpl; [done|]. by rewrite IH. Qed.

Lemma settled_index : hybrid_index sectors d (imap (settled d l) l).
Proof.
  assert (forall m', m' ∈ imap (settled d l) l -> exists i m, l !! i = Some m /\ m ∈ l /\ m' = settled d l i m) as Hin.
  { intros m' (i & m & -> & Hm)%elem_of_lookup_imap. exists i, m. split; [done|]. split; [|done].
    by eapply list_elem_of_lookup_2. }
  assert (forall i m, normal (settled d l i m) = normal m) as Hn by apply settled_normal.
  assert (forall i m, fin (settled d l i m) = fin m) as Hf.
  { intros i m. change (fin (normal (settled d l i m)) = fin (normal m)). by rewrite Hn. }
  assert (forall i m, s_zeroed (settled d l i m) = s_zeroed m) as Hz.
  { intros i m. change (s_zeroed (normal (settled d l i m)) = s_zeroed (normal m)). by rewrite Hn. }
  assert (forall i m, s_length (settled d l i m) = s_length m) as Hlen.
  { intros i m. change (s_length (normal (settled d l i m)) = s_length (normal m)). by rewrite Hn. }
  split; [split| | | |].
  - apply Forall_forall. intros m' (i & m & Hm & Hml & ->)%Hin.
    destruct (hybrid_ok_elem _ _ l m Hl Hml) as (H1 & _ & (H3 & _) & _).
    rewrite <- (Hn i m) in H1. destruct H1 as (G1 & G2 & _ & _ & _).
    split; [exact G1|]. split; [exact G2|]. rewrite Hz, Hlen. cbn [normal s_length] in G2. rewrite Hlen in G2.
    assert (s_tag (settled d l i m) = 0) as ->.
    { unfold untagged in H3. unfold settled. by destruct (s_zeroed m && _). }
    unfold kMaxMoffset in Hd. split; [|split; [lia|]].
    + destruct (settled_owned i m Hm) as [[-> _]|(-> & H4 & H5)]; [done|]. change kDataStartSector with 8 in H4. lia.
    + intros Hz'. destruct (settled_owned i m Hm) as [[_ ?]|(-> & H4 & H5)]; [congruence|lia].
  - rewrite <- sorted_normal, settled_normal_all, sorted_normal.
    rewrite <- sorted_normal. apply (hybrid_live _ _ _ Hl).
  - apply Forall_forall. intros m' (i & m & Hm & Hml & ->)%Hin.
    destruct (hybrid_ok_elem _ _ l m Hl Hml) as (_ & _ & (H3 & _) & _).
    unfold untagged in *. unfold settled. by destruct (s_zeroed m && _).
  - apply Forall_forall. intros m' (i & m & Hm & Hml & ->)%Hin. rewrite Hf.
    by destruct (hybrid_ok_elem _ _ l m Hl Hml) as (_ & H3 & _).
  - apply Forall_forall. intros m' (i & m & Hm & Hml & ->)%Hin. rewrite Hz.
    destruct (settled_owned i m Hm) as [?|(-> & ?)]; [by left|by right].
  - intros i j m1 m2 (m & Hm & ->)%settled_lookup (m' & Hm' & ->)%settled_lookup Hne N1 N2.
    rewrite !Hlen. pose proof (settled_exclusive i j m m' Hm Hm' Hne N1 N2) as Hx.
    destruct (settled_owned i m Hm) as [[? _]|(-> & _)]; [done|].
    by destruct (settled_owned j m' Hm') as [[? _]|(-> & _)].
Qed.
End Settled.

Lemma hybrid_data_owned sectors d l i m :
  0 <= d < kMaxMoffset -> hybrid_index sectors d l -> l !! i = Some m -> s_zeroed m = false ->
  kDataStartSector <= s_moffset m /\ s_moffset m + s_length m <= d /\ s_moffset m <> kNoPhysicalOffset.
Proof.
  intros Hd Hi Hm Hz. pose proof (hi_owned _ _ _ Hi) as Ho. rewrite Forall_lookup in Ho.
  destruct (Ho i m Hm) as [[_ ?]|[? ?]]; [congruence|]. unfold kNoPhysicalOffset.
  pose proof (hi_index _ _ _ Hi) as [Hok _]. rewrite Forall_lookup in Hok.
  destruct (Hok i m Hm) as (_ & ? & _). lia.
Qed.
Lemma hybrid_index_inj sectors d l : 0 <= d < kMaxMoffset -> hybrid_index sectors d l -> phys_inj l.
Proof.
  intros Hd Hi x y t u p (s & Hs & Zs & Cs & ->)%resolve_data_inv (s' & Hs' & Zs' & Cs' & E)%resolve_data_inv.
  apply list_elem_of_lookup in Hs as [i Hs]. apply list_elem_of_lookup in Hs' as [j Hs'].
  destruct (decide (i = j)) as [->|Hne]; [rewrite Hs in Hs'; injection Hs' as <-; lia|].
  destruct (hi_exclusive _ _ _ Hi i j s s' Hs Hs' Hne); unfold fin in *; try lia; by eapply hybrid_data_owned.
Qed.

(** The replay of any log, with what [finish] makes of it. *)
Lemma hybrid_append_ok vs db r0 log :
  0 <= vs -> 0 <= db -> hybrid_replay_new vs db = Ok r0 ->
  match hybrid_append r0 log with
  | Ok r =>
      Forall (hybrid_record_ok (vs / kAlignment) (db / kAlignment)) (load_records log) /\
      hybrid_replay_ok (vs / kAlignment) (db / kAlignment) r /\
      forall x, resolve (normal <$> rp_live r) x = log_resolve (load_records log) x Hole
  | Err f => f = Errno EINVAL
  end.
Proof.
  intros Hv Hdb Hnew. destruct (hybrid_replay_new_ok vs db r0 Hv Hdb Hnew) as (H1 & H2 & ->).
  unfold hybrid_append. case_if; [done|]. cbn [rp_sectors rp_data_sectors rp_records rp_live].
  pose proof (hybrid_fold_spec _ _ H1 H2
    (Rp (vs / kAlignment) (db / kAlignment) (0 + zlen log / kEncodedSize) []) (load_records log)
    ltac:(split; [done|split; [done|apply hybrid_ok_nil]]) (load_records_encodable log)) as Hf.
  destruct (res_fold _ _ _) as [r|f]; exact Hf.
Qed.

(** C29. Whatever a Hybrid log holds, its replay either fails with the format
    error or yields a well-formed index: entries in order and disjoint, inside
    the device, every payload they own inside the payload file past the header,
    and no payload sector owned by two of them, ZERO mappings included. *)
Theorem hybrid_replay_type vs db r0 log :
  0 <= vs -> 0 <= db -> hybrid_replay_new vs db = Ok r0 ->
  match hybrid_append r0 log with
  | Ok r =>
      match hybrid_finish r with
      | Ok l => hybrid_index (vs / kAlignment) (db / kAlignment) l
      | Err f => f = Errno EINVAL
      end
  | Err f => f = Errno EINVAL
  end.
Proof.
  intros Hv Hdb Hnew. pose proof (hybrid_append_ok vs db r0 log Hv Hdb Hnew) as Ha.
  destruct (hybrid_append r0 log) as [r|f]; [|done]. destruct Ha as (_ & (R1 & R2 & R3) & _).
  destruct (hybrid_replay_new_ok vs db r0 Hv Hdb Hnew) as (H1 & H2 & _).
  rewrite hybrid_finish_reference by by eapply hybrid_ok_positive.
  rewrite R2. destruct (aliased _ _) eqn:Hal; [done|]. by apply settled_index.
Qed.

(** C30. A Hybrid log means what the native one means: an accepted log maps each
    sector by the last record that covers it, finishing it changes none of
    these mappings, and gives up the payload of exactly the ZERO mappings that
    name none inside the file or share it with another mapping; only two data
    mappings that share payload make it fail. *)
Theorem hybrid_replay_correct vs db r0 log :
  0 <= vs -> 0 <= db -> hybrid_replay_new vs db = Ok r0 ->
  match hybrid_append r0 log with
  | Ok r =>
      Forall (hybrid_record_ok (vs / kAlignment) (db / kAlignment)) (load_records log) /\
      match hybrid_finish r with
      | Ok l =>
          l = imap (settled (db / kAlignment) (rp_live r)) (rp_live r) /\ phys_inj l /\
          forall x, resolve l x = log_resolve (load_records log) x Hole
      | Err f => f = Errno EINVAL /\ aliased (db / kAlignment) (rp_live r) = true
      end
  | Err f => f = Errno EINVAL
  end.
Proof.
  intros Hv Hdb Hnew. pose proof (hybrid_append_ok vs db r0 log Hv Hdb Hnew) as Ha.
  destruct (hybrid_append r0 log) as [r|f]; [|done]. destruct Ha as (Hrec & (R1 & R2 & R3) & Hx).
  destruct (hybrid_replay_new_ok vs db r0 Hv Hdb Hnew) as (H1 & H2 & _). split; [done|].
  rewrite hybrid_finish_reference by by eapply hybrid_ok_positive.
  rewrite R2. destruct (aliased _ _) eqn:Hal; [done|]. split; [done|].
  pose proof (settled_index _ _ _ H1 H2 R3 Hal) as Hi.
  split; [by eapply hybrid_index_inj|].
  intros x. rewrite <- Hx, <- (settled_normal_all (db / kAlignment)). symmetry. apply resolve_normal, (hi_untagged _ _ _ Hi).
Qed.

(** A log with a write, an overwrite, a discard that keeps its payload, and a
    foreign ZERO marker that shares it. *)
Definition hybrid_example : bytes :=
  store_segment_le (store_segment_le (store_segment_le (store_segment_le (zeros 64)
    0 (Seg 0 8 8 false 0)) 16 (Seg 2 2 16 false 0)) 32 (Seg 0 2 8 true 0)) 48 (Seg 8 4 9 true 0).

Lemma hybrid_replay_type_witness :
  match hybrid_append (Rp 16 18 0 []) hybrid_example with
  | Ok r =>
      match hybrid_finish r with
      | Ok l => hybrid_index (8192 / kAlignment) (9216 / kAlignment) l
      | Err f => f = Errno EINVAL
      end
  | Err f => f = Errno EINVAL
  end /\
  (r ← hybrid_append (Rp 16 18 0 []) hybrid_example; hybrid_finish r) =
    Ok [Seg 0 2 kNoPhysicalOffset true 0; Seg 2 2 16 false 0; Seg 4 4 12 false 0; Seg 8 4 kNoPhysicalOffset true 0].
Proof. split; [apply (hybrid_replay_type 8192 9216); [lia|lia|reflexivity]|vm_compute; reflexivity]. Defined.

Lemma hybrid_replay_correct_witness :
  match hybrid_append (Rp 16 18 0 []) hybrid_example with
  | Ok r =>
      Forall (hybrid_record_ok (8192 / kAlignment) (9216 / kAlignment)) (load_records hybrid_example) /\
      match hybrid_finish r with
      | Ok l =>
          l = imap (settled (9216 / kAlignment) (rp_live r)) (rp_live r) /\ phys_inj l /\
          forall x, resolve l x = log_resolve (load_records hybrid_example) x Hole
      | Err f => f = Errno EINVAL /\ aliased (9216 / kAlignment) (rp_live r) = true
      end
  | Err f => f = Errno EINVAL
  end.
Proof. apply (hybrid_replay_correct 8192 9216); [lia|lia|reflexivity]. Defined.
