(* ===== verification/HybridLog.v ===== *)
(** * The integrity metadata of a Hybrid log ([format/hybrid_log_state.cpp],
      [log_operation_sync] and [replace_index_sync] of [format/hybrid_file.cpp],
      [flush_locked] of [format/hybrid_writer.cpp])

    An anchor on the data file and a progress mark on the index, both extended
    attributes, say how much of the mapping log is trusted.  The disk of the
    model keeps, beside what the files hold, what a crash may still take back:
    the attribute values and directory entries since their last sync, and the
    bytes of the index past its synced length. *)
From S2P Require Import Prelude Bytes Crc32c LsmtFormat Source File Segments Merge Trim Lsmt Journal FilePair Writer HybridFormat.

Open Scope Z_scope.

(** ** Stamps and states *)

Record LogStamp := Stamp {
  ls_generation : bytes;
  ls_bytes : Z;
  ls_crc : Z;
}.
#[export] Instance log_stamp_eq_dec : EqDecision LogStamp.
Proof. solve_decision. Defined.

Definition kSize : Z := 128.
Definition kStable : Z := 1.
Definition kReplacing : Z := 2.
Definition kInstalling : Z := 3.
Definition kLogMagic : bytes := [79; 66; 68; 72; 89; 76; 48; 49].   (* OBDHYL01 *)

Record LogState := MkState { st_kind : Z; st_first : LogStamp; st_second : LogStamp }.

Definition empty_stamp : LogStamp := Stamp (zeros 16) 4096 0.

Definition bound_ok (bytes : Z) : bool :=
  negb ((bytes <? kSpace) || negb ((bytes - kSpace) mod 16 =? 0) || (kMaxLogRecords <? (bytes - kSpace) / 16)).
Definition bound (bytes : Z) : res unit := if bound_ok bytes then Ok tt else format_error.

Definition encode_stamp (out : bytes) (pos : Z) (s : LogStamp) : bytes :=
  let out := put out pos (ls_generation s) in
  let out := store_u64_le out (pos + 16) (ls_bytes s) in
  store_u32_le out (pos + 24) (ls_crc s).

Definition decode_stamp (raw : bytes) (pos : Z) : res LogStamp :=
  let s := Stamp (sub pos 16 raw) (load_u64_le raw (pos + 16)) (load_u32_le raw (pos + 24)) in
  _ ← bound (ls_bytes s);
  if all_zero (ls_generation s) then format_error else
  if negb (all_zero (sub (pos + 28) 20 raw)) then format_error else Ok s.

Definition state_crc (raw : bytes) : Z := crc32c false 0 raw.

Definition encode (st : LogState) : bytes :=
  let out := put (zeros kSize) 0 kLogMagic in
  let out := store_u32_le out 8 1 in
  let out := store_u32_le out 12 (st_kind st) in
  let out := encode_stamp out 32 (st_first st) in
  let out := if st_kind st =? kReplacing then encode_stamp out 80 (st_second st) else out in
  store_u32_le out 16 (state_crc out).

(** The attribute's value, if it is there. *)
Definition read_state (attribute : option bytes) : res (option LogState) :=
  match attribute with
  | None => Ok None
  | Some raw =>
      if kSize <? zlen raw then format_error else                (* ERANGE *)
      if negb (zlen raw =? kSize) then format_error else
      let expected := load_u32_le raw 16 in
      let raw := store_u32_le raw 16 0 in
      if negb (bool_decide (sub 0 8 raw = kLogMagic)) || negb (load_u32_le raw 8 =? 1) ||
         negb (expected =? state_crc raw)
      then format_error else
      let kind := load_u32_le raw 12 in
      if negb (kind =? kStable) && negb (kind =? kReplacing) && negb (kind =? kInstalling) then format_error else
      if negb (all_zero (sub 20 12 raw)) then format_error else
      first ← decode_stamp raw 32;
      if kind =? kReplacing then
        second ← decode_stamp raw 80;
        Ok (Some (MkState kind first second))
      else
        if negb (all_zero (sub 80 48 raw)) then format_error
        else Ok (Some (MkState kind first empty_stamp))
  end.

(** ** The codec reads back what it wrote *)

Definition stamp_ok (s : LogStamp) : Prop :=
  zlen (ls_generation s) = 16 /\ Forall is_byte (ls_generation s) /\ all_zero (ls_generation s) = false /\
  bound_ok (ls_bytes s) = true /\ 0 <= ls_crc s < 2 ^ 32.
Definition state_ok (st : LogState) : Prop :=
  (st_kind st = kStable \/ st_kind st = kReplacing \/ st_kind st = kInstalling) /\ stamp_ok (st_first st) /\
  (if st_kind st =? kReplacing then stamp_ok (st_second st) else st_second st = empty_stamp).

Definition stamp_fields (pos : Z) (s : LogStamp) : list (Z * bytes) :=
  [(pos, ls_generation s); (pos + 16, le_bytes 8 (ls_bytes s)); (pos + 24, le_bytes 4 (ls_crc s))].
Definition state_fields (st : LogState) : list (Z * bytes) :=
  [(0, kLogMagic); (8, le_bytes 4 1); (12, le_bytes 4 (st_kind st))] ++ stamp_fields 32 (st_first st) ++
  (if st_kind st =? kReplacing then stamp_fields 80 (st_second st) else []).

Lemma encode_puts st :
  let body := puts (zeros kSize) (state_fields st) in encode st = put body 16 (le_bytes 4 (state_crc body)).
Proof.
  cbv zeta. unfold encode, state_fields, encode_stamp, stamp_fields.
  destruct (st_kind st =? kReplacing); by rewrite ?store_u32_val, ?store_u64_val.
Qed.

Section codec.
Context (st : LogState) (Hst : state_ok st).
Let body := puts (zeros kSize) (state_fields st).

Lemma state_fields_layout : layout_ok 0 (zlen (zeros kSize)) (state_fields st).
Proof.
  destruct Hst as (_ & (G1 & _) & H2). unfold state_fields, stamp_fields. change (zlen (zeros kSize)) with 128.
  destruct (st_kind st =? kReplacing); cbn [app layout_ok]; rewrite ?zlen_le_bytes, ?G1; change (zlen kLogMagic) with 8;
    [destruct H2 as (G2 & _); rewrite G2|]; lia.
Qed.

Lemma body_bytes : zlen body = 128 /\ Forall is_byte body.
Proof.
  split; [apply (puts_below _ _ 0 ltac:(lia) state_fields_layout)|].
  apply puts_byte; [apply zeros_byte|]. destruct Hst as (_ & (_ & G1 & _) & H2). unfold state_fields, stamp_fields.
  destruct (st_kind st =? kReplacing); cbn [app];
    forall_fields ltac:(fun _ => first [apply le_bytes_byte|exact G1|apply H2|repeat constructor; done]).
Qed.

Lemma body_field p bs n : (p, bs) ∈ state_fields st -> zlen bs = n -> sub p n body = bs.
Proof. intros Hin Hz. by apply (puts_field _ _ 0 _ _ _ ltac:(lia) state_fields_layout). Qed.

Lemma body_gap q n :
  0 <= q -> 0 <= n -> q + n <= 128 ->
  Forall (fun f => q + n <= f.1 \/ f.1 + zlen f.2 <= q) (state_fields st) -> sub q n body = zeros n.
Proof.
  intros Hq Hn Hm H. unfold body. rewrite puts_other; [by apply sub_zeros|done|done|].
  by apply (layout_inside 0); [|apply state_fields_layout|].
Qed.

Lemma decode_body pos s :
  stamp_ok s -> 0 <= pos -> pos + 48 <= 128 -> stamp_fields pos s ⊆ state_fields st ->
  Forall (fun f => pos + 48 <= f.1 \/ f.1 + zlen f.2 <= pos + 28) (state_fields st) -> decode_stamp body pos = Ok s.
Proof.
  intros (G1 & G2 & G3 & G4 & G5) Hp Hm Hin Hgap. destruct body_bytes as [Hz Hb].
  assert (sub pos 16 body = ls_generation s) as E1 by (apply body_field; [apply Hin; in_fields|done]).
  assert (load_u64_le body (pos + 16) = ls_bytes s) as E2.
  { rewrite (load_field_u64 body (pos + 16) Hb ltac:(lia) (ls_bytes s)); [|lia|].
    - apply Z.mod_small. unfold bound_ok in G4. apply negb_true_iff in G4. bool_hyps. unfold kSpace, kMaxLogRecords, kMaxRoIndexSize in *.
      pose proof (Z.div_mod (ls_bytes s - 4096) 16 ltac:(lia)). lia.
    - apply body_field; [apply Hin; in_fields|apply zlen_le_bytes]. }
  assert (load_u32_le body (pos + 24) = ls_crc s) as E3.
  { rewrite (load_field_u32 body (pos + 24) Hb ltac:(lia) (ls_crc s)); [|lia|].
    - by apply Z.mod_small.
    - apply body_field; [apply Hin; in_fields|apply zlen_le_bytes]. }
  unfold decode_stamp. rewrite E1, E2, E3. cbn [ls_bytes ls_generation]. unfold bound. rewrite G4. cbn [mbind res_bind].
  rewrite G3, (body_gap (pos + 28) 20), all_zero_zeros; [by destruct s|lia|lia|lia|].
  eapply Forall_impl; [exact Hgap|]. simpl. lia.
Qed.

Lemma encode_read : read_state (Some (encode st)) = Ok (Some st).
Proof.
  pose proof body_bytes as [Hz Hb]. pose proof (encode_puts st) as He. cbv zeta in He. fold body in He. rewrite He.
  pose proof Hst as (Hk & Hs1 & Hs2). pose proof Hs1 as (G1 & _).
  set (raw := put body 16 _). assert (zlen raw = 128) as Hzr by (unfold raw; rewrite zlen_put; rewrite ?zlen_le_bytes; lia).
  assert (Forall is_byte raw) as Hbr by (apply put_byte; [done|apply le_bytes_byte]).
  assert (load_u32_le raw 16 = state_crc body) as Ec.
  { rewrite (load_field_u32 raw 16 Hbr ltac:(lia) (state_crc body)); [|lia|].
    - apply Z.mod_small, crc32c_bound.
    - unfold raw. change 4 with (zlen (le_bytes 4 (state_crc body))). apply sub_put_same; rewrite ?zlen_le_bytes; lia. }
  assert (Forall (fun f => 16 + 4 <= f.1 \/ f.1 + zlen f.2 <= 16) (state_fields st) /\
          Forall (fun f => 20 + 12 <= f.1 \/ f.1 + zlen f.2 <= 20) (state_fields st)) as [Hg1 Hg2].
  { unfold state_fields, stamp_fields. destruct (st_kind st =? kReplacing); cbn [app];
      split; forall_fields ltac:(fun _ => cbn [fst]; rewrite ?zlen_le_bytes; change (zlen kLogMagic) with 8; lia). }
  assert (store_u32_le raw 16 0 = body) as Er.
  { rewrite store_u32_val. unfold raw. rewrite put_put by (rewrite ?zlen_le_bytes; lia).
    change (le_bytes 4 0) with (zeros 4). rewrite <- (body_gap 16 4) by (done || lia). apply put_sub; lia. }
  unfold read_state. rewrite Hzr, Ec, Er. cbn [kSize Z.ltb Z.eqb negb]. change (128 <? 128) with false. change (128 =? 128) with true. cbn [negb].
  rewrite (body_field 0 kLogMagic 8) by (done || in_fields). rewrite bool_decide_true by done.
  rewrite (load_field_u32 body 8 Hb ltac:(lia) 1); [|lia|apply body_field; [in_fields|apply zlen_le_bytes]].
  change (1 mod 2 ^ 32 =? 1) with true. rewrite Z.eqb_refl. cbn [negb orb].
  rewrite (load_field_u32 body 12 Hb ltac:(lia) (st_kind st)); [|lia|apply body_field; [in_fields|apply zlen_le_bytes]].
  rewrite Z.mod_small by (unfold kStable, kReplacing, kInstalling in Hk; lia).
  rewrite (body_gap 20 12), all_zero_zeros by (done || lia). cbn [negb].
  assert (forallb negb [st_kind st =? kStable; st_kind st =? kReplacing; st_kind st =? kInstalling] = false) as Hkind.
  { by destruct Hk as [->|[->| ->]]. }
  cbn [forallb] in Hkind. rewrite andb_true_r, andb_assoc in Hkind. rewrite Hkind.
  assert (decode_stamp body 32 = Ok (st_first st)) as E1.
  { apply decode_body; [done|lia|lia|unfold state_fields; intros x Hx; apply elem_of_app; right; apply elem_of_app; by left|].
    unfold state_fields, stamp_fields. destruct (st_kind st =? kReplacing); cbn [app];
      forall_fields ltac:(fun _ => cbn [fst]; rewrite ?zlen_le_bytes, ?G1; change (zlen kLogMagic) with 8; lia). }
  rewrite E1. cbn [mbind res_bind]. destruct (st_kind st =? kReplacing) eqn:Er2.
  - assert (decode_stamp body 80 = Ok (st_second st)) as E2.
    { apply decode_body; [done|lia|lia| |].
      - unfold state_fields. rewrite Er2. intros x Hx. rewrite !elem_of_app. auto.
      - unfold state_fields, stamp_fields. rewrite Er2. pose proof Hs2 as (G2 & _). cbn [app].
        forall_fields ltac:(fun _ => cbn [fst]; rewrite ?zlen_le_bytes, ?G1, ?G2; change (zlen kLogMagic) with 8; lia). }
    rewrite E2. cbn [mbind res_bind]. by destruct st.
  - rewrite (body_gap 80 48), all_zero_zeros; [|lia|lia|lia|].
    + destruct st. cbn in *. by subst.
    + unfold state_fields, stamp_fields. rewrite Er2. cbn [app].
      forall_fields ltac:(fun _ => cbn [fst]; rewrite ?zlen_le_bytes, ?G1; change (zlen kLogMagic) with 8; lia).
Qed.
End codec.

(** ** The disk *)

(** An attribute: its value, and the older ones a crash may bring back. *)
Record Attr := Att { at_value : option bytes; at_older : list (option bytes) }.
Definition at_values (x : Attr) : list (option bytes) := at_value x :: at_older x.
Definition at_set (v : bytes) (x : Attr) : Attr := Att (Some v) (at_values x).
Definition at_sync (x : Attr) : Attr := Att (at_value x) [].

(** An index file with its attribute.  After a crash its bytes below
    [ino_durable] are there and it is at most [ino_reach] long. *)
Record Inode := Ino { ino_file : file; ino_durable : Z; ino_reach : Z; ino_attr : Attr }.

Definition ino_new : Inode := Ino empty_file 0 0 (Att None []).
Definition ino_sync (i : Inode) : Inode :=
  Ino (ino_file i) (f_size (ino_file i)) (f_size (ino_file i)) (at_sync (ino_attr i)).
Definition ino_write (off : Z) (bs : bytes) (i : Inode) : Inode :=
  let f := file_write (ino_file i) off bs in
  Ino f (Z.min (ino_durable i) off) (Z.max (ino_reach i) (f_size f)) (ino_attr i).
Definition ino_truncate (n : Z) (i : Inode) : Inode :=
  Ino (file_truncate (ino_file i) n) (Z.min (ino_durable i) n) (Z.max (ino_reach i) n) (ino_attr i).

(** The pair as [FilePair] holds it, on the disk.  [hp_former]: the files the
    index name may lead to again after a crash. *)
Record HybridPair := HP {
  hp_script : script;
  hp_writable : bool;
  hp_header : HeaderTrailer;
  hp_data : file;
  hp_anchor : Attr;                (* of the data file *)
  hp_index : Inode;
  hp_former : list Inode;
  hp_stamp : option LogStamp;      (* log_stamp_ *)
  hp_index_bytes : Z;
  hp_generation : Z;               (* index_generation_ *)
}.

Definition set_hscript (w : HybridPair) (s : script) : HybridPair :=
  HP s (hp_writable w) (hp_header w) (hp_data w) (hp_anchor w) (hp_index w) (hp_former w) (hp_stamp w)
    (hp_index_bytes w) (hp_generation w).
Definition set_anchor (w : HybridPair) (a : Attr) : HybridPair :=
  HP (hp_script w) (hp_writable w) (hp_header w) (hp_data w) a (hp_index w) (hp_former w) (hp_stamp w)
    (hp_index_bytes w) (hp_generation w).
Definition set_inode (w : HybridPair) (i : Inode) : HybridPair :=
  HP (hp_script w) (hp_writable w) (hp_header w) (hp_data w) (hp_anchor w) i (hp_former w) (hp_stamp w)
    (hp_index_bytes w) (hp_generation w).
Definition set_former (w : HybridPair) (l : list Inode) : HybridPair :=
  HP (hp_script w) (hp_writable w) (hp_header w) (hp_data w) (hp_anchor w) (hp_index w) l (hp_stamp w)
    (hp_index_bytes w) (hp_generation w).
Definition set_stamp (w : HybridPair) (s : option LogStamp) : HybridPair :=
  HP (hp_script w) (hp_writable w) (hp_header w) (hp_data w) (hp_anchor w) (hp_index w) (hp_former w) s
    (match s with Some s => ls_bytes s | None => hp_index_bytes w end) (hp_generation w).
(** The rename and the descriptors it leaves. *)
Definition adopt_index (next : Inode) (stamp : LogStamp) (bytes : Z) (w : HybridPair) : HybridPair :=
  HP (hp_script w) (hp_writable w) (hp_header w) (hp_data w) (hp_anchor w) next (hp_index w :: hp_former w)
    (Some stamp) bytes (hp_generation w + 1).

Definition h_step : io HybridPair outcome := fun w =>
  let '(o, s) := next_outcome (hp_script w) in (Ok o, set_hscript w s).
(** A system call with no effect here, or one whose effect follows. *)
Definition h_call : io HybridPair unit :=
  o ← h_step; match o with Done => mret tt | Failed _ e => io_fail (Errno e) end.
Definition h_do (f : HybridPair -> HybridPair) : io HybridPair unit := _ ← h_call; io_run (fun w => (Ok tt, f w)).

Definition sync_data : io HybridPair unit := h_do (fun w => set_anchor w (at_sync (hp_anchor w))).
Definition sync_index : io HybridPair unit := h_do (fun w => set_inode w (ino_sync (hp_index w))).
Definition sync_directory : io HybridPair unit := h_do (fun w => set_former w []).

Definition mark_inode (st : LogState) (i : Inode) : Inode :=
  Ino (ino_file i) (ino_durable i) (ino_reach i) (at_set (encode st) (ino_attr i)).
Definition write_anchor (st : LogState) : io HybridPair unit :=
  h_do (fun w => set_anchor w (at_set (encode st) (hp_anchor w))).

Definition h_write (off : Z) (bs : bytes) : io HybridPair unit :=
  o ← h_step;
  io_run (fun w => match o with
                   | Done => (Ok tt, set_inode w (ino_write off bs (hp_index w)))
                   | Failed k e => (Err (Errno e), set_inode w (ino_write off (partial k bs) (hp_index w)))
                   end).
Definition h_read (f : file) (off n : Z) : io HybridPair bytes :=
  _ ← h_call;
  let bs := file_read f off n in
  if zlen bs =? n then mret bs else io_fail (Errno EIO).

(** ** The operations of [hybrid_log_state.cpp] *)

Fixpoint crc_loop (fuel : nat) (f : file) (bytes offset crc : Z) : io HybridPair Z :=
  if offset <? bytes then
    match fuel with
    | O => io_fail Fuel
    | S fuel =>
        let count := Z.min 65536 (bytes - offset) in
        buffer ← h_read f offset count;
        crc_loop fuel f bytes (offset + count) (crc32c_extend false 0 buffer crc)
    end
  else mret crc.
Definition prefix_crc (f : file) (bytes : Z) : io HybridPair Z :=
  _ ← io_lift (bound bytes);
  crc_loop (Z.to_nat bytes) f bytes kSpace 0.

Definition matches (f : file) (size : Z) (stamp : LogStamp) : io HybridPair bool :=
  if ls_bytes stamp <=? size then
    crc ← prefix_crc f (ls_bytes stamp);
    mret (crc =? ls_crc stamp)
  else mret false.

(** The generation of a UUID: its hexadecimal digits, two to a byte. *)
Definition nibble (c : Z) : Z := u8 (if (48 <=? c) && (c <=? 57) then c - 48 else c - 97 + 10).
Fixpoint pack (l : list Z) : bytes :=
  match l with
  | a :: b :: l => Z.lor (u8 (Z.shiftl a 4)) b :: pack l
  | [a] => [u8 (Z.shiftl a 4)]
  | [] => []
  end.
Definition generation_of (uuid : bytes) : bytes := put (zeros 16) 0 (pack (nibble <$> filter (fun c => c <> 45) uuid)).

Definition new_log_stamp (f : file) (uuid : bytes) : io HybridPair LogStamp :=
  _ ← io_lift (bound (f_size f));
  crc ← prefix_crc f (f_size f);
  mret (Stamp (generation_of uuid) (f_size f) crc).

(** [fgetxattr] and what [read_state] makes of its errors. *)
Definition ENODATA : Z := 61.
Definition get_state (attribute : option bytes) : io HybridPair (option LogState) :=
  o ← h_step;
  match o with
  | Done => io_lift (read_state attribute)
  | Failed _ e =>
      if (e =? ENODATA) || (e =? EOPNOTSUPP) then mret None
      else if e =? ERANGE then io_lift format_error else io_fail (Errno e)
  end.

(** The stamp the anchor commits a generation to. *)
Definition selected (anchor : LogState) (generation : bytes) : option LogStamp :=
  if bool_decide (generation = ls_generation (st_first anchor)) then Some (st_first anchor)
  else if (st_kind anchor =? kReplacing) && bool_decide (generation = ls_generation (st_second anchor))
  then Some (st_second anchor) else None.

Definition inspect_states (f : file) (anchor progress : option LogState) : io HybridPair (option LogStamp) :=
  match anchor, progress with
  | None, None => mret None
  | None, Some _ => io_lift format_error
  | Some anchor, _ =>
      let size := f_size f in
      _ ← io_lift (bound size);
      match progress with
      | None =>
          ok ← (if st_kind anchor =? kInstalling then matches f size (st_first anchor) else mret false);
          if (ok : bool) then mret (Some (st_first anchor)) else io_lift format_error
      | Some progress =>
          if negb (st_kind progress =? kStable) then io_lift format_error else
          let latest := st_first progress in
          match selected anchor (ls_generation latest) with
          | None => io_lift format_error
          | Some committed =>
              ok ← matches f size committed;
              if negb (ok : bool) then io_lift format_error else
              newer ← (if ls_bytes committed <=? ls_bytes latest then matches f size latest else mret false);
              mret (Some (if (newer : bool) then latest else committed))
          end
      end
  end.
Definition inspect_log_state : io HybridPair (option LogStamp) := fun w =>
  (anchor ← get_state (at_value (hp_anchor w));
   progress ← get_state (at_value (ino_attr (hp_index w)));
   inspect_states (ino_file (hp_index w)) anchor progress) w.

Definition stable (s : LogStamp) : LogState := MkState kStable s empty_stamp.
Definition publish_log_progress (s : LogStamp) : io HybridPair unit :=
  h_do (fun w => set_inode w (mark_inode (stable s) (hp_index w))).
Definition publish_log_commit (s : LogStamp) : io HybridPair unit :=
  _ ← write_anchor (stable s);
  sync_data.

Definition activate_log_state (recovered : option LogStamp) (uuid : bytes) : io HybridPair LogStamp := fun w =>
  let f := ino_file (hp_index w) in
  (stamp ← (match recovered with Some s => mret s | None => new_log_stamp f uuid end);
   ok ← matches f (f_size f) stamp;
   if negb (ok : bool) then io_lift format_error else
   _ ← (if f_size f =? ls_bytes stamp then mret tt
        else h_do (fun w => set_inode w (ino_truncate (ls_bytes stamp) (hp_index w))));
   _ ← sync_data; _ ← sync_index; _ ← sync_directory;
   _ ← (match recovered with
        | Some _ => mret tt
        | None => _ ← write_anchor (MkState kInstalling stamp empty_stamp); sync_data
        end);
   _ ← publish_log_progress stamp;
   _ ← sync_index;
   _ ← publish_log_commit stamp;
   mret stamp) w.

(** ** [log_operation_sync]: inspection, activation, progress, commit *)

Definition log_inspect : io HybridPair unit :=
  s ← inspect_log_state; io_run (fun w => (Ok tt, set_stamp w s)).
Definition log_activate (uuid : bytes) : io HybridPair unit := fun w =>
  (s ← activate_log_state (hp_stamp w) uuid; io_run (fun w => (Ok tt, set_stamp w (Some s)))) w.
Definition log_progress (record : bytes) : io HybridPair unit := fun w =>
  match hp_stamp w with
  | None => (format_error, w)
  | Some s =>
      (if kMaxLogRecords <=? (ls_bytes s - kSpace) / 16 then io_fail (Errno ENOSPC) else
       let next := Stamp (ls_generation s) (ls_bytes s + zlen record) (crc32c_extend false 0 record (ls_crc s)) in
       _ ← publish_log_progress next;
       io_run (fun w => (Ok tt, set_stamp w (Some next)))) w
  end.
Definition log_commit : io HybridPair unit := fun w =>
  match hp_stamp w with None => (format_error, w) | Some s => publish_log_commit s w end.

(** The index part of a mapping change ([Writer::modify]): the record at the
    end of the log, then its progress mark. *)
Definition append_record (record : bytes) (index_end : Z) : io HybridPair unit :=
  _ ← h_write index_end record;
  log_progress record.

(** [Writer::flush_locked]; the first sync is of the payload alone. *)
Definition flush_log : io HybridPair unit :=
  _ ← h_call; _ ← sync_index; _ ← sync_directory; log_commit.

(** ** [replace_index_sync] *)

(** The new file has no name until it is renamed, so it is a value here. *)
Definition next_do (f : Inode -> Inode) (i : Inode) : io HybridPair Inode := _ ← h_call; mret (f i).

(** The mappings go out 4096 records at a time. *)
Fixpoint write_chunks (fuel : nat) (next : Inode) (offset : Z) (mappings : list segment_mapping)
  : io HybridPair (Inode * Z) :=
  match mappings with
  | [] => mret (next, offset)
  | _ :: _ =>
      match fuel with
      | O => io_fail Fuel
      | S fuel =>
          let chunk := encode_log (take 4096 mappings) in
          next ← next_do (ino_write offset chunk) next;
          write_chunks fuel next (offset + zlen chunk) (drop 4096 mappings)
      end
  end.

(** The mappings as a log of their own. *)
Fixpoint verify_mappings (r : Replay) (prior_end : Z) (mappings : list segment_mapping) : res Replay :=
  match mappings with
  | [] => Ok r
  | m :: mappings =>
      if (s_offset m <? prior_end) || (kMaxOffset <? s_offset m) || (s_length m =? 0) || (kMaxLength <? s_length m) ||
         (kNoPhysicalOffset <=? s_moffset m) || negb (s_tag m =? 0)
      then Err (Errno EINVAL)
      else r ← hybrid_append r (encode_record m); verify_mappings r (seg_end m) mappings
  end.
Definition verify_replacement (header : HeaderTrailer) (data_bytes : Z) (mappings : list segment_mapping) : res unit :=
  r ← hybrid_replay_new (ht_virtual_size header) data_bytes;
  r ← verify_mappings r 0 mappings;
  l ← hybrid_finish r;
  if existsb (fun m => s_moffset m =? kNoPhysicalOffset) l then Err (Errno EINVAL) else Ok tt.

Definition hybrid_index_header (ht : HeaderTrailer) : HeaderTrailer :=
  HT (ht_size ht) (Z.lor kHybridFlag 1) kSpace 0 (ht_virtual_size ht) (ht_uuid ht) (ht_parent_uuid ht)
    (ht_reserved ht) (ht_version ht) (ht_sub_version ht) (ht_user_tag ht).

(** [write_header_sync] on the new file. *)
Definition write_header (header : HeaderTrailer) (i : Inode) : io HybridPair Inode :=
  raw ← io_lift (serialize header);
  i ← next_do (ino_write 0 raw) i;
  next_do ino_sync i.

Definition prepare_log_replacement (next : Inode) (old_stamp next_stamp : LogStamp) : io HybridPair Inode :=
  _ ← sync_data;
  _ ← sync_index;
  next ← next_do ino_sync next;
  _ ← write_anchor (MkState kReplacing old_stamp next_stamp);
  _ ← sync_data;
  mret next.

(** The new log in its file, not named yet. *)
Definition build_index (mappings : list segment_mapping) (uuid : bytes) : io HybridPair (Inode * LogStamp * Z) := fun w =>
  (_ ← h_call;                                    (* fdatasync of the payload *)
   _ ← h_call;                                    (* create *)
   _ ← h_call;                                    (* lock *)
   next ← write_header (hybrid_index_header (hp_header w)) ino_new;
   written ← write_chunks (length mappings) next kSpace mappings;
   stamp ← new_log_stamp (ino_file written.1) uuid;
   next ← next_do (mark_inode (stable stamp)) written.1;
   mret (next, stamp, written.2)) w.

Definition replace_index_sync (mappings : list segment_mapping) (uuid : bytes) : io HybridPair unit := fun w =>
  if negb (hp_writable w) then (Err (Errno EROFS), w) else
  if kMaxRoIndexSize <? zlen mappings then (Err (Errno EFBIG), w) else
  (_ ← h_call;                                    (* stat of the pair and of the name *)
   _ ← io_lift (verify_replacement (hp_header w) (f_size (hp_data w)) mappings);
   built ← build_index mappings uuid;
   let '(next, next_stamp, offset) := (built : Inode * LogStamp * Z) in
   _ ← sync_directory;
   match hp_stamp w with
   | None => io_lift format_error
   | Some old_stamp =>
       next ← prepare_log_replacement next old_stamp next_stamp;
       _ ← h_do (adopt_index next next_stamp offset);          (* rename *)
       _ ← sync_directory;
       log_commit
   end) w.

(** [open_existing] once the descriptors are open: the headers, the log state,
    the replay of the trusted log, and for a writer its activation. *)
Fixpoint hybrid_replay_loop (fuel : nat) (f : file) (bytes offset : Z) (r : Replay) : io HybridPair Replay :=
  if offset <? bytes then
    match fuel with
    | O => io_fail Fuel
    | S fuel =>
        let count := Z.min 65536 (bytes - offset) in
        chunk ← h_read f offset count;
        r ← io_lift (hybrid_append r chunk);
        hybrid_replay_loop fuel f bytes (offset + count) r
    end
  else mret r.
Definition set_header (w : HybridPair) (header : HeaderTrailer) : HybridPair :=
  HP (hp_script w) (hp_writable w) header (hp_data w) (hp_anchor w) (hp_index w) (hp_former w) (hp_stamp w)
    (hp_index_bytes w) (hp_generation w).
Definition read_headers : io HybridPair unit := fun w =>
  (data_header ← h_read (hp_data w) 0 kSpace;
   index_header ← h_read (ino_file (hp_index w)) 0 kSpace;
   header ← io_lift (parse data_header);
   index ← io_lift (parse index_header);
   _ ← io_lift (hybrid_validate_pair header index (f_size (hp_data w)) (hp_index_bytes w));
   io_run (fun w => (Ok tt, set_header w header))) w.
Definition replay_log : io HybridPair (list segment_mapping) := fun w =>
  (r ← io_lift (hybrid_replay_new (ht_virtual_size (hp_header w)) (f_size (hp_data w)));
   r ← hybrid_replay_loop (Z.to_nat (hp_index_bytes w)) (ino_file (hp_index w)) (hp_index_bytes w) kSpace r;
   io_lift (hybrid_finish r)) w.
Definition load_pair (uuid : bytes) : io HybridPair (list segment_mapping) := fun w =>
  (_ ← log_inspect;
   mappings ← replay_log;
   _ ← (if hp_writable w then log_activate uuid else mret tt);
   mret mappings) w.
Definition hybrid_open (uuid : bytes) : io HybridPair (list segment_mapping) :=
  _ ← read_headers; load_pair uuid.
