(* ===== verification/HybridCrash.v ===== *)
(** * A Hybrid log survives crashes

    The operations of [HybridLog] under every pattern of failing system calls
    and crashes: appends, flushes and replacements of the log keep, at every
    point where the machine may stop, only metadata that inspection accepts, and
    what it recovers extends what was last flushed. *)
From stdpp Require Import list.
From S2P Require Import Prelude Bytes Crc32c LsmtFormat Source File Segments Merge Trim Lsmt Journal FilePair Writer HybridFormat HybridLog.

Open Scope Z_scope.

(** ** Operations that only read *)

Definition same (w w' : HybridPair) : Prop := exists s, w' = set_hscript w s.
Lemma same_refl w : same w w.
Proof. exists (hp_script w). by destruct w. Qed.
Lemma same_trans w1 w2 w3 : same w1 w2 -> same w2 w3 -> same w1 w3.
Proof. intros [s ->] [s' ->]. by exists s'. Qed.

(** From any state [m] gives a value of [P], up to faults, and changes nothing. *)
Definition computes {A} (m : io HybridPair A) (P : A -> Prop) : Prop :=
  forall w, attempt hp_script m w (fun a w' => same w w' /\ P a) (same w).

Lemma computes_ret {A} (a : A) (P : A -> Prop) : P a -> computes (mret a) P.
Proof. intros H w. apply attempt_ret. split; [apply same_refl|done]. Qed.
Lemma computes_lift {A} (r : res A) a (P : A -> Prop) : r = Ok a -> P a -> computes (io_lift r) P.
Proof. intros -> H w. apply attempt_ret. split; [apply same_refl|done]. Qed.
Lemma computes_bind {A B} (m : io HybridPair A) (k : A -> io HybridPair B) P Q :
  computes m P -> (forall a, P a -> computes (k a) Q) -> computes (m ≫= k) Q.
Proof.
  intros Hm Hk w. eapply attempt_bind; [apply Hm|]. intros a w' [Hs HP].
  eapply attempt_mono; [by apply Hk| |].
  - intros b w'' [Hs' HQ]. split; [by eapply same_trans|done].
  - intros w'' Hs'. by eapply same_trans.
Qed.
Lemma computes_mono {A} (m : io HybridPair A) (P Q : A -> Prop) :
  computes m P -> (forall a, P a -> Q a) -> computes m Q.
Proof. intros Hm H w. eapply attempt_mono; [apply Hm| |done]. intros a w' [? ?]. auto. Qed.

Lemma step_computes : computes h_step (fun _ => True).
Proof.
  intros w. unfold attempt, h_step. pose proof (next_outcome_spec (hp_script w)) as Hn.
  destruct (next_outcome (hp_script w)) as [o s]. split; [apply Hn|]. split; [by exists s|done].
Qed.
Lemma call_computes : computes h_call (fun _ => True).
Proof.
  intros w. unfold attempt, h_call, mbind, io_bind, h_step. pose proof (next_outcome_spec (hp_script w)) as Hn.
  destruct (next_outcome (hp_script w)) as [[|k e] s]; cbn; destruct Hn as [Hsub Hf].
  - split; [done|]. split; [by exists s|done].
  - split; [by eapply Hf|]. by exists s.
Qed.

Lemma read_computes f off n :
  0 <= off -> 0 <= n -> off + n <= f_size f -> computes (h_read f off n) (fun bs => bs = slice (f_byte f) off n).
Proof.
  intros H1 H2 H3. eapply computes_bind; [apply call_computes|]. intros _ _. cbv zeta.
  rewrite file_read_full by done. rewrite zlen_slice, Z.max_r, Z.eqb_refl by lia. by apply computes_ret.
Qed.

Lemma extend_sw data crc : crc32c_extend false 0 data crc = crc32c_sw data crc.
Proof.
  unfold crc32c_extend. destruct (Z.eqb_spec (zlen data) 0) as [H|]; [|done].
  destruct data; [done|]. autorewrite with zlen in H. pose proof (zlen_nonneg data). lia.
Qed.

Lemma crc_loop_computes fuel f n off crc :
  0 <= off -> n <= f_size f -> n - off <= Z.of_nat fuel ->
  computes (crc_loop fuel f n off crc) (fun c => c = crc32c_sw (slice (f_byte f) off (n - off)) crc).
Proof.
  revert off crc. induction fuel as [|fuel IH]; intros off crc H1 H2 H3; cbn [crc_loop].
  all: destruct (Z.ltb_spec off n); [try lia|].
  1,3: apply computes_ret; by rewrite slice_nil by lia.
  cbv zeta. set (count := Z.min 65536 (n - off)).
  eapply computes_bind; [apply read_computes; lia|]. intros bs ->. cbn beta.
  eapply computes_mono; [apply IH; lia|]. intros c ->. cbn beta. rewrite extend_sw, <- crc32c_sw_app.
  f_equal. rewrite <- slice_app by lia. f_equal. lia.
Qed.

(** The log of a file up to a length, and the stamps true of it. *)
Definition log_upto (f : file) (n : Z) : bytes := slice (f_byte f) kSpace (n - kSpace).
Definition crc_upto (f : file) (n : Z) : Z := crc32c_sw (log_upto f n) 0.
Definition stamp_at (f : file) (s : LogStamp) : Prop :=
  stamp_ok s /\ ls_bytes s <= f_size f /\ ls_crc s = crc_upto f (ls_bytes s).

Lemma bound_ok_range n : bound_ok n = true -> kSpace <= n /\ (n - kSpace) mod 16 = 0 /\ (n - kSpace) / 16 <= kMaxLogRecords.
Proof. unfold bound_ok. intros H. apply negb_true_iff in H. bool_hyps. lia. Qed.

Lemma prefix_crc_computes f n :
  bound_ok n = true -> n <= f_size f -> computes (prefix_crc f n) (fun c => c = crc_upto f n).
Proof.
  intros Hb Hn. pose proof (bound_ok_range n Hb) as (H1 & _ & _). unfold kSpace in H1.
  eapply computes_bind; [apply (computes_lift (bound n) tt (fun _ => True)); [by unfold bound; rewrite Hb|done]|].
  intros _ _. apply crc_loop_computes; [done|done|]. unfold kSpace. lia.
Qed.

Lemma matches_computes f s :
  bound_ok (ls_bytes s) = true ->
  computes (matches f (f_size f) s)
    (fun b => b = (ls_bytes s <=? f_size f) && (crc_upto f (ls_bytes s) =? ls_crc s)).
Proof.
  intros Hb. unfold matches. destruct (Z.leb_spec (ls_bytes s) (f_size f)); [|by apply computes_ret].
  eapply computes_bind; [by apply prefix_crc_computes|]. intros c ->. by apply computes_ret.
Qed.
Lemma stamp_matches f s : stamp_at f s -> (ls_bytes s <=? f_size f) && (crc_upto f (ls_bytes s) =? ls_crc s) = true.
Proof. intros (_ & H1 & H2). rewrite H2, Z.eqb_refl, andb_true_r. by apply Z.leb_le. Qed.

(** ** What a crash can find *)

(** A stamp true of the bytes of [i] that a crash cannot take back. *)
Definition kept (i : Inode) (s : LogStamp) : Prop :=
  stamp_ok s /\ ls_bytes s <= ino_durable i /\ ls_crc s = crc_upto (ino_file i) (ls_bytes s).

(** The anchor commits generation [g] of [i] to a kept log of [Q]. *)
Definition anchored (Q : bytes -> Prop) (i : Inode) (g : bytes) (a : option bytes) : Prop :=
  exists A c, a = Some (encode A) /\ state_ok A /\ selected A g = Some c /\ kept i c /\
    Q (log_upto (ino_file i) (ls_bytes c)).
Definition marked (g : bytes) (p : option bytes) : Prop :=
  exists t, p = Some (encode (stable t)) /\ stamp_ok t /\ ls_generation t = g.

(** The pairs of anchor and mark that inspection accepts. *)
Definition covered (Q : bytes -> Prop) (i : Inode) (a p : option bytes) : Prop :=
  (a = None /\ p = None /\ ino_reach i = ino_durable i /\ Q (log_upto (ino_file i) (ino_durable i))) \/
  (p = None /\ exists A, a = Some (encode A) /\ state_ok A /\ st_kind A = kInstalling /\ kept i (st_first A) /\
     Q (log_upto (ino_file i) (ls_bytes (st_first A)))) \/
  (exists g, anchored Q i g a /\ marked g p).

Definition ino_ok (i : Inode) : Prop := kSpace <= ino_durable i <= f_size (ino_file i) /\ f_size (ino_file i) <= ino_reach i.

(** Whatever the crash leaves, inspection accepts it. *)
Definition safe (Q : bytes -> Prop) (w : HybridPair) : Prop :=
  forall i, i ∈ hp_index w :: hp_former w -> ino_ok i /\
    forall a p, a ∈ at_values (hp_anchor w) -> p ∈ at_values (ino_attr i) -> covered Q i a p.

(** The attribute calls fail, if at all, with errors of their own. *)
Definition plain (w : HybridPair) : Prop :=
  forall n e, Failed n e ∈ hp_script w -> e <> ENODATA /\ e <> EOPNOTSUPP /\ e <> ERANGE.

(** A crash: one of the values of each attribute, one of the files the name may
    lead to, with its durable bytes and a length the file may have, whole
    records of it. *)
Definition crashed (w w' : HybridPair) : Prop :=
  exists i a p f,
    i ∈ hp_index w :: hp_former w /\ a ∈ at_values (hp_anchor w) /\ p ∈ at_values (ino_attr i) /\
    (forall x, 0 <= x < ino_durable i -> f_byte f x = f_byte (ino_file i) x) /\
    ino_durable i <= f_size f <= ino_reach i /\ bound_ok (f_size f) = true /\
    hp_anchor w' = Att a [] /\ hp_index w' = Ino f (f_size f) (f_size f) (Att p []) /\ hp_former w' = [] /\
    hp_index_bytes w' = f_size f.

(** A pair nobody has open. *)
Definition at_rest (w : HybridPair) : Prop :=
  at_older (hp_anchor w) = [] /\ at_older (ino_attr (hp_index w)) = [] /\ hp_former w = [] /\
  ino_durable (hp_index w) = f_size (ino_file (hp_index w)) /\ ino_reach (hp_index w) = f_size (ino_file (hp_index w)) /\
  bound_ok (f_size (ino_file (hp_index w))) = true.

Lemma log_upto_agree f g n d :
  (forall x, 0 <= x < d -> f_byte g x = f_byte f x) -> n <= d -> log_upto g n = log_upto f n.
Proof.
  intros H Hn. unfold log_upto, kSpace. apply slice_ext. intros x Hx. apply H. lia.
Qed.
Lemma kept_agree i i' s :
  (forall x, 0 <= x < ino_durable i -> f_byte (ino_file i') x = f_byte (ino_file i) x) ->
  ls_bytes s <= ino_durable i' -> kept i s -> kept i' s.
Proof.
  intros H Hd (H1 & H2 & H3). split; [done|]. split; [done|]. rewrite H3. unfold crc_upto.
  by rewrite (log_upto_agree (ino_file i) (ino_file i') (ls_bytes s) (ino_durable i)).
Qed.
Lemma anchored_agree Q i i' g a :
  (forall x, 0 <= x < ino_durable i -> f_byte (ino_file i') x = f_byte (ino_file i) x) ->
  ino_durable i <= ino_durable i' -> anchored Q i g a -> anchored Q i' g a.
Proof.
  intros H Hd (A & c & -> & H1 & H2 & H3 & H4). pose proof H3 as (_ & H5 & _).
  exists A, c. split; [done|]. split; [done|]. split; [done|]. split; [apply (kept_agree i); done || lia|].
  by rewrite (log_upto_agree (ino_file i) (ino_file i') (ls_bytes c) (ino_durable i)).
Qed.

Lemma crash_safe Q w w' : safe Q w -> crashed w w' -> safe Q w' /\ at_rest w'.
Proof.
  intros Hs (i & a & p & f & Hi & Ha & Hp & Hf & Hsz & Hb & Ea & Ei & Eo & Eb).
  destruct (Hs i Hi) as [Hio Hc]. specialize (Hc a p Ha Hp).
  set (i' := Ino f (f_size f) (f_size f) (Att p [])) in *.
  assert (forall x, 0 <= x < ino_durable i -> f_byte (ino_file i') x = f_byte (ino_file i) x) as Hag by exact Hf.
  split; [|unfold at_rest; rewrite Ea, Ei, Eo; by split_and!].
  intros j Hj. rewrite Ei, Eo in Hj. apply list_elem_of_singleton in Hj as ->. split.
  { split; [|done]. cbn. destruct Hio. lia. }
  intros a' p'. rewrite Ea. cbn [at_values at_value at_older ino_attr i'].
  intros ->%list_elem_of_singleton ->%list_elem_of_singleton.
  destruct Hc as [(-> & -> & Hr & HQ)|[(-> & A & -> & H1 & H2 & H3 & H4)|(g & H1 & H2)]].
  - left. split; [done|]. split; [done|]. split; [done|]. cbn [ino_durable i'].
    replace (f_size f) with (ino_durable i) by lia. by rewrite (log_upto_agree (ino_file i) (ino_file i') _ (ino_durable i)).
  - right. left. split; [done|]. exists A. pose proof H3 as (_ & H5 & _).
    split; [done|]. split; [done|]. split; [done|]. split; [apply (kept_agree i); [done|cbn; lia|done]|].
    by rewrite (log_upto_agree (ino_file i) (ino_file i') _ (ino_durable i)).
  - right. right. exists g. split; [|done]. apply (anchored_agree Q i); [done|cbn; lia|done].
Qed.

(** ** Inspection after a crash *)

Lemma attempt_sub {A} (m : io HybridPair A) w (Q : A -> HybridPair -> Prop) F :
  attempt hp_script m w Q F -> attempt hp_script m w (fun a w' => hp_script w' ⊆ hp_script w /\ Q a w') F.
Proof. unfold attempt. destruct (m w) as [[a|[e| |]] w']; tauto. Qed.
Lemma attempt_computes {A B} (m : io HybridPair A) (k : A -> io HybridPair B) w P (Q : B -> HybridPair -> Prop) F :
  computes m P ->
  (forall a s, P a -> attempt hp_script (k a) (set_hscript w s) Q F) -> (forall s, F (set_hscript w s)) ->
  attempt hp_script (m ≫= k) w Q F.
Proof.
  intros Hm Hk HF. eapply attempt_bind.
  - eapply attempt_mono; [apply Hm| |]; [intros a w' H; exact H|]. intros w' [s ->]. apply HF.
  - intros a w' [[s ->] HP]. by apply Hk.
Qed.

Lemma get_state_attempt v st w :
  plain w -> read_state v = Ok st ->
  attempt hp_script (get_state v) w (fun o w' => plain w' /\ same w w' /\ o = st) (same w).
Proof.
  intros Hp Hr. unfold attempt, get_state, mbind, io_bind, h_step.
  pose proof (next_outcome_spec (hp_script w)) as Hn.
  destruct (next_outcome (hp_script w)) as [[|k e] s] eqn:Ho; cbn; destruct Hn as [Hsub Hf].
  - unfold io_lift. rewrite Hr. split; [done|]. split; [|by split; [exists s|]].
    intros n e He. apply (Hp n e), Hsub, He.
  - destruct (Hf k e eq_refl) as [n Hin]. destruct (Hp n e Hin) as (H1 & H2 & H3).
    rewrite (proj2 (Z.eqb_neq _ _)), (proj2 (Z.eqb_neq _ _)), (proj2 (Z.eqb_neq _ _)) by done. cbn.
    split; [by exists n|]. by exists s.
Qed.

(** What inspection finds: no metadata, or a stamp true of the file that goes
    at least as far as the committed one. *)
Definition resumes (Q : bytes -> Prop) (w : HybridPair) (s : LogStamp) : Prop :=
  let i := hp_index w in
  stamp_at (ino_file i) s /\
  exists A c, at_value (hp_anchor w) = Some (encode A) /\ state_ok A /\ selected A (ls_generation s) = Some c /\
    kept i c /\ Q (log_upto (ino_file i) (ls_bytes c)) /\ ls_bytes c <= ls_bytes s /\
    (marked (ls_generation s) (at_value (ino_attr i)) \/
     at_value (ino_attr i) = None /\ st_kind A = kInstalling /\ st_first A = s).
Definition found (Q : bytes -> Prop) (w : HybridPair) (r : option LogStamp) : Prop :=
  match r with
  | None => at_value (hp_anchor w) = None /\ at_value (ino_attr (hp_index w)) = None /\
            Q (log_upto (ino_file (hp_index w)) (f_size (ino_file (hp_index w))))
  | Some s => resumes Q w s
  end.

Lemma kept_at i s : ino_durable i <= f_size (ino_file i) -> kept i s -> stamp_at (ino_file i) s.
Proof. intros H (H1 & H2 & H3). split; [done|]. split; [lia|done]. Qed.
Lemma selected_generation A g c : selected A g = Some c -> ls_generation c = g.
Proof.
  unfold selected. case_bool_decide as H; [by intros [= <-]|]. destruct (_ && _) eqn:E; [|done].
  apply andb_true_iff in E as [_ E]. apply bool_decide_eq_true in E. by intros [= <-].
Qed.
Lemma stable_ok s : stamp_ok s -> state_ok (stable s).
Proof. intros H. split; [by left|]. by split. Qed.

Lemma stamp_ok_bound s : stamp_ok s -> bound_ok (ls_bytes s) = true.
Proof. by intros (_ & _ & _ & H & _). Qed.

(** Whether a stamp is true of the file, as [matches] tests it. *)
Definition true_of (f : file) (s : LogStamp) : bool := (ls_bytes s <=? f_size f) && (crc_upto f (ls_bytes s) =? ls_crc s).

(** With a committed stamp and a mark: the mark's stamp if it goes as far and
    is true, else the committed one. *)
Lemma inspect_committed f A c t :
  bound_ok (f_size f) = true -> stamp_at f c -> stamp_ok t -> selected A (ls_generation t) = Some c ->
  computes (inspect_states f (Some A) (Some (stable t)))
    (fun r => r = Some (if (ls_bytes c <=? ls_bytes t) && true_of f t then t else c)).
Proof.
  intros Hb Hc Ht Hsel. unfold inspect_states. cbv zeta.
  eapply computes_bind; [apply (computes_lift _ tt (fun _ => True)); [by unfold bound; rewrite Hb|done]|]. intros _ _.
  cbn [st_kind stable st_first]. change (negb (kStable =? kStable)) with false. cbv iota. rewrite Hsel.
  eapply computes_bind; [apply matches_computes, stamp_ok_bound, Hc|]. intros b ->.
  rewrite stamp_matches by done. cbn [negb].
  eapply (computes_bind _ _ (fun b => b = (ls_bytes c <=? ls_bytes t) && true_of f t)); [|intros b ->; by apply computes_ret].
  destruct (ls_bytes c <=? ls_bytes t); [apply matches_computes, stamp_ok_bound, Ht|by apply computes_ret].
Qed.

Lemma true_of_at f t : stamp_ok t -> true_of f t = true -> stamp_at f t.
Proof. intros Ht [H1%Z.leb_le H2%Z.eqb_eq]%andb_true_iff. by split_and!. Qed.

Lemma inspect_states_ok Q w :
  at_rest w -> covered Q (hp_index w) (at_value (hp_anchor w)) (at_value (ino_attr (hp_index w))) ->
  exists A P, read_state (at_value (hp_anchor w)) = Ok A /\ read_state (at_value (ino_attr (hp_index w))) = Ok P /\
    computes (inspect_states (ino_file (hp_index w)) A P) (found Q w).
Proof.
  intros Hrest Hc. pose proof Hrest as (_ & _ & _ & Hd & _ & Hb).
  assert (forall B (k : unit -> io HybridPair B) R, computes (k tt) R ->
    computes (io_lift (bound (f_size (ino_file (hp_index w)))) ≫= k) R) as Hbound.
  { intros B k R Hk. unfold bound. rewrite Hb. eapply computes_bind; [by apply (computes_lift (Ok tt) tt (fun u => u = tt))|].
    by intros u ->. }
  destruct Hc as [(Ea & Ep & _ & HQ)|[(Ep & A & Ea & HA & Hk & Hkept & HQ)|(g & (A & c & Ea & HA & Hsel & Hk & HQ) & t & Ep & Ht & Hg)]].
  - exists None, None. rewrite Ea, Ep. split; [done|]. split; [done|]. apply computes_ret. split_and!; try done. by rewrite <- Hd.
  - exists (Some A), None. rewrite Ea, Ep, encode_read by done. split; [done|]. split; [done|]. apply Hbound.
    rewrite Hk. change (kInstalling =? kInstalling) with true. cbv iota.
    assert (stamp_at (ino_file (hp_index w)) (st_first A)) as Hat by (apply kept_at; [by rewrite Hd|done]).
    eapply computes_bind; [apply matches_computes, stamp_ok_bound, Hat|]. intros b ->. rewrite stamp_matches by done.
    apply computes_ret. split; [done|]. exists A, (st_first A). split_and!; try done.
    + unfold selected. by rewrite bool_decide_true.
    + by right.
  - exists (Some A), (Some (stable t)). rewrite Ea, Ep, !encode_read by (done || by apply stable_ok). split; [done|]. split; [done|].
    assert (stamp_at (ino_file (hp_index w)) c) as Hc by (apply kept_at; [by rewrite Hd|done]).
    eapply computes_mono; [apply inspect_committed; [done..|by rewrite Hg]|]. intros r ->. destruct (_ && _) eqn:E.
    + apply andb_true_iff in E as [E1%Z.leb_le E2]. split; [by apply true_of_at|]. exists A, c. rewrite Hg.
      split_and!; try done. left. exists t. by split_and!.
    + split; [done|]. exists A, c. rewrite (selected_generation _ _ _ Hsel). split_and!; try done.
      left. exists t. by split_and!.
Qed.

Lemma inspect_run w A P R :
  plain w -> read_state (at_value (hp_anchor w)) = Ok A -> read_state (at_value (ino_attr (hp_index w))) = Ok P ->
  computes (inspect_states (ino_file (hp_index w)) A P) R ->
  attempt hp_script inspect_log_state w (fun r w' => same w w' /\ R r) (same w).
Proof.
  intros Hpl HA HP Hrun. unfold inspect_log_state.
  eapply attempt_bind; [by apply get_state_attempt|]. intros A' w1 (Hp1 & [s1 ->] & ->).
  eapply attempt_bind; [eapply attempt_mono; [by apply get_state_attempt|intros ? ? H; exact H|]|].
  - intros w2 [s ->]. by exists s.
  - intros P' w2 (_ & [s2 ->] & ->). cbn beta.
    eapply attempt_mono; [apply Hrun| |].
    + intros r w' [[s ->] H]. split; [by exists s|done].
    + intros w' [s ->]. by exists s.
Qed.

Lemma inspect_ok Q w :
  safe Q w -> at_rest w -> plain w ->
  attempt hp_script inspect_log_state w (fun r w' => same w w' /\ found Q w r) (same w).
Proof.
  intros Hs Hrest Hpl. destruct (Hs (hp_index w) ltac:(by left)) as [_ Hc].
  destruct (inspect_states_ok Q w Hrest ltac:(apply Hc; by left)) as (A & P & HA & HP & Hrun).
  by apply (inspect_run w A P).
Qed.

(** ** An open log *)

(** The anchors all commit generation [g] of [i], which carries its marks. *)
Definition member (Q : bytes -> Prop) (anchors : list (option bytes)) (i : Inode) (g : bytes) : Prop :=
  ino_ok i /\ Forall (anchored Q i g) anchors /\ Forall (marked g) (at_values (ino_attr i)).
Definition managed (Q : bytes -> Prop) (w : HybridPair) (g : bytes) : Prop :=
  member Q (at_values (hp_anchor w)) (hp_index w) g /\
  Forall (fun i => exists g, member Q (at_values (hp_anchor w)) i g) (hp_former w).
Definition opened (Q : bytes -> Prop) (w : HybridPair) (s : LogStamp) : Prop :=
  f_size (ino_file (hp_index w)) = ls_bytes s /\ stamp_at (ino_file (hp_index w)) s /\ managed Q w (ls_generation s) /\
  at_value (ino_attr (hp_index w)) = Some (encode (stable s)).
Definition live (Q : bytes -> Prop) (w : HybridPair) (s : LogStamp) : Prop :=
  hp_stamp w = Some s /\ hp_index_bytes w = ls_bytes s /\ f_size (ino_file (hp_index w)) = ls_bytes s /\
  stamp_at (ino_file (hp_index w)) s /\ managed Q w (ls_generation s) /\
  at_value (ino_attr (hp_index w)) = Some (encode (stable s)).
Definition live_log (w : HybridPair) : bytes := log_upto (ino_file (hp_index w)) (hp_index_bytes w).

Lemma managed_safe Q w g : managed Q w g -> safe Q w.
Proof.
  intros [Hi Hf] i Hin.
  assert (exists g, member Q (at_values (hp_anchor w)) i g) as (g' & H1 & H2 & H3).
  { apply elem_of_cons in Hin as [->|Hin]; [eauto|]. rewrite Forall_forall in Hf. auto. }
  split; [done|]. intros a p Ha Hp. right. right. exists g'. rewrite Forall_forall in H2, H3. auto.
Qed.

Lemma anchored_mono (Q Q' : bytes -> Prop) i g a : (forall l, Q l -> Q' l) -> anchored Q i g a -> anchored Q' i g a.
Proof. intros H (A & c & ? & ? & ? & ? & ?). exists A, c. by split_and!; auto. Qed.
Lemma member_mono (Q Q' : bytes -> Prop) an i g : (forall l, Q l -> Q' l) -> member Q an i g -> member Q' an i g.
Proof.
  intros H (H1 & H2 & H3). split_and!; [done| |done]. eapply Forall_impl; [exact H2|]. intros a. by apply anchored_mono.
Qed.
Lemma managed_mono (Q Q' : bytes -> Prop) w g : (forall l, Q l -> Q' l) -> managed Q w g -> managed Q' w g.
Proof.
  intros H [H1 H2]. split; [by eapply member_mono|]. eapply Forall_impl; [exact H2|]. intros i [g' ?]. exists g'.
  by eapply member_mono.
Qed.
Lemma live_mono (Q Q' : bytes -> Prop) w s : (forall l, Q l -> Q' l) -> live Q w s -> live Q' w s.
Proof. intros H (H1 & H2 & H3 & H4 & H5 & H6). split_and!; try done. by eapply managed_mono. Qed.

Lemma member_sub Q an an' i g : an' ⊆ an -> member Q an i g -> member Q an' i g.
Proof.
  intros Hs (H1 & H2 & H3). split_and!; [done| |done]. rewrite Forall_forall in *. intros a Ha. by apply H2, Hs.
Qed.
Lemma member_cons Q an i g a : anchored Q i g a -> member Q an i g -> member Q (a :: an) i g.
Proof. intros H (H1 & H2 & H3). split_and!; [done|by constructor|done]. Qed.
Lemma member_mark Q an i g t : stamp_ok t -> ls_generation t = g -> member Q an i g -> member Q an (mark_inode (stable t) i) g.
Proof.
  intros Ht Hg (H1 & H2 & H3). split; [done|]. split; [|constructor; [exists t; by split_and!|done]].
  eapply Forall_impl; [exact H2|]. intros a. by apply anchored_agree.
Qed.
Lemma member_sync Q an i g : member Q an i g -> member Q an (ino_sync i) g.
Proof.
  intros ((H0 & H1) & H2 & H3). split; [split; cbn; lia|]. split.
  - eapply Forall_impl; [exact H2|]. intros a. apply anchored_agree; [done|]. cbn. lia.
  - by apply Forall_cons in H3 as [H3 _]; repeat constructor.
Qed.
Lemma member_write Q an i g bs : member Q an i g -> member Q an (ino_write (f_size (ino_file i)) bs i) g.
Proof.
  intros ((H0 & H1) & H2 & H3). pose proof (f_size_write (ino_file i) (f_size (ino_file i)) bs) as Hf.
  unfold ino_write. cbv zeta. split; [split; cbn [ino_durable ino_file ino_reach]; lia|]. split; [|done].
  eapply Forall_impl; [exact H2|]. intros a. apply anchored_agree; cbn [ino_file ino_durable]; [|lia].
  intros x Hx. apply f_byte_write_out. lia.
Qed.

Lemma attempt_do f w (Q : unit -> HybridPair -> Prop) F :
  (forall s, hp_script (f (set_hscript w s)) = s) ->
  (forall s, Q tt (f (set_hscript w s))) -> (forall s, F (set_hscript w s)) -> attempt hp_script (h_do f) w Q F.
Proof.
  intros Hscr HQ HF. unfold h_do. eapply attempt_computes; [apply call_computes| |done].
  intros _ s _. eapply attempt_run; [done|by rewrite Hscr|done].
Qed.

Lemma former_nil w (P : Inode -> Prop) : hp_former w = [] -> Forall P (hp_former w).
Proof. intros ->. constructor. Qed.

(** What the log operations leave alone. *)
Definition frame (w w' : HybridPair) : Prop :=
  hp_data w' = hp_data w /\ hp_header w' = hp_header w /\ hp_writable w' = hp_writable w /\
  hp_generation w' = hp_generation w.

(** ** Flushing *)

Lemma log_upto_size w s : hp_index_bytes w = ls_bytes s -> live_log w = log_upto (ino_file (hp_index w)) (ls_bytes s).
Proof. unfold live_log. by intros ->. Qed.

(** Committing a synced log: before the anchor's sync either anchor may be
    found, after it only the new one. *)
Lemma publish_commit_ok Q w s :
  opened Q w s -> hp_former w = [] -> ino_durable (hp_index w) = ls_bytes s ->
  let log := log_upto (ino_file (hp_index w)) (ls_bytes s) in
  attempt hp_script (publish_log_commit s) w
    (fun _ w' => opened (fun l => l = log) w' s /\ exists t a, w' = set_anchor (set_hscript w t) a)
    (fun w' => opened (fun l => Q l \/ l = log) w' s /\ exists t a, w' = set_anchor (set_hscript w t) a).
Proof.
  intros (H3 & H4 & H5 & H6) Hfo Hd log. unfold publish_log_commit. pose proof H4 as (S1 & S2 & S3).
  assert (forall R : bytes -> Prop, R log -> anchored R (hp_index w) (ls_generation s) (Some (encode (stable s)))) as Hnew.
  { intros R HR. exists (stable s), s. split; [done|]. split; [by apply stable_ok|].
    split; [unfold selected; by rewrite bool_decide_true|]. split; [by split_and!; [|rewrite Hd|]|done]. }
  set (R := fun l => Q l \/ l = log).
  assert (managed R w (ls_generation s)) as HR by (eapply managed_mono; [|exact H5]; by left).
  eapply attempt_bind.
  - apply (attempt_do _ _ (fun _ w' => (exists t, w' = set_anchor (set_hscript w t) (at_set (encode (stable s)) (hp_anchor w))))).
    + done.
    + intros t. by exists t.
    + intros t. split; [by split_and!|]. exists t, (hp_anchor w). by destruct w.
  - intros _ w1 [t ->]. apply attempt_do; [done| |]; intros t'.
    + split; [|by exists t', (at_sync (at_set (encode (stable s)) (hp_anchor w)))]. split_and!; try done. split.
      * destruct H5 as [(M1 & _ & M3) _]. split_and!; try done. repeat constructor. by apply Hnew.
      * by apply former_nil.
    + split; [|by exists t', (at_set (encode (stable s)) (hp_anchor w))]. split_and!; try done. destruct HR as [M1 M2]. split.
      * apply member_cons; [apply Hnew; by right|done].
      * by apply former_nil.
Qed.
Lemma commit_ok Q w s :
  live Q w s -> hp_former w = [] -> ino_durable (hp_index w) = ls_bytes s ->
  attempt hp_script log_commit w
    (fun _ w' => live (fun l => l = live_log w) w' s /\ live_log w' = live_log w /\ frame w w' /\
       hp_index w' = hp_index w /\ hp_former w' = hp_former w)
    (fun w' => live (fun l => Q l \/ l = live_log w) w' s /\ live_log w' = live_log w /\ frame w w').
Proof.
  intros (H1 & H2 & H5) Hfo Hd. unfold log_commit. apply (attempt_as _ _ (publish_log_commit s)); [by rewrite H1|].
  unfold live_log. rewrite H2.
  eapply attempt_mono; [by apply (publish_commit_ok Q)| |].
  - intros u w' ((O1 & O2 & O3 & O4) & t & a & ->). split; [by split_and!|]. cbn. by rewrite H2.
  - intros w' ((O1 & O2 & O3 & O4) & t & a & ->). split; [by split_and!|]. cbn. by rewrite H2.
Qed.

Lemma sync_index_ok Q w s :
  live Q w s ->
  attempt hp_script sync_index w
    (fun _ w' => exists t, w' = set_inode (set_hscript w t) (ino_sync (hp_index w)) /\ live Q w' s /\
                   ino_durable (hp_index w') = ls_bytes s)
    (fun w' => same w w').
Proof.
  intros (H1 & H2 & H3 & H4 & H5 & H6). apply attempt_do; [done| |intros t; by exists t]. intros t.
  exists t. split; [done|]. split; [|done]. split_and!; try done. destruct H5 as [M1 M2]. split; [|done].
  by apply member_sync.
Qed.

Lemma live_same Q w w' s : same w w' -> live Q w s -> live Q w' s.
Proof. intros [t ->] H. exact H. Qed.

(** Nothing of the index file is left for a crash to choose. *)
Definition synced (w : HybridPair) : Prop :=
  hp_former w = [] /\ ino_durable (hp_index w) = f_size (ino_file (hp_index w)) /\
  ino_reach (hp_index w) = f_size (ino_file (hp_index w)).

Lemma flush_log_ok Q w s :
  live Q w s ->
  attempt hp_script flush_log w
    (fun _ w' => live (fun l => l = live_log w) w' s /\ live_log w' = live_log w /\ frame w w' /\ synced w')
    (fun w' => live (fun l => Q l \/ l = live_log w) w' s /\ live_log w' = live_log w /\ frame w w').
Proof.
  intros Hl. set (R := fun l => Q l \/ l = live_log w).
  assert (live R w s) as HR by (eapply live_mono; [|exact Hl]; by left).
  unfold flush_log. eapply attempt_computes; [apply call_computes| |]; [intros _ t _|by intros t].
  eapply attempt_bind.
  { eapply attempt_mono; [apply (sync_index_ok Q (set_hscript w t) s Hl)|intros u w' H; exact H|].
    intros w' [t' ->]. by split. }
  intros _ w1 (t1 & -> & Hl1 & Hd1). eapply attempt_bind.
  { apply (attempt_do _ _ (fun _ w' => exists t', w' = set_former (set_hscript (set_inode w (ino_sync (hp_index w))) t') [])); [done| |].
    - intros t2. by exists t2.
    - intros t2. split; [|done]. eapply live_mono; [|exact Hl1]. by left. }
  intros _ w2 [t2 ->].
  assert (live Q (set_former (set_hscript (set_inode w (ino_sync (hp_index w))) t2) []) s) as Hl2.
  { destruct Hl1 as (? & ? & ? & ? & [? ?] & ?). by split_and!. }
  eapply attempt_mono; [by apply (commit_ok Q _ s Hl2)| |done]. intros u w' (L1 & L2 & L3 & L4 & L5).
  split; [exact L1|]. split; [exact L2|]. split; [exact L3|]. unfold synced. rewrite L4, L5. done.
Qed.

(** ** Appending *)

Definition advance (s : LogStamp) (record : bytes) : LogStamp :=
  Stamp (ls_generation s) (ls_bytes s + zlen record) (crc32c_extend false 0 record (ls_crc s)).

Lemma log_upto_append f n bs :
  kSpace <= n -> log_upto (file_write f n bs) (n + zlen bs) = log_upto f n ++ bs.
Proof.
  intros Hn. pose proof (zlen_nonneg bs). unfold log_upto.
  replace (n + zlen bs - kSpace) with ((n - kSpace) + zlen bs) by lia. rewrite slice_app by lia. f_equal.
  - apply slice_ext. intros i Hi. apply f_byte_write_out. lia.
  - replace (kSpace + (n - kSpace)) with n by lia. rewrite <- (slice_bget bs) at 3.
    rewrite <- (Z.add_0_r n) at 2. rewrite <- (slice_shift _ n). apply slice_ext. intros i Hi.
    rewrite f_byte_write_in by lia. f_equal. lia.
Qed.

Lemma advance_ok s record :
  stamp_ok s -> zlen record = 16 -> (ls_bytes s - kSpace) / 16 < kMaxLogRecords -> stamp_ok (advance s record).
Proof.
  intros (H1 & H2 & H3 & H4 & H5) Hz Hroom. split_and!; try done.
  - destruct (bound_ok_range _ H4) as (B1 & B2 & B3). unfold bound_ok, advance. cbn [ls_bytes]. rewrite Hz.
    replace (ls_bytes s + 16 - kSpace) with (ls_bytes s - kSpace + 1 * 16) by lia.
    rewrite Z.mod_add, Z.div_add, B2 by lia.
    rewrite (proj2 (Z.ltb_ge _ _)), (proj2 (Z.ltb_ge _ _)) by lia. done.
  - cbn. rewrite extend_sw. by apply crc32c_sw_bound.
  - cbn. rewrite extend_sw. by apply crc32c_sw_bound.
Qed.

Lemma advance_at f s record :
  stamp_at f s -> zlen record = 16 -> (ls_bytes s - kSpace) / 16 < kMaxLogRecords ->
  f_size f = ls_bytes s -> stamp_at (file_write f (ls_bytes s) record) (advance s record).
Proof.
  intros (H1 & H2 & H3) Hz Hroom Hf. split; [by apply advance_ok|].
  pose proof (bound_ok_range _ (stamp_ok_bound s H1)) as (B1 & _). cbn [advance ls_bytes ls_crc]. split.
  - rewrite f_size_write_end by lia. lia.
  - unfold crc_upto. rewrite log_upto_append by done. by rewrite crc32c_sw_app, extend_sw, H3.
Qed.

Lemma append_record_ok Q w s record :
  live Q w s -> zlen record = 16 -> (ls_bytes s - kSpace) / 16 < kMaxLogRecords ->
  attempt hp_script (append_record record (ls_bytes s)) w
    (fun _ w' => live Q w' (advance s record) /\ live_log w' = live_log w ++ record /\ frame w w')
    (fun w' => managed Q w' (ls_generation s)).
Proof.
  intros (H1 & H2 & H3 & H4 & [M1 M2] & H6) Hz Hroom. unfold append_record.
  pose proof (bound_ok_range _ (stamp_ok_bound s (proj1 H4))) as (B1 & _).
  assert (forall bs t, managed Q (set_inode (set_hscript w t) (ino_write (ls_bytes s) bs (hp_index w))) (ls_generation s)) as Hw.
  { intros bs t. split; [|done]. cbn [hp_index set_inode]. rewrite <- H3. by apply member_write. }
  eapply attempt_bind.
  { assert (attempt hp_script (h_write (ls_bytes s) record) w
      (fun _ w' => exists t, w' = set_inode (set_hscript w t) (ino_write (ls_bytes s) record (hp_index w)))
      (fun w' => managed Q w' (ls_generation s))) as H; [|exact H].
    unfold attempt, h_write, mbind, io_bind, h_step. pose proof (next_outcome_spec (hp_script w)) as Hn.
    destruct (next_outcome (hp_script w)) as [[|k e] t]; cbn; destruct Hn as [Hsub Hf].
    - split; [done|]. by exists t.
    - split; [by eapply Hf|]. apply Hw. }
  intros _ w1 [t ->]. set (w1 := set_inode _ _). unfold log_progress.
  apply (attempt_as _ _ (_ ← publish_log_progress (advance s record);
                         io_run (fun w => (Ok tt, set_stamp w (Some (advance s record)))))).
  { cbn [hp_stamp w1 set_inode set_hscript]. rewrite H1. by rewrite (proj2 (Z.leb_gt _ _)) by done. }
  eapply attempt_bind.
  { apply (attempt_do _ _ (fun _ w' => exists t', w' = set_inode (set_hscript w t')
        (mark_inode (stable (advance s record)) (ino_write (ls_bytes s) record (hp_index w))))); [done| |].
    - intros t'. by exists t'.
    - intros t'. apply (Hw record t'). }
  intros _ w2 [t2 ->]. eapply attempt_run; [done|done|].
  assert (stamp_at (file_write (ino_file (hp_index w)) (ls_bytes s) record) (advance s record)) as Hat by by apply advance_at.
  split; [|split; [|by split_and!]].
  - split; [done|]. split; [done|]. split; [|split; [exact Hat|]].
    + cbn [hp_index set_stamp set_inode mark_inode ino_write ino_file advance ls_bytes].
      rewrite f_size_write_end by lia. lia.
    + destruct (Hw record t2) as [N1 N2]. split; [|done]. split; [|exact N2]. apply member_mark; [apply Hat|done|exact N1].
  - unfold live_log. cbn [hp_index_bytes hp_index set_stamp set_inode mark_inode ino_file ino_write advance ls_bytes].
    rewrite H2. by apply log_upto_append.
Qed.

(** ** Replacing the log *)

Lemma next_do_computes f i : computes (next_do f i) (fun j => j = f i).
Proof. eapply computes_bind; [apply call_computes|]. intros _ _. by apply computes_ret. Qed.

Lemma write_chunks_computes fuel next off ms :
  kSpace <= off -> f_size (ino_file next) = off -> Forall seg_encodable ms -> (length ms <= fuel)%nat ->
  computes (write_chunks fuel next off ms)
    (fun r => r.2 = off + 16 * zlen ms /\ f_size (ino_file r.1) = r.2 /\
       log_upto (ino_file r.1) r.2 = log_upto (ino_file next) off ++ encode_log ms).
Proof.
  revert next off ms. induction fuel as [|fuel IH]; intros next off ms Hoff Hsz Hms Hfuel.
  all: destruct ms as [|m ms]; cbn [write_chunks].
  1,3: apply computes_ret; cbn [fst snd]; change (encode_log []) with (@nil Z); rewrite (@zlen_nil segment_mapping), app_nil_r; split; [lia|];
    split; [lia|done].
  { simpl in Hfuel. lia. }
  set (chunk := take 4096 (m :: ms)). cbv zeta.
  assert (Forall seg_encodable chunk) as Hch by by apply Forall_take.
  assert (zlen (encode_log chunk) = 16 * zlen chunk) as Hz by by apply zlen_encode_log.
  assert (0 < zlen chunk) as Hpos by (unfold chunk; simpl take; rewrite zlen_cons; pose proof (zlen_nonneg (take 4095 ms)); lia).
  eapply computes_bind; [apply next_do_computes|]. intros next' ->.
  eapply computes_mono; [apply IH|].
  - lia.
  - cbn [ino_write ino_file]. rewrite f_size_write_end by lia. lia.
  - by apply Forall_drop.
  - rewrite length_drop. simpl in *. lia.
  - intros r (E1 & E2 & E3). split; [|split; [done|]].
    + assert (zlen (m :: ms) = zlen chunk + zlen (drop 4096 (m :: ms))) as Hsum
        by (rewrite <- zlen_app; unfold chunk; by rewrite take_drop).
      rewrite E1, Hz, Hsum. lia.
    + rewrite E3. cbn [ino_write ino_file]. rewrite log_upto_append, <- app_assoc by done. f_equal.
      unfold encode_log. rewrite <- concat_app, <- fmap_app. unfold chunk. by rewrite take_drop.
Qed.

(** The generation a new log gets. *)
Definition generation_ok (uuid : bytes) : Prop :=
  zlen (generation_of uuid) = 16 /\ Forall is_byte (generation_of uuid) /\ all_zero (generation_of uuid) = false.

Lemma new_stamp_computes f uuid :
  bound_ok (f_size f) = true -> generation_ok uuid ->
  computes (new_log_stamp f uuid)
    (fun s => s = Stamp (generation_of uuid) (f_size f) (crc_upto f (f_size f)) /\ stamp_at f s).
Proof.
  intros Hb (G1 & G2 & G3).
  eapply computes_bind; [apply (computes_lift (bound (f_size f)) tt (fun _ => True)); [by unfold bound; rewrite Hb|done]|].
  intros _ _. eapply computes_bind; [by apply prefix_crc_computes|]. intros c ->. apply computes_ret.
  split; [done|]. split; [|done]. split; [done|]. split; [done|]. split; [done|]. split; [done|].
  by apply crc32c_sw_bound.
Qed.

(** A log of its own, in a file with its mark. *)
Definition fresh_index (ms : list segment_mapping) (next : Inode) (s : LogStamp) : Prop :=
  f_size (ino_file next) = ls_bytes s /\ ls_bytes s = kSpace + 16 * zlen ms /\ stamp_at (ino_file next) s /\
  log_upto (ino_file next) (ls_bytes s) = encode_log ms /\ at_value (ino_attr next) = Some (encode (stable s)).

Definition replaceable (header : HeaderTrailer) (ms : list segment_mapping) (uuid : bytes) : Prop :=
  Forall seg_encodable ms /\ zlen ms <= kMaxRoIndexSize /\ generation_ok uuid /\
  exists raw, serialize (hybrid_index_header header) = Ok raw /\ zlen raw = kSpace.

Lemma build_index_ok w ms uuid :
  replaceable (hp_header w) ms uuid ->
  attempt hp_script (build_index ms uuid) w
    (fun r w' => same w w' /\ exists next s, r = (next, s, ls_bytes s) /\ ls_generation s = generation_of uuid /\
                   fresh_index ms next s)
    (same w).
Proof.
  intros (Hms & Hz & Hg & raw & Hraw & Hlen). unfold build_index.
  enough (computes (_ ← h_call; _ ← h_call; _ ← h_call;
     next ← write_header (hybrid_index_header (hp_header w)) ino_new;
     written ← write_chunks (length ms) next kSpace ms;
     stamp ← new_log_stamp (ino_file written.1) uuid;
     next ← next_do (mark_inode (stable stamp)) written.1;
     mret (next, stamp, written.2))
    (fun r => exists next s, r = (next, s, ls_bytes s) /\ ls_generation s = generation_of uuid /\ fresh_index ms next s)) as H
    by exact (H w).
  do 3 (eapply computes_bind; [apply call_computes|]; intros _ _).
  assert (computes (write_header (hybrid_index_header (hp_header w)) ino_new)
    (fun i => f_size (ino_file i) = kSpace)) as Hh.
  { eapply computes_bind; [apply (computes_lift _ raw (fun r => r = raw)); done|]. intros r ->.
    eapply computes_bind; [apply next_do_computes|]. intros i ->. eapply computes_mono; [apply next_do_computes|].
    intros i ->. cbn [ino_sync ino_write ino_file ino_new]. rewrite f_size_write_end; rewrite Hlen; done. }
  eapply computes_bind; [exact Hh|]. intros i Hi.
  eapply computes_bind; [by apply write_chunks_computes|]. intros [next off] (E1 & E2 & E3). cbn [fst snd] in *.
  assert (log_upto (ino_file i) kSpace = []) as E4 by (unfold log_upto; rewrite slice_nil by lia; done).
  assert (bound_ok (f_size (ino_file next)) = true) as Hb.
  { rewrite E2, E1. unfold bound_ok. replace (kSpace + 16 * zlen ms - kSpace) with (zlen ms * 16) by lia.
    rewrite Z.mod_mul, Z.div_mul by lia. pose proof (zlen_nonneg ms). unfold kMaxLogRecords, kMaxRoIndexSize in *.
    rewrite (proj2 (Z.ltb_ge _ _)), (proj2 (Z.ltb_ge _ _)) by lia. done. }
  eapply computes_bind; [by apply new_stamp_computes|]. intros s [-> Hs].
  eapply computes_bind; [apply next_do_computes|]. intros j ->. apply computes_ret.
  exists (mark_inode (stable (Stamp (generation_of uuid) (f_size (ino_file next)) (crc_upto (ino_file next) (f_size (ino_file next))))) next).
  eexists. split; [f_equal; cbn; by rewrite E2|]. split; [done|]. split_and!; try done; cbn [ls_bytes].
  - by rewrite E2, E1.
  - cbn [mark_inode ino_file]. by rewrite E2, E3, E4.
Qed.

Definition replacing (old next : LogStamp) : LogState := MkState kReplacing old next.

Lemma replacing_ok old next : stamp_ok old -> stamp_ok next -> state_ok (replacing old next).
Proof. intros H1 H2. split; [by right; left|]. by split. Qed.
Lemma replacing_old old next : selected (replacing old next) (ls_generation old) = Some old.
Proof. unfold selected. by rewrite bool_decide_true. Qed.
Lemma replacing_next old next :
  ls_generation next <> ls_generation old -> selected (replacing old next) (ls_generation next) = Some next.
Proof. intros H. unfold selected. rewrite bool_decide_false by done. by rewrite bool_decide_true. Qed.

Section Replace.
Context (Q : bytes -> Prop) (w0 : HybridPair) (s : LogStamp) (ms : list segment_mapping) (next : Inode) (n : LogStamp).
Context (Hnext : fresh_index ms next n) (Hgen : ls_generation n <> ls_generation s).

(** What may be found while the log is replaced. *)
Definition either (l : bytes) : Prop := Q l \/ l = live_log w0 \/ l = encode_log ms.
(** Still the old log. *)
Definition unreplaced (w : HybridPair) : Prop := live either w s /\ live_log w = live_log w0 /\ frame w0 w.

Lemma unreplaced_same w w' : same w w' -> unreplaced w -> unreplaced w'.
Proof. intros [t ->] H. exact H. Qed.

(** The anchor that names both logs, once the old one is synced. *)
Lemma announce_ok w :
  unreplaced w -> hp_former w = [] ->
  attempt hp_script (prepare_log_replacement next s n) w
    (fun next' w' => next' = ino_sync next /\ unreplaced w' /\ hp_former w' = [] /\
       hp_anchor w' = Att (Some (encode (replacing s n))) [])
    unreplaced.
Proof.
  intros Hu Hfo. unfold prepare_log_replacement.
  assert (forall t, unreplaced (set_anchor (set_hscript w t) (at_sync (hp_anchor w)))) as Hu1.
  { intros t. destruct Hu as ((? & ? & ? & ? & [M1 _] & ?) & ? & ?). split; [|done]. split_and!; try done. split.
    - apply (member_sub _ (at_values (hp_anchor w))); [|done]. cbn. intros x ->%list_elem_of_singleton. by left.
    - by apply former_nil. }
  eapply attempt_bind.
  { apply (attempt_do _ _ (fun _ w' => unreplaced w' /\ hp_former w' = [])); [done| |].
    - intros t. split; [apply Hu1|done].
    - intros t. by apply (unreplaced_same w); [exists t|]. }
  clear w Hu Hfo Hu1. intros _ w [Hu Hfo]. pose proof Hu as (Hl & Hlog & Hfr).
  eapply attempt_bind.
  { eapply attempt_mono; [by apply (sync_index_ok either w s)| |intros w' H; by apply (unreplaced_same w)].
    intros u w' H. exact H. }
  intros _ w1 (t & -> & Hl1 & Hd). set (w1 := set_inode _ _) in *.
  assert (unreplaced w1) as Hu1 by done.
  eapply attempt_computes; [apply next_do_computes| |].
  2:{ intros t'. by apply (unreplaced_same w1); [exists t'|]. }
  intros next' t' ->.
  assert (forall t2, unreplaced (set_anchor (set_hscript w1 t2) (at_set (encode (replacing s n)) (hp_anchor w1)))) as Hu2.
  { intros t2. split; [|done]. destruct Hl1 as (? & H2 & H3 & Hat & [M1 M2] & ?). split_and!; try done.
    split; [|by apply former_nil]. apply member_cons; [|done]. exists (replacing s n), s. split; [done|].
    split; [apply replacing_ok; [apply Hat|apply Hnext]|]. split; [apply replacing_old|].
    destruct Hat as (A1 & A2 & A3). split.
    { split; [done|]. split; [|done]. change (ls_bytes s <= ino_durable (hp_index w1)). by rewrite Hd. }
    right. left.
    rewrite <- Hlog. unfold live_log. by rewrite <- H2. }
  eapply attempt_bind.
  { apply (attempt_do _ _ (fun _ w' => exists t2, w' = set_anchor (set_hscript w1 t2) (at_set (encode (replacing s n)) (hp_anchor w1)))); [done| |].
    - intros t2. by exists t2.
    - intros t2. by apply (unreplaced_same w1); [exists t2|]. }
  intros _ w2 [t2 ->].
  apply (attempt_bind _ _ _ _ (fun _ w' => unreplaced w' /\ hp_former w' = [] /\
    hp_anchor w' = Att (Some (encode (replacing s n))) [])); [|intros u w' H; by apply attempt_ret].
  apply attempt_do; [done| |].
  - intros t3. split; [|done]. destruct (Hu2 t2) as ((? & ? & ? & ? & [M1 M2] & ?) & ? & ?).
    split; [|done]. split_and!; try done. split; [|by apply former_nil]. eapply member_sub; [|exact M1].
    cbn. intros x ->%list_elem_of_singleton. by left.
  - intros t3. by eapply unreplaced_same; [|apply (Hu2 t2)]; exists t3.
Qed.

(** The new log under the name. *)
Definition replaced (w : HybridPair) : Prop :=
  live either w n /\ live_log w = encode_log ms /\ hp_data w = hp_data w0 /\ hp_header w = hp_header w0 /\
  hp_writable w = hp_writable w0 /\ hp_generation w = hp_generation w0 + 1.

Lemma replaced_same w w' : same w w' -> replaced w -> replaced w'.
Proof. intros [t ->] H. exact H. Qed.

Lemma next_member R :
  R (encode_log ms) -> stamp_ok s -> member R [Some (encode (replacing s n))] (ino_sync next) (ls_generation n).
Proof.
  intros HR Hs. destruct Hnext as (N1 & N2 & N3 & N4 & N5). pose proof N3 as (A1 & A2 & A3).
  pose proof (bound_ok_range _ (stamp_ok_bound n A1)) as (B1 & _).
  split; [split; cbn; lia|]. split; repeat constructor.
  - exists (replacing s n), n. split; [done|]. split; [by apply replacing_ok|]. split; [by apply replacing_next|].
    split; [split; [done|]; split; [cbn; lia|done]|]. cbn [ino_sync ino_file]. by rewrite N4.
  - exists n. by split_and!.
Qed.

Lemma adopt_ok w :
  unreplaced w -> hp_former w = [] -> hp_anchor w = Att (Some (encode (replacing s n))) [] ->
  replaced (adopt_index (ino_sync next) n (ls_bytes n) w).
Proof.
  intros ((H1 & H2 & H3 & H4 & [M1 M2] & H6) & Hlog & (F1 & F2 & F3 & F4)) Hfo Ha.
  destruct Hnext as (N1 & N2 & N3 & N4 & N5). split; [|split_and!; try done; cbn; lia].
  split_and!; try done. split; cbn [adopt_index hp_anchor hp_index hp_former]; rewrite Ha.
  - apply next_member; [by right; right|apply H4].
  - rewrite Hfo. repeat constructor. exists (ls_generation s). by rewrite Ha in M1.
Qed.

(** Once the directory is synced only the new log can be found. *)
Lemma settle_ok w :
  replaced w -> hp_anchor w = Att (Some (encode (replacing s n))) [] -> hp_index w = ino_sync next -> stamp_ok s ->
  live (fun l => l = encode_log ms) (set_former w []) n.
Proof.
  intros ((H1 & H2 & H3 & H4 & [M1 M2] & H6) & _) Ha Hi Hs. split_and!; try done. split; [|constructor].
  cbn [set_former hp_anchor hp_index]. rewrite Ha, Hi. by apply next_member.
Qed.

Lemma publish_ok w :
  unreplaced w -> hp_former w = [] -> hp_anchor w = Att (Some (encode (replacing s n))) [] ->
  attempt hp_script (_ ← h_do (adopt_index (ino_sync next) n (ls_bytes n)); _ ← sync_directory; log_commit) w
    (fun _ w' => replaced w' /\ live (fun l => l = encode_log ms) w' n)
    (fun w' => unreplaced w' \/ replaced w').
Proof.
  intros Hu Hfo Ha. assert (stamp_ok s) as Hs by apply Hu.
  eapply attempt_bind.
  { apply (attempt_do _ _ (fun _ w' => exists t, w' = adopt_index (ino_sync next) n (ls_bytes n) (set_hscript w t))); [done| |].
    - intros t. by exists t.
    - intros t. left. by eapply unreplaced_same; [exists t|]. }
  intros _ w1 [t ->]. set (w1 := adopt_index _ _ _ _).
  assert (replaced w1) as Hr1 by by apply adopt_ok.
  eapply attempt_bind.
  { apply (attempt_do _ _ (fun _ w' => exists t, w' = set_former (set_hscript w1 t) [])); [done| |].
    - intros t1. by exists t1.
    - intros t1. right. by eapply replaced_same; [exists t1|]. }
  intros _ w2 [t2 ->]. set (w2 := set_former _ _).
  assert (live (fun l => l = encode_log ms) w2 n) as Hl2 by by apply (settle_ok (set_hscript w1 t2)).
  assert (live_log w2 = encode_log ms) as Hlog2 by apply Hr1.
  destruct Hr1 as (_ & _ & R3 & R4 & R5 & R6).
  eapply attempt_mono; [apply (commit_ok _ w2 n Hl2); [done|apply Hnext]| |].
  - rewrite Hlog2. intros u w' (L1 & L2 & (F1 & F2 & F3 & F4) & _). split; [|done].
    split; [|by rewrite F1, F2, F3, F4; split_and!]. eapply live_mono; [|exact L1]. intros l ->. by right; right.
  - rewrite Hlog2. intros w' (L1 & L2 & (F1 & F2 & F3 & F4)). right.
    split; [|by rewrite F1, F2, F3, F4; split_and!]. eapply live_mono; [|exact L1]. intros l [->| ->]; by right; right.
Qed.
End Replace.

(** The whole replacement: it ends with the new log committed, or fails with
    the old or the new log in place and one of the promised logs to be found. *)
Lemma replace_index_ok Q w s ms uuid :
  live Q w s -> hp_writable w = true -> replaceable (hp_header w) ms uuid ->
  verify_replacement (hp_header w) (f_size (hp_data w)) ms = Ok tt -> generation_of uuid <> ls_generation s ->
  attempt hp_script (replace_index_sync ms uuid) w
    (fun _ w' => exists n, ls_generation n = generation_of uuid /\ replaced Q w ms n w' /\ live (fun l => l = encode_log ms) w' n)
    (fun w' => unreplaced Q w s ms w' \/ exists n, ls_generation n = generation_of uuid /\ replaced Q w ms n w').
Proof.
  intros Hl Hw Hrep Hver Hgen. unfold replace_index_sync.
  assert (unreplaced Q w s ms w) as Hu.
  { split; [|done]. eapply live_mono; [|exact Hl]. by left. }
  eapply attempt_as; [by rewrite Hw, (proj2 (Z.ltb_ge _ _)) by apply Hrep|]. cbn [negb].
  eapply attempt_computes; [apply call_computes| |intros t; left; exact Hu]. intros _ t _.
  eapply attempt_lift_bind; [exact Hver|].
  eapply attempt_bind.
  { eapply attempt_mono; [by apply build_index_ok|intros r w' H; exact H|].
    intros w' Hs. left. by eapply unreplaced_same. }
  intros r w1 [[t1 ->] (next & n & -> & Hng & Hnext)].
  rewrite <- Hng in Hgen.
  eapply attempt_bind.
  { apply (attempt_do _ _ (fun _ w' => exists t, w' = set_former (set_hscript w t) [])); [done| |].
    - intros t2. by exists t2.
    - intros t2. left. exact Hu. }
  intros _ w2 [t2 ->]. pose proof Hl as (H1 & _). rewrite H1.
  assert (unreplaced Q w s ms (set_former (set_hscript w t2) [])) as Hu2.
  { destruct Hu as ((? & ? & ? & ? & [? ?] & ?) & ? & ?). split; [|done]. by split_and!. }
  eapply attempt_bind.
  { eapply attempt_mono; [apply (announce_ok Q w s ms next n Hnext _ Hu2 eq_refl)|intros r w' H; exact H|].
    intros w' H. by left. }
  intros next' w3 (-> & Hu3 & Hf3 & Ha3). cbn beta.
  eapply attempt_mono; [by apply (publish_ok Q w s ms next n Hnext Hgen w3)| |].
  - intros u w' H. by exists n.
  - intros w' [H|H]; [by left|right]. by exists n.
Qed.

(** ** Activation *)

Definition installing (s : LogStamp) : LogState := MkState kInstalling s empty_stamp.
Lemma installing_ok s : stamp_ok s -> state_ok (installing s).
Proof. intros H. split; [by right; right|]. by split. Qed.

(** An anchor of a first activation, and the state in which a stamp is about
    to be marked on the index. *)
Definition installed (Q : bytes -> Prop) (i : Inode) (s : LogStamp) (a : option bytes) : Prop :=
  exists A, a = Some (encode A) /\ state_ok A /\ st_kind A = kInstalling /\ st_first A = s /\ kept i s /\
    Q (log_upto (ino_file i) (ls_bytes s)).
Definition resuming (Q : bytes -> Prop) (i : Inode) (an : list (option bytes)) (s : LogStamp) : Prop :=
  ino_ok i /\ f_size (ino_file i) = ls_bytes s /\ stamp_at (ino_file i) s /\
  Forall (anchored Q i (ls_generation s)) an /\
  Forall (fun p => marked (ls_generation s) p \/ p = None /\ Forall (installed Q i s) an) (at_values (ino_attr i)).

Lemma resuming_safe Q w s :
  resuming Q (hp_index w) (at_values (hp_anchor w)) s -> hp_former w = [] -> safe Q w.
Proof.
  intros (H1 & _ & _ & H4 & H5) Hfo i Hi. rewrite Hfo in Hi. apply list_elem_of_singleton in Hi as ->.
  split; [done|]. intros a p Ha Hp. rewrite Forall_forall in H4, H5.
  destruct (H5 p Hp) as [Hm|[-> Hin]]; [right; right; eauto|]. right. left. split; [done|].
  rewrite Forall_forall in Hin. destruct (Hin a Ha) as (A & -> & ? & ? & <- & ? & ?). by exists A.
Qed.

Lemma installed_agree Q i i' s a :
  (forall x, 0 <= x < ino_durable i -> f_byte (ino_file i') x = f_byte (ino_file i) x) ->
  ls_bytes s <= ino_durable i' -> installed Q i s a -> installed Q i' s a.
Proof.
  intros H Hd (A & -> & H1 & H2 & H3 & H4 & H5). exists A. pose proof H4 as (_ & H6 & _).
  split_and!; try done; [by eapply kept_agree|].
  by rewrite (log_upto_agree (ino_file i) (ino_file i') (ls_bytes s) (ino_durable i)).
Qed.

Lemma resuming_anchors Q i an an' s : an' ⊆ an -> resuming Q i an s -> resuming Q i an' s.
Proof.
  intros Hsub (H1 & H2 & H3 & H4 & H5). split_and!; try done; rewrite !Forall_forall in *; [auto|].
  intros p Hp. destruct (H5 p Hp) as [?|[-> Hin]]; [by left|right]. split; [done|].
  rewrite !Forall_forall in *. auto.
Qed.
Lemma resuming_sync Q i an s : resuming Q i an s -> resuming Q (ino_sync i) an s.
Proof.
  intros ((H0 & H1) & H2 & H3 & H4 & H5). split; [split; cbn; lia|]. split; [done|]. split; [done|]. split.
  - eapply Forall_impl; [exact H4|]. intros a. apply anchored_agree; [done|]. cbn. lia.
  - apply Forall_cons in H5 as [H5 _]. constructor; [|constructor].
    destruct H5 as [?|[E Hin]]; [by left|right]. split; [done|]. eapply Forall_impl; [exact Hin|].
    intros a. apply installed_agree; [done|]. cbn. lia.
Qed.
Lemma resuming_mark Q i an s : resuming Q i an s -> resuming Q (mark_inode (stable s) i) an s.
Proof.
  intros (H1 & H2 & H3 & H4 & H5). split_and!; try done.
  constructor; [left; exists s; split_and!; [done|apply H3|done]|]. exact H5.
Qed.

(** The end of every activation: mark, sync, commit. *)
Lemma mark_commit_ok Q w s :
  resuming Q (hp_index w) (at_values (hp_anchor w)) s -> hp_former w = [] ->
  let log := log_upto (ino_file (hp_index w)) (ls_bytes s) in
  attempt hp_script (_ ← publish_log_progress s; _ ← sync_index; _ ← publish_log_commit s; mret s) w
    (fun r w' => r = s /\ opened (fun l => l = log) w' s /\ frame w w' /\ ino_file (hp_index w') = ino_file (hp_index w))
    (safe (fun l => Q l \/ l = log)).
Proof.
  intros Hr Hfo log. set (R := fun l => Q l \/ l = log).
  assert (forall w i, resuming Q i (at_values (hp_anchor w)) s -> hp_index w = i -> hp_former w = [] -> safe R w) as Hsafe.
  { intros w1 i H <- Hf j Hj. destruct (resuming_safe Q w1 s H Hf j Hj) as [Hio Hc]. split; [done|].
    intros a p Ha Hp. destruct (Hc a p Ha Hp) as [(? & ? & ? & ?)|[(? & A & ? & ? & ? & ? & ?)|(g & ? & ?)]].
    - left. split_and!; try done. by left.
    - right. left. split; [done|]. exists A. split_and!; try done. by left.
    - right. right. exists g. split; [|done]. eapply anchored_mono; [|done]. by left. }
  eapply attempt_bind.
  { apply (attempt_do _ _ (fun _ w' => exists t, w' = set_inode (set_hscript w t) (mark_inode (stable s) (hp_index w)))); [done| |].
    - intros t. by exists t.
    - intros t. by eapply Hsafe. }
  intros _ w1 [t ->]. apply resuming_mark in Hr.
  eapply attempt_bind.
  { apply (attempt_do _ _ (fun _ w' => exists t, w' = set_inode (set_hscript w t) (ino_sync (mark_inode (stable s) (hp_index w))))); [done| |].
    - intros t1. by exists t1.
    - intros t1. by eapply Hsafe. }
  intros _ w2 [t2 ->]. apply resuming_sync in Hr. destruct Hr as (H1 & H2 & H3 & H4 & H5).
  assert (opened Q (set_inode (set_hscript w t2) (ino_sync (mark_inode (stable s) (hp_index w)))) s) as Ho.
  { split; [done|]. split; [done|]. split; [|done]. split; [|by apply former_nil]. split; [done|]. split; [done|].
    repeat constructor. exists s. split_and!; [done|apply H3|done]. }
  eapply attempt_bind.
  { eapply attempt_mono; [by apply (publish_commit_ok Q _ s Ho)|intros u w' H; exact H|].
    intros w' ((O1 & O2 & O3 & O4) & _). by eapply managed_safe. }
  intros u w' (Ho' & t3 & a & ->). by apply attempt_ret.
Qed.

Section Activate.
Context (Q : bytes -> Prop) (w0 : HybridPair) (s : LogStamp).

(** The log of [w0] up to the stamp, about to be marked. *)
Definition ready (w : HybridPair) : Prop :=
  resuming Q (hp_index w) (at_values (hp_anchor w)) s /\ hp_former w = [] /\ frame w0 w /\
  log_upto (ino_file (hp_index w)) (ls_bytes s) = log_upto (ino_file (hp_index w0)) (ls_bytes s).

Lemma ready_same w w' : same w w' -> ready w -> ready w'.
Proof. intros [t ->] H. exact H. Qed.
Lemma ready_safe w : ready w -> safe Q w.
Proof. intros (H1 & H2 & _). by eapply resuming_safe. Qed.
Lemma ready_sync_data w : ready w -> ready (set_anchor w (at_sync (hp_anchor w))).
Proof.
  intros (H1 & H2 & H3 & H4). split_and!; try done. eapply resuming_anchors; [|exact H1].
  cbn. intros x ->%list_elem_of_singleton. by left.
Qed.
Lemma ready_sync_index w : ready w -> ready (set_inode w (ino_sync (hp_index w))).
Proof. intros (H1 & H2 & H3 & H4). split_and!; try done. by apply resuming_sync. Qed.

Lemma safe_mono (P P' : bytes -> Prop) w : (forall l, P l -> P' l) -> safe P w -> safe P' w.
Proof.
  intros Hm Hs i Hi. destruct (Hs i Hi) as [Hio Hc]. split; [done|]. intros a p Ha Hp.
  destruct (Hc a p Ha Hp) as [(? & ? & ? & ?)|[(? & A & ? & ? & ? & ? & ?)|(g & ? & ?)]].
  - left. split_and!; auto.
  - right. left. split; [done|]. exists A. split_and!; auto.
  - right. right. exists g. split; [|done]. by eapply anchored_mono.
Qed.

(** One step that keeps the state ready. *)
Lemma ready_do {B} f (k : unit -> io HybridPair B) w (P : B -> HybridPair -> Prop) (R : bytes -> Prop) :
  (forall w, hp_script (f w) = hp_script w) -> (forall w, ready w -> ready (f w)) -> (forall l, Q l -> R l) -> ready w ->
  (forall w', ready w' -> attempt hp_script (k tt) w' P (safe R)) -> attempt hp_script (h_do f ≫= k) w P (safe R).
Proof.
  intros Hs Hf HR Hw Hk. apply (attempt_bind _ _ _ _ (fun _ w' => ready w')); [|intros [] w' H; by apply Hk].
  apply attempt_do; [intros t; by rewrite Hs| |].
  - intros t. apply Hf. by eapply ready_same; [exists t|].
  - intros t. eapply safe_mono; [exact HR|]. apply ready_safe. by eapply ready_same; [exists t|].
Qed.
Lemma ready_sync_all {B} (k : unit -> io HybridPair B) w (P : B -> HybridPair -> Prop) (R : bytes -> Prop) :
  (forall l, Q l -> R l) -> ready w ->
  (forall w', ready w' -> attempt hp_script (k tt) w' P (safe R)) ->
  attempt hp_script (sync_data ≫= (fun _ => sync_index ≫= (fun _ => sync_directory ≫= k))) w P (safe R).
Proof.
  intros HR Hw Hk. apply ready_do; [done|apply ready_sync_data|done|done|]. intros w1 H1.
  apply ready_do; [done|apply ready_sync_index|done|done|]. intros w2 H2.
  apply ready_do; [done|by intros w' (? & ? & ? & ?); split_and!|done|done|done].
Qed.

Lemma resumes_ready w :
  w = w0 -> at_rest w -> resumes Q w s -> f_size (ino_file (hp_index w)) = ls_bytes s -> ready w.
Proof.
  intros -> (A1 & A2 & A3 & A4 & A5 & A6) (Hat & A & c & Ea & HA & Hsel & Hk & HQ & Hle & Hp) Hsz.
  split; [|by split_and!]. pose proof (bound_ok_range _ A6) as (B1 & _).
  split; [split; lia|]. split; [done|]. split; [done|]. unfold at_values. rewrite A1, A2, Ea. split.
  - constructor; [|constructor]. by exists A, c.
  - constructor; [|constructor]. destruct Hp as [?|(E & Hi & <-)]; [by left|right]. split; [done|].
    constructor; [|constructor]. assert (c = st_first A) as ->.
    { unfold selected in Hsel. rewrite bool_decide_true in Hsel by done. by injection Hsel as <-. }
    exists A. by split_and!.
Qed.

Lemma truncate_ready t :
  at_rest w0 -> resumes Q w0 s ->
  ready (set_inode (set_hscript w0 t) (ino_truncate (ls_bytes s) (hp_index w0))).
Proof.
  intros (A1 & A2 & A3 & A4 & A5 & A6) (Hat & A & c & Ea & HA & Hsel & Hk & HQ & Hle & Hp).
  pose proof Hat as (Hs & Hsz & Hcrc). pose proof (bound_ok_range _ (stamp_ok_bound s Hs)) as (B1 & _).
  set (i' := ino_truncate (ls_bytes s) (hp_index w0)).
  assert (forall x, 0 <= x < ino_durable (hp_index w0) -> f_byte (ino_file i') x = f_byte (ino_file (hp_index w0)) x) as Hag.
  { intros x Hx. cbn. by rewrite (proj2 (Z.ltb_lt _ _)) by lia. }
  assert (forall n, n <= ls_bytes s -> log_upto (ino_file i') n = log_upto (ino_file (hp_index w0)) n) as Hlog.
  { intros n Hn. apply (log_upto_agree _ _ _ (ino_durable (hp_index w0))); [done|lia]. }
  assert (ino_durable i' = ls_bytes s) as Hd by (cbn; lia).
  assert (forall c', ls_bytes c' <= ls_bytes s -> kept (hp_index w0) c' -> kept i' c') as Hkept.
  { intros c' Hc'. apply kept_agree; [done|]. by rewrite Hd. }
  split; [|split_and!; try done; by apply Hlog].
  assert (ino_ok i') as Hio by (split; [rewrite Hd; cbn; lia|cbn; lia]). split; [exact Hio|]. split; [done|].
  split; [split_and!; [done|done|]; by rewrite Hcrc; unfold crc_upto; rewrite Hlog|].
  unfold at_values. cbn [hp_anchor set_inode set_hscript hp_index ino_attr i' ino_truncate].
  rewrite A1, A2, Ea. fold i'. split.
  - constructor; [|constructor]. exists A, c. split_and!; auto. by rewrite Hlog.
  - constructor; [|constructor]. destruct Hp as [?|(E & Hi & Hfs)]; [by left|right]. split; [done|].
    constructor; [|constructor]. assert (c = st_first A) as ->.
    { unfold selected in Hsel. rewrite bool_decide_true in Hsel by by rewrite Hfs. by injection Hsel as <-. }
    rewrite Hfs in *. exists A. split_and!; auto. by rewrite Hlog.
Qed.
End Activate.

(** The log inspection recovers. *)
Definition recovered_log (w : HybridPair) (r : option LogStamp) : bytes :=
  let f := ino_file (hp_index w) in log_upto f (match r with Some s => ls_bytes s | None => f_size f end).

(** What activation achieves, whichever the case. *)
Definition activated (w w' : HybridPair) (log : bytes) (s : LogStamp) : Prop :=
  opened (fun l => l = log) w' s /\ frame w w' /\ log_upto (ino_file (hp_index w')) (ls_bytes s) = log.

Lemma ready_mark_commit Q w0 s w :
  let log := log_upto (ino_file (hp_index w0)) (ls_bytes s) in
  ready Q w0 s w ->
  attempt hp_script (_ ← publish_log_progress s; _ ← sync_index; _ ← publish_log_commit s; mret s) w
    (fun r w' => activated w0 w' log r) (safe (fun l => Q l \/ l = log)).
Proof.
  intros log (H1 & H2 & H3 & H4). fold log in H4. pose proof (mark_commit_ok Q w s H1 H2) as Hm.
  cbv zeta in Hm. rewrite H4 in Hm.
  eapply attempt_mono; [exact Hm| |done]. intros r w' (-> & Ho & (F1 & F2 & F3 & F4) & Ef).
  destruct H3 as (G1 & G2 & G3 & G4). split; [done|]. split; [|by rewrite Ef].
  unfold frame. by rewrite F1, F2, F3, F4.
Qed.

Lemma resume_ok Q w s uuid :
  at_rest w -> resumes Q w s ->
  let log := recovered_log w (Some s) in
  attempt hp_script (activate_log_state (Some s) uuid) w
    (fun r w' => activated w w' log r) (safe (fun l => Q l \/ l = log)).
Proof.
  intros Hrest Hres log. unfold activate_log_state. apply attempt_ret_bind.
  pose proof (proj1 Hres) as Hat.
  assert (safe Q w) as Hsafe.
  { destruct Hrest as (A1 & A2 & A3 & A4 & A5 & A6). intros i Hi. rewrite A3 in Hi.
    apply list_elem_of_singleton in Hi as ->. pose proof (bound_ok_range _ A6) as (B1 & _). split; [split; lia|].
    unfold at_values. rewrite A1, A2. intros a p ->%list_elem_of_singleton ->%list_elem_of_singleton.
    destruct Hres as (_ & A & c & Ea & HA & Hsel & Hk & HQ & Hle & [?|(E & Hi & Hfs)]).
    - right. right. exists (ls_generation s). split; [|done]. by exists A, c.
    - right. left. split; [done|]. exists A. assert (c = st_first A) as <-; [|by split_and!].
      unfold selected in Hsel. rewrite bool_decide_true in Hsel by by rewrite Hfs. by injection Hsel as <-. }
  eapply attempt_computes; [apply matches_computes, stamp_ok_bound, Hat| |].
  2:{ intros t. eapply (safe_mono Q); [by left|exact Hsafe]. }
  intros b t ->. rewrite stamp_matches by done. cbn [negb].
  assert (forall w', ready Q w s w' -> attempt hp_script
    (_ ← sync_data; _ ← sync_index; _ ← sync_directory; _ ← mret tt;
     _ ← publish_log_progress s; _ ← sync_index; _ ← publish_log_commit s; mret s) w'
    (fun r w' => activated w w' log r) (safe (fun l => Q l \/ l = log))) as Hrun.
  { intros w' Hr. apply (ready_sync_all Q w s); [by left|done|]. intros w1 Hr1.
    apply attempt_ret_bind. by apply (ready_mark_commit Q w s). }
  destruct (Z.eqb_spec (f_size (ino_file (hp_index w))) (ls_bytes s)) as [Heq|Hne].
  - apply attempt_ret_bind, Hrun. apply (ready_same Q w s w); [by exists t|]. by apply resumes_ready.
  - apply (attempt_bind _ _ _ _ (fun _ w' => ready Q w s w')); [|intros u w1 H; by apply Hrun].
    apply attempt_do; [done| |].
    + intros t1. exact (truncate_ready Q w s t1 Hrest Hres).
    + intros t1. eapply (safe_mono Q); [by left|exact Hsafe].
Qed.

(** A pair without metadata, on which an installing anchor may be. *)
Definition bare (Q : bytes -> Prop) (w0 w : HybridPair) : Prop :=
  hp_anchor w = Att None [] /\ ino_attr (hp_index w) = Att None [] /\ hp_former w = [] /\ frame w0 w /\
  ino_file (hp_index w) = ino_file (hp_index w0) /\ ino_durable (hp_index w) = f_size (ino_file (hp_index w)) /\
  ino_reach (hp_index w) = f_size (ino_file (hp_index w)) /\ bound_ok (f_size (ino_file (hp_index w))) = true /\
  Q (log_upto (ino_file (hp_index w)) (f_size (ino_file (hp_index w)))).

Lemma bare_covered Q w0 w s :
  bare Q w0 w -> stamp_at (ino_file (hp_index w)) s -> f_size (ino_file (hp_index w)) = ls_bytes s ->
  ino_ok (hp_index w) /\ covered Q (hp_index w) None None /\
  installed Q (hp_index w) s (Some (encode (installing s))) /\
  covered Q (hp_index w) (Some (encode (installing s))) None.
Proof.
  intros (B1 & B2 & B3 & B4 & B5 & B6 & B7 & B8 & B9) (S1 & S2 & S3) Hsz.
  pose proof (bound_ok_range _ B8) as (R1 & _).
  assert (kept (hp_index w) s) as Hk by (split_and!; [done|lia|done]).
  assert (Q (log_upto (ino_file (hp_index w)) (ls_bytes s))) as HQ by by rewrite <- Hsz.
  split; [split; lia|]. split; [left; split_and!; [done|done|lia|by rewrite B6]|].
  split; [exists (installing s)|right; left; split; [done|]; exists (installing s)];
    split_and!; try done; by apply installing_ok.
Qed.
Lemma bare_safe Q w0 w : bare Q w0 w -> safe Q w.
Proof.
  intros (B1 & B2 & B3 & B4 & B5 & B6 & B7 & B8 & B9) i Hi. rewrite B3 in Hi. apply list_elem_of_singleton in Hi as ->.
  pose proof (bound_ok_range _ B8) as (R1 & _). split; [split; lia|]. rewrite B1, B2.
  intros a p ->%list_elem_of_singleton ->%list_elem_of_singleton. left. split_and!; [done|done|lia|by rewrite B6].
Qed.

(** The installing anchor: with it or without it the log is found. *)
Lemma install_ok Q w0 w s :
  bare Q w0 w -> stamp_at (ino_file (hp_index w)) s -> ls_bytes s = f_size (ino_file (hp_index w)) ->
  attempt hp_script (_ ← write_anchor (MkState kInstalling s empty_stamp); sync_data) w (fun _ => ready Q w0 s) (safe Q).
Proof.
  intros H3 Hat Hsz. pose proof H3 as (B1 & B2 & B3 & B4 & B5 & B6 & B7 & B8 & B9).
  destruct (bare_covered Q w0 w s H3 Hat ltac:(done)) as (Hio & Hc0 & Hin & Hc1).
  apply (attempt_bind _ _ _ _ (fun _ w' => exists x, w' = set_hscript (set_anchor w (Att (Some (encode (installing s))) [None])) x)).
  - apply attempt_do; [done| |intros x; by eapply bare_safe]. intros x. exists x. unfold set_anchor, set_hscript; cbn. by rewrite B1.
  - intros _ w4 [x ->]. apply (attempt_do _ _ (fun _ => ready Q w0 s)); [done| |]; intros x'.
    + split; [|split_and!; try done; cbn; by rewrite B5]. split; [done|]. split; [done|]. split; [done|].
      cbn [hp_anchor set_anchor hp_index set_hscript at_sync at_values at_value at_older]. rewrite B2.
      split; (constructor; [|constructor]).
      * destruct Hin as (A & E & ? & ? & <- & ? & ?). exists A, (st_first A). split_and!; try done.
        unfold selected. by rewrite bool_decide_true.
      * right. split; [done|]. by constructor.
    + intros i Hi. cbn [hp_index hp_former set_hscript set_anchor] in Hi.
      rewrite B3 in Hi. apply list_elem_of_singleton in Hi as ->. split; [done|].
      cbn [hp_anchor set_hscript set_anchor]. rewrite B2. intros a p Ha ->%list_elem_of_singleton.
      apply elem_of_cons in Ha as [->|Ha]; [done|]. by apply list_elem_of_singleton in Ha as ->.
Qed.

Lemma import_ok Q w uuid :
  at_rest w -> found Q w None -> generation_ok uuid ->
  let log := recovered_log w None in
  attempt hp_script (activate_log_state None uuid) w
    (fun r w' => activated w w' log r) (safe (fun l => Q l \/ l = log)).
Proof.
  intros (A1 & A2 & A3 & A4 & A5 & A6) (F1 & F2 & F3) Hg log. unfold activate_log_state.
  assert (bare Q w w) as Hb0.
  { split_and!; try done; [destruct (hp_anchor w); by cbn in *; subst|destruct (ino_attr (hp_index w)); by cbn in *; subst]. }
  assert (forall w', bare Q w w' -> safe (fun l => Q l \/ l = log) w') as Hbs.
  { intros w' H. eapply safe_mono; [|by eapply bare_safe]. by left. }
  eapply attempt_computes; [by apply new_stamp_computes| |intros t; by apply Hbs].
  intros s t (Es & Hat). assert (ls_bytes s = f_size (ino_file (hp_index w))) as Hsz by by rewrite Es.
  eapply attempt_computes; [apply matches_computes, stamp_ok_bound, Hat| |intros t'; by apply Hbs].
  intros b t' ->. rewrite stamp_matches by done. cbn [negb]. rewrite Hsz, Z.eqb_refl. apply attempt_ret_bind.
  assert (forall f w', bare Q w w' -> (forall u, hp_script (f u) = hp_script u) -> (forall u, bare Q w u -> bare Q w (f u)) ->
    attempt hp_script (h_do f) w' (fun _ => bare Q w) (safe (fun l => Q l \/ l = log))) as Hdo.
  { intros f w' Hw' Hs Hf. apply attempt_do; [intros x; by rewrite Hs|intros x; by apply Hf|intros x; by apply Hbs]. }
  eapply attempt_bind; [apply Hdo; [done|done|]|].
  { intros u (B1 & B2). split; [cbn; by rewrite B1|exact B2]. }
  intros u1 w1 H1. cbn beta in H1. clear u1. eapply attempt_bind; [apply Hdo; [done|done|]|].
  { intros u (B1 & B2 & B3 & B4 & B5 & B6 & B7 & B8 & B9). split_and!; try done. cbn. by rewrite B2. }
  intros u2 w2 H2. cbn beta in H2. clear u2. eapply attempt_bind; [apply Hdo; [done|done|]|].
  { intros u (B1 & B2 & B3 & B4 & B5 & B6 & B7 & B8 & B9). by split_and!. }
  intros u3 w3 H3. cbn beta in H3. clear u3. pose proof H3 as (B1 & B2 & B3 & B4 & B5 & B6 & B7 & B8 & B9).
  eapply attempt_bind.
  { eapply attempt_mono; [apply (install_ok Q w w3 s H3); by rewrite B5|intros u w' H; exact H|].
    intros w' H. eapply safe_mono; [|exact H]. by left. }
  intros u4 w4 Hr4. assert (log = log_upto (ino_file (hp_index w)) (ls_bytes s)) as -> by by rewrite Hsz.
  by apply (ready_mark_commit Q w s w4).
Qed.

(** ** Reopening *)

(** The log operations of opening a pair for writing. *)
Definition reopen (uuid : bytes) : io HybridPair unit := _ ← log_inspect; log_activate uuid.

(** Logs that extend one of [Q]. *)
Definition extends (Q : bytes -> Prop) (log : bytes) : Prop := exists l, Q l /\ l `prefix_of` log.

Lemma log_upto_prefix f n m : kSpace <= n -> n <= m -> log_upto f n `prefix_of` log_upto f m.
Proof.
  intros Hn Hm. unfold log_upto. replace (m - kSpace) with ((n - kSpace) + (m - n)) by lia.
  rewrite slice_app by lia. by eexists.
Qed.
Lemma found_extends Q w r : found Q w r -> extends Q (recovered_log w r).
Proof.
  unfold recovered_log. destruct r as [s|]; cbn.
  - intros (_ & A & c & _ & _ & _ & (Hc & _) & HQ & Hle & _). eexists. split; [exact HQ|].
    apply log_upto_prefix; [|done]. by apply (bound_ok_range _ (stamp_ok_bound c Hc)).
  - intros (_ & _ & HQ). eexists. by split.
Qed.

(** Activation of what inspection found. *)
Lemma log_activate_ok Q w r uuid :
  at_rest w -> found Q w r -> hp_stamp w = r -> generation_ok uuid ->
  attempt hp_script (log_activate uuid) w
    (fun _ w' => exists s, live (fun l => l = recovered_log w r) w' s /\ live_log w' = recovered_log w r /\ frame w w')
    (safe (extends Q)).
Proof.
  intros Hrest Hf Hst Hg. unfold log_activate.
  assert (attempt hp_script (activate_log_state r uuid) w
    (fun s w' => activated w w' (recovered_log w r) s) (safe (fun l => Q l \/ l = recovered_log w r))) as Ha.
  { destruct r as [s|]; [by apply resume_ok|by apply import_ok]. }
  apply (attempt_as _ _ (s ← activate_log_state r uuid; io_run (fun w => (Ok tt, set_stamp w (Some s))))); [by rewrite Hst|].
  eapply attempt_bind.
  { eapply attempt_mono; [exact Ha|intros s w' H; exact H|]. intros w' H. eapply safe_mono; [|exact H].
    intros l [HQ| ->]; [exists l; by split|by apply found_extends]. }
  intros s w' ((O1 & O2 & O3 & O4) & (F1 & F2 & F3 & F4) & Hlog). eapply attempt_run; [done|done|].
  exists s. split; [by split_and!|]. split; [done|]. by split_and!.
Qed.

Lemma log_inspect_ok w R :
  attempt hp_script inspect_log_state w (fun r w' => same w w' /\ R r) (same w) ->
  attempt hp_script log_inspect w (fun _ w' => exists r t, w' = set_stamp (set_hscript w t) r /\ R r) (same w).
Proof.
  intros H. eapply attempt_bind; [exact H|]. intros r w' [[t ->] Hr]. eapply attempt_run; [done|done|].
  by exists r, t.
Qed.

Lemma reopen_run Q w uuid (R : option LogStamp -> Prop) :
  safe Q w -> at_rest w -> generation_ok uuid ->
  attempt hp_script inspect_log_state w (fun r w' => same w w' /\ R r) (same w) ->
  (forall r, R r -> found Q w r) ->
  attempt hp_script (reopen uuid) w
    (fun _ w' => exists r s, R r /\ live (fun l => l = recovered_log w r) w' s /\ live_log w' = recovered_log w r /\ frame w w')
    (safe (extends Q)).
Proof.
  intros Hs Hrest Hg Hi HR. unfold reopen.
  assert (safe (extends Q) w) as Hse by (eapply safe_mono; [|exact Hs]; intros l Hl; exists l; by split).
  eapply attempt_bind.
  { eapply attempt_mono; [by apply log_inspect_ok|intros u w' H; exact H|]. intros w' [t ->]. exact Hse. }
  intros _ w1 (r & t & -> & Hr).
  eapply attempt_mono; [apply (log_activate_ok Q _ r uuid); [exact Hrest| |done|done]| |done].
  - specialize (HR r Hr). by destruct r.
  - intros u w' (s & L & E & F). exists r, s. split; [done|]. by destruct r.
Qed.

(** ** Histories *)

(** A pair is closed (nobody has it, or the machine stopped), open, or lost:
    an operation failed after which the writer refuses all others. *)
Inductive phase := Closed | Open | Lost.

Inductive history : phase -> (bytes -> Prop) -> HybridPair -> Prop :=
| history_import w :
    at_rest w -> hp_anchor w = Att None [] -> ino_attr (hp_index w) = Att None [] ->
    history Closed (fun l => l = recovered_log w None) w
| history_open Q w uuid w' :
    history Closed Q w -> plain w -> generation_ok uuid -> reopen uuid w = (Ok tt, w') ->
    history Open (fun l => l = live_log w') w'
| history_open_fails Q w uuid f w' :
    history Closed Q w -> plain w -> generation_ok uuid -> reopen uuid w = (Err f, w') -> history Lost (extends Q) w'
| history_append Q w record w' :
    history Open Q w -> zlen record = 16 -> (hp_index_bytes w - kSpace) / 16 < kMaxLogRecords ->
    append_record record (hp_index_bytes w) w = (Ok tt, w') -> history Open Q w'
| history_append_fails Q w record f w' :
    history Open Q w -> zlen record = 16 -> (hp_index_bytes w - kSpace) / 16 < kMaxLogRecords ->
    append_record record (hp_index_bytes w) w = (Err f, w') -> history Lost Q w'
| history_flush Q w w' : history Open Q w -> flush_log w = (Ok tt, w') -> history Open (fun l => l = live_log w) w'
| history_flush_fails Q w f w' :
    history Open Q w -> flush_log w = (Err f, w') -> history Open (fun l => Q l \/ l = live_log w) w'
| history_replace Q w ms uuid w' :
    history Open Q w -> replaceable (hp_header w) ms uuid -> Some (generation_of uuid) <> ls_generation <$> hp_stamp w ->
    replace_index_sync ms uuid w = (Ok tt, w') -> history Open (fun l => l = encode_log ms) w'
| history_replace_fails Q w ms uuid f w' :
    history Open Q w -> replaceable (hp_header w) ms uuid -> Some (generation_of uuid) <> ls_generation <$> hp_stamp w ->
    replace_index_sync ms uuid w = (Err f, w') ->
    history Open (fun l => Q l \/ l = live_log w \/ l = encode_log ms) w'
| history_crash ph Q w w' : history ph Q w -> crashed w w' -> history Closed Q w'.

Definition history_inv (ph : phase) (Q : bytes -> Prop) (w : HybridPair) : Prop :=
  match ph with
  | Closed => safe Q w /\ at_rest w
  | Open => exists s, live Q w s
  | Lost => safe Q w
  end.

Lemma replace_any Q w s ms uuid :
  live Q w s -> replaceable (hp_header w) ms uuid -> generation_of uuid <> ls_generation s ->
  match replace_index_sync ms uuid w with
  | (Ok _, w') => exists n, live (fun l => l = encode_log ms) w' n
  | (Err _, w') => exists n, live (either Q w ms) w' n
  end.
Proof.
  intros Hl Hrep Hgen.
  assert (forall t, live (either Q w ms) (set_hscript w t) s) as Hkeep.
  { intros t. eapply live_mono; [|exact Hl]. by left. }
  destruct (hp_writable w) eqn:Hw; [destruct (verify_replacement (hp_header w) (f_size (hp_data w)) ms) as [[]|f] eqn:Hv|].
  - pose proof (attempt_result _ _ _ _ _ (replace_index_ok Q w s ms uuid Hl Hw Hrep Hv Hgen)) as H.
    destruct (replace_index_sync ms uuid w) as [[[]|f] w']; [destruct H as (n & _ & _ & H); by exists n|].
    destruct H as [_ [[H _]|(n & _ & H & _)]]; [by exists s|by exists n].
  - unfold replace_index_sync. rewrite Hw, (proj2 (Z.ltb_ge _ _)) by apply Hrep. cbn [negb].
    unfold mbind, io_bind, h_call, h_step, mbind, io_bind. destruct (next_outcome (hp_script w)) as [[|k e] t]; cbn.
    + unfold io_lift. rewrite Hv. exists s. apply Hkeep.
    + exists s. apply Hkeep.
  - unfold replace_index_sync. rewrite Hw. cbn. exists s. eapply live_mono; [|exact Hl]. by left.
Qed.

Lemma history_sound ph Q w : history ph Q w -> history_inv ph Q w.
Proof.
  induction 1 as [w Hrest Ha Hp|Q w uuid w' H IH Hpl Hg Hrun|Q w uuid f w' H IH Hpl Hg Hrun
    |Q w record w' H IH Hz Hroom Hrun|Q w record f w' H IH Hz Hroom Hrun|Q w w' H IH Hrun|Q w f w' H IH Hrun
    |Q w ms uuid w' H IH Hrep Hgen Hrun|Q w ms uuid f w' H IH Hrep Hgen Hrun|ph Q w w' H IH Hc]; cbn [history_inv] in *.
  - split; [|done]. apply (bare_safe _ w w). pose proof Hrest as (A1 & A2 & A3 & A4 & A5 & A6). by split_and!.
  - destruct IH as [Hs Hrest].
    pose proof (attempt_result _ _ _ _ _ (reopen_run Q w uuid (found Q w) Hs Hrest Hg (inspect_ok Q w Hs Hrest Hpl) ltac:(done))) as Hr.
    rewrite Hrun in Hr. destruct Hr as (r & s & _ & L & E & _). exists s. by rewrite E.
  - destruct IH as [Hs Hrest].
    pose proof (attempt_result _ _ _ _ _ (reopen_run Q w uuid (found Q w) Hs Hrest Hg (inspect_ok Q w Hs Hrest Hpl) ltac:(done))) as Hr.
    rewrite Hrun in Hr. apply Hr.
  - destruct IH as [s Hl]. pose proof Hl as (H1 & H2 & _). rewrite H2 in *.
    pose proof (attempt_result _ _ _ _ _ (append_record_ok Q w s record Hl Hz Hroom)) as Hr.
    rewrite Hrun in Hr. exists (advance s record). apply Hr.
  - destruct IH as [s Hl]. pose proof Hl as (H1 & H2 & _). rewrite H2 in *.
    pose proof (attempt_result _ _ _ _ _ (append_record_ok Q w s record Hl Hz Hroom)) as Hr.
    rewrite Hrun in Hr. eapply managed_safe, Hr.
  - destruct IH as [s Hl]. pose proof (attempt_result _ _ _ _ _ (flush_log_ok Q w s Hl)) as Hr.
    rewrite Hrun in Hr. exists s. apply Hr.
  - destruct IH as [s Hl]. pose proof (attempt_result _ _ _ _ _ (flush_log_ok Q w s Hl)) as Hr.
    rewrite Hrun in Hr. exists s. apply Hr.
  - destruct IH as [s Hl]. pose proof Hl as (H1 & _). rewrite H1 in Hgen.
    pose proof (replace_any Q w s ms uuid Hl Hrep ltac:(by intros E; apply Hgen; cbn; rewrite E)) as Hr.
    by rewrite Hrun in Hr.
  - destruct IH as [s Hl]. pose proof Hl as (H1 & _). rewrite H1 in Hgen.
    pose proof (replace_any Q w s ms uuid Hl Hrep ltac:(by intros E; apply Hgen; cbn; rewrite E)) as Hr.
    by rewrite Hrun in Hr.
  - apply (crash_safe Q w w'); [|done]. destruct ph; cbn in IH; [apply IH| |done].
    destruct IH as (s & _ & _ & _ & _ & M & _). by eapply managed_safe.
Qed.

Lemma no_faults_plain w : hp_script w = [] -> plain w.
Proof. intros E n e Hin. rewrite E in Hin. by apply not_elem_of_nil in Hin. Qed.


(** The process stops but not the machine: everything written is still there. *)
Definition exited (w w' : HybridPair) : Prop :=
  let f := ino_file (hp_index w) in
  hp_anchor w' = at_sync (hp_anchor w) /\ hp_index w' = Ino f (f_size f) (f_size f) (at_sync (ino_attr (hp_index w))) /\
  hp_former w' = [].

Section Exit.
Context (Q : bytes -> Prop) (w w' : HybridPair) (s : LogStamp) (Hl : live Q w s) (Hx : exited w w').

Lemma exit_at_rest : at_rest w'.
Proof.
  destruct Hl as (_ & _ & H3 & (S1 & _) & _). destruct Hx as (Ea & Ei & Ef). unfold at_rest. rewrite Ea, Ei, Ef. split_and!; try done.
  cbn. rewrite H3. by apply stamp_ok_bound.
Qed.

(** The committed stamp, and the stamp of the whole log. *)
Lemma exit_anchor : exists A c,
  at_value (hp_anchor w') = Some (encode A) /\ state_ok A /\ selected A (ls_generation s) = Some c /\
  kept (hp_index w') c /\ stamp_at (ino_file (hp_index w')) c /\ stamp_at (ino_file (hp_index w')) s /\
  Q (log_upto (ino_file (hp_index w')) (ls_bytes c)) /\ ls_bytes c <= ls_bytes s /\
  at_value (ino_attr (hp_index w')) = Some (encode (stable s)).
Proof.
  destruct Hl as (_ & _ & H3 & H4 & [(M1 & M2 & _) _] & M4). destruct Hx as (Ea & Ei & _).
  apply Forall_cons in M2 as [(A & c & Eav & HA & Hsel & Hk & HQ) _]. exists A, c.
  assert (ls_bytes c <= f_size (ino_file (hp_index w))) as Hcf by (destruct Hk as (_ & ? & _); destruct M1; lia).
  rewrite Ea, Ei. split; [exact Eav|]. split; [done|]. split; [done|].
  split; [by apply (kept_agree (hp_index w))|]. split; [exact (kept_at (hp_index w) c (proj2 (proj1 M1)) Hk)|].
  split; [exact H4|]. split; [exact HQ|]. split; [by rewrite <- H3|exact M4].
Qed.

Lemma exit_resumes : safe Q w' /\ found Q w' (Some s).
Proof.
  pose proof exit_at_rest as (R1 & R2 & R3 & R4 & R5 & R6). destruct Hx as (Ea & Ei & Ef).
  destruct exit_anchor as (A & c & E1 & E2 & E3 & E4 & E5 & E6 & E7 & E8 & E9). split.
  - intros i Hi. rewrite Ef in Hi. apply list_elem_of_singleton in Hi as ->. split.
    { split; [|lia]. apply bound_ok_range in R6. lia. }
    intros a p. unfold at_values. rewrite R1, R2. intros ->%list_elem_of_singleton ->%list_elem_of_singleton.
    right. right. exists (ls_generation s). split; [exists A, c; by split_and!|]. exists s. split_and!; try done. apply E6.
  - split; [exact E6|]. exists A, c. split_and!; try done. left. exists s. split_and!; try done. apply E6.
Qed.

Lemma exit_inspect :
  hp_script w' = [] -> attempt hp_script inspect_log_state w' (fun r w1 => same w' w1 /\ r = Some s) (same w').
Proof.
  intros Hs. destruct exit_anchor as (A & c & E1 & E2 & E3 & E4 & E5 & E6 & E7 & E8 & E9).
  pose proof exit_at_rest as (_ & _ & _ & _ & _ & R6).
  apply (inspect_run w' (Some A) (Some (stable s))); [by apply no_faults_plain|..].
  - rewrite E1. by apply encode_read.
  - rewrite E9. by apply encode_read, stable_ok, E6.
  - eapply computes_mono; [apply (inspect_committed _ A c s R6 E5 (proj1 E6) E3)|]. intros r ->.
    rewrite (proj2 (Z.leb_le _ _)) by done. cbn. unfold true_of. by rewrite (stamp_matches _ s).
Qed.

Lemma exit_log : recovered_log w' (Some s) = live_log w.
Proof. destruct Hl as (_ & H2 & _). destruct Hx as (_ & Ei & _). unfold recovered_log, live_log. rewrite Ei. cbn. by rewrite H2. Qed.
End Exit.

(** When only the process dies, no record is lost: reopening the pair
    succeeds with the log as it was, flushed or not. *)
Theorem hybrid_log_survives_exit Q w w' uuid :
  history Open Q w -> exited w w' -> hp_script w' = [] -> generation_ok uuid ->
  exists w'', reopen uuid w' = (Ok tt, w'') /\ live_log w'' = live_log w.
Proof.
  intros Hh Hx Hs Hg. destruct (history_sound _ _ _ Hh) as (s & Hl).
  destruct (exit_resumes Q w w' s Hl Hx) as [Hsafe Hf].
  destruct (attempt_succeeds _ _ _ _ _ (reopen_run Q w' uuid (fun r => r = Some s) Hsafe (exit_at_rest Q w w' s Hl Hx) Hg
    (exit_inspect Q w w' s Hl Hx Hs) ltac:(by intros r ->)) Hs) as ([] & w'' & Hrun & r & s' & -> & L & E & _).
  exists w''. split; [done|]. by rewrite E, (exit_log Q w w' s Hl Hx).
Qed.

(** ** An example history *)

Lemma run_ok {W A} (m : io W A) w a : fst (m w) = Ok a -> m w = (Ok a, snd (m w)).
Proof. destruct (m w). by intros <-. Qed.

(** A UUID [00112233-4455-4677-8899-aabbccddeeff]. *)
Definition example_uuid : bytes :=
  [48;48;49;49;50;50;51;51;45;52;52;53;53;45;52;54;55;55;45;56;56;57;57;45;97;97;98;98;99;99;100;100;101;101;102;102].
Lemma example_generation : generation_ok example_uuid.
Proof. split; [done|]. split; [|done]. vm_compute. repeat constructor; congruence. Qed.

(** A new pair: both headers and no records. *)
Definition example_new : HybridPair :=
  HP [] true no_header (File 4096 (fun _ => 0)) (Att None []) (Ino (File 4096 (fun _ => 0)) 4096 4096 (Att None [])) []
    None 4096 0.
Definition example_open := (reopen example_uuid example_new).2.
Definition record_a : bytes := encode_record (Seg 0 8 8 false 0).
Definition record_b : bytes := encode_record (Seg 8 8 16 false 0).
Definition example_one := (append_record record_a 4096 example_open).2.
Definition example_flushed := (flush_log example_one).2.
Definition example_two := (append_record record_b 4112 example_flushed).2.
(** The crash keeps the second record's progress mark and loses the record. *)
Definition example_crashed : HybridPair :=
  HP [] true no_header (File 4096 (fun _ => 0)) (Att (at_value (hp_anchor example_two)) [])
    (Ino (File 4112 (f_byte (ino_file (hp_index example_two)))) 4112 4112 (Att (at_value (ino_attr (hp_index example_two))) []))
    [] None 4112 0.

Lemma example_runs :
  reopen example_uuid example_new = (Ok tt, example_open) /\
  append_record record_a 4096 example_open = (Ok tt, example_one) /\ flush_log example_one = (Ok tt, example_flushed) /\
  append_record record_b 4112 example_flushed = (Ok tt, example_two).
Proof.
  split; [|split; [|split]]; [unfold example_open|unfold example_one|unfold example_flushed|unfold example_two];
    apply run_ok; vm_compute; reflexivity.
Qed.
Opaque example_open example_one example_flushed example_two.

Lemma example_ends : hp_index_bytes example_open = 4096 /\ hp_index_bytes example_flushed = 4112.
Proof. vm_compute. by split. Qed.

Lemma example_open_history : history Open (fun l => l = live_log example_open) example_open.
Proof.
  apply (history_open (fun l => l = recovered_log example_new None) example_new example_uuid).
  - apply history_import; [|done|done]. by split_and!.
  - by apply no_faults_plain.
  - apply example_generation.
  - destruct example_runs as (H & _). exact H.
Qed.
Lemma example_one_history : history Open (fun l => l = live_log example_open) example_one.
Proof.
  apply (history_append _ example_open record_a); [apply example_open_history|done| |];
    rewrite (proj1 example_ends); [vm_compute; reflexivity|].
  destruct example_runs as (_ & H & _). exact H.
Qed.
Lemma example_flushed_history : history Open (fun l => l = live_log example_one) example_flushed.
Proof.
  apply (history_flush (fun l => l = live_log example_open)); [apply example_one_history|].
  destruct example_runs as (_ & _ & H & _). exact H.
Qed.
Lemma example_two_history : history Open (fun l => l = live_log example_one) example_two.
Proof.
  apply (history_append _ example_flushed record_b); [apply example_flushed_history|done| |];
    rewrite (proj2 example_ends); [vm_compute; reflexivity|].
  destruct example_runs as (_ & _ & _ & H). exact H.
Qed.


(** The process exits with the first record unflushed. *)
Definition example_exited : HybridPair :=
  HP [] true no_header (File 4096 (fun _ => 0)) (at_sync (hp_anchor example_one))
    (Ino (ino_file (hp_index example_one)) (f_size (ino_file (hp_index example_one))) (f_size (ino_file (hp_index example_one)))
       (at_sync (ino_attr (hp_index example_one)))) [] None 4112 0.
Lemma hybrid_log_survives_exit_witness :
  exists w'', reopen example_uuid example_exited = (Ok tt, w'') /\ live_log w'' = live_log example_one.
Proof.
  apply (hybrid_log_survives_exit (fun l => l = live_log example_open)); [|by split_and!|done|apply example_generation].
  apply example_one_history.
Defined.
