(* ===== verification/HybridWriter.v ===== *)
(** * The Hybrid writer ([format/hybrid_writer.{hpp,cpp}])

    [Writer] over an open Hybrid pair: reads, writes and discards through the
    mapping list, reuse of the payload that ZERO mappings own, the compaction
    that replaces the log, flush and checkpoint.  The shared mutex makes the
    operations serial, so each is a function of the state.  The fault stages of
    the test hooks are left out; failing system calls are the script's. *)
From S2P Require Import Prelude Bytes LsmtFormat Source File Segments Merge Trim Lsmt Journal FilePair HybridFormat HybridLog.

Open Scope Z_scope.

Record HybridWriter := HW {
  hw_pair : HybridPair;
  hw_mappings : list segment_mapping;
  hw_virtual_size : Z;
  hw_data_end : Z;
  hw_index_end : Z;
  hw_failed : bool;
  hw_sealed : bool;
  hw_checkpointed : bool;
  hw_uuids : Z;                     (* UUIDs generated so far *)
}.

Definition set_hpair (w : HybridWriter) (p : HybridPair) : HybridWriter :=
  HW p (hw_mappings w) (hw_virtual_size w) (hw_data_end w) (hw_index_end w) (hw_failed w) (hw_sealed w)
    (hw_checkpointed w) (hw_uuids w).
Definition set_mappings (w : HybridWriter) (l : list segment_mapping) (index_end : Z) : HybridWriter :=
  HW (hw_pair w) l (hw_virtual_size w) (hw_data_end w) index_end (hw_failed w) (hw_sealed w)
    (hw_checkpointed w) (hw_uuids w).
Definition set_hdata_end (w : HybridWriter) (n : Z) : HybridWriter :=
  HW (hw_pair w) (hw_mappings w) (hw_virtual_size w) n (hw_index_end w) (hw_failed w) (hw_sealed w)
    (hw_checkpointed w) (hw_uuids w).
Definition set_hfailed (w : HybridWriter) : HybridWriter :=
  HW (hw_pair w) (hw_mappings w) (hw_virtual_size w) (hw_data_end w) (hw_index_end w) true (hw_sealed w)
    (hw_checkpointed w) (hw_uuids w).
Definition set_hcheckpointed (w : HybridWriter) : HybridWriter :=
  HW (hw_pair w) (hw_mappings w) (hw_virtual_size w) (hw_data_end w) (hw_index_end w) (hw_failed w) (hw_sealed w)
    true (hw_uuids w).
Definition next_uuid (w : HybridWriter) : HybridWriter :=
  HW (hw_pair w) (hw_mappings w) (hw_virtual_size w) (hw_data_end w) (hw_index_end w) (hw_failed w) (hw_sealed w)
    (hw_checkpointed w) (hw_uuids w + 1).

(** The payload file of the pair. *)
Definition set_hdata (p : HybridPair) (f : file) : HybridPair :=
  HP (hp_script p) (hp_writable p) (hp_header p) f (hp_anchor p) (hp_index p) (hp_former p) (hp_stamp p)
    (hp_index_bytes p) (hp_generation p).
Definition data_write (bs : bytes) (off : Z) : io HybridPair unit :=
  o ← h_step;
  io_run (fun p => match o with
                   | Done => (Ok tt, set_hdata p (file_write (hp_data p) off bs))
                   | Failed k e => (Err (Errno e), set_hdata p (file_write (hp_data p) off (partial k bs)))
                   end).
Definition data_read (off n : Z) : io HybridPair bytes := fun p => h_read (hp_data p) off n p.

(** Runs an operation of the pair; an error of [sure] leaves the outcome of
    the IO uncertain and fails the writer. *)
Definition on_hpair {A} (m : io HybridPair A) : io HybridWriter A := fun w =>
  let '(r, p) := m (hw_pair w) in (r, set_hpair w p).
Definition sure {A} (m : io HybridWriter A) : io HybridWriter A := fun w =>
  match m w with (Ok a, w) => (Ok a, w) | (Err f, w) => (Err f, set_hfailed w) end.

(** ** Construction *)

Definition writer_new (pair : HybridPair) (mappings : list segment_mapping) : res HybridWriter :=
  if negb (hp_writable pair) then Err (Errno EINVAL)
  else Ok (HW pair mappings (ht_virtual_size (hp_header pair)) (f_size (hp_data pair)) (hp_index_bytes pair)
             false false false 0).

Definition writer_snapshot (w : HybridWriter) : res (list segment_mapping) :=
  if hw_failed w then Err (Errno EIO) else Ok (hw_mappings w).

(** ** Reading *)

Fixpoint read_mappings (start end_ : Z) (mappings : list segment_mapping) (output : bytes) : io HybridWriter bytes :=
  match mappings with
  | [] => mret output
  | m :: mappings =>
      if seg_end m <=? start then read_mappings start end_ mappings output else
      if end_ <=? s_offset m then mret output else
      if s_zeroed m then read_mappings start end_ mappings output else
      let first := Z.max start (s_offset m) in
      let last := Z.min end_ (seg_end m) in
      bs ← on_hpair (data_read ((s_moffset m + first - s_offset m) * 512) ((last - first) * 512));
      read_mappings start end_ mappings (put output ((first - start) * 512) bs)
  end.
Definition writer_pread (count offset : Z) : io HybridWriter bytes := fun w =>
  if negb (offset mod 512 =? 0) || negb (count mod 512 =? 0) then (Err (Errno EINVAL), w) else
  if hw_failed w then (Err (Errno EIO), w) else
  if hw_virtual_size w <=? offset then (Ok [], w) else
  let count := Z.min count (hw_virtual_size w - offset) in
  if count =? 0 then (Ok [], w) else
  read_mappings (offset / 512) ((offset + count) / 512) (hw_mappings w) (zeros count) w.

Definition writer_pread_physical (count offset : Z) : io HybridWriter bytes := fun w =>
  if hw_failed w then (Err (Errno EIO), w) else
  if hw_data_end w <=? offset then (Ok [], w) else
  let count := Z.min count (hw_data_end w - offset) in
  if count =? 0 then (Ok [], w) else
  on_hpair (data_read offset count) w.

(** ** Replacing a range of the mappings *)

Definition hybrid_cut_one (update m : segment_mapping) : list segment_mapping :=
  if (seg_end m <=? s_offset update) || (seg_end update <=? s_offset m) then [m] else hybrid_trim update m.
Definition mappings_replace (old : list segment_mapping) (update : segment_mapping) : res (list segment_mapping) :=
  let next := sort_by_offset (concat (hybrid_cut_one update <$> old) ++ [update]) in
  if kMaxRoIndexSize <? zlen next then Err (Errno ENOSPC) else Ok next.

(** ** Compaction *)

Definition kInt64Max : Z := 2 ^ 63 - 1.

(** Backing for every ZERO mapping that owns none. *)
Fixpoint reserve (compacted : list segment_mapping) : io HybridWriter (list segment_mapping) :=
  match compacted with
  | [] => mret []
  | m :: compacted =>
      if negb (s_zeroed m) || negb (s_moffset m =? kNoPhysicalOffset) then
        rest ← reserve compacted; mret (m :: rest)
      else fun w =>
        let count := s_length m * 512 in
        if kInt64Max - count <? hw_data_end w then (Err (Errno EFBIG), w) else
        (_ ← sure (on_hpair (data_write (zeros count) (hw_data_end w)));
         _ ← io_run (fun w => (Ok tt, set_hdata_end w (hw_data_end w + count)));
         rest ← reserve compacted;
         mret (Seg (s_offset m) (s_length m) (hw_data_end w / 512) (s_zeroed m) (s_tag m) :: rest)) w
  end.

Definition joins (previous m : segment_mapping) : bool :=
  (seg_end previous =? s_offset m) && eqb (s_zeroed previous) (s_zeroed m) &&
  (s_moffset previous + s_length previous =? s_moffset m) && (s_length m <=? kMaxLength - s_length previous).
Fixpoint coalesce_from (previous : segment_mapping) (l : list segment_mapping) : list segment_mapping :=
  match l with
  | [] => [previous]
  | m :: l =>
      if joins previous m then coalesce_from (with_length previous (s_length previous + s_length m)) l
      else previous :: coalesce_from m l
  end.
Definition coalesce (l : list segment_mapping) : list segment_mapping :=
  match l with [] => [] | m :: l => coalesce_from m l end.

Section Writer.
(** The UUIDs the generator gives out. *)
Context (uuid : Z -> bytes).

(** The replacement of the log; the writer follows the pair's index. *)
Definition install_compacted (compacted : list segment_mapping) : io HybridWriter unit := fun w =>
  let generation := hp_generation (hw_pair w) in
  let '(r, w) := on_hpair (replace_index_sync compacted (uuid (hw_uuids w))) w in
  let w := next_uuid w in
  (r, if hp_generation (hw_pair w) =? generation then w
      else set_mappings w compacted (hp_index_bytes (hw_pair w))).
Definition compact_locked : io HybridWriter unit := fun w =>
  (reserved ← reserve (hw_mappings w); install_compacted (coalesce reserved)) w.

Definition writer_compact : io HybridWriter unit := fun w =>
  if hw_failed w then (Err (Errno EIO), w) else
  if hw_sealed w || hw_checkpointed w then (Err (Errno EROFS), w) else
  compact_locked w.

(** ** Writing and discarding *)

(** Where a change of [length] sectors from [sector] goes. *)
Record Target := Tgt {
  tg_mapping : segment_mapping;
  tg_covered_zero : bool;           (* covered by a ZERO mapping *)
  tg_backed : bool;
  tg_transition : bool;
}.
Definition target (w : HybridWriter) (sector sectors_left : Z) (zero : bool) : Target :=
  let it := hw_mappings w !! upper_bound (fun m => sector <? seg_end m) (hw_mappings w) in
  let covered := match it with Some m => s_offset m <=? sector | None => false end in
  let boundary := match it with
                  | Some m => if covered then seg_end m else s_offset m
                  | None => hw_virtual_size w / 512
                  end in
  let length := u32 (Z.min (Z.min (boundary - sector) sectors_left) kMaxLength) in
  let backed := covered && match it with Some m => negb (s_moffset m =? kNoPhysicalOffset) | None => false end in
  let physical := match it with
                  | Some m => if backed then s_moffset m + sector - s_offset m else hw_data_end w / 512
                  | None => hw_data_end w / 512
                  end in
  let zeroed := match it with Some m => s_zeroed m | None => false end in
  Tgt (Seg sector length physical zero 0) (covered && zeroed) backed
    (negb covered || negb (eqb zeroed zero) || negb backed).

(** The payload, then the record with its progress. *)
Definition change (t : Target) (zero : bool) (bs : bytes) : io HybridWriter unit := fun w =>
  let m := tg_mapping t in
  sure (_ ← (if negb zero || negb (tg_backed t)
             then on_hpair (data_write bs (s_moffset m * 512)) else mret tt);
        if tg_transition t then on_hpair (append_record (encode_record m) (hw_index_end w)) else mret tt) w.

(** One pass of the loop: how many bytes it has done. *)
Definition compact_if_long : io HybridWriter unit := fun w =>
  if Z.max 4096 (2 * zlen (hw_mappings w) + 16) <=? (hw_index_end w - kSpace) / 16
  then compact_locked w else (Ok tt, w).
Definition modify_extent (buffer : bytes) (count offset done : Z) (zero : bool) : io HybridWriter Z := fun w =>
    let t := target w ((offset + done) / 512) ((count - done) / 512) zero in
    let m := tg_mapping t in
    let size := s_length m * 512 in
    if zero && tg_covered_zero t && tg_backed t then (Ok (done + size), w) else
    if tg_transition t && (kMaxLogRecords <=? (hw_index_end w - kSpace) / 16) then (Err (Errno ENOSPC), w) else
    if negb (tg_backed t) && (kInt64Max - size <? hw_data_end w) then (Err (Errno EFBIG), w) else
    (next ← io_lift (if tg_transition t then mappings_replace (hw_mappings w) m else Ok []);
     _ ← change t zero (if zero then zeros size else sub done size buffer);
     _ ← io_run (fun w => (Ok tt, if tg_backed t then w else set_hdata_end w (hw_data_end w + size)));
     _ ← io_run (fun w => (Ok tt, if tg_transition t then set_mappings w next (hw_index_end w + 16) else w));
     mret (done + size)) w.
Definition modify_step (buffer : bytes) (count offset done : Z) (zero : bool) : io HybridWriter Z :=
  _ ← compact_if_long; modify_extent buffer count offset done zero.
Fixpoint modify_loop (fuel : nat) (buffer : bytes) (count offset done : Z) (zero : bool) : io HybridWriter Z :=
  if done <? count then
    match fuel with
    | O => io_fail Fuel
    | S fuel => done ← modify_step buffer count offset done zero; modify_loop fuel buffer count offset done zero
    end
  else mret done.
Definition modify (buffer : bytes) (count offset : Z) (zero : bool) : io HybridWriter Z := fun w =>
  if negb (offset mod 512 =? 0) || negb (count mod 512 =? 0) || (hw_virtual_size w <? offset) ||
     (hw_virtual_size w - offset <? count)
  then (Err (Errno EINVAL), w) else
  if hw_failed w then (Err (Errno EIO), w) else
  if hw_sealed w || hw_checkpointed w then (Err (Errno EROFS), w) else
  modify_loop (Z.to_nat count) buffer count offset 0 zero w.

Definition writer_pwrite (buffer : bytes) (offset : Z) : io HybridWriter Z := modify buffer (zlen buffer) offset false.
Definition writer_discard (offset count : Z) : io HybridWriter unit := _ ← modify [] count offset true; mret tt.
End Writer.

(** ** Flush and checkpoint *)

Definition writer_flush : io HybridWriter unit := fun w =>
  if hw_failed w then (Err (Errno EIO), w) else on_hpair flush_log w.
Definition writer_checkpoint : io HybridWriter unit := fun w =>
  if hw_failed w then (Err (Errno EIO), w) else
  if hw_sealed w || hw_checkpointed w then (Err (Errno EROFS), w) else
  (_ ← on_hpair flush_log; io_run (fun w => (Ok tt, set_hcheckpointed w))) w.
