(* ===== verification/HybridMappings.v ===== *)
(** * The mapping list of the Hybrid writer

    The mapping list that [HybridWriter] keeps is followed through two views of
    it, what each sector reads as and which payload it owns: replacing a range,
    coalescing, what a log of records replays to, and the compacted lists that
    [verify_replacement] takes. *)
From stdpp Require Import sets sorting.
From S2P Require Import Prelude Bytes Crc32c LsmtFormat Source File Segments Merge Trim Lsmt Journal FilePair Writer HybridFormat HybridLog HybridCrash HybridWriter.

Open Scope Z_scope.

(** ** Views of a mapping list *)

(** A view keeps where a mapping is and commutes with trimming it. *)
Record view (phi : segment_mapping -> segment_mapping) (good : segment_mapping -> Prop) : Prop := {
  view_offset : forall m, s_offset (phi m) = s_offset m;
  view_end : forall m, seg_end (phi m) = seg_end m;
  view_head : forall m lo, good m ->
    phi (Seg (s_offset m) (u32 (lo - s_offset m)) (s_moffset m) (s_zeroed m) (s_tag m)) = trim_head lo (phi m);
  view_tail : forall m hi, good m -> s_offset m < hi < seg_end m -> phi (suffix m hi) = trim_tail hi (phi m);
}.

Section View.
Context (phi : segment_mapping -> segment_mapping) (good : segment_mapping -> Prop) (Hv : view phi good).

Lemma view_cut_one u m :
  good m -> s_offset m < seg_end m -> s_offset u < seg_end u ->
  phi <$> hybrid_cut_one u m = cut_one (s_offset u) (seg_end u) (phi m).
Proof.
  intros Hm Hlen Hu. unfold hybrid_cut_one, cut_one. rewrite (view_end _ _ Hv), (view_offset _ _ Hv).
  destruct (_ || _) eqn:E; [done|]. apply orb_false_iff in E as [E1%Z.leb_gt E2%Z.leb_gt].
  unfold hybrid_trim, trim. rewrite (view_end _ _ Hv), (view_offset _ _ Hv), fmap_app. f_equal.
  - destruct (Z.ltb_spec (s_offset m) (s_offset u)); [|done]. cbn [fmap list_fmap]. by rewrite (view_head _ _ Hv).
  - destruct (Z.ltb_spec (seg_end u) (seg_end m)); [|done]. cbn [fmap list_fmap]. by rewrite (view_tail _ _ Hv) by (done || lia).
Qed.
Lemma view_cut u l :
  Forall good l -> Forall (fun m => s_offset m < seg_end m) l -> s_offset u < seg_end u ->
  phi <$> concat (hybrid_cut_one u <$> l) = cut (s_offset u) (seg_end u) (phi <$> l).
Proof.
  intros Hg Hl Hu. induction l as [|m l IH]; [done|]. apply Forall_cons in Hg as [Hm Hg]. apply Forall_cons in Hl as [Hm' Hl].
  rewrite !fmap_cons. cbn [concat cut]. by rewrite fmap_app, view_cut_one, IH.
Qed.
Lemma view_emplace l m : phi <$> emplace l m = emplace (phi <$> l) (phi m).
Proof.
  induction l as [|s l IH]; [done|]. rewrite fmap_cons. cbn [emplace]. rewrite !(view_offset _ _ Hv).
  destruct (_ <? _); [done|]. destruct (_ =? _); [done|]. by rewrite fmap_cons, IH.
Qed.
End View.

Lemma view_normal : view normal movable.
Proof.
  split; [done|done|done|]. intros m hi Hm _. by apply suffix_normal.
Qed.

(** Which payload a mapping owns, whatever it reads as. *)
Definition claim (m : segment_mapping) : segment_mapping :=
  Seg (s_offset m) (s_length m) (s_moffset m) (s_moffset m =? kNoPhysicalOffset) (s_tag m).
Definition claimable (m : segment_mapping) : Prop :=
  seg_end m = fin m /\ 0 < s_length m <= kMaxLength /\ 0 <= s_offset m <= kMaxOffset /\
  (s_moffset m = kNoPhysicalOffset \/ 0 <= s_moffset m /\ s_moffset m + s_length m <= kNoPhysicalOffset).

Lemma view_claim : view claim claimable.
Proof.
  split; [done|done|done|]. intros m hi (He & Hl & Ho & Hm) Hhi. rewrite He in Hhi. unfold fin in *.
  unfold claim, suffix, trim_tail. cbn [s_offset s_length s_moffset s_zeroed s_tag].
  change (seg_end (Seg _ _ _ _ _)) with (seg_end m). rewrite He, u32_sub_u32. unfold fin.
  unfold kNoPhysicalOffset, kMaxMoffset, kMaxOffset, kMaxLength in *.
  f_equal; [f_equal; lia|..].
  - destruct (Z.eqb_spec (s_moffset m) (2 ^ 55 - 1)); cbn [negb]; [done|].
    destruct Hm as [?|Hm]; [done|]. rewrite u64_small by lia. done.
  - destruct (Z.eqb_spec (s_moffset m) (2 ^ 55 - 1)) as [->|]; cbn [negb]; [done|].
    destruct Hm as [?|Hm]; [done|]. rewrite u64_small by lia. rewrite (proj2 (Z.eqb_neq _ _)) by lia. done.
Qed.

(** ** The sort is an insertion *)

Lemma sort_snoc k u :
  StronglySorted (fun a b => s_offset a < s_offset b) k -> Forall (fun m => s_offset m <> s_offset u) k ->
  sort_by_offset (k ++ [u]) = emplace k u.
Proof.
  intros Hs Hne. induction Hs as [|a k Hs IH Ha]; [done|]. apply Forall_cons in Hne as [Hau Hne].
  change (sort_by_offset ((a :: k) ++ [u])) with (insert_by_offset a (sort_by_offset (k ++ [u]))). rewrite IH by done.
  cbn [emplace]. rewrite (proj2 (Z.eqb_neq _ _)) by lia. destruct (Z.ltb_spec (s_offset u) (s_offset a)) as [Hlt|Hge].
  - assert (emplace k u = u :: k) as ->.
    { destruct k as [|b k]; [done|]. apply Forall_cons in Ha as [Hb _]. cbn [emplace].
      by rewrite (proj2 (Z.ltb_lt _ _)) by lia. }
    cbn [insert_by_offset]. rewrite (proj2 (Z.leb_gt _ _)) by lia. f_equal.
    destruct k as [|b k]; [done|]. apply Forall_cons in Ha as [Hb _]. cbn [insert_by_offset].
    by rewrite (proj2 (Z.leb_le _ _)) by lia.
  - assert (Forall (fun m => s_offset a < s_offset m) (emplace k u)) as Hall by (apply emplace_forall; [lia|done]).
    destruct (emplace k u) as [|b r]; [done|]. apply Forall_cons in Hall as [Hb _]. cbn [insert_by_offset].
    by rewrite (proj2 (Z.leb_le _ _)) by lia.
Qed.

Lemma index_ok_strict z l : index_ok z l -> StronglySorted (fun a b => s_offset a < s_offset b) l.
Proof.
  revert z. induction l as [|m l IH]; intros z Hl; [constructor|]. apply index_ok_cons in Hl as (Hm & Hz & Hl).
  constructor; [by eapply IH|]. eapply Forall_impl; [by apply index_ok_starts|]. simpl. intros s Hs.
  destruct Hm as (_ & ? & _). unfold fin in *. lia.
Qed.
Lemma strict_normal l :
  StronglySorted (fun a b => s_offset a < s_offset b) (normal <$> l) ->
  StronglySorted (fun a b => s_offset a < s_offset b) l.
Proof.
  induction l as [|m l IH]; intros H; [constructor|]. rewrite fmap_cons in H. apply StronglySorted_inv in H as [H1 H2].
  constructor; [auto|]. by rewrite Forall_fmap in H2.
Qed.

(** ** Mapping lists of a writer *)

Record owned_index (sectors d : Z) (l : list segment_mapping) : Prop := {
  oi_index : index_ok 0 l;
  oi_untagged : Forall untagged l;
  oi_bound : Forall (fun m => fin m <= sectors) l;
  oi_owned : Forall (fun m => s_moffset m = kNoPhysicalOffset /\ s_zeroed m = true \/
                       kDataStartSector <= s_moffset m /\ s_moffset m + s_length m <= d) l;
  oi_exclusive : phys_inj (claim <$> l);
}.

Section Owned.
Context (sectors d : Z) (Hs : 0 <= sectors <= kMaxOffset) (Hd : kDataStartSector <= d < kMaxMoffset).

Lemma owned_elem l m :
  owned_index sectors d l -> m ∈ l -> seg_ok m /\ untagged m /\ fin m <= sectors /\
  (s_moffset m = kNoPhysicalOffset /\ s_zeroed m = true \/
   s_moffset m <> kNoPhysicalOffset /\ kDataStartSector <= s_moffset m /\ s_moffset m + s_length m <= d).
Proof.
  intros [[H1 _] H2 H3 H4 _] Hin. rewrite Forall_forall in *. specialize (H1 m Hin). split; [done|].
  split; [auto|]. split; [by apply H3|]. destruct (H4 m Hin) as [?|[? ?]]; [by left|right]. split; [|done].
  destruct H1 as (_ & ? & _). unfold kNoPhysicalOffset. lia.
Qed.
Lemma owned_movable l : owned_index sectors d l -> Forall movable l /\ Forall claimable l /\ Forall (fun m => s_offset m < seg_end m) l.
Proof.
  intros Hl. rewrite !Forall_forall. split_and!; intros m Hin; destruct (owned_elem l m Hl Hin) as (H1 & H2 & H3 & H4);
    pose proof H1 as (G1 & G2 & G3 & G4 & G5); pose proof (seg_ok_end m H1) as He.
  - split; [done|]. intros Hz. destruct H4 as [[_ ?]|[? _]]; [congruence|done].
  - split; [done|]. split; [done|]. split; [done|]. change kDataStartSector with 8 in *. unfold kNoPhysicalOffset.
    destruct H4 as [[? _]|(? & ? & ?)]; [by left|right; lia].
  - rewrite He. unfold fin. lia.
Qed.
Lemma claim_seg_ok m :
  seg_ok m -> (s_moffset m = kNoPhysicalOffset \/ kDataStartSector <= s_moffset m /\ s_moffset m + s_length m <= d) ->
  seg_ok (claim m).
Proof.
  intros (G1 & G2 & G3 & G4 & G5) Hm. split_and!; cbn; try lia. intros Hz%Z.eqb_neq.
  unfold kMaxMoffset in Hd. destruct Hm as [?|Hm]; [done|lia].
Qed.
Lemma sorted_claim lo l : sorted_from lo (claim <$> l) <-> sorted_from lo l.
Proof. revert lo. induction l as [|m l IH]; intros lo; simpl; [done|]. by rewrite IH. Qed.
Lemma normal_seg_ok m : seg_ok m -> seg_ok (normal m).
Proof.
  intros (G1 & G2 & G3 & G4 & G5). split_and!; cbn; try lia; destruct (s_zeroed m); done || lia.
Qed.
Lemma owned_views l : owned_index sectors d l -> index_ok 0 (normal <$> l) /\ index_ok 0 (claim <$> l).
Proof.
  intros Hl. pose proof (oi_index _ _ _ Hl) as [H1 H2]. split; split.
  - rewrite Forall_fmap. eapply Forall_impl; [exact H1|]. apply normal_seg_ok.
  - by apply sorted_normal.
  - rewrite Forall_fmap, Forall_forall. intros m Hin. destruct (owned_elem l m Hl Hin) as (H3 & _ & _ & H4).
    apply claim_seg_ok; [done|]. destruct H4 as [[? _]|(_ & ?)]; auto.
  - by apply sorted_claim.
Qed.
End Owned.

(** A part of a mapping. *)
Definition piece (m' m : segment_mapping) : Prop :=
  s_zeroed m' = s_zeroed m /\ s_tag m' = s_tag m /\ s_offset m <= s_offset m' /\ 0 < s_length m' /\ fin m' <= fin m /\
  s_moffset m' = if s_moffset m =? kNoPhysicalOffset then kNoPhysicalOffset else s_moffset m + (s_offset m' - s_offset m).

Lemma cut_one_pieces u m m' :
  claimable m -> seg_end u = fin u -> 0 < s_length u -> m' ∈ hybrid_cut_one u m -> piece m' m.
Proof.
  intros (He & Hl & Ho & Hm) Hue Hul Hin. unfold hybrid_cut_one in Hin. rewrite He, Hue in Hin. unfold fin in *.
  unfold kMaxLength, kMaxOffset, kNoPhysicalOffset, kMaxMoffset in *.
  destruct (_ || _) eqn:E.
  { apply list_elem_of_singleton in Hin as ->. unfold piece, fin, kNoPhysicalOffset, kMaxMoffset. split_and!; try done; try lia.
    destruct (Z.eqb_spec (s_moffset m) (2 ^ 55 - 1)); lia. }
  apply orb_false_iff in E as [E1%Z.leb_gt E2%Z.leb_gt].
  unfold hybrid_trim in Hin. rewrite He, Hue in Hin. unfold fin in *. apply elem_of_app in Hin as [Hin|Hin].
  - destruct (Z.ltb_spec (s_offset m) (s_offset u)); [|by apply not_elem_of_nil in Hin].
    apply list_elem_of_singleton in Hin as ->. unfold piece, fin, kNoPhysicalOffset, kMaxMoffset. cbn [s_zeroed s_tag s_offset s_length s_moffset].
    rewrite u32_small by lia. split_and!; try done; try lia. destruct (Z.eqb_spec (s_moffset m) (2 ^ 55 - 1)); lia.
  - destruct (Z.ltb_spec (s_offset u + s_length u) (s_offset m + s_length m)); [|by apply not_elem_of_nil in Hin].
    apply list_elem_of_singleton in Hin as ->. unfold piece, suffix, fin, kNoPhysicalOffset, kMaxMoffset.
    cbn [s_zeroed s_tag s_offset s_length s_moffset]. rewrite u32_sub_u32, u32_small by lia.
    split_and!; try done; try lia. destruct (Z.eqb_spec (s_moffset m) (2 ^ 55 - 1)) as [->|]; cbn [negb]; [done|].
    destruct Hm as [?|Hm]; [done|]. rewrite u64_small by lia. lia.
Qed.

Lemma piece_ok sectors d m m' :
  seg_ok m -> untagged m -> fin m <= sectors ->
  (s_moffset m = kNoPhysicalOffset /\ s_zeroed m = true \/
   s_moffset m <> kNoPhysicalOffset /\ kDataStartSector <= s_moffset m /\ s_moffset m + s_length m <= d) ->
  d < kMaxMoffset -> 0 <= sectors <= kMaxOffset -> piece m' m ->
  seg_ok m' /\ untagged m' /\ fin m' <= sectors /\
  (s_moffset m' = kNoPhysicalOffset /\ s_zeroed m' = true \/
   kDataStartSector <= s_moffset m' /\ s_moffset m' + s_length m' <= d).
Proof.
  intros (G1 & G2 & G3 & G4 & G5) Hu Hf Hm Hd Hs (P1 & P2 & P3 & P4 & P5 & P6). unfold untagged, fin in *.
  unfold kNoPhysicalOffset, kMaxMoffset, kMaxOffset, kMaxLength in *. change kDataStartSector with 8 in *.
  split; [|split; [congruence|split; [lia|]]].
  - unfold seg_ok, kMaxOffset, kMaxLength. rewrite P1, P2, P6.
    destruct Hm as [[Hm Hz]|(Hm & H1 & H2)].
    + rewrite Hm, Hz. cbn. repeat split; lia || done.
    + rewrite (proj2 (Z.eqb_neq _ _)) by done. repeat split; lia.
  - rewrite P1, P6. destruct Hm as [[Hm Hz]|(Hm & H1 & H2)].
    + left. by rewrite Hm.
    + right. rewrite (proj2 (Z.eqb_neq _ _)) by done. lia.
Qed.

Lemma cut_ordered z l u :
  index_ok z l -> z <= s_offset u -> seg_ok u -> fin u <= kMaxOffset ->
  let k := cut (s_offset u) (fin u) l in
  StronglySorted (fun a b => s_offset a < s_offset b) k /\ Forall (fun m => s_offset m <> s_offset u) k.
Proof.
  intros Hl Hz Hu Hf. destruct (cut_insert z l u Hl Hz Hu Hf) as (L & R & Hc & HL & He & HR & _). cbv zeta. rewrite Hc.
  pose proof Hu as (_ & Hlen & _). split.
  - apply (index_ok_strict z). apply index_ok_app. split; [done|]. eapply index_ok_mono; [|exact HR]. unfold fin. lia.
  - apply Forall_app. split.
    + pose proof (index_ok_ends _ _ HL) as Hends. destruct HL as [HLo _]. rewrite Forall_forall in *.
      intros m Hm Heq. specialize (Hends m Hm). destruct (HLo m Hm) as (_ & ? & _). simpl in Hends. unfold fin in Hends. lia.
    + pose proof (index_ok_starts _ _ HR) as Hst. rewrite Forall_forall in *. intros m Hm Heq.
      specialize (Hst m Hm). simpl in Hst. unfold fin in Hst. lia.
Qed.

Lemma replaces_inj l u l' d :
  replaces (claim <$> l) (claim u) (claim <$> l') -> s_moffset u <> kNoPhysicalOffset -> untagged u ->
  phys_inj (claim <$> l) -> (forall x t p, resolve (claim <$> l) x = Data t p -> p < d) ->
  (d <= s_moffset u \/ forall x, s_offset u <= x < fin u -> resolve (claim <$> l) x = Data 0 (s_moffset u + (x - s_offset u))) ->
  phys_inj (claim <$> l').
Proof.
  intros Hrep Hnp Hut Hinj Hlt Hcase.
  assert (forall x, resolve [claim u] x = if covers u x then Data 0 (s_moffset u + (x - s_offset u)) else Hole) as Hu.
  { intros x. cbn. change (covers (claim u) x) with (covers u x). unfold seg_cell, claim. cbn.
    rewrite (proj2 (Z.eqb_neq _ _)) by done. unfold untagged in Hut. by rewrite Hut. }
  destruct Hcase as [Hfresh|Hsame].
  - intros x y t t' p. rewrite !Hrep, !Hu. destruct (covers u x) eqn:Cx, (covers u y) eqn:Cy; cbn [over].
    + intros [= _ <-] [= _ E]. apply covers_true in Cx, Cy. lia.
    + intros [= _ <-] Hy. apply Hlt in Hy. apply covers_true in Cx. lia.
    + intros Hx [= _ <-]. apply Hlt in Hx. apply covers_true in Cy. lia.
    + apply Hinj.
  - assert (forall x, resolve (claim <$> l') x = resolve (claim <$> l) x) as Heq.
    { intros x. rewrite Hrep, Hu. destruct (covers u x) eqn:C; [|done]. cbn [over]. rewrite Hsame; [done|]. by apply covers_true. }
    intros x y t t' p. rewrite !Heq. apply Hinj.
Qed.

Section Replaced.
Context (sectors d d' : Z) (Hs : 0 <= sectors <= kMaxOffset) (Hd : kDataStartSector <= d < kMaxMoffset).
Context (Hd' : d <= d' < kMaxMoffset) (l : list segment_mapping) (u : segment_mapping) (Hl : owned_index sectors d l).
Context (Hu : seg_ok u) (Hut : untagged u) (Huf : fin u <= sectors).
Context (Hum : kDataStartSector <= s_moffset u /\ s_moffset u + s_length u <= d').
Context (Hcase : d <= s_moffset u \/
  forall x, s_offset u <= x < fin u -> resolve (claim <$> l) x = Data 0 (s_moffset u + (x - s_offset u))).

Let k := concat (hybrid_cut_one u <$> l).

Lemma replaced_backed : s_moffset u <> kNoPhysicalOffset.
Proof. destruct Hu as (_ & ? & _). unfold kNoPhysicalOffset. lia. Qed.

Lemma owned_below x t p : resolve (claim <$> l) x = Data t p -> p < d.
Proof.
  intros (c & Hin & Hz & Hx & ->)%resolve_data_inv. apply list_elem_of_fmap in Hin as (m & -> & Hin).
  destruct (owned_elem sectors d Hd l m Hl Hin) as (_ & _ & _ & [[E _]|(_ & _ & Hle)]).
  - unfold claim in Hz. cbn in Hz. rewrite E, Z.eqb_refl in Hz. done.
  - unfold claim, fin in *. cbn in *. lia.
Qed.

Lemma replaced_views :
  normal <$> k = cut (s_offset u) (fin u) (normal <$> l) /\ claim <$> k = cut (s_offset u) (fin u) (claim <$> l).
Proof.
  pose proof Hu as (_ & ? & _). pose proof (seg_ok_end u Hu) as He.
  destruct (owned_movable sectors d Hd l Hl) as (M1 & M2 & M3). rewrite <- He.
  assert (s_offset u < seg_end u) by (rewrite He; unfold fin; lia).
  split; [by apply (view_cut _ _ view_normal)|by apply (view_cut _ _ view_claim)].
Qed.

Lemma replaced_sorted : sort_by_offset (k ++ [u]) = emplace k u.
Proof.
  destruct replaced_views as [Hn _]. destruct (owned_views sectors d Hd l Hl) as [Hi _].
  pose proof Hu as ((? & _) & _).
  destruct (cut_ordered 0 (normal <$> l) (normal u) Hi ltac:(done) ltac:(by apply normal_seg_ok)) as [O1 O2].
  { change (fin u <= kMaxOffset). lia. }
  change (s_offset (normal u)) with (s_offset u) in *. change (fin (normal u)) with (fin u) in *.
  rewrite <- Hn in O1, O2. apply sort_snoc; [by apply strict_normal|]. rewrite Forall_fmap in O2. exact O2.
Qed.

Lemma emplaced_ok :
  let l' := emplace k u in
  owned_index sectors d' l' /\ replaces l u l' /\
  normal <$> l' = emplace (cut (s_offset u) (fin u) (normal <$> l)) (normal u).
Proof.
  cbv zeta. destruct replaced_views as [Hn Hc]. destruct (owned_views sectors d Hd l Hl) as [Hin Hic].
  pose proof Hu as (Hu0 & Hulen & _). pose proof replaced_backed as Hnp.
  assert (normal <$> emplace k u = emplace (cut (s_offset u) (fin u) (normal <$> l)) (normal u)) as En
    by (rewrite (view_emplace _ _ view_normal); by rewrite Hn).
  assert (claim <$> emplace k u = emplace (cut (s_offset u) (fin u) (claim <$> l)) (claim u)) as Ec
    by (rewrite (view_emplace _ _ view_claim); by rewrite Hc).
  destruct (emplace_cut 0 (normal <$> l) (normal u) Hin ltac:(apply Hu) ltac:(by apply normal_seg_ok)) as [In Rn].
  { change (fin u <= kMaxOffset). lia. }
  destruct (emplace_cut 0 (claim <$> l) (claim u) Hic ltac:(apply Hu)) as [Ic Rc].
  { apply (claim_seg_ok d' ltac:(lia)); [done|by right]. }
  { change (fin u <= kMaxOffset). lia. }
  change (s_offset (normal u)) with (s_offset u) in *. change (fin (normal u)) with (fin u) in *.
  change (s_offset (claim u)) with (s_offset u) in *. change (fin (claim u)) with (fin u) in *.
  rewrite <- En in In, Rn. rewrite <- Ec in Ic, Rc.
  assert (Forall (fun m => seg_ok m /\ untagged m /\ fin m <= sectors /\
    (s_moffset m = kNoPhysicalOffset /\ s_zeroed m = true \/ kDataStartSector <= s_moffset m /\ s_moffset m + s_length m <= d'))
    (emplace k u)) as Hall.
  { apply emplace_forall; [by split_and!; auto|]. apply Forall_forall. intros m' Hm'.
    apply list_elem_of_In, in_concat in Hm' as (q & Hq & Hm'). apply list_elem_of_In in Hq, Hm'.
    apply list_elem_of_fmap in Hq as (m & -> & Hml).
    destruct (owned_movable sectors d Hd l Hl) as (_ & M2 & _). rewrite Forall_forall in M2.
    pose proof (cut_one_pieces u m m' (M2 m Hml) (seg_ok_end u Hu) ltac:(lia) Hm') as Hp.
    destruct (owned_elem sectors d Hd l m Hl Hml) as (H1 & H2 & H3 & H4).
    destruct (piece_ok sectors d m m' H1 H2 H3 H4 ltac:(lia) Hs Hp) as (G1 & G2 & G3 & G4). split_and!; try done.
    destruct G4 as [?|?]; [by left|right; lia]. }
  assert (Forall untagged (emplace k u)) as Hunt by (eapply Forall_impl; [exact Hall|]; simpl; tauto).
  split; [|split; [|done]].
  - split; [split| | | |].
    + eapply Forall_impl; [exact Hall|]. simpl. tauto.
    + apply sorted_normal, In.
    + done.
    + eapply Forall_impl; [exact Hall|]. simpl. tauto.
    + eapply Forall_impl; [exact Hall|]. simpl. tauto.
    + eapply (replaces_inj l u); [exact Rc|done|done|apply (oi_exclusive _ _ _ Hl)|apply owned_below|exact Hcase].
  - intros x. rewrite <- (resolve_normal _ x Hunt), Rn.
    change [normal u] with (normal <$> [u]).
    by rewrite !resolve_normal by (done || by repeat constructor || apply (oi_untagged _ _ _ Hl)).
Qed.

Lemma mappings_replace_ok l' :
  mappings_replace l u = Ok l' ->
  owned_index sectors d' l' /\ replaces l u l' /\ zlen l' <= kMaxRoIndexSize /\
  normal <$> l' = emplace (cut (s_offset u) (fin u) (normal <$> l)) (normal u).
Proof.
  unfold mappings_replace. fold k. rewrite replaced_sorted. cbv zeta. case_if; [done|]. intros [= <-].
  destruct emplaced_ok as (H1 & H2 & H3). by split_and!.
Qed.
End Replaced.

(** ** How long the list gets *)

Lemma cut_length z lo hi l : index_ok z l -> lo < hi -> (length (cut lo hi l) <= S (length l))%nat.
Proof.
  intros Hl Hh. revert z Hl. induction l as [|s l IH]; intros z Hl; [simpl; lia|].
  apply index_ok_cons in Hl as (Hs & Hz & Hl). cbn [cut length]. rewrite length_app. pose proof Hs as (_ & Hlen & _).
  unfold cut_one. rewrite seg_ok_end by done. destruct (_ || _) eqn:E; [specialize (IH _ Hl); simpl; lia|].
  unfold trim. rewrite seg_ok_end by done. destruct (Z.ltb_spec hi (fin s)) as [H|H].
  - rewrite (cut_above lo hi l). { case_if; simpl; lia. }
    eapply Forall_impl; [by apply index_ok_starts|]. simpl. lia.
  - specialize (IH _ Hl). case_if; simpl; lia.
Qed.
Lemma emplace_length l m : (length (emplace l m) <= S (length l))%nat.
Proof. induction l as [|s l IH]; simpl; [lia|]. repeat case_if; simpl; lia. Qed.

Lemma mappings_replace_full sectors d l u f :
  kDataStartSector <= d < kMaxMoffset -> 0 <= sectors <= kMaxOffset -> owned_index sectors d l -> seg_ok u -> fin u <= sectors ->
  mappings_replace l u = Err f -> f = Errno ENOSPC /\ kMaxRoIndexSize < zlen l + 2.
Proof.
  intros Hd Hs Hl Hu Hf. unfold mappings_replace. cbv zeta. case_if; [|done]. intros [= <-]. split; [done|].
  rewrite (replaced_sorted sectors d Hs Hd l u Hl Hu Hf) in *. unfold zlen in *.
  pose proof (emplace_length (concat (hybrid_cut_one u <$> l)) u) as H1.
  destruct (replaced_views sectors d Hd l u Hl Hu) as [H2 _].
  assert (length (concat (hybrid_cut_one u <$> l)) <= S (length l))%nat; [|lia].
  rewrite <- (length_fmap normal (concat _)), H2, <- (length_fmap normal l).
  apply (cut_length 0); [by apply (owned_views sectors d)|]. destruct Hu as (_ & ? & _). unfold fin. lia.
Qed.

(** ** The log that leads to a mapping list *)

Definition logs (sectors d : Z) (log : bytes) (l : list segment_mapping) : Prop :=
  zlen log mod kEncodedSize = 0 /\
  exists live, res_fold hybrid_record (Rp sectors d 0 []) (load_records log) = Ok (Rp sectors d 0 live) /\
    normal <$> live = normal <$> l.

Lemma hybrid_record_mono s d d' n l m r :
  d <= d' -> hybrid_record (Rp s d n l) m = Ok r -> exists l', r = Rp s d n l' /\ hybrid_record (Rp s d' n l) m = Ok (Rp s d' n l').
Proof.
  intros Hd. unfold hybrid_record. cbn [rp_sectors rp_data_sectors rp_records rp_live].
  destruct (_ && _). { case_if; [done|]. intros [= <-]. by exists l. }
  destruct (_ || _); [done|]. destruct (s_zeroed m).
  - destruct (_ && _) eqn:E; [done|]. case_if; [done|]. intros [= <-]. eexists. split; [done|].
    assert (negb (s_moffset m =? kNoPhysicalOffset) && ((s_moffset m <? kDataStartSector) || (d' <? s_moffset m)) = false) as ->; [|done].
    apply andb_false_iff in E as [E|E]; [by rewrite E|]. apply andb_false_iff. right. lia.
  - destruct (_ || _) eqn:E; [done|]. case_if; [done|]. intros [= <-]. eexists. split; [done|].
    assert ((s_moffset m <? kDataStartSector) || (d' <=? s_moffset m) || (d' - s_moffset m <? s_length m) = false) as ->; [lia|done].
Qed.
Lemma hybrid_fold_mono s d d' n log l r :
  d <= d' -> res_fold hybrid_record (Rp s d n l) log = Ok r ->
  exists l', r = Rp s d n l' /\ res_fold hybrid_record (Rp s d' n l) log = Ok (Rp s d' n l').
Proof.
  intros Hd. revert l. induction log as [|m log IH]; intros l; cbn [res_fold]; [intros [= <-]; by exists l|].
  destruct (hybrid_record (Rp s d n l) m) as [r1|] eqn:E; [|done].
  destruct (hybrid_record_mono s d d' n l m r1 Hd E) as (l1 & -> & ->). apply IH.
Qed.
Lemma logs_mono s d d' log l : d <= d' -> logs s d log l -> logs s d' log l.
Proof.
  intros Hd (Hz & live & H & Hn). split; [done|]. destruct (hybrid_fold_mono s d d' _ _ _ _ Hd H) as (l' & [= <-] & H').
  by exists live.
Qed.
Lemma logs_normal s d log l l' : normal <$> l' = normal <$> l -> logs s d log l -> logs s d log l'.
Proof. intros E (Hz & live & H & Hn). split; [done|]. exists live. by rewrite E. Qed.

(** A record appended to the log is an update of the list. *)
Lemma fold_live s d log live :
  0 <= s <= kMaxOffset -> 0 <= d < kMaxMoffset ->
  res_fold hybrid_record (Rp s d 0 []) (load_records log) = Ok (Rp s d 0 live) -> hybrid_ok s d live.
Proof.
  intros Hs Hd H. pose proof (hybrid_fold_spec s d Hs Hd (Rp s d 0 []) (load_records log)
    ltac:(split; [done|split; [done|apply hybrid_ok_nil]]) (load_records_encodable log)) as Hf.
  rewrite H in Hf. by destruct Hf as (_ & (_ & _ & ?) & _).
Qed.

Section Logged.
Context (s d : Z) (Hs : 0 <= s <= kMaxOffset) (Hd : kDataStartSector <= d < kMaxMoffset).

Lemma record_taken n live u :
  hybrid_ok s d live -> seg_ok u -> untagged u -> fin u <= s ->
  kDataStartSector <= s_moffset u /\ s_moffset u + s_length u <= d ->
  (length (emplace (cut (s_offset u) (fin u) (normal <$> live)) (normal u)) <= Z.to_nat kMaxRoIndexSize)%nat ->
  exists live', hybrid_record (Rp s d n live) u = Ok (Rp s d n live') /\
    normal <$> live' = emplace (cut (s_offset u) (fin u) (normal <$> live)) (normal u).
Proof.
  intros Hl Hu Ht Hf [Hm1 Hm2] Hlen. pose proof Hu as (U1 & U2 & U3 & U4 & U5). unfold untagged in Ht. unfold fin in Hf.
  unfold hybrid_record. cbn [rp_sectors rp_data_sectors rp_records rp_live].
  rewrite (proj2 (Z.eqb_neq (s_length u) 0)), andb_false_r by lia. cbn [orb].
  rewrite (proj2 (Z.leb_gt _ _)), (proj2 (Z.ltb_ge (s - _) _)) by lia. cbn [orb].
  rewrite (proj2 (Z.ltb_ge (s_moffset u) _)), (proj2 (Z.ltb_ge d _)), (proj2 (Z.leb_gt d _)), (proj2 (Z.ltb_ge (d - _) _)) by lia.
  cbn [orb]. rewrite andb_false_r. replace (if s_zeroed u then false else false) with false by by destruct (s_zeroed u).
  assert (Seg (s_offset u) (s_length u) (s_moffset u) (s_zeroed u) 0 = u) as -> by (destruct u; cbn in *; by subst).
  assert (normal <$> hybrid_replace live u = emplace (cut (s_offset u) (fin u) (normal <$> live)) (normal u)) as E.
  { rewrite hybrid_replace_normal by (apply (hybrid_ok_movable s d); [change kDataStartSector with 8 in *; lia|done]).
    rewrite (live_replace_cut 0); [done|apply (live_index _ _ _ (hybrid_live _ _ _ Hl))|apply U1|by apply normal_seg_ok|].
    change (fin (normal u)) with (fin u). unfold fin. lia. }
  rewrite <- E, length_fmap in Hlen. rewrite (proj2 (Z.ltb_ge _ _)) by (unfold zlen, kMaxRoIndexSize in *; lia).
  by eexists.
Qed.

Lemma logs_append log l u l' :
  logs s d log l -> seg_ok u -> untagged u -> fin u <= s ->
  kDataStartSector <= s_moffset u /\ s_moffset u + s_length u <= d ->
  normal <$> l' = emplace (cut (s_offset u) (fin u) (normal <$> l)) (normal u) -> zlen l' <= kMaxRoIndexSize ->
  seg_encodable u -> logs s d (log ++ encode_record u) l'.
Proof.
  intros (Hz & live & H & Hn) Hu Ht Hf Hm Hl' Hlen He.
  destruct (record_taken 0 live u) as (live' & Hr & Hn'); [by eapply fold_live; try exact H; change kDataStartSector with 8 in *; lia|done..| |].
  { rewrite Hn, <- Hl', length_fmap. unfold zlen, kMaxRoIndexSize in *. lia. }
  split. { rewrite zlen_app, zlen_encode_record by done. unfold kEncodedSize in *. rewrite <- Z.add_mod_idemp_l, Hz by lia. done. }
  exists live'. split; [|by rewrite Hn', Hn]. rewrite load_records_app by done.
  assert (load_records (encode_record u) = [u]) as ->.
  { rewrite <- (app_nil_r (encode_record u)). change (load_records (encode_log [u]) = [u]). apply load_encode_log. by constructor. }
  rewrite res_fold_app, H. cbn [mbind res_bind res_fold]. by rewrite Hr.
Qed.
End Logged.

(** ** A list as a log of its own *)

Lemma hybrid_replace_last l m :
  index_ok 0 (l ++ [m]) -> hybrid_replace l m = l ++ [m].
Proof.
  intros H. apply index_ok_app in H as [Hl Hm]. apply index_ok_cons in Hm as (Hm & He & _).
  destruct (first_overlap_spec 0 l (s_offset m) Hl) as [_ Hd]. unfold hybrid_replace.
  assert (drop (first_overlap l (s_offset m)) l = []) as E.
  { destruct (drop _ l) as [|a k] eqn:E; [done|]. apply Forall_cons in Hd as [Hd _].
    pose proof (index_ok_ends 0 l Hl) as Hends. rewrite Forall_forall in Hends.
    assert (a ∈ drop (first_overlap l (s_offset m)) l) as Hin by (rewrite E; apply list_elem_of_here). apply subseteq_drop in Hin. specialize (Hends a Hin). simpl in Hends. lia. }
  cbv zeta. rewrite E. cbn [take_below fmap list_fmap concat foldl length].
  rewrite Nat.add_0_r, E, app_nil_r.
  assert (take (first_overlap l (s_offset m)) l = l) as ->.
  { pose proof (take_drop (first_overlap l (s_offset m)) l) as T. by rewrite E, app_nil_r in T. }
  rewrite <- (app_nil_r l) at 1. apply (emplace_between 0); [done|done|apply index_ok_nil|done].
Qed.

Definition backed (m : segment_mapping) : Prop := s_moffset m <> kNoPhysicalOffset.

Section Fresh.
Context (s d : Z) (Hs : 0 <= s <= kMaxOffset) (Hd : kDataStartSector <= d < kMaxMoffset).

Lemma owned_app_l l k : owned_index s d (l ++ k) -> owned_index s d l.
Proof.
  intros [H1 H2 H3 H4 H5]. apply index_ok_app in H1 as [H1 H1'].
  rewrite Forall_app in H2, H3, H4. split; try tauto.
  intros x y t u p Hx Hy. apply (H5 x y t u p); rewrite fmap_app, resolve_app; [by rewrite Hx|by rewrite Hy].
Qed.
Lemma owned_hybrid l : owned_index s d l -> Forall backed l -> hybrid_ok s d l.
Proof.
  intros Hl Hb. destruct (owned_views s d Hd l Hl) as [Hn _]. pose proof (oi_untagged _ _ _ Hl) as Hu. split; [split|].
  - done.
  - rewrite Forall_fmap. by apply Forall_true.
  - intros x Hx. rewrite resolve_normal in Hx by done. destruct (resolve l x) eqn:E; [done| |].
    all: assert (exists m, m ∈ l /\ covers m x = true) as (m & Hin & Hc).
    1,3: clear -E; induction l as [|m l IH]; [done|]; cbn [resolve] in E; destruct (covers m x) eqn:C;
      [exists m; split; [apply list_elem_of_here|done]|destruct (IH E) as (m' & ? & ?); exists m'; split; [by apply list_elem_of_further|done]].
    all: destruct (owned_elem s d Hd l m Hl Hin) as ((? & _) & _ & ? & _); apply covers_true in Hc; lia.
  - intros x t p Hx. rewrite resolve_normal in Hx by done. pose proof Hx as Hx'.
    apply resolve_data_inv in Hx' as (m & Hin & Hz & Hc & ->).
    destruct (owned_elem s d Hd l m Hl Hin) as (Hok & Ht & _ & [[_ ?]|(_ & ? & ?)]); [congruence|].
    assert (resolve l x = seg_cell m x) as E by (apply (resolve_elem 0); [apply Hl|done|done]).
    rewrite E in Hx. unfold seg_cell in Hx. rewrite Hz in Hx. injection Hx as <-. unfold untagged in Ht.
    split; [done|]. unfold fin in Hc. lia.
  - rewrite Forall_forall in *. intros m Hin. destruct (owned_elem s d Hd l m Hl Hin) as ((? & ? & _) & ? & _ & [[? _]|(_ & ? & ?)]).
    + by destruct (Hb m Hin).
    + split; [done|]. split; [done|]. right. lia.
Qed.

Lemma record_last n l m :
  owned_index s d (l ++ [m]) -> Forall backed (l ++ [m]) -> zlen (l ++ [m]) <= kMaxRoIndexSize ->
  hybrid_record (Rp s d n l) m = Ok (Rp s d n (l ++ [m])).
Proof.
  intros Hl Hb Hz. assert (m ∈ l ++ [m]) as Hin by (apply elem_of_app; right; apply list_elem_of_here).
  destruct (owned_elem s d Hd _ m Hl Hin) as (Hm & Ht & Hf & Hk). pose proof Hm as (U1 & U2 & _). unfold untagged in Ht. unfold fin in Hf.
  apply Forall_app in Hb as [_ Hb]. apply Forall_cons in Hb as [Hb _]. destruct Hk as [[? _]|(_ & K1 & K2)]; [done|].
  unfold hybrid_record. cbn [rp_sectors rp_data_sectors rp_records rp_live].
  rewrite (proj2 (Z.eqb_neq (s_length m) 0)), andb_false_r by lia. cbn [orb].
  rewrite (proj2 (Z.leb_gt _ _)), (proj2 (Z.ltb_ge (s - _) _)) by lia. cbn [orb].
  rewrite (proj2 (Z.ltb_ge (s_moffset m) _)), (proj2 (Z.ltb_ge d _)), (proj2 (Z.leb_gt d _)), (proj2 (Z.ltb_ge (d - _) _)) by lia.
  cbn [orb]. rewrite andb_false_r. replace (if s_zeroed m then false else false) with false by by destruct (s_zeroed m).
  assert (Seg (s_offset m) (s_length m) (s_moffset m) (s_zeroed m) 0 = m) as -> by (destruct m; cbn in *; by subst).
  rewrite hybrid_replace_last by apply Hl. by rewrite (proj2 (Z.ltb_ge _ _)).
Qed.

Lemma fold_last l k :
  owned_index s d (l ++ k) -> Forall backed (l ++ k) -> zlen (l ++ k) <= kMaxRoIndexSize ->
  res_fold hybrid_record (Rp s d 0 l) k = Ok (Rp s d 0 (l ++ k)).
Proof.
  revert l. induction k as [|m k IH]; intros l Hl Hb Hz; [by rewrite app_nil_r|]. cbn [res_fold].
  rewrite cons_middle, app_assoc in *. rewrite record_last; [by apply IH|..].
  - by eapply owned_app_l.
  - by apply Forall_app in Hb as [? _].
  - rewrite zlen_app in Hz. pose proof (zlen_nonneg k). lia.
Qed.

Lemma owned_encodable l : owned_index s d l -> Forall seg_encodable l.
Proof.
  intros Hl. apply Forall_forall. intros m Hin. destruct (owned_elem s d Hd l m Hl Hin) as ((? & ? & ? & ? & _) & _ & _ & Hk).
  unfold seg_encodable. unfold kNoPhysicalOffset in Hk. split; [done|]. split; [lia|]. split; [|done]. split; [lia|].
  destruct Hk as [[-> _]|(_ & _ & ?)]; lia.
Qed.

Lemma logs_fresh l : owned_index s d l -> Forall backed l -> zlen l <= kMaxRoIndexSize -> logs s d (encode_log l) l.
Proof.
  intros Hl Hb Hz. pose proof (owned_encodable l Hl) as He. split.
  - rewrite zlen_encode_log by done. unfold kEncodedSize. rewrite Z.mul_comm. apply Z.mod_mul. lia.
  - exists l. split; [|done]. rewrite load_encode_log by done. by apply (fold_last []).
Qed.
End Fresh.

(** ** What [verify_replacement] takes *)

Lemma index_ok_lookup z l i j m m' :
  index_ok z l -> (i < j)%nat -> l !! i = Some m -> l !! j = Some m' -> fin m <= s_offset m'.
Proof.
  revert z i j. induction l as [|a l IH]; intros z i j Hl Hij Hi Hj; [done|]. apply index_ok_cons in Hl as (_ & _ & Hl).
  destruct j as [|j]; [lia|]. destruct i as [|i]; cbn in Hi, Hj.
  - injection Hi as <-. pose proof (index_ok_starts _ _ Hl) as Hst. rewrite Forall_lookup in Hst. by apply (Hst j).
  - apply (IH _ i j Hl); [lia|done..].
Qed.

Section Verified.
Context (s d : Z) (Hs : 0 <= s <= kMaxOffset) (Hd : kDataStartSector <= d < kMaxMoffset).

Lemma verify_last n l k :
  owned_index s d (l ++ k) -> Forall backed (l ++ k) -> zlen (l ++ k) <= kMaxRoIndexSize -> n + zlen k <= kMaxLogRecords ->
  verify_mappings (Rp s d n l) (end_from 0 l) k = Ok (Rp s d (n + zlen k) (l ++ k)).
Proof.
  revert n l. induction k as [|m k IH]; intros n l Hl Hb Hz Hn.
  { rewrite app_nil_r. change (zlen []) with 0. by rewrite Z.add_0_r. }
  cbn [verify_mappings]. rewrite cons_middle, app_assoc in *. rewrite zlen_cons in *. pose proof (zlen_nonneg k).
  assert (m ∈ (l ++ [m]) ++ k) as Hin by (rewrite !elem_of_app; left; right; apply list_elem_of_here).
  destruct (owned_elem s d Hd _ m Hl Hin) as (Hm & Ht & Hf & Hk). pose proof Hm as (U1 & U2 & _). unfold untagged in Ht.
  pose proof Hb as Hb'. rewrite Forall_forall in Hb'. specialize (Hb' m Hin). destruct Hk as [[? _]|(_ & K1 & K2)]; [done|].
  assert (owned_index s d (l ++ [m])) as Hl1 by by eapply owned_app_l. pose proof (oi_index _ _ _ Hl1) as Hi. apply index_ok_app in Hi as [_ Hi].
  apply index_ok_cons in Hi as (_ & Hi & _).
  rewrite (proj2 (Z.ltb_ge (s_offset m) _)), (proj2 (Z.ltb_ge kMaxOffset _)), (proj2 (Z.eqb_neq (s_length m) 0)),
    (proj2 (Z.ltb_ge kMaxLength _)), (proj2 (Z.leb_gt kNoPhysicalOffset _)), (proj2 (Z.eqb_eq (s_tag m) 0))
    by (done || unfold kNoPhysicalOffset; lia). cbn [orb negb].
  assert (seg_encodable m) as He.
  { pose proof (owned_encodable s d Hd _ Hl) as He. rewrite Forall_forall in He. auto. }
  unfold hybrid_append. rewrite zlen_encode_record by done. cbn [rp_records rp_sectors rp_data_sectors rp_live].
  change (16 mod kEncodedSize =? 0) with true. change (16 / kEncodedSize) with 1. cbn [negb orb].
  rewrite (proj2 (Z.ltb_ge _ 1)) by lia.
  assert (load_records (encode_record m) = [m]) as ->.
  { rewrite <- (app_nil_r (encode_record m)). change (load_records (encode_log [m]) = [m]). apply load_encode_log. by constructor. }
  cbn [res_fold]. rewrite (record_last s d Hd); [|done|by apply Forall_app in Hb as [? _]|rewrite zlen_app in Hz; lia].
  cbn [mbind res_bind]. rewrite seg_ok_end by done.
  replace (fin m) with (end_from 0 (l ++ [m])) by (clear; generalize 0; induction l; intros; [done|apply IHl]).
  rewrite IH by (done || lia). do 2 f_equal. lia.
Qed.

(** Mappings that own different payload do not contest any. *)
Lemma owned_apart l i j m m' :
  owned_index s d l -> l !! i = Some m -> l !! j = Some m' -> i <> j -> backed m -> backed m' ->
  s_moffset m + s_length m <= s_moffset m' \/ s_moffset m' + s_length m' <= s_moffset m.
Proof.
  intros Hl Hi Hj Hne Hb Hb'. destruct (decide (s_moffset m < s_moffset m' + s_length m')); [|lia].
  destruct (decide (s_moffset m' < s_moffset m + s_length m)); [|lia]. exfalso.
  set (p := Z.max (s_moffset m) (s_moffset m')).
  assert (forall n, n ∈ l -> backed n -> s_moffset n <= p < s_moffset n + s_length n ->
    resolve (claim <$> l) (s_offset n + (p - s_moffset n)) = Data 0 p) as Hr.
  { intros a Hin Ha Hp. rewrite (resolve_elem 0 (claim a)).
    - unfold seg_cell, claim. cbn. rewrite (proj2 (Z.eqb_neq _ _)) by done.
      destruct (owned_elem s d Hd l a Hl Hin) as (_ & -> & _). f_equal. lia.
    - by apply (owned_views s d Hd l Hl).
    - apply list_elem_of_fmap. by exists a.
    - unfold claim, fin. cbn. lia. }
  assert (m ∈ l) as Hin by by eapply list_elem_of_lookup_2. assert (m' ∈ l) as Hin' by by eapply list_elem_of_lookup_2.
  pose proof (owned_elem s d Hd l m Hl Hin) as ((_ & ? & _) & _). pose proof (owned_elem s d Hd l m' Hl Hin') as ((_ & ? & _) & _).
  pose proof (oi_exclusive _ _ _ Hl _ _ _ _ _ (Hr m Hin Hb ltac:(lia)) (Hr m' Hin' Hb' ltac:(lia))) as E.
  destruct (lt_eq_lt_dec i j) as [[Hlt|?]|Hlt]; [|done|].
  - pose proof (index_ok_lookup 0 l i j m m' (oi_index _ _ _ Hl) Hlt Hi Hj). unfold fin in *. lia.
  - pose proof (index_ok_lookup 0 l j i m' m (oi_index _ _ _ Hl) Hlt Hj Hi). unfold fin in *. lia.
Qed.

Lemma owned_uncontested p l i m :
  owned_index s d l -> Forall backed l -> l !! i = Some m -> unbacked d m = false /\ contested d p l i m = false.
Proof.
  intros Hl Hb Hm. rewrite Forall_lookup in Hb.
  assert (forall j m', l !! j = Some m' -> unbacked d m' = false) as Hu.
  { intros j m' Hj. destruct (owned_elem s d Hd l m' Hl ltac:(by eapply list_elem_of_lookup_2)) as ((_ & ? & _) & _ & _ & [[? _]|(? & ? & ?)]).
    - by destruct (Hb j m' Hj).
    - unfold unbacked. rewrite (proj2 (Z.eqb_neq _ _)), (proj2 (Z.ltb_ge d _)), (proj2 (Z.ltb_ge (d - _) _)) by (done || lia).
      apply andb_false_r. }
  split; [by eapply Hu|]. unfold contested. apply existsb_none. intros [j m'] Hin.
  apply elem_of_lookup_imap in Hin as (j' & m'' & [= <- <-] & Hj).
  destruct (Nat.eqb_spec j i) as [->|Hne]; [done|]. cbn [negb andb]. apply andb_false_iff. right.
  unfold owns. rewrite (Hu i m Hm), (Hu j m' Hj). cbn.
  destruct (owned_apart l i j m m' Hl Hm Hj ltac:(congruence)); [by eapply Hb|by eapply Hb|lia|lia].
Qed.

Lemma finish_fresh n l : owned_index s d l -> Forall backed l -> hybrid_finish (Rp s d n l) = Ok l.
Proof.
  intros Hl Hb. rewrite hybrid_finish_reference; cbn [rp_live rp_data_sectors].
  - assert (aliased d l = false) as ->.
    { apply existsb_none. intros [i m] Hin. apply elem_of_lookup_imap in Hin as (i' & m' & [= <- <-] & Hi).
      destruct (owned_uncontested is_data l i m Hl Hb Hi) as [_ ->]. apply andb_false_r. }
    f_equal. apply list_eq. intros i. rewrite list_lookup_imap. destruct (l !! i) as [m|] eqn:E; [|done]. cbn.
    f_equal. unfold settled. destruct (owned_uncontested (fun _ => true) l i m Hl Hb E) as [-> ->].
    by rewrite andb_false_r.
  - apply Forall_forall. intros m Hin. destruct (owned_elem s d Hd l m Hl Hin) as ((_ & ? & ? & _) & _). lia.
Qed.
End Verified.

Lemma verify_ok header db l :
  let vs := ht_virtual_size header in
  0 < vs -> vs mod kAlignment = 0 -> vs / kAlignment <= kMaxOffset -> db mod kAlignment = 0 -> kSpace <= db ->
  db / kAlignment < kMaxMoffset -> owned_index (vs / kAlignment) (db / kAlignment) l -> Forall backed l ->
  zlen l <= kMaxRoIndexSize -> verify_replacement header db l = Ok tt.
Proof.
  intros vs H1 H2 H3 H4 H5 H6 Hl Hb Hz. unfold verify_replacement, hybrid_replay_new. cbv zeta. fold vs. unfold kAlignment, kSpace in *.
  rewrite (proj2 (Z.eqb_neq vs 0)), H2, (proj2 (Z.ltb_ge kMaxOffset _)), (proj2 (Z.ltb_ge db _)), H4,
    (proj2 (Z.leb_gt _ _)) by (unfold kNoPhysicalOffset; lia). cbn [negb orb Z.eqb mbind res_bind].
  assert (0 <= vs / 512 <= kMaxOffset) as Hs by (split; [apply Z.div_pos; lia|done]).
  assert (kDataStartSector <= db / 512 < kMaxMoffset) as Hd.
  { split; [|done]. change kDataStartSector with 8. apply Z.div_le_lower_bound; lia. }
  pose proof (verify_last _ _ Hs Hd 0 [] l Hl Hb Hz ltac:(unfold kMaxLogRecords, kMaxRoIndexSize in *; lia)) as E.
  cbn [end_from app] in E. rewrite E. cbn [mbind res_bind]. rewrite (finish_fresh _ _ Hd) by done. cbn [mbind res_bind].
  replace (existsb _ l) with false; [done|]. symmetry. apply existsb_none. intros m Hin.
  rewrite Forall_forall in Hb. by apply Z.eqb_neq, Hb.
Qed.

(** ** Coalescing *)

Section Coalesce.
Context (s d : Z) (Hd : kDataStartSector <= d < kMaxMoffset).

(** The same device and the same payload. *)
Definition same_cells (l l' : list segment_mapping) : Prop :=
  l' ≡ₛ l /\ claim <$> l' ≡ₛ claim <$> l.

Lemma join_cells a b x :
  untagged a -> untagged b -> seg_ok a -> fin a = s_offset b -> 0 < s_length b ->
  s_zeroed a = s_zeroed b -> s_moffset a + s_length a = s_moffset b ->
  resolve [with_length a (s_length a + s_length b)] x = resolve [a; b] x.
Proof.
  intros Ha Hb (_ & Hl & _) He Hlb Hz Hm. unfold untagged in *. cbn [resolve].
  assert (covers (with_length a (s_length a + s_length b)) x = covers a x || covers b x) as ->.
  { unfold covers, with_length, fin in *. cbn. lia. }
  destruct (covers a x); cbn [orb]; [done|]. destruct (covers b x); [|done]. unfold seg_cell, with_length, fin in *. cbn.
  rewrite Hz. destruct (s_zeroed b); [done|]. f_equal; [congruence|lia].
Qed.

Lemma join_owned pre a b l :
  owned_index s d (pre ++ a :: b :: l) -> Forall backed (pre ++ a :: b :: l) -> joins a b = true ->
  let j := with_length a (s_length a + s_length b) in
  owned_index s d (pre ++ j :: l) /\ Forall backed (pre ++ j :: l) /\
  same_cells (pre ++ a :: b :: l) (pre ++ j :: l).
Proof.
  intros Hl Hb Hj j. unfold joins in Hj. rewrite !andb_true_iff in Hj. destruct Hj as (((J1 & J2) & J3) & J4).
  assert (a ∈ pre ++ a :: b :: l) as Ha by (rewrite elem_of_app, !elem_of_cons; auto). assert (b ∈ pre ++ a :: b :: l) as Hbin by (rewrite elem_of_app, !elem_of_cons; auto).
  destruct (owned_elem s d Hd _ a Hl Ha) as (A1 & A2 & A3 & A4). destruct (owned_elem s d Hd _ b Hl Hbin) as (B1 & B2 & B3 & B4).
  pose proof Hb as Hb'. rewrite Forall_forall in Hb'. pose proof (Hb' a Ha) as Ka. pose proof (Hb' b Hbin) as Kb.
  destruct A4 as [[? _]|(_ & A4 & A5)]; [done|]. destruct B4 as [[? _]|(_ & B4 & B5)]; [done|].
  apply Z.eqb_eq in J1, J3. apply Z.leb_le in J4. apply eqb_prop in J2. rewrite seg_ok_end in J1 by done.
  pose proof A1 as (L1 & L2 & L3 & L4 & L5). pose proof B1 as (M1 & M2 & M3 & M4 & M5).
  assert (fin j = fin b) as Hfj by (unfold fin, j, with_length in *; cbn; lia).
  assert (same_cells (pre ++ a :: b :: l) (pre ++ j :: l)) as [Hc1 Hc2].
  { split; intros x.
    - rewrite !resolve_app. f_equal. change (j :: l) with ([j] ++ l). change (a :: b :: l) with ([a; b] ++ l).
      rewrite !resolve_app. f_equal. apply join_cells; done || lia.
    - rewrite !fmap_app, !resolve_app, !fmap_cons. f_equal.
      change (claim j :: (claim <$> l)) with ([claim j] ++ (claim <$> l)).
      change (claim a :: claim b :: (claim <$> l)) with ([claim a; claim b] ++ (claim <$> l)).
      rewrite !resolve_app. f_equal. apply (join_cells (claim a) (claim b)); [done|done| |exact J1|exact (proj1 M2)| |exact J3].
      + apply (claim_seg_ok d Hd); [done|by right].
      + cbn. unfold backed in *. by rewrite !(proj2 (Z.eqb_neq _ _)). }
  pose proof Hl as [[O1 O1'] O2 O3 O4 O5]. rewrite !Forall_app, !Forall_cons in *.
  split; [|split; [tauto|done]]. split.
  - pose proof (oi_index _ _ _ Hl) as Hi. rewrite index_ok_app, index_ok_cons, index_ok_cons in Hi. rewrite index_ok_app, index_ok_cons, Hfj.
    split; [tauto|]. split; [|tauto]. unfold j, with_length, seg_ok. cbn [s_offset s_length s_moffset s_zeroed s_tag].
    assert (d < 2 ^ 55 - 1) by apply Hd. do 4 (split; [lia|]). intros _. lia.
  - rewrite Forall_app, Forall_cons. tauto.
  - rewrite Forall_app, Forall_cons, Hfj. tauto.
  - rewrite Forall_app, Forall_cons. split; [tauto|]. split; [|tauto]. right. unfold j, with_length. cbn. lia.
  - intros x y t u p. rewrite !(Hc2 _). apply O5.
Qed.

Lemma coalesce_from_ok pre a l :
  owned_index s d (pre ++ a :: l) -> Forall backed (pre ++ a :: l) ->
  owned_index s d (pre ++ coalesce_from a l) /\ Forall backed (pre ++ coalesce_from a l) /\
  same_cells (pre ++ a :: l) (pre ++ coalesce_from a l) /\ (length (coalesce_from a l) <= S (length l))%nat.
Proof.
  revert pre a. induction l as [|b l IH]; intros pre a Hl Hb; cbn [coalesce_from length]; [by split_and!|].
  destruct (joins a b) eqn:Hj.
  - destruct (join_owned pre a b l Hl Hb Hj) as (G1 & G2 & [G3 G4]). destruct (IH _ _ G1 G2) as (I1 & I2 & [I3 I4] & I5).
    split_and!; try done; [split; by etrans|lia].
  - rewrite cons_middle, app_assoc in Hl, Hb. destruct (IH _ _ Hl Hb) as (I1 & I2 & I3 & I4).
    rewrite <- !app_assoc in I1, I2. unfold same_cells in I3. rewrite <- !app_assoc in I3. cbn [app] in I1, I2, I3. split_and!; [done|done|exact I3|cbn [length]; lia].
Qed.
Lemma coalesce_ok l :
  owned_index s d l -> Forall backed l ->
  owned_index s d (coalesce l) /\ Forall backed (coalesce l) /\ coalesce l ≡ₛ l /\ zlen (coalesce l) <= zlen l.
Proof.
  destruct l as [|a l]; [done|]. intros Hl Hb. destruct (coalesce_from_ok [] a l Hl Hb) as (H1 & H2 & [H3 _] & H4).
  split_and!; try done. unfold zlen. cbn [coalesce length]. lia.
Qed.
End Coalesce.

(** ** Backing for ZERO mappings *)

(** [reserve] on the mappings alone, counting the payload in sectors. *)
Fixpoint backfill (d : Z) (l : list segment_mapping) : list segment_mapping * Z :=
  match l with
  | [] => ([], d)
  | m :: l =>
      if negb (s_zeroed m) || negb (s_moffset m =? kNoPhysicalOffset)
      then let '(r, d') := backfill d l in (m :: r, d')
      else let '(r, d') := backfill (d + s_length m) l in
           (Seg (s_offset m) (s_length m) d (s_zeroed m) (s_tag m) :: r, d')
  end.

Lemma backfill_le d l : Forall (fun m => 0 < s_length m) l -> d <= (backfill d l).2.
Proof.
  intros Hl. revert d. induction Hl as [|m l Hm Hl IH]; intros d; cbn [backfill]; [done|]. case_if.
  - specialize (IH d). by destruct (backfill d l).
  - specialize (IH (d + s_length m)). destruct (backfill _ l). cbn in *. lia.
Qed.

Section Backfill.
Context (s : Z) (Hs : 0 <= s <= kMaxOffset).

Lemma back_one d pre m l :
  kDataStartSector <= d -> d + s_length m < kMaxMoffset ->
  owned_index s d (pre ++ m :: l) -> s_zeroed m = true ->
  let m' := Seg (s_offset m) (s_length m) d (s_zeroed m) (s_tag m) in
  owned_index s (d + s_length m) (pre ++ m' :: l) /\ normal <$> pre ++ m' :: l = normal <$> pre ++ m :: l /\ backed m'.
Proof.
  intros Hd Hd' Hl Hz m'. assert (m ∈ pre ++ m :: l) as Hin by (rewrite elem_of_app, elem_of_cons; auto).
  assert (0 < s_length m) as Hlen by by pose proof (oi_index _ _ _ Hl) as [H _]; rewrite Forall_forall in H; destruct (H m Hin) as (_ & ? & _); lia.
  assert (kDataStartSector <= d < kMaxMoffset) as Hd0 by lia.
  destruct (owned_elem s d Hd0 _ m Hl Hin) as (M1 & M2 & M3 & _). pose proof M1 as (L1 & L2 & L3 & L4 & L5).
  assert (normal <$> pre ++ m' :: l = normal <$> pre ++ m :: l) as Hn.
  { rewrite !fmap_app, !fmap_cons. do 2 f_equal. unfold normal, m'. cbn. by rewrite Hz. }
  assert (backed m') as Hb by (unfold backed, m', kNoPhysicalOffset; cbn; lia).
  assert (seg_ok m') as Hm'.
  { unfold seg_ok, m'. cbn [s_offset s_length s_moffset s_zeroed s_tag]. assert (d < 2 ^ 55 - 1) by apply Hd0.
    change kDataStartSector with 8 in Hd. do 4 (split; [lia|]). rewrite Hz. done. }
  pose proof Hl as [Hi O2 O3 O4 O5]. rewrite !Forall_app, !Forall_cons in O2, O3, O4.
  assert (index_ok 0 (pre ++ m' :: l)) as Hi'.
  { rewrite index_ok_app, index_ok_cons in Hi |- *. split; [tauto|]. split; [done|]. tauto. }
  split; [|done]. split; [done|by rewrite Forall_app, Forall_cons|by rewrite Forall_app, Forall_cons| |].
  - assert (forall k, Forall (fun m => s_moffset m = kNoPhysicalOffset /\ s_zeroed m = true \/
        kDataStartSector <= s_moffset m /\ s_moffset m + s_length m <= d) k ->
      Forall (fun m => s_moffset m = kNoPhysicalOffset /\ s_zeroed m = true \/
        kDataStartSector <= s_moffset m /\ s_moffset m + s_length m <= d + s_length m') k) as Hw.
    { intros k Hk. eapply Forall_impl; [exact Hk|]. intros a [?|?]; [by left|right]. unfold m'. cbn. lia. }
    rewrite Forall_app, Forall_cons. split; [apply Hw; tauto|]. split; [right; unfold m'; cbn; lia|apply Hw; tauto].
  - apply (replaces_inj (pre ++ m :: l) m' _ d); [|done|exact M2|done| |left; done].
    + intros x. destruct (covers m' x) eqn:C.
      * cbn [resolve]. change (covers (claim m') x) with (covers m' x). rewrite C.
        rewrite (resolve_elem 0 (claim m')); [unfold seg_cell, claim; cbn; by rewrite (proj2 (Z.eqb_neq _ _))| | |by apply covers_true in C].
        { split; [|by apply sorted_claim, Hi']. rewrite Forall_fmap, Forall_app, Forall_cons.
          destruct Hi as [Hok _]. rewrite Forall_app, Forall_cons in Hok.
          assert (forall k, Forall seg_ok k -> Forall (fun m => s_moffset m = kNoPhysicalOffset /\ s_zeroed m = true \/
              kDataStartSector <= s_moffset m /\ s_moffset m + s_length m <= d) k -> Forall (seg_ok ∘ claim) k) as Hk.
          { intros k K1 K2. rewrite Forall_forall in *. intros a Ha. apply (claim_seg_ok d Hd0); [auto|]. destruct (K2 a Ha) as [[? _]|?]; auto. }
          split; [apply Hk; tauto|]. split; [|apply Hk; tauto]. apply (claim_seg_ok (d + s_length m)); [lia|done|]. right. unfold m'. cbn. lia. }
        { apply list_elem_of_fmap. exists m'. split; [done|]. rewrite elem_of_app, elem_of_cons. auto. }
      * cbn [resolve]. change (covers (claim m') x) with (covers m' x). rewrite C. cbn [over].
        rewrite !fmap_app, !fmap_cons, !resolve_app. f_equal. cbn [resolve].
        change (covers (claim m') x) with (covers m' x). change (covers (claim m) x) with (covers m' x). by rewrite C.
    + apply (owned_below s d Hd0). done.
Qed.

Lemma backfill_from d pre l :
  kDataStartSector <= d -> owned_index s d (pre ++ l) -> Forall backed pre ->
  let '(l', d') := backfill d l in d' < kMaxMoffset ->
  owned_index s d' (pre ++ l') /\ Forall backed (pre ++ l') /\ normal <$> l' = normal <$> l.
Proof.
  revert d pre. induction l as [|m l IH]; intros d pre Hd Hl Hb; cbn [backfill].
  { intros _. by rewrite app_nil_r in *. }
  pose proof (oi_index _ _ _ Hl) as [Hok _]. rewrite Forall_app, Forall_cons in Hok. destruct Hok as (_ & (M1 & M2 & _) & Hok).
  assert (Forall (fun m => 0 < s_length m) l) as Hpos by (eapply Forall_impl; [exact Hok|]; intros a (_ & ? & _); lia).
  destruct (negb (s_zeroed m) || negb (s_moffset m =? kNoPhysicalOffset)) eqn:E.
  - specialize (IH d (pre ++ [m])). rewrite <- app_assoc in IH. specialize (IH Hd Hl). pose proof (backfill_le d l Hpos) as Hle.
    destruct (backfill d l) as [r d']. cbn in Hle. intros Hd'. rewrite cons_middle, app_assoc.
    assert (Forall backed (pre ++ [m])) as Hb'.
    { rewrite Forall_app, Forall_singleton. split; [done|]. intros En. rewrite En, Z.eqb_refl, orb_false_r in E.
      pose proof (oi_owned _ _ _ Hl) as Ho. rewrite Forall_app, Forall_cons in Ho. destruct Ho as (_ & [[_ Hz]|[_ Ho]] & _).
      - by rewrite Hz in E.
      - rewrite En in Ho. unfold kNoPhysicalOffset in Ho. lia. }
    destruct (IH Hb' Hd') as (I1 & I2 & I3). split_and!; try done. by rewrite !fmap_cons, I3.
  - apply orb_false_iff in E as [E1%negb_false_iff E2%negb_false_iff%Z.eqb_eq].
    set (m' := Seg (s_offset m) (s_length m) d (s_zeroed m) (s_tag m)).
    specialize (IH (d + s_length m) (pre ++ [m']) ltac:(lia)). pose proof (backfill_le (d + s_length m) l Hpos) as Hle.
    destruct (backfill (d + s_length m) l) as [r d']. cbn in Hle. intros Hd'. rewrite cons_middle, app_assoc.
    destruct (back_one d pre m l Hd ltac:(lia) Hl E1) as (B1 & B2 & B3). fold m' in B1, B2, B3.
    rewrite <- app_assoc in IH. destruct (IH B1) as (I1 & I2 & I3); [by rewrite Forall_app, Forall_singleton|done|].
    split_and!; try done. rewrite !fmap_cons, I3. f_equal. unfold normal, m'. cbn. by rewrite E1.
Qed.
Lemma backfill_ok d l :
  kDataStartSector <= d -> owned_index s d l -> (backfill d l).2 < kMaxMoffset ->
  owned_index s (backfill d l).2 (backfill d l).1 /\ Forall backed (backfill d l).1 /\ normal <$> (backfill d l).1 = normal <$> l.
Proof.
  intros Hd Hl. pose proof (backfill_from d [] l Hd Hl ltac:(constructor)) as H. by destruct (backfill d l) as [l' d'].
Qed.
End Backfill.
