(* ===== verification/HybridDevice.v ===== *)
(** * The Hybrid writer behaves as a device

    The operations of [HybridWriter] against the device they present: the bytes
    the mappings lead to, zero where there is none.  Every operation, under any
    pattern of failing system calls, either fails the writer or keeps it sound,
    with the log of the pair replaying to its mappings. *)
From stdpp Require Import sets sorting.
From S2P Require Import Prelude Bytes Crc32c LsmtFormat Source File Segments Merge Trim Lsmt Journal FilePair Writer HybridFormat HybridLog HybridCrash HybridWriter HybridMappings.

Open Scope Z_scope.

Definition hw_script (w : HybridWriter) : script := hp_script (hw_pair w).

(** ** What an operation may do

    Apart from the errors of the script an operation fails only where one of
    the format's limits is reached. *)

Definition full (w : HybridWriter) : Prop :=
  kMaxRoIndexSize < zlen (hw_mappings w) + 2 \/ kInt64Max - kMaxLength * 512 < hw_data_end w.
Definition served {A} (m : io HybridWriter A) (w : HybridWriter) (Q : A -> HybridWriter -> Prop) (F : HybridWriter -> Prop) : Prop :=
  match m w with
  | (Ok a, w') => hw_script w' ⊆ hw_script w /\ Q a w'
  | (Err (Errno e), w') => (faults (hw_script w) e \/ full w' /\ (e = ENOSPC \/ e = EFBIG)) /\ F w'
  | (Err _, _) => False
  end.

Section Served.
Context {A B : Type}.
Implicit Types (m : io HybridWriter A) (k : A -> io HybridWriter B) (w : HybridWriter).

Lemma served_ret (a : A) w (Q : A -> HybridWriter -> Prop) F : Q a w -> served (mret a) w Q F.
Proof. intros H. by split. Qed.
Lemma served_bind m k w (P : A -> HybridWriter -> Prop) (Q : B -> HybridWriter -> Prop) F :
  served m w P F -> (forall a w', P a w' -> served (k a) w' Q F) -> served (m ≫= k) w Q F.
Proof.
  unfold served, mbind, io_bind. intros Hm Hk. destruct (m w) as [[a|f] w1]; [|done].
  destruct Hm as [Hs HP]. specialize (Hk a w1 HP). destruct (k a w1) as [[b|[e| |]] w2]; try done.
  - destruct Hk as [Hs' HQ]. split; [by etrans|done].
  - destruct Hk as [[[n Hn]|?] HF]; (split; [|done]); [left; exists n; by apply Hs|by right].
Qed.
Lemma served_mono m w (P Q : A -> HybridWriter -> Prop) (F G : HybridWriter -> Prop) :
  served m w P F -> (forall a w', P a w' -> Q a w') -> (forall w', F w' -> G w') -> served m w Q G.
Proof. unfold served. destruct (m w) as [[a|[e| |]] w']; try done; intros [? ?]; split; auto. Qed.
Lemma served_as m m' w (Q : A -> HybridWriter -> Prop) F : m w = m' w -> served m' w Q F -> served m w Q F.
Proof. unfold served. by intros ->. Qed.
Lemma served_run f a w w' (Q : A -> HybridWriter -> Prop) F :
  f w = (Ok a, w') -> hw_script w' = hw_script w -> Q a w' -> served (io_run f) w Q F.
Proof. unfold served, io_run. intros -> -> H. by split. Qed.
Lemma attempt_pair (m : io HybridPair A) w (P : A -> HybridPair -> Prop) G :
  attempt hp_script m (hw_pair w) P G ->
  attempt hw_script (on_hpair m) w (fun a w' => exists p, w' = set_hpair w p /\ P a p) (fun w' => exists p, w' = set_hpair w p /\ G p).
Proof. unfold attempt, on_hpair. destruct (m (hw_pair w)) as [[a|[e| |]] p]; try done; intros [? ?]; split; eauto. Qed.
Lemma attempt_served m w (P : A -> HybridWriter -> Prop) G : attempt hw_script m w P G -> served m w P G.
Proof. unfold attempt, served. destruct (m w) as [[a|[e| |]] p]; try done. intros [? ?]. split; [by left|done]. Qed.
(** Where an error fails the writer. *)
Lemma served_sure m w (P : A -> HybridWriter -> Prop) :
  served m w P (fun _ => True) -> served (sure m) w P (fun w' => hw_failed w' = true).
Proof. unfold served, sure. destruct (m w) as [[a|[e| |]] w']; try done. intros [H _]. split; [exact H|done]. Qed.
End Served.

(** ** The device *)

Definition cell_at (f : file) (c : cell) (i : Z) : Z :=
  match c with Data _ p => f_byte f (p * 512 + i) | _ => 0 end.
Definition dev (w : HybridWriter) (x : Z) : Z :=
  cell_at (hp_data (hw_pair w)) (resolve (hw_mappings w) (x / 512)) (x mod 512).

Section Device.
Context (uuid : Z -> bytes).
(** The first [supply] UUIDs generated each make a generation of their own. *)
Context (supply : Z) (Hgen : forall n, 0 <= n < supply -> generation_ok (uuid n)).
Context (Hfresh : forall i j, 0 <= i < supply -> 0 <= j < supply -> generation_of (uuid i) = generation_of (uuid j) -> i = j).

(** A writer in service; [Q] is what the pair promises to come back with. *)
Record hw_ok (Q : bytes -> Prop) (w : HybridWriter) (s : LogStamp) : Prop := {
  ho_active : hw_failed w = false;
  ho_size : 0 < hw_virtual_size w /\ hw_virtual_size w mod 512 = 0 /\ hw_virtual_size w / 512 <= kMaxOffset /\
    ht_virtual_size (hp_header (hw_pair w)) = hw_virtual_size w;
  ho_data : hw_data_end w = f_size (hp_data (hw_pair w)) /\ hw_data_end w mod 512 = 0 /\ kSpace <= hw_data_end w <= kInt64Max;
  ho_owned : owned_index (hw_virtual_size w / 512) (hw_data_end w / 512) (hw_mappings w);
  ho_count : zlen (hw_mappings w) <= kMaxRoIndexSize;
  ho_live : live Q (hw_pair w) s;
  ho_end : hw_index_end w = ls_bytes s;
  ho_writable : hp_writable (hw_pair w) = true;
  ho_logs : logs (hw_virtual_size w / 512) (hw_data_end w / 512) (live_log (hw_pair w)) (hw_mappings w);
  ho_header : exists raw, serialize (hybrid_index_header (hp_header (hw_pair w))) = Ok raw /\ zlen raw = kSpace;
  ho_uuids : 0 <= hw_uuids w /\ forall n, hw_uuids w <= n < supply -> generation_of (uuid n) <> ls_generation s;
}.

(** What no operation changes. *)
Definition kin (w w' : HybridWriter) : Prop :=
  hw_virtual_size w' = hw_virtual_size w /\ hw_sealed w' = hw_sealed w /\ hp_header (hw_pair w') = hp_header (hw_pair w).
(** Soundness after an operation, with what holds of the device. *)
Definition sound (w : HybridWriter) (P : HybridWriter -> Prop) (w' : HybridWriter) : Prop :=
  hw_failed w' = true \/ kin w w' /\ (exists Q s, hw_ok Q w' s) /\ P w'.

Section Facts.
Context (Q : bytes -> Prop) (w : HybridWriter) (s : LogStamp) (Hw : hw_ok Q w s).

Lemma ok_sectors : 0 <= hw_virtual_size w / 512 <= kMaxOffset.
Proof. destruct (ho_size _ _ _ Hw) as (? & ? & ? & _). split; [|done]. apply Z.div_pos; lia. Qed.
Lemma ok_payload : kDataStartSector <= hw_data_end w / 512 < kMaxMoffset.
Proof.
  destruct (ho_data _ _ _ Hw) as (_ & _ & [H1 H2]). change kDataStartSector with 8. unfold kSpace, kInt64Max, kMaxMoffset in *.
  split; [apply Z.div_le_lower_bound; lia|]. apply Z.div_lt_upper_bound; lia.
Qed.
End Facts.

(** ** Reading *)

Lemma read_data_ok w f off n :
  f = hp_data (hw_pair w) -> 0 <= off -> 0 <= n -> off + n <= f_size f ->
  attempt hw_script (on_hpair (data_read off n)) w
    (fun bs w' => exists t, w' = set_hpair w (set_hscript (hw_pair w) t) /\ bs = slice (f_byte f) off n)
    (fun w' => exists t, w' = set_hpair w (set_hscript (hw_pair w) t)).
Proof.
  intros -> H1 H2 H3. eapply attempt_mono; [apply (attempt_pair (data_read off n) w (fun bs p => same (hw_pair w) p /\ bs = slice (f_byte (hp_data (hw_pair w))) off n) (same (hw_pair w)))| |].
  - exact (read_computes (hp_data (hw_pair w)) off n H1 H2 H3 (hw_pair w)).
  - intros bs w' (p & -> & [t ->] & ->). eauto.
  - intros w' (p & -> & [t ->]). eauto.
Qed.

Lemma read_mappings_ok z start stop l out w f d :
  f = hp_data (hw_pair w) -> index_ok z l -> start < stop -> zlen out = (stop - start) * 512 -> 0 <= start -> d * 512 <= f_size f ->
  Forall (fun m => s_zeroed m = false -> 0 <= s_moffset m /\ s_moffset m + s_length m <= d) l ->
  attempt hw_script (read_mappings start stop l out) w
    (fun bs w' => (exists t, w' = set_hpair w (set_hscript (hw_pair w) t)) /\ zlen bs = zlen out /\
       forall i, 0 <= i < zlen out -> bget bs i = match resolve l (start + i / 512) with
                                      | Data _ p => f_byte f (p * 512 + i mod 512)
                                      | _ => bget out i end)
    (fun w' => exists t, w' = set_hpair w (set_hscript (hw_pair w) t)).
Proof.
  intros Hf Hl Hlt Hz H0 Hd Hdata. revert z out w Hf Hl Hz. induction Hdata as [|m l Hm Hdata IH]; intros z out w Hf Hl Hz; cbn [read_mappings].
  { apply attempt_ret. split; [exists (hp_script (hw_pair w)); by destruct w as [[] ? ? ? ? ? ? ? ?]|]. done. }
  apply index_ok_cons in Hl as (Hok & Hzm & Hl). rewrite seg_ok_end by done. pose proof Hok as (_ & Hlen & _).
  assert (forall i, 0 <= i < zlen out -> start <= start + i / 512 < stop) as Hin.
  { intros i Hi. assert (0 <= i / 512 < stop - start); [|lia]. split; [apply Z.div_pos; lia|apply Z.div_lt_upper_bound; lia]. }
  destruct (Z.leb_spec (fin m) start) as [H1|H1].
  { eapply attempt_mono; [by apply (IH (fin m) out w)| |done]. intros bs w' (E & E1 & E2). split; [done|]. split; [done|].
    intros i Hi. rewrite E2 by done. cbn [resolve]. rewrite (proj2 (covers_false m _)); [done|]. specialize (Hin i Hi). lia. }
  destruct (Z.leb_spec stop (s_offset m)) as [H2|H2].
  { apply attempt_ret. split; [exists (hp_script (hw_pair w)); by destruct w as [[] ? ? ? ? ? ? ? ?]|]. split; [done|].
    intros i Hi. specialize (Hin i Hi). rewrite (resolve_below stop (m :: l)); [done| |lia]. apply index_ok_cons. by split_and!. }
  destruct (s_zeroed m) eqn:Hzero.
  { eapply attempt_mono; [by apply (IH (fin m) out w)| |done]. intros bs w' (E & E1 & E2). split; [done|]. split; [done|].
    intros i Hi. rewrite E2 by done. cbn [resolve]. destruct (covers m _) eqn:C; [|done].
    rewrite (resolve_below (fin m) l) by (done || by apply covers_true in C; lia). unfold seg_cell. by rewrite Hzero. }
  cbv zeta. set (first := Z.max start (s_offset m)). set (last := Z.min stop (fin m)). destruct (Hm eq_refl) as [M1 M2].
  assert (first < last) as Hfl by (unfold first, last, fin in *; lia). assert (last <= fin m) as Hlast by lia. unfold fin in Hlast.
  eapply attempt_bind; [apply (read_data_ok w f); [done|lia|lia|lia]|]. intros b w1 (t & -> & ->).
  set (piece := slice (f_byte f) ((s_moffset m + first - s_offset m) * 512) ((last - first) * 512)).
  assert (zlen piece = (last - first) * 512) as Hzp by (unfold piece; rewrite zlen_slice; lia).
  assert (zlen (put out ((first - start) * 512) piece) = zlen out) as Hzo by (apply zlen_put; lia).
  eapply attempt_mono; [apply (IH (fin m) (put out ((first - start) * 512) piece) (set_hpair w (set_hscript (hw_pair w) t))); [done|done|by rewrite Hzo]| |].
  - intros bs w' ([t' ->] & E1 & E2). split; [by exists t'|]. split; [by rewrite E1|]. intros i Hi. rewrite E2 by (by rewrite Hzo).
    specialize (Hin i Hi). pose proof (Z.div_mod i 512 ltac:(lia)) as Hdm. pose proof (Z.mod_pos_bound i 512 ltac:(lia)) as Hmb.
    cbn [resolve]. destruct (covers m (start + i / 512)) eqn:C.
    + apply covers_true in C. rewrite (resolve_below (fin m) l) by (done || lia). unfold seg_cell. rewrite Hzero.
      rewrite bget_put by lia. rewrite decide_True by (unfold first, last; lia). unfold piece. rewrite bget_slice by lia. f_equal. lia.
    + apply covers_false in C. destruct (resolve l _); [..|done]; rewrite bget_put by lia; rewrite decide_False; unfold first, last in *; try done; lia.
  - intros w' [t' ->]. by exists t'.
Qed.

(** Only the script moves on. *)
Definition stepped (w w' : HybridWriter) : Prop := exists t, w' = set_hpair w (set_hscript (hw_pair w) t).

Lemma pread_ok Q w s count offset :
  hw_ok Q w s -> offset mod 512 = 0 -> count mod 512 = 0 -> 0 <= offset -> 0 <= count ->
  attempt hw_script (writer_pread count offset) w
    (fun bs w' => stepped w w' /\ bs = slice (dev w) offset (Z.max 0 (Z.min count (hw_virtual_size w - offset))))
    (stepped w).
Proof.
  intros Hw Ho Hc Ho0 Hc0. unfold writer_pread.
  assert (stepped w w) as Hrefl by (exists (hp_script (hw_pair w)); by destruct w as [[] ? ? ? ? ? ? ? ?]).
  destruct (ho_size _ _ _ Hw) as (V1 & V2 & V3 & _). destruct (ho_data _ _ _ Hw) as (D1 & D2 & D3 & _).
  destruct (Z.leb_spec (hw_virtual_size w) offset) as [Hend|Hend].
  { apply (attempt_as _ _ (mret [])).
    - rewrite Ho, Hc, (ho_active _ _ _ Hw), (proj2 (Z.leb_le _ _)) by done. done.
    - apply attempt_ret. split; [done|]. rewrite slice_nil by lia. done. }
  set (n := Z.min count (hw_virtual_size w - offset)).
  apply (attempt_as _ _ (if n =? 0 then mret [] else read_mappings (offset / 512) ((offset + n) / 512) (hw_mappings w) (zeros n))).
  { rewrite Ho, Hc, (ho_active _ _ _ Hw), (proj2 (Z.leb_gt _ _)) by done. cbn [negb orb Z.eqb]. fold n. by destruct (n =? 0). }
  destruct (Z.eqb_spec n 0) as [E|E].
  { apply attempt_ret. split; [done|]. rewrite slice_nil by lia. done. }
  assert (n mod 512 = 0) as Hn.
  { unfold n. destruct (Z.min_spec count (hw_virtual_size w - offset)) as [[_ ->]|[_ ->]]; [done|].
    rewrite Zminus_mod, V2, Ho. done. }
  assert ((offset + n) / 512 = offset / 512 + n / 512) as Hdiv.
  { rewrite (Z.div_mod offset 512) at 1 by lia. rewrite Ho, Z.add_0_r, Z.mul_comm, Z.div_add_l by lia. done. }
  assert (n = 512 * (n / 512)) as Hn' by (rewrite (Z.div_mod n 512) at 1; lia).
  assert (offset = 512 * (offset / 512)) as Hoff by (rewrite (Z.div_mod offset 512) at 1; lia).
  pose proof (ho_owned _ _ _ Hw) as Hown.
  eapply attempt_mono; [apply (read_mappings_ok 0 _ _ _ _ w (hp_data (hw_pair w)) (hw_data_end w / 512)); [done|apply Hown|lia| |apply Z.div_pos; lia| |]| |].
  - rewrite zlen_zeros by lia. lia.
  - rewrite <- D1. pose proof (Z.mul_div_le (hw_data_end w) 512 ltac:(lia)). lia.
  - apply Forall_forall. intros m Hin Hz. destruct (owned_elem _ _ (ok_payload _ _ _ Hw) _ m Hown Hin) as (_ & _ & _ & [[_ ?]|(_ & ? & ?)]); [congruence|].
    change kDataStartSector with 8 in *. lia.
  - intros bs w' ([t ->] & E1 & E2). split; [by exists t|]. rewrite zlen_zeros in E1, E2 by lia.
    rewrite Z.max_r by lia. apply list_eq_bget; [rewrite zlen_slice; lia|]. intros i Hi. rewrite E1 in Hi.
    rewrite E2, bget_slice by lia. unfold dev, cell_at.
    assert ((offset + i) / 512 = offset / 512 + i / 512) as ->.
    { rewrite Hoff at 1. rewrite (Z.mul_comm 512), Z.div_add_l by lia. done. }
    assert ((offset + i) mod 512 = i mod 512) as -> by (rewrite <- Zplus_mod_idemp_l, Ho; done).
    destruct (resolve _ _); [by apply bget_zeros|by apply bget_zeros|done].
  - intros w' [t ->]. by exists t.
Qed.

(** ** Where a change goes *)

Lemma resolve_claim l x t p sectors d :
  kDataStartSector <= d < kMaxMoffset -> owned_index sectors d l -> resolve l x = Data t p -> resolve (claim <$> l) x = Data t p.
Proof.
  intros Hd Hl Hx. pose proof Hx as (m & Hin & Hz & Hc & Hp)%resolve_data_inv.
  assert (resolve l x = seg_cell m x) as E by (apply (resolve_elem 0); [apply Hl|done|done]).
  rewrite (resolve_elem 0 (claim m)); [|by apply (owned_views sectors d Hd l Hl)|apply list_elem_of_fmap; by exists m|done].
  rewrite <- Hx, E. unfold seg_cell, claim. cbn. rewrite Hz.
  destruct (owned_elem sectors d Hd l m Hl Hin) as (_ & _ & _ & [[_ ?]|(? & _)]); [congruence|].
  by rewrite (proj2 (Z.eqb_neq _ _)).
Qed.

(** The mapping that covers a sector, or the room before the next one. *)
Lemma target_at sectors d l sector :
  kDataStartSector <= d < kMaxMoffset -> owned_index sectors d l ->
  match l !! upper_bound (fun m => sector <? seg_end m) l with
  | Some m => m ∈ l /\ seg_end m = fin m /\ sector < fin m /\
      (sector < s_offset m -> forall x, sector <= x < s_offset m -> resolve l x = Hole)
  | None => forall x, sector <= x -> resolve l x = Hole
  end.
Proof.
  intros Hd Hl. pose proof (oi_index _ _ _ Hl) as Hi. set (p := fun m => sector <? seg_end m).
  assert (partitioned p l) as Hp.
  { intros i j m m' Hij Hm Hm' Hpm. unfold p in *.
    pose proof Hi as [Hok _]. rewrite Forall_lookup in Hok. rewrite seg_ok_end in * by eauto.
    destruct (decide (i = j)) as [->|]; [congruence|]. pose proof (index_ok_lookup 0 l i j m m' Hi ltac:(lia) Hm Hm').
    destruct (Hok j m' Hm') as (_ & ? & _). unfold fin in *. lia. }
  destruct (upper_bound_spec p l Hp) as [H1 H2].
  assert (forall x, sector <= x -> resolve (take (upper_bound p l) l) x = Hole) as Hbelow.
  { intros x Hx. pose proof Hi as Hi'. rewrite <- (take_drop (upper_bound p l) l) in Hi'. apply index_ok_app in Hi' as [[Hi' _] _].
    revert H1 Hi'. generalize (take (upper_bound p l) l). intros k H1 Hk. induction Hk as [|a k Ha Hk IH]; [done|].
    apply Forall_cons in H1 as [Ha' H1]. cbn [resolve]. unfold p in Ha'. rewrite seg_ok_end in Ha' by done.
    rewrite (proj2 (covers_false a x)) by lia. by apply IH. }
  destruct (l !! upper_bound p l) as [m|] eqn:E.
  - pose proof (drop_S l m _ E) as Hdrop. rewrite Hdrop in H2. apply Forall_cons in H2 as [H2 _].
    assert (m ∈ l) as Hin by by eapply list_elem_of_lookup_2.
    destruct (owned_elem sectors d Hd l m Hl Hin) as (Hm & _). pose proof (seg_ok_end m Hm) as He. unfold p in H2. rewrite He in H2.
    split; [done|]. split; [done|]. split; [lia|]. intros Hlt x Hx. rewrite <- (take_drop (upper_bound p l) l), resolve_app, Hbelow by lia.
    cbn [over]. rewrite Hdrop. pose proof Hi as Hi'. rewrite <- (take_drop (upper_bound p l) l) in Hi'. apply index_ok_app_r in Hi'.
    rewrite Hdrop in Hi'. apply (resolve_below (s_offset m)); [|lia]. apply index_ok_cons in Hi' as (? & _ & ?). by apply index_ok_cons.
  - intros x Hx. rewrite <- (take_drop (upper_bound p l) l), resolve_app, Hbelow by lia. rewrite drop_ge; [done|].
    by apply lookup_ge_None_1.
Qed.

(** The change of [sectors] a target describes. *)
Record aimed (w : HybridWriter) (sector left : Z) (zero : bool) (t : Target) : Prop := {
  am_mapping : s_offset (tg_mapping t) = sector /\ s_zeroed (tg_mapping t) = zero /\ s_tag (tg_mapping t) = 0;
  am_length : 0 < s_length (tg_mapping t) <= left /\ s_length (tg_mapping t) <= kMaxLength;
  am_payload :
    if tg_backed t
    then exists c, tg_covered_zero t = s_zeroed c /\ tg_transition t = negb (eqb (s_zeroed c) zero) /\
           forall x, sector <= x < fin (tg_mapping t) ->
             resolve (claim <$> hw_mappings w) x = Data 0 (s_moffset (tg_mapping t) + (x - sector)) /\
             resolve (hw_mappings w) x =
               if s_zeroed c then Zero else Data 0 (s_moffset (tg_mapping t) + (x - sector))
    else tg_transition t = true /\ s_moffset (tg_mapping t) = hw_data_end w / 512;
}.

Lemma target_ok Q w s sector left zero :
  hw_ok Q w s -> 0 <= sector -> 0 < left -> sector + left <= hw_virtual_size w / 512 ->
  aimed w sector left zero (target w sector left zero).
Proof.
  intros Hw Hs0 Hl0 Hb. pose proof (ok_sectors _ _ _ Hw) as Hsec. pose proof (ok_payload _ _ _ Hw) as Hpay.
  pose proof (ho_owned _ _ _ Hw) as Hown. pose proof (target_at _ _ _ sector Hpay Hown) as Hat. unfold target.
  unfold kMaxOffset, kMaxLength in *.
  destruct (hw_mappings w !! _) as [c|].
  2:{ cbn [andb negb orb]. split; cbn [tg_mapping tg_backed tg_transition s_offset s_length s_zeroed s_tag s_moffset].
      - done.
      - unfold kMaxLength. rewrite u32_small by lia. lia.
      - done. }
  destruct Hat as (Hin & He & Hlt & Hhole). rewrite He.
  destruct (owned_elem _ _ Hpay _ c Hown Hin) as (Hc & Hct & Hcf & Hck).
  destruct (Z.leb_spec (s_offset c) sector) as [Hcov|Hcov]; cbn [andb negb orb].
  2:{ split; cbn [tg_mapping tg_backed tg_transition s_offset s_length s_zeroed s_tag s_moffset].
      - done.
      - unfold kMaxLength. rewrite u32_small by lia. lia.
      - done. }
  destruct Hck as [[Hno Hz]|(Hno & K1 & K2)].
  { rewrite Hno, Z.eqb_refl. cbn [negb]. split; cbn [tg_mapping tg_backed tg_transition s_offset s_length s_zeroed s_tag s_moffset].
    - done.
    - unfold kMaxLength. rewrite u32_small by lia. lia.
    - split; [apply orb_true_r|done]. }
  rewrite (proj2 (Z.eqb_neq _ _)) by done. cbn [negb]. split; cbn [tg_mapping tg_backed tg_transition tg_covered_zero s_offset s_length s_zeroed s_tag s_moffset].
  - done.
  - unfold kMaxLength. rewrite u32_small by lia. lia.
  - exists c. split; [done|]. split; [by rewrite orb_false_r|]. unfold fin at 1. cbn [s_offset s_length]. unfold kMaxLength.
    rewrite u32_small by lia. intros x Hx. assert (s_offset c <= x < fin c) as Hxc by lia. unfold untagged in Hct. split.
    + rewrite (resolve_elem 0 (claim c)); [|by apply (owned_views _ _ Hpay _ Hown)|apply list_elem_of_fmap; by exists c|done].
      unfold seg_cell, claim. cbn. rewrite (proj2 (Z.eqb_neq _ _)) by done. rewrite Hct. f_equal. lia.
    + rewrite (resolve_elem 0 c); [|apply Hown|done|done]. unfold seg_cell. rewrite Hct. destruct (s_zeroed c); [done|]. f_equal. lia.
Qed.

(** ** One change *)

(** The device with the bytes of [g] from [a] to [b]. *)
Definition rewritten (w : HybridWriter) (g : Z -> Z) (a b : Z) (w' : HybridWriter) : Prop :=
  forall x, dev w' x = if decide (a <= x < b) then g x else dev w x.

Lemma sector_in x a n : a * 512 <= x < (a + n) * 512 <-> a <= x / 512 < a + n.
Proof.
  pose proof (Z.div_mod x 512 ltac:(lia)). pose proof (Z.mod_pos_bound x 512 ltac:(lia)). lia.
Qed.

Lemma dev_update w w' sector n p0 (zero : bool) (bs : bytes) :
  zlen bs = n * 512 ->
  (forall x, resolve (hw_mappings w') x =
     if decide (sector <= x < sector + n) then (if (zero : bool) then Zero else Data 0 (p0 + (x - sector))) else resolve (hw_mappings w) x) ->
  hp_data (hw_pair w') = file_write (hp_data (hw_pair w)) (p0 * 512) bs \/
    zero = true /\ hp_data (hw_pair w') = hp_data (hw_pair w) ->
  (forall x t p, ~ (sector <= x < sector + n) -> resolve (hw_mappings w) x = Data t p -> ~ (p0 <= p < p0 + n)) ->
  rewritten w (fun x => if zero then 0 else bget bs (x - sector * 512)) (sector * 512) ((sector + n) * 512) w'.
Proof.
  intros Hz Hr Hf Hout x. unfold dev. rewrite Hr. pose proof (sector_in x sector n) as Hx.
  pose proof (Z.div_mod x 512 ltac:(lia)) as Hdm. pose proof (Z.mod_pos_bound x 512 ltac:(lia)) as Hmb.
  destruct (decide (sector <= x / 512 < sector + n)) as [H|H].
  - rewrite decide_True by tauto. destruct zero; [done|]. cbn [cell_at]. destruct Hf as [->|[? _]]; [|done].
    rewrite f_byte_write_in by lia. f_equal. lia.
  - rewrite decide_False by tauto. unfold cell_at. destruct (resolve (hw_mappings w) (x / 512)) as [| |t p] eqn:E; try done.
    destruct Hf as [->|[_ ->]]; [|done]. apply f_byte_write_out. specialize (Hout _ _ _ H E). lia.
Qed.

Lemma data_write_ok p bs off :
  attempt hp_script (data_write bs off) p
    (fun _ p' => exists t, p' = set_hdata (set_hscript p t) (file_write (hp_data p) off bs)) (fun _ => True).
Proof.
  unfold attempt, data_write, mbind, io_bind, h_step. pose proof (next_outcome_spec (hp_script p)) as Hn.
  destruct (next_outcome (hp_script p)) as [[|k e] t]; cbn; destruct Hn as [Hsub Hf].
  - split; [done|]. by exists t.
  - split; [by eapply Hf|done].
Qed.

(** What the pair holds after the payload and the record went out. *)
Definition changed (Q : bytes -> Prop) (p : HybridPair) (s : LogStamp) (f : file) (record : option bytes) (p' : HybridPair) : Prop :=
  let s' := match record with Some r => advance s r | None => s end in
  live Q p' s' /\ live_log p' = live_log p ++ default [] record /\ hp_data p' = f /\
  hp_header p' = hp_header p /\ hp_writable p' = hp_writable p /\ hp_generation p' = hp_generation p.

Lemma change_ok Q w s t zero bs :
  hw_ok Q w s -> (tg_transition t = true -> seg_encodable (tg_mapping t) /\ (ls_bytes s - kSpace) / 16 < kMaxLogRecords) ->
  let m := tg_mapping t in
  let f := if negb zero || negb (tg_backed t) then file_write (hp_data (hw_pair w)) (s_moffset m * 512) bs else hp_data (hw_pair w) in
  served (change t zero bs) w
    (fun _ w' => exists p, w' = set_hpair w p /\
       changed Q (hw_pair w) s f (if tg_transition t then Some (encode_record m) else None) p)
    (fun w' => hw_failed w' = true).
Proof.
  intros Hw Hrec m f. unfold change. cbv zeta. fold m. apply served_sure, attempt_served.
  apply (attempt_bind _ _ _ _ (fun _ w' => exists t', w' = set_hpair w (set_hdata (set_hscript (hw_pair w) t') f))).
  { unfold f. destruct (negb zero || negb (tg_backed t)).
    - eapply attempt_mono; [apply attempt_pair, data_write_ok| |done]. intros u w' (p & -> & t' & ->). by exists t'.
    - apply attempt_ret. exists (hp_script (hw_pair w)). by destruct w as [[] ? ? ? ? ? ? ? ?]. }
  intros u w1 [t' ->]. pose proof (ho_live _ _ _ Hw) as Hl. destruct (tg_transition t).
  - destruct (Hrec eq_refl) as [He Hroom]. rewrite (ho_end _ _ _ Hw).
    eapply attempt_mono; [apply (attempt_pair _ (set_hpair w (set_hdata (set_hscript (hw_pair w) t') f))),
      (append_record_ok Q (set_hdata (set_hscript (hw_pair w) t') f) s (encode_record m) Hl); [by apply zlen_encode_record|done]| |done].
    intros v w' (p & -> & H1 & H2 & (F1 & F2 & F3 & F4)). exists p. split; [done|]. split_and!; done.
  - apply attempt_ret. eexists. split; [done|]. split; [exact Hl|]. split; [symmetry; apply app_nil_r|done].
Qed.

Section Change.
Context (Q : bytes -> Prop) (w : HybridWriter) (s : LogStamp) (Hw : hw_ok Q w s).
Context (sector left : Z) (zero : bool) (t : Target) (Ht : aimed w sector left zero t).
Context (Hsec : 0 <= sector) (Hin : sector + left <= hw_virtual_size w / 512).
Let m := tg_mapping t.
Let size := s_length m * 512.
Let d := hw_data_end w / 512.
Let data_end := if tg_backed t then hw_data_end w else hw_data_end w + size.
Context (Hroom : data_end <= kInt64Max).

Lemma aimed_mapping : seg_ok m /\ untagged m /\ fin m <= hw_virtual_size w / 512 /\ kDataStartSector <= s_moffset m /\ s_moffset m + s_length m <= data_end / 512.
Proof.
  destruct (am_mapping _ _ _ _ _ Ht) as (A1 & A2 & A3). destruct (am_length _ _ _ _ _ Ht) as (A4 & A5).
  pose proof (ok_payload _ _ _ Hw) as Hp. pose proof (ok_sectors _ _ _ Hw) as Hs. fold m in A1, A2, A3, A4, A5.
  assert (kDataStartSector <= s_moffset m /\ s_moffset m + s_length m <= data_end / 512) as Hpay.
  { pose proof (am_payload _ _ _ _ _ Ht) as H. unfold data_end, size. destruct (tg_backed t).
    - destruct H as (c & _ & _ & H). fold m in H.
      destruct (H sector ltac:(unfold fin; lia)) as [H1 _]. destruct (H (fin m - 1) ltac:(unfold fin; lia)) as [H2 _].
      pose proof (owned_below _ _ Hp _ (ho_owned _ _ _ Hw) _ _ _ H2) as Hb.
      apply resolve_data_inv in H1 as (c1 & Hc1 & Hz1 & Hx1 & E1). apply list_elem_of_fmap in Hc1 as (c2 & -> & Hc2).
      destruct (owned_elem _ _ Hp _ c2 (ho_owned _ _ _ Hw) Hc2) as (_ & _ & _ & [[E _]|(_ & K1 & _)]).
      { unfold claim in Hz1. cbn in Hz1. by rewrite E, Z.eqb_refl in Hz1. }
      unfold claim, fin in *. cbn in *. lia.
    - destruct H as [_ H]. fold m in H. rewrite H. rewrite Z.div_add by lia. lia. }
  split; [|split; [done|split; [unfold fin; lia|done]]].
  assert (data_end / 512 < kMaxMoffset) as Hlt by (unfold kInt64Max, kMaxMoffset in *; apply Z.div_lt_upper_bound; lia).
  unfold kMaxMoffset in Hlt. change kDataStartSector with 8 in Hpay. unfold seg_ok. rewrite A3. do 4 (split; [lia|]). intros _. lia.
Qed.

Lemma aimed_encodable : seg_encodable m.
Proof.
  destruct aimed_mapping as ((M1 & M2 & M3 & M4 & _) & _ & _ & _ & M5).
  assert (data_end / 512 < kMaxMoffset) as Hlt by (unfold kInt64Max, kMaxMoffset in *; apply Z.div_lt_upper_bound; lia).
  unfold seg_encodable. lia.
Qed.

(** Payload that is not the target's own is somewhere else. *)
Lemma aimed_apart x u p :
  ~ (sector <= x < sector + s_length m) -> resolve (hw_mappings w) x = Data u p -> ~ (s_moffset m <= p < s_moffset m + s_length m).
Proof.
  intros Hx Hr Hp. pose proof (ok_payload _ _ _ Hw) as Hpay. pose proof (ho_owned _ _ _ Hw) as Hown.
  pose proof (resolve_claim _ _ _ _ _ _ Hpay Hown Hr) as Hc. destruct (am_mapping _ _ _ _ _ Ht) as (A1 & _). fold m in A1.
  pose proof (am_payload _ _ _ _ _ Ht) as H. destruct (tg_backed t).
  - destruct H as (c & _ & _ & H). fold m in H. destruct (H (sector + (p - s_moffset m)) ltac:(unfold fin; lia)) as [H1 _].
    replace (s_moffset m + _) with p in H1 by lia. pose proof (oi_exclusive _ _ _ Hown _ _ _ _ _ Hc H1). lia.
  - destruct H as [_ H]. fold m in H. pose proof (owned_below _ _ Hpay _ Hown _ _ _ Hc). lia.
Qed.

Let f (bs : bytes) := if negb zero || negb (tg_backed t) then file_write (hp_data (hw_pair w)) (s_moffset m * 512) bs else hp_data (hw_pair w).

Lemma change_size bs : zlen bs = size -> data_end = f_size (f bs) /\ data_end mod 512 = 0 /\ kSpace <= data_end <= kInt64Max.
Proof.
  intros Hz. destruct (ho_data _ _ _ Hw) as (D1 & D2 & D3 & D4). destruct aimed_mapping as ((_ & M2 & _) & _ & _ & M3 & M4).
  unfold f. revert Hroom M4. unfold data_end, size in *. pose proof (am_payload _ _ _ _ _ Ht) as H.
  destruct (tg_backed t); intros Hroom M4; cbn [negb].
  - split; [|done]. rewrite orb_false_r. destruct zero; cbn [negb]; [done|]. rewrite f_size_write_end by lia.
    pose proof (Z.mul_div_le (hw_data_end w) 512 ltac:(lia)). lia.
  - rewrite orb_true_r, f_size_write_end by lia. destruct H as [_ H]. fold m in H.
    assert (hw_data_end w = 512 * (hw_data_end w / 512)) as E by (rewrite (Z.div_mod (hw_data_end w) 512) at 1; lia).
    split; [lia|]. split; [|lia]. rewrite Z.mod_add; lia.
Qed.

Definition published (next : list segment_mapping) (p : HybridPair) : HybridWriter :=
  let w1 := set_hpair w p in
  let w2 := if tg_backed t then w1 else set_hdata_end w1 (hw_data_end w1 + size) in
  if tg_transition t then set_mappings w2 next (hw_index_end w2 + 16) else w2.

Context (next : list segment_mapping) (Hnext : tg_transition t = true -> mappings_replace (hw_mappings w) m = Ok next).
Context (bs : bytes) (Hbs : zlen bs = size).

Lemma published_fields p :
  hw_pair (published next p) = p /\ hw_virtual_size (published next p) = hw_virtual_size w /\
  hw_data_end (published next p) = data_end /\ hw_failed (published next p) = hw_failed w /\
  hw_sealed (published next p) = hw_sealed w /\ hw_uuids (published next p) = hw_uuids w /\
  hw_mappings (published next p) = (if tg_transition t then next else hw_mappings w) /\
  hw_index_end (published next p) = hw_index_end w + (if tg_transition t then 16 else 0).
Proof. unfold published, data_end. destruct (tg_transition t), (tg_backed t); cbn; rewrite ?Z.add_0_r; by split_and!. Qed.

Lemma replaced_ok : tg_transition t = true ->
  owned_index (hw_virtual_size w / 512) (data_end / 512) next /\ replaces (hw_mappings w) m next /\ zlen next <= kMaxRoIndexSize /\
  normal <$> next = emplace (cut (s_offset m) (fin m) (normal <$> hw_mappings w)) (normal m).
Proof.
  intros Htr. destruct aimed_mapping as (M1 & M2 & M3 & M4 & M5). pose proof (ok_payload _ _ _ Hw) as Hpay.
  assert (d <= data_end / 512 < kMaxMoffset) as Hd'.
  { destruct (change_size bs Hbs) as (_ & _ & _ & ?). destruct M1 as (_ & ? & _). split.
    - unfold d, data_end, size. destruct (tg_backed t); [done|]. rewrite Z.div_add by lia. lia.
    - unfold kInt64Max, kMaxMoffset in *. apply Z.div_lt_upper_bound; lia. }
  apply (mappings_replace_ok (hw_virtual_size w / 512) d (data_end / 512) (ok_sectors _ _ _ Hw) Hpay Hd' (hw_mappings w) m
    (ho_owned _ _ _ Hw) M1 M2 M3 (conj M4 M5)); [|by apply Hnext].
  destruct (am_mapping _ _ _ _ _ Ht) as (A1 & _). fold m in A1. pose proof (am_payload _ _ _ _ _ Ht) as H. destruct (tg_backed t).
  - right. destruct H as (c & _ & _ & H). intros x Hx. fold m in H. rewrite A1 in *. by apply H.
  - left. destruct H as [_ H]. unfold d. rewrite <- H. done.
Qed.

Context (p : HybridPair) (Hp : changed Q (hw_pair w) s (f bs) (if tg_transition t then Some (encode_record m) else None) p).

Lemma published_ok : exists s', hw_ok Q (published next p) s'.
Proof.
  destruct (published_fields p) as (F1 & F2 & F3 & F4 & F5 & F6 & F7 & F8). pose proof Hp as (C1 & C2 & C3 & C4 & C5 & C6).
  destruct (ho_size _ _ _ Hw) as (V1 & V2 & V3 & V4). pose proof (change_size bs Hbs) as Hsz.
  destruct aimed_mapping as (M1 & M2 & M3 & M4 & M5). pose proof aimed_encodable as He. pose proof replaced_ok as Hrep.
  assert (kDataStartSector <= data_end / 512 < kMaxMoffset) as Hd'.
  { destruct Hsz as (_ & _ & H1 & H2). unfold kSpace in H1. change kDataStartSector with 8. unfold kInt64Max, kMaxMoffset in *.
    split; [apply Z.div_le_lower_bound; lia|apply Z.div_lt_upper_bound; lia]. }
  assert (d <= data_end / 512) as Hle.
  { unfold d, data_end, size. destruct M1 as (_ & ? & _). destruct (tg_backed t); [done|]. rewrite Z.div_add by lia. lia. }
  set (s' := match (if tg_transition t then Some (encode_record m) else None) with Some r => advance s r | None => s end) in C1.
  assert (ls_generation s' = ls_generation s) as Eg by (unfold s'; by destruct (tg_transition t)).
  assert (logs (hw_virtual_size w / 512) (data_end / 512) (live_log (hw_pair w)) (hw_mappings w)) as Hlogs
    by (eapply logs_mono; [exact Hle|apply (ho_logs _ _ _ Hw)]).
  exists s'. split; rewrite ?F1, ?F2, ?F3, ?F4, ?F6, ?F7, ?F8, ?C4, ?C5, ?Eg.
  - apply (ho_active _ _ _ Hw).
  - by split_and!.
  - rewrite C3. exact Hsz.
  - destruct (tg_transition t) eqn:Et; [by apply Hrep|]. pose proof (am_payload _ _ _ _ _ Ht) as H.
    unfold data_end. destruct (tg_backed t); [apply (ho_owned _ _ _ Hw)|]. destruct H. congruence.
  - destruct (tg_transition t) eqn:Et; [by apply Hrep|apply (ho_count _ _ _ Hw)].
  - done.
  - unfold s'. rewrite (ho_end _ _ _ Hw). destruct (tg_transition t); cbn; [by rewrite zlen_encode_record|lia].
  - apply (ho_writable _ _ _ Hw).
  - rewrite C2. destruct (tg_transition t) eqn:Et; cbn [default]; [|by rewrite app_nil_r].
    destruct Hrep as (R1 & R2 & R3 & R4); [done|].
    by apply (logs_append _ _ (ok_sectors _ _ _ Hw) Hd' _ (hw_mappings w)).
  - apply (ho_header _ _ _ Hw).
  - apply (ho_uuids _ _ _ Hw).
Qed.

(** A change that is not skipped: a discard of what reads as zero and has its
    payload would be. *)
Context (Hwork : zero && tg_covered_zero t && tg_backed t = false).

Lemma published_device :
  rewritten w (fun x => if zero then 0 else bget bs (x - sector * 512)) (sector * 512) ((sector + s_length m) * 512) (published next p).
Proof.
  destruct (published_fields p) as (F1 & _ & _ & _ & _ & _ & F7 & _). pose proof Hp as (_ & _ & C3 & _).
  destruct (am_mapping _ _ _ _ _ Ht) as (A1 & A2 & A3). fold m in A1, A2, A3.
  pose proof replaced_ok as Hrep. apply (dev_update _ _ _ _ (s_moffset m)); [done| | |by apply aimed_apart].
  - intros x. rewrite F7. destruct (tg_transition t) eqn:Et.
    + destruct Hrep as (_ & R & _); [done|]. rewrite R. cbn [resolve]. unfold seg_cell. rewrite A1, A2, A3.
      destruct (covers m x) eqn:C; [apply covers_true in C|apply covers_false in C]; unfold fin in C; rewrite A1 in C.
      * rewrite decide_True by done. by destruct zero.
      * by rewrite decide_False.
    + pose proof (am_payload _ _ _ _ _ Ht) as H. destruct (tg_backed t); [|destruct H; congruence].
      destruct H as (c & Hz & Hc & H). fold m in H. rewrite Et in Hc. symmetry in Hc. apply negb_false_iff, eqb_prop in Hc.
      rewrite Hz, Hc, andb_true_r, andb_diag in Hwork. rewrite Hwork in Hc. rewrite Hwork.
      case_decide; [|done]. destruct (H x) as [_ H2]; [unfold fin; lia|]. by rewrite H2, Hc.
  - rewrite F1, C3. unfold f. destruct zero, (tg_backed t); cbn [negb orb]; auto.
Qed.

Lemma published_kin : kin w (published next p).
Proof.
  destruct (published_fields p) as (F1 & F2 & _ & _ & F5 & _). pose proof Hp as (_ & _ & _ & C4 & _). unfold kin. by rewrite F1.
Qed.
End Change.

(** ** The loop of [modify] *)

(** What [modify] puts at a byte of the device. *)
Definition source (buffer : bytes) (offset : Z) (zero : bool) (x : Z) : Z := if zero then 0 else bget buffer (x - offset).

Lemma kin_refl w : kin w w.
Proof. done. Qed.
Lemma kin_trans w1 w2 w3 : kin w1 w2 -> kin w2 w3 -> kin w1 w3.
Proof. intros (? & ? & ?) (? & ? & ?). split_and!; congruence. Qed.

Section Modify.
Context (buffer : bytes) (count offset : Z) (zero : bool).
Context (Ho : 0 <= offset) (Hoa : offset mod 512 = 0) (Hca : count mod 512 = 0) (Hbuf : zero = true \/ zlen buffer = count).
Let g := source buffer offset zero.

Section Extent.
Context (Q : bytes -> Prop) (w : HybridWriter) (s : LogStamp) (Hw : hw_ok Q w s).
Context (done : Z) (Hdone : 0 <= done < count) (Hda : done mod 512 = 0) (Hin : offset + count <= hw_virtual_size w).
Context (Hroom : (ls_bytes s - kSpace) / 16 < kMaxLogRecords).
Let sector := (offset + done) / 512.
Let left := (count - done) / 512.
Let t := target w sector left zero.
Let m := tg_mapping t.

Lemma extent_aligned : sector * 512 = offset + done /\ left * 512 = count - done /\ 0 < left /\ sector + left <= hw_virtual_size w / 512 /\ 0 <= sector.
Proof.
  assert ((offset + done) mod 512 = 0) as E1 by (rewrite Zplus_mod, Hoa, Hda; done).
  assert ((count - done) mod 512 = 0) as E2 by (rewrite Zminus_mod, Hca, Hda; done).
  pose proof (Z.div_mod (offset + done) 512 ltac:(lia)). pose proof (Z.div_mod (count - done) 512 ltac:(lia)).
  fold sector in H. fold left in H0. pose proof (Z.div_le_mono (offset + count) (hw_virtual_size w) 512 ltac:(lia) Hin).
  replace (offset + count) with ((sector + left) * 512) in H1 by lia. rewrite Z.div_mul in H1 by lia. lia.
Qed.

Lemma extent_aimed : aimed w sector left zero t.
Proof. destruct extent_aligned as (_ & _ & ? & ? & ?). by apply (target_ok Q w s). Qed.

Let size := s_length m * 512.

Lemma extent_source bs : (zero = true \/ bs = sub done size buffer) -> 0 < size -> done + size <= count ->
  forall w', rewritten w (fun x => if zero then 0 else bget bs (x - sector * 512)) (sector * 512) ((sector + s_length m) * 512) w' ->
  rewritten w g (offset + done) (offset + (done + size)) w'.
Proof.
  intros Hbs H0 Hle w' Hr x. rewrite Hr. destruct extent_aligned as (E1 & _). fold size. unfold g, source.
  replace ((sector + s_length m) * 512) with (offset + (done + size)) by (unfold size; lia). rewrite E1.
  case_decide; [|done]. destruct zero; [done|]. destruct Hbs as [|Hbs]; [done|]. rewrite Hbs.
  destruct Hbuf as [|Hz]; [done|]. rewrite bget_sub by lia. f_equal. lia.
Qed.

Definition extended (done' : Z) (w' : HybridWriter) : Prop :=
  done < done' <= count /\ done' mod 512 = 0 /\ kin w w' /\ (exists s', hw_ok Q w' s') /\
  rewritten w g (offset + done) (offset + done') w' /\ hw_uuids w' = hw_uuids w.

Lemma extent_done : done < done + size <= count /\ (done + size) mod 512 = 0.
Proof.
  destruct extent_aligned as (_ & E2 & _). destruct (am_length _ _ _ _ _ extent_aimed) as [A1 _]. fold m in A1.
  split; [unfold size; lia|]. unfold size. by rewrite Z.mod_add by lia.
Qed.

Lemma extent_skip : zero && tg_covered_zero t && tg_backed t = true -> extended (done + size) w.
Proof.
  intros Hs. pose proof extent_aimed as Ht. destruct extent_done as [E1 E2]. split; [done|]. split; [done|]. split; [done|]. split; [by exists s|]. split; [|done].
  apply (extent_source []); [left; by destruct zero|lia|lia|]. intros x. destruct zero; [|done]. case_decide as Hx; [|done].
  pose proof (am_payload _ _ _ _ _ Ht) as H. destruct (tg_covered_zero t) eqn:Ez, (tg_backed t); try done.
  destruct H as (c & Hc & _ & H). apply sector_in in Hx. unfold dev.
  destruct (am_mapping _ _ _ _ _ Ht) as (A1 & _). fold m in A1, H.
  destruct (H (x / 512)) as [_ ->]; [unfold fin; lia|]. by rewrite <- Hc.
Qed.


(** The change once there is room for it. *)
Definition perform (next : list segment_mapping) : io HybridWriter Z :=
  _ ← change t zero (if zero then zeros size else sub done size buffer);
  _ ← io_run (fun w => (Ok tt, if tg_backed t then w else set_hdata_end w (hw_data_end w + size)));
  _ ← io_run (fun w => (Ok tt, if tg_transition t then set_mappings w next (hw_index_end w + 16) else w));
  mret (done + size).

Context (Hwork : zero && tg_covered_zero t && tg_backed t = false).
Context (Hfits : (if tg_backed t then hw_data_end w else hw_data_end w + s_length m * 512) <= kInt64Max).

Lemma perform_ok next :
  (tg_transition t = true -> mappings_replace (hw_mappings w) m = Ok next) ->
  served (perform next) w extended (fun w' => hw_failed w' = true).
Proof.
  intros Hnext. destruct extent_aligned as (G1 & G2 & G3 & G4 & G5). pose proof extent_aimed as Ht. pose proof extent_done as [E1 E2].
  set (bs := if zero then zeros size else sub done size buffer).
  assert (zlen bs = size) as Hbs.
  { unfold bs. destruct zero; [rewrite zlen_zeros; lia|]. destruct Hbuf as [|Hz]; [done|]. rewrite zlen_sub; lia. }
  unfold perform. fold bs.
  eapply served_bind; [apply (change_ok Q w s t zero bs Hw)|].
  { intros _. split; [|done]. by apply (aimed_encodable Q w s Hw sector left zero t Ht). }
  intros u w1 (p & -> & Hp).
  apply (served_as _ (io_run (fun _ => (Ok (done + size), published w t next p)))).
  { unfold mbind, io_bind, io_run, published. cbn. by destruct (tg_backed t), (tg_transition t). }
  eapply served_run; [done| |].
  { unfold hw_script, published. by destruct (tg_transition t), (tg_backed t). }
  assert (zero = true \/ bs = sub done size buffer) as Hsrc by (unfold bs; destruct zero; auto).
  split; [done|]. split; [done|]. split; [by eapply published_kin|]. split.
  - by eapply (published_ok Q w s Hw sector left zero t Ht G5 G4).
  - split; [|unfold published; by destruct (tg_transition t), (tg_backed t)]. apply (extent_source bs Hsrc); [lia|lia|].
    by apply (published_device Q w s Hw sector left zero t Ht G5 G4 Hfits next Hnext bs Hbs p Hp Hwork).
Qed.
End Extent.

Lemma modify_extent_ok Q w s done :
  hw_ok Q w s -> 0 <= done < count -> done mod 512 = 0 -> offset + count <= hw_virtual_size w ->
  (ls_bytes s - kSpace) / 16 < kMaxLogRecords ->
  served (modify_extent buffer count offset done zero) w (extended Q w done) (fun w' => hw_failed w' = true \/ w' = w).
Proof.
  intros Hw Hdone Hda Hin Hroom. set (sector := (offset + done) / 512). set (left := (count - done) / 512).
  set (t := target w sector left zero). set (m := tg_mapping t). set (size := s_length m * 512).
  destruct (extent_aligned w done Hdone Hda Hin) as (_ & _ & _ & G4 & G5). fold sector left in G4, G5.
  pose proof (extent_aimed Q w s Hw done Hdone Hda Hin) as Ht. fold sector left t in Ht.
  destruct (am_length _ _ _ _ _ Ht) as [A1 A2]. fold m in A1, A2. destruct (am_mapping _ _ _ _ _ Ht) as (A3 & _). fold m in A3.
  assert (size <= kMaxLength * 512) as Hsize by (unfold size; lia).
  destruct (zero && tg_covered_zero t && tg_backed t) eqn:Hwork.
  { apply (served_as _ (mret (done + size))); [unfold modify_extent; fold sector left t; cbv zeta; by rewrite Hwork|].
    apply served_ret. by apply (extent_skip Q w s Hw done Hdone Hda Hin). }
  destruct (negb (tg_backed t) && (kInt64Max - size <? hw_data_end w)) eqn:Hbig.
  { apply (served_as _ (io_fail (Errno EFBIG))).
    { unfold modify_extent. fold sector left t. cbv zeta. fold m size. rewrite Hwork, (ho_end _ _ _ Hw), (proj2 (Z.leb_gt _ _)), andb_false_r, Hbig by done. done. }
    split; [|by right]. right. split; [|by right]. right. apply andb_true_iff in Hbig as [_ Hbig]. lia. }
  assert ((if tg_backed t then hw_data_end w else hw_data_end w + s_length m * 512) <= kInt64Max) as Hfits.
  { fold size. destruct (tg_backed t); [apply (ho_data _ _ _ Hw)|]. cbn in Hbig. lia. }
  apply (served_as _ (next ← io_lift (if tg_transition t then mappings_replace (hw_mappings w) m else Ok []); perform w done next)).
  { unfold modify_extent. fold sector left t. cbv zeta. fold m size. rewrite Hwork, (ho_end _ _ _ Hw), (proj2 (Z.leb_gt _ _)), andb_false_r, Hbig by done. done. }
  destruct (if tg_transition t then mappings_replace (hw_mappings w) m else Ok []) as [next|e] eqn:Hnext.
  - apply (served_as _ (perform w done next)); [done|].
    eapply served_mono; [apply (perform_ok Q w s Hw done Hdone Hda Hin Hroom Hwork Hfits)|done|by left].
    intros Htr. change (tg_transition t = true) in Htr. by rewrite Htr in Hnext.
  - destruct (tg_transition t); [|done].
    destruct (aimed_mapping Q w s Hw sector left zero t Ht G5 G4 Hfits) as (M1 & _ & M3 & _).
    destruct (mappings_replace_full _ _ _ _ _ (ok_payload _ _ _ Hw) (ok_sectors _ _ _ Hw) (ho_owned _ _ _ Hw) M1 M3 Hnext) as [-> Hfull].
    apply (served_as _ (io_fail (Errno ENOSPC))); [done|]. split; [|by right]. right. split; [by left|by left].
Qed.
End Modify.

(** ** Compaction *)

(** The payload file got longer, and nothing else changed. *)
Definition grown (w w' : HybridWriter) : Prop :=
  exists t f, w' = set_hdata_end (set_hpair w (set_hdata (set_hscript (hw_pair w) t) f)) (f_size f) /\
    f_size f mod 512 = 0 /\ hw_data_end w <= f_size f <= kInt64Max /\
    forall x, x < hw_data_end w -> f_byte f x = f_byte (hp_data (hw_pair w)) x.

Lemma grown_refl w :
  hw_data_end w = f_size (hp_data (hw_pair w)) -> hw_data_end w mod 512 = 0 -> hw_data_end w <= kInt64Max -> grown w w.
Proof.
  intros H1 H2 H3. exists (hp_script (hw_pair w)), (hp_data (hw_pair w)). rewrite <- H1. split_and!; try done.
  by destruct w as [[] ? ? ? ? ? ? ? ?].
Qed.
Lemma grown_trans w1 w2 w3 : grown w1 w2 -> grown w2 w3 -> grown w1 w3.
Proof.
  intros (t & f & -> & H1 & H2 & H3) (t' & f' & -> & H1' & H2' & H3'). cbn in *. exists t', f'. split; [done|]. split; [done|]. split; [lia|].
  intros x Hx. rewrite H3' by lia. by apply H3.
Qed.

Lemma dev_ext w w' d :
  (forall x, resolve (hw_mappings w') x = resolve (hw_mappings w) x) ->
  (forall x t p, resolve (hw_mappings w) x = Data t p -> p < d) ->
  (forall x, x < d * 512 -> f_byte (hp_data (hw_pair w')) x = f_byte (hp_data (hw_pair w)) x) ->
  forall x, dev w' x = dev w x.
Proof.
  intros Hr Hb Hf x. unfold dev, cell_at. rewrite Hr. destruct (resolve _ _) as [| |t p] eqn:E; try done. apply Hf.
  specialize (Hb _ _ _ E). pose proof (Z.mod_pos_bound x 512 ltac:(lia)). lia.
Qed.

Lemma ok_below Q w s x t p : hw_ok Q w s -> resolve (hw_mappings w) x = Data t p -> p < hw_data_end w / 512.
Proof.
  intros Hw Hx. pose proof (ok_payload _ _ _ Hw) as Hp. eapply (owned_below _ _ Hp); [apply (ho_owned _ _ _ Hw)|].
  by eapply resolve_claim; [..|apply (ho_owned _ _ _ Hw)|].
Qed.

Lemma owned_grow sectors d d' l : d <= d' -> owned_index sectors d l -> owned_index sectors d' l.
Proof.
  intros Hd [H1 H2 H3 H4 H5]. split; try done. eapply Forall_impl; [exact H4|]. intros m [?|?]; [by left|right; lia].
Qed.

Lemma grown_ok Q w s w' : hw_ok Q w s -> grown w w' -> hw_ok Q w' s /\ kin w w' /\ forall x, dev w' x = dev w x.
Proof.
  intros Hw (t & f & -> & H1 & H2 & H3). destruct (ho_data _ _ _ Hw) as (D1 & D2 & D3 & D4).
  assert (hw_data_end w / 512 <= f_size f / 512) as Hle by (apply Z.div_le_mono; lia). split; [|split; [done|]].
  - split; cbn; try by apply Hw.
    + split_and!; done || lia.
    + eapply owned_grow; [exact Hle|apply Hw].
    + eapply logs_mono; [exact Hle|apply Hw].
  - apply (dev_ext _ _ (hw_data_end w / 512)); [done|intros x u p; by apply (ok_below Q w s)|].
    intros x Hx. cbn. apply H3. pose proof (Z.mul_div_le (hw_data_end w) 512 ltac:(lia)). lia.
Qed.

Lemma sure_write_ok w bs off :
  served (sure (on_hpair (data_write bs off))) w
    (fun _ w' => exists t, w' = set_hpair w (set_hdata (set_hscript (hw_pair w) t) (file_write (hp_data (hw_pair w)) off bs)))
    (fun w' => hw_failed w' = true).
Proof.
  apply served_sure, attempt_served. eapply attempt_mono; [apply attempt_pair, data_write_ok| |done].
  intros u w' (p & -> & t & ->). by exists t.
Qed.

Lemma reserve_ok l w :
  hw_data_end w = f_size (hp_data (hw_pair w)) -> hw_data_end w mod 512 = 0 -> kSpace <= hw_data_end w <= kInt64Max ->
  Forall (fun m => 0 < s_length m <= kMaxLength) l ->
  served (reserve l) w
    (fun r w' => grown w w' /\ (r, hw_data_end w' / 512) = backfill (hw_data_end w / 512) l)
    (fun w' => hw_failed w' = true \/ grown w w').
Proof.
  intros H1 H2 H3 Hl. revert w H1 H2 H3. induction Hl as [|m l Hm Hl IH]; intros w H1 H2 H3; cbn [reserve backfill].
  { apply served_ret. split; [apply grown_refl; done || lia|done]. }
  destruct (negb (s_zeroed m) || negb (s_moffset m =? kNoPhysicalOffset)).
  { eapply served_bind; [by apply IH|]. intros r w' [Hg E]. apply served_ret. split; [done|]. by rewrite <- E. }
  set (count := s_length m * 512).
  destruct (Z.ltb_spec (kInt64Max - count) (hw_data_end w)) as [Hbig|Hbig].
  { apply (served_as _ (io_fail (Errno EFBIG))); [by rewrite (proj2 (Z.ltb_lt _ _))|].
    split; [|right; apply grown_refl; done || lia]. right. split; [|by right]. right. unfold count in Hbig. lia. }
  eapply served_as; [by rewrite (proj2 (Z.ltb_ge _ _))|].
  apply (served_bind _ _ _ (fun _ w' => exists t, w' = set_hpair w (set_hdata (set_hscript (hw_pair w) t)
      (file_write (hp_data (hw_pair w)) (hw_data_end w) (zeros count))))).
  { eapply served_mono; [apply sure_write_ok|done|by left]. }
  intros u w1 [t ->]. set (f := file_write _ _ _). set (w2 := set_hdata_end (set_hpair w (set_hdata (set_hscript (hw_pair w) t) f)) (hw_data_end w + count)).
  apply (served_bind _ _ _ (fun _ w' => w' = w2)); [by eapply served_run|]. intros v w2' ->.
  assert (f_size f = hw_data_end w + count) as Hf by (unfold f; rewrite f_size_write_end; rewrite zlen_zeros; unfold count; lia).
  assert (grown w w2) as Hg.
  { exists t, f. split; [unfold w2; by rewrite Hf|]. rewrite Hf. unfold count. split; [by rewrite Z.mod_add by lia|]. split; [lia|].
    intros x Hx. apply f_byte_write_out. by left. }
  assert (hw_data_end w2 = hw_data_end w + count) as He by done.
  assert (hw_data_end w2 / 512 = hw_data_end w / 512 + s_length m) as Hd by (rewrite He; unfold count; by rewrite Z.div_add by lia).
  eapply served_bind.
  { eapply served_mono; [apply (IH w2)| |].
    - by rewrite He, <- Hf.
    - rewrite He. unfold count. by rewrite Z.mod_add by lia.
    - rewrite He. unfold count in *. lia.
    - intros r w' H. exact H.
    - intros w' [?|?]; [by left|right]. by eapply grown_trans. }
  intros r w' [Hg' E]. apply served_ret. split; [by eapply grown_trans|]. rewrite <- Hd, <- E. done.
Qed.

Definition unchanged (w w' : HybridWriter) : Prop := forall x, dev w' x = dev w x.
(** A log no longer than the list of mappings. *)
Definition compacted (w : HybridWriter) : Prop := hw_index_end w = kSpace + 16 * zlen (hw_mappings w).

Section Install.
Context (Q : bytes -> Prop) (w : HybridWriter) (s : LogStamp) (Hw : hw_ok Q w s).
Context (l : list segment_mapping) (Hl : owned_index (hw_virtual_size w / 512) (hw_data_end w / 512) l).
Context (Hb : Forall backed l) (Hz : zlen l <= kMaxRoIndexSize) (Hsame : l ≡ₛ hw_mappings w) (Hleft : hw_uuids w < supply).

Lemma install_replaceable : replaceable (hp_header (hw_pair w)) l (uuid (hw_uuids w)).
Proof.
  split; [by eapply owned_encodable, Hl; apply (ok_payload _ _ _ Hw)|]. split; [done|]. split; [|apply (ho_header _ _ _ Hw)].
  apply Hgen. destruct (ho_uuids _ _ _ Hw). lia.
Qed.
Lemma install_verified : verify_replacement (hp_header (hw_pair w)) (f_size (hp_data (hw_pair w))) l = Ok tt.
Proof.
  destruct (ho_size _ _ _ Hw) as (V1 & V2 & V3 & V4). destruct (ho_data _ _ _ Hw) as (D1 & D2 & D3 & D4).
  apply verify_ok; rewrite ?V4, <- ?D1; unfold kAlignment; try done. apply (ok_payload _ _ _ Hw).
Qed.

(** The old log, or the new one with its mappings. *)
Lemma install_old p : unreplaced Q (hw_pair w) s l p ->
  let w' := next_uuid (set_hpair w p) in kin w w' /\ hw_ok (either Q (hw_pair w) l) w' s /\ unchanged w w'.
Proof.
  intros (H1 & H2 & (F1 & F2 & F3 & F4)) w'. split; [|split].
  - by split_and!.
  - split; cbn; rewrite ?F1, ?F2, ?F3, ?H2; try by apply Hw. done.
    destruct (ho_uuids _ _ _ Hw) as [U1 U2]. split; [lia|]. intros n Hn. apply U2. lia.
  - intros x. unfold dev, w'. cbn. by rewrite F1.
Qed.
Lemma install_new Q' p n :
  ls_generation n = generation_of (uuid (hw_uuids w)) -> replaced Q (hw_pair w) l n p -> live Q' p n ->
  let w' := set_mappings (next_uuid (set_hpair w p)) l (hp_index_bytes p) in
  kin w w' /\ hw_ok Q' w' n /\ unchanged w w' /\ compacted w'.
Proof.
  intros Hng (R1 & R2 & R3 & R4 & R5 & R6) Hlive w'. pose proof Hlive as (L1 & L2 & L3 & _). split; [|split; [|split]].
  - by split_and!.
  - split; cbn; rewrite ?R2, ?R3, ?R4, ?R5; try by apply Hw. all: try done.
    + apply logs_fresh; [apply (ok_sectors _ _ _ Hw)|apply (ok_payload _ _ _ Hw)|done..].
    + destruct (ho_uuids _ _ _ Hw) as [U1 U2]. split; [lia|]. intros k Hk. rewrite Hng. intros E. apply Hfresh in E; lia.
  - intros x. unfold dev, w'. cbn. by rewrite R3, (Hsame _).
  - unfold compacted, w'. cbn. pose proof R2 as H. unfold live_log in H.
    assert (zlen (log_upto (ino_file (hp_index p)) (hp_index_bytes p)) = 16 * zlen l) as E.
    { rewrite H, zlen_encode_log; [done|]. by eapply owned_encodable, Hl; apply (ok_payload _ _ _ Hw). }
    unfold log_upto in E. rewrite zlen_slice in E. destruct Hlive as (_ & _ & _ & ((_ & _ & _ & Hbo & _) & _) & _).
    apply bound_ok_range in Hbo as (Hbo & _). unfold kSpace in *. lia.
Qed.

Lemma install_compacted_ok :
  served (install_compacted uuid l) w
    (fun _ w' => kin w w' /\ (exists Q s, hw_ok Q w' s) /\ unchanged w w' /\ compacted w' /\ hw_uuids w' = hw_uuids w + 1)
    (sound w (unchanged w)).
Proof.
  pose proof (replace_index_ok Q (hw_pair w) s l (uuid (hw_uuids w)) (ho_live _ _ _ Hw) (ho_writable _ _ _ Hw)
    install_replaceable install_verified (proj2 (ho_uuids _ _ _ Hw) _ (conj (Z.le_refl _) Hleft))) as H.
  unfold served, install_compacted, on_hpair. unfold attempt in H.
  destruct (replace_index_sync l (uuid (hw_uuids w)) (hw_pair w)) as [[u|[e| |]] p]; try done; cbn [next_uuid hw_pair set_hpair].
  - destruct H as (Hs & n & Hng & Hr & Hl'). pose proof Hr as (_ & _ & _ & _ & _ & Hg).
    rewrite (proj2 (Z.eqb_neq _ _)) by lia. destruct (install_new _ p n Hng Hr Hl') as (N1 & N2 & N3 & N4).
    split; [done|]. split; [done|]. split; [by eexists _, _|]. done.
  - destruct H as [Hf Hor]. split; [by left|]. destruct Hor as [Hu|(n & Hng & Hr)]; right.
    + pose proof Hu as (_ & _ & (_ & _ & _ & Hg)). rewrite (proj2 (Z.eqb_eq _ _)) by done.
      destruct (install_old p Hu) as (O1 & O2 & O3). split; [done|]. split; [by eexists _, _|done].
    + pose proof Hr as (Hl' & _ & _ & _ & _ & Hg). rewrite (proj2 (Z.eqb_neq _ _)) by lia.
      destruct (install_new _ p n Hng Hr Hl') as (N1 & N2 & N3 & _). split; [done|]. split; [by eexists _, _|done].
Qed.
End Install.

Lemma compact_ok Q w s :
  hw_ok Q w s -> hw_uuids w < supply ->
  served (compact_locked uuid) w
    (fun _ w' => kin w w' /\ (exists Q s, hw_ok Q w' s) /\ unchanged w w' /\ compacted w' /\ hw_uuids w' = hw_uuids w + 1)
    (sound w (unchanged w)).
Proof.
  intros Hw Hleft. destruct (ho_data _ _ _ Hw) as (D1 & D2 & D3). pose proof (ho_owned _ _ _ Hw) as Hown.
  apply (served_as _ (reserved ← reserve (hw_mappings w); install_compacted uuid (coalesce reserved))); [done|].
  eapply served_bind.
  { eapply served_mono; [apply (reserve_ok (hw_mappings w) w D1 D2 D3)|intros r w' H; exact H|].
    - apply Forall_forall. intros m Hin. by destruct (owned_elem _ _ (ok_payload _ _ _ Hw) _ m Hown Hin) as ((_ & ? & _) & _).
    - intros w' [?|Hg]; [by left|right]. destruct (grown_ok Q w s w' Hw Hg) as (G1 & G2 & G3). split; [done|]. split; [by eexists _, _|done]. }
  intros r w1 [Hg E]. destruct (grown_ok Q w s w1 Hw Hg) as (G1 & G2 & G3). pose proof (ok_payload _ _ _ G1) as Hpay.
  assert (hw_mappings w1 = hw_mappings w) as Em by by destruct Hg as (? & ? & -> & _).
  assert (hw_uuids w1 = hw_uuids w) as Eu by by destruct Hg as (? & ? & -> & _).
  pose proof (backfill_ok (hw_virtual_size w / 512) (ok_sectors _ _ _ Hw) (hw_data_end w / 512) (hw_mappings w)
    (proj1 (ok_payload _ _ _ Hw)) Hown) as Hbf. rewrite <- E in Hbf. cbn [fst snd] in Hbf.
  destruct Hbf as (B1 & B2 & B3); [apply Hpay|]. destruct G2 as (K1 & K2 & K3). rewrite <- K1 in B1.
  destruct (coalesce_ok _ _ Hpay r B1 B2) as (C1 & C2 & C3 & C4).
  assert (zlen r = zlen (hw_mappings w)) as Elen by (unfold zlen; by rewrite <- (length_fmap normal r), B3, length_fmap).
  eapply served_mono; [apply (install_compacted_ok Q w1 s G1 (coalesce r) C1 C2)| |].
  - pose proof (ho_count _ _ _ Hw). lia.
  - intros x. rewrite (C3 x), Em, <- (resolve_normal r x (oi_untagged _ _ _ B1)), B3. apply resolve_normal, (oi_untagged _ _ _ Hown).
  - by rewrite Eu.
  - intros u w' ((I1 & I2 & I3) & I4 & I5 & I6 & I7). split; [split_and!; congruence|]. split; [done|]. rewrite I7, Eu. split; [|done].
    intros x. by rewrite (I5 x).
  - intros w' [?|((I1 & I2 & I3) & I4 & I5)]; [by left|right]. split; [split_and!; congruence|]. split; [done|].
    intros x. by rewrite (I5 x).
Qed.

(** ** The operations *)

Definition serving (w : HybridWriter) : Prop := exists Q s, hw_ok Q w s.

Lemma unchanged_trans w1 w2 w3 : unchanged w1 w2 -> unchanged w2 w3 -> unchanged w1 w3.
Proof. intros H1 H2 x. by rewrite H2. Qed.
Lemma rewritten_unchanged w1 w2 g a b w3 : unchanged w1 w2 -> rewritten w2 g a b w3 -> rewritten w1 g a b w3.
Proof. intros H1 H2 x. rewrite H2. by case_decide. Qed.
Lemma rewritten_none w g a : rewritten w g a a w.
Proof. intros x. by rewrite decide_False by lia. Qed.
Lemma rewritten_trans w1 g a b w2 c w3 :
  a <= b <= c -> rewritten w1 g a b w2 -> rewritten w2 g b c w3 -> rewritten w1 g a c w3.
Proof. intros H H1 H2 x. rewrite H2, H1. repeat case_decide; done || lia. Qed.

(** There is room in the log for the record of a change. *)
Definition roomy (w : HybridWriter) : Prop := (hw_index_end w - kSpace) / 16 < kMaxLogRecords.

Lemma compact_if_long_ok Q w s :
  hw_ok Q w s -> hw_uuids w < supply ->
  served (compact_if_long uuid) w
    (fun _ w' => kin w w' /\ serving w' /\ unchanged w w' /\ roomy w' /\ hw_uuids w' <= hw_uuids w + 1) (sound w (unchanged w)).
Proof.
  intros Hw Hleft. unfold compact_if_long. pose proof (ho_count _ _ _ Hw) as Hc.
  destruct (Z.leb_spec (Z.max 4096 (2 * zlen (hw_mappings w) + 16)) ((hw_index_end w - kSpace) / 16)) as [H|H].
  - apply (served_as _ (compact_locked uuid)); [by rewrite (proj2 (Z.leb_le _ _))|].
    eapply served_mono; [by apply (compact_ok Q w s)| |done]. intros u w' (H1 & (Q' & s' & H2) & H3 & H4 & H5).
    split; [done|]. split; [by exists Q', s'|]. split; [done|]. split; [|lia]. unfold roomy. rewrite H4.
    replace (kSpace + 16 * zlen (hw_mappings w') - kSpace) with (zlen (hw_mappings w') * 16) by lia. rewrite Z.div_mul by lia.
    pose proof (ho_count _ _ _ H2). unfold kMaxLogRecords, kMaxRoIndexSize in *. lia.
  - apply (served_as _ (mret tt)); [by rewrite (proj2 (Z.leb_gt _ _))|]. apply served_ret.
    split; [done|]. split; [by exists Q, s|]. split; [done|]. unfold roomy, kMaxLogRecords, kMaxRoIndexSize in *. lia.
Qed.

Section Operations.
Context (buffer : bytes) (count offset : Z) (zero : bool).
Context (Ho : 0 <= offset) (Hoa : offset mod 512 = 0) (Hca : count mod 512 = 0) (Hbuf : zero = true \/ zlen buffer = count).
Let g := source buffer offset zero.

Lemma modify_step_ok w done :
  serving w -> hw_uuids w < supply -> 0 <= done < count -> done mod 512 = 0 -> offset + count <= hw_virtual_size w ->
  served (modify_step uuid buffer count offset done zero) w
    (fun done' w' => done < done' <= count /\ done' mod 512 = 0 /\ kin w w' /\ serving w' /\
       rewritten w g (offset + done) (offset + done') w' /\ hw_uuids w' <= hw_uuids w + 1)
    (sound w (unchanged w)).
Proof.
  intros (Q & s & Hw) Hleft Hd Hda Hin. unfold modify_step.
  eapply served_bind; [by apply (compact_if_long_ok Q w s)|]. intros u w1 (K1 & (Q1 & s1 & Hw1) & U1 & R1 & N1).
  unfold roomy in R1. rewrite (ho_end _ _ _ Hw1) in R1. pose proof K1 as (V1 & _).
  eapply served_mono; [apply (modify_extent_ok buffer count offset zero Ho Hoa Hca Hbuf Q1 w1 s1 done Hw1 Hd Hda); [by rewrite V1|done]| |].
  - intros done' w' (E1 & E2 & E3 & (s' & E4) & E5 & E6). split_and!; try lia; try done.
    + by eapply kin_trans.
    + by exists Q1, s'.
    + by eapply rewritten_unchanged.
  - intros w' [?| ->]; [by left|right]. split; [done|]. split; [by exists Q1, s1|done].
Qed.

Definition partly (w : HybridWriter) (from : Z) (w' : HybridWriter) : Prop :=
  exists k, from <= k <= count /\ rewritten w g (offset + from) (offset + k) w'.

Lemma modify_loop_ok fuel w done :
  serving w -> hw_uuids w + (count - done) / 512 <= supply ->
  0 <= done <= count -> done mod 512 = 0 -> offset + count <= hw_virtual_size w -> count - done <= Z.of_nat fuel ->
  served (modify_loop uuid fuel buffer count offset done zero) w
    (fun n w' => n = count /\ kin w w' /\ serving w' /\ rewritten w g (offset + done) (offset + count) w')
    (sound w (partly w done)).
Proof.
  revert w done. induction fuel as [|fuel IH]; intros w done Hw Hleft Hd Hda Hin Hf; cbn [modify_loop];
    destruct (Z.ltb_spec done count) as [Hlt|Hge]; try lia.
  1,3: replace done with count by lia; apply served_ret; split; [done|]; split; [done|]; split; [done|]; apply rewritten_none.
  assert (0 < (count - done) / 512) as Hpos.
  { apply Z.div_str_pos. pose proof (Zminus_mod count done 512) as E. rewrite Hca, Hda in E.
    pose proof (Z.div_mod (count - done) 512 ltac:(lia)). rewrite E in H. change ((0 - 0) mod 512) with 0 in H. lia. }
  eapply served_bind.
  { eapply served_mono; [apply (modify_step_ok w done Hw ltac:(lia) ltac:(lia) Hda Hin)|intros d w' H; exact H|].
    intros w' [?|(H1 & H2 & H3)]; [by left|right]. split; [done|]. split; [done|]. exists done. split; [lia|].
    intros x. rewrite (H3 x). by case_decide; [lia|]. }
  intros done' w1 (E1 & E2 & K1 & S1 & R1 & N1). pose proof K1 as (V1 & _).
  assert ((count - done') / 512 + 1 <= (count - done) / 512) as Hstep.
  { rewrite <- Z.div_add by lia. apply Z.div_le_mono; [lia|]. pose proof (Z.div_mod done 512 ltac:(lia)). pose proof (Z.div_mod done' 512 ltac:(lia)). lia. }
  eapply served_mono; [apply (IH w1 done' S1); [lia|lia|done|by rewrite V1|lia]| |].
  - intros n w' (-> & K2 & S2 & R2). split; [done|]. split; [by eapply kin_trans|]. split; [done|].
    eapply rewritten_trans; [|exact R1|exact R2]. lia.
  - intros w' [?|(K2 & S2 & k & Hk & R2)]; [by left|right]. split; [by eapply kin_trans|]. split; [done|].
    exists k. split; [lia|]. eapply rewritten_trans; [|exact R1|exact R2]. lia.
Qed.

Lemma modify_ok w :
  serving w -> hw_uuids w + count / 512 <= supply ->
  hw_sealed w = false -> hw_checkpointed w = false -> 0 <= count -> offset + count <= hw_virtual_size w ->
  served (modify uuid buffer count offset zero) w
    (fun n w' => n = count /\ kin w w' /\ serving w' /\ rewritten w g offset (offset + count) w')
    (sound w (partly w 0)).
Proof.
  intros Hw Hleft Hs Hc H0 Hin. pose proof Hw as (Q & s & Hok).
  apply (served_as _ (modify_loop uuid (Z.to_nat count) buffer count offset 0 zero)).
  { unfold modify. rewrite Hoa, Hca, Hs, Hc, (ho_active _ _ _ Hok), (proj2 (Z.ltb_ge _ _)), (proj2 (Z.ltb_ge _ _)) by lia. done. }
  eapply served_mono; [apply (modify_loop_ok (Z.to_nat count) w 0 Hw); rewrite ?Z.sub_0_r; lia || done| |done].
  intros n w' (-> & K & S & R). rewrite Z.add_0_r in R. done.
Qed.
End Operations.

(** What [served] says of any result. *)
Lemma served_result {A} (m : io HybridWriter A) w (P : A -> HybridWriter -> Prop) F :
  served m w P F ->
  match m w with
  | (Ok a, w') => P a w'
  | (Err f, w') => (exists e, f = Errno e /\ (faults (hw_script w) e \/ full w' /\ (e = ENOSPC \/ e = EFBIG))) /\ F w'
  end.
Proof. unfold served. destruct (m w) as [[a|[e| |]] w']; try done; intros [? ?]; eauto. Qed.

Lemma flush_ok Q w s :
  hw_ok Q w s ->
  attempt hw_script writer_flush w
    (fun _ w' => kin w w' /\ hw_ok (fun l => l = live_log (hw_pair w)) w' s /\ unchanged w w' /\
       live_log (hw_pair w') = live_log (hw_pair w) /\ synced (hw_pair w'))
    (fun w' => kin w w' /\ serving w' /\ unchanged w w').
Proof.
  intros Hw. apply (attempt_as _ _ (on_hpair flush_log)); [by unfold writer_flush; rewrite (ho_active _ _ _ Hw)|].
  assert (forall Q' p, live Q' p s -> live_log p = live_log (hw_pair w) -> frame (hw_pair w) p ->
    kin w (set_hpair w p) /\ hw_ok Q' (set_hpair w p) s /\ unchanged w (set_hpair w p)) as H.
  { intros Q' p H1 H2 (F1 & F2 & F3 & F4). split; [by split_and!|]. split.
    - split; cbn; rewrite ?F1, ?F2, ?F3, ?H2; try by apply Hw. done.
    - intros x. unfold dev. cbn. by rewrite F1. }
  eapply attempt_mono; [apply attempt_pair, (flush_log_ok Q (hw_pair w) s (ho_live _ _ _ Hw))| |].
  - intros u w' (p & -> & H1 & H2 & H3 & H4). destruct (H _ p H1 H2 H3) as (G1 & G2 & G3). by split_and!.
  - intros w' (p & -> & H1 & H2 & H3). destruct (H _ p H1 H2 H3) as (G1 & G2 & G3). split; [done|]. split; [by eexists _, _|done].
Qed.

(** What the headers and the payload file say of a device. *)
Definition sized (vs db : Z) : Prop :=
  0 < vs /\ vs mod 512 = 0 /\ vs / 512 <= kMaxOffset /\ db mod 512 = 0 /\ kSpace <= db /\ db / 512 < kMaxMoffset.

(** A writer on an open pair with no records. *)
Lemma new_serving Q p s w :
  live Q p s -> hp_writable p = true -> sized (ht_virtual_size (hp_header p)) (f_size (hp_data p)) ->
  f_size (hp_data p) <= kInt64Max -> live_log p = [] ->
  (exists raw, serialize (hybrid_index_header (hp_header p)) = Ok raw /\ zlen raw = kSpace) ->
  (forall n, 0 <= n < supply -> generation_of (uuid n) <> ls_generation s) ->
  writer_new p [] = Ok w -> serving w.
Proof.
  intros Hl Hw (S1 & S2 & S3 & S4 & S5 & S6) Hmax Hlog Hh Hu. unfold writer_new. rewrite Hw. intros [= <-].
  pose proof Hl as (_ & H2 & _). exists Q, s. split; cbn; try done.
  - rewrite Hlog. split; [done|]. exists []. done.
Qed.

(** ** Properties *)

(** C31. Writing to a Hybrid device.  An aligned write inside a writer in service
    either completes, and then the device holds the new bytes in exactly that
    range and the writer is still in service (the UUIDs the generator gives for
    the compactions on the way being new); or it stops with an errno, of a
    failing system call or of one of the format's limits, and then the writer
    refuses all later work or is in service with the new bytes in a prefix of
    the range.  Reuse of payload, compaction of the log and the splitting of
    mappings on the way change nothing else on the device. *)
Theorem hybrid_write_correct buffer offset w :
  serving w -> hw_uuids w + zlen buffer / 512 <= supply -> hw_sealed w = false -> hw_checkpointed w = false ->
  0 <= offset -> offset mod 512 = 0 -> zlen buffer mod 512 = 0 -> offset + zlen buffer <= hw_virtual_size w ->
  match writer_pwrite uuid buffer offset w with
  | (Ok n, w') =>
      n = zlen buffer /\ serving w' /\
      forall x, dev w' x = if decide (offset <= x < offset + zlen buffer) then bget buffer (x - offset) else dev w x
  | (Err f, w') =>
      (exists e, f = Errno e /\ (faults (hw_script w) e \/ full w' /\ (e = ENOSPC \/ e = EFBIG))) /\
      (hw_failed w' = true \/ serving w' /\ exists k, 0 <= k <= zlen buffer /\
         forall x, dev w' x = if decide (offset <= x < offset + k) then bget buffer (x - offset) else dev w x)
  end.
Proof.
  intros Hw Hleft Hs Hc Ho Hoa Hba Hin. unfold writer_pwrite.
  pose proof (served_result _ _ _ _ (modify_ok buffer (zlen buffer) offset false Ho Hoa Hba ltac:(by right) w Hw Hleft Hs Hc (zlen_nonneg _) Hin)) as H.
  destruct (modify uuid buffer (zlen buffer) offset false w) as [[n|f] w'].
  - destruct H as (-> & _ & H1 & H2). done.
  - destruct H as [He [H|(_ & H1 & k & Hk & H2)]]; (split; [done|]); [by left|right]. split; [done|]. exists k.
    rewrite Z.add_0_r in H2. done.
Qed.

(** Discarding.  An aligned discard inside a writer in service makes exactly
    its range read as zero, under the same alternatives as a write. *)
Theorem hybrid_discard_correct offset count w :
  serving w -> hw_uuids w + count / 512 <= supply -> hw_sealed w = false -> hw_checkpointed w = false ->
  0 <= offset -> offset mod 512 = 0 -> 0 <= count -> count mod 512 = 0 -> offset + count <= hw_virtual_size w ->
  match writer_discard uuid offset count w with
  | (Ok _, w') => serving w' /\ forall x, dev w' x = if decide (offset <= x < offset + count) then 0 else dev w x
  | (Err f, w') =>
      (exists e, f = Errno e /\ (faults (hw_script w) e \/ full w' /\ (e = ENOSPC \/ e = EFBIG))) /\
      (hw_failed w' = true \/ serving w' /\ exists k, 0 <= k <= count /\
         forall x, dev w' x = if decide (offset <= x < offset + k) then 0 else dev w x)
  end.
Proof.
  intros Hw Hleft Hs Hc Ho Hoa H0 Hba Hin. unfold writer_discard, mbind, io_bind.
  pose proof (served_result _ _ _ _ (modify_ok [] count offset true Ho Hoa Hba ltac:(by left) w Hw Hleft Hs Hc H0 Hin)) as H.
  destruct (modify uuid [] count offset true w) as [[n|f] w'].
  - destruct H as (-> & _ & H1 & H2). done.
  - destruct H as [He [H|(_ & H1 & k & Hk & H2)]]; (split; [done|]); [by left|right]. split; [done|]. exists k.
    rewrite Z.add_0_r in H2. done.
Qed.

(** Reading.  An aligned read from a writer in service returns the bytes of
    the device in the part of the range inside it, zero where nothing is mapped,
    or the errno of a failing read; the device and the writer stay as they were. *)
Theorem hybrid_read_correct count offset w :
  serving w -> 0 <= offset -> offset mod 512 = 0 -> 0 <= count -> count mod 512 = 0 ->
  match writer_pread count offset w with
  | (Ok bs, w') => stepped w w' /\ bs = slice (dev w) offset (Z.max 0 (Z.min count (hw_virtual_size w - offset)))
  | (Err f, w') => any_errno f /\ stepped w w'
  end.
Proof. intros (Q & s & Hw) Ho Hoa Hc Hca. apply (attempt_result _ _ _ _ _ (pread_ok Q w s count offset Hw Hoa Hca Ho Hc)). Qed.

(** C33. Compaction keeps the device and leaves a log of one record for each
    mapping; if it fails, the writer refuses all later work or is in service
    with the device as it was, on the old log or the new one. *)
Theorem hybrid_compact_correct w :
  serving w -> hw_uuids w < supply -> hw_sealed w = false -> hw_checkpointed w = false ->
  match writer_compact uuid w with
  | (Ok _, w') => serving w' /\ unchanged w w' /\ hw_index_end w' = kSpace + 16 * zlen (hw_mappings w')
  | (Err f, w') =>
      (exists e, f = Errno e /\ (faults (hw_script w) e \/ full w' /\ (e = ENOSPC \/ e = EFBIG))) /\
      (hw_failed w' = true \/ serving w' /\ unchanged w w')
  end.
Proof.
  intros (Q & s & Hw) Hleft Hs Hc. pose proof (served_result _ _ _ _ (compact_ok Q w s Hw Hleft)) as H.
  unfold writer_compact. rewrite (ho_active _ _ _ Hw), Hs, Hc. cbn [orb].
  destruct (compact_locked uuid w) as [[u|f] w'].
  - destruct H as (_ & H1 & H2 & H3 & _). done.
  - destruct H as [He [H|(_ & H1 & H2)]]; (split; [done|]); auto.
Qed.
End Device.

(** ** An example device *)

(** Sixteen sectors, two UUIDs for compactions. *)
Definition device_uuids (n : Z) : bytes := take 35 HybridCrash.example_uuid ++ [48 + n].
Definition device_new : HybridPair := set_header example_new (HT 390 35 0 0 8192 FilePair.example_uuid [] 0 1 1 []).
Definition device_open : HybridPair := (reopen HybridCrash.example_uuid device_new).2.
Definition device_writer : HybridWriter := HW device_open [] 8192 4096 4096 false false false 0.

Lemma device_opens : reopen HybridCrash.example_uuid device_new = (Ok tt, device_open).
Proof. unfold device_open. apply run_ok. vm_compute. reflexivity. Qed.
Lemma device_pair :
  hp_header device_open = HT 390 35 0 0 8192 FilePair.example_uuid [] 0 1 1 [] /\ hp_writable device_open = true /\
  f_size (hp_data device_open) = 4096 /\ live_log device_open = [] /\ hp_index_bytes device_open = 4096 /\
  (ls_generation <$> hp_stamp device_open) = Some (generation_of HybridCrash.example_uuid).
Proof. vm_compute. by split_and!. Qed.
Opaque device_open.
Lemma device_uuids_ok :
  (forall n, 0 <= n < 2 -> generation_ok (device_uuids n)) /\
  (forall i j, 0 <= i < 2 -> 0 <= j < 2 -> generation_of (device_uuids i) = generation_of (device_uuids j) -> i = j) /\
  (forall n, 0 <= n < 2 -> generation_of (device_uuids n) <> generation_of HybridCrash.example_uuid).
Proof.
  assert (forall n, 0 <= n < 2 -> n = 0 \/ n = 1) as H by lia. split_and!.
  - intros n [->| ->]%H; (split; [done|]; split; [|done]); vm_compute; repeat constructor; congruence.
  - intros i j [->| ->]%H [->| ->]%H; try done; vm_compute; congruence.
  - intros n [->| ->]%H; vm_compute; congruence.
Qed.
Lemma device_serializes : exists raw, serialize (hybrid_index_header (HT 390 35 0 0 8192 FilePair.example_uuid [] 0 1 1 [])) = Ok raw /\ zlen raw = kSpace.
Proof. eexists. split; [vm_compute; reflexivity|reflexivity]. Qed.

Lemma device_serving : serving device_uuids 2 device_writer.
Proof.
  assert (history Open (fun l => l = live_log device_open) device_open) as Hh.
  { apply (history_open (fun l => l = recovered_log device_new None) device_new HybridCrash.example_uuid).
    - apply history_import; [|done|done]. by split_and!.
    - by apply no_faults_plain.
    - apply example_generation.
    - exact device_opens. }
  destruct (history_sound _ _ _ Hh) as (s & Hl). pose proof Hl as (Hst & _). destruct device_pair as (P1 & P2 & P3 & P4 & P5 & P6).
  apply (new_serving device_uuids 2 (fun l => l = live_log device_open) device_open s); rewrite ?P1, ?P2, ?P3.
  - exact Hl.
  - done.
  - by split_and!.
  - done.
  - exact P4.
  - apply device_serializes.
  - intros n Hn. rewrite Hst in P6. injection P6 as ->. by apply device_uuids_ok.
  - unfold writer_new. rewrite P2, P1, P3, P5. done.
Qed.

Lemma hybrid_write_correct_witness :
  match writer_pwrite device_uuids (replicate 1024 7) 1024 device_writer with
  | (Ok n, w') =>
      n = zlen (replicate 1024 7) /\ serving device_uuids 2 w' /\
      forall x, dev w' x = if decide (1024 <= x < 1024 + zlen (replicate 1024 7)) then bget (replicate 1024 7) (x - 1024) else dev device_writer x
  | (Err f, w') =>
      (exists e, f = Errno e /\ (faults (hw_script device_writer) e \/ full w' /\ (e = ENOSPC \/ e = EFBIG))) /\
      (hw_failed w' = true \/ serving device_uuids 2 w' /\ exists k, 0 <= k <= zlen (replicate 1024 7) /\
         forall x, dev w' x = if decide (1024 <= x < 1024 + k) then bget (replicate 1024 7) (x - 1024) else dev device_writer x)
  end /\ (writer_pwrite device_uuids (replicate 1024 7) 1024 device_writer).1 = Ok 1024.
Proof.
  destruct device_uuids_ok as (U1 & U2 & _). split.
  - apply (hybrid_write_correct device_uuids 2 U1 U2); [apply device_serving|vm_compute; congruence|reflexivity|reflexivity|lia|reflexivity|reflexivity|vm_compute; congruence].
  - vm_compute. reflexivity.
Defined.

Lemma hybrid_discard_correct_witness :
  match writer_discard device_uuids 512 1024 device_writer with
  | (Ok _, w') => serving device_uuids 2 w' /\ forall x, dev w' x = if decide (512 <= x < 512 + 1024) then 0 else dev device_writer x
  | (Err f, w') =>
      (exists e, f = Errno e /\ (faults (hw_script device_writer) e \/ full w' /\ (e = ENOSPC \/ e = EFBIG))) /\
      (hw_failed w' = true \/ serving device_uuids 2 w' /\ exists k, 0 <= k <= 1024 /\
         forall x, dev w' x = if decide (512 <= x < 512 + k) then 0 else dev device_writer x)
  end /\ (writer_discard device_uuids 512 1024 device_writer).1 = Ok tt.
Proof.
  destruct device_uuids_ok as (U1 & U2 & _). split.
  - apply (hybrid_discard_correct device_uuids 2 U1 U2); [apply device_serving|vm_compute; congruence|reflexivity|reflexivity|lia|reflexivity|lia|reflexivity|vm_compute; congruence].
  - vm_compute. reflexivity.
Defined.

Lemma hybrid_read_correct_witness :
  match writer_pread 1024 7680 device_writer with
  | (Ok bs, w') => stepped device_writer w' /\ bs = slice (dev device_writer) 7680 (Z.max 0 (Z.min 1024 (hw_virtual_size device_writer - 7680)))
  | (Err f, w') => any_errno f /\ stepped device_writer w'
  end /\ (writer_pread 1024 7680 device_writer).1 = Ok (zeros 512).
Proof.
  split; [|vm_compute; reflexivity].
  apply (hybrid_read_correct device_uuids 2); [apply device_serving|lia|reflexivity|lia|reflexivity].
Defined.

Lemma hybrid_compact_correct_witness :
  match writer_compact device_uuids device_writer with
  | (Ok _, w') => serving device_uuids 2 w' /\ unchanged device_writer w' /\ hw_index_end w' = kSpace + 16 * zlen (hw_mappings w')
  | (Err f, w') =>
      (exists e, f = Errno e /\ (faults (hw_script device_writer) e \/ full w' /\ (e = ENOSPC \/ e = EFBIG))) /\
      (hw_failed w' = true \/ serving device_uuids 2 w' /\ unchanged device_writer w')
  end /\ (writer_compact device_uuids device_writer).1 = Ok tt.
Proof.
  destruct device_uuids_ok as (U1 & U2 & _). split.
  - apply (hybrid_compact_correct device_uuids 2 U1 U2); [apply device_serving|reflexivity|reflexivity|reflexivity].
  - vm_compute. reflexivity.
Defined.
