(* ===== verification/HybridReopen.v ===== *)
(** * A Hybrid device comes back

    Reopening a Hybrid pair after its process stopped, or after the machine
    stopped behind a successful flush: the log that inspection trusts replays to
    mappings that present the device the writer had. *)
From stdpp Require Import sets sorting.
From S2P Require Import Prelude Bytes Crc32c LsmtFormat Source File Segments Merge Trim Lsmt Journal FilePair Writer HybridFormat HybridLog HybridCrash HybridWriter HybridMappings HybridDevice.

Open Scope Z_scope.

(** ** Reading the log back *)

Lemma hybrid_record_count s d n k l m r :
  hybrid_record (Rp s d n l) m = Ok r -> r = Rp s d n (rp_live r) /\ hybrid_record (Rp s d k l) m = Ok (Rp s d k (rp_live r)).
Proof.
  unfold hybrid_record. cbn [rp_sectors rp_data_sectors rp_records rp_live].
  destruct (_ && _). { case_if; [done|]. by intros [= <-]. }
  destruct (_ || _); [done|]. destruct (if s_zeroed m then _ else _); [done|]. case_if; [done|]. by intros [= <-].
Qed.
Lemma hybrid_fold_count s d n k log l r :
  res_fold hybrid_record (Rp s d n l) log = Ok r -> r = Rp s d n (rp_live r) /\ res_fold hybrid_record (Rp s d k l) log = Ok (Rp s d k (rp_live r)).
Proof.
  revert l. induction log as [|m log IH]; intros l; cbn [res_fold]; [by intros [= <-]|].
  destruct (hybrid_record (Rp s d n l) m) as [r1|] eqn:E; [|done].
  destruct (hybrid_record_count s d n k l m r1 E) as [-> ->]. apply IH.
Qed.

Lemma replay_loop_computes fuel f n off s d k l l' :
  0 <= off -> n <= f_size f -> off <= n -> (n - off) mod 16 = 0 -> n - off <= Z.of_nat fuel -> k + (n - off) / 16 <= kMaxLogRecords ->
  res_fold hybrid_record (Rp s d 0 l) (load_records (slice (f_byte f) off (n - off))) = Ok (Rp s d 0 l') ->
  computes (hybrid_replay_loop fuel f n off (Rp s d k l)) (fun r => r = Rp s d (k + (n - off) / 16) l').
Proof.
  revert off k l. induction fuel as [|fuel IH]; intros off k l H0 Hn Hle Ha Hf Hk Hr; cbn [hybrid_replay_loop];
    destruct (Z.ltb_spec off n) as [Hlt|Hge]; try lia.
  1,3: apply computes_ret; rewrite slice_nil in Hr by lia; injection Hr as <-; replace (n - off) with 0 by lia; by rewrite Z.add_0_r.
  cbv zeta. set (count := Z.min 65536 (n - off)).
  assert (count mod 16 = 0) as Hc by (unfold count; destruct (Z.min_spec 65536 (n - off)) as [[_ ->]|[_ ->]]; done).
  assert (n - off = count + (n - (off + count))) as Hsplit by lia.
  rewrite Hsplit, slice_app in Hr by lia.
  rewrite load_records_app in Hr by (rewrite zlen_slice, Z.max_r by lia; exact Hc). rewrite res_fold_app in Hr.
  destruct (res_fold hybrid_record (Rp s d 0 l) (load_records (slice (f_byte f) off count))) as [r1|] eqn:E1; [|done].
  cbn [mbind res_bind] in Hr.
  destruct (hybrid_fold_count s d 0 (k + count / 16) _ _ _ E1) as [Er1 E2]. rewrite Er1 in Hr.
  assert ((n - off) / 16 = count / 16 + (n - (off + count)) / 16) as Hdiv.
  { pose proof (Z.div_mod count 16 ltac:(lia)). rewrite Hsplit at 1. replace count with (count / 16 * 16) at 1 by lia. by rewrite Z.div_add_l by lia. }
  assert ((n - (off + count)) mod 16 = 0) as Ha'.
  { replace (n - (off + count)) with (n - off - count) by lia. rewrite Zminus_mod, Ha, Hc. done. }
  pose proof (Z.div_pos (n - (off + count)) 16 ltac:(lia) ltac:(lia)).
  eapply computes_bind; [apply read_computes; lia|]. intros bs ->.
  assert (hybrid_append (Rp s d k l) (slice (f_byte f) off count) = Ok (Rp s d (k + count / 16) (rp_live r1))) as Ea.
  { unfold hybrid_append. rewrite zlen_slice, Z.max_r by lia. unfold kEncodedSize. rewrite Hc. cbn [rp_sectors rp_data_sectors rp_records rp_live].
    rewrite (proj2 (Z.ltb_ge _ _)) by lia. exact E2. }
  eapply computes_bind; [apply (computes_lift _ _ (fun r => r = Rp s d (k + count / 16) (rp_live r1)) Ea eq_refl)|]. intros r ->.
  eapply computes_mono; [apply (IH (off + count) (k + count / 16) (rp_live r1)); [lia|done|lia|done|lia|lia|exact Hr]|].
  intros r ->. cbn beta. rewrite Hdiv. f_equal. lia.
Qed.

(** ** The mappings of a reopened pair *)

Section Reload.
Context (s d : Z) (Hs : 0 <= s <= kMaxOffset) (Hd : kDataStartSector <= d < kMaxMoffset).

Lemma hybrid_owned l : hybrid_index s d l -> owned_index s d l.
Proof.
  intros [H1 H2 H3 H4 H5]. split; try done.
  assert (forall i m, l !! i = Some m -> s_zeroed (claim m) = false -> s_moffset m <> kNoPhysicalOffset) as Hc.
  { intros i m _ Hz. unfold claim in Hz. cbn in Hz. by apply Z.eqb_neq. }
  intros x y t u p (c & Hin & Hz & Hx & ->)%resolve_data_inv (c' & Hin' & Hz' & Hy & E)%resolve_data_inv.
  apply list_elem_of_fmap in Hin as (m & -> & Hin). apply list_elem_of_fmap in Hin' as (m' & -> & Hin').
  apply list_elem_of_lookup in Hin as [i Hi]. apply list_elem_of_lookup in Hin' as [j Hj].
  unfold claim, fin in Hx, Hy, E. cbn [s_offset s_length s_moffset] in Hx, Hy, E.
  destruct (decide (i = j)) as [->|Hne]; [rewrite Hi in Hj; injection Hj as <-; lia|].
  destruct (H5 i j m m' Hi Hj Hne (Hc i m Hi Hz) (Hc j m' Hj Hz')); lia.
Qed.

(** A data mapping of the log's list is one of the writer's. *)
Lemma normal_data live l i m :
  normal <$> live = normal <$> l -> Forall untagged live -> Forall untagged l ->
  live !! i = Some m -> s_zeroed m = false -> l !! i = Some m.
Proof.
  intros Hn Hu Hu' Hi Hz. assert ((normal <$> live) !! i = Some (normal m)) as E by (rewrite list_lookup_fmap, Hi; done).
  rewrite Hn, list_lookup_fmap in E. destruct (l !! i) as [m'|] eqn:Ei; [|done]. injection E as E1 E2 E3 E4.
  rewrite Forall_lookup in Hu, Hu'. specialize (Hu i m Hi). specialize (Hu' i m' Ei). unfold untagged in *.
  destruct m as [o n p z t], m' as [o' n' p' z' t']. cbn in *. by subst.
Qed.

Lemma reload_finish live l n :
  hybrid_ok s d live -> owned_index s d l -> normal <$> live = normal <$> l ->
  exists l', hybrid_finish (Rp s d n live) = Ok l' /\ owned_index s d l' /\ normal <$> l' = normal <$> l.
Proof.
  intros Hlive Hl Hn. assert (0 <= d < kMaxMoffset) as Hd0 by (change kDataStartSector with 8 in Hd; lia).
  assert (aliased d live = false) as Hal.
  { apply existsb_none. intros [i m] Hin. apply elem_of_lookup_imap in Hin as (i' & m' & [= <- <-] & Hi).
    destruct (is_data m) eqn:Hdm; [|done]. cbn [andb]. unfold contested. apply existsb_none. intros [j m'] Hin.
    apply elem_of_lookup_imap in Hin as (j' & m'' & [= <- <-] & Hj). destruct (Nat.eqb_spec j i) as [->|Hne]; [done|]. cbn [negb andb].
    destruct (is_data m') eqn:Hdm'; [|done]. cbn [andb]. unfold is_data in *. apply negb_true_iff in Hdm, Hdm'.
    assert (Forall untagged live) as Hu.
    { eapply Forall_impl; [apply (hybrid_backing _ _ _ Hlive)|]. by intros a (? & _). }
    pose proof (normal_data live l i m Hn Hu (oi_untagged _ _ _ Hl) Hi Hdm) as Gi.
    pose proof (normal_data live l j m' Hn Hu (oi_untagged _ _ _ Hl) Hj Hdm') as Gj.
    assert (forall k a, l !! k = Some a -> s_zeroed a = false -> backed a) as Hb.
    { intros k a Hk Hz. destruct (owned_elem s d Hd l a Hl ltac:(by eapply list_elem_of_lookup_2)) as (_ & _ & _ & [[_ ?]|(? & _)]); [congruence|done]. }
    unfold owns, unbacked. rewrite Hdm, Hdm'. cbn.
    destruct (owned_apart s d Hd l i j m m' Hl Gi Gj ltac:(congruence)); [by eapply Hb|by eapply Hb|lia|lia]. }
  rewrite hybrid_finish_reference by by eapply hybrid_ok_positive. cbn [rp_data_sectors rp_live]. rewrite Hal.
  eexists. split; [done|]. split; [by apply hybrid_owned, settled_index|]. by rewrite settled_normal_all.
Qed.
End Reload.

(** [replay_log] on a pair whose trusted log leads to [l]. *)
Lemma replay_log_ok w log l n :
  let vs := ht_virtual_size (hp_header w) in let db := f_size (hp_data w) in
  0 < vs -> vs mod kAlignment = 0 -> vs / kAlignment <= kMaxOffset -> db mod kAlignment = 0 -> kSpace <= db ->
  db / kAlignment < kMaxMoffset -> owned_index (vs / kAlignment) (db / kAlignment) l ->
  logs (vs / kAlignment) (db / kAlignment) log l ->
  hp_index_bytes w = n -> bound_ok n = true -> n <= f_size (ino_file (hp_index w)) -> log_upto (ino_file (hp_index w)) n = log ->
  attempt hp_script replay_log w
    (fun l' w' => same w w' /\ owned_index (vs / kAlignment) (db / kAlignment) l' /\ normal <$> l' = normal <$> l) (same w).
Proof.
  intros vs db H1 H2 H3 H4 H5 H6 Hl (Hz & live & Hfold & Hn) Hib Hb Hsz Hlog.
  destruct (bound_ok_range n Hb) as (B1 & B2 & B3). unfold kAlignment, kSpace in *.
  assert (0 <= vs / 512 <= kMaxOffset) as Hs by (split; [apply Z.div_pos; lia|done]).
  assert (kDataStartSector <= db / 512 < kMaxMoffset) as Hd.
  { split; [|done]. change kDataStartSector with 8. apply Z.div_le_lower_bound; lia. }
  assert (hybrid_ok (vs / 512) (db / 512) live) as Hlive by (eapply fold_live; [done|change kDataStartSector with 8 in Hd; lia|exact Hfold]).
  destruct (reload_finish _ _ Hs Hd live l (0 + (n - 4096) / 16) Hlive Hl Hn) as (l' & E & Hl' & Hn').
  set (m := r ← io_lift (hybrid_replay_new vs db);
     r ← hybrid_replay_loop (Z.to_nat n) (ino_file (hp_index w)) n kSpace r; io_lift (hybrid_finish r)).
  enough (computes m (fun r => r = l')) as H.
  { apply (attempt_as _ _ m); [unfold replay_log; by rewrite Hib|]. eapply attempt_mono; [exact (H w)| |done]. intros r w' [? ->]. done. }
  eapply computes_bind.
  { apply (computes_lift _ (Rp (vs / 512) (db / 512) 0 []) (fun r => r = Rp (vs / 512) (db / 512) 0 [])); [|done].
    unfold hybrid_replay_new. cbv zeta. unfold kAlignment, kSpace. rewrite (proj2 (Z.eqb_neq vs 0)), H2, (proj2 (Z.ltb_ge kMaxOffset _)), (proj2 (Z.ltb_ge db _)), H4,
      (proj2 (Z.leb_gt _ _)) by (unfold kNoPhysicalOffset; lia). done. }
  intros r ->. eapply computes_bind.
  { apply (replay_loop_computes _ _ _ _ _ _ 0 [] live); unfold kSpace; try lia; try done. unfold log_upto, kSpace in Hlog. by rewrite Hlog. }
  intros r ->. by apply (computes_lift _ l').
Qed.

Lemma load_pair_ok Q p uuid (R : option LogStamp -> Prop) log l :
  let vs := ht_virtual_size (hp_header p) in let db := f_size (hp_data p) in
  at_rest p -> hp_writable p = true -> generation_ok uuid -> sized vs db ->
  attempt hp_script inspect_log_state p (fun r w' => same p w' /\ R r) (same p) ->
  (forall r, R r -> exists s, r = Some s /\ found Q p r /\ recovered_log p r = log) ->
  owned_index (vs / 512) (db / 512) l -> logs (vs / 512) (db / 512) log l ->
  attempt hp_script (load_pair uuid) p
    (fun ms p' => exists s, live (fun l => l = log) p' s /\ live_log p' = log /\ frame p p' /\
       owned_index (vs / 512) (db / 512) ms /\ normal <$> ms = normal <$> l)
    (fun _ => True).
Proof.
  intros vs db Hrest Hw Hg (S1 & S2 & S3 & S4 & S5 & S6) Hi HR Hl Hlog.
  apply (attempt_as _ _ (_ ← log_inspect; mappings ← replay_log; _ ← log_activate uuid; mret mappings)); [unfold load_pair; by rewrite Hw|].
  eapply attempt_bind.
  { eapply attempt_mono; [by apply log_inspect_ok|intros u p' H; exact H|done]. }
  intros _ p1 (r & t & -> & Hr). destruct (HR r Hr) as (s & -> & Hf & Hrec). pose proof Hf as ((Hok & Hsz & _) & _).
  set (p1 := set_stamp (set_hscript p t) (Some s)).
  eapply attempt_bind.
  { eapply attempt_mono; [apply (replay_log_ok p1 log l (ls_bytes s)); try done; by apply stamp_ok_bound|intros ms p' H; exact H|done]. }
  intros ms p2 ([t2 ->] & Hms & Hn). set (p2 := set_hscript p1 t2).
  eapply attempt_bind.
  { eapply attempt_mono; [apply (log_activate_ok Q p2 (Some s) uuid); [exact Hrest|exact Hf|done|done]|intros u p' H; exact H|done]. }
  intros _ p3 (s' & L1 & L2 & L3). apply attempt_ret. exists s'.
  change (recovered_log p2 (Some s)) with (recovered_log p (Some s)) in *. rewrite Hrec in *. by split_and!.
Qed.

(** ** The writer on a reopened pair *)

Section Reopen.
Context (uuid : Z -> bytes) (supply : Z).

(** Where the writer's process, or after a flush its machine, has stopped; the
    payload a flush or the process leaves behind is all there. *)
Definition stopped (w : HybridWriter) (p : HybridPair) : Prop :=
  (exited (hw_pair w) p \/
   synced (hw_pair w) /\ (exists s, live (fun l => l = live_log (hw_pair w)) (hw_pair w) s) /\ crashed (hw_pair w) p) /\
  hp_data p = hp_data (hw_pair w) /\ hp_header p = hp_header (hw_pair w) /\ hp_writable p = true.

(** A crash of a synced log keeps it. *)
Lemma crash_synced p p' s Q :
  live Q p s -> synced p -> crashed p p' ->
  hp_index p' = Ino (ino_file (hp_index p')) (ls_bytes s) (ls_bytes s) (ino_attr (hp_index p')) /\
  f_size (ino_file (hp_index p')) = ls_bytes s /\
  (forall x, 0 <= x < ls_bytes s -> f_byte (ino_file (hp_index p')) x = f_byte (ino_file (hp_index p)) x).
Proof.
  intros (H1 & H2 & H3 & _) (Y1 & Y2 & Y3) (i & a & q & f & Hi & Ha & Hq & Hf & Hsz & Hb & Ea & Ei & Ef & Eb).
  rewrite Y1 in Hi. apply list_elem_of_singleton in Hi as ->. rewrite Y2, Y3, H3 in *. rewrite Ei. cbn.
  assert (f_size f = ls_bytes s) as -> by lia. by split_and!.
Qed.

Lemma synced_found p p' s :
  live (fun l => l = live_log p) p s -> synced p -> crashed p p' ->
  safe (fun l => l = live_log p) p' /\ at_rest p' /\
  forall r, found (fun l => l = live_log p) p' r -> exists s', r = Some s' /\ found (fun l => l = live_log p) p' r /\ recovered_log p' r = live_log p.
Proof.
  intros Hl Hy Hc. pose proof Hl as (H1 & H2 & H3 & H4 & M & H6). pose proof (managed_safe _ _ _ M) as Hsafe.
  destruct (crash_safe _ p p' Hsafe Hc) as [Hs' Hr']. split; [done|]. split; [done|].
  destruct (crash_synced p p' s _ Hl Hy Hc) as (_ & Esz & Ef).
  assert (live_log p = log_upto (ino_file (hp_index p')) (ls_bytes s)) as Elog.
  { unfold live_log. rewrite H2. symmetry. by apply (log_upto_agree _ _ _ (ls_bytes s)). }
  intros r Hf. destruct r as [s'|].
  - exists s'. split; [done|]. split; [done|]. destruct Hf as ((S1 & S2 & _) & A & c & _ & _ & _ & (C1 & C2 & _) & HQ & Hle & _).
    unfold recovered_log. rewrite Elog in HQ |- *.
    assert (zlen (log_upto (ino_file (hp_index p')) (ls_bytes c)) = zlen (log_upto (ino_file (hp_index p')) (ls_bytes s))) as E by by rewrite HQ.
    unfold log_upto in E. rewrite !zlen_slice in E. rewrite Esz in S2.
    pose proof (bound_ok_range _ (stamp_ok_bound c C1)) as (B1 & _). pose proof (bound_ok_range _ (stamp_ok_bound s (proj1 H4))) as (B2 & _).
    by replace (ls_bytes s') with (ls_bytes s) by lia.
  - exfalso. destruct Hf as (Ha & _). destruct Hc as (i & a & q & f & Hi & Ha' & _ & _ & _ & _ & Ea & _).
    rewrite Ea in Ha. cbn in Ha. subst a. destruct M as [(_ & M & _) _]. rewrite Forall_forall in M.
    destruct (M None Ha') as (? & ? & ? & _). done.
Qed.

Lemma stopped_loads w p first :
  serving uuid supply w -> stopped w p -> hp_script p = [] -> generation_ok first ->
  exists ms p' s, load_pair first p = (Ok ms, p') /\ live (fun l => l = live_log (hw_pair w)) p' s /\
    live_log p' = live_log (hw_pair w) /\ frame p p' /\
    owned_index (hw_virtual_size w / 512) (hw_data_end w / 512) ms /\ normal <$> ms = normal <$> hw_mappings w.
Proof.
  intros (Q & s & Hw) (Hstop & Ed & Eh & Ew) Hs Hg.
  destruct (ho_size _ _ _ _ _ Hw) as (V1 & V2 & V3 & V4). destruct (ho_data _ _ _ _ _ Hw) as (D1 & D2 & D3 & D4).
  pose proof (ok_payload _ _ _ _ _ Hw) as Hpay.
  assert (exists Q' R, at_rest p /\ attempt hp_script inspect_log_state p (fun r w' => same p w' /\ R r) (same p) /\
    forall r, R r -> exists s', r = Some s' /\ found Q' p r /\ recovered_log p r = live_log (hw_pair w)) as (Q' & R & Hrest & Hi & HR).
  { destruct Hstop as [Hx|(Hy & (s' & Hl) & Hc)].
    - exists Q, (fun r => r = Some s). split; [by eapply exit_at_rest; [apply (ho_live _ _ _ _ _ Hw)|]|]. split.
      + eapply exit_inspect; [apply (ho_live _ _ _ _ _ Hw)|done|done].
      + intros r ->. exists s. split; [done|]. split; [by eapply exit_resumes; [apply (ho_live _ _ _ _ _ Hw)|]|].
        by eapply exit_log; [apply (ho_live _ _ _ _ _ Hw)|].
    - destruct (synced_found (hw_pair w) p s' Hl Hy Hc) as (Hsafe & Hrest & HR).
      exists (fun l => l = live_log (hw_pair w)), (found (fun l => l = live_log (hw_pair w)) p). split; [done|]. split; [|done].
      apply inspect_ok; [done|done|by apply no_faults_plain]. }
  pose proof (load_pair_ok Q' p first R (live_log (hw_pair w)) (hw_mappings w)) as H. cbv zeta in H. rewrite Ed, Eh, V4, <- D1 in H.
  destruct (attempt_succeeds _ _ _ _ _ (H Hrest Ew Hg ltac:(by split_and!; try apply Hpay) Hi HR (ho_owned _ _ _ _ _ Hw) (ho_logs _ _ _ _ _ Hw)) Hs)
    as (ms & p' & Hrun & s' & L1 & L2 & L3 & L4 & L5).
  by exists ms, p', s'.
Qed.

(** C32. A Hybrid device comes back.  When the writer's process stops at any
    point between operations, or the machine stops behind a successful flush,
    opening the pair again succeeds, and the writer made on it presents the same
    device, byte for byte; with UUIDs that are not the log's generation it is
    in service. *)
Theorem hybrid_reopen_correct w p first :
  serving uuid supply w -> stopped w p -> hp_script p = [] -> generation_ok first ->
  exists ms p' w', load_pair first p = (Ok ms, p') /\ writer_new p' ms = Ok w' /\ (forall x, dev w' x = dev w x) /\
    forall uuid' supply', (forall n, 0 <= n < supply' -> Some (generation_of (uuid' n)) <> ls_generation <$> hp_stamp p') ->
      serving uuid' supply' w'.
Proof.
  intros Hserv Hst Hs Hg. destruct (stopped_loads w p first Hserv Hst Hs Hg) as (ms & p' & s & Hrun & Hl & Hlog & (F1 & F2 & F3 & F4) & Hms & Hn).
  destruct Hserv as (Q & s0 & Hw). destruct Hst as (_ & Ed & Eh & Ew). rewrite Ed in F1. rewrite Eh in F2. rewrite Ew in F3.
  destruct (ho_size _ _ _ _ _ Hw) as (V1 & V2 & V3 & V4). destruct (ho_data _ _ _ _ _ Hw) as (D1 & D2 & D3).
  exists ms, p'. eexists. split; [done|]. split; [unfold writer_new; by rewrite F3|]. split.
  - intros x. unfold dev. cbn [hw_pair hw_mappings]. rewrite F1. f_equal.
    rewrite <- (resolve_normal ms) by apply Hms. rewrite Hn. apply resolve_normal, (oi_untagged _ _ _ (ho_owned _ _ _ _ _ Hw)).
  - intros uuid' supply' Hu. pose proof Hl as (L1 & L2 & _). exists (fun l => l = live_log (hw_pair w)), s.
    split; cbn [hw_failed hw_virtual_size hw_data_end hw_pair hw_mappings hw_index_end hw_uuids]; rewrite ?F1, ?F2, ?F3, ?V4, <- ?D1; try done.
    + unfold zlen. rewrite <- (length_fmap normal ms), Hn, length_fmap. apply (ho_count _ _ _ _ _ Hw).
    + rewrite Hlog. eapply logs_normal; [exact Hn|]. apply (ho_logs _ _ _ _ _ Hw).
    + apply (ho_header _ _ _ _ _ Hw).
    + split; [done|]. intros n Hin E. apply (Hu n Hin). rewrite L1, E. done.
Qed.
End Reopen.

(** The example device, its process gone. *)
Definition device_exited : HybridPair :=
  HP [] true (hp_header device_open) (hp_data device_open) (at_sync (hp_anchor device_open))
    (Ino (ino_file (hp_index device_open)) (f_size (ino_file (hp_index device_open))) (f_size (ino_file (hp_index device_open)))
       (at_sync (ino_attr (hp_index device_open)))) [] None 4096 0.

Lemma hybrid_reopen_correct_witness :
  exists ms p' w', load_pair HybridCrash.example_uuid device_exited = (Ok ms, p') /\ writer_new p' ms = Ok w' /\
    (forall x, dev w' x = dev device_writer x) /\
    forall uuid' supply', (forall n, 0 <= n < supply' -> Some (generation_of (uuid' n)) <> ls_generation <$> hp_stamp p') ->
      serving uuid' supply' w'.
Proof.
  apply (hybrid_reopen_correct device_uuids 2); [apply device_serving| |reflexivity|apply example_generation].
  unfold stopped, exited, device_exited, device_writer. cbn [hw_pair hp_anchor hp_index hp_former hp_data hp_header hp_writable].
  split; [left|]; repeat split.
Defined.
