(* ===== verification/Base64.v ===== *)
(** * The base64 codec of registry credentials (src/source/base64.hpp)

    [base64_encode] builds the [Authorization: Basic] header of a registry
    request and [base64_decode] reads the [auth] field of a credential file.
    Both are translated with their 32-bit accumulators; the theorems show that
    decoding undoes encoding, that an encoding is whole groups of four
    characters of the alphabet, and that decoding stops at the first foreign
    character. *)
From stdpp Require Import base list numbers.
From S2P Require Import Prelude Bytes.
Local Open Scope Z_scope.

Definition kAlphabet : bytes :=
  seqZ 65 26 ++ seqZ 97 26 ++ seqZ 48 10 ++ [43; 47].

(** '=' *)
Definition pad_char : Z := 61.

(** [kAlphabet[(v >> k) & 63]] *)
Definition digit64 (v k : Z) : Z := bget kAlphabet (Z.land (Z.shiftr v k) 63).

Fixpoint base64_encode (l : bytes) : bytes :=
  match l with
  | a :: b :: c :: l =>
      let v := Z.lor (Z.lor (Z.shiftl a 16) (Z.shiftl b 8)) c in
      digit64 v 18 :: digit64 v 12 :: digit64 v 6 :: digit64 v 0 :: base64_encode l
  | [a; b] =>
      let v := Z.lor (Z.shiftl a 16) (Z.shiftl b 8) in
      [digit64 v 18; digit64 v 12; digit64 v 6; pad_char]
  | [a] =>
      let v := Z.shiftl a 16 in
      [digit64 v 18; digit64 v 12; pad_char; pad_char]
  | [] => []
  end.

Definition kTable : list Z :=
  [-1; -1; -1; -1; -1; -1; -1; -1; -1; -1; -1; -1; -1; -1; -1; -1;
   -1; -1; -1; -1; -1; -1; -1; -1; -1; -1; -1; -1; -1; -1; -1; -1;
   -1; -1; -1; -1; -1; -1; -1; -1; -1; -1; -1; 62; -1; -1; -1; 63;
   52; 53; 54; 55; 56; 57; 58; 59; 60; 61; -1; -1; -1; -1; -1; -1;
   -1; 0; 1; 2; 3; 4; 5; 6; 7; 8; 9; 10; 11; 12; 13; 14;
   15; 16; 17; 18; 19; 20; 21; 22; 23; 24; 25; -1; -1; -1; -1; -1;
   -1; 26; 27; 28; 29; 30; 31; 32; 33; 34; 35; 36; 37; 38; 39; 40;
   41; 42; 43; 44; 45; 46; 47; 48; 49; 50; 51; -1; -1; -1; -1; -1]
  ++ replicate 128 (-1).

(** One turn of the decoding loop: the accumulator keeps 32 bits. *)
Fixpoint decode_loop (l : bytes) (acc bits : Z) : bytes :=
  match l with
  | [] => []
  | c :: l =>
      let v := bget kTable c in
      if v <? 0 then []
      else
        let acc := Z.lor (Z.shiftl acc 6 mod 2 ^ 32) v in
        let bits := bits + 6 in
        if 8 <=? bits
        then Z.land (Z.shiftr acc (bits - 8)) 255 :: decode_loop l acc (bits - 8)
        else decode_loop l acc bits
  end.

Definition base64_decode (l : bytes) : bytes := decode_loop l 0 0.

(** ** Arithmetic reading of the digits *)

Lemma table_alphabet s : 0 <= s < 64 -> bget kTable (bget kAlphabet s) = s.
Proof.
  intros Hs.
  assert (Forall (fun s => bget kTable (bget kAlphabet s) = s) (seqZ 0 64)) as H
    by (rewrite Forall_forall; vm_compute; intros x Hx; repeat (apply elem_of_cons in Hx as [->|Hx]; [done|]); by apply elem_of_nil in Hx).
  rewrite Forall_forall in H. apply H, elem_of_seqZ. lia.
Qed.

(** The six bits a digit stands for. *)
Definition sextet (v k : Z) : Z := v / 2 ^ k mod 64.

Lemma sextet_range v k : 0 <= sextet v k < 64.
Proof. apply Z.mod_pos_bound. lia. Qed.

Lemma table_digit64 v k : 0 <= k -> bget kTable (digit64 v k) = sextet v k.
Proof.
  intros. unfold digit64. change 63 with (Z.ones 6).
  rewrite Z.land_ones, Z.shiftr_div_pow2 by lia.
  apply (table_alphabet (sextet v k)), sextet_range.
Qed.

Lemma acc_step acc s : 0 <= s < 64 -> Z.lor (Z.shiftl acc 6 mod 2 ^ 32) s = acc mod 2 ^ 26 * 64 + s.
Proof.
  intros. rewrite Z.shiftl_mul_pow2, Z.lor_comm by lia.
  change (2 ^ 32) with (2 ^ 26 * 2 ^ 6). rewrite Z.mul_mod_distr_r by lia.
  rewrite <- Z.shiftl_mul_pow2, lor_shiftl_add by lia. lia.
Qed.

(** One digit, read with [bits] undelivered bits before it. *)
Lemma decode_digit v k l acc bits :
  0 <= k -> 0 <= bits ->
  decode_loop (digit64 v k :: l) acc bits =
  let acc := acc mod 2 ^ 26 * 64 + sextet v k in
  if 8 <=? bits + 6
  then acc / 2 ^ (bits - 2) mod 256 :: decode_loop l acc (bits - 2)
  else decode_loop l acc (bits + 6).
Proof.
  intros Hk Hb. pose proof (sextet_range v k). cbn [decode_loop].
  rewrite table_digit64 by done. rewrite (proj2 (Z.ltb_ge _ _)) by lia.
  rewrite acc_step by done. cbv zeta. case_if; [|done].
  change 255 with (Z.ones 8). rewrite Z.land_ones, Z.shiftr_div_pow2 by lia.
  replace (bits + 6 - 8) with (bits - 2) by lia. done.
Qed.

Lemma decode_pad l acc bits : decode_loop (pad_char :: l) acc bits = [].
Proof. done. Qed.

Lemma triple_value a b c :
  is_byte b -> is_byte c ->
  Z.lor (Z.lor (Z.shiftl a 16) (Z.shiftl b 8)) c = a * 65536 + b * 256 + c.
Proof.
  unfold is_byte. intros. rewrite Z.lor_comm, (Z.lor_comm (Z.shiftl a 16)), Z.lor_assoc.
  rewrite (lor_shiftl_add c) by lia. rewrite lor_shiftl_add by lia. lia.
Qed.

Lemma pair_value a b :
  is_byte b -> Z.lor (Z.shiftl a 16) (Z.shiftl b 8) = a * 65536 + b * 256.
Proof.
  intros Hb. rewrite <- (Z.lor_0_r (Z.lor _ _)), triple_value by (unfold is_byte in *; lia). lia.
Qed.

Lemma list_ind3 {A} (P : list A -> Prop) :
  P [] -> (forall a, P [a]) -> (forall a b, P [a; b]) ->
  (forall a b c l, P l -> P (a :: b :: c :: l)) -> forall l, P l.
Proof.
  intros H0 H1 H2 H3. fix go 1. intros [|a [|b [|c l]]]; [done|apply H1|apply H2|apply H3, go].
Qed.

(** Decodes a digit, then evaluates the branch on the number of pending bits. *)
Ltac decode_digit :=
  rewrite decode_digit by lia; cbv zeta;
  match goal with |- context [if 8 <=? ?n then _ else _] =>
    let b := eval vm_compute in (8 <=? n) in change (8 <=? n) with b; cbv iota
  end;
  rewrite ?Z.add_0_l; rewrite ?Z.sub_diag.

(** A delivered byte lies within the last two digits. *)
Lemma last_digits x s k :
  0 <= s < 64 -> k = 0 \/ k = 2 \/ k = 4 ->
  (x mod 2 ^ 26 * 64 + s) / 2 ^ k mod 256 = (x mod 64 * 64 + s) / 2 ^ k mod 256.
Proof.
  intros Hs Hk. assert (exists q, x mod 2 ^ 26 = x mod 64 + q * 64) as [q ->].
  { exists (x / 64 mod 2 ^ 20). change (2 ^ 26) with (64 * 2 ^ 20).
    rewrite Z.rem_mul_r by lia. lia. }
  replace ((x mod 64 + q * 64) * 64 + s) with (x mod 64 * 64 + s + q * 4096) by lia.
  assert (exists m, 4096 = m * 256 * 2 ^ k /\ 0 < 2 ^ k) as (m & Hm & ?)
    by (destruct Hk as [->|[->| ->]]; [exists 16|exists 4|exists 1]; done).
  rewrite Hm, 2!Z.mul_assoc, Z.div_add, Z.mod_add by lia. done.
Qed.

Lemma last_digit x s : 0 <= s < 64 -> (x mod 2 ^ 26 * 64 + s) mod 64 = s.
Proof. intros. rewrite Z.add_comm, Z.mod_add, Z.mod_small; lia. Qed.

Lemma sextets a b c :
  is_byte a -> is_byte b -> is_byte c ->
  let v := a * 65536 + b * 256 + c in
  sextet v 18 = a / 4 /\ sextet v 12 = a mod 4 * 16 + b / 16 /\
  sextet v 6 = b mod 16 * 4 + c / 64 /\ sextet v 0 = c mod 64.
Proof.
  intros Ha Hb Hc v. unfold is_byte, sextet, v in *. clear v.
  change (2 ^ 18) with 262144; change (2 ^ 12) with 4096; change (2 ^ 6) with 64; change (2 ^ 0) with 1.
  split_and!; Z.to_euclidean_division_equations; lia.
Qed.

Ltac zdiv := Z.to_euclidean_division_equations; lia.

(** The first two digits of a group deliver its first byte, the third its
    second byte and the fourth its last one, whatever the accumulator still
    held. *)
Lemma decode_two a b c l acc :
  is_byte a -> is_byte b -> is_byte c ->
  let v := a * 65536 + b * 256 + c in
  exists acc', acc' mod 64 = sextet v 12 /\
    decode_loop (digit64 v 18 :: digit64 v 12 :: l) acc 0 = a :: decode_loop l acc' 4.
Proof.
  intros Ha Hb Hc v. destruct (sextets a b c Ha Hb Hc) as (E1 & E2 & _). fold v in E1, E2.
  pose proof (sextet_range v 18). pose proof (sextet_range v 12).
  eexists. do 2 decode_digit. split; [|f_equal]; [by rewrite last_digit|].
  rewrite last_digits, last_digit, E1, E2 by lia. change (2 ^ (6 - 2)) with 16.
  unfold is_byte in *. zdiv.
Qed.

Lemma decode_third a b c l acc :
  is_byte a -> is_byte b -> is_byte c ->
  let v := a * 65536 + b * 256 + c in
  acc mod 64 = sextet v 12 ->
  exists acc', acc' mod 64 = sextet v 6 /\
    decode_loop (digit64 v 6 :: l) acc 4 = b :: decode_loop l acc' 2.
Proof.
  intros Ha Hb Hc v Hacc. destruct (sextets a b c Ha Hb Hc) as (_ & E2 & E3 & _). fold v in E2, E3.
  pose proof (sextet_range v 6).
  eexists. decode_digit. split; [|f_equal]; [by rewrite last_digit|].
  rewrite last_digits, Hacc, E2, E3 by lia. change (2 ^ (4 - 2)) with 4.
  unfold is_byte in *. zdiv.
Qed.

Lemma decode_fourth a b c l acc :
  is_byte a -> is_byte b -> is_byte c ->
  let v := a * 65536 + b * 256 + c in
  acc mod 64 = sextet v 6 ->
  exists acc', decode_loop (digit64 v 0 :: l) acc 2 = c :: decode_loop l acc' 0.
Proof.
  intros Ha Hb Hc v Hacc. destruct (sextets a b c Ha Hb Hc) as (_ & _ & E3 & E4). fold v in E3, E4.
  pose proof (sextet_range v 0).
  eexists. decode_digit. f_equal.
  rewrite last_digits, Hacc, E3, E4 by lia. change (2 ^ 0) with 1.
  unfold is_byte in *. zdiv.
Qed.

Lemma is_byte_0 : is_byte 0.
Proof. unfold is_byte. lia. Qed.

Lemma decode_encode l acc : Forall is_byte l -> decode_loop (base64_encode l) acc 0 = l.
Proof.
  revert acc. induction l as [|a|a b|a b c l IH] using list_ind3; intros acc Hl; [done|..];
    rewrite ?Forall_cons in Hl; destruct_and? Hl; cbn [base64_encode].
  - replace (Z.shiftl a 16) with (a * 65536 + 0 * 256 + 0) by (rewrite Z.shiftl_mul_pow2; lia).
    destruct (decode_two a 0 0 [pad_char; pad_char] acc) as (acc1 & _ & ->); auto using is_byte_0.
  - rewrite pair_value by done. replace (a * 65536 + b * 256) with (a * 65536 + b * 256 + 0) by lia.
    edestruct (decode_two a b 0) as (acc1 & A1 & ->); auto using is_byte_0.
    edestruct (decode_third a b 0) as (acc2 & A2 & ->); eauto using is_byte_0.
  - rewrite triple_value by done.
    edestruct (decode_two a b c) as (acc1 & A1 & ->); auto.
    edestruct (decode_third a b c) as (acc2 & A2 & ->); eauto.
    edestruct (decode_fourth a b c) as (acc3 & ->); eauto.
    by rewrite IH.
Qed.

(** ** Theorems *)

(** Decoding reads up to the first character outside the alphabet. *)
Lemma base64_decode_stops l c r : bget kTable c < 0 -> base64_decode (l ++ c :: r) = base64_decode l.
Proof.
  intros Hc. unfold base64_decode. generalize 0 at 1 3 as acc. generalize 0 as bits.
  induction l as [|d l IH]; intros bits acc; simpl.
  - by rewrite (proj2 (Z.ltb_lt _ _) Hc).
  - repeat case_if; [done|by rewrite IH|done..].
Qed.

(** An encoding is whole groups of four characters. *)
Lemma base64_encode_length l : zlen (base64_encode l) = (zlen l + 2) / 3 * 4.
Proof.
  induction l as [|a|a b|a b c l IH] using list_ind3; [done..|]. cbn [base64_encode].
  rewrite !zlen_cons, IH. replace (1 + (1 + (1 + zlen l)) + 2) with (zlen l + 2 + 1 * 3) by lia.
  rewrite Z.div_add by lia. lia.
Qed.

(** Decoding a base64 encoding gives back the credential, whatever its
    length: both paddings and the 32-bit accumulator included. *)
Theorem base64_roundtrip l : Forall is_byte l -> base64_decode (base64_encode l) = l.
Proof. apply decode_encode. Qed.
Lemma base64_roundtrip_witness :
  base64_encode [117; 58; 112; 255] = [100; 84; 112; 119; 47; 119; 61; 61] /\
  base64_decode (base64_encode [117; 58; 112; 255]) = [117; 58; 112; 255].
Proof.
  split; [vm_compute; reflexivity|]. apply base64_roundtrip.
  repeat (apply Forall_cons; split; [unfold is_byte; lia|]). apply Forall_nil. done.
Defined.
