(* ===== verification/Trace.v ===== *)
(** * The prefetch trace: codec and replay
    (src/format/trace.cpp, src/image/trace_replay.cpp)

    A trace blob is a 24-byte header and a stream of 24-byte records.  The
    [TraceWriter] keeps the blob in memory and a running checksum; [parse]
    accepts a whole blob or nothing; [replay_trace] turns the records into
    warm-up calls on the image's lower layers, within budgets.

    The theorems show that whatever sequence of appends and finalisations
    produced a blob, parsing it yields exactly the accepted records in order,
    and that a replay of any blob, hostile ones included, issues a prefix of the
    trace's admissible records and stays within its budgets. *)
From S2P Require Import Prelude Bytes Crc32c.

Definition kMagic : Z := 3270449184.
Definition kHeaderSize : Z := 24.
Definition kRecordSize : Z := 24.
Definition kMaxRecordCount : Z := 1048576.
(** 'R' *)
Definition kOpRead : Z := 82.

Record TraceRecord := TR { tr_op : Z; tr_layer_index : Z; tr_count : Z; tr_offset : Z }.

#[export] Instance TraceRecord_eq_dec : EqDecision TraceRecord.
Proof. solve_decision. Defined.

Inductive TraceError := Truncated | BadMagic | BadSize | ChecksumMismatch.

(** The width of each field. *)
Definition rec_ok (r : TraceRecord) : Prop :=
  is_byte (tr_op r) /\ 0 <= tr_layer_index r < 2 ^ 32 /\ 0 <= tr_count r < 2 ^ 64 /\
  - 2 ^ 63 <= tr_offset r < 2 ^ 63.

(** [static_cast<int64_t>] of a 64-bit word. *)
Definition i64 (v : Z) : Z := if v <? 2 ^ 63 then v else v - 2 ^ 64.

Section Codec.
(** Which checksum routine runs, and the alignment of the buffers it sees. *)
Context (hw : bool) (mask : Z -> Z).

(** ** The parser *)

Definition load_record (recs : bytes) (p : Z) : TraceRecord :=
  TR (bget recs p) (load_u32_le recs (p + 4)) (load_u64_le recs (p + 8)) (i64 (load_u64_le recs (p + 16))).

Definition parse (blob : bytes) : TraceError + list TraceRecord :=
  if zlen blob <? kHeaderSize then inl Truncated
  else if negb (load_u32_le blob 0 =? kMagic) then inl BadMagic
  else
    let data_size := load_u64_le blob 8 in
    let checksum := load_u32_le blob 16 in
    if negb (data_size =? zlen blob - kHeaderSize) then inl BadSize
    else
      let n := data_size / kRecordSize in
      let recs := zdrop kHeaderSize blob in
      if negb (crc32c_extend hw (mask kHeaderSize) (ztake (n * kRecordSize) recs) 0 =? checksum)
      then inl ChecksumMismatch
      else inr ((fun i => load_record recs (i * kRecordSize)) <$> seqZ 0 n).

(** ** The writer *)

Record TraceWriter := TW { tw_buf : bytes; tw_crc : Z; tw_records : Z }.

Definition writer_start : TraceWriter := TW (store_u32_le (zeros kHeaderSize) 0 kMagic) 0 0.

Definition conforming (r : TraceRecord) : bool :=
  (tr_op r =? kOpRead) && negb ((tr_count r <? 1) || (kMaxRecordCount <? tr_count r)) && negb (tr_offset r <? 0).

(** The 24 bytes of one record, its padding zero. *)
Definition store_record (r : TraceRecord) : bytes :=
  let p := put (zeros kRecordSize) 0 [u8 (tr_op r)] in
  let p := store_u32_le p 4 (tr_layer_index r) in
  let p := store_u64_le p 8 (tr_count r) in
  store_u64_le p 16 (u64 (tr_offset r)).

Definition trace_append (r : TraceRecord) (w : TraceWriter) : bool * TraceWriter :=
  if negb (conforming r) then (false, w)
  else
    let p := store_record r in
    let crc := crc32c_extend hw (mask (zlen (tw_buf w))) p (tw_crc w) in
    let records := tw_records w + 1 in
    (true, TW (store_u64_le (tw_buf w ++ p) 8 (u64 (records * kRecordSize))) crc records).

Definition finalize (w : TraceWriter) : bytes * TraceWriter :=
  let buf := store_u32_le (tw_buf w) 16 (tw_crc w) in
  (buf, TW buf (tw_crc w) (tw_records w)).

(** A recording session: appends with finalisations in between. *)
Inductive TraceOp := TAppend (r : TraceRecord) | TFinalize.

Fixpoint session (ops : list TraceOp) (w : TraceWriter) : TraceWriter :=
  match ops with
  | [] => w
  | TAppend r :: ops => session ops (trace_append r w).2
  | TFinalize :: ops => session ops (finalize w).2
  end.

(** The records a session accepts. *)
Fixpoint accepted (ops : list TraceOp) : list TraceRecord :=
  match ops with
  | [] => []
  | TAppend r :: ops => if conforming r then r :: accepted ops else accepted ops
  | TFinalize :: ops => accepted ops
  end.
End Codec.

(** ** The codec round trip *)

(** A record read back from its image. *)
Definition rec_fields (r : TraceRecord) : list (Z * bytes) :=
  [(0, [u8 (tr_op r)]); (4, le_bytes 4 (tr_layer_index r)); (8, le_bytes 8 (tr_count r));
   (16, le_bytes 8 (u64 (tr_offset r)))].

Lemma store_record_puts r : store_record r = puts (zeros kRecordSize) (rec_fields r).
Proof. unfold store_record. by rewrite !store_u64_val, store_u32_val. Qed.

Lemma rec_layout r : layout_ok 0 (zlen (zeros kRecordSize)) (rec_fields r).
Proof. unfold kRecordSize. cbn [layout_ok rec_fields]. len. Qed.

Lemma zlen_store_record r : zlen (store_record r) = kRecordSize.
Proof.
  rewrite store_record_puts. destruct (puts_below _ _ 0 ltac:(lia) (rec_layout r)) as [-> _].
  unfold kRecordSize. len.
Qed.

Lemma store_record_bytes r : Forall is_byte (store_record r).
Proof.
  rewrite store_record_puts. apply puts_byte; [apply zeros_byte|]. unfold rec_fields.
  forall_fields ltac:(fun _ => first [apply le_bytes_byte|
    apply List.Forall_cons; [apply (Z.mod_pos_bound (tr_op r) (2 ^ 8)); lia|apply List.Forall_nil]]).
Qed.

Lemma i64_u64 v : - 2 ^ 63 <= v < 2 ^ 63 -> i64 (u64 v) = v.
Proof.
  intros. unfold i64, u64, wrap. destruct (decide (0 <= v)).
  - rewrite Z.mod_small by lia. by rewrite (proj2 (Z.ltb_lt _ _)) by lia.
  - replace (v mod 2 ^ 64) with (v + 2 ^ 64).
    + rewrite (proj2 (Z.ltb_ge _ _)) by lia. lia.
    + rewrite <- (Z.mod_add v 1) by lia. rewrite Z.mod_small; lia.
Qed.

(** The image of a record anywhere in a stream. *)
Lemma load_store_record a r b :
  rec_ok r -> Forall is_byte a -> Forall is_byte b -> load_record (a ++ store_record r ++ b) (zlen a) = r.
Proof.
  intros (H1 & H2 & H3 & H4) Ha Hb. unfold load_record.
  pose proof (zlen_store_record r) as Hl. unfold kRecordSize in Hl.
  assert (Forall is_byte (a ++ store_record r ++ b)) as HF
    by (rewrite !Forall_app; auto using store_record_bytes).
  assert (forall q n bs, (q, bs) ∈ rec_fields r -> zlen bs = n -> 0 <= q -> q + n <= 24 ->
    sub (zlen a + q) n (a ++ store_record r ++ b) = bs) as Hf.
  { intros q n bs Hin <- Hq Hn. rewrite sub_app_mid by len. rewrite store_record_puts.
    by apply (puts_field _ _ 0 _ _ _ ltac:(lia) (rec_layout r)). }
  pose proof (zlen_nonneg a).
  rewrite (load_field_u32 _ (zlen a + 4) HF ltac:(lia) (tr_layer_index r)) by (try (apply Hf; [in_fields|len..]); len).
  rewrite (load_field_u64 _ (zlen a + 8) HF ltac:(lia) (tr_count r)) by (try (apply Hf; [in_fields|len..]); len).
  rewrite (load_field_u64 _ (zlen a + 16) HF ltac:(lia) (u64 (tr_offset r))) by (try (apply Hf; [in_fields|len..]); len).
  rewrite (load_field_u8 _ (zlen a) ltac:(lia) (u8 (tr_op r)))
    by (first [solve [rewrite <- (Z.add_0_r (zlen a)); apply Hf; [in_fields|len..]]|len]).
  unfold u8, wrap. rewrite !Z.mod_small by (unfold is_byte in *; try (apply Z.mod_pos_bound); lia).
  rewrite i64_u64 by lia. by destruct r.
Qed.

(** The record stream of a list of records. *)
Definition stream (rs : list TraceRecord) : bytes := mjoin (store_record <$> rs).

Lemma stream_app rs rs' : stream (rs ++ rs') = stream rs ++ stream rs'.
Proof. unfold stream. by rewrite fmap_app, join_app. Qed.
Lemma stream_one r : stream [r] = store_record r.
Proof. apply app_nil_r. Qed.
Lemma stream_cons r rs : stream (r :: rs) = store_record r ++ stream rs.
Proof. done. Qed.
Lemma zlen_stream rs : zlen (stream rs) = zlen rs * kRecordSize.
Proof.
  induction rs as [|r rs IH]; [done|]. rewrite stream_cons, zlen_app, zlen_store_record, IH, zlen_cons.
  unfold kRecordSize. lia.
Qed.
Lemma stream_bytes rs : Forall is_byte (stream rs).
Proof.
  induction rs as [|r rs IH]; [constructor|]. rewrite stream_cons, Forall_app.
  auto using store_record_bytes.
Qed.

Lemma load_stream rs i r : Forall rec_ok rs -> rs !! i = Some r -> load_record (stream rs) (Z.of_nat i * kRecordSize) = r.
Proof.
  intros Hok Hi. rewrite <- (take_drop_middle rs i r Hi) at 1.
  rewrite stream_app, stream_cons. apply lookup_lt_Some in Hi as Hlt.
  replace (Z.of_nat i * kRecordSize) with (zlen (stream (take i rs))).
  - apply load_store_record; auto using stream_bytes. by eapply Forall_lookup_1.
  - rewrite zlen_stream. unfold zlen. rewrite length_take. f_equal. lia.
Qed.

Lemma loads_stream rs :
  Forall rec_ok rs -> (fun i => load_record (stream rs) (i * kRecordSize)) <$> seqZ 0 (zlen rs) = rs.
Proof.
  intros Hok. apply list_eq. intros i. rewrite list_lookup_fmap.
  destruct (rs !! i) as [r|] eqn:Hi.
  - apply lookup_lt_Some in Hi as Hlt. rewrite lookup_seqZ_lt by (unfold zlen; lia). simpl.
    f_equal. by apply load_stream.
  - apply lookup_ge_None in Hi. rewrite lookup_seqZ_ge by (unfold zlen; lia). done.
Qed.

Section RoundTrip.
Context (hw : bool) (mask : Z -> Z) (Hmask : forall p, 0 <= mask p < 8).

(** A writer that has accepted the records [rs]. *)
Record recorded (w : TraceWriter) (rs : list TraceRecord) : Prop := {
  h_buf : exists hdr, tw_buf w = hdr ++ stream rs /\ zlen hdr = kHeaderSize /\ Forall is_byte hdr /\
    load_u32_le hdr 0 = kMagic /\ load_u64_le hdr 8 = u64 (zlen rs * kRecordSize);
  h_crc : tw_crc w = crc32c_sw (stream rs) 0;
  h_records : tw_records w = zlen rs;
  h_conforming : Forall (fun r => rec_ok r /\ conforming r = true) rs;
}.

Lemma recorded_start : recorded writer_start [].
Proof.
  split; [|done..|constructor]. exists (store_u32_le (zeros kHeaderSize) 0 kMagic). cbn [tw_buf writer_start].
  split; [by rewrite app_nil_r|]. split; [done|]. split; [|done].
  rewrite store_u32_val. apply put_byte; auto with bytes.
Qed.

Lemma recorded_append w rs r :
  rec_ok r -> recorded w rs ->
  (trace_append hw mask r w).1 = conforming r /\
  recorded (trace_append hw mask r w).2 (rs ++ (if conforming r then [r] else [])).
Proof.
  intros Hr [(hdr & E & Hl & Hb & Hm & Hd) Hc Hn Hf]. unfold trace_append, kHeaderSize in *.
  destruct (conforming r) eqn:Er; cbn [negb fst snd]; [|by rewrite app_nil_r; split; [|split; [exists hdr|..]]].
  split; [done|]. split; cbn [tw_buf tw_crc tw_records].
  - exists (put hdr 8 (le_bytes 8 (u64 ((tw_records w + 1) * kRecordSize)))).
    rewrite store_u64_val, E, <- app_assoc, put_app_l, stream_app, stream_one by len.
    rewrite zlen_put, load_u32_put_other, load_put_u64 by first [done|len]. split_and!; auto with bytes.
    rewrite Hn, zlen_app. unfold u64, wrap. by rewrite Z.mod_mod by lia.
  - rewrite crc32c_extend_sw, Hc, stream_app, stream_one, crc32c_sw_app;
      auto using store_record_bytes. rewrite Hc. apply crc32c_sw_bound. lia.
  - rewrite Hn, zlen_app. done.
  - rewrite Forall_app, Forall_singleton. auto.
Qed.

Lemma recorded_finalize w rs : recorded w rs -> recorded (finalize w).2 rs.
Proof.
  intros [(hdr & E & Hl & Hb & Hm & Hd) Hc Hn Hf]. unfold finalize, kHeaderSize in *.
  split; cbn [snd tw_buf tw_crc tw_records]; try done.
  exists (put hdr 16 (le_bytes 4 (tw_crc w))).
  rewrite store_u32_val, E, put_app_l by len.
  rewrite zlen_put, load_u32_put_other, load_u64_put_other by len. split_and!; auto with bytes.
Qed.

Lemma recorded_session ops w rs :
  Forall (fun o => match o with TAppend r => rec_ok r | TFinalize => True end) ops -> recorded w rs ->
  recorded (session hw mask ops w) (rs ++ accepted ops).
Proof.
  intros Hops. revert w rs. induction Hops as [|[r|] ops Ho Hops IH]; intros w rs Hw; simpl.
  - by rewrite app_nil_r.
  - destruct (recorded_append w rs r Ho Hw) as [_ H]. apply IH in H. rewrite <- app_assoc in H.
    by destruct (conforming r).
  - by apply IH, recorded_finalize.
Qed.

(** What the parser reads in a finalised header. *)
Lemma finalized_header w rs :
  recorded w rs -> zlen rs * kRecordSize < 2 ^ 64 ->
  exists h, (finalize w).1 = h ++ stream rs /\ zlen h = kHeaderSize /\
    load_u32_le (h ++ stream rs) 0 = kMagic /\ load_u64_le (h ++ stream rs) 8 = zlen rs * kRecordSize /\
    load_u32_le (h ++ stream rs) 16 = crc32c_sw (stream rs) 0.
Proof.
  intros [(hdr & E & Hl & Hb & Hm & Hd) Hc Hn Hf] Hsz. pose proof (zlen_nonneg rs).
  assert (0 <= tw_crc w < 2 ^ 32) as Hcr by (rewrite Hc; apply crc32c_sw_bound; lia).
  unfold finalize, kHeaderSize in *. cbn [fst].
  rewrite store_u32_val, E, put_app_l by len. set (h := put hdr 16 _).
  assert (zlen h = 24) as Hh by (unfold h; rewrite zlen_put; len).
  assert (forall q, 0 <= q < 24 -> bget (h ++ stream rs) q = bget h q) as Hg
    by (intros; by rewrite bget_app_l by lia).
  assert (load_u32_le h 0 = kMagic /\ load_u64_le h 8 = zlen rs * kRecordSize /\
    load_u32_le h 16 = crc32c_sw (stream rs) 0) as (H1 & H2 & H3).
  { unfold h. rewrite load_u32_put_other, load_u64_put_other, load_put_u32, Hm, Hd by first [done|len].
    rewrite u64_small by (unfold kRecordSize in *; lia). by rewrite Z.mod_small, Hc by lia. }
  exists h. rewrite <- H1, <- H2, <- H3. unfold load_u32_le, load_u64_le. by rewrite !Hg by lia.
Qed.

Lemma parse_finalized hw' mask' w rs :
  (forall p, 0 <= mask' p < 8) -> recorded w rs -> zlen rs * kRecordSize < 2 ^ 64 ->
  parse hw' mask' (finalize w).1 = inr rs.
Proof.
  intros Hmask' Hw Hsz. destruct (finalized_header w rs Hw Hsz) as (h & -> & Hl & Hm & Hd & Hc).
  pose proof (zlen_stream rs) as Hs. unfold parse, kHeaderSize in *.
  rewrite zlen_app, Hl, Hs, Hm, Hd, Hc, zdrop_app_exact by done. pose proof (zlen_nonneg rs).
  unfold kRecordSize in *. rewrite (proj2 (Z.ltb_ge _ _)), Z.eqb_refl by lia. cbn [negb].
  rewrite (proj2 (Z.eqb_eq (zlen rs * 24) _)) by lia. cbn [negb]. rewrite Z.div_mul by lia.
  rewrite <- Hs, ztake_all, crc32c_extend_sw by (done || apply stream_bytes || lia).
  rewrite Z.eqb_refl. cbn [negb]. f_equal. apply loads_stream.
  eapply Forall_impl; [apply Hw|]. by intros r [].
Qed.

(** C40. Whatever sequence of appends, finalisations in between included,
    recorded a trace, parsing the finalised blob yields exactly the records the
    writer accepted, in order, on any mix of checksum routines. *)
Theorem trace_roundtrip hw' mask' ops :
  (forall p, 0 <= mask' p < 8) ->
  Forall (fun o => match o with TAppend r => rec_ok r | TFinalize => True end) ops ->
  zlen (accepted ops) * kRecordSize < 2 ^ 64 ->
  parse hw' mask' (finalize (session hw mask ops writer_start)).1 = inr (accepted ops).
Proof.
  intros Hm Hops Hsz. apply parse_finalized; [done| |done].
  apply (recorded_session ops writer_start []); [done|apply recorded_start].
Qed.
End RoundTrip.

Lemma trace_roundtrip_witness :
  let ops := [TAppend (TR 82 1 4096 8192); TFinalize; TAppend (TR 87 0 1 0); TAppend (TR 82 0 1 (2 ^ 40))] in
  accepted ops = [TR 82 1 4096 8192; TR 82 0 1 (2 ^ 40)] /\
  parse false (fun _ => 0) (finalize (session true (fun p => p mod 8) ops writer_start)).1 = inr (accepted ops).
Proof.
  split; [done|]. apply trace_roundtrip; [intros; apply Z.mod_pos_bound; lia|intros; lia| |vm_compute; done].
  repeat (apply List.Forall_cons; [first [exact I|unfold rec_ok, is_byte; cbn; lia]|]). apply List.Forall_nil.
Defined.

(** ** Replay *)

Record TraceReplayOptions := TRO {
  max_records : Z;
  max_bytes : Z;
  max_record_count : Z
}.

Record TraceReplayStats := TRS {
  trace_present : bool;
  records_total : Z;
  records_replayed : Z;
  records_skipped : Z;
  bytes_requested : Z;
  bytes_warmed : Z;
  budget_exhausted : bool
}.

Definition stats0 : TraceReplayStats := TRS false 0 0 0 0 0 false.
Definition skip (s : TraceReplayStats) : TraceReplayStats :=
  TRS (trace_present s) (records_total s) (records_replayed s) (records_skipped s + 1)
    (bytes_requested s) (bytes_warmed s) (budget_exhausted s).
Definition exhaust (s : TraceReplayStats) : TraceReplayStats :=
  TRS (trace_present s) (records_total s) (records_replayed s) (records_skipped s)
    (bytes_requested s) (bytes_warmed s) true.
Definition charge (s : TraceReplayStats) (n : Z) : TraceReplayStats :=
  TRS (trace_present s) (records_total s) (records_replayed s) (records_skipped s)
    (u64 (bytes_requested s + n)) (bytes_warmed s) (budget_exhausted s).
Definition warm (s : TraceReplayStats) (n : Z) : TraceReplayStats :=
  TRS (trace_present s) (records_total s) (records_replayed s + 1) (records_skipped s)
    (bytes_requested s) (u64 (bytes_warmed s + n)) (budget_exhausted s).

(** A populate call: layer, offset and length. *)
Definition PopulateCall : Type := Z * Z * Z.

(** What the replay meets: whether the deadline has passed at each look at the
    clock, whether each populate call fails, and the calls issued so far. *)
Record ReplayWorld := RW {
  rw_expired : list bool;
  rw_failures : list bool;
  rw_calls : list PopulateCall
}.

Definition expired (w : ReplayWorld) : bool * ReplayWorld :=
  (default false (head (rw_expired w)), RW (tail (rw_expired w)) (rw_failures w) (rw_calls w)).

(** [r < 0] of [warm_targets[layer]->populate(offset, count)] *)
Definition populate_fails (c : PopulateCall) (w : ReplayWorld) : bool * ReplayWorld :=
  (default false (head (rw_failures w)), RW (rw_expired w) (tail (rw_failures w)) (rw_calls w ++ [c])).

Section Replay.
(** [warm_targets]: which entries of the vector are not null. *)
Context (targets : list bool) (opts : TraceReplayOptions).

(** [rec.layer_index < warm_targets.size() && warm_targets[rec.layer_index]] *)
Definition known_layer (r : TraceRecord) : bool :=
  negb (zlen targets <=? tr_layer_index r) && nth (Z.to_nat (tr_layer_index r)) targets false.

Fixpoint trace_loop (recs : list TraceRecord) (processed : Z) (s : TraceReplayStats) (w : ReplayWorld)
    : TraceReplayStats * ReplayWorld :=
  match recs with
  | [] => (s, w)
  | r :: recs =>
      if (max_records opts <=? processed) || (max_bytes opts <=? bytes_requested s) then (exhaust s, w)
      else
        let '(late, w) := expired w in
        if late then (exhaust s, w)
        else if negb (tr_op r =? kOpRead) then trace_loop recs (processed + 1) (skip s) w
        else if negb (known_layer r) then trace_loop recs (processed + 1) (skip s) w
        else if (tr_count r =? 0) || (max_record_count opts <? tr_count r) || (tr_offset r <? 0)
        then trace_loop recs (processed + 1) (skip s) w
        else if max_bytes opts - bytes_requested s <? tr_count r then (exhaust s, w)
        else
          let s := charge s (tr_count r) in
          let '(failed, w) := populate_fails (tr_layer_index r, tr_offset r, tr_count r) w in
          if failed then trace_loop recs (processed + 1) (skip s) w
          else trace_loop recs (processed + 1) (warm s (tr_count r)) w
  end.

Definition replay_trace (hw : bool) (mask : Z -> Z) (blob : bytes) (w : ReplayWorld) : TraceReplayStats * ReplayWorld :=
  match parse hw mask blob with
  | inl _ => (stats0, w)
  | inr recs => trace_loop recs 0 (TRS true (zlen recs) 0 0 0 0 false) w
  end.

(** The records a replay may warm, and the calls they become. *)
Definition admissible (r : TraceRecord) : bool :=
  (tr_op r =? kOpRead) && known_layer r &&
  negb ((tr_count r =? 0) || (max_record_count opts <? tr_count r) || (tr_offset r <? 0)).
Definition call_of (r : TraceRecord) : PopulateCall := (tr_layer_index r, tr_offset r, tr_count r).
Definition requested (calls : list PopulateCall) : Z := foldr Z.add 0 (snd <$> calls).

(** What one run of the loop does: it issues the calls [cs] and moves the
    statistics from [s] to [s']. *)
Record replayed (recs : list TraceRecord) (processed : Z) (s s' : TraceReplayStats) (cs : list PopulateCall) : Prop := {
  rp_prefix : cs `prefix_of` (call_of <$> filter admissible recs);
  rp_all : budget_exhausted s' = false -> cs = call_of <$> filter admissible recs /\
    records_replayed s' + records_skipped s' = records_replayed s + records_skipped s + zlen recs;
  rp_records : zlen cs <= Z.max 0 (max_records opts - processed);
  rp_bytes : bytes_requested s' = bytes_requested s + requested cs /\ bytes_requested s' <= max_bytes opts;
  rp_warmed : bytes_warmed s <= bytes_warmed s' <= bytes_warmed s + requested cs;
  rp_count : records_replayed s <= records_replayed s' <= records_replayed s + zlen cs;
  rp_total : records_replayed s' + records_skipped s' <= records_replayed s + records_skipped s + zlen recs;
  rp_kept : trace_present s' = trace_present s /\ records_total s' = records_total s
}.

Lemma filter_admissible r recs :
  filter admissible (r :: recs) = if admissible r then r :: filter admissible recs else filter admissible recs.
Proof. rewrite filter_cons. by destruct (admissible r). Qed.

Lemma admissible_false r :
  tr_op r <> kOpRead \/ known_layer r = false \/
  (tr_count r =? 0) || (max_record_count opts <? tr_count r) || (tr_offset r <? 0) = true -> admissible r = false.
Proof.
  unfold admissible. intros [->%Z.eqb_neq|[-> | ->]]; [done|by rewrite andb_false_r|apply andb_false_r].
Qed.

Lemma requested_cons c cs : requested (c :: cs) = snd c + requested cs.
Proof. done. Qed.

Definition stats_ok (s : TraceReplayStats) : Prop :=
  0 <= bytes_warmed s <= bytes_requested s /\ bytes_requested s <= max_bytes opts /\ budget_exhausted s = false.

Lemma replayed_stop recs processed s : stats_ok s -> replayed recs processed s (exhaust s) [].
Proof.
  intros (H1 & H2 & H3). pose proof (zlen_nonneg recs).
  split; cbn; rewrite ?zlen_nil; [apply prefix_nil|done|lia..|done].
Qed.

Lemma replayed_done processed s : stats_ok s -> replayed [] processed s s [].
Proof. intros (H1 & H2 & H3). split; cbn; rewrite ?zlen_nil; try lia; [done| |done]. intros _. split; [done|lia]. Qed.

Lemma replayed_skip r recs processed s s' cs :
  admissible r = false -> replayed recs (processed + 1) (skip s) s' cs -> replayed (r :: recs) processed s s' cs.
Proof.
  intros Ha [H1 H2 H3 H4 H5 H6 H7 H8]. cbn in *.
  split; rewrite ?filter_admissible, ?Ha; rewrite ?zlen_cons;
    [done|intros Hb; destruct (H2 Hb); split; [done|lia]|lia|done|lia..|done].
Qed.

Lemma replayed_call r recs processed s s1 s' cs :
  admissible r = true -> processed < max_records opts -> 0 <= tr_count r ->
  trace_present s1 = trace_present s -> records_total s1 = records_total s ->
  records_replayed s <= records_replayed s1 <= records_replayed s + 1 ->
  records_replayed s1 + records_skipped s1 = records_replayed s + records_skipped s + 1 ->
  bytes_requested s1 = bytes_requested s + tr_count r ->
  bytes_warmed s <= bytes_warmed s1 <= bytes_warmed s + tr_count r ->
  replayed recs (processed + 1) s1 s' cs -> replayed (r :: recs) processed s s' (call_of r :: cs).
Proof.
  intros Ha Hp Hc E1 E2 E3 E4 E5 E6 [H1 H2 H3 H4 H5 H6 H7 H8].
  pose proof (zlen_nonneg cs).
  split; rewrite ?filter_admissible, ?Ha; rewrite ?zlen_cons, ?requested_cons, ?fmap_cons;
    cbn [call_of snd]; try lia.
  - by apply prefix_cons.
  - intros Hb. destruct (H2 Hb) as [-> ?]. split; [done|lia].
  - destruct H8. split; congruence.
Qed.

(** The loop's promise for one record, once the rest of the records keeps it. *)
Definition runs (recs : list TraceRecord) (processed : Z) (s : TraceReplayStats) (w : ReplayWorld)
    (r : TraceReplayStats * ReplayWorld) : Prop :=
  exists cs, rw_calls r.2 = rw_calls w ++ cs /\ replayed recs processed s r.1 cs.

Section Record.
Context (r : TraceRecord) (recs : list TraceRecord) (processed : Z) (s : TraceReplayStats) (w : ReplayWorld).
Context (Hr : rec_ok r) (Hmax : max_bytes opts < 2 ^ 64) (Hs : stats_ok s).
Context (IH : forall processed s w, stats_ok s -> runs recs processed s w (trace_loop recs processed s w)).

Lemma record_stop w0 : rw_calls w0 = rw_calls w -> runs (r :: recs) processed s w (exhaust s, w0).
Proof. intros E. exists []. rewrite app_nil_r. split; [done|]. by apply replayed_stop. Qed.

Lemma record_skip w0 :
  rw_calls w0 = rw_calls w -> admissible r = false ->
  runs (r :: recs) processed s w (trace_loop recs (processed + 1) (skip s) w0).
Proof.
  intros E Ha. destruct (IH (processed + 1) (skip s) w0 Hs) as (cs & E1 & E2).
  exists cs. rewrite E1, E. split; [done|]. by apply replayed_skip.
Qed.

Lemma record_call w0 s1 :
  admissible r = true -> processed < max_records opts -> bytes_requested s + tr_count r <= max_bytes opts ->
  s1 = skip (charge s (tr_count r)) \/ s1 = warm (charge s (tr_count r)) (tr_count r) ->
  rw_calls w0 = rw_calls w ++ [call_of r] ->
  runs (r :: recs) processed s w (trace_loop recs (processed + 1) s1 w0).
Proof.
  intros Ha Hp Hb Hs1 E. destruct Hr as (_ & _ & Hc & _). destruct Hs as (S1 & S2 & S3).
  assert (bytes_requested s1 = bytes_requested s + tr_count r /\
    bytes_warmed s <= bytes_warmed s1 <= bytes_warmed s + tr_count r) as [B1 B2].
  { destruct Hs1 as [-> | ->]; cbn; rewrite ?u64_small; lia. }
  destruct (IH (processed + 1) s1 w0) as (cs & E1 & E2); [split_and!; try lia; by destruct Hs1 as [-> | ->]|].
  exists (call_of r :: cs). rewrite E1, E, <- app_assoc. split; [done|].
  apply (replayed_call _ _ _ _ s1); try done; try lia; destruct Hs1 as [-> | ->]; cbn; lia || done.
Qed.
End Record.

Lemma trace_loop_ok recs processed s w :
  Forall rec_ok recs -> max_bytes opts < 2 ^ 64 -> stats_ok s -> runs recs processed s w (trace_loop recs processed s w).
Proof.
  intros Hrecs Hmax. revert processed s w. induction Hrecs as [|r recs Hr Hrecs IH]; intros processed s w Hs.
  { exists []. rewrite app_nil_r. split; [done|]. by apply replayed_done. }
  cbn [trace_loop]. unfold expired, populate_fails. cbv zeta iota beta.
  case_if; [by apply record_stop|]. bool_hyps. case_if; [by apply record_stop|].
  case_if; [bool_hyps; apply record_skip; auto using admissible_false|]. bool_hyps.
  case_if; [bool_hyps; apply record_skip; auto using admissible_false|].
  destruct ((_ || _) || _) eqn:Hbad; [apply record_skip; auto using admissible_false|].
  assert (admissible r = true) as Ha.
  { unfold admissible. rewrite Hbad. bool_hyps. rewrite (proj2 (Z.eqb_eq _ _)) by done. by rewrite andb_true_r. }
  case_if; [by apply record_stop|]. bool_hyps. case_if; apply record_call; auto; lia.
Qed.

End Replay.

Lemma load_record_ok recs p :
  Forall is_byte recs -> 0 <= p -> p + kRecordSize <= zlen recs -> rec_ok (load_record recs p).
Proof.
  unfold kRecordSize. intros H Hp Hl. unfold rec_ok, load_record, i64. cbn.
  pose proof (load_u64_bound recs (p + 16) H ltac:(lia) ltac:(lia)).
  split; [by apply Forall_byte_bget|]. split; [apply load_u32_bound; [done|lia..]|].
  split; [apply load_u64_bound; [done|lia..]|]. case_if; bool_hyps; lia.
Qed.

Lemma parse_records_ok hw mask blob recs : Forall is_byte blob -> parse hw mask blob = inr recs -> Forall rec_ok recs.
Proof.
  unfold parse, kHeaderSize. intros Hb. repeat (case_if; [done|]). intros [= <-]. bool_hyps.
  apply Forall_fmap, Forall_forall. intros i Hi%elem_of_seqZ. cbn.
  assert (zlen (zdrop 24 blob) = zlen blob - 24) by len.
  unfold kRecordSize in *. apply load_record_ok; unfold kRecordSize; [by apply Forall_drop|lia|].
  Z.to_euclidean_division_equations. lia.
Qed.

(** Replaying any blob, well formed or hostile, keeps within its budgets:
    the populate calls are a prefix of the trace's admissible records in
    recorded order (all of them, every record accounted for, unless a budget
    ran out); there are at most [max_records] of them, for at most [max_bytes]
    bytes in total, and the statistics say what was done. *)
Theorem replay_bounded targets opts hw mask blob w :
  Forall is_byte blob -> 0 <= max_bytes opts < 2 ^ 64 -> 0 <= max_records opts ->
  exists cs, rw_calls (replay_trace targets opts hw mask blob w).2 = rw_calls w ++ cs /\
  let s := (replay_trace targets opts hw mask blob w).1 in
  zlen cs <= max_records opts /\ requested cs = bytes_requested s /\ bytes_requested s <= max_bytes opts /\
  0 <= bytes_warmed s <= bytes_requested s /\ 0 <= records_replayed s <= zlen cs /\
  match parse hw mask blob with
  | inl _ => s = stats0 /\ cs = []
  | inr recs =>
      let admitted := call_of <$> filter (admissible targets opts) recs in
      cs `prefix_of` admitted /\ records_total s = zlen recs /\
      records_replayed s + records_skipped s <= zlen recs /\
      (budget_exhausted s = false -> cs = admitted /\ records_replayed s + records_skipped s = zlen recs)
  end.
Proof.
  intros Hb Hmax Hrec. unfold replay_trace. destruct (parse hw mask blob) as [e|recs] eqn:Hp.
  { exists []. rewrite app_nil_r. cbn [fst snd stats0 bytes_requested bytes_warmed records_replayed].
    unfold requested. cbn [fmap list_fmap foldr]. rewrite zlen_nil. split_and!; lia || done. }
  destruct (trace_loop_ok targets opts recs 0 (TRS true (zlen recs) 0 0 0 0 false) w) as (cs & E & H).
  { by eapply parse_records_ok. } { lia. } { unfold stats_ok. cbn [bytes_warmed bytes_requested budget_exhausted]. split_and!; lia || done. }
  exists cs. split; [done|]. destruct H as [H1 H2 H3 H4 H5 H6 H7 [H8 H9]]. cbn [bytes_requested bytes_warmed
    records_replayed records_skipped records_total trace_present] in *.
  split_and!; try lia; done.
Qed.

(** A trace of three records, the second one too large, replayed with the third
    populate call beyond the byte budget. *)
Lemma replay_bounded_witness :
  let ops := [TAppend (TR 82 0 4096 0); TAppend (TR 82 1 8192 0); TAppend (TR 82 0 512 4096); TAppend (TR 82 0 512 512)] in
  let blob := (finalize (session false (fun _ => 0) ops writer_start)).1 in
  let opts := TRO 100 4608 4096 in
  (replay_trace [true; true] opts false (fun _ => 0) blob (RW [] [true] [])).1 = TRS true 4 1 2 4608 512 true /\
  exists cs, rw_calls (replay_trace [true; true] opts false (fun _ => 0) blob (RW [] [true] [])).2 = [] ++ cs /\
  let s := (replay_trace [true; true] opts false (fun _ => 0) blob (RW [] [true] [])).1 in
  zlen cs <= max_records opts /\ requested cs = bytes_requested s /\ bytes_requested s <= max_bytes opts /\
  0 <= bytes_warmed s <= bytes_requested s /\ 0 <= records_replayed s <= zlen cs /\
  match parse false (fun _ => 0) blob with
  | inl _ => s = stats0 /\ cs = []
  | inr recs =>
      let admitted := call_of <$> filter (admissible [true; true] opts) recs in
      cs `prefix_of` admitted /\ records_total s = zlen recs /\
      records_replayed s + records_skipped s <= zlen recs /\
      (budget_exhausted s = false -> cs = admitted /\ records_replayed s + records_skipped s = zlen recs)
  end.
Proof.
  split; [vm_compute; reflexivity|].
  apply (replay_bounded [true; true] (TRO 100 4608 4096) false (fun _ => 0) _ (RW [] [true] [])); [|cbn; lia..].
  unfold is_byte. apply (bool_decide_unpack _). vm_compute. exact I.
Defined.
