(* ===== verification/TurboPackage.v ===== *)
(** * TurboOCI packages (tools/turbo_package.cpp)

    A package is a gzip-compressed tar of up to three members: the metadata
    layer, an empty marker and the optional gzip index.  [write_turbo_package]
    builds it in a temporary file it renames into place; [import_turbo_package]
    unpacks one into a private directory it renames into place, accepting
    nothing but these members and no more data than its budget.

    A compressed file is the stream of bytes it inflates to and how the stream
    ends; local calls take their outcomes from a script.  The theorems show that
    importing a written package gives back both files, and that an import of any
    stream either publishes the members of a package within the budget or leaves
    the destination as it was. *)
From Stdlib Require Import String.
From S2P Require Import Prelude Bytes Source File Tar.

Definition kChunk : Z := 65536.

(** [(512 - size % 512) % 512] *)
Definition padding (size : Z) : Z := (512 - size mod 512) mod 512.

Definition kMetadata : bytes := text "ext4.fs.meta".
Definition kMarker : bytes := text ".turbo.ociv1".
Definition kIndex : bytes := text "gzip.meta".

(** ** The writer *)

(** An input: what [fstat] said and what the descriptor delivers. *)
Record InputFile := Input { in_size : Z; in_data : bytes }.

Record PackageWorld := PkgW {
  pw_script : script;
  pw_stream : bytes;          (* the temporary, as the bytes given to deflate *)
  pw_output : option bytes;   (* the file at the output path *)
}.

(** A system call that succeeds or fails as the script says. *)
Definition pkg_call : io PackageWorld unit := fun w =>
  match next_outcome (pw_script w) with
  | (Done, s) => (Ok tt, PkgW s (pw_stream w) (pw_output w))
  | (Failed _ e, s) => (Err (Errno e), PkgW s (pw_stream w) (pw_output w))
  end.

(** [GzipWriter::write] *)
Definition gz_write (bs : bytes) : io PackageWorld unit :=
  pkg_call ;; io_run (fun w => (Ok tt, PkgW (pw_script w) (pw_stream w ++ bs) (pw_output w))).

Definition package_header (name : bytes) (size : Z) : io PackageWorld unit :=
  h ← io_lift (header name size); gz_write h.

(** [while(left)]: one buffer at a time; what is left to read is returned. *)
Fixpoint copy_input (fuel : nat) (remaining : Z) (data : bytes) : io PackageWorld bytes :=
  match fuel with
  | O => io_fail Fuel
  | S fuel =>
      if remaining =? 0 then mret data
      else
        let count := Z.min remaining kChunk in
        pkg_call ;;
        if negb (zlen (ztake count data) =? count) then io_fail (Errno EIO)
        else gz_write (ztake count data) ;; copy_input fuel (remaining - count) (zdrop count data)
  end.

Definition write_member (f : InputFile) (name : bytes) : io PackageWorld unit :=
  pkg_call ;;
  package_header name (in_size f) ;;
  rest ← copy_input (S (Z.to_nat (in_size f))) (in_size f) (in_data f);
  if negb (zlen rest =? 0) then io_fail (Errno EIO)
  else if padding (in_size f) =? 0 then mret tt
  else gz_write (zeros (padding (in_size f))).

Definition write_turbo_package (metadata : InputFile) (index : option InputFile) : io PackageWorld unit :=
  pkg_call ;;
  match index with Some _ => pkg_call | None => mret tt end ;;
  pkg_call ;;
  io_run (fun w => (Ok tt, PkgW (pw_script w) [] (pw_output w))) ;;
  write_member metadata kMetadata ;;
  package_header kMarker 0 ;;
  match index with Some f => write_member f kIndex | None => mret tt end ;;
  gz_write (zeros 1024) ;; gz_write [] ;;
  pkg_call ;; pkg_call ;; pkg_call ;;
  io_run (fun w => (Ok tt, PkgW (pw_script w) (pw_stream w) (Some (pw_stream w)))).

(** ** The importer *)

Record ImportWorld := IW {
  iw_script : script;
  iw_stream : bytes;              (* what the package still inflates to *)
  iw_end : res unit;              (* how the stream ends *)
  iw_ended : bool;
  iw_temp : list (bytes * bytes); (* the private directory *)
  iw_dest : option (list (bytes * bytes));
}.

Definition imp_call : io ImportWorld unit := fun w =>
  match next_outcome (iw_script w) with
  | (Done, s) => (Ok tt, IW s (iw_stream w) (iw_end w) (iw_ended w) (iw_temp w) (iw_dest w))
  | (Failed _ e, s) => (Err (Errno e), IW s (iw_stream w) (iw_end w) (iw_ended w) (iw_temp w) (iw_dest w))
  end.

(** [GzipReader::read]: inflates until the buffer is full or the stream ends. *)
Definition gz_read (count : Z) : io ImportWorld bytes := fun w =>
  if iw_ended w then (Ok [], w)
  else if count <=? zlen (iw_stream w)
  then (Ok (ztake count (iw_stream w)),
        IW (iw_script w) (zdrop count (iw_stream w)) (iw_end w) false (iw_temp w) (iw_dest w))
  else match iw_end w with
       | Ok _ => (Ok (iw_stream w), IW (iw_script w) [] (iw_end w) true (iw_temp w) (iw_dest w))
       | Err f => (Err f, w)
       end.

(** [GzipReader::exact] *)
Definition gz_exact (count : Z) : io ImportWorld bytes :=
  bs ← gz_read count;
  if negb (zlen bs =? count) then io_lift format_error else mret bs.

(** The zero padding behind the terminators, to the end of the stream. *)
Fixpoint drain (fuel : nat) (padding : Z) : io ImportWorld unit :=
  match fuel with
  | O => io_fail Fuel
  | S fuel =>
      bs ← gz_read kChunk;
      if zlen bs =? 0 then mret tt
      else
        let padding := padding + zlen bs in
        if (1024 * 1024 <? padding) || negb (all_zero bs) then io_lift format_error
        else drain fuel padding
  end.

(** The member's bytes, one buffer at a time. *)
Fixpoint copy_member (fuel : nat) (remaining : Z) : io ImportWorld bytes :=
  match fuel with
  | O => io_fail Fuel
  | S fuel =>
      if remaining =? 0 then mret []
      else
        let n := Z.min remaining kChunk in
        bs ← gz_exact n;
        imp_call ;;
        rest ← copy_member fuel (remaining - n);
        mret (bs ++ rest)
  end.

Record Seen := MkSeen { seen_metadata : bool; seen_marker : bool; seen_index : bool }.

(** The flag of the member, and the flags with it set. *)
Definition seen_member (s : Seen) (name : bytes) : option (bool * Seen) :=
  if bool_decide (name = kMetadata) then Some (seen_metadata s, MkSeen true (seen_marker s) (seen_index s))
  else if bool_decide (name = kMarker) then Some (seen_marker s, MkSeen (seen_metadata s) true (seen_index s))
  else if bool_decide (name = kIndex) then Some (seen_index s, MkSeen (seen_metadata s) (seen_marker s) true)
  else None.

Definition iw_store (name data : bytes) : io ImportWorld unit := io_run (fun w =>
  (Ok tt, IW (iw_script w) (iw_stream w) (iw_end w) (iw_ended w) (iw_temp w ++ [(name, data)]) (iw_dest w))).

(** One member behind its header block. *)
Definition import_member (h : bytes) (s : Seen) (budget : Z) : io ImportWorld (Seen * Z) :=
  name ← io_lift (member_name h);
  size ← io_lift (member_octal h kSizeField 12);
  match seen_member s name with
  | None => io_lift format_error
  | Some (seen, s) =>
      if seen : bool then io_lift format_error
      else if bool_decide (name = kMarker) && negb (size =? 0) then io_lift format_error
      else if budget <? size then io_lift format_error
      else
        let budget := budget - size in
        let is_file := negb (bool_decide (name = kMarker)) in
        (if is_file then imp_call else mret tt) ;;
        data ← copy_member (S (Z.to_nat size)) size;
        (if padding size =? 0 then mret tt
         else pad ← gz_exact (padding size);
              if negb (all_zero pad) then io_lift format_error else mret tt) ;;
        (if is_file then imp_call ;; imp_call ;; iw_store name data else mret tt) ;;
        mret (s, budget)
  end.

Fixpoint import_loop (fuel : nat) (s : Seen) (budget : Z) : io ImportWorld Seen :=
  match fuel with
  | O => io_fail Fuel
  | S fuel =>
      h ← gz_exact kBlock;
      if all_zero h then
        h ← gz_exact kBlock;
        if negb (all_zero h) then io_lift format_error
        else n ← io_run (fun w => (Ok (length (iw_stream w)), w)); drain (S (S n)) 0 ;; mret s
      else
        r ← import_member h s budget;
        let '(s, budget) := r in import_loop fuel s budget
  end.

Definition import_body (budget : Z) : io ImportWorld bool :=
  imp_call ;; imp_call ;;
  n ← io_run (fun w => (Ok (length (iw_stream w)), w));
  s ← import_loop (S n) (MkSeen false false false) budget;
  if negb (seen_metadata s) || negb (seen_marker s) then io_lift format_error
  else
    imp_call ;;
    io_run (fun w => match iw_dest w with
      | Some _ => (Err (Errno EEXIST), w)
      | None => (Ok tt, IW (iw_script w) (iw_stream w) (iw_end w) (iw_ended w) [] (Some (iw_temp w)))
      end) ;;
    mret (seen_index s).

(** [import_turbo_package]: whether the package had an index.  The private
    directory goes away with every exception. *)
Definition import_turbo_package (budget : Z) : io ImportWorld bool := fun w =>
  if budget =? 0 then (Err (Errno EINVAL), w)
  else match iw_dest w with
  | Some _ => (Err (Errno EEXIST), w)
  | None =>
      match import_body budget w with
      | (Ok b, w') => (Ok b, w')
      | (Err f, w') => (Err f, IW (iw_script w') (iw_stream w') (iw_end w') (iw_ended w') [] (iw_dest w'))
      end
  end.

(** ** What the writer produces *)

Definition member_header (name : bytes) (size : Z) : bytes :=
  match header name size with Ok h => h | Err _ => [] end.
Definition member_image (name data : bytes) : bytes :=
  member_header name (zlen data) ++ data ++ zeros (padding (zlen data)).
Definition package (metadata : bytes) (index : option bytes) : bytes :=
  member_image kMetadata metadata ++ member_header kMarker 0 ++
  match index with Some i => member_image kIndex i | None => [] end ++ zeros 1024.

(** A file that fits a member, unchanged while it is read. *)
Definition input_of (data : bytes) : InputFile := Input (zlen data) data.
Definition fits (data : bytes) : Prop := zlen data < 8 ^ 11.

Lemma member_header_ok name size :
  zlen name < 100 -> Forall is_byte name -> 0 <= size < 8 ^ 11 ->
  header name size = Ok (member_header name size) /\ well_formed name size (member_header name size).
Proof.
  intros H1 H2 H3. destruct (header_well_formed name size H1 H2 H3) as (h & E & Hf).
  unfold member_header. by rewrite E.
Qed.

#[local] Opaque member_header zeros.

Section Writing.
Context (o : option bytes).
Let kept (w : PackageWorld) : Prop := pw_output w = o.
Let wrote (w : PackageWorld) (bs : bytes) (w' : PackageWorld) : Prop :=
  pw_stream w' = pw_stream w ++ bs /\ pw_output w' = o.

Lemma pkg_call_ok w : kept w -> attempt pw_script pkg_call w (fun _ w' => wrote w [] w') kept.
Proof.
  intros Hk. unfold attempt, pkg_call. pose proof (next_outcome_spec (pw_script w)) as H.
  destruct (next_outcome (pw_script w)) as [[|n e] s]; destruct H as [H1 H2]; cbn; split; try done.
  - split; [by rewrite app_nil_r|done].
  - by eapply H2.
Qed.

Lemma gz_write_ok w bs : kept w -> attempt pw_script (gz_write bs) w (fun _ w' => wrote w bs w') kept.
Proof.
  intros Hk. unfold gz_write. eapply attempt_bind; [by apply pkg_call_ok|]. intros _ w1 [E1 E2].
  eapply attempt_run; [done|done|]. rewrite app_nil_r in E1. split; cbn; [by rewrite E1|done].
Qed.

Lemma package_header_ok w name size :
  kept w -> zlen name < 100 -> Forall is_byte name -> 0 <= size < 8 ^ 11 ->
  attempt pw_script (package_header name size) w (fun _ w' => wrote w (member_header name size) w') kept.
Proof.
  intros Hk H1 H2 H3. eapply attempt_lift_bind; [by apply member_header_ok|]. by apply gz_write_ok.
Qed.

Lemma copy_input_ok fuel data w :
  kept w -> (length data < fuel)%nat ->
  attempt pw_script (copy_input fuel (zlen data) data) w (fun rest w' => rest = [] /\ wrote w data w') kept.
Proof.
  revert data w. induction fuel as [|fuel IH]; intros data w Hk Hf; [lia|]. cbn [copy_input].
  case_if; bool_hyps.
  { apply attempt_ret. destruct data; [|by autorewrite with zlen in *; pose proof (zlen_nonneg data); lia].
    split; [done|]. split; [by rewrite app_nil_r|done]. }
  pose proof (zlen_nonneg data). set (count := Z.min (zlen data) kChunk).
  assert (0 < count <= zlen data) as Hc by (unfold count, kChunk in *; lia).
  eapply attempt_bind; [by apply pkg_call_ok|]. intros _ w1 [E1 E2]. rewrite app_nil_r in E1.
  assert (zlen (ztake count data) = count) as -> by len. rewrite Z.eqb_refl. cbn [negb].
  eapply attempt_bind; [by apply gz_write_ok|]. intros _ w2 [E3 E4].
  replace (zlen data - count) with (zlen (zdrop count data)) by len.
  eapply attempt_mono; [apply IH; [done|]| |done].
  - assert (zlen (zdrop count data) = zlen data - count) by len. unfold zlen in *. lia.
  - intros rest w3 (-> & E5 & E6). split; [done|]. split; [|done].
    rewrite E5, E3, E1, <- app_assoc. f_equal. unfold ztake, zdrop. by rewrite take_drop.
Qed.

Lemma write_member_ok w name data :
  kept w -> zlen name < 100 -> Forall is_byte name -> fits data ->
  attempt pw_script (write_member (input_of data) name) w (fun _ w' => wrote w (member_image name data) w') kept.
Proof.
  intros Hk H1 H2 H3. unfold write_member, input_of. cbn [in_size in_data]. pose proof (zlen_nonneg data).
  eapply attempt_bind; [by apply pkg_call_ok|]. intros _ w1 [E1 E2]. rewrite app_nil_r in E1.
  eapply attempt_bind; [apply package_header_ok; try done; unfold fits in *; lia|]. intros _ w2 [E3 E4].
  eapply attempt_bind; [apply copy_input_ok; [done|unfold zlen; lia]|]. intros rest w3 (-> & E5 & E6).
  change (zlen (@nil Z) =? 0) with true. cbn [negb]. unfold member_image.
  assert (0 <= padding (zlen data)) by (apply Z.mod_pos_bound; lia).
  case_if; bool_hyps.
  - apply attempt_ret. split; [|done]. rewrite E5, E3, E1, E. by rewrite app_nil_r, app_assoc.
  - eapply attempt_mono; [by apply gz_write_ok| |done]. intros _ w4 [E7 E8]. split; [|done].
    by rewrite E7, E5, E3, E1, <- !app_assoc.
Qed.
End Writing.

Lemma member_names :
  Forall (fun n => zlen n < 100 /\ Forall is_byte n /\ Forall (fun c => c <> 0) n) [kMetadata; kMarker; kIndex].
Proof.
  unfold is_byte. repeat (apply List.Forall_cons; [split; [done|]; split; apply (bool_decide_unpack _); vm_compute; exact I|]).
  apply List.Forall_nil.
Qed.

(** The output path holds the whole package or what it held before. *)
Lemma write_turbo_package_ok metadata index w :
  fits metadata -> (forall i, index = Some i -> fits i) ->
  attempt pw_script (write_turbo_package (input_of metadata) (input_of <$> index)) w
    (fun _ w' => pw_output w' = Some (package metadata index)) (fun w' => pw_output w' = pw_output w).
Proof.
  intros Hm Hi. pose proof member_names as Hn. rewrite !Forall_cons in Hn. destruct Hn as ((N1 & N2 & _) & (N3 & N4 & _) & (N5 & N6 & _) & _).
  unfold write_turbo_package.
  eapply attempt_bind; [by apply pkg_call_ok|]. intros _ w1 [_ E1].
  apply (attempt_bind _ _ _ _ (fun _ w' => pw_output w' = pw_output w)).
  { destruct index; [|by apply attempt_ret]. eapply attempt_mono; [by apply pkg_call_ok| |done]. by intros _ w' []. }
  intros _ w2 E2. eapply attempt_bind; [by apply pkg_call_ok|]. intros _ w3 [_ E3].
  apply (attempt_bind _ _ _ _ (fun _ w' => pw_stream w' = [] /\ pw_output w' = pw_output w)); [by eapply attempt_run|].
  intros _ w4 [S4 E4]. eapply attempt_bind; [by apply write_member_ok|]. intros _ w5 [S5 E5].
  eapply attempt_bind; [by apply package_header_ok; [..|lia]|]. intros _ w6 [S6 E6].
  apply (attempt_bind _ _ _ _ (fun _ w' => pw_stream w' = pw_stream w6 ++ match index with Some i => member_image kIndex i | None => [] end /\ pw_output w' = pw_output w)).
  { destruct index as [i|]; [by apply write_member_ok; auto|]. apply attempt_ret. by rewrite app_nil_r. }
  intros _ w7 [S7 E7]. eapply attempt_bind; [by apply gz_write_ok|]. intros _ w8 [S8 E8].
  eapply attempt_bind; [by apply gz_write_ok|]. intros _ w9 [S9 E9].
  do 3 (eapply attempt_bind; [by apply pkg_call_ok|]; intros _ ? [? ?]).
  eapply attempt_run; [done|done|]. cbn [pw_output]. f_equal. unfold package.
  rewrite H3, H1, H, S9, S8, S7, S6, S5, S4, !app_nil_r, <- !app_assoc. reflexivity.
Qed.

(** ** The importer on a written package *)

Section Importing.
(** A package that inflates to [rest] from here on, read into [temp]. *)
Let ready (rest : bytes) (temp : list (bytes * bytes)) (w : ImportWorld) : Prop :=
  iw_stream w = rest /\ iw_end w = Ok tt /\ iw_ended w = false /\ iw_temp w = temp /\ iw_dest w = None.
Let absent (w : ImportWorld) : Prop := iw_dest w = None.

Lemma imp_call_ok w rest temp : ready rest temp w -> attempt iw_script imp_call w (fun _ w' => ready rest temp w') absent.
Proof.
  intros (H1 & H2 & H3 & H4 & H5). unfold attempt, imp_call. pose proof (next_outcome_spec (iw_script w)) as H.
  destruct (next_outcome (iw_script w)) as [[|n e] s]; destruct H as [Ha Hb]; cbn; split; try done. by eapply Hb.
Qed.

Lemma gz_exact_ok w a rest temp n :
  ready (a ++ rest) temp w -> zlen a = n ->
  attempt iw_script (gz_exact n) w (fun bs w' => bs = a /\ ready rest temp w') absent.
Proof.
  intros (H1 & H2 & H3 & H4 & H5) <-. unfold gz_exact, gz_read, attempt, mbind, io_bind. rewrite H3, H1.
  pose proof (zlen_nonneg rest). rewrite (proj2 (Z.leb_le _ _)) by (rewrite zlen_app; lia).
  rewrite ztake_app_exact, zdrop_app_exact by done. rewrite Z.eqb_refl. cbn. by split_and!.
Qed.

Lemma copy_member_ok fuel w data rest temp :
  ready (data ++ rest) temp w -> (length data < fuel)%nat ->
  attempt iw_script (copy_member fuel (zlen data)) w (fun bs w' => bs = data /\ ready rest temp w') absent.
Proof.
  revert data w. induction fuel as [|fuel IH]; intros data w Hr Hf; [lia|]. cbn [copy_member].
  case_if; bool_hyps.
  { apply attempt_ret. destruct data; [done|]. autorewrite with zlen in *. pose proof (zlen_nonneg data). lia. }
  pose proof (zlen_nonneg data). set (n := Z.min (zlen data) kChunk).
  assert (0 < n <= zlen data) as Hn by (unfold n, kChunk in *; lia).
  assert (data = ztake n data ++ zdrop n data) as Ed by (unfold ztake, zdrop; by rewrite take_drop).
  rewrite Ed, <- app_assoc in Hr.
  eapply attempt_bind; [eapply gz_exact_ok; [exact Hr|len]|]. cbv beta. intros bs w1 [-> Hr1].
  eapply attempt_bind; [by apply imp_call_ok|]. cbv beta. intros _ w2 Hr2.
  replace (zlen data - n) with (zlen (zdrop n data)) by len.
  eapply attempt_bind; [apply IH; [exact Hr2|]|].
  - assert (zlen (zdrop n data) = zlen data - n) by len. unfold zlen in *. lia.
  - cbv beta. intros bs w3 [-> Hr3]. apply attempt_ret. by rewrite <- Ed.
Qed.

(** One file member: its header read, the body, the padding and the store. *)
Lemma import_member_ok w name data rest temp s s' budget :
  ready (data ++ zeros (padding (zlen data)) ++ rest) temp w ->
  zlen name < 100 -> Forall is_byte name -> Forall (fun c => c <> 0) name -> fits data ->
  seen_member s name = Some (false, s') -> zlen data <= budget -> (name = kMarker -> data = []) ->
  attempt iw_script (import_member (member_header name (zlen data)) s budget) w
    (fun r w' => r = (s', budget - zlen data) /\
      ready rest (if bool_decide (name = kMarker) then temp else temp ++ [(name, data)]) w') absent.
Proof.
  intros Hr H1 H2 H3 H4 Hs Hb Hmk. pose proof (zlen_nonneg data).
  destruct (member_header_ok name (zlen data) H1 H2 ltac:(unfold fits in *; lia)) as [_ Hf].
  unfold import_member. eapply attempt_lift_bind; [by apply (wf_member_name _ _ _ Hf)|].
  eapply attempt_lift_bind; [by apply (wf_member_size _ _ _ Hf)|]. rewrite Hs.
  assert (bool_decide (name = kMarker) && negb (zlen data =? 0) = false) as ->.
  { case_bool_decide as Hm; [|done]. by rewrite (Hmk Hm). }
  rewrite (proj2 (Z.ltb_ge _ _)) by lia.
  apply (attempt_bind _ _ _ _ (fun _ w' => ready (data ++ zeros (padding (zlen data)) ++ rest) temp w')).
  { case_if; [by apply imp_call_ok|by apply attempt_ret]. }
  intros _ w1 Hr1. eapply attempt_bind; [eapply copy_member_ok; [exact Hr1|unfold zlen; lia]|].
  cbv beta. intros bs w2 [-> Hr2].
  assert (0 <= padding (zlen data)) by (apply Z.mod_pos_bound; lia).
  apply (attempt_bind _ _ _ _ (fun _ w' => ready rest temp w')).
  { case_if; bool_hyps; [apply attempt_ret; by rewrite E in Hr2|].
    eapply attempt_bind; [eapply gz_exact_ok; [exact Hr2|len]|]. cbv beta. intros pad w3 [-> Hr3].
    rewrite all_zero_zeros. by apply attempt_ret. }
  intros _ w3 Hr3.
  apply (attempt_bind _ _ _ _ (fun _ w' => ready rest (if bool_decide (name = kMarker) then temp else temp ++ [(name, data)]) w')).
  { case_bool_decide; cbn [negb]; [by apply attempt_ret|].
    eapply attempt_bind; [by apply imp_call_ok|]. cbv beta. intros _ w4 Hr4.
    eapply attempt_bind; [by apply imp_call_ok|]. cbv beta. intros _ w5 (R1 & R2 & R3 & R4 & R5).
    eapply attempt_run; [done|done|]. split_and!; cbn; try done. by rewrite R4. }
  intros _ w4 Hr4. by apply attempt_ret.
Qed.

Lemma member_header_nonzero name size :
  zlen name < 100 -> Forall is_byte name -> 0 <= size < 8 ^ 11 -> all_zero (member_header name size) = false.
Proof.
  intros H1 H2 H3. destruct (member_header_ok name size H1 H2 H3) as [_ Hf].
  destruct (all_zero (member_header name size)) eqn:E; [|done]. unfold all_zero in E.
  pose proof (wf_typeflag _ _ _ Hf) as Ht. pose proof (wf_length _ _ _ Hf) as Hl.
  apply forallb_forall with (x := bget (member_header name size) kTypeflagField) in E; [by rewrite Ht in E|].
  unfold bget. apply nth_In. unfold zlen, kBlock, kTypeflagField in *. lia.
Qed.

Lemma import_step fuel w name data rest temp s s' budget Q :
  ready (member_image name data ++ rest) temp w ->
  zlen name < 100 -> Forall is_byte name -> Forall (fun c => c <> 0) name -> fits data ->
  seen_member s name = Some (false, s') -> zlen data <= budget -> (name = kMarker -> data = []) ->
  (forall w', ready rest (if bool_decide (name = kMarker) then temp else temp ++ [(name, data)]) w' ->
    attempt iw_script (import_loop fuel s' (budget - zlen data)) w' Q absent) ->
  attempt iw_script (import_loop (S fuel) s budget) w Q absent.
Proof.
  intros Hr H1 H2 H3 H4 Hs Hb Hmk Hk. pose proof (zlen_nonneg data). assert (0 <= zlen data < 8 ^ 11) as Hz by (unfold fits in *; lia).
  destruct (member_header_ok name (zlen data) H1 H2 Hz) as [_ Hf]. cbn [import_loop].
  unfold member_image in Hr. rewrite <- !app_assoc in Hr.
  eapply attempt_bind; [eapply gz_exact_ok; [exact Hr|apply (wf_length _ _ _ Hf)]|]. cbv beta. intros h w1 [-> Hr1].
  rewrite member_header_nonzero by done.
  eapply attempt_bind; [by eapply import_member_ok|]. cbv beta. intros r w2 [-> Hr2]. by apply Hk.
Qed.

#[local] Transparent zeros.
Lemma import_last fuel w temp s budget :
  ready (zeros 1024) temp w ->
  attempt iw_script (import_loop (S fuel) s budget) w (fun r w' => r = s /\ iw_temp w' = temp /\ iw_dest w' = None) absent.
Proof.
  intros Hr. cbn [import_loop]. change (zeros 1024) with (zeros 512 ++ (zeros 512 ++ [])) in Hr.
  eapply attempt_bind; [eapply gz_exact_ok; [exact Hr|done]|]. cbv beta. intros h w1 [-> Hr1]. rewrite all_zero_zeros.
  eapply attempt_bind; [eapply gz_exact_ok; [exact Hr1|done]|]. cbv beta. intros h w2 [-> Hr2]. rewrite all_zero_zeros. cbn [negb].
  destruct Hr2 as (R1 & R2 & R3 & R4 & R5).
  unfold attempt, io_run, mbind, io_bind. cbn [drain]. unfold gz_read, mbind, io_bind. rewrite R3, R1, R2.
  change (kChunk <=? zlen (@nil Z)) with false. cbv iota. change (zlen (@nil Z) =? 0) with true. by split_and!.
Qed.
#[local] Opaque zeros.
End Importing.

(** A package file about to be imported to a place where nothing is. *)
Definition packaged (p : bytes) (w : ImportWorld) : Prop :=
  iw_stream w = p /\ iw_end w = Ok tt /\ iw_ended w = false /\ iw_temp w = [] /\ iw_dest w = None.

(** The files of a package. *)
Definition members (metadata : bytes) (index : option bytes) : list (bytes * bytes) :=
  (kMetadata, metadata) :: match index with Some i => [(kIndex, i)] | None => [] end.

Definition members_size (fs : list (bytes * bytes)) : Z := foldr (fun f n => zlen f.2 + n) 0 fs.

Lemma package_length metadata index : exists k, length (package metadata index) = S (S (S k)).
Proof.
  assert (1024 <= zlen (package metadata index)) as H.
  { unfold package. rewrite !zlen_app. change (zlen (zeros 1024)) with 1024.
    pose proof (zlen_nonneg (member_image kMetadata metadata)). pose proof (zlen_nonneg (member_header kMarker 0)).
    pose proof (zlen_nonneg match index with Some i => member_image kIndex i | None => [] end). lia. }
  exists (length (package metadata index) - 3)%nat. unfold zlen in H. lia.
Qed.

Lemma import_package_loop fuel metadata index w budget :
  fits metadata -> (forall i, index = Some i -> fits i) -> members_size (members metadata index) <= budget ->
  packaged (package metadata index) w ->
  attempt iw_script (import_loop (S (S (S (S fuel)))) (MkSeen false false false) budget) w
    (fun s w' => s = MkSeen true true (bool_decide (is_Some index)) /\ iw_temp w' = members metadata index /\ iw_dest w' = None)
    (fun w' => iw_dest w' = None).
Proof.
  intros Hm Hi Hb Hp. pose proof member_names as Hn. rewrite !Forall_cons in Hn.
  destruct Hn as ((N1 & N2 & N3) & (N4 & N5 & N6) & (N7 & N8 & N9) & _).
  unfold members_size, members in Hb. pose proof (zlen_nonneg metadata).
  assert (member_header kMarker 0 = member_image kMarker []) as Em by (unfold member_image; by rewrite app_nil_r).
  unfold package in Hp. rewrite Em in Hp.
  eapply (import_step (S (S (S fuel))) w kMetadata metadata); [exact Hp|done|done|done|done|done| |done|].
  { destruct index as [i|]; cbn in Hb; [pose proof (zlen_nonneg i)|]; lia. }
  intros w1 H1. eapply (import_step (S (S fuel)) w1 kMarker []); [exact H1|done..| |done|].
  { destruct index as [i|]; cbn in Hb; [pose proof (zlen_nonneg i)|]; change (zlen (@nil Z)) with 0; lia. }
  intros w2 H2. destruct index as [i|].
  - eapply (import_step (S fuel) w2 kIndex i); [exact H2|done|done|done|by apply Hi|done| |done|].
    { cbn in Hb. change (zlen (@nil Z)) with 0. lia. }
    intros w3 H3. eapply import_last. exact H3.
  - eapply import_last. exact H2.
Qed.

Lemma import_package_ok metadata index w budget :
  fits metadata -> (forall i, index = Some i -> fits i) -> members_size (members metadata index) <= budget -> 0 < budget ->
  packaged (package metadata index) w ->
  attempt iw_script (import_turbo_package budget) w
    (fun b w' => b = bool_decide (is_Some index) /\ iw_dest w' = Some (members metadata index))
    (fun w' => iw_dest w' = None /\ iw_temp w' = []).
Proof.
  intros Hm Hi Hb Hb0 Hp. pose proof Hp as (_ & _ & _ & _ & Hd).
  assert (attempt iw_script (import_body budget) w
    (fun b w' => b = bool_decide (is_Some index) /\ iw_dest w' = Some (members metadata index)) (fun w' => iw_dest w' = None)) as H.
  { unfold import_body. eapply attempt_bind; [by apply imp_call_ok|]. cbv beta. intros _ w1 H1.
    eapply attempt_bind; [by apply imp_call_ok|]. cbv beta. intros _ w2 H2. pose proof H2 as (S2 & _).
    apply (attempt_bind _ _ _ _ (fun n w' => n = length (package metadata index) /\ w' = w2)); [eapply attempt_run; [done..|by rewrite S2]|].
    intros n w3 [-> ->]. destruct (package_length metadata index) as [k ->].
    eapply attempt_bind; [by apply import_package_loop|]. cbv beta. intros s w4 (-> & T4 & D4). cbn [seen_metadata seen_marker negb orb].
    apply (attempt_bind _ _ _ _ (fun _ w' => iw_temp w' = members metadata index /\ iw_dest w' = None)).
    { unfold attempt, imp_call. pose proof (next_outcome_spec (iw_script w4)) as Ho.
      destruct (next_outcome (iw_script w4)) as [[|m e] scr]; destruct Ho as [Ha Hc]; cbn; split; try done. by eapply Hc. }
    intros _ w5 [T5 D5]. apply (attempt_bind _ _ _ _ (fun _ w' => iw_dest w' = Some (members metadata index))).
    { eapply attempt_run; [by rewrite D5|done|]. cbn. by rewrite T5. }
    intros _ w6 D6. by apply attempt_ret. }
  unfold attempt, import_turbo_package in *. rewrite (proj2 (Z.eqb_neq _ _)), Hd by lia.
  destruct (import_body budget w) as [[b|[e| |]] w']; try done. destruct H as [H1 H2]. split; [done|]. by split.
Qed.



(** ** The importer on any stream *)

Section Hostile.
(** Nothing published yet; the stream ends cleanly or with an error. *)
Definition importing (w : ImportWorld) : Prop := iw_dest w = None /\ res_errno (iw_end w).

(** [m] from [w] ends well or with an errno, and publishes nothing. *)
Definition confined {A} (m : io ImportWorld A) (w : ImportWorld) (Q : A -> ImportWorld -> Prop) : Prop :=
  match m w with
  | (Ok a, w') => importing w' /\ Q a w'
  | (Err f, w') => any_errno f /\ iw_dest w' = None
  end.

Lemma confined_ret {A} (a : A) w Q : importing w -> Q a w -> confined (mret a) w Q.
Proof. by split. Qed.
Lemma confined_format {A} w (Q : A -> ImportWorld -> Prop) : importing w -> confined (io_lift format_error) w Q.
Proof. intros [H _]. split; [apply any_errno_intro|done]. Qed.
Lemma confined_lift {A} (r : res A) w (Q : A -> ImportWorld -> Prop) :
  importing w -> res_errno r -> (forall a, r = Ok a -> Q a w) -> confined (io_lift r) w Q.
Proof. intros Hw Hr HQ. unfold confined, io_lift. destruct r; [split; [done|by apply HQ]|]. split; [done|apply Hw]. Qed.
Lemma confined_bind {A B} (m : io ImportWorld A) (k : A -> io ImportWorld B) w P Q :
  confined m w P -> (forall a w', importing w' -> P a w' -> confined (k a) w' Q) -> confined (m ≫= k) w Q.
Proof.
  unfold confined, mbind, io_bind. intros Hm Hk. destruct (m w) as [[a|f] w1]; [|done].
  destruct Hm as [H1 H2]. by apply Hk.
Qed.
Lemma confined_mono {A} (m : io ImportWorld A) w (P Q : A -> ImportWorld -> Prop) :
  confined m w P -> (forall a w', P a w' -> Q a w') -> confined m w Q.
Proof. unfold confined. intros Hm H. destruct (m w) as [[a|f] w1]; [|done]. destruct Hm; split; auto. Qed.

(** The bytes and files are where they were. *)
Definition kept_bytes (w w' : ImportWorld) : Prop := iw_stream w' = iw_stream w /\ iw_temp w' = iw_temp w.
(** [n] bytes have been taken from the stream. *)
Definition consumed (w : ImportWorld) (n : Z) (w' : ImportWorld) : Prop :=
  zlen (iw_stream w') + n = zlen (iw_stream w) /\ iw_temp w' = iw_temp w.

Lemma imp_call_confined w : importing w -> confined imp_call w (fun _ w' => kept_bytes w w').
Proof.
  intros [H1 H2]. unfold confined, imp_call. destruct (next_outcome (iw_script w)) as [[|n e] s]; cbn.
  - by split.
  - split; [apply any_errno_intro|done].
Qed.

Lemma gz_read_confined w n :
  importing w -> 0 < n -> confined (gz_read n) w (fun bs w' => 0 <= zlen bs <= n /\ consumed w (zlen bs) w').
Proof.
  intros [H1 H2] Hn. unfold confined, gz_read, consumed. pose proof (zlen_nonneg (iw_stream w)).
  case_if; [split; [done|]; change (zlen (@nil Z)) with 0; split; [lia|]; split; [lia|done]|].
  case_if; bool_hyps.
  - cbn [iw_stream iw_temp]. split; [done|]. split; [len|]. split; [len|done].
  - destruct (iw_end w) as [[]|f] eqn:He; [|by split].
    cbn [iw_stream iw_temp]. split; [split; [done|]; cbn [iw_end]; by rewrite ?He|]. change (zlen (@nil Z)) with 0. split; [lia|]. split; [lia|done].
Qed.

Lemma gz_exact_confined w n :
  importing w -> 0 < n -> confined (gz_exact n) w (fun bs w' => zlen bs = n /\ consumed w n w').
Proof.
  intros Hw Hn. eapply confined_bind; [by apply gz_read_confined|]. cbv beta. intros bs w' Hw' [H1 H2].
  case_if; bool_hyps; [by apply confined_format|]. subst n. by apply confined_ret.
Qed.

Lemma drain_confined fuel w n :
  importing w -> zlen (iw_stream w) + 1 < Z.of_nat fuel -> confined (drain fuel n) w (fun _ w' => iw_temp w' = iw_temp w).
Proof.
  revert w n. induction fuel as [|fuel IH]; intros w n Hw Hf; [pose proof (zlen_nonneg (iw_stream w)); lia|]. cbn [drain].
  eapply confined_bind; [by apply gz_read_confined|]. cbv beta. intros bs w' Hw' (H1 & H2 & H3).
  case_if; bool_hyps; [by apply confined_ret|]. case_if; [by apply confined_format|].
  eapply confined_mono; [apply IH; [done|lia]|]. cbv beta. intros _ w'' ->. done.
Qed.

Lemma copy_member_confined fuel w n :
  importing w -> 0 <= n < Z.of_nat fuel -> confined (copy_member fuel n) w (fun bs w' => zlen bs = n /\ consumed w n w').
Proof.
  revert w n. induction fuel as [|fuel IH]; intros w n Hw Hf; [lia|]. cbn [copy_member].
  case_if; bool_hyps; [apply confined_ret; [done|]; subst n; split; [done|]; split; [lia|done]|].
  assert (0 < Z.min n kChunk <= n) as Hc by (unfold kChunk; lia).
  eapply confined_bind; [apply gz_exact_confined; [done|lia]|]. cbv beta. intros bs w1 W1 (B1 & C1 & C2).
  eapply confined_bind; [by apply imp_call_confined|]. cbv beta. intros _ w2 W2 [U1 U2].
  eapply confined_bind; [apply IH; [done|lia]|]. cbv beta. intros rest w3 W3 (B3 & C3 & C4).
  apply confined_ret; [done|]. rewrite zlen_app. unfold consumed. rewrite C4, U2, C2, <- U1 in *. split; [lia|]. split; [lia|done].
Qed.

(** The files in the private directory are the members seen, once each. *)
Definition unpacked (s : Seen) (temp : list (bytes * bytes)) : Prop :=
  NoDup temp.*1 /\ (kMetadata ∈ temp.*1 <-> seen_metadata s = true) /\ (kIndex ∈ temp.*1 <-> seen_index s = true) /\
  Forall (fun n => n = kMetadata \/ n = kIndex) temp.*1.

Lemma names_distinct : kMetadata <> kMarker /\ kMetadata <> kIndex /\ kIndex <> kMarker.
Proof. by split_and!. Qed.

Lemma seen_member_cases s name s' :
  seen_member s name = Some (false, s') ->
  name = kMetadata /\ seen_metadata s = false /\ s' = MkSeen true (seen_marker s) (seen_index s) \/
  name = kMarker /\ s' = MkSeen (seen_metadata s) true (seen_index s) \/
  name = kIndex /\ seen_index s = false /\ s' = MkSeen (seen_metadata s) (seen_marker s) true.
Proof.
  unfold seen_member. repeat (case_bool_decide as E; [intros [= Es <-]; subst name; auto 6|clear E]). done.
Qed.

(** A file of a name not there yet. *)
Lemma names_snoc (temp : list (bytes * bytes)) name data :
  NoDup temp.*1 -> name ∉ temp.*1 ->
  NoDup (temp ++ [(name, data)]).*1 /\ forall n, n ∈ (temp ++ [(name, data)]).*1 <-> n ∈ temp.*1 \/ n = name.
Proof.
  intros H1 H2. rewrite fmap_app, NoDup_app. cbn. split; [split_and!; [done| |apply NoDup_singleton]|].
  - intros x Hx ->%list_elem_of_singleton. done.
  - intros n. by rewrite elem_of_app, list_elem_of_singleton.
Qed.

Lemma unpacked_store s s' name data temp :
  unpacked s temp -> seen_member s name = Some (false, s') ->
  unpacked s' (if bool_decide (name = kMarker) then temp else temp ++ [(name, data)]).
Proof.
  intros (H1 & H2 & H3 & H4) Hs. destruct names_distinct as (D1 & D2 & D3).
  apply seen_member_cases in Hs as [(-> & Es & ->)|[(-> & ->)|(-> & Es & ->)]].
  - rewrite bool_decide_eq_false_2 by done.
    destruct (names_snoc temp kMetadata data H1) as [N1 N2]; [rewrite H2; congruence|].
    unfold unpacked. rewrite !N2, H2, H3. cbn [seen_metadata seen_index]. split; [done|]. split; [split; auto|]. split; [split; [intros [?|?]; [done|congruence]|auto]|].
    rewrite fmap_app, Forall_app. split; [done|]. by repeat constructor.
  - rewrite bool_decide_eq_true_2 by done. by split_and!.
  - rewrite bool_decide_eq_false_2 by done.
    destruct (names_snoc temp kIndex data H1) as [N1 N2]; [rewrite H3; congruence|].
    unfold unpacked. rewrite !N2, H2, H3. cbn [seen_metadata seen_index]. split; [done|]. split; [split; [intros [?|?]; [done|congruence]|auto]|]. split; [split; auto|].
    rewrite fmap_app, Forall_app. split; [done|]. apply List.Forall_cons; [by right|constructor].
Qed.

Lemma member_octal_errno h p n : res_errno (member_octal h p n).
Proof. unfold member_octal. case_if; auto with errno. Qed.

Lemma member_name_errno h : res_errno (member_name h).
Proof.
  unfold member_name. case_if; [auto with errno|]. case_if; [auto with errno|].
  apply res_errno_bind; [apply member_octal_errno|]. intros a _. repeat case_if; auto with errno.
Qed.

Lemma member_octal_range h p n v : member_octal h p n = Ok v -> 0 <= v.
Proof. unfold member_octal. case_if; [|done]. intros [= <-]. apply Z.mod_pos_bound. lia. Qed.

Lemma members_size_app a b : members_size (a ++ b) = members_size a + members_size b.
Proof. unfold members_size. induction a as [|f a IH]; cbn [app foldr]; lia. Qed.

Lemma import_member_confined w h s budget :
  importing w -> unpacked s (iw_temp w) ->
  confined (import_member h s budget) w (fun r w' => unpacked r.1 (iw_temp w') /\ 0 <= r.2 /\
    members_size (iw_temp w') + r.2 <= members_size (iw_temp w) + budget /\ zlen (iw_stream w') <= zlen (iw_stream w)).
Proof.
  intros Hw Hu. unfold import_member.
  eapply confined_bind; [apply (confined_lift _ _ (fun _ w' => w' = w)); [done|apply member_name_errno|done]|].
  cbv beta. intros name ? _ ->.
  eapply confined_bind; [apply (confined_lift _ _ (fun v w' => w' = w /\ 0 <= v)); [done|apply member_octal_errno|]|].
  { intros v Hv%member_octal_range. done. }
  cbv beta. intros size ? _ [-> Hsize].
  destruct (seen_member s name) as [[seen s']|] eqn:Hs; [|by apply confined_format].
  destruct seen; [by apply confined_format|]. case_if; [by apply confined_format|].
  case_if; [by apply confined_format|]. bool_hyps.
  apply (confined_bind _ _ _ (fun _ w' => kept_bytes w w')); [case_if; [by apply imp_call_confined|by apply confined_ret]|].
  intros _ w1 W1 [U1 T1]. eapply confined_bind; [apply copy_member_confined; [done|lia]|]. cbv beta. intros data w2 W2 (Hd & C2 & T2).
  assert (0 <= padding size) by (apply Z.mod_pos_bound; lia).
  apply (confined_bind _ _ _ (fun _ w' => zlen (iw_stream w') <= zlen (iw_stream w) /\ iw_temp w' = iw_temp w)).
  { case_if; bool_hyps; [apply confined_ret; [done|]; rewrite U1, T2, T1 in *; split; [lia|done]|].
    eapply confined_bind; [apply gz_exact_confined; [done|lia]|]. cbv beta. intros pad w3 W3 (_ & C3 & T3).
    case_if; [by apply confined_format|]. apply confined_ret; [done|]. rewrite U1, T3, T2, T1 in *. split; [lia|done]. }
  intros _ w3 W3 [L3 T3].
  apply (confined_bind _ _ _ (fun _ w' => zlen (iw_stream w') <= zlen (iw_stream w) /\
    iw_temp w' = if bool_decide (name = kMarker) then iw_temp w else iw_temp w ++ [(name, data)])).
  { case_bool_decide; cbn [negb]; [by apply confined_ret|].
    eapply confined_bind; [by apply imp_call_confined|]. cbv beta. intros _ w4 W4 [U4 T4].
    eapply confined_bind; [by apply imp_call_confined|]. cbv beta. intros _ w5 W5 [U5 T5].
    split; [done|]. cbn. by rewrite U5, U4, T5, T4, T3. }
  intros _ w4 W4 [L4 T4]. apply confined_ret; [done|]. cbn [fst snd]. rewrite T4.
  split; [by apply (unpacked_store s)|]. split; [lia|]. split; [|done].
  case_bool_decide; [lia|]. rewrite members_size_app. cbn. lia.
Qed.

Lemma import_loop_confined fuel w s budget :
  importing w -> unpacked s (iw_temp w) -> 0 <= budget -> zlen (iw_stream w) < Z.of_nat fuel ->
  confined (import_loop fuel s budget) w (fun s' w' => unpacked s' (iw_temp w') /\
    members_size (iw_temp w') <= members_size (iw_temp w) + budget).
Proof.
  revert w s budget. induction fuel as [|fuel IH]; intros w s budget Hw Hu Hb Hf; [pose proof (zlen_nonneg (iw_stream w)); lia|].
  cbn [import_loop]. eapply confined_bind; [by apply gz_exact_confined|]. cbv beta. intros h w1 W1 (_ & C1 & T1).
  unfold kBlock in C1. case_if.
  - eapply confined_bind; [by apply gz_exact_confined|]. cbv beta. intros h' w2 W2 (_ & C2 & T2).
    case_if; [by apply confined_format|].
    apply (confined_bind _ _ _ (fun n w' => w' = w2 /\ n = length (iw_stream w2))); [by split|]. intros n ? _ [-> ->].
    eapply confined_bind; [apply drain_confined; [done|unfold zlen; lia]|]. cbv beta. intros _ w3 W3 T3.
    apply confined_ret; [done|]. rewrite T3, T2, T1. split; [done|lia].
  - eapply confined_bind; [apply import_member_confined; [done|by rewrite T1]|]. cbv beta.
    intros [s' budget'] w2 W2 (U2 & B2 & M2 & L2). cbn [fst snd] in *.
    eapply confined_mono; [apply IH; [done|done|done|lia]|]. cbv beta. intros s'' w3 [U3 M3]. rewrite T1 in M2. split; [done|lia].
Qed.
Lemma confined_then {A B} (m : io ImportWorld A) (k : A -> io ImportWorld B) w P (R : res B * ImportWorld -> Prop) :
  confined m w P -> (forall f w', any_errno f -> iw_dest w' = None -> R (Err f, w')) ->
  (forall a w', importing w' -> P a w' -> R (k a w')) -> R ((m ≫= k) w).
Proof.
  unfold confined, mbind, io_bind. intros Hm He Hk. destruct (m w) as [[a|f] w1]; destruct Hm; auto.
Qed.

(** What an import publishes. *)
Definition publishes (budget : Z) (b : bool) (files : list (bytes * bytes)) : Prop :=
  NoDup files.*1 /\ kMetadata ∈ files.*1 /\ (kIndex ∈ files.*1 <-> b = true) /\
  Forall (fun n => n = kMetadata \/ n = kIndex) files.*1 /\ members_size files <= budget.

Lemma import_body_result w budget :
  importing w -> iw_temp w = [] -> 0 <= budget ->
  match import_body budget w with
  | (Ok b, w') => exists files, iw_dest w' = Some files /\ publishes budget b files
  | (Err f, w') => any_errno f /\ iw_dest w' = None
  end.
Proof.
  intros Hw Ht Hb. unfold import_body.
  eapply confined_then; [by apply imp_call_confined|done|]. cbv beta. intros _ w1 W1 [U1 T1].
  eapply confined_then; [by apply imp_call_confined|done|]. cbv beta. intros _ w2 W2 [U2 T2].
  apply (confined_then _ _ _ (fun n w' => w' = w2 /\ n = length (iw_stream w2))); [by split|done|]. intros n ? _ [-> ->].
  assert (iw_temp w2 = []) as Et by congruence.
  eapply confined_then; [apply import_loop_confined; [done| |done|unfold zlen; lia]|done|].
  { rewrite Et. split; [apply NoDup_nil_2|]. split; [by split; [intros ?%not_elem_of_nil|]|].
    split; [by split; [intros ?%not_elem_of_nil|]|]. apply Forall_nil. done. }
  cbv beta. intros s w3 W3 [(H1 & H2 & H3 & H4) M3]. rewrite Et in M3. cbn in M3.
  case_if; [split; [apply any_errno_intro|apply W3]|]. bool_hyps.
  eapply confined_then; [by apply imp_call_confined|done|]. cbv beta. intros _ w4 [D4 _] [U4 T4].
  unfold io_run, mbind, io_bind. rewrite D4, T4. cbn. eexists. split; [done|].
  split; [done|]. split; [by apply H2|]. split; [done|]. split; [done|lia].
Qed.
End Hostile.

(** C38. Importing any stream, truncated, corrupt or hostile, under any failures
    of the environment ends: either it publishes, where nothing was, exactly one
    metadata layer and at most one index, within the budget in total, or it
    fails with an errno, the destination as it was and the private directory
    gone. *)
Theorem turbo_import_confined w budget :
  iw_temp w = [] -> res_errno (iw_end w) -> 0 <= budget ->
  match import_turbo_package budget w with
  | (Ok b, w') => iw_dest w = None /\ exists files, iw_dest w' = Some files /\ publishes budget b files
  | (Err f, w') => any_errno f /\ iw_dest w' = iw_dest w /\ iw_temp w' = []
  end.
Proof.
  intros Ht He Hb. unfold import_turbo_package. case_if; [by split; [apply any_errno_intro|]|].
  destruct (iw_dest w) as [d|] eqn:Hd; [by split; [apply any_errno_intro|]|].
  pose proof (import_body_result w budget ltac:(done) Ht Hb) as H.
  destruct (import_body budget w) as [[b|f] w']; [by split|]. by destruct H.
Qed.

#[local] Transparent member_header zeros.

(** The stream of a package cut in its last block. *)
Lemma turbo_import_confined_witness :
  let w := IW [] (ztake 3000 (package (replicate 700 9) None)) (Err (Errno EINVAL)) false [] None in
  (import_turbo_package 4096 w).1 = Err (Errno EINVAL) /\
  match import_turbo_package 4096 w with
  | (Ok b, w') => iw_dest w = None /\ exists files, iw_dest w' = Some files /\ publishes 4096 b files
  | (Err f, w') => any_errno f /\ iw_dest w' = iw_dest w /\ iw_temp w' = []
  end.
Proof.
  split; [vm_compute; reflexivity|]. apply turbo_import_confined; [reflexivity|apply any_errno_intro|lia].
Defined.
